(* ===== verification/_CoqProject ===== *)
-Q . S2P
Prelude.v
GoStrings.v
GoTime.v
GoFloat.v
GoRegexp.v
GoHeap.v
GoOrder.v
WalCodec.v
Wal.v
WalLemmas.v
WalProofs.v
DurableLog.v
Buffer.v
WalTheorems.v
BufferTheorems.v
FieldMapping.v
ConcurrentBuffer.v
ConcurrentTheorems.v
ConcurrentDemo.v
ConsistentHash.v
GoCrypto.v
IdGen.v
Retry.v
LogBuffer.v
OptimisticLock.v
RedisLock.v
Discovery.v
DiscoveryTheorems.v
Failover.v
SqlSanitizer.v
SelectQuery.v
TableExtractor.v
QueryCache.v
QueryCacheTheorems.v
FileCache.v
FileCacheTheorems.v
ParquetFiles.v
Compaction.v
CompactionTheorems.v
Aggregation.v
AggregationTheorems.v
IndexSystem.v
IndexTheorems.v
Coordinator.v
CoordinatorTheorems.v
Pruning.v
PruningTheorems.v
QueryFilesTheorems.v
QueryEngine.v
QueryEngineTheorems.v
RedisStore.v
TableConfig.v
FieldEncryption.v
TableManager.v
TableManagerTheorems.v
TableLifecycle.v
MetadataStore.v
MetadataBackup.v
MetadataSync.v
MetadataFrames.v
MetadataRoundtrip.v
MetadataDemo.v
BackupStore.v
BackupExecutor.v
BackupTheorems.v
BackupScheduler.v
BackupDemo.v
Service.v
ServiceTheorems.v
ServiceDemo.v
RateLimiter.v
WindowLimiter.v
Auth.v
Tokens.v
TokenTheorems.v
Throttle.v
Checkpoint.v
Replicator.v
ReplicatorTheorems.v
ReplicatorConvergence.v
