(* ===== verification/Prelude.v ===== *)
(** * minIODB: a verification development of the storage node

    minIODB is a Go database node: it takes rows over gRPC and REST, keeps
    them in a buffer guarded by a write-ahead log, writes them as Parquet files
    to MinIO, keeps the names of files, tables, services and tokens in Redis
    and queries the files with DuckDB. This library models the parts that
    carry the node's own logic and proves what they promise. The operations
    are executable definitions; nothing is assumed.

    ** Shared notions

    - Prelude: errors as [result], machine integers as [Z] with Go's
      wrap-around written out, automation and list lemmas.
    - GoStrings, GoTime, GoFloat, GoRegexp, GoHeap, GoOrder, GoCrypto: what the
      code uses of Go's library. Byte strings; instants as nanoseconds with the
      layouts of [time.Parse] and [Format]; float64 as the Standard Library's
      model of IEEE 754; regular expressions with leftmost matches;
      [container/heap]; comparisons, [sort.Slice] and [range] over a map by
      their contracts ([SliceSort], [MapRange]); base64, AES and GCM.
    - RedisStore: computations that may fail, a script of answers for the calls
      of servers (an answer may be lost before or after the effect), Redis
      commands with the glob patterns of SCAN, and what they leave alone.

    ** The parts, their files and their sources

    Writing.
    - WalCodec, Wal, WalLemmas, WalProofs, WalTheorems (internal/wal/wal.go):
      the record format with its CRC-32 and the reader; the open log with
      [New], [Append], [Replay], [Truncate] and [Close] on a disk whose files
      know how much of them is fsynced and whose space can run out. [crash]
      cuts each file back to no less than its fsynced part. The reads of a
      directory and of its files succeed, fail or break off ([reads]).
    - DurableLog: the interface between the log and the buffers, a class of
      operations and a class of laws, with the log as its instance.
    - Buffer, BufferTheorems (internal/buffer/manager.go, durable_manager.go):
      the buffer in memory and the logged one; a flush is its three critical
      sections, so that flushes and adds interleave.
    - FieldMapping, ConcurrentBuffer, ConcurrentTheorems, ConcurrentDemo
      (concurrent_buffer.go): columns, schema and rows of a flushed file; rows
      per table, id and day with the flush paths, the task queue, recovery and
      the truncation of the log.
    - ParquetFiles, Compaction, CompactionTheorems (internal/compaction and the
      writer it uses): which small files are merged, and the merge.
    - Checkpoint, Replicator, ReplicatorTheorems, ReplicatorConvergence
      (internal/replication): copying the objects of one store to another.

    Querying.
    - SqlSanitizer, SelectQuery (internal/security/sql_sanitizer.go,
      pkg/validator): quoting, and the checks of statements.
    - TableExtractor, Pruning, PruningTheorems, QueryFilesTheorems,
      QueryEngine, QueryEngineTheorems, QueryCache, QueryCacheTheorems,
      FileCache, FileCacheTheorems (internal/query): the tables and columns of
      a statement, which files it reads, deletion by rewriting, views and
      execution, and the two caches.
    - Aggregation, AggregationTheorems, Coordinator, CoordinatorTheorems
      (internal/coordinator): the analysis of queries over several nodes and
      how their answers are put together.
    - IndexSystem, IndexTheorems (internal/storage/index_system.go): Bloom
      filters, minimum and maximum, inverted indexes.

    Tables, metadata and service.
    - TableConfig, TableManager (with its Module ConfigManager),
      TableManagerTheorems, TableLifecycle
      (internal/service/table_manager.go, table_config_manager.go,
      minio_config_store.go and internal/metadata/table_config.go).
    - MetadataStore, MetadataBackup, MetadataSync, MetadataFrames,
      MetadataRoundtrip, MetadataDemo (internal/metadata): a Redis whose keys
      carry deadlines and times of access, buckets and a clock; backups,
      recoveries, and the comparison of versions at the start of a node.
    - BackupStore, BackupExecutor, BackupTheorems, BackupScheduler, BackupDemo
      (internal/backup and the start of it in cmd/app.go): two object servers
      next to the servers of the metadata; the plans in Redis or in memory;
      full, table and metadata backups and restores, with one goroutine per
      table in any interleaving; retention; the entries of cron.
    - Service, ServiceTheorems, ServiceDemo
      (internal/service/miniodb_service.go): the handlers, over the class
      [Components] of what they call and its laws.

    Guarding.
    - Auth, Tokens, TokenTheorems, FieldEncryption, WindowLimiter, RateLimiter
      (internal/security and the token handlers of the transports):
      credentials, tokens and their revocation, encryption of fields, limits.

    Cluster and tools.
    - ConsistentHash (pkg/consistenthash, with SHA-256), IdGen (pkg/idgen),
      Retry (pkg/retry), OptimisticLock and RedisLock (pkg/lock), Discovery,
      DiscoveryTheorems (internal/discovery), Failover (pkg/pool), Throttle
      (pkg/throttle), LogBuffer (internal/dashboard/logbuffer).

    Each operation of the source is a definition with the source's name; its
    state is a record of the fields it reads and writes. A row's way:
    [Service.WriteData] checks it and gives it to the buffer;
    [ConcurrentBuffer.Add] or [Durable.Add] puts it in memory and appends it
    to the log through [DurableLog]; a flush lays the file out with
    [FieldMapping.writeParquetFile], and after the upload the log is truncated;
    a restart replays the log; compaction merges files and replication copies
    them. A query is checked, its files are picked with
    [Pruning.OptimizeQuery], viewed and run by [QueryEngine.ExecuteQuery], and
    its results are merged by the coordinator and streamed by the service.

    ** What the theorems show

    Every theorem states its conditions; the main ones are named here.

    - The log (C1 to C6): on a log that syncs on every write, names its files
      freshly and can read them, acknowledged records survive crashes and a
      replay is ordered; what each outcome of an append means; truncation is
      safe; a crashed directory reopens; the reader accepts exactly the
      encodings. Files that cannot be read are outcomes of the model, and two
      theorems show what the code then loses.
    - The buffers (C7 to C11): crash safety as long as nothing runs during a
      flush, and conservation of rows under every interleaving; a failed add
      leaves no trace also when calls that do not shorten its key run beside
      it; recovery rebuilds the buffer.
    - Rows and files (C12 to C15): rows reach their columns; compaction keeps
      them although calls fail, in an undisturbed bucket; a write is
      acknowledged only with its row; deletion removes exactly the rows of the
      quoted identifier from the objects its index names.
    - Tables and queries (C16 to C21): tables do not touch each other; a new
      table reads back up to the fields that are not stored; a view has every
      row that may match; streams end and are complete; pruning keeps what
      matches as far as the recorded bounds are right; a distributed top-n of
      nodes that all answer is the top-n of their rows.
    - Guards (C22 to C24): which tokens are accepted; revocation without Redis
      for tokens that expire within a day; encrypted fields read back.
    - Caches (C25 to C27): hits are current while Redis answers, and files that
      this process copied are intact; the list of use is a list of use.
    - Metadata (C28, C29): a backup taken in quiet times is restored; the start
      of a node without automatic repair keeps newer metadata.
    - Backups (C30 to C32): a completed backup is restored; a plan has at most
      one entry; the store of the plans is a list.
    - Cluster (C33 to C36): replication is safe and converges when no object
      changes while it is copied; locks exclude.
    - Statements, limits and identifiers (C37 to C40): what passes the checks
      and how it starts; quoting reads back; rates are bounded, with a burst
      more for every clean-up that forgets a client; Snowflake identifiers
      increase.
    - Further theorems without a number: refresh tokens are used once, failover
      recovers, node states follow their rules, the indexes never exclude what
      is there, and others.
    - What goes wrong: examples named in the manifest's findings, found while
      proving the above, in which the code loses or misses something or breaks
      a promise. Each is a theorem about the same definitions; the positive
      theorem states the condition that excludes it.

    ** Bounds and fuel

    Loops that are not structural take fuel that is always enough: a file's
    length for the record reader (a record takes at least 25 bytes,
    [read_loop_fuel]); the number of keys for [batchFlush] with a positive
    batch size; [MaxAttempts] for [Retry.Do]; the number of records for
    [send_batches], as every batch has at least one; the length of the text
    for regular expressions and [Fields], where each step consumes a
    character; a number of years from 1970 for the calendar, as a year has at
    least 365 days; the number of objects left to copy, known after a
    goroutine's first step, for [run_on] ([interleave_inv]). Waiting for the next millisecond in [IdGen] takes the clock
    readings as a list. Runs of concurrent parts are sequences of atomic steps
    of any length.

    ** What is left to the environment

    Classes and parameters stand for code outside the repository, with laws
    only where a theorem needs them, and with an instance: the JSON codecs
    ([WalRecordJSON], [RowJSON], [ConfigJSON], [BlacklistJSON],
    [SnapshotJSON], [PlanJSON], [ManifestJSON]), the parsers of cron, golang-jwt ([JWT], [JWTLaws]), the Redis commands of the
    lock ([RedisCommands], [RedisLaws]), the components of the service
    ([Components], [ComponentLaws]), the Bloom filters and bitmaps ([Bloom],
    [Roaring]), DuckDB, the compilation of configured patterns, the local day
    of a time, Unicode case mapping of arbitrary text, [ParseFloat] and the
    text of floats. Arguments stand for what the runtime decides: the clock,
    random bytes, the outcome of system calls, uploads and remote calls, the
    case a [select] takes, the order of map iteration where it matters.

    ** What is not modelled, and why

    The clients of MinIO, Redis, DuckDB and Kafka and the Parquet encoding are
    libraries. The dashboard, metrics, logging, loading of settings, start-up
    and shutdown, publishing of events and most handlers of the transports
    only convert, show or forward. Tickers and workers are steps, their loops
    are left out. Executions of backup plans run one after the other. Query
    approximation, the documents of single files and the storage engine's
    shards are not modelled.

    ** This file

    Errors, machine integers, automation and list lemmas. *)

From stdpp Require Export prelude gmap strings list fin_maps sorting pretty.
From Stdlib Require Export ZArith Lia.

#[global] Open Scope Z_scope.

(** ** Errors

    A Go function that returns [(T, error)] is a function into [result E T]. *)

Inductive result (E A : Type) : Type :=
  | Ok (a : A)
  | Err (e : E).
Arguments Ok {E A} a.
Arguments Err {E A} e.

Definition is_ok {E A} (r : result E A) : bool :=
  match r with Ok _ => true | Err _ => false end.

Declare Scope go_scope.
Delimit Scope go_scope with go.

Notation "'let!' x := c1 'in' c2" :=
  (match c1 with Ok x => c2 | Err e => Err e end)
  (at level 10, x name, c1 at level 100, c2 at level 200) : go_scope.
Notation "'let!' ' p := c1 'in' c2" :=
  (match c1 with Ok p => c2 | Err e => Err e end)
  (at level 10, p strict pattern, c1 at level 100, c2 at level 200) : go_scope.

(** ** Machine integers

    Go's conversions to fixed-width integers truncate modulo the width. *)

Definition max_int64 : Z := 2 ^ 63 - 1.
Definition min_int64 : Z := - 2 ^ 63.

Definition uint16 (z : Z) : Z := z mod 2 ^ 16.
Definition uint32 (z : Z) : Z := z mod 2 ^ 32.
Definition uint64 (z : Z) : Z := z mod 2 ^ 64.
Definition int64 (z : Z) : Z := (z + 2 ^ 63) mod 2 ^ 64 - 2 ^ 63.

Definition in_uint (w z : Z) : Prop := 0 <= z < 2 ^ w.
Definition in_int64 (z : Z) : Prop := min_int64 <= z <= max_int64.

#[global] Instance in_uint_dec w z : Decision (in_uint w z).
Proof. unfold in_uint. apply _. Defined.
#[global] Instance in_int64_dec z : Decision (in_int64 z).
Proof. unfold in_int64. apply _. Defined.

Create HintDb miniodb.
Create Rewrite HintDb miniodb.

Lemma uint64_small z : in_uint 64 z -> uint64 z = z.
Proof. unfold in_uint, uint64. intros. by apply Z.mod_small. Qed.

Lemma uint32_small z : in_uint 32 z -> uint32 z = z.
Proof. unfold in_uint, uint32. intros. by apply Z.mod_small. Qed.

Lemma uint64_range z : in_uint 64 (uint64 z).
Proof. unfold in_uint, uint64. apply Z.mod_pos_bound. lia. Qed.

Lemma uint32_range z : in_uint 32 (uint32 z).
Proof. unfold in_uint, uint32. apply Z.mod_pos_bound. lia. Qed.

Lemma int64_small z : in_int64 z -> int64 z = z.
Proof.
  unfold in_int64, int64, min_int64, max_int64. intros.
  rewrite Z.mod_small; lia.
Qed.

Lemma int64_range z : in_int64 (int64 z).
Proof.
  unfold in_int64, int64, min_int64, max_int64.
  pose proof (Z.mod_pos_bound (z + 2 ^ 63) (2 ^ 64)). lia.
Qed.

(** Reinterpreting an [int64] as [uint64] and back loses nothing. *)
Lemma int64_uint64 z : in_int64 z -> int64 (uint64 z) = z.
Proof.
  intros Hz. rewrite <- (int64_small z) at 2 by done.
  unfold int64, uint64. by rewrite Zplus_mod_idemp_l.
Qed.

#[export] Hint Resolve uint64_range uint32_range int64_range : miniodb.
#[export] Hint Rewrite uint64_small uint32_small int64_small using done : miniodb.

(** ** Automation *)

(** Split every [if]/[match] of the goal or of the hypotheses, keeping the
    equation of the scrutinee. *)
Ltac case_all :=
  repeat match goal with
  | |- context [match ?x with _ => _ end] => destruct x eqn:?
  | H : context [match ?x with _ => _ end] |- _ => destruct x eqn:?
  end.

(** Turn boolean comparisons into propositions. *)
Ltac b2p :=
  repeat match goal with
  | H : (_ <? _) = true |- _ => apply Z.ltb_lt in H
  | H : (_ <? _) = false |- _ => apply Z.ltb_ge in H
  | H : (_ <=? _) = true |- _ => apply Z.leb_le in H
  | H : (_ <=? _) = false |- _ => apply Z.leb_gt in H
  | H : (_ =? _) = true |- _ => apply Z.eqb_eq in H
  | H : (_ =? _) = false |- _ => apply Z.eqb_neq in H
  | H : (_ && _) = true |- _ => apply andb_true_iff in H as [? ?]
  | H : (_ || _) = false |- _ => apply orb_false_iff in H as [? ?]
  | H : negb _ = true |- _ => apply negb_true_iff in H
  | H : negb _ = false |- _ => apply negb_false_iff in H
  | H : bool_decide _ = true |- _ => apply bool_decide_eq_true in H
  | H : bool_decide _ = false |- _ => apply bool_decide_eq_false in H
  end.

(** Close a goal that is arithmetic after splitting. *)
Ltac crush := repeat (simplify_eq/=; case_all; b2p); simplify_eq/=; try done; try lia.

(** ** Lists *)

Abbreviation Zlength l := (Z.of_nat (length l)).

(** A slice of length [n]: [io.ReadFull] succeeds iff enough bytes are left. *)
Lemma take_drop_app {A} (l k : list A) n :
  n = length l -> take n (l ++ k) = l /\ drop n (l ++ k) = k.
Proof. intros ->. split; [apply take_app_length | apply drop_app_length]. Qed.

Lemma prefix_take {A} (p l : list A) : p `prefix_of` l -> p = take (length p) l.
Proof. intros [k ->]. by rewrite take_app_length. Qed.

(** A prefix of [a ++ b] ends inside [a] or is [a] with a prefix of [b]. *)
Lemma prefix_app_cases {A} (p a b : list A) :
  p `prefix_of` a ++ b ->
  (length p < length a)%nat \/ exists p', p = a ++ p' /\ p' `prefix_of` b.
Proof.
  intros [q Hq]. destruct (decide (length p < length a)%nat) as [|Hge]; [by left|right].
  assert (take (length a) p = a) as Ha.
  { transitivity (take (length a) (p ++ q)); [by rewrite take_app_le by lia|].
    by rewrite <- Hq, take_app_length. }
  exists (drop (length a) p). split; [by rewrite <- Ha at 1; rewrite take_drop|].
  exists q. apply (app_inv_head a). rewrite Hq, app_assoc. f_equal.
  by rewrite <- Ha at 1; rewrite take_drop.
Qed.

Lemma prefix_app_short {A} (p a b : list A) :
  p `prefix_of` a ++ b -> (length p <= length a)%nat -> p `prefix_of` a.
Proof.
  intros Hp Hl. rewrite (prefix_take _ _ Hp), take_app_le by done.
  exists (drop (length p) a). by rewrite take_drop.
Qed.

Lemma take_prefix {A} n (l : list A) : take n l `prefix_of` l.
Proof. exists (drop n l). by rewrite take_drop. Qed.

Lemma take_prefix_le {A} n m (l : list A) : (n <= m)%nat -> take n l `prefix_of` take m l.
Proof. intros. rewrite <- (Nat.min_l n m), <- take_take by done. apply take_prefix. Qed.

(** Reading past the end of a proper prefix. *)
Lemma prefix_length_lt {A} (p l : list A) :
  p `prefix_of` l -> p <> l -> (length p < length l)%nat.
Proof.
  intros [k ->] Hne. rewrite length_app. destruct k; simpl; [|lia].
  by rewrite app_nil_r in Hne.
Qed.

(** The maximum of a list of non-negative numbers, as Go's running-maximum
    loops compute it (zero for the empty list). *)
Definition max_list (l : list Z) : Z := foldl Z.max 0 l.

Lemma foldl_max_acc l a : foldl Z.max a l = Z.max a (foldl Z.max 0 l) \/ a < 0.
Proof.
  destruct (decide (a < 0)); [by right|left].
  revert a n. induction l as [|x l IH]; intros a Ha; simpl; [lia|].
  destruct (decide (0 <= x)).
  - rewrite (IH (Z.max a x)), (IH (Z.max 0 x)) by lia. lia.
  - rewrite (Z.max_l a x), (Z.max_l 0 x) by lia. by apply IH.
Qed.

Lemma max_list_app l k : max_list (l ++ k) = Z.max (max_list l) (max_list k).
Proof.
  unfold max_list. rewrite foldl_app.
  assert (0 <= foldl Z.max 0 l) as Hl.
  { assert (forall a, a <= foldl Z.max a l) as Hm; [|apply Hm].
    induction l as [|x l IH]; intros a; simpl; [lia|].
    specialize (IH (Z.max a x)). lia. }
  destruct (foldl_max_acc k (foldl Z.max 0 l)); lia.
Qed.

Lemma max_list_nonneg l : 0 <= max_list l.
Proof.
  induction l as [|x l IH] using rev_ind; [unfold max_list; simpl; lia|].
  rewrite max_list_app. lia.
Qed.

Lemma max_list_ge l x : x ∈ l -> x <= max_list l.
Proof.
  intros (l1 & l2 & ->)%list_elem_of_split.
  rewrite max_list_app. change (x :: l2) with ([x] ++ l2).
  rewrite max_list_app. unfold max_list at 2. simpl. lia.
Qed.

Lemma max_list_in l : max_list l = 0 \/ max_list l ∈ l.
Proof.
  induction l as [|x l IH] using rev_ind; [by left|].
  rewrite max_list_app. change (max_list [x]) with (Z.max 0 x).
  pose proof (max_list_nonneg l).
  destruct (Z.max_spec (max_list l) (Z.max 0 x)) as [[? ->]|[? ->]].
  - right. rewrite elem_of_app, list_elem_of_singleton. right. lia.
  - destruct IH as [->|Hin]; [by left|right].
    rewrite elem_of_app. by left.
Qed.

(** A strictly increasing list has no repetitions. *)
Lemma increasing_NoDup (l : list Z) : StronglySorted Z.lt l -> NoDup l.
Proof.
  induction 1 as [|x l Hs IH Hx]; constructor; [|done].
  intros Hin. rewrite Forall_forall in Hx. specialize (Hx x Hin). lia.
Qed.
