(* ===== verification/GoStrings.v ===== *)
(** * The parts of Go's strings, strconv, sort and path/filepath the code uses

    A Go string is a sequence of bytes, here Rocq's [string] (of 8-bit
    characters). Decimal printing is stdpp's [pretty]; [sort.Strings] and
    [os.ReadDir] order by bytes, which is stdpp's [String.le]. *)

From S2P Require Import Prelude.
From Stdlib Require Import Ascii.
#[local] Open Scope Z_scope.

(** [strconv.Itoa] and the [%d] verb. *)
Definition Itoa (z : Z) : string := pretty z.

(** [strings.HasPrefix] *)
Definition HasPrefix (s p : string) : bool := String.prefix p s.

(** Whether a byte occurs. *)
Fixpoint has_char (c : ascii) (s : string) : bool :=
  match s with "" => false | String x s' => bool_decide (x = c) || has_char c s' end.

(** [filepath.Ext]: the suffix from the last dot of the last element. *)
Fixpoint Ext (s : string) : string :=
  match s with
  | "" => ""
  | String c s' =>
      let e := Ext s' in
      if bool_decide (e = "") then (if bool_decide (c = "."%char) && negb (has_char "/" s') then s else "") else e
  end.

Lemma Ext_app s t e : Ext t = e -> e <> "" -> Ext (s +:+ t) = e.
Proof.
  intros Ht He. induction s as [|c s IH]; [done|].
  change (Ext (String c s +:+ t)) with (let e := Ext (s +:+ t) in
    if bool_decide (e = "") then (if bool_decide (c = "."%char) && negb (has_char "/" (s +:+ t)) then String c (s +:+ t) else "") else e).
  cbv zeta. rewrite IH. by rewrite bool_decide_false.
Qed.

(** [sort.Strings] *)
Definition SortStrings (l : list string) : list string := merge_sort String.le l.

(** [strings.ToLower] and [strings.ToUpper] on ASCII letters; other bytes are
    kept, as the code only applies them to ASCII keywords and column names. *)
Definition lower_char (c : ascii) : ascii :=
  let n := N_of_ascii c in
  if ((65 <=? n) && (n <=? 90))%N then ascii_of_N (n + 32) else c.

Definition upper_char (c : ascii) : ascii :=
  let n := N_of_ascii c in
  if ((97 <=? n) && (n <=? 122))%N then ascii_of_N (n - 32) else c.

Fixpoint map_string (f : ascii -> ascii) (s : string) : string :=
  match s with
  | "" => ""
  | String c s' => String (f c) (map_string f s')
  end.

Definition ToLower : string -> string := map_string lower_char.
Definition ToUpper : string -> string := map_string upper_char.

(** [strings.Contains] *)
Fixpoint Contains (s sub : string) : bool :=
  String.prefix sub s ||
  match s with
  | "" => false
  | String _ s' => Contains s' sub
  end.

(** [strings.Split] at a one-byte separator. *)
Fixpoint Split (c : ascii) (s : string) : list string :=
  match s with
  | "" => [""]
  | String x s' =>
      if bool_decide (x = c) then "" :: Split c s'
      else match Split c s' with
           | p :: ps => String x p :: ps
           | [] => [String x ""]
           end
  end.

Lemma string_cons_app c a b : String c a +:+ b = String c (a +:+ b).
Proof. done. Qed.

Lemma string_app_assoc a b c : a +:+ (b +:+ c) = (a +:+ b) +:+ c.
Proof. induction a as [|x a IH]; [done|]. exact (f_equal (String x) IH). Qed.

(** ** Byte order *)

Lemma compare_refl s : String.compare s s = Eq.
Proof.
  induction s as [|c s IH]; simpl; [done|].
  unfold Ascii.compare. by rewrite N.compare_refl.
Qed.

Lemma compare_app_same p a b : String.compare (p +:+ a) (p +:+ b) = String.compare a b.
Proof.
  induction p as [|c p IH]; simpl; [done|].
  unfold Ascii.compare. by rewrite N.compare_refl.
Qed.

Lemma compare_Lt_le a b : String.compare a b = Lt -> String.le a b /\ a <> b.
Proof.
  intros H. split.
  - unfold String.le, String.leb. by rewrite H.
  - intros ->. by rewrite compare_refl in H.
Qed.

Lemma compare_Lt_asym a b : String.compare a b = Lt -> ~ String.le b a.
Proof.
  intros H. unfold String.le, String.leb. rewrite String.compare_antisym, H. simpl. auto.
Qed.

(** ** Decimal printing keeps the order of numbers with as many digits *)

Lemma pretty_go_app x s t : pretty_N_go x s +:+ t = pretty_N_go x (s +:+ t).
Proof.
  revert s. induction (N.lt_wf_0 x) as [x _ IH]; intros s.
  assert (x = 0 \/ 0 < x)%N as [->|?] by lia; [by rewrite !pretty_N_go_0|].
  rewrite !(pretty_N_go_step x) by done. rewrite IH by (by apply N.div_lt). done.
Qed.

Lemma pretty_go_same x a b :
  String.compare (pretty_N_go x a) (pretty_N_go x b) = String.compare a b.
Proof.
  rewrite <- (pretty_go_app x "" a : _ = pretty_N_go x a),
    <- (pretty_go_app x "" b : _ = pretty_N_go x b).
  apply compare_app_same.
Qed.

Lemma pretty_char_lt x y :
  (x < y < 10)%N -> Ascii.compare (pretty_N_char x) (pretty_N_char y) = Lt.
Proof.
  intros.
  assert (x = 0 \/ x = 1 \/ x = 2 \/ x = 3 \/ x = 4 \/ x = 5 \/ x = 6 \/ x = 7 \/ x = 8)%N as Hx by lia.
  assert (y = 1 \/ y = 2 \/ y = 3 \/ y = 4 \/ y = 5 \/ y = 6 \/ y = 7 \/ y = 8 \/ y = 9)%N as Hy by lia.
  destruct_or! Hx; subst; destruct_or! Hy; subst; (done || lia).
Qed.

Lemma pretty_go_lt k x y s t :
  (10 ^ N.of_nat k <= x)%N -> (x < y)%N -> (y < 10 ^ N.of_nat (S k))%N ->
  String.compare (pretty_N_go x s) (pretty_N_go y t) = Lt.
Proof.
  revert x y s t. induction k as [|k IH]; intros x y s t Hx Hxy Hy.
  - change (10 ^ N.of_nat 0)%N with 1%N in Hx. change (10 ^ N.of_nat 1)%N with 10%N in Hy.
    rewrite (pretty_N_go_step x), (pretty_N_go_step y) by lia.
    rewrite !N.div_small, !pretty_N_go_0, !N.mod_small by lia.
    cbn [String.compare]. by rewrite pretty_char_lt by lia.
  - rewrite (Nat2N.inj_succ k), N.pow_succ_r' in Hx.
    rewrite (Nat2N.inj_succ (S k)), N.pow_succ_r' in Hy.
    pose proof (N.pow_nonzero 10 (N.of_nat k)).
    rewrite (pretty_N_go_step x), (pretty_N_go_step y) by lia.
    pose proof (N.div_mod x 10) as Ex. pose proof (N.div_mod y 10) as Ey.
    pose proof (N.mod_lt x 10). pose proof (N.mod_lt y 10).
    destruct (decide (x / 10 = y / 10)%N) as [E|E].
    + rewrite E, pretty_go_same. cbn [String.compare]. by rewrite pretty_char_lt by lia.
    + clear H. apply IH; [revert Hx; generalize (10 ^ N.of_nat k)%N; lia | |].
      { pose proof (N.Div0.div_le_mono x y 10). lia. }
      by apply N.Div0.div_lt_upper_bound.
Qed.

Lemma pretty_Z_go z : 0 < z -> pretty z = pretty_N_go (Z.to_N z) "".
Proof.
  intros Hz. destruct z as [|p|p]; try lia.
  change (pretty (Z.pos p)) with (pretty (N.pos p)). unfold pretty, pretty_N.
  simpl Z.to_N. case_decide; [lia|done].
Qed.

Lemma Itoa_lt k a b s t :
  10 ^ Z.of_nat k <= a -> a < b -> b < 10 ^ Z.of_nat (S k) ->
  String.compare (Itoa a +:+ s) (Itoa b +:+ t) = Lt.
Proof.
  intros Ha Hab Hb. unfold Itoa.
  assert (0 < a) by (pose proof (Z.pow_pos_nonneg 10 (Z.of_nat k)); lia).
  rewrite !pretty_Z_go, !pretty_go_app by lia. simpl.
  assert (forall n, Z.to_N (10 ^ Z.of_nat n) = 10 ^ N.of_nat n)%N as E.
  { intros n. by rewrite Z2N.inj_pow, <- nat_N_Z, N2Z.id by lia. }
  apply (pretty_go_lt k); rewrite <- ?E; lia.
Qed.

(** ** Sorting *)

Lemma SortStrings_perm l : SortStrings l ≡ₚ l.
Proof. apply merge_sort_Permutation. Qed.

Lemma SortStrings_sorted l : StronglySorted String.le (SortStrings l).
Proof. apply StronglySorted_merge_sort; apply _. Qed.

(** A sorted list is its own sort, and the sort depends only on the elements. *)
Lemma SortStrings_unique l k : StronglySorted String.le k -> k ≡ₚ l -> SortStrings l = k.
Proof.
  intros Hk Hp. eapply (StronglySorted_unique String.le); [apply SortStrings_sorted|done|].
  by rewrite SortStrings_perm.
Qed.

(** Sorting with one more element that is above all others puts it last. *)
Lemma SortStrings_snoc l x :
  Forall (fun y => String.le y x) l -> SortStrings (x :: l) = SortStrings l ++ [x].
Proof.
  intros Hx. apply SortStrings_unique.
  - apply StronglySorted_app_2.
    + intros a b Ha Hb. rewrite SortStrings_perm in Ha.
      apply list_elem_of_singleton in Hb as ->.
      rewrite Forall_forall in Hx. auto.
    + apply SortStrings_sorted.
    + by repeat constructor.
  - rewrite SortStrings_perm. by rewrite Permutation_app_comm.
Qed.

(** ** Splitting *)

Lemma Split_cons c s : exists p ps, Split c s = p :: ps.
Proof.
  induction s as [|x s (p & ps & IH)]; simpl; [by eauto|].
  rewrite IH. destruct (bool_decide _); by eauto.
Qed.

Lemma Split_none c s : has_char c s = false -> Split c s = [s].
Proof.
  induction s as [|x s IH]; simpl; [done|]. intros [H1 H2]%orb_false_iff.
  by rewrite H1, IH.
Qed.

Lemma Split_app c s t : has_char c s = false -> Split c (s +:+ String c t) = s :: Split c t.
Proof.
  induction s as [|x s IH]; simpl; intros H.
  - by rewrite bool_decide_true.
  - apply orb_false_iff in H as [H1 H2]. rewrite H1. fold (s +:+ String c t). by rewrite IH.
Qed.

(** As many parts as separators, and one. *)
Fixpoint count_char (c : ascii) (s : string) : nat :=
  match s with "" => 0 | String x s' => (if bool_decide (x = c) then 1 else 0) + count_char c s' end.

Lemma Split_length c s : length (Split c s) = S (count_char c s).
Proof.
  induction s as [|x s IH]; simpl; [done|].
  destruct (bool_decide (x = c)); simpl; [by rewrite IH|].
  destruct (Split c s); simpl in *; lia.
Qed.

Lemma count_char_app c s t : count_char c (s +:+ t) = (count_char c s + count_char c t)%nat.
Proof.
  induction s as [|x s IH]; [done|].
  change ((if bool_decide (x = c) then 1 else 0) + count_char c (s +:+ t) =
          (if bool_decide (x = c) then 1 else 0) + count_char c s + count_char c t)%nat.
  rewrite IH. lia.
Qed.

Lemma has_char_count c s : has_char c s = false <-> count_char c s = 0%nat.
Proof.
  induction s as [|x s IH]; simpl; [done|]. destruct (bool_decide (x = c)); simpl; [done|].
  by rewrite IH.
Qed.

(** A string is determined by its parts around the last separator. *)
Lemma string_app_nil_r s : s +:+ "" = s.
Proof. induction s as [|x s IH]; [done|]. exact (f_equal (String x) IH). Qed.

Lemma last_sep_inj c a b s t :
  has_char c s = false -> has_char c t = false ->
  a +:+ String c s = b +:+ String c t -> a = b /\ s = t.
Proof.
  intros Hs Ht. revert b. induction a as [|x a IH]; intros [|y b] H.
  - simpl in H. by simplify_eq.
  - exfalso. injection H as -> H. subst s. apply has_char_count in Hs.
    rewrite count_char_app in Hs. simpl in Hs. rewrite bool_decide_true in Hs by done. lia.
  - exfalso. injection H as -> H. subst t. apply has_char_count in Ht.
    rewrite count_char_app in Ht. simpl in Ht. rewrite bool_decide_true in Ht by done. lia.
  - injection H as -> H. by destruct (IH _ H) as [-> ->].
Qed.

Lemma string_length_app a b : String.length (a +:+ b) = (String.length a + String.length b)%nat.
Proof. induction a as [|x a IH]; [done|]. exact (f_equal S IH). Qed.

(** Printed non-negative numbers are digits. *)
Definition is_digit (c : ascii) : bool := let n := N_of_ascii c in ((48 <=? n) && (n <=? 57))%N.

(** The classes [\w] and [\s] of regular expressions. *)
Definition is_word (c : ascii) : bool :=
  let n := N_of_ascii c in
  is_digit c || ((65 <=? n) && (n <=? 90))%N || ((97 <=? n) && (n <=? 122))%N || (n =? 95)%N.

Definition is_blank (c : ascii) : bool :=
  let n := N_of_ascii c in ((n =? 9) || (n =? 10) || (n =? 12) || (n =? 13) || (n =? 32))%N.

(** ** Searching and trimming *)

(** The longest prefix of characters of a class, and the rest. *)
Fixpoint span (P : ascii -> bool) (s : string) : string * string :=
  match s with
  | String c s' => if P c then let '(w, r) := span P s' in (String c w, r) else ("", s)
  | "" => ("", "")
  end.

Fixpoint cut_prefix (p s : string) : option string :=
  match p, s with
  | "", _ => Some s
  | String a p', String b s' => if bool_decide (a = b) then cut_prefix p' s' else None
  | _, "" => None
  end.

Lemma cut_prefix_of_app p s : cut_prefix p (p +:+ s) = Some s.
Proof.
  induction p as [|c p IH]; [done|]. rewrite string_cons_app. cbn [cut_prefix]. by rewrite bool_decide_true.
Qed.

Lemma cut_prefix_Some p s r : cut_prefix p s = Some r -> s = p +:+ r.
Proof.
  revert s. induction p as [|c p IH]; intros s; cbn; [by intros [= ->]|].
  destruct s as [|d s]; [done|]. case_bool_decide; [subst|done]. intros H%IH. by subst s.
Qed.

(** The text before and after the first occurrence ([strings.Index] and the
    slices made from it). *)
Fixpoint cut (sub s : string) : option (string * string) :=
  match cut_prefix sub s with
  | Some r => Some ("", r)
  | None =>
      match s with
      | "" => None
      | String c s' => '(a, b) ← cut sub s'; Some (String c a, b)
      end
  end.

(** [strings.TrimSpace]: the white space of Unicode, in UTF-8. *)
Definition bytes (l : list N) : string := foldr (fun n s => String (ascii_of_N n) s) "" l.

Definition white_space : list string :=
  (bytes <$> [[9]; [10]; [11]; [12]; [13]; [32]; [194; 133]; [194; 160]; [225; 154; 128];
              [226; 128; 168]; [226; 128; 169]; [226; 128; 175]; [226; 129; 159]; [227; 128; 128]])%N
  ++ ((fun i => bytes [226; 128; 128 + i]) <$> [0; 1; 2; 3; 4; 5; 6; 7; 8; 9; 10])%N.

Fixpoint first_prefix (ps : list string) (s : string) : option string :=
  match ps with
  | [] => None
  | p :: ps => match cut_prefix p s with Some r => Some r | None => first_prefix ps s end
  end.

Fixpoint trim_left (fuel : nat) (ws : list string) (s : string) : string :=
  match fuel with
  | O => s
  | S fuel => match first_prefix ws s with Some r => trim_left fuel ws r | None => s end
  end.

Fixpoint string_rev (s acc : string) : string :=
  match s with "" => acc | String c s' => string_rev s' (String c acc) end.

Definition TrimSpace (s : string) : string :=
  let s := trim_left (String.length s) white_space s in
  string_rev (trim_left (String.length s) ((fun w => string_rev w "") <$> white_space) (string_rev s "")) "".

Definition HasSuffix (s p : string) : bool := HasPrefix (string_rev s "") (string_rev p "").
Definition TrimPrefix (s p : string) : string := match cut_prefix p s with Some r => r | None => s end.
Definition TrimSuffix (s suffix : string) : string :=
  if HasSuffix s suffix then String.substring 0 (String.length s - String.length suffix) s else s.

Lemma string_rev_acc s acc : string_rev s acc = string_rev s "" +:+ acc.
Proof.
  revert acc. induction s as [|c s IH]; intros acc; [done|]. cbn.
  rewrite IH, (IH (String c "")). by rewrite <- string_app_assoc.
Qed.

Lemma string_rev_app a b : string_rev (a +:+ b) "" = string_rev b "" +:+ string_rev a "".
Proof.
  assert (forall acc, string_rev (a +:+ b) acc = string_rev b (string_rev a acc)) as H.
  { induction a as [|c a IH]; intros acc; [done|]. apply IH. }
  by rewrite H, string_rev_acc.
Qed.

Lemma string_rev_involutive s : string_rev (string_rev s "") "" = s.
Proof.
  induction s as [|c s IH]; [done|]. cbn. rewrite (string_rev_acc s (String c "")), string_rev_app, IH. done.
Qed.

Lemma prefix_split p s : String.prefix p s = true -> exists r, s = p +:+ r.
Proof.
  revert s. induction p as [|c p IH]; intros s; [by exists s|]. destruct s as [|d s]; [done|]. cbn.
  destruct (ascii_dec c d) as [->|]; [|done]. intros (r & ->)%IH. by exists r.
Qed.

Lemma prefix_app_true p s : String.prefix p (p +:+ s) = true.
Proof. induction p as [|c p IH]; [by destruct s|]. rewrite string_cons_app. cbn. by destruct (ascii_dec c c). Qed.

Lemma HasSuffix_app a p : HasSuffix (a +:+ p) p = true.
Proof. unfold HasSuffix, HasPrefix. rewrite string_rev_app. apply prefix_app_true. Qed.

Lemma HasSuffix_split s p : HasSuffix s p = true -> exists a, s = a +:+ p.
Proof.
  intros (r & Hr)%prefix_split. exists (string_rev r "").
  rewrite <- (string_rev_involutive s), Hr, string_rev_app. by rewrite (string_rev_involutive p).
Qed.

Lemma substring_app a b : String.substring 0 (String.length a) (a +:+ b) = a.
Proof. induction a as [|c a IH]; [by destruct b|]. rewrite string_cons_app. cbn. by rewrite IH. Qed.

Lemma TrimSuffix_app a p : TrimSuffix (a +:+ p) p = a.
Proof.
  unfold TrimSuffix. rewrite HasSuffix_app, string_length_app.
  replace (String.length a + String.length p - String.length p)%nat with (String.length a) by lia. apply substring_app.
Qed.

(** [strings.Join] *)
Fixpoint Join (sep : string) (l : list string) : string :=
  match l with
  | [] => ""
  | [s] => s
  | s :: l => s +:+ sep +:+ Join sep l
  end.

(** And by its parts around the first. *)
Lemma first_sep_inj c a b s t :
  has_char c a = false -> has_char c b = false -> a +:+ String c s = b +:+ String c t -> a = b /\ s = t.
Proof.
  revert b. induction a as [|x a IH]; intros [|y b] Ha Hb H.
  - simpl in H. by simplify_eq.
  - injection H as -> H. simpl in Hb. by rewrite bool_decide_true in Hb.
  - injection H as -> H. simpl in Ha. by rewrite bool_decide_true in Ha.
  - simpl in Ha, Hb. apply orb_false_iff in Ha as [_ Ha], Hb as [_ Hb]. injection H as -> H. by destruct (IH _ Ha Hb H) as [-> ->].
Qed.

(** [strings.Fields], on valid UTF-8: the words between white space. *)
Definition a_word (word : string) : list string := if bool_decide (word = "") then [] else [word].
Fixpoint fields_from (fuel : nat) (word s : string) : list string :=
  match fuel with
  | O => a_word word
  | S fuel =>
      match first_prefix white_space s with
      | Some rest => a_word word ++ fields_from fuel "" rest
      | None =>
          match s with
          | EmptyString => a_word word
          | String c s => fields_from fuel (word +:+ String c "") s
          end
      end
  end.
Definition Fields (s : string) : list string := fields_from (S (String.length s)) "" s.

Fixpoint all_chars (P : ascii -> bool) (s : string) : bool :=
  match s with "" => true | String c s' => P c && all_chars P s' end.

Lemma all_chars_app P a b : all_chars P (a +:+ b) = all_chars P a && all_chars P b.
Proof.
  induction a as [|x a IH]; [done|]. change (P x && all_chars P (a +:+ b) = P x && all_chars P a && all_chars P b).
  by rewrite IH, andb_assoc.
Qed.

Lemma all_chars_impl P Q s : (forall c, P c = true -> Q c = true) -> all_chars P s = true -> all_chars Q s = true.
Proof.
  intros H. induction s as [|c s IH]; simpl; [done|]. intros [H1 H2]%andb_true_iff.
  apply andb_true_iff. auto.
Qed.

Lemma pretty_go_digits x s : all_chars is_digit s = true -> all_chars is_digit (pretty_N_go x s) = true.
Proof.
  revert s. induction (N.lt_wf_0 x) as [x _ IH]; intros s Hs.
  assert (x = 0 \/ 0 < x)%N as [->|Hx] by lia; [by rewrite pretty_N_go_0|].
  rewrite pretty_N_go_step by done. apply IH; [by apply N.div_lt|].
  cbn [all_chars]. rewrite Hs, andb_true_r.
  pose proof (N.mod_lt x 10). unfold pretty_N_char.
  destruct (x mod 10)%N as [|p] eqn:E; [done|]. clear - H.
  do 4 (destruct p as [p|p|]; try done); lia.
Qed.

Lemma Itoa_digits z : 0 < z -> all_chars is_digit (Itoa z) = true.
Proof. intros Hz. unfold Itoa. rewrite pretty_Z_go by done. by apply pretty_go_digits. Qed.

Lemma Itoa_inj a b : Itoa a = Itoa b -> a = b.
Proof. apply (inj pretty). Qed.

Lemma all_chars_has P c s : P c = false -> all_chars P s = true -> has_char c s = false.
Proof.
  intros Hc. induction s as [|x s IH]; simpl; [done|]. intros [H1 H2]%andb_true_iff.
  rewrite IH by done. rewrite bool_decide_false; [done|]. intros ->. congruence.
Qed.

Lemma Itoa_no_underscore z : has_char "_" (Itoa z) = false.
Proof.
  assert (forall p, has_char "_" (Itoa (Z.pos p)) = false) as H by (intros p; apply (all_chars_has is_digit); [done|by apply Itoa_digits]).
  destruct z as [|p|p]; [done|apply H|]. change (Itoa (Z.neg p)) with (String "-" (Itoa (Z.pos p))).
  change (has_char "_" (String "-" (Itoa (Z.pos p)))) with (has_char "_" (Itoa (Z.pos p))). apply H.
Qed.

(** ** A text for every value

    Any countable type has an encoding as text; the witnesses use it where the
    code uses a codec from outside. *)

Fixpoint pos_bits (p : positive) : string :=
  match p with xH => "" | xO p => String "0" (pos_bits p) | xI p => String "1" (pos_bits p) end.

Fixpoint bits_pos (s : string) : positive :=
  match s with
  | "" => xH
  | String c s => if bool_decide (c = "1"%char) then xI (bits_pos s) else xO (bits_pos s)
  end.

Lemma bits_pos_bits p : bits_pos (pos_bits p) = p.
Proof. induction p as [p IH|p IH|]; cbn; by rewrite ?IH. Qed.

Definition encode_text {A} `{Countable A} (a : A) : string := pos_bits (encode a).
Definition decode_text {A} `{Countable A} (s : string) : option A := decode (bits_pos s).

Lemma decode_encode_text {A} `{Countable A} (a : A) : decode_text (encode_text a) = Some a.
Proof. unfold decode_text, encode_text. by rewrite bits_pos_bits, decode_encode. Qed.
