(* ===== verification/GoTime.v ===== *)
(** * The parts of Go's time package the code uses

    An instant is its number of nanoseconds from the Unix epoch. [time.Parse]
    is modelled for the layouts that occur in the code, and [Format] for
    instants from 1970 on in a zone at a fixed distance from UTC. *)

From S2P Require Import Prelude GoStrings.
From Stdlib Require Import Ascii.
#[local] Open Scope Z_scope.

Definition second : Z := 1000000000.
Definition day_ns : Z := 86400 * second.

(** ** The calendar *)

Definition leap (y : Z) : bool := (y mod 4 =? 0) && (negb (y mod 100 =? 0) || (y mod 400 =? 0)).

Definition month_lengths (y : Z) : list Z :=
  [31; if leap y then 29 else 28; 31; 30; 31; 30; 31; 31; 30; 31; 30; 31].

Definition sum_list (l : list Z) : Z := foldr Z.add 0 l.

(** Days from the epoch to a date of the proleptic Gregorian calendar. *)
Definition days (y m d : Z) : Z :=
  365 * (y - 1) + (y - 1) / 4 - (y - 1) / 100 + (y - 1) / 400
  + sum_list (take (Z.to_nat (m - 1)) (month_lengths y)) + d - 1 - 719162.

Definition valid_date (y m d : Z) : bool :=
  (1 <=? m) && (m <=? 12) && (1 <=? d) &&
  match nth_error (month_lengths y) (Z.to_nat (m - 1)) with Some n => d <=? n | None => false end.

(** ** Reading numbers *)

Definition digit_of (c : ascii) : Z := Z.of_N (N_of_ascii c) - 48.

(** Exactly [n] digits. *)
Fixpoint fixed_digits (n : nat) (acc : Z) (s : string) : option (Z * string) :=
  match n, s with
  | O, _ => Some (acc, s)
  | S n, String c s' => if is_digit c then fixed_digits n (acc * 10 + digit_of c) s' else None
  | S _, "" => None
  end.

Definition literal (c : ascii) (s : string) : option string :=
  match s with String x s' => if bool_decide (x = c) then Some s' else None | "" => None end.

(** One digit or two, as for the hour. *)
Definition one_or_two (s : string) : option (Z * string) :=
  match fixed_digits 2 0 s with Some r => Some r | None => fixed_digits 1 0 s end.

Definition below (n : Z) (r : option (Z * string)) : option (Z * string) :=
  '(z, s) ← r; if z <? n then Some (z, s) else None.

(** A fraction of a second: nine digits count, more are skipped. *)
Fixpoint fraction (scale acc : Z) (s : string) : Z * string :=
  match s with
  | String c s' => if is_digit c then fraction (scale / 10) (acc + scale * digit_of c) s' else (acc, s)
  | "" => (acc, s)
  end.

Definition opt_fraction (s : string) : Z * string :=
  match s with
  | String c (String d s') =>
      if (bool_decide (c = "."%char) || bool_decide (c = ","%char)) && is_digit d
      then fraction (second / 10) 0 (String d s') else (0, s)
  | _ => (0, s)
  end.

Fixpoint cut_spaces (s : string) : string :=
  match s with String " " s' => cut_spaces s' | _ => s end.

(** ** Layouts *)

(** What follows the seconds: nothing, a literal [Z], or [Z] or an offset. *)
Inductive zone_format := NoZone | LiteralZ | ZoneOffset.

Inductive layout :=
  | DateOnly                                 (* 2006-01-02 *)
  | DateCompact                              (* 20060102 *)
  | DateTime (sep : ascii) (z : zone_format). (* 2006-01-02 15:04:05 and the like *)

Definition parse_date (dash : bool) (s : string) : option (Z * string) :=
  '(y, s) ← fixed_digits 4 0 s;
  s ← if dash then literal "-" s else Some s;
  '(m, s) ← fixed_digits 2 0 s;
  s ← if dash then literal "-" s else Some s;
  '(d, s) ← fixed_digits 2 0 s;
  if valid_date y m d then Some (days y m d, s) else None.

Definition parse_clock (s : string) : option (Z * string) :=
  '(h, s) ← below 24 (one_or_two s);
  s ← literal ":" s;
  '(mi, s) ← below 60 (fixed_digits 2 0 s);
  s ← literal ":" s;
  '(se, s) ← below 60 (fixed_digits 2 0 s);
  let '(ns, s) := opt_fraction s in
  Some (((h * 60 + mi) * 60 + se) * second + ns, s).

Definition parse_offset (s : string) : option (Z * string) :=
  '(h, s) ← below 25 (fixed_digits 2 0 s);
  s ← literal ":" s;
  '(m, s) ← below 61 (fixed_digits 2 0 s);
  Some ((h * 60 + m) * 60 * second, s).

Definition parse_zone (z : zone_format) (s : string) : option (Z * string) :=
  match z, s with
  | NoZone, _ => Some (0, s)
  | _, String "Z" s' => Some (0, s')
  | LiteralZ, _ => None
  | ZoneOffset, String "+" s' => parse_offset s'
  | ZoneOffset, String "-" s' => '(o, s) ← parse_offset s'; Some (- o, s)
  | ZoneOffset, _ => None
  end.

Definition whole (r : option (Z * string)) : option Z :=
  '(z, s) ← r; if bool_decide (s = "") then Some z else None.

(** [time.Parse]; a space of the layout matches one or more. *)
Definition time_Parse (l : layout) (value : string) : option Z :=
  match l with
  | DateOnly => d ← whole (parse_date true value); Some (d * day_ns)
  | DateCompact => d ← whole (parse_date false value); Some (d * day_ns)
  | DateTime sep z =>
      '(d, s) ← parse_date true value;
      s ← literal sep s;
      '(t, s) ← parse_clock (if bool_decide (sep = " "%char) then cut_spaces s else s);
      o ← whole (parse_zone z s);
      Some (d * day_ns + t - o)
  end.

(** [time.Date] at the first and the last nanosecond of a day in UTC. *)
Definition start_of_day (t : Z) : Z := t / day_ns * day_ns.
Definition end_of_day (t : Z) : Z := start_of_day t + day_ns - 1.

Lemma start_of_day_spec t : start_of_day t <= t <= end_of_day t.
Proof.
  unfold end_of_day, start_of_day.
  assert (0 < day_ns) as Hd by (vm_compute; reflexivity). revert Hd. generalize day_ns. intros n Hd.
  pose proof (Z.div_mod t n ltac:(lia)). pose proof (Z.mod_pos_bound t n Hd).
  revert H H0. generalize (t / n) (t mod n). intros q r H H0. lia.
Qed.

Example parse_epoch : time_Parse DateOnly "1970-01-01" = Some 0.
Proof. vm_compute. reflexivity. Qed.
Example parse_2024 : time_Parse DateCompact "20240229" = Some (1709164800 * second).
Proof. vm_compute. reflexivity. Qed.
Example parse_full :
  time_Parse (DateTime "T" ZoneOffset) "2024-01-15T10:30:00.5+08:00" = Some (1705285800 * second + 500000000).
Proof. vm_compute. reflexivity. Qed.
Example parse_invalid : time_Parse DateOnly "2023-02-29" = None.
Proof. vm_compute. reflexivity. Qed.

(** * time.Format for the layouts the code uses *)


(** ** Digits *)

Definition digit_char (d : Z) : ascii := ascii_of_N (Z.to_N (48 + d)).

(** Exactly [n] digits, with leading zeros. *)
Fixpoint pad_digits (n : nat) (z : Z) : string :=
  match n with O => "" | S n => String (digit_char (z / 10 ^ Z.of_nat n mod 10)) (pad_digits n z) end.

Lemma digit_char_ok d : 0 <= d < 10 -> is_digit (digit_char d) = true /\ digit_of (digit_char d) = d.
Proof.
  intros Hd. unfold is_digit, digit_of, digit_char. rewrite N_ascii_embedding by lia.
  split; [|lia]. apply andb_true_iff. rewrite !N.leb_le. lia.
Qed.

Lemma fixed_digits_pad n acc z s :
  fixed_digits n acc (pad_digits n z +:+ s) = Some (acc * 10 ^ Z.of_nat n + z mod 10 ^ Z.of_nat n, s).
Proof.
  revert acc. induction n as [|n IH]; intros acc.
  - cbn. rewrite Z.mod_1_r. f_equal. f_equal. lia.
  - cbn [pad_digits]. rewrite string_cons_app. cbn [fixed_digits].
    pose proof (Z.mod_pos_bound (z / 10 ^ Z.of_nat n) 10 ltac:(lia)) as Hb.
    destruct (digit_char_ok _ Hb) as [-> ->]. rewrite IH. f_equal. f_equal.
    rewrite Nat2Z.inj_succ, Z.pow_succ_r, (Z.mul_comm 10) by lia.
    assert (0 < 10 ^ Z.of_nat n) as Hp by (apply Z.pow_pos_nonneg; lia).
    rewrite Z.rem_mul_r by lia. lia.
Qed.

Lemma fixed_digits_exact n z s : 0 <= z < 10 ^ Z.of_nat n -> fixed_digits n 0 (pad_digits n z +:+ s) = Some (z, s).
Proof. intros Hz. rewrite fixed_digits_pad, Z.mod_small by done. done. Qed.

(** ** Dates *)

Fixpoint find_year (fuel : nat) (y n : Z) : Z :=
  match fuel with O => y | S fuel => if days y 1 1 <=? n then y else find_year fuel (y - 1) n end.

(** A year has at least 365 days. *)
Definition year_of (n : Z) : Z := find_year (Z.to_nat (n / 365 + 2)) (1970 + n / 365 + 1) n.

Fixpoint find_month (ls : list Z) (m r : Z) : Z * Z :=
  match ls with [] => (m, r) | l :: ls => if r <? l then (m, r) else find_month ls (m + 1) (r - l) end.

Definition date_of (n : Z) : Z * Z * Z :=
  let y := year_of n in
  let '(m, r) := find_month (month_lengths y) 1 (n - days y 1 1) in (y, m, r + 1).

Lemma leap_mod y : (if leap y then 1 else 0) = y / 4 - (y - 1) / 4 - (y / 100 - (y - 1) / 100) + (y / 400 - (y - 1) / 400).
Proof.
  unfold leap. destruct (Z.eqb_spec (y mod 4) 0), (Z.eqb_spec (y mod 100) 0), (Z.eqb_spec (y mod 400) 0); cbn;
    Z.div_mod_to_equations; lia.
Qed.

Lemma year_length y : days (y + 1) 1 1 = days y 1 1 + sum_list (month_lengths y).
Proof.
  unfold days, month_lengths. cbn [Z.sub Z.to_nat take sum_list foldr]. change (Z.to_nat (1 - 1)) with 0%nat.
  cbn [take sum_list foldr]. pose proof (leap_mod y) as Hl. replace (y + 1 - 1) with y by lia.
  destruct (leap y); lia.
Qed.

Lemma month_sum y : 365 <= sum_list (month_lengths y) <= 366.
Proof. unfold month_lengths. destruct (leap y); cbn; lia. Qed.

Lemma days_from_1970 k : 0 <= k -> 365 * k <= days (1970 + k) 1 1.
Proof.
  intros Hk. pattern k. apply natlike_ind; [done| |done]. intros j Hj IH.
  replace (1970 + Z.succ j) with (1970 + j + 1) by lia. rewrite year_length. pose proof (month_sum (1970 + j)). lia.
Qed.

Lemma find_year_ok fuel y n : 0 <= n -> n < days (y + 1) 1 1 -> y - 1970 < Z.of_nat fuel ->
  days (find_year fuel y n) 1 1 <= n < days (find_year fuel y n + 1) 1 1.
Proof.
  intros Hn. revert y. induction fuel as [|fuel IH]; intros y Hy Hf; cbn [find_year].
  - exfalso. assert (y + 1 <= 1970) as H by lia.
    assert (forall k, 0 <= k -> days (1970 - k) 1 1 <= 0) as Hd.
    { intros k Hk. pattern k. apply natlike_ind; [done| |done]. intros j Hj IH'.
      pose proof (year_length (1970 - Z.succ j)) as E. replace (1970 - Z.succ j + 1) with (1970 - j) in E by lia.
      pose proof (month_sum (1970 - Z.succ j)). lia. }
    specialize (Hd (1970 - (y + 1)) ltac:(lia)). replace (1970 - (1970 - (y + 1))) with (y + 1) in Hd by lia. lia.
  - destruct (Z.leb_spec (days y 1 1) n); [done|]. apply IH; [by replace (y - 1 + 1) with y by lia | lia].
Qed.

Lemma year_of_ok n : 0 <= n -> days (year_of n) 1 1 <= n < days (year_of n + 1) 1 1.
Proof.
  intros Hn. apply find_year_ok; [done| |].
  - pose proof (days_from_1970 (n / 365 + 2)) as H. replace (1970 + n / 365 + 1 + 1) with (1970 + (n / 365 + 2)) by lia.
    pose proof (Z.mul_succ_div_gt n 365). assert (0 <= n / 365) by (apply Z.div_pos; lia). lia.
  - assert (0 <= n / 365) by (apply Z.div_pos; lia). lia.
Qed.

Lemma find_month_ok ls m r : 0 <= r < sum_list ls ->
  exists k l, find_month ls m r = (m + Z.of_nat k, r - sum_list (take k ls)) /\ ls !! k = Some l /\
    0 <= r - sum_list (take k ls) < l.
Proof.
  revert m r. induction ls as [|l ls IH]; intros m r Hr; [cbn in Hr; lia|]. cbn [find_month].
  destruct (Z.ltb_spec r l) as [Hlt|Hge].
  - exists 0%nat, l. cbn. split; [f_equal; lia|]. split; [done|lia].
  - cbn in Hr. destruct (IH (m + 1) (r - l)) as (k & l' & -> & Hk & Hb); [fold (sum_list ls) in Hr; lia|].
    exists (S k), l'. cbn [take sum_list foldr]. fold (sum_list (take k ls)).
    split; [f_equal; lia|]. split; [done|lia].
Qed.

Lemma days_split y m d : days y m d = days y 1 1 + sum_list (take (Z.to_nat (m - 1)) (month_lengths y)) + d - 1.
Proof. unfold days. change (sum_list (take (Z.to_nat (1 - 1)) (month_lengths y))) with 0. lia. Qed.

Lemma nth_error_is_lookup (l : list Z) k : nth_error l k = l !! k.
Proof. revert k. induction l as [|x l IH]; intros [|k]; cbn; [done..|apply IH]. Qed.

Lemma date_of_ok n : 0 <= n -> let '(y, m, d) := date_of n in
  valid_date y m d = true /\ days y m d = n /\ 1 <= m <= 12 /\ 1 <= d <= 31 /\ y = year_of n.
Proof.
  intros Hn. unfold date_of. pose proof (year_of_ok n Hn) as Hy. set (y := year_of n) in *.
  rewrite year_length in Hy. destruct (find_month_ok (month_lengths y) 1 (n - days y 1 1) ltac:(lia)) as (k & l & -> & Hk & Hb).
  assert ((k < 12)%nat) as Hk12 by (apply lookup_lt_Some in Hk; done).
  assert (l <= 31) as Hl.
  { unfold month_lengths in Hk. do 12 (destruct k as [|k]; [cbn in Hk; injection Hk as <-; destruct (leap y); lia|]). lia. }
  replace (Z.to_nat (1 + Z.of_nat k - 1)) with k in * by lia.
  assert (Z.to_nat (1 + Z.of_nat k - 1) = k) as Ek by lia. split_and!; try lia.
  - unfold valid_date. rewrite Ek. rewrite !andb_true_iff, !Z.leb_le. split_and!; try lia.
    rewrite nth_error_is_lookup, Hk. apply Z.leb_le. lia.
  - rewrite days_split, Ek. lia.
Qed.

(** ** Layouts *)

Definition pad_date (sep : string) (n : Z) : string :=
  let '(y, m, d) := date_of n in pad_digits 4 y +:+ sep +:+ pad_digits 2 m +:+ sep +:+ pad_digits 2 d.

(** The seconds of the day as hours, minutes and seconds. *)
Definition pad_clock (sep : string) (s : Z) : string :=
  pad_digits 2 (s / 3600) +:+ sep +:+ pad_digits 2 (s / 60 mod 60) +:+ sep +:+ pad_digits 2 (s mod 60).

Definition local_day (zone t : Z) : Z := (t + zone) / day_ns.
Definition local_clock (zone t : Z) : Z := (t + zone) mod day_ns / second.

(** [2006/01/02], [20060102_150405], [2006-01-02T15:04:05Z07:00] *)
Definition Format_day (zone t : Z) : string := pad_date "/" (local_day zone t).
Definition Format_stamp (zone t : Z) : string := pad_date "" (local_day zone t) +:+ "_" +:+ pad_clock "" (local_clock zone t).
Definition zone_text (zone : Z) : string :=
  let m := Z.abs zone / (60 * second) in
  if zone =? 0 then "Z" else (if zone <? 0 then "-" else "+") +:+ pad_digits 2 (m / 60) +:+ ":" +:+ pad_digits 2 (m mod 60).
Definition Format_RFC3339 (zone t : Z) : string :=
  pad_date "-" (local_day zone t) +:+ "T" +:+ pad_clock ":" (local_clock zone t) +:+ zone_text zone.

(** [time.Parse("20060102_150405", s)] *)
Definition parse_stamp (s : string) : option Z :=
  '(d, s) ← parse_date false s;
  s ← literal "_" s;
  '(h, s) ← below 24 (one_or_two s);
  '(mi, s) ← below 60 (fixed_digits 2 0 s);
  '(se, s) ← below 60 (fixed_digits 2 0 s);
  ns ← whole (Some (opt_fraction s));
  Some (d * day_ns + ((h * 60 + mi) * 60 + se) * second + ns).

(** ** Reading back *)

Definition in_years (t : Z) : Prop := 0 <= t < days 10000 1 1 * day_ns.

Lemma year_of_small n : 0 <= n < days 10000 1 1 -> 0 <= year_of n < 10 ^ 4.
Proof.
  intros Hn. pose proof (year_of_ok n ltac:(lia)) as Hy. set (y := year_of n) in *.
  assert (forall a k, 0 <= k -> days a 1 1 <= days (a + k) 1 1) as Hmono.
  { intros a k Hk. pattern k. apply natlike_ind; [by rewrite Z.add_0_r| |done]. intros j Hj IH.
    replace (a + Z.succ j) with (a + j + 1) by lia. rewrite year_length. pose proof (month_sum (a + j)). lia. }
  change (10 ^ 4) with 10000. split.
  - destruct (Z.le_gt_cases 0 y) as [|Hlt]; [done|]. specialize (Hmono (y + 1) (1970 - (y + 1)) ltac:(lia)).
    replace (y + 1 + (1970 - (y + 1))) with 1970 in Hmono by lia. change (days 1970 1 1) with 0 in Hmono. lia.
  - destruct (Z.lt_ge_cases y 10000) as [|Hge]; [done|]. specialize (Hmono 10000 (y - 10000) ltac:(lia)).
    replace (10000 + (y - 10000)) with y in Hmono by lia. lia.
Qed.

Lemma parse_pad_date dash n s : 0 <= n < days 10000 1 1 ->
  parse_date dash (pad_date (if dash then "-" else "") n +:+ s) = Some (n, s).
Proof.
  intros Hn. unfold pad_date. pose proof (date_of_ok n ltac:(lia)) as H. destruct (date_of n) as [[y m] d].
  destruct H as (Hv & Hd & Hm & Hdd & Hy). pose proof (year_of_small n Hn) as Hys. rewrite <- Hy in Hys.
  unfold parse_date. rewrite <- !string_app_assoc, fixed_digits_exact by done. cbn [mbind option_bind].
  destruct dash.
  - rewrite (string_cons_app "-"). cbn [literal]. rewrite bool_decide_eq_true_2 by done. cbn [mbind option_bind].
    change ("" +:+ ?x) with x. rewrite fixed_digits_exact by (cbn; lia). cbn [mbind option_bind].
    rewrite (string_cons_app "-"). cbn [literal]. rewrite bool_decide_eq_true_2 by done. cbn [mbind option_bind].
    change ("" +:+ ?x) with x. rewrite fixed_digits_exact by (cbn; lia). cbn [mbind option_bind]. by rewrite Hv, Hd.
  - change ("" +:+ ?x) with x. cbn [mbind option_bind]. rewrite fixed_digits_exact by (cbn; lia). cbn [mbind option_bind].
    change ("" +:+ ?x) with x. rewrite fixed_digits_exact by (cbn; lia). cbn [mbind option_bind]. by rewrite Hv, Hd.
Qed.

Lemma local_clock_range zone t : 0 <= local_clock zone t < 86400.
Proof. unfold local_clock, day_ns, second. Z.div_mod_to_equations. lia. Qed.

Lemma local_split zone t : local_day zone t * day_ns + local_clock zone t * second = (t + zone) / second * second.
Proof. unfold local_day, local_clock, day_ns, second. Z.div_mod_to_equations. lia. Qed.

Lemma clock_parts c : 0 <= c < 86400 ->
  0 <= c / 3600 < 24 /\ 0 <= c / 60 mod 60 < 60 /\ 0 <= c mod 60 < 60 /\ (c / 3600 * 60 + c / 60 mod 60) * 60 + c mod 60 = c.
Proof. intros Hc. Z.div_mod_to_equations. lia. Qed.

Lemma local_day_range zone t : in_years (t + zone) -> 0 <= local_day zone t < days 10000 1 1.
Proof.
  unfold in_years, local_day. intros Ht. split; [apply Z.div_pos; [lia | done]|]. apply Z.div_lt_upper_bound; [done|lia].
Qed.

Lemma one_or_two_pad z s : 0 <= z < 100 -> one_or_two (pad_digits 2 z +:+ s) = Some (z, s).
Proof. intros Hz. unfold one_or_two. by rewrite fixed_digits_exact. Qed.

Lemma below_Some n z s : z < n -> below n (Some (z, s)) = Some (z, s).
Proof. intros Hz. cbn. by rewrite (proj2 (Z.ltb_lt _ _)). Qed.

(** A stamp reads back as the second it was made in, as if local time were
    UTC. *)
Lemma parse_Format_stamp zone t : in_years (t + zone) -> parse_stamp (Format_stamp zone t) = Some ((t + zone) / second * second).
Proof.
  intros Ht. unfold Format_stamp, parse_stamp, pad_clock. pose proof (local_day_range zone t Ht) as Hd.
  destruct (clock_parts _ (local_clock_range zone t)) as (Hh & Hm & Hs & Hc). rewrite <- (local_split zone t).
  set (c := local_clock zone t) in *. rewrite (parse_pad_date false) by done. cbn [mbind option_bind].
  rewrite (string_cons_app "_"). cbn [literal]. rewrite bool_decide_eq_true_2 by done. cbn [mbind option_bind].
  change ("" +:+ ?x) with x. rewrite one_or_two_pad, below_Some by lia. cbn [mbind option_bind].
  change ("" +:+ ?x) with x. rewrite fixed_digits_exact, below_Some by (cbn; lia). cbn [mbind option_bind].
  change ("" +:+ ?x) with x. rewrite <- (string_app_nil_r (pad_digits 2 (c mod 60))), fixed_digits_exact, below_Some by (cbn; lia).
  cbn [mbind option_bind opt_fraction whole]. rewrite bool_decide_eq_true_2 by done. cbn [mbind option_bind]. f_equal. lia.
Qed.

Lemma opt_fraction_zone zone : opt_fraction (zone_text zone) = (0, zone_text zone).
Proof. unfold zone_text. destruct (zone =? 0); [done|]. by destruct (zone <? 0). Qed.

Lemma parse_zone_text zone : Z.abs zone < day_ns -> (60 * second | zone) ->
  whole (parse_zone ZoneOffset (zone_text zone)) = Some zone.
Proof.
  intros Hz [k Hk]. unfold zone_text. destruct (Z.eqb_spec zone 0) as [->|Hn]; [done|].
  assert (Z.abs zone / (60 * second) = Z.abs k) as ->.
  { rewrite Hk, Z.abs_mul. rewrite (Z.abs_eq (60 * second)) by done. by apply Z.div_mul. }
  assert (Z.abs k < 1440) as Hk'.
  { rewrite Hk, Z.abs_mul in Hz. unfold day_ns, second in Hz. lia. }
  assert (0 <= Z.abs k / 60 < 24 /\ 0 <= Z.abs k mod 60 < 60) as [Hh Hm] by (Z.div_mod_to_equations; lia).
  assert (parse_offset (pad_digits 2 (Z.abs k / 60) +:+ ":" +:+ pad_digits 2 (Z.abs k mod 60)) = Some (Z.abs k * 60 * second, "")) as Hp.
  { unfold parse_offset. rewrite fixed_digits_exact, below_Some by (cbn; lia). cbn [mbind option_bind].
    rewrite (string_cons_app ":"). cbn [literal]. rewrite bool_decide_eq_true_2 by done. cbn [mbind option_bind].
    change ("" +:+ ?x) with x. rewrite <- (string_app_nil_r (pad_digits 2 (Z.abs k mod 60))), fixed_digits_exact, below_Some by (cbn; lia).
    cbn [mbind option_bind]. f_equal. f_equal. pose proof (Z.div_mod (Z.abs k) 60). lia. }
  destruct (Z.ltb_spec zone 0).
  - change ("-" +:+ ?x) with (String "-" x). cbn [parse_zone]. rewrite Hp. cbn [mbind option_bind whole].
    rewrite bool_decide_eq_true_2 by done. f_equal. unfold second in *. lia.
  - change ("+" +:+ ?x) with (String "+" x). cbn [parse_zone]. rewrite Hp. cbn [mbind option_bind whole].
    rewrite bool_decide_eq_true_2 by done. f_equal. unfold second in *. lia.
Qed.

(** The text of RFC 3339 reads back as the instant, to the second. *)
Lemma parse_Format_RFC3339 zone t : in_years (t + zone) -> Z.abs zone < day_ns -> (60 * second | zone) ->
  time_Parse (DateTime "T" ZoneOffset) (Format_RFC3339 zone t) = Some (t / second * second).
Proof.
  intros Ht Hz1 Hz2. unfold Format_RFC3339, time_Parse, pad_clock. pose proof (local_day_range zone t Ht) as Hd.
  destruct (clock_parts _ (local_clock_range zone t)) as (Hh & Hm & Hs & Hc). pose proof (local_split zone t) as Hsp.
  set (c := local_clock zone t) in *. rewrite (parse_pad_date true) by done. cbn [mbind option_bind].
  rewrite (string_cons_app "T"). cbn [literal]. rewrite (bool_decide_eq_true_2 ("T"%char = "T"%char)) by done. cbn [mbind option_bind].
  rewrite bool_decide_eq_false_2 by done. change ("" +:+ ?x) with x. unfold parse_clock.
  rewrite <- !string_app_assoc, one_or_two_pad, below_Some by lia. cbn [mbind option_bind].
  rewrite (string_cons_app ":"). cbn [literal]. rewrite bool_decide_eq_true_2 by done. cbn [mbind option_bind].
  change ("" +:+ ?x) with x. rewrite fixed_digits_exact, below_Some by (cbn; lia). cbn [mbind option_bind].
  rewrite (string_cons_app ":"). cbn [literal]. rewrite bool_decide_eq_true_2 by done. cbn [mbind option_bind].
  change ("" +:+ ?x) with x. rewrite fixed_digits_exact, below_Some by (cbn; lia). cbn [mbind option_bind].
  rewrite opt_fraction_zone. cbn [mbind option_bind]. rewrite parse_zone_text by done. cbn [mbind option_bind]. f_equal.
  destruct Hz2 as [k Hk]. rewrite Z.add_0_r, Hc. rewrite Hsp, Hk. unfold second in *.
  replace (t + k * (60 * 1000000000)) with (t + k * 60 * 1000000000) by lia. rewrite Z.div_add by lia. lia.
Qed.

Example formats :
  Format_stamp 0 (1709210096 * second) = "20240229_123456" /\ Format_day (8 * 3600 * second) (1709210096 * second) = "2024/02/29" /\
  Format_RFC3339 (8 * 3600 * second) (1709210096 * second) = "2024-02-29T20:34:56+08:00".
Proof. vm_compute. done. Qed.
