(* ===== verification/GoFloat.v ===== *)
(** * Go's float64 and the conversions of time.Duration

    binary64 is the Standard Library's executable model of IEEE 754, with
    rounding to nearest. *)

From S2P Require Import Prelude GoTime.
From Stdlib Require Export SpecFloat.
#[local] Open Scope Z_scope.

Definition f64 (z : Z) : spec_float := binary_normalize 53 1024 z 0 false.
Definition fmul : spec_float -> spec_float -> spec_float := SFmul 53 1024.
Definition fdiv : spec_float -> spec_float -> spec_float := SFdiv 53 1024.
Definition fadd : spec_float -> spec_float -> spec_float := SFadd 53 1024.

(** Conversion to [int]: toward zero; out of range as on amd64. *)
Definition int_of_float (f : spec_float) : Z :=
  match f with
  | S754_zero _ => 0
  | S754_finite s m e =>
      let z := if 0 <=? e then Z.pos m * 2 ^ e else Z.pos m / 2 ^ (- e) in
      let z := if s then - z else z in
      if decide (in_int64 z) then z else min_int64
  | _ => min_int64
  end.

(** [Duration.Seconds] *)
Definition Seconds (d : Z) : spec_float :=
  fadd (f64 (Z.quot d second)) (fdiv (f64 (Z.rem d second)) (f64 second)).

(** [Time.Sub] saturates. *)
Definition time_Sub (a b : Z) : Z := Z.max min_int64 (Z.min max_int64 (a - b)).

Definition zero_time : Z := - 62135596800 * second.
