(* ===== verification/GoRegexp.v ===== *)
(** * Go's regexp package

    Regular expressions as the code writes them, with a backtracking matcher
    that follows the leftmost-first preference of Go: alternatives in order,
    repetitions greedy or lazy, groups recorded. Texts are byte strings; the
    multi-byte characters that Go's case folding adds to [s] and [k] are
    spelled out by [fold]. The matcher is proved sound and complete for the
    declarative relation [Matches], and to return the leftmost match. *)

From S2P Require Import Prelude GoStrings.
From Stdlib Require Import Ascii.
#[local] Open Scope Z_scope.

Inductive regex :=
  | Empty
  | Cls (P : ascii -> bool)            (* one byte of a class *)
  | Cat (a b : regex)
  | Alt (a b : regex)
  | Star (greedy : bool) (a : regex)
  | Group (n : nat) (a : regex)
  | Begin                              (* ^ *)
  | End_                               (* $ *)
  | WordB.                             (* \b *)

(** ** Character classes *)

Definition not_newline (c : ascii) : bool := negb (N_of_ascii c =? 10)%N.

(** ** Abbreviations for the notation of Go *)

Definition chr (c : ascii) : regex := Cls (fun x => bool_decide (x = c)).

Fixpoint lit (s : string) : regex :=
  match s with "" => Empty | String c "" => chr c | String c s => Cat (chr c) (lit s) end.

(** A lower-case letter under [(?i)]: both cases, and the long s and the
    Kelvin sign. *)
Definition fold (c : ascii) : regex :=
  let both := Cls (fun x => bool_decide (lower_char x = c)) in
  match N_of_ascii c with
  | 115%N => Alt both (lit (bytes [197; 191]%N))
  | 107%N => Alt both (lit (bytes [226; 132; 170]%N))
  | _ => both
  end.

Fixpoint ilit (s : string) : regex :=
  match s with "" => Empty | String c "" => fold c | String c s => Cat (fold c) (ilit s) end.

(** The classes [\w] under [(?i)] and without it, [\s], [\d], [.]. *)
Definition word : regex := Cls is_word.
Definition iword : regex :=
  Alt word (Alt (lit (bytes [197; 191]%N)) (lit (bytes [226; 132; 170]%N))).
Definition blank : regex := Cls is_blank.
Definition digit : regex := Cls is_digit.
Definition dot : regex := Cls not_newline.

Definition star : regex -> regex := Star true.
Definition plus (r : regex) : regex := Cat r (Star true r).
Definition opt (r : regex) : regex := Alt r Empty.

Fixpoint seq (l : list regex) : regex :=
  match l with [] => Empty | [r] => r | r :: l => Cat r (seq l) end.

Fixpoint alts (l : list regex) : regex :=
  match l with [] => Cls (fun _ => false) | [r] => r | r :: l => Alt r (alts l) end.

(** ** Matching *)

(** Where the matcher is: the byte before, the text after, the groups. *)
Record state := mkState { prev : option ascii; rest : string; caps : list (nat * string) }.

Definition boundary (st : state) : bool :=
  let before := match prev st with Some c => is_word c | None => false end in
  let after := match rest st with String c _ => is_word c | "" => false end in
  xorb before after.

Definition remaining (st : state) : nat := String.length (rest st).

Fixpoint take_string (n : nat) (s : string) : string :=
  match n, s with S n, String c s => String c (take_string n s) | _, _ => "" end.

(** The text between two positions. *)
Definition between (st st' : state) : string := take_string (remaining st - remaining st') (rest st).

Definition close (n : nat) (st st' : state) : state :=
  mkState (prev st') (rest st') ((n, between st st') :: caps st').

Definition orelse {A} (x y : option A) : option A := match x with Some a => Some a | None => y end.

(** A repetition, from the matcher of its body: an iteration must consume
    something, so the text's length bounds the number of iterations. *)
Fixpoint star_loop {A} (body : state -> (state -> option A) -> option A) (greedy : bool)
    (k : state -> option A) (n : nat) (st : state) : option A :=
  match n with
  | O => k st
  | S n =>
      let more :=
        body st (fun st' =>
          if (remaining st' <? remaining st)%nat then star_loop body greedy k n st' else None) in
      if greedy then orelse more (k st) else orelse (k st) more
  end.

Fixpoint run {A} (r : regex) (st : state) (k : state -> option A) : option A :=
  match r with
  | Empty => k st
  | Cls P =>
      match rest st with
      | String c s => if P c then k (mkState (Some c) s (caps st)) else None
      | "" => None
      end
  | Cat a b => run a st (fun st => run b st k)
  | Alt a b => orelse (run a st k) (run b st k)
  | Star greedy a =>
      star_loop (run a) greedy k (remaining st) st
  | Group n a => run a st (fun st' => k (close n st st'))
  | Begin => match prev st with None => k st | Some _ => None end
  | End_ => match rest st with "" => k st | _ => None end
  | WordB => if boundary st then k st else None
  end.

(** The match at a position, with its end. *)
Definition match_at (r : regex) (st : state) : option state := run r st Some.

Definition at_start (s : string) : state := mkState None s [].

(** A match: the text before it, its start and its end. *)
Record found := mkFound { skipped : string; from : state; upto : state }.

(** The leftmost match from a position on. *)
Fixpoint find (r : regex) (p : option ascii) (s : string) : option found :=
  match match_at r (mkState p s []) with
  | Some e => Some (mkFound "" (mkState p s []) e)
  | None =>
      match s with
      | "" => None
      | String c s' =>
          match find r (Some c) s' with
          | Some f => Some (mkFound (String c (skipped f)) (from f) (upto f))
          | None => None
          end
      end
  end.

Definition capture (n : nat) (f : found) : string :=
  match List.find (fun p => (p.1 =? n)%nat) (caps (upto f)) with Some (_, t) => t | None => "" end.

Definition MatchString (r : regex) (s : string) : bool :=
  match find r None s with Some _ => true | None => false end.

(** [FindStringSubmatch] *)
Definition FindSubmatch (r : regex) (s : string) : option found := find r None s.

(** [FindAllStringSubmatch]; after an empty match the search goes on one byte
    further. The patterns here match no empty text. *)
Fixpoint find_all (fuel : nat) (r : regex) (p : option ascii) (s : string) : list found :=
  match fuel with
  | O => []
  | S fuel =>
      match find r p s with
      | None => []
      | Some f =>
          f :: (if (remaining (upto f) <? String.length s)%nat
                then find_all fuel r (prev (upto f)) (rest (upto f))
                else match s with "" => [] | String c s' => find_all fuel r (Some c) s' end)
      end
  end.

Definition FindAll (r : regex) (s : string) : list found := find_all (S (String.length s)) r None s.

(** [ReplaceAllString] with a replacement computed from each match. *)
Fixpoint replace_all (fuel : nat) (r : regex) (f : found -> string) (p : option ascii) (s : string) : string :=
  match fuel with
  | O => s
  | S fuel =>
      match find r p s with
      | None => s
      | Some m =>
          skipped m +:+ f m +:+
          (if (remaining (upto m) <? String.length s)%nat
           then replace_all fuel r f (prev (upto m)) (rest (upto m)) else s)
      end
  end.

Definition ReplaceAll (r : regex) (f : found -> string) (s : string) : string :=
  replace_all (S (String.length s)) r f None s.

(** ** What it means to match *)

Inductive Matches : regex -> state -> state -> Prop :=
  | M_empty st : Matches Empty st st
  | M_cls P c s p cs : P c = true -> Matches (Cls P) (mkState p (String c s) cs) (mkState (Some c) s cs)
  | M_cat a b st1 st2 st3 : Matches a st1 st2 -> Matches b st2 st3 -> Matches (Cat a b) st1 st3
  | M_left a b st st' : Matches a st st' -> Matches (Alt a b) st st'
  | M_right a b st st' : Matches b st st' -> Matches (Alt a b) st st'
  | M_stop g a st : Matches (Star g a) st st
  | M_more g a st1 st2 st3 :
      Matches a st1 st2 -> (remaining st2 < remaining st1)%nat -> Matches (Star g a) st2 st3 ->
      Matches (Star g a) st1 st3
  | M_group n a st st' : Matches a st st' -> Matches (Group n a) st (close n st st')
  | M_begin s cs : Matches Begin (mkState None s cs) (mkState None s cs)
  | M_end p cs : Matches End_ (mkState p "" cs) (mkState p "" cs)
  | M_wordb st : boundary st = true -> Matches WordB st st.

#[export] Hint Constructors Matches : miniodb.

Lemma orelse_Some {A} (x y : option A) z : orelse x y = Some z -> x = Some z \/ y = Some z.
Proof. destruct x; simpl; auto. Qed.

Lemma orelse_None {A} (x y : option A) : orelse x y = None <-> x = None /\ y = None.
Proof. destruct x; simpl; split; [done|intros [? ?]; done|auto|tauto]. Qed.

(** What a repetition finds, given that its body is sound. *)
Lemma star_loop_sound {A} a g (k : state -> option A) z :
  (forall st k' , run (A:=A) a st k' = Some z -> exists st', Matches a st st' /\ k' st' = Some z) ->
  forall n st, star_loop (run a) g k n st = Some z -> exists st', Matches (Star g a) st st' /\ k st' = Some z.
Proof.
  intros IHa n. induction n as [|n IHn]; intros st H; [eauto with miniodb|]. cbn [star_loop] in H.
  set (more := run a st _) in H.
  assert (more = Some z \/ k st = Some z) as [Hm|Hk];
    [destruct g; apply orelse_Some in H; tauto| |eauto with miniodb].
  apply IHa in Hm as (st1 & H1 & H2). destruct (Nat.ltb_spec (remaining st1) (remaining st)); [|done].
  apply IHn in H2 as (st2 & H2 & Hk). eauto with miniodb.
Qed.

(** What the matcher finds is a match that the continuation accepts. *)
Lemma run_sound {A} r : forall st (k : state -> option A) z,
  run r st k = Some z -> exists st', Matches r st st' /\ k st' = Some z.
Proof.
  induction r as [|P|a IHa b IHb|a IHa b IHb|g a IHa|n a IHa| | |]; intros st k z; cbn [run].
  - eauto with miniodb.
  - destruct st as [p [|c s] cs]; cbn; [done|]. destruct (P c) eqn:E; [|done]. eauto with miniodb.
  - intros (st1 & H1 & (st2 & H2 & Hk)%IHb)%IHa. eauto with miniodb.
  - intros [(st' & ? & ?)%IHa|(st' & ? & ?)%IHb]%orelse_Some; eauto with miniodb.
  - apply star_loop_sound. eauto.
  - intros (st' & ? & ?)%IHa. eauto with miniodb.
  - destruct st as [[c|] s cs]; cbn; [done|]. eauto with miniodb.
  - destruct st as [p [|c s] cs]; cbn; [|done]. eauto with miniodb.
  - destruct (boundary st) eqn:E; [|done]. eauto with miniodb.
Qed.

(** The same, for every bound on the iterations that the text allows. *)
Definition finds {A} (r : regex) (st : state) (k : state -> option A) : Prop :=
  match r with
  | Star g a => forall n, (remaining st <= n)%nat -> star_loop (run a) g k n st <> None
  | _ => run r st k <> None
  end.

Lemma finds_run {A} r st (k : state -> option A) : finds r st k -> run r st k <> None.
Proof. destruct r; cbn; auto. Qed.

(** If there is a match the continuation accepts, the matcher finds one. *)
Lemma run_finds r st st' :
  Matches r st st' -> forall A (k : state -> option A), k st' <> None -> finds r st k.
Proof.
  induction 1 as [| ? ? ? ? ? E|? ? ? ? ? ? IHa ? IHb|? ? ? ? ? IH|? ? ? ? ? IH|g a st
                 |g a st1 st2 st3 Ha IHa Hlt Hs IHs|n a st st' H IH| | |? E];
    intros A k Hk; cbn [run finds]; auto.
  - cbn. by rewrite E.
  - apply finds_run, IHa, finds_run, IHb, Hk.
  - rewrite orelse_None. intros [? _]. by eapply finds_run; [apply IH|].
  - rewrite orelse_None. intros [_ ?]. by eapply finds_run; [apply IH|].
  - intros [|n] _; cbn; [done|]. destruct g; rewrite orelse_None; tauto.
  - intros [|n] Hn; [lia|]. cbn [star_loop].
    enough (run a st1 (fun st' => if (remaining st' <? remaining st1)%nat
              then star_loop (run a) g k n st' else None) <> None) as Hm
      by (destruct g; rewrite orelse_None; tauto).
    apply finds_run, IHa. destruct (Nat.ltb_spec (remaining st2) (remaining st1)); [|lia].
    apply (IHs A k Hk). lia.
  - apply finds_run, IH, Hk.
  - by rewrite E.
Qed.

Lemma run_complete r st st' {A} (k : state -> option A) :
  Matches r st st' -> k st' <> None -> run r st k <> None.
Proof. intros H Hk. by eapply finds_run, run_finds. Qed.

(** ** Positions in a text *)

(** The byte before the position that follows [pre]. *)
Fixpoint last_of (p : option ascii) (pre : string) : option ascii :=
  match pre with "" => p | String c s => last_of (Some c) s end.

Lemma last_of_app p a b : last_of p (a +:+ b) = last_of (last_of p a) b.
Proof. revert p. induction a as [|c a IH]; intros p; [done|apply IH]. Qed.

Lemma cons_app_inv c s x p q : String c s = String x p +:+ q -> c = x /\ s = p +:+ q.
Proof. by intros [= -> ->]. Qed.

Lemma take_string_app a b : take_string (String.length a) (a +:+ b) = a.
Proof. induction a as [|x a IH]; [done|]. exact (f_equal (String x) IH). Qed.

Lemma last_of_cons p c pre : last_of p (String c pre) <> None.
Proof. revert c. induction pre as [|d pre IH]; intros c; [done|apply IH]. Qed.

(** A match consumes a piece of the text. *)
Lemma Matches_consumes r st st' :
  Matches r st st' -> exists t, rest st = t +:+ rest st' /\ prev st' = last_of (prev st) t.
Proof.
  induction 1 as [| ? c| |? ? ? ? ? IH|? ? ? ? ? IH| | |? ? ? ? ? IH| | |];
    try (destruct IH as (t & ? & ?)); try (by exists ""); eauto.
  - by exists (String c "").
  - destruct IHMatches1 as (t1 & E1 & P1), IHMatches2 as (t2 & E2 & P2).
    exists (t1 +:+ t2). rewrite E1, E2, string_app_assoc, last_of_app. by rewrite <- P1.
  - destruct IHMatches1 as (t1 & E1 & P1), IHMatches2 as (t2 & E2 & P2).
    exists (t1 +:+ t2). rewrite E1, E2, string_app_assoc, last_of_app. by rewrite <- P1.
Qed.

(** [between] is the piece consumed. *)
Lemma between_consumed st st' t : rest st = t +:+ rest st' -> between st st' = t.
Proof.
  intros E. unfold between, remaining. rewrite E, string_length_app.
  replace (_ + _ - _)%nat with (String.length t) by lia. apply take_string_app.
Qed.

Lemma match_at_sound r st st' : match_at r st = Some st' -> Matches r st st'.
Proof. intros (st1 & H & [= ->])%run_sound. exact H. Qed.

Lemma match_at_None r st : match_at r st = None <-> forall st', ~ Matches r st st'.
Proof.
  split.
  - intros E st' H. by apply (run_complete r st st' Some) in H.
  - intros H. destruct (match_at r st) as [st'|] eqn:E; [|done].
    by apply match_at_sound, H in E.
Qed.

(** [find] returns a match, and there is none further to the left. *)
Lemma find_Some r p s f :
  find r p s = Some f ->
  s = skipped f +:+ rest (from f) /\
  from f = mkState (last_of p (skipped f)) (rest (from f)) [] /\
  match_at r (from f) = Some (upto f) /\
  forall pre c pre' suf st', skipped f = pre +:+ String c pre' -> s = pre +:+ suf ->
    ~ Matches r (mkState (last_of p pre) suf []) st'.
Proof.
  revert p f. induction s as [|c s IH]; intros p f; cbn [find];
    destruct (match_at r _) as [e|] eqn:E; try done.
  - intros [= <-]. cbn. repeat split; auto. intros [|??] ? ? ? ? Hd; discriminate Hd.
  - intros [= <-]. cbn. repeat split; auto. intros [|??] ? ? ? ? Hd; discriminate Hd.
  - destruct (find r (Some c) s) as [g|] eqn:F; [|done]. intros [= <-]. cbn.
    destruct (IH _ _ F) as (Hs & Hf & Hm & Hl). split; [exact (f_equal (String c) Hs)|]. repeat split; auto.
    intros [|x pre] d pre' suf st' Hsk Hsuf.
    + change (String c s = suf) in Hsuf. subst suf. by apply match_at_None.
    + apply cons_app_inv in Hsk as [<- Hsk]. apply cons_app_inv in Hsuf as [_ Hsuf]. cbn [last_of]. eapply Hl; eauto.
Qed.

Lemma find_None r p s :
  find r p s = None <-> forall pre suf st', s = pre +:+ suf -> ~ Matches r (mkState (last_of p pre) suf []) st'.
Proof.
  revert p. induction s as [|c s IH]; intros p; cbn [find];
    destruct (match_at r _) as [e|] eqn:E.
  - split; [done|]. intros H. apply match_at_sound in E. by destruct (H "" "" e).
  - split; [|done]. intros _ [|??] suf st' Hs; [|discriminate Hs]. change ("" = suf) in Hs. subst suf. by apply match_at_None.
  - split; [done|]. intros H. apply match_at_sound in E. by destruct (H "" (String c s) e).
  - specialize (IH (Some c)). destruct (find r (Some c) s) as [g|]; split; try done.
    + intros H. destruct IH as [_ IH]. enough (Some g = None) by done. apply IH. intros pre suf st' -> .
      by apply (H (String c pre)).
    + intros _ [|x pre] suf st' Hs.
      * change (String c s = suf) in Hs. subst suf. by apply match_at_None.
      * apply cons_app_inv in Hs as [<- Hs]. cbn [last_of]. by apply IH.
Qed.

(** [MatchString] decides whether the expression matches anywhere. *)
Lemma MatchString_iff r s :
  MatchString r s = true <->
  exists pre suf st', s = pre +:+ suf /\ Matches r (mkState (last_of None pre) suf []) st'.
Proof.
  unfold MatchString. destruct (find r None s) as [f|] eqn:F; split; try done.
  - intros _. apply find_Some in F as (Hs & Hf & Hm & _).
    exists (skipped f), (rest (from f)), (upto f). split; [done|].
    rewrite <- Hf. by apply match_at_sound.
  - intros (pre & suf & st' & Hs & H). by apply (proj1 (find_None r None s) F pre suf st') in H.
Qed.

Lemma MatchString_false r s :
  MatchString r s = false <->
  forall pre suf st', s = pre +:+ suf -> ~ Matches r (mkState (last_of None pre) suf []) st'.
Proof.
  unfold MatchString. rewrite <- find_None. by destruct (find r None s).
Qed.

(** An expression anchored at both ends is about the whole text. *)
Lemma MatchString_anchored r s :
  MatchString (Cat Begin (Cat r End_)) s = true <->
  exists st', Matches r (mkState None s []) st' /\ rest st' = "".
Proof.
  rewrite MatchString_iff. split.
  - intros (pre & suf & st' & -> & H). inversion H as [| |? ? ? st1 ? Hb H1| | | | | | | |]; subst.
    inversion Hb as [| | | | | | | |? ? Hp| |]; subst.
    destruct pre as [|c pre]; [|by destruct (last_of_cons None c pre)].
    + inversion H1 as [| |? ? ? st2 ? Hr He| | | | | | | |]; subst. inversion He; subst.
      eexists. split; [exact Hr|done].
  - intros ([p t cs] & Hr & Ht). cbn in Ht. subst t. exists "", s, (mkState p "" cs).
    split; [done|]. eauto with miniodb.
Qed.

(** Literals. *)
Lemma chr_matches c p s cs : Matches (chr c) (mkState p (String c s) cs) (mkState (Some c) s cs).
Proof. constructor. by apply bool_decide_eq_true. Qed.

Lemma lit_matches t p s cs :
  Matches (lit t) (mkState p (t +:+ s) cs) (mkState (last_of p t) s cs).
Proof.
  revert p. induction t as [|c t IH]; intros p; [constructor|].
  destruct t as [|d t]; [apply chr_matches|]. econstructor; [apply chr_matches|apply IH].
Qed.

(** Both spellings of a letter. *)
Lemma fold_matches c x p s cs :
  lower_char x = c -> Matches (fold c) (mkState p (String x s) cs) (mkState (Some x) s cs).
Proof.
  intros E. assert (Matches (Cls (fun x => bool_decide (lower_char x = c)))
    (mkState p (String x s) cs) (mkState (Some x) s cs)) as H
    by (constructor; by apply bool_decide_eq_true).
  unfold fold. case_all; try exact H; by constructor.
Qed.

(** A literal under [(?i)] matches every text of the same lower case. *)
Lemma ilit_matches t u p s cs :
  ToLower u = t -> Matches (ilit t) (mkState p (u +:+ s) cs) (mkState (last_of p u) s cs).
Proof.
  revert p t. induction u as [|c u IH]; intros p t <-; [constructor|].
  destruct u as [|d u]; [by apply fold_matches|].
  eapply (M_cat (fold (lower_char c)) (ilit (ToLower (String d u)))); [by apply fold_matches|by apply IH].
Qed.

(** ** Runs of one class

    [P+] takes the longest run; these are the only expressions that are
    replaced or split at. *)

Lemma star_cls P p s cs n :
  (String.length s <= n)%nat ->
  star_loop (run (Cls P)) true Some n (mkState p s cs) =
  Some (mkState (last_of p (span P s).1) (span P s).2 cs).
Proof.
  revert p s. induction n as [|n IH]; intros p s Hn; [destruct s; [reflexivity|cbn in Hn; lia]|].
  cbn [star_loop run rest]. destruct s as [|c s]; [done|]. cbn [span caps]. cbn in Hn.
  destruct (P c); [|done].
  replace (_ <? _)%nat with true by (symmetry; apply Nat.ltb_lt; cbn; lia).
  rewrite IH by lia. by destruct (span P s).
Qed.

Lemma match_plus_cls P p s :
  match_at (plus (Cls P)) (mkState p s []) =
  if bool_decide ((span P s).1 = "") then None
  else Some (mkState (last_of p (span P s).1) (span P s).2 []).
Proof.
  unfold match_at, plus. cbn [run]. destruct s as [|c s]; [done|]. cbn [rest span].
  destruct (P c); [|done]. cbn [caps]. etransitivity; [by apply (star_cls P)|]. by destruct (span P s).
Qed.

Lemma span_app P s : (span P s).1 +:+ (span P s).2 = s.
Proof.
  induction s as [|c s IH]; [done|]. cbn. destruct (P c); [|done].
  destruct (span P s); cbn in *. exact (f_equal (String c) IH).
Qed.

(** [\s+] replaced by a blank, as one pass over the text. *)
Fixpoint squeeze (inside : bool) (s : string) : string :=
  match s with
  | "" => ""
  | String c s' =>
      if is_blank c then (if inside then squeeze true s' else String " " (squeeze true s'))
      else String c (squeeze false s')
  end.

Lemma squeeze_blanks s : squeeze true s = squeeze true (span is_blank s).2.
Proof.
  induction s as [|c s IH]; [done|]. cbn. destruct (is_blank c) eqn:E; [|cbn; by rewrite E].
  by destruct (span is_blank s).
Qed.

Lemma squeeze_fresh s : (span is_blank s).1 = "" -> squeeze true s = squeeze false s.
Proof.
  destruct s as [|c s]; [done|]. cbn. destruct (is_blank c); [|done]. by destruct (span is_blank s).
Qed.

Lemma span_stops P s : (span P (span P s).2).1 = "".
Proof.
  induction s as [|c s IH]; [done|]. cbn. destruct (P c) eqn:E; [by destruct (span P s)|].
  cbn. by rewrite E.
Qed.

Lemma length_span P s : String.length s = (String.length (span P s).1 + String.length (span P s).2)%nat.
Proof. by rewrite <- (span_app P s) at 1; rewrite string_length_app. Qed.

Lemma find_plus_cls P p s :
  find (plus (Cls P)) p s =
  let a := (span (fun c => negb (P c)) s).1 in
  let r := (span (fun c => negb (P c)) s).2 in
  if bool_decide (r = "") then None
  else Some (mkFound a (mkState (last_of p a) r []) (mkState (last_of (last_of p a) (span P r).1) (span P r).2 [])).
Proof.
  revert p. induction s as [|c s IH]; intros p; [done|]. cbn [find]. rewrite match_plus_cls.
  cbn [span]. destruct (P c) eqn:E; cbn.
  - rewrite E. by destruct (span P s).
  - rewrite IH. cbn. destruct (span (fun c => negb (P c)) s) as [a r]; cbn.
    by destruct (bool_decide (r = "")).
Qed.

Lemma squeeze_skip s :
  squeeze false s =
  (span (fun c => negb (is_blank c)) s).1 +:+ squeeze false (span (fun c => negb (is_blank c)) s).2.
Proof.
  induction s as [|c s IH]; [done|]. cbn. destruct (is_blank c) eqn:E; cbn; [by rewrite E|].
  rewrite IH. by destruct (span _ s).
Qed.

Lemma replace_blanks fuel p s :
  (String.length s < fuel)%nat ->
  replace_all fuel (plus blank) (fun _ => " ") p s = squeeze false s.
Proof.
  revert p s. induction fuel as [|fuel IH]; intros p s Hf; [lia|]. cbn [replace_all].
  unfold blank. rewrite find_plus_cls, squeeze_skip. cbn zeta.
  pose proof (length_span (fun c => negb (is_blank c)) s) as Hl.
  pose proof (span_stops (fun c => negb (is_blank c)) s) as Hst.
  pose proof (span_app (fun c => negb (is_blank c)) s) as Happ.
  destruct (span (fun c => negb (is_blank c)) s) as [a r]. cbn [fst snd] in *.
  case_bool_decide as Hr; [subst r; by rewrite <- Happ|]. cbn [skipped from upto remaining rest prev].
  destruct r as [|c r]; [done|]. cbn [span] in Hst |- *. destruct (is_blank c) eqn:Ec; cbn in Hst.
  2:{ by destruct (span (fun c => negb (is_blank c)) r). }
  pose proof (length_span is_blank r) as Hl2. pose proof (span_stops is_blank r) as Hs2.
  cbn [squeeze]. rewrite Ec, squeeze_blanks. destruct (span is_blank r) as [w r']. cbn [fst snd] in *.
  cbn in Hl. unfold remaining. cbn [rest].
  destruct (Nat.ltb_spec (String.length r') (String.length s)); [|lia].
  rewrite squeeze_fresh by done. fold blank. rewrite IH by lia. done.
Qed.

Lemma ReplaceAll_blanks s : ReplaceAll (plus blank) (fun _ => " ") s = squeeze false s.
Proof. apply replace_blanks. lia. Qed.

(** ** Building matches *)

Lemma alts_matches r l st st' : r ∈ l -> Matches r st st' -> Matches (alts l) st st'.
Proof.
  intros Hin H. induction l as [|a l IH]; [by apply elem_of_nil in Hin|].
  apply elem_of_cons in Hin as [<-|Hin]; destruct l as [|b l]; cbn; auto with miniodb.
  by apply elem_of_nil in Hin.
Qed.

Lemma star_matches P p s cs :
  Matches (star (Cls P)) (mkState p s cs) (mkState (last_of p (span P s).1) (span P s).2 cs).
Proof.
  revert p. induction s as [|c s IH]; intros p; cbn; [constructor|].
  destruct (P c) eqn:E; [|constructor]. specialize (IH (Some c)). destruct (span P s) as [w r]. cbn in *.
  eapply M_more; [by apply M_cls|cbn; lia|exact IH].
Qed.

Lemma span_all P s : (span P s).2 = "" -> all_chars P s = true.
Proof.
  induction s as [|c s IH]; [done|]. cbn. destruct (P c); [|done]. destruct (span P s). apply IH.
Qed.

Lemma span_next P s c r : (span P s).2 = String c r -> P c = false.
Proof.
  induction s as [|d s IH]; [done|]. cbn. destruct (P d) eqn:E; [destruct (span P s); apply IH|].
  by intros [= <- _].
Qed.

Lemma MatchString_at r x s st' :
  Matches r (mkState (last_of None x) s []) st' -> MatchString r (x +:+ s) = true.
Proof. intros H. apply MatchString_iff. eauto. Qed.
