(* ===== verification/GoHeap.v ===== *)
(** * Go's container/heap, and choosing the best of a stream with it

    The heap lives in a slice; [up] and [down] sift an element. The lemmas say
    that the operations keep the elements and the heap order, and that the
    code's way of keeping the [keep] best of a stream ([offer]) keeps just
    these. *)

From S2P Require Import Prelude.
#[local] Open Scope nat_scope.

(** What [Less] has to be: a strict weak order. *)
Class WeakOrder {A} (less : A -> A -> bool) : Prop := {
  less_asym x y : less x y = true -> less y x = false;
  less_neg_trans x y z : less y x = false -> less z y = false -> less z x = false;
}.

Section order.
Context {A} (less : A -> A -> bool) `{!WeakOrder less}.

Lemma less_irrefl x : less x x = false.
Proof. destruct (less x x) eqn:E; [|done]. by rewrite (less_asym x x E) in E. Qed.

Lemma less_trans x y z : less x y = true -> less y z = true -> less x z = true.
Proof.
  intros H1 H2. destruct (less x z) eqn:E; [done|]. by rewrite (less_neg_trans z x y E (less_asym x y H1)) in H2.
Qed.

Lemma less_le_trans x y z : less x y = true -> less z y = false -> less x z = true.
Proof.
  intros H1 H2. destruct (less x z) eqn:E; [done|]. by rewrite (less_neg_trans y z x H2 E) in H1.
Qed.

Lemma le_less_trans x y z : less y x = false -> less y z = true -> less x z = true.
Proof.
  intros H1 H2. destruct (less x z) eqn:E; [done|]. by rewrite (less_neg_trans z x y E H1) in H2.
Qed.
End order.

Section heap.
Context {A} `{!Inhabited A} (less : A -> A -> bool).

Definition swap (i j : nat) (l : list A) : list A := <[i := l !!! j]> (<[j := l !!! i]> l).

Definition parent (j : nat) : nat := (j - 1) / 2.

Fixpoint up (fuel j : nat) (l : list A) : list A :=
  match fuel with
  | O => l
  | S fuel =>
      let i := parent j in
      if (i =? j) || negb (less (l !!! j) (l !!! i)) then l else up fuel i (swap i j l)
  end.

(** The smaller of the two children. *)
Definition child (n i : nat) (l : list A) : nat :=
  let j1 := 2 * i + 1 in
  let j2 := j1 + 1 in
  if (j2 <? n) && less (l !!! j2) (l !!! j1) then j2 else j1.

Fixpoint down (fuel i n : nat) (l : list A) : list A :=
  match fuel with
  | O => l
  | S fuel =>
      if n <=? 2 * i + 1 then l else
      let j := child n i l in
      if negb (less (l !!! j) (l !!! i)) then l else down fuel j n (swap i j l)
  end.

(** [Init] sifts from the last inner node to the root. *)
Fixpoint init_from (i n : nat) (l : list A) : list A :=
  match i with O => l | S i => init_from i n (down n i n l) end.
Definition Init (l : list A) : list A := init_from (length l / 2) (length l) l.

Definition Push (x : A) (l : list A) : list A := up (S (length l)) (length l) (l ++ [x]).

(** The removed element, and the heap without it; for a heap that is not
    empty. *)
Definition Pop (l : list A) : A * list A :=
  let n := length l - 1 in
  let l := down n 0 n (swap 0 n l) in
  (l !!! n, take n l).

(** ** The elements stay *)

Lemma swap_length i j l : length (swap i j l) = length l.
Proof. unfold swap. by rewrite !length_insert. Qed.

Lemma insert_cancel i x y (l : list A) : l !! i = Some x -> x :: <[i := y]> l ≡ₚ y :: l.
Proof.
  intros H. rewrite (delete_Permutation (<[i := y]> l) i y) by
    (apply list_lookup_insert_eq; by eapply lookup_lt_Some).
  rewrite (delete_Permutation l i x H) at 2.
  replace (delete i (<[i := y]> l)) with (delete i l); [apply Permutation_swap|].
  apply list_eq. intros k. destruct (decide (k < i)).
  - rewrite !list_lookup_delete_lt by lia. by rewrite list_lookup_insert_ne by lia.
  - rewrite !list_lookup_delete_ge by lia. by rewrite list_lookup_insert_ne by lia.
Qed.

Lemma swap_perm i j l : i < length l -> j < length l -> swap i j l ≡ₚ l.
Proof.
  intros Hi Hj. unfold swap. apply (Permutation_cons_inv (a := l !!! i)).
  assert (l !! i = Some (l !!! i)) as Ei by by apply list_lookup_lookup_total_lt.
  assert (l !! j = Some (l !!! j)) as Ej by by apply list_lookup_lookup_total_lt.
  rewrite insert_cancel; [by apply insert_cancel|].
  destruct (decide (i = j)) as [->|]; [by apply list_lookup_insert_eq|by rewrite list_lookup_insert_ne].
Qed.

Lemma swap_at i j l k :
  i < length l -> j < length l -> i <> j ->
  swap i j l !!! k = if decide (k = i) then l !!! j else if decide (k = j) then l !!! i else l !!! k.
Proof.
  intros Hi Hj Hij. unfold swap. destruct (decide (k = i)) as [->|Hki].
  - apply list_lookup_total_insert_eq. by rewrite length_insert.
  - rewrite list_lookup_total_insert_ne by done. destruct (decide (k = j)) as [->|Hkj].
    + by apply list_lookup_total_insert_eq.
    + by rewrite list_lookup_total_insert_ne.
Qed.

Lemma parent_lt j : 0 < j -> parent j < j.
Proof. intros H. unfold parent. apply Nat.Div0.div_lt_upper_bound. lia. Qed.

Lemma parent_spec c i : 0 < c -> parent c = i <-> c = 2 * i + 1 \/ c = 2 * i + 2.
Proof.
  intros Hc. unfold parent. split.
  - intros <-. pose proof (Nat.div_mod_eq (c - 1) 2). pose proof (Nat.mod_upper_bound (c - 1) 2). lia.
  - intros [-> | ->].
    + replace (2 * i + 1 - 1) with (i * 2) by lia. apply Nat.div_mul. lia.
    + replace (2 * i + 2 - 1) with (1 + i * 2) by lia. rewrite Nat.div_add by lia. done.
Qed.

Lemma up_perm fuel j l : j < length l -> up fuel j l ≡ₚ l.
Proof.
  revert j l. induction fuel as [|fuel IH]; intros j l Hj; [done|]. cbn [up].
  destruct (Nat.eqb_spec (parent j) j) as [|E]; cbn [orb]; [reflexivity|]. destruct (negb _); [reflexivity|].
  assert (parent j < length l).
  { destruct (decide (j = 0)) as [->|]; [done|]. pose proof (parent_lt j). lia. }
  rewrite IH by by rewrite swap_length. by apply swap_perm.
Qed.

Lemma child_spec n i l : 2 * i + 1 < n -> child n i l < n /\ parent (child n i l) = i /\ i < child n i l.
Proof.
  intros H. unfold child. cbn zeta. split_and!.
  2: apply parent_spec.
  all: destruct (Nat.ltb_spec (2 * i + 1 + 1) n), (less _ _); cbn [andb]; lia.
Qed.

Lemma down_perm fuel i n l : n <= length l -> i < length l -> down fuel i n l ≡ₚ l.
Proof.
  revert i l. induction fuel as [|fuel IH]; intros i l Hn Hi; [done|]. cbn [down].
  destruct (Nat.leb_spec n (2 * i + 1)); [reflexivity|].
  assert (child n i l < n) as Hj by (pose proof (child_spec n i l); lia).
  destruct (negb _); [reflexivity|]. rewrite IH by (rewrite swap_length; lia). apply swap_perm; lia.
Qed.
(** ** The order is restored *)

Definition heap (n : nat) (l : list A) : Prop :=
  forall k, 0 < k < n -> less (l !!! k) (l !!! parent k) = false.

(** In order but for one element that may be too small, or too large. *)
Definition heap_up (n j : nat) (l : list A) : Prop :=
  (forall k, 0 < k < n -> k <> j -> less (l !!! k) (l !!! parent k) = false) /\
  (forall c, 0 < c < n -> parent c = j -> 0 < j -> less (l !!! c) (l !!! parent j) = false).

Definition heap_down (n i : nat) (l : list A) : Prop :=
  (forall k, 0 < k < n -> parent k <> i -> less (l !!! k) (l !!! parent k) = false) /\
  (forall c, 0 < c < n -> parent c = i -> 0 < i -> less (l !!! c) (l !!! parent i) = false).

Context `{!WeakOrder less}.

Lemma heap_up_step n j l :
  n <= length l -> 0 < j < n -> less (l !!! j) (l !!! parent j) = true ->
  heap_up n j l -> heap_up n (parent j) (swap (parent j) j l).
Proof.
  intros Hn Hj Hl [H1 H2]. pose proof (parent_lt j ltac:(lia)) as Hp.
  assert (forall k, swap (parent j) j l !!! k =
    if decide (k = parent j) then l !!! j else if decide (k = j) then l !!! parent j else l !!! k) as Hs
    by (intros; apply swap_at; lia).
  split.
  - intros k Hk Hne. rewrite !Hs. pose proof (parent_lt k ltac:(lia)).
    rewrite decide_False by done. destruct (decide (k = j)) as [->|Hkj].
    { rewrite decide_True by done. by apply less_asym. }
    destruct (decide (parent k = parent j)) as [E|Ep].
    { apply (less_neg_trans (l !!! j) (l !!! parent j)); [by apply less_asym|]. rewrite <- E. by apply H1. }
    destruct (decide (parent k = j)) as [E|]; [apply H2; lia|by apply H1].
  - intros c Hc Hpc Hpos. rewrite !Hs. pose proof (parent_lt (parent j) Hpos). pose proof (parent_lt c ltac:(lia)).
    rewrite (decide_False (P := c = parent j)) by lia.
    rewrite (decide_False (P := parent (parent j) = parent j)), (decide_False (P := parent (parent j) = j)) by lia.
    destruct (decide (c = j)) as [->|Hcj]; [apply H1; lia|].
    apply (less_neg_trans (l !!! parent (parent j)) (l !!! parent j)); [apply H1; lia|].
    rewrite <- Hpc. apply H1; lia.
Qed.

Lemma up_heap fuel j l : j < fuel -> j < length l -> heap_up (length l) j l -> heap (length l) (up fuel j l).
Proof.
  revert j l. induction fuel as [|fuel IH]; intros j l Hf Hj H; [lia|]. cbn [up].
  destruct (Nat.eqb_spec (parent j) j) as [E|E]; cbn [orb].
  { assert (j = 0) as -> by (destruct (decide (j = 0)); [done|pose proof (parent_lt j); lia]).
    intros k Hk. apply H; lia. }
  assert (0 < j) by (destruct j; [by destruct E|lia]). pose proof (parent_lt j ltac:(lia)).
  destruct (less (l !!! j) (l !!! parent j)) eqn:El; cbn [negb].
  - rewrite <- (swap_length (parent j) j l). apply IH; rewrite ?swap_length; [lia..|].
    by apply heap_up_step.
  - intros k Hk. destruct (decide (k = j)) as [->|]; [done|]. apply H; lia.
Qed.

Lemma child_least n i l k :
  0 < k < n -> parent k = i -> less (l !!! k) (l !!! child n i l) = false.
Proof.
  intros Hk [->| ->]%parent_spec; [| |lia].
  - unfold child. cbn zeta. destruct (Nat.ltb_spec (2 * i + 1 + 1) n); cbn [andb]; [|by apply less_irrefl].
    destruct (less (l !!! (2 * i + 1 + 1)) (l !!! (2 * i + 1))) eqn:E; [by apply less_asym|by apply less_irrefl].
  - unfold child. cbn zeta. destruct (Nat.ltb_spec (2 * i + 1 + 1) n); cbn [andb]; [|lia].
    replace (2 * i + 2) with (2 * i + 1 + 1) by lia.
    destruct (less (l !!! (2 * i + 1 + 1)) (l !!! (2 * i + 1))) eqn:E; [by apply less_irrefl|done].
Qed.

Lemma heap_down_step n i l :
  n <= length l -> 2 * i + 1 < n -> less (l !!! child n i l) (l !!! i) = true ->
  heap_down n i l -> heap_down n (child n i l) (swap i (child n i l) l).
Proof.
  intros Hn Hi Hl [H1 H2]. destruct (child_spec n i l Hi) as (Hj & Hp & Hij). set (j := child n i l) in *.
  assert (forall k, swap i j l !!! k =
    if decide (k = i) then l !!! j else if decide (k = j) then l !!! i else l !!! k) as Hs
    by (intros; apply swap_at; lia).
  split.
  - intros k Hk Hpk. rewrite !Hs. pose proof (parent_lt k ltac:(lia)).
    destruct (decide (parent k = i)) as [E|Ei].
    + rewrite decide_False by lia. destruct (decide (k = j)) as [->|]; [by apply less_asym|].
      by apply child_least.
    + rewrite (decide_False (P := parent k = j)) by done. destruct (decide (k = i)) as [->|].
      { apply H2; lia. }
      rewrite decide_False by congruence. by apply H1.
  - intros c Hc Hpc Hpos. rewrite !Hs. pose proof (parent_lt c ltac:(lia)).
    rewrite (decide_False (P := c = i)), (decide_False (P := c = j)) by lia.
    rewrite Hp, decide_True by done. rewrite <- Hpc. apply H1; lia.
Qed.

Lemma down_heap fuel i n l :
  n <= length l -> n <= i + fuel -> heap_down n i l -> heap n (down fuel i n l).
Proof.
  revert i l. induction fuel as [|fuel IH]; intros i l Hn Hf H.
  { intros k Hk. apply H; [done|]. pose proof (parent_lt k). lia. }
  cbn [down]. destruct (Nat.leb_spec n (2 * i + 1)).
  { intros k Hk. apply H; [done|]. intros E%parent_spec; lia. }
  destruct (child_spec n i l) as (? & ? & ?); [lia|].
  destruct (less (l !!! child n i l) (l !!! i)) eqn:El; cbn [negb].
  - apply IH; rewrite ?swap_length; [lia..|]. by apply heap_down_step.
  - intros k Hk. destruct (decide (parent k = i)) as [E|]; [|by apply H].
    rewrite E. apply (less_neg_trans (l !!! i) (l !!! child n i l)); [done|]. by apply child_least.
Qed.

(** The root is a least element. *)
Lemma heap_root n l k : heap n l -> k < n -> less (l !!! k) (l !!! 0) = false.
Proof.
  intros H. induction (Nat.lt_wf_0 k) as [k _ IH]. intros Hk. destruct (decide (k = 0)) as [->|].
  { by apply less_irrefl. }
  pose proof (parent_lt k ltac:(lia)).
  apply (less_neg_trans (l !!! 0) (l !!! parent k)); [apply IH; lia|apply H; lia].
Qed.
(** ** Push and Pop *)

Lemma Push_perm x l : Push x l ≡ₚ x :: l.
Proof.
  unfold Push. rewrite up_perm by (rewrite length_app; cbn; lia). by rewrite Permutation_app_comm.
Qed.

Lemma Push_heap x l : heap (length l) l -> heap (length (Push x l)) (Push x l).
Proof.
  intros H. rewrite (Permutation_length (Push_perm x l)). cbn [length].
  replace (S (length l)) with (length (l ++ [x])) by (rewrite length_app; cbn; lia).
  apply up_heap; [lia|rewrite length_app; cbn; lia|]. rewrite length_app. cbn [length]. split.
  - intros k Hk Hne. pose proof (parent_lt k ltac:(lia)).
    rewrite !lookup_total_app_l by lia. apply H. lia.
  - intros c Hc Hp. pose proof (parent_lt c ltac:(lia)). lia.
Qed.

Lemma down_beyond fuel i n l k : n <= length l -> i < length l -> n <= k -> i < n \/ k <> i -> down fuel i n l !!! k = l !!! k.
Proof.
  revert i l. induction fuel as [|fuel IH]; intros i l Hn Hi Hk Hne; [done|]. cbn [down].
  destruct (Nat.leb_spec n (2 * i + 1)); [done|]. destruct (child_spec n i l) as (? & ? & ?); [done|].
  destruct (negb _); [done|]. rewrite IH by (rewrite ?swap_length; lia). rewrite swap_at by lia.
  rewrite !decide_False by lia. done.
Qed.

Lemma Pop_spec l x l' :
  l <> [] -> heap (length l) l -> Pop l = (x, l') ->
  x = l !!! 0 /\ l ≡ₚ x :: l' /\ heap (length l') l'.
Proof.
  intros Hne Hh. unfold Pop. set (n := length l - 1). intros [= <- <-].
  assert (length l = S n) as Hlen by (destruct l; [done|subst n; cbn; lia]).
  set (l2 := down n 0 n (swap 0 n l)).
  assert (l2 ≡ₚ l) as Hp by (subst l2; rewrite down_perm by (rewrite swap_length; lia); apply swap_perm; lia).
  assert (length l2 = S n) as Hl2 by by rewrite (Permutation_length Hp).
  assert (l2 !!! n = l !!! 0) as Hx.
  { subst l2. destruct (decide (n = 0)) as [E0|].
    - rewrite E0 in *. cbn [down]. unfold swap. rewrite list_insert_insert_eq.
      apply list_lookup_total_insert_eq. lia.
    - rewrite down_beyond by (rewrite ?swap_length; lia). rewrite swap_at by lia.
      rewrite decide_False, decide_True by lia. done. }
  split; [done|]. split.
  - rewrite <- Hp at 1. rewrite <- (take_drop n l2) at 1. rewrite Permutation_app_comm.
    assert (drop n l2 = [l2 !!! n]) as ->; [|done].
    rewrite (drop_S l2 (l2 !!! n) n) by (apply list_lookup_lookup_total_lt; lia).
    rewrite drop_ge by lia. done.
  - rewrite length_take, Nat.min_l by lia. intros k Hk. pose proof (parent_lt k ltac:(lia)).
    rewrite !lookup_total_take, !decide_True by lia. apply (down_heap n 0 n (swap 0 n l)); [rewrite swap_length; lia|lia| |done].
    split; [|lia]. intros j Hj Hpj. pose proof (parent_lt j ltac:(lia)). rewrite !swap_at by lia.
    rewrite !(decide_False (P := _ = n)) by lia. rewrite !(decide_False (P := _ = 0)) by lia. apply Hh. lia.
Qed.

(** ** The best of a stream *)

(** [out] holds the [n] last elements of [all] in the order. *)
Definition top (n : nat) (all out : list A) : Prop :=
  exists rest, all ≡ₚ out ++ rest /\ length out = Nat.min n (length all) /\
    forall x y, x ∈ out -> y ∈ rest -> less x y = false.

(** One element offered to a heap of the [keep] largest: while there is room
    it is pushed, afterwards it replaces the root if it is above it. *)
Definition offer (keep : nat) (h : list A) (x : A) : list A :=
  if length h <? keep then Push x h
  else if less (h !!! 0) x then Push x (Pop h).2 else h.

Lemma offer_top keep all h x :
  0 < keep -> heap (length h) h -> top keep all h ->
  heap (length (offer keep h x)) (offer keep h x) /\ top keep (x :: all) (offer keep h x).
Proof.
  intros Hkeep Hh (rest & Hp & Hl & Hr). pose proof (Permutation_length Hp) as Hlp. rewrite length_app in Hlp.
  unfold offer. destruct (Nat.ltb_spec (length h) keep).
  { split; [by apply Push_heap|]. exists rest. rewrite Push_perm. cbn [length]. split_and!; [by rewrite Hp|lia|].
    intros a y Ha Hy. destruct rest; [by apply elem_of_nil in Hy|cbn in Hlp; lia]. }
  assert (h <> []) as Hne by (intros ->; cbn in *; lia).
  assert (forall z, z ∈ h -> less z (h !!! 0) = false) as Hroot.
  { intros z (k & Hk)%list_elem_of_lookup. rewrite <- (list_lookup_total_correct _ _ _ Hk).
    eapply heap_root; [done|by eapply lookup_lt_Some]. }
  assert (h !!! 0 ∈ h) as Hin.
  { apply list_elem_of_lookup. exists 0. apply list_lookup_lookup_total_lt. destruct h; [done|cbn; lia]. }
  destruct (less (h !!! 0) x) eqn:El.
  - destruct (Pop h) as [r h'] eqn:EP. apply Pop_spec in EP as (-> & Hph & Hh'); [|done..]. cbn [snd].
    pose proof (Permutation_length Hph) as Hlh. cbn in Hlh.
    split; [by apply Push_heap|]. exists (h !!! 0 :: rest). rewrite Push_perm. cbn [length]. split_and!; [|lia|].
    { transitivity (x :: (h !!! 0 :: h') ++ rest); [by rewrite Hp, <- Hph|]. cbn. by rewrite Permutation_middle. }
    intros z y Hz [->|Hy]%elem_of_cons; rewrite Push_perm in Hz; apply elem_of_cons in Hz as [->|Hz].
    + by apply less_asym.
    + apply Hroot. rewrite Hph. by right.
    + apply (less_neg_trans y (h !!! 0)); [by apply Hr|by apply less_asym].
    + apply Hr; [rewrite Hph; by right|done].
  - split; [done|]. exists (x :: rest). cbn [length]. split_and!; [by rewrite Hp, Permutation_middle|lia|].
    intros z y Hz [->|Hy]%elem_of_cons; [|by apply Hr].
    apply (less_neg_trans x (h !!! 0)); [done|by apply Hroot].
Qed.

Lemma offers_top keep xs h all :
  0 < keep -> heap (length h) h -> top keep all h ->
  heap (length (foldl (offer keep) h xs)) (foldl (offer keep) h xs) /\
  top keep (reverse xs ++ all) (foldl (offer keep) h xs).
Proof.
  intros Hk. revert h all. induction xs as [|x xs IH]; intros h all Hh Ht; [done|]. cbn [foldl].
  destruct (offer_top keep all h x Hk Hh Ht) as [Hh' Ht']. rewrite reverse_cons, <- app_assoc. by apply IH.
Qed.

Lemma top_perm n all all' out : all ≡ₚ all' -> top n all out -> top n all' out.
Proof.
  intros Hp (rest & H1 & H2 & H3). exists rest. split_and!; [by rewrite <- Hp|by rewrite <- (Permutation_length Hp)|done].
Qed.

(** All elements offered to an empty heap leave the largest. *)
Lemma offer_all_top keep xs :
  0 < keep -> top keep xs (foldl (offer keep) [] xs).
Proof.
  intros Hk. apply (top_perm _ (reverse xs ++ [])).
  - by rewrite app_nil_r, reverse_Permutation.
  - apply offers_top; [done|intros k Hk'; cbn in Hk'; lia|]. exists []. cbn. split_and!; [done|lia|].
    intros x y Hx. by apply elem_of_nil in Hx.
Qed.
End heap.
