(* ===== verification/GoOrder.v ===== *)
(** * Comparing, sorting and the first of many

    The comparisons of Go's numbers, strings and floats and their laws;
    [sort.Slice], which is known by its contract only; and the lemma behind
    distributed queries with a limit: the first [n] of the first [n] of every
    part are the first [n] of the whole. *)

From S2P Require Import Prelude GoStrings GoHeap.
From Stdlib Require Import Ascii SpecFloat.
#[local] Open Scope Z_scope.

(** The sign Go's comparison functions return. *)
Definition ord (c : comparison) : Z := match c with Lt => -1 | Eq => 0 | Gt => 1 end.

(** ** Orders *)

(** [c] compares consistently: swapping the arguments negates the result, and
    it is transitive, strictly if one side is strict. *)
Record comparison_laws {A} (c : A -> A -> Z) (P : A -> Prop) : Prop := {
  laws_anti : forall x y, P x -> P y -> c y x = - c x y;
  laws_trans : forall x y z, P x -> P y -> P z -> c x y <= 0 -> c y z <= 0 ->
    c x z <= 0 /\ (c x y < 0 \/ c y z < 0 -> c x z < 0);
}.

Lemma Z_laws : comparison_laws (fun x y => ord (x ?= y)) (fun _ => True).
Proof.
  split.
  - intros x y _ _. rewrite (Z.compare_antisym x y). by destruct (x ?= y).
  - intros x y z _ _ _.
    destruct (Z.compare_spec x y), (Z.compare_spec y z), (Z.compare_spec x z); simpl; lia.
Qed.

Lemma ascii_compare_N a b : Ascii.compare a b = (N_of_ascii a ?= N_of_ascii b)%N.
Proof. done. Qed.

Lemma string_compare_trans x y z :
  ord (String.compare x y) <= 0 -> ord (String.compare y z) <= 0 ->
  ord (String.compare x z) <= 0 /\
  (ord (String.compare x y) < 0 \/ ord (String.compare y z) < 0 -> ord (String.compare x z) < 0).
Proof.
  revert y z. induction x as [|a x IH]; intros [|b y] [|c z]; cbn [String.compare ord]; try lia.
  rewrite !ascii_compare_N.
  destruct (N.compare_spec (N_of_ascii a) (N_of_ascii b)),
           (N.compare_spec (N_of_ascii b) (N_of_ascii c)),
           (N.compare_spec (N_of_ascii a) (N_of_ascii c)); cbn [ord]; try lia.
  apply IH.
Qed.

Lemma string_laws : comparison_laws (fun x y => ord (String.compare x y)) (fun _ => True).
Proof.
  split.
  - intros x y _ _. rewrite (String.compare_antisym y x). by destruct (String.compare x y).
  - intros x y z _ _ _. apply string_compare_trans.
Qed.

(** Floats compare by sign, then exponent, then mantissa. *)
Definition float_key (f : spec_float) : Z * Z * Z :=
  match f with
  | S754_zero _ | S754_nan => (0, 0, 0)
  | S754_infinity s => (if s then -2 else 2, 0, 0)
  | S754_finite s m e => if s then (-1, - e, - Z.pos m) else (1, e, Z.pos m)
  end.

Definition key_compare (a b : Z * Z * Z) : Z :=
  let '(a1, a2, a3) := a in let '(b1, b2, b3) := b in
  match a1 ?= b1 with
  | Eq => match a2 ?= b2 with Eq => ord (a3 ?= b3) | c => ord c end
  | c => ord c
  end.

Definition float_compare (x y : spec_float) : Z :=
  match SFcompare x y with Some c => ord c | None => 0 end.

Lemma float_compare_key x y : x <> S754_nan -> y <> S754_nan -> float_compare x y = key_compare (float_key x) (float_key y).
Proof.
  destruct x as [s|[]| |[] m e], y as [s'|[]| |[] m' e']; try done; intros _ _; unfold float_compare; simpl.
  - rewrite Z.compare_opp, (Z.compare_antisym e' e). destruct (Z.compare_spec e' e); simpl; try done.
  - by destruct (e ?= e').
Qed.

Lemma float_laws : comparison_laws float_compare (fun f => f <> S754_nan).
Proof.
  split.
  - intros x y Hx Hy. rewrite !float_compare_key by done.
    destruct (float_key x) as [[a1 a2] a3], (float_key y) as [[b1 b2] b3]. simpl.
    rewrite (Z.compare_antisym a1 b1), (Z.compare_antisym a2 b2), (Z.compare_antisym a3 b3).
    destruct (a1 ?= b1), (a2 ?= b2), (a3 ?= b3); done.
  - intros x y z Hx Hy Hz. rewrite !float_compare_key by done.
    destruct (float_key x) as [[a1 a2] a3], (float_key y) as [[b1 b2] b3], (float_key z) as [[c1 c2] c3]. simpl.
    destruct (Z.compare_spec a1 b1), (Z.compare_spec b1 c1), (Z.compare_spec a1 c1); cbn [ord]; try lia;
    destruct (Z.compare_spec a2 b2), (Z.compare_spec b2 c2), (Z.compare_spec a2 c2); cbn [ord]; try lia;
    destruct (Z.compare_spec a3 b3), (Z.compare_spec b3 c3), (Z.compare_spec a3 c3); cbn [ord]; lia.
Qed.

(** A lawful comparison gives an order for sorting. *)
Lemma laws_order {A} (c : A -> A -> Z) : comparison_laws c (fun _ => True) -> WeakOrder (fun x y => c x y <? 0).
Proof.
  intros [Ha Ht]. split.
  - intros x y H. b2p. apply Z.ltb_ge. rewrite (Ha x y) by done. lia.
  - intros x y z H1 H2. b2p. apply Z.ltb_ge.
    pose proof (Ha x y I I). pose proof (Ha y z I I). pose proof (Ha x z I I).
    destruct (Ht x y z I I I); lia.
Qed.

Lemma key_laws : comparison_laws key_compare (fun _ => True).
Proof.
  split.
  - intros [[a1 a2] a3] [[b1 b2] b3] _ _. simpl.
    rewrite (Z.compare_antisym a1 b1), (Z.compare_antisym a2 b2), (Z.compare_antisym a3 b3).
    destruct (a1 ?= b1), (a2 ?= b2), (a3 ?= b3); done.
  - intros [[a1 a2] a3] [[b1 b2] b3] [[c1 c2] c3] _ _ _. simpl.
    destruct (Z.compare_spec a1 b1), (Z.compare_spec b1 c1), (Z.compare_spec a1 c1); cbn [ord]; try lia;
    destruct (Z.compare_spec a2 b2), (Z.compare_spec b2 c2), (Z.compare_spec a2 c2); cbn [ord]; try lia;
    destruct (Z.compare_spec a3 b3), (Z.compare_spec b3 c3), (Z.compare_spec a3 c3); cbn [ord]; lia.
Qed.

(** Orders by a key, and the other way round. *)
Lemma order_by {A B} (f : A -> B) (less : B -> B -> bool) : WeakOrder less -> WeakOrder (fun x y => less (f x) (f y)).
Proof. intros [H1 H2]. split; intros; [by apply H1|by eapply H2]. Qed.

Lemma order_flip {A} (less : A -> A -> bool) : WeakOrder less -> WeakOrder (fun x y => less y x).
Proof. intros [H1 H2]. split; intros; [by apply H1|by eapply H2]. Qed.

(** ** [sort.Slice] *)

(** In order: no element belongs before an earlier one. *)
Definition in_order {A} (less : A -> A -> bool) (l : list A) : Prop := StronglySorted (fun a b => less b a = false) l.

(** The slice is permuted, and is in order if [less] orders its elements (as
    some order does); equal elements may come in any order. *)
Class SliceSort {A} (sort : (A -> A -> bool) -> list A -> list A) : Prop := {
  sort_perm less l : sort less l ≡ₚ l;
  sort_order less (order : A -> A -> bool) l :
    WeakOrder order -> (forall x y, x ∈ l -> y ∈ l -> less x y = order x y) -> in_order order (sort less l);
}.

(** Insertion, for the witnesses. *)
Fixpoint insert_by {A} (less : A -> A -> bool) (x : A) (l : list A) : list A :=
  match l with [] => [x] | y :: l' => if less y x then y :: insert_by less x l' else x :: l end.
Definition insertion_sort {A} (less : A -> A -> bool) (l : list A) : list A := foldr (insert_by less) [] l.

Lemma insert_by_perm {A} less (x : A) l : insert_by less x l ≡ₚ x :: l.
Proof. induction l as [|y l IH]; cbn; [done|]. destruct (less y x); [|done]. rewrite IH. constructor. Qed.

Lemma insertion_sort_perm {A} less (l : list A) : insertion_sort less l ≡ₚ l.
Proof. induction l as [|x l IH]; cbn; [done|]. by rewrite insert_by_perm, IH. Qed.

Lemma insert_by_order {A} (order : A -> A -> bool) `{!WeakOrder order} x l :
  in_order order l -> in_order order (insert_by order x l).
Proof.
  unfold in_order. induction 1 as [|y l Hs IH Hf]; cbn; [repeat constructor|]. destruct (order y x) eqn:E.
  - constructor; [done|]. rewrite insert_by_perm. constructor; [|done]. by apply less_asym.
  - constructor; [by constructor|]. constructor; [done|]. eapply Forall_impl; [exact Hf|]. intros z Hz.
    by apply (less_neg_trans x y z).
Qed.

Lemma insert_by_ext {A} (less order : A -> A -> bool) x l :
  (forall y, y ∈ l -> less y x = order y x) -> insert_by less x l = insert_by order x l.
Proof.
  induction l as [|y l IH]; intros Heq; [done|]. cbn. rewrite Heq by (by left). destruct (order y x); [|done].
  f_equal. apply IH. intros z Hz. apply Heq. by right.
Qed.

Lemma insertion_sort_ext {A} (less order : A -> A -> bool) l :
  (forall x y, x ∈ l -> y ∈ l -> less x y = order x y) -> insertion_sort less l = insertion_sort order l.
Proof.
  induction l as [|x l IH]; intros Heq; [done|].
  change (insert_by less x (insertion_sort less l) = insert_by order x (insertion_sort order l)).
  rewrite IH by (intros; apply Heq; by right). apply insert_by_ext. intros y Hy.
  rewrite insertion_sort_perm in Hy. apply Heq; [by right|by left].
Qed.

#[export] Instance insertion_SliceSort {A} : SliceSort (@insertion_sort A).
Proof.
  split; [intros; apply insertion_sort_perm|]. intros less order l Ho Heq. rewrite (insertion_sort_ext _ _ _ Heq).
  clear Heq. induction l as [|x l IH]; cbn; [constructor|]. by apply insert_by_order.
Qed.

(** ** The first of many *)

Section first.
Context {A} (less : A -> A -> bool) `{!WeakOrder less}.

(** [out] are [n] elements of [all] none of the others belongs before. *)
Definition first_n (n : nat) (all out : list A) : Prop := top (fun x y => less y x) n all out.

(** In an ordered list, what belongs strictly before an element stands before
    it. *)
Lemma before_position l x k :
  in_order less l -> l !! k = Some x -> (length (List.filter (fun z => less z x) l) <= k)%nat.
Proof using WeakOrder0.
  intros Hs. revert k. induction Hs as [|y l Hs IH Hf]; intros k Hk; [done|]. destruct k as [|k]; cbn in Hk.
  - simplify_eq. cbn. rewrite less_irrefl by done.
    assert (List.filter (fun z => less z x) l = []) as ->; [|done].
    clear -Hf. induction Hf as [|z l Hz _ IH]; cbn; [done|]. by rewrite Hz.
  - specialize (IH k Hk). cbn. destruct (less y x); cbn; lia.
Qed.

Lemma filter_length_le_perm (P : A -> bool) (l k : list A) :
  l ≡ₚ k -> length (List.filter P l) = length (List.filter P k).
Proof.
  induction 1 as [|x l k _ IH|x y l|l k m _ IH1 _ IH2]; cbn; [done|..].
  - destruct (P x); cbn; lia.
  - by destruct (P x), (P y).
  - lia.
Qed.

(** The first [n] of an ordered list. *)
Lemma take_first n l : in_order less l -> first_n n l (take n l).
Proof using WeakOrder0.
  intros Hs. exists (drop n l). split; [by rewrite take_drop|]. split; [by rewrite length_take|].
  intros x y Hx Hy. rewrite <- (take_drop n l) in Hs. clear -Hs Hx Hy. unfold in_order in Hs.
  induction (take n l) as [|z k IH]; [by apply elem_of_nil in Hx|]. cbn in Hs. inversion Hs as [|? ? Hs' Hf]; subst.
  apply elem_of_cons in Hx as [->|Hx]; [|by apply IH]. rewrite Forall_forall in Hf. apply Hf, elem_of_app. by right.
Qed.

Lemma concat_perm (ls ks : list (list A)) : Forall2 Permutation ls ks -> concat ls ≡ₚ concat ks.
Proof. induction 1 as [|l k ls ks H _ IH]; cbn; [done|]. by rewrite H, IH. Qed.

(** The parts' first ones, and what they leave. *)
Lemma parts_split n parts outs :
  Forall2 (first_n n) parts outs ->
  exists rest, concat parts ≡ₚ concat outs ++ rest /\
    (Nat.min n (length (concat parts)) <= length (concat outs))%nat /\
    forall y, y ∈ rest -> exists out, out ∈ outs /\ length out = n /\ forall x, x ∈ out -> less y x = false.
Proof.
  induction 1 as [|part out parts outs (r & Hp & Hl & Hr) _ (rest & Hp' & Hl' & Hr')]; cbn.
  { exists []. split_and!; [done|lia|]. intros y Hy. by apply elem_of_nil in Hy. }
  exists (r ++ rest). pose proof (Permutation_length Hp) as Hlp. rewrite length_app in Hlp. split_and!.
  - rewrite Hp, Hp'. rewrite <- !app_assoc. apply Permutation_app_head. rewrite !app_assoc.
    apply Permutation_app_tail, Permutation_app_comm.
  - rewrite !length_app. lia.
  - intros y [Hy|Hy]%elem_of_app.
    + exists out. split; [by left|]. split; [|by intros x Hx; apply Hr].
      assert (0 < length r)%nat by (destruct r; [by apply elem_of_nil in Hy|cbn; lia]). lia.
    + destruct (Hr' y Hy) as (out' & Hin & ? & ?). exists out'. split; [by right|done].
Qed.

(** Merging: the ordered union of the parts' first ones, cut off again. *)
Lemma merge_first n parts outs l :
  Forall2 (first_n n) parts outs -> l ≡ₚ concat outs -> in_order less l -> first_n n (concat parts) (take n l).
Proof using WeakOrder0.
  intros Hall Hl Hs. destruct (parts_split n parts outs Hall) as (rest & Hp & Hlen & Hrest).
  destruct (take_first n l Hs) as (left & Hpl & _ & Hleft). pose proof (Permutation_length Hl) as El.
  exists (left ++ rest). split_and!.
  - by rewrite Hp, <- Hl, app_assoc, <- Hpl.
  - rewrite length_take. pose proof (Permutation_length Hp) as E. rewrite length_app in E. lia.
  - intros x y Hx [Hy|Hy]%elem_of_app; [by apply Hleft|]. destruct (Hrest y Hy) as (out & Hin & Hn & Ho).
    apply list_elem_of_lookup in Hx as [k Hk]. apply lookup_take_Some in Hk as [Hk Hkn].
    destruct (less y x) eqn:E; [|done]. exfalso. pose proof (before_position l x k Hs Hk) as Hb.
    assert (length out <= length (List.filter (fun z => less z x) l))%nat; [|lia].
    rewrite (filter_length_le_perm _ _ _ Hl).
    apply list_elem_of_split in Hin as (o1 & o2 & ->). rewrite concat_app. cbn. rewrite !List.filter_app, !length_app.
    assert (List.filter (fun z => less z x) out = out) as ->; [|lia].
    clear -Ho E WeakOrder0. induction out as [|z out IH]; [done|]. cbn.
    rewrite (le_less_trans less z y x); [|apply Ho; by left|done]. f_equal. apply IH. intros w Hw. apply Ho. by right.
Qed.
End first.

(** ** Parts of lists *)

Lemma NoDup_part {A} (l k : list A) : l ⊆+ k -> NoDup k -> NoDup l.
Proof. intros [m ->]%submseteq_Permutation. by intros (? & _ & _)%NoDup_app. Qed.

Lemma filter_sublist {A} (P : A -> bool) (l : list A) : List.filter P l `sublist_of` l.
Proof. induction l as [|x l IH]; [done|]. cbn [List.filter]. destruct (P x); by constructor. Qed.

(** ** [range] over a map *)

(** All its entries, each once, in some order. *)
Class MapRange (range : forall A, gmap string A -> list (string * A)) : Prop :=
  range_perm A (m : gmap string A) : range A m ≡ₚ map_to_list m.

Section range.
Context (range : forall A, gmap string A -> list (string * A)) `{!MapRange range}.

Lemma range_NoDup A (m : gmap string A) : NoDup (range A m).*1.
Proof. rewrite (range_perm A m). apply NoDup_fst_map_to_list. Qed.

Lemma range_map A (m : gmap string A) : list_to_map (range A m) = m.
Proof.
  rewrite <- (list_to_map_to_list m) at 2. apply list_to_map_proper; [apply range_NoDup|apply range_perm].
Qed.

Lemma range_elem A (m : gmap string A) k v : (k, v) ∈ range A m <-> m !! k = Some v.
Proof. by rewrite (range_perm A m), elem_of_map_to_list. Qed.

(** A loop over a map that works on each key by itself. *)
Lemma foldl_entries {A B} (step : gmap string B -> string * A -> gmap string B) (f : string -> A -> option B -> option B) :
  (forall m k v j, step m (k, v) !! j = if decide (j = k) then f k v (m !! k) else m !! j) ->
  forall l m k, NoDup l.*1 ->
    foldl step m l !! k = match (list_to_map l : gmap string A) !! k with Some v => f k v (m !! k) | None => m !! k end.
Proof.
  intros Hstep l. induction l as [|[j v] l IH]; intros m k Hnd; [done|]. cbn [foldl fmap list_fmap fst] in *.
  apply NoDup_cons in Hnd as [Hj Hnd]. rewrite IH by done. rewrite !Hstep. cbn [list_to_map foldr].
  destruct (decide (k = j)) as [->|].
  - cbn. rewrite lookup_insert_eq. by rewrite (not_elem_of_list_to_map_1 _ _ Hj).
  - cbn. by rewrite lookup_insert_ne.
Qed.
End range.

Definition map_range (A : Type) (m : gmap string A) : list (string * A) := map_to_list m.
#[export] Instance map_range_MapRange : MapRange map_range.
Proof. intros A m. done. Qed.
