(* ===== verification/WalCodec.v ===== *)
(** * The on-disk format of the write-ahead log (internal/wal/wal.go)

    Big-endian integers, the IEEE CRC-32, the 13-byte record header, the file
    header with its magic number, and the two readers ([readFileHeader] and
    [readRecordWithFormat]). A byte is a [Z] below 256. The theorems: reading
    an encoded record gives it back; a torn record is never read as a record;
    a file of encoded records followed by a torn one reads as those records. *)

From S2P Require Import Prelude.

(** ** encoding/binary, big endian *)

Fixpoint be_put (n : nat) (z : Z) : list Z :=
  match n with
  | O => []
  | S n => (z / 256 ^ Z.of_nat n) mod 256 :: be_put n z
  end.

Definition be_get (bs : list Z) : Z := foldl (fun acc b => acc * 256 + b) 0 bs.

Lemma length_be_put n z : length (be_put n z) = n.
Proof. induction n; simpl; auto. Qed.

Lemma foldl_be_get bs acc :
  foldl (fun a b => a * 256 + b) acc bs = acc * 256 ^ Zlength bs + be_get bs.
Proof.
  unfold be_get. revert acc. induction bs as [|b bs IH]; intros acc; simpl length; simpl foldl.
  - rewrite Z.pow_0_r. lia.
  - rewrite IH, (IH (0 * 256 + b)), Nat2Z.inj_succ, Z.pow_succ_r by lia. ring.
Qed.

Lemma be_get_put n z : be_get (be_put n z) = z mod 256 ^ Z.of_nat n.
Proof.
  induction n as [|n IH].
  - by rewrite Z.pow_0_r, Z.mod_1_r.
  - simpl be_put. unfold be_get. simpl foldl. rewrite foldl_be_get, IH, length_be_put.
    rewrite Nat2Z.inj_succ, Z.pow_succ_r, (Z.mul_comm 256) by lia.
    rewrite Z.rem_mul_r by lia. lia.
Qed.

Lemma be_get_put_id n z : 0 <= z < 256 ^ Z.of_nat n -> be_get (be_put n z) = z.
Proof. intros. rewrite be_get_put. by apply Z.mod_small. Qed.

Lemma be_put_S n z : be_put (S n) z = (z / 256 ^ Z.of_nat n) mod 256 :: be_put n z.
Proof. done. Qed.

#[global] Arguments be_put : simpl never.

(** ** hash/crc32, IEEE polynomial (reflected) *)

Definition crc_step (c : Z) : Z :=
  if Z.odd c then Z.lxor (Z.shiftr c 1) 0xEDB88320 else Z.shiftr c 1.

Definition crc_byte (c b : Z) : Z :=
  Nat.iter 8 crc_step (Z.lxor c b).

Definition crc32_ieee (bs : list Z) : Z :=
  uint32 (Z.lxor (foldl crc_byte 0xFFFFFFFF bs) 0xFFFFFFFF).

(** The check value of the CRC-32/IEEE catalogue, for the digits 1 to 9. *)
Example crc32_check :
  crc32_ieee [0x31;0x32;0x33;0x34;0x35;0x36;0x37;0x38;0x39] = 0xCBF43926.
Proof. vm_compute. reflexivity. Qed.

(** ** Records *)

Definition RecordTypeData : Z := 1.
Definition RecordTypeCommit : Z := 2.
Definition RecordTypeDelete : Z := 3.
Definition RecordTypeTombstone : Z := 4.

Definition HeaderSize : nat := 13.
Definition MaxRecordSize : Z := 64 * 1024 * 1024.
Definition maxWALFileSize : Z := 64 * 1024 * 1024.
Definition MagicNumber : list Z := [0x4D; 0x57; 0x41; 0x4C].
Definition MagicNumberSize : nat := 4.
Definition CurrentVersion : Z := 1.
Definition VersionSize : nat := 2.
Definition FileHeaderSize : nat := 6.

Record Record_ := mkRecord {
  SeqNum : Z;
  Type_ : Z;
  Timestamp : Z;
  Data : list Z;
}.

#[global] Instance Record_eq_dec : EqDecision Record_.
Proof. solve_decision. Defined.

Record wf_record (r : Record_) : Prop := {
  wf_seq : in_uint 64 (SeqNum r);
  wf_time : in_int64 (Timestamp r);
  wf_len : Zlength (Data r) <= MaxRecordSize;
}.

Definition record_header (r : Record_) : list Z :=
  be_put 4 (uint32 (Zlength (Data r))) ++ [Type_ r] ++ be_put 8 (SeqNum r).

Definition record_time (r : Record_) : list Z := be_put 8 (uint64 (Timestamp r)).

Definition record_crc (r : Record_) : list Z :=
  be_put 4 (crc32_ieee (record_header r ++ record_time r ++ Data r)).

(** The bytes [writeRecord] hands to the writer, in its order: header, CRC,
    timestamp, data. *)
Definition record_bytes (r : Record_) : list Z :=
  record_header r ++ record_crc r ++ record_time r ++ Data r.

Definition file_header : list Z := MagicNumber ++ be_put 2 CurrentVersion.

(** ** Reading *)

Inductive read_error :=
  | EOF
  | ErrUnexpectedEOF
  | ErrRecordTooLarge (size : Z)
  | ErrCRCMismatch (expected actual : Z)
  | ErrUnsupportedVersion (version : Z)
  | ErrIO.

#[global] Instance read_error_eq_dec : EqDecision read_error.
Proof. solve_decision. Defined.

(** [io.ReadFull] of [n] bytes: nothing wanted is nothing read; end of input
    before the first byte is EOF, later it is ErrUnexpectedEOF. *)
Definition read_full (n : nat) (bs : list Z) : result read_error (list Z * list Z) :=
  if (n <=? length bs)%nat then Ok (take n bs, drop n bs)
  else match bs with [] => Err EOF | _ => Err ErrUnexpectedEOF end.

Definition readRecordWithFormat (newCRCFormat : bool) (bs : list Z)
    : result read_error (Record_ * list Z) :=
  (let! '(header, bs) := read_full HeaderSize bs in
   let dataLen := be_get (take 4 header) in
   if MaxRecordSize <? dataLen then Err (ErrRecordTooLarge dataLen) else
   let recordType := nth 4 header 0 in
   let seqNum := be_get (drop 5 header) in
   let! '(crcBytes, bs) := read_full 4 bs in
   let expectedCRC := be_get crcBytes in
   let! '(timestampBytes, bs) := read_full 8 bs in
   let timestamp := int64 (be_get timestampBytes) in
   let! '(data, bs) := read_full (Z.to_nat dataLen) bs in
   let actualCRC :=
     if newCRCFormat then crc32_ieee (header ++ timestampBytes ++ data)
     else crc32_ieee data in
   if negb (actualCRC =? expectedCRC) then Err (ErrCRCMismatch expectedCRC actualCRC)
   else Ok (mkRecord seqNum recordType timestamp data, bs))%go.

Definition readRecord (bs : list Z) : result read_error (Record_ * list Z) :=
  readRecordWithFormat true bs.

(** [readFileHeader]: [Peek] on fewer than four bytes is EOF, which means no
    header, as does another magic number; otherwise the version follows. *)
Definition readFileHeader (bs : list Z) : result read_error (bool * Z * list Z) :=
  (if (length bs <? MagicNumberSize)%nat then Ok (false, 0, bs) else
   if negb (bool_decide (take MagicNumberSize bs = MagicNumber)) then Ok (false, 0, bs) else
   let bs := drop MagicNumberSize bs in
   let! '(versionBytes, bs) := read_full VersionSize bs in
   let version := be_get versionBytes in
   if CurrentVersion <? version then Err (ErrUnsupportedVersion version)
   else Ok (true, version, bs))%go.

(** The read loop of [replayFile] and [getFileMaxSequence]: records until the
    first error, whatever it is. A record takes at least 25 bytes, so the
    length of the input is enough fuel. *)
Fixpoint read_loop (fuel : nat) (newCRCFormat : bool) (bs : list Z) : list Record_ :=
  match fuel with
  | O => []
  | S fuel =>
      match readRecordWithFormat newCRCFormat bs with
      | Err _ => []
      | Ok (r, bs') => r :: read_loop fuel newCRCFormat bs'
      end
  end.

(** The records a file holds for a reader, or the error of its header. When
    there is no file header the reader is put back to the start. *)
Definition read_file (bs : list Z) : result read_error (list Record_) :=
  (let! '(hasFileHeader, _, rest) := readFileHeader bs in
   let body := if hasFileHeader then rest else bs in
   Ok (read_loop (S (length body)) hasFileHeader body))%go.

(** ** Facts about single records *)

Lemma length_record_header r : length (record_header r) = HeaderSize.
Proof. unfold record_header. by rewrite !length_app, !length_be_put. Qed.

Lemma length_record_time r : length (record_time r) = 8%nat.
Proof. apply length_be_put. Qed.

Lemma length_record_crc r : length (record_crc r) = 4%nat.
Proof. apply length_be_put. Qed.

Lemma length_record_bytes r : length (record_bytes r) = (25 + length (Data r))%nat.
Proof.
  unfold record_bytes.
  rewrite !length_app, length_record_header, length_record_crc, length_record_time.
  unfold HeaderSize. lia.
Qed.

Lemma read_full_app n p k : length p = n -> read_full n (p ++ k) = Ok (p, k).
Proof.
  intros Hp. unfold read_full. rewrite length_app.
  destruct (Nat.leb_spec n (length p + length k)); [|lia].
  destruct (take_drop_app p k n) as [-> ->]; done.
Qed.

Lemma read_full_short n bs :
  (length bs < n)%nat -> read_full n bs = Err EOF \/ read_full n bs = Err ErrUnexpectedEOF.
Proof.
  intros. unfold read_full. destruct (Nat.leb_spec n (length bs)); [lia|].
  destruct bs; auto.
Qed.

Lemma wf_data_len r : wf_record r -> uint32 (Zlength (Data r)) = Zlength (Data r).
Proof.
  intros []. apply uint32_small. unfold in_uint. unfold MaxRecordSize in *. lia.
Qed.

(** The three fields of the header, read back. *)
Lemma header_fields r :
  wf_record r ->
  be_get (take 4 (record_header r)) = Zlength (Data r) /\
  nth 4 (record_header r) 0 = Type_ r /\
  be_get (drop 5 (record_header r)) = SeqNum r.
Proof.
  intros Hwf. pose proof (wf_data_len r Hwf) as Hl. destruct Hwf as [Hs Ht Hn].
  unfold record_header. rewrite Hl. split_and!.
  - rewrite take_app_length' by (by rewrite length_be_put).
    apply be_get_put_id. unfold MaxRecordSize in Hn. simpl. lia.
  - rewrite app_nth2; rewrite length_be_put; [done|lia].
  - rewrite app_assoc, drop_app_length' by (by rewrite length_app, length_be_put).
    apply be_get_put_id. unfold in_uint in Hs. simpl. lia.
Qed.

Lemma crc_read_back r : be_get (record_crc r) = crc32_ieee (record_header r ++ record_time r ++ Data r).
Proof.
  unfold record_crc. apply be_get_put_id.
  pose proof (uint32_range (Z.lxor (foldl crc_byte 0xFFFFFFFF
    (record_header r ++ record_time r ++ Data r)) 0xFFFFFFFF)) as H.
  unfold in_uint in H. unfold crc32_ieee. simpl in *. lia.
Qed.

Lemma time_read_back r : wf_record r -> int64 (be_get (record_time r)) = Timestamp r.
Proof.
  intros []. unfold record_time. rewrite be_get_put.
  change (256 ^ Z.of_nat 8) with (2 ^ 64). fold (uint64 (uint64 (Timestamp r))).
  rewrite uint64_small by apply uint64_range. by apply int64_uint64.
Qed.

Lemma too_large_false r : wf_record r -> (MaxRecordSize <? Zlength (Data r)) = false.
Proof. intros []. by apply Z.ltb_ge. Qed.

(** ** The round trip *)

Lemma read_record_app r k :
  wf_record r -> readRecordWithFormat true (record_bytes r ++ k) = Ok (r, k).
Proof.
  intros Hwf. unfold readRecordWithFormat, record_bytes. rewrite <- !app_assoc.
  destruct (header_fields r Hwf) as (Hlen & Hty & Hseq).
  rewrite read_full_app by apply length_record_header.
  rewrite Hlen, too_large_false, Hty, Hseq by done.
  rewrite read_full_app by apply length_record_crc.
  rewrite read_full_app by apply length_record_time.
  rewrite read_full_app by lia.
  rewrite crc_read_back, Z.eqb_refl, time_read_back by done. simpl.
  by destruct r.
Qed.

(** A record cut anywhere before its end reads as an end-of-file error. *)
Lemma read_record_torn r p :
  wf_record r -> p `prefix_of` record_bytes r -> p <> record_bytes r ->
  readRecordWithFormat true p = Err EOF \/
  readRecordWithFormat true p = Err ErrUnexpectedEOF.
Proof.
  intros Hwf Hp Hne. pose proof (prefix_length_lt _ _ Hp Hne) as Hlt.
  destruct (header_fields r Hwf) as (Hlen & _ & _).
  unfold readRecordWithFormat. unfold record_bytes in Hp, Hlt.
  destruct (prefix_app_cases _ _ _ Hp) as [Hs|(p1 & -> & Hp1)].
  { rewrite length_record_header in Hs. destruct (read_full_short _ _ Hs) as [-> | ->]; auto. }
  rewrite read_full_app, Hlen, too_large_false by (done || apply length_record_header).
  destruct (prefix_app_cases _ _ _ Hp1) as [Hs|(p2 & -> & Hp2)].
  { rewrite length_record_crc in Hs. destruct (read_full_short _ _ Hs) as [-> | ->]; auto. }
  rewrite read_full_app by apply length_record_crc.
  destruct (prefix_app_cases _ _ _ Hp2) as [Hs|(p3 & -> & Hp3)].
  { rewrite length_record_time in Hs. destruct (read_full_short _ _ Hs) as [-> | ->]; auto. }
  rewrite read_full_app by apply length_record_time.
  rewrite !length_app in Hlt.
  destruct (read_full_short (Z.to_nat (Zlength (Data r))) p3) as [-> | ->]; auto. lia.
Qed.

(** ** What the reader accepts is what the writer writes *)

Definition is_byte (b : Z) : Prop := 0 <= b < 256.

Lemma be_get_bound bs : Forall is_byte bs -> 0 <= be_get bs < 256 ^ Zlength bs.
Proof.
  induction bs as [|b bs IH] using rev_ind; intros H.
  - unfold be_get. simpl. lia.
  - apply Forall_app in H as [Hbs Hb]. apply Forall_cons in Hb as [Hb _].
    unfold be_get. rewrite foldl_app, length_app. cbn [foldl length]. fold (be_get bs).
    rewrite Nat2Z.inj_add, Z.pow_add_r by lia. change (256 ^ Z.of_nat 1) with 256.
    unfold is_byte in *. specialize (IH Hbs). lia.
Qed.

Lemma be_put_get n bs : Forall is_byte bs -> length bs = n -> be_put n (be_get bs) = bs.
Proof.
  revert bs. induction n as [|n IH]; intros [|b bs] Hf Hn; simplify_eq/=; [done|].
  rewrite be_put_S.
  apply Forall_cons in Hf as [Hb Hbs]. unfold is_byte in Hb.
  pose proof (be_get_bound bs Hbs) as Hbd.
  assert (be_get (b :: bs) = b * 256 ^ Z.of_nat (length bs) + be_get bs) as ->.
  { unfold be_get at 1. simpl. rewrite foldl_be_get. lia. }
  f_equal.
  - rewrite Z.div_add_l, Z.div_small, Z.add_0_r by lia. by apply Z.mod_small.
  - transitivity (be_put (length bs) (be_get bs)); [|by apply IH]. clear IH.
    generalize dependent (be_get bs). intros z Hz. clear Hbs.
    assert (forall m, (m <= length bs)%nat ->
      be_put m (b * 256 ^ Z.of_nat (length bs) + z) = be_put m z) as E; [|by apply E].
    induction m as [|m IHm]; intros Hm; [done|]. rewrite !be_put_S. f_equal; [|apply IHm; lia].
    replace (Z.of_nat (length bs)) with (Z.of_nat (length bs - S m) + 1 + Z.of_nat m) by lia.
    rewrite !Z.pow_add_r, Z.mul_assoc, Z.div_add_l by lia.
    rewrite Z.pow_1_r, Z.mul_assoc, Z.add_comm. apply Z.mod_add. lia.
Qed.

Lemma read_full_Ok n bs p k :
  read_full n bs = Ok (p, k) -> bs = p ++ k /\ length p = n.
Proof.
  unfold read_full. intros H. crush.
  destruct (Nat.leb_spec n (length bs)); [|done].
  by rewrite take_drop, length_take_le.
Qed.

Lemma in_uint_be_get n bs w :
  Forall is_byte bs -> length bs = n -> 256 ^ Z.of_nat n = 2 ^ w -> in_uint w (be_get bs).
Proof. intros Hf <- E. unfold in_uint. rewrite <- E. by apply be_get_bound. Qed.

Lemma header_split (h : list Z) : length h = HeaderSize -> h = take 4 h ++ [nth 4 h 0] ++ drop 5 h.
Proof. intros. do 14 (destruct h as [|? h]; try done). Qed.

Lemma uint64_int64 z : in_uint 64 z -> uint64 (int64 z) = z.
Proof.
  intros Hz. unfold uint64, int64. rewrite Zminus_mod_idemp_l.
  rewrite Z.add_simpl_r. by apply uint64_small.
Qed.

(** Every record the reader accepts is the exact encoding of that record. *)
Lemma read_record_sound bs r k :
  Forall is_byte bs -> readRecordWithFormat true bs = Ok (r, k) ->
  bs = record_bytes r ++ k /\ wf_record r.
Proof.
  intros Hb H. unfold readRecordWithFormat in H.
  destruct (read_full HeaderSize bs) as [[h b1]|] eqn:E1; [|done].
  apply read_full_Ok in E1 as [-> Lh]. apply Forall_app in Hb as [Bh Hb].
  destruct (MaxRecordSize <? be_get (take 4 h)) eqn:El; [done|]. b2p.
  destruct (read_full 4 b1) as [[c b2]|] eqn:E2; [|done].
  apply read_full_Ok in E2 as [-> Lc]. apply Forall_app in Hb as [Bc Hb].
  destruct (read_full 8 b2) as [[t b3]|] eqn:E3; [|done].
  apply read_full_Ok in E3 as [-> Lt]. apply Forall_app in Hb as [Bt Hb].
  destruct (read_full _ b3) as [[d b4]|] eqn:E4; [|done].
  apply read_full_Ok in E4 as [-> Ld]. apply Forall_app in Hb as [Bd Hb].
  destruct (negb _) eqn:Ec; [done|]. b2p. simplify_eq.
  assert (be_get (take 4 h) = Zlength d) as Hlen.
  { rewrite Ld. pose proof (be_get_bound (take 4 h) (Forall_take _ _ _ Bh)). lia. }
  assert (in_uint 64 (be_get t)) as Ht by (by apply (in_uint_be_get 8)).
  assert (in_uint 64 (be_get (drop 5 h))) as Hs.
  { apply (in_uint_be_get 8); [by apply Forall_drop | by rewrite length_drop, Lh | done]. }
  set (r := mkRecord _ _ _ _).
  assert (wf_record r) as Hwf by (split; simpl; [done | apply int64_range | lia]).
  assert (record_header r = h) as Eh.
  { unfold record_header. rewrite (wf_data_len r Hwf). unfold r. cbn [Data SeqNum Type_]. rewrite <- Hlen.
    rewrite !be_put_get; [symmetry; by apply header_split | ..].
    all: rewrite ?length_drop, ?length_take, ?Lh; auto using Forall_take, Forall_drop. }
  assert (record_time r = t) as Et.
  { unfold record_time. simpl. rewrite uint64_int64 by done. by apply be_put_get. }
  split; [|done]. unfold record_bytes, record_crc. rewrite Eh, Et. unfold r. cbn [Data].
  rewrite Ec, be_put_get by done. by rewrite <- !app_assoc.
Qed.

(** ** The read loop *)

Lemma read_record_shrinks f bs r k :
  readRecordWithFormat f bs = Ok (r, k) -> (length k + 25 <= length bs)%nat.
Proof.
  intros H. unfold readRecordWithFormat in H.
  repeat match type of H with
  | context [read_full ?n ?b] =>
      let E := fresh in destruct (read_full n b) as [[? ?]|] eqn:E; [|done];
      apply read_full_Ok in E as [-> ?]
  | context [if ?c then _ else _] => destruct c; try done
  end; simplify_eq; rewrite !length_app; unfold HeaderSize in *; lia.
Qed.

(** More fuel than the input is long changes nothing: the loop ends because
    the reader reports an error, never because the fuel is spent. *)
Lemma read_loop_fuel f fuel bs :
  (length bs < fuel)%nat -> read_loop fuel f bs = read_loop (S (length bs)) f bs.
Proof.
  assert (forall n m bs, (length bs < n)%nat -> (length bs < m)%nat ->
            read_loop n f bs = read_loop m f bs) as E; [|intros; apply E; lia].
  clear. induction n as [|n IH]; intros [|m] bs Hn Hm; try lia. simpl.
  destruct (readRecordWithFormat f bs) as [[r k]|] eqn:E; [|done].
  pose proof (read_record_shrinks _ _ _ _ E). f_equal. apply IH; lia.
Qed.

Lemma read_loop_unfold f bs :
  read_loop (S (length bs)) f bs =
  match readRecordWithFormat f bs with
  | Err _ => []
  | Ok (r, bs') => r :: read_loop (S (length bs')) f bs'
  end.
Proof.
  simpl. destruct (readRecordWithFormat f bs) as [[r k]|] eqn:E; [|done].
  pose proof (read_record_shrinks _ _ _ _ E). f_equal. apply read_loop_fuel. lia.
Qed.

(** The bytes of a list of records. *)
Definition records_bytes (rs : list Record_) : list Z := mjoin (record_bytes <$> rs).

Lemma records_bytes_app rs rs' :
  records_bytes (rs ++ rs') = records_bytes rs ++ records_bytes rs'.
Proof. unfold records_bytes. by rewrite fmap_app, join_app. Qed.

Lemma records_bytes_snoc rs r : records_bytes (rs ++ [r]) = records_bytes rs ++ record_bytes r.
Proof. rewrite records_bytes_app. unfold records_bytes at 2. simpl. by rewrite app_nil_r. Qed.

Lemma read_loop_records rs tail :
  Forall wf_record rs ->
  (exists e, readRecordWithFormat true tail = Err e) ->
  read_loop (S (length (records_bytes rs ++ tail))) true (records_bytes rs ++ tail) = rs.
Proof.
  intros Hwf [e He]. induction Hwf as [|r rs Hr Hrs IH].
  - rewrite read_loop_unfold. simpl. by rewrite He.
  - change (records_bytes (r :: rs)) with (record_bytes r ++ records_bytes rs).
    rewrite read_loop_unfold, <- app_assoc, read_record_app by done. by rewrite IH.
Qed.

Lemma read_header_app bs : readFileHeader (file_header ++ bs) = Ok (true, CurrentVersion, bs).
Proof. unfold readFileHeader. simpl. by rewrite drop_0. Qed.

(** A torn tail: a proper prefix of some well-formed record (possibly empty). *)
Definition torn (p : list Z) : Prop :=
  exists r, wf_record r /\ p `prefix_of` record_bytes r /\ p <> record_bytes r.

Lemma torn_nil : torn [].
Proof.
  exists (mkRecord 0 0 0 []). split_and!; [|apply prefix_nil|done].
  split; simpl; [done | unfold in_int64, min_int64, max_int64; lia | unfold MaxRecordSize; lia].
Qed.

Lemma read_torn p : torn p -> exists e, readRecordWithFormat true p = Err e.
Proof. intros (r & Hwf & Hp & Hne). destruct (read_record_torn r p Hwf Hp Hne); eauto. Qed.

Lemma read_file_records rs p :
  Forall wf_record rs -> torn p ->
  read_file (file_header ++ records_bytes rs ++ p) = Ok rs.
Proof.
  intros Hwf Hp. unfold read_file. rewrite read_header_app.
  by rewrite read_loop_records by auto using read_torn.
Qed.

(** A file cut inside its own header holds no record. *)
Lemma read_file_short_header p :
  p `prefix_of` file_header -> p <> file_header ->
  read_file p = Ok [] \/ exists e, read_file p = Err e.
Proof.
  intros Hp Hne. pose proof (prefix_length_lt _ _ Hp Hne) as Hl.
  rewrite (prefix_take _ _ Hp). remember (length p) as n eqn:En. clear En Hne Hp p.
  do 6 (destruct n as [|n]; [vm_compute; eauto|]). unfold file_header in Hl.
  simpl in Hl. lia.
Qed.
