(* ===== verification/Wal.v ===== *)
(** * The write-ahead log (internal/wal/wal.go)

    The log is a directory of files. The disk is modelled with what decides
    whether data survives: the bytes of each file, how many of them have been
    fsynced, and the free space (a write that does not fit is cut short and
    fails, as on a full disk). [bufio.Writer] is modelled with its 64 KiB
    buffer and its sticky error. Clock readings and the outcomes of [open],
    [fsync], [readdir] and [remove] come from arguments of the operations, and
    so do those of reading each file back: it may not open, or break off after
    some bytes. *)

From S2P Require Import Prelude GoStrings WalCodec.

(** ** The disk *)

Record file := mkFile { content : list Z; synced : nat }.

Inductive entry := EDir | EFile (f : file).

Record disk := mkDisk { entries : gmap string entry; free : Z }.

Definition get_file (d : disk) (name : string) : option file :=
  match entries d !! name with Some (EFile f) => Some f | _ => None end.

Definition set_file (name : string) (f : file) (d : disk) : disk :=
  mkDisk (<[name := EFile f]> (entries d)) (free d).

(** [os.OpenFile] with O_CREATE, O_WRONLY and O_APPEND: a directory cannot be
    opened for writing. *)
Definition create (name : string) (d : disk) : option disk :=
  match entries d !! name with
  | Some EDir => None
  | Some (EFile _) => Some d
  | None => Some (set_file name (mkFile [] 0) d)
  end.

(** [File.Write]: the bytes written and whether all of them were. *)
Definition file_write (name : string) (bs : list Z) (d : disk) : disk * nat * bool :=
  match get_file d name with
  | None => (d, 0%nat, false)
  | Some f =>
      let n := Nat.min (length bs) (Z.to_nat (free d)) in
      let d' := mkDisk (<[name := EFile (mkFile (content f ++ take n bs) (synced f))]> (entries d))
                       (free d - Z.of_nat n) in
      (d', n, (length bs <=? n)%nat)
  end.

(** [File.Sync] *)
Definition file_sync (name : string) (d : disk) : disk :=
  match get_file d name with
  | None => d
  | Some f => set_file name (mkFile (content f) (length (content f))) d
  end.

(** [os.Remove] *)
Definition remove (name : string) (d : disk) : disk :=
  mkDisk (delete name (entries d)) (free d).

(** ** The log *)

Record WAL := mkWAL {
  w_file : option string;
  w_buf : list Z;          (* bytes buffered by the bufio.Writer *)
  w_err : bool;            (* its sticky error *)
  w_seqNum : Z;
  w_currentSize : Z;
  w_syncOnWrite : bool;
  w_maxFileSize : Z;
  w_rotateCount : Z;
  w_lastSyncTime : Z;
  w_syncInterval : Z;
  w_closed : bool;
}.

Record Config := mkConfig {
  cfg_SyncOnWrite : bool;
  cfg_MaxFileSize : Z;
  cfg_SyncInterval : Z;
}.

(** One hundred milliseconds, in nanoseconds. *)
Definition DefaultConfig : Config := mkConfig true maxWALFileSize (100 * 1000000).

(** The clock readings and outcomes one call sees. *)
Record Env := mkEnv {
  now_rec : Z;      (* Append's record timestamp *)
  now_since : Z;    (* time.Since in Append *)
  now_sync : Z;     (* lastSyncTime set by sync *)
  now_open : Z;     (* openNewFile's file name *)
  fsync_ok : bool;
  open_ok : bool;
}.

Inductive wal_error :=
  | ErrClosed
  | ErrTooLarge
  | ErrWrite
  | ErrSync
  | ErrMkdir
  | ErrReadDir
  | ErrOpen.

Definition walFilePrefix : string := "wal_".
Definition walFileSuffix : string := ".log".

Definition wal_name (nano : Z) : string := walFilePrefix +:+ (Itoa nano +:+ walFileSuffix).

(** ** bufio.Writer, with the buffer size openNewFile gives it *)

Definition bufio_size : nat := Z.to_nat (64 * 1024).

(** Buffer, sticky error and disk after an operation. *)
Record wr := mkWr { wr_buf : list Z; wr_err : bool; wr_disk : disk }.

Definition bufio_flush (name : string) (s : wr) : wr :=
  if wr_err s then s else
  match wr_buf s with
  | [] => s
  | buf =>
      let '(d, n, ok) := file_write name buf (wr_disk s) in
      if (ok : bool) then mkWr [] false d else mkWr (drop n buf) true d
  end.

(** The loop of [Write]: with an empty buffer a large slice goes straight to
    the file; otherwise the buffer is filled and flushed. Two rounds at most,
    since after a flush the buffer is empty. *)
Fixpoint bufio_write_loop (fuel : nat) (name : string) (p : list Z) (s : wr) : wr :=
  match fuel with
  | O => s
  | S fuel =>
      let avail := (bufio_size - length (wr_buf s))%nat in
      if wr_err s then s else
      if (avail <? length p)%nat then
        match wr_buf s with
        | [] =>
            let '(d, n, ok) := file_write name p (wr_disk s) in
            bufio_write_loop fuel name (drop n p) (mkWr [] (negb ok) d)
        | buf =>
            bufio_write_loop fuel name (drop avail p)
              (bufio_flush name (mkWr (buf ++ take avail p) false (wr_disk s)))
        end
      else mkWr (wr_buf s ++ p) false (wr_disk s)
  end.

Definition bufio_write (name : string) (p : list Z) (s : wr) : wr :=
  bufio_write_loop 3 name p s.

(** ** Operations *)

Definition with_wr (w : WAL) (s : wr) : WAL :=
  mkWAL (w_file w) (wr_buf s) (wr_err s) (w_seqNum w) (w_currentSize w) (w_syncOnWrite w)
        (w_maxFileSize w) (w_rotateCount w) (w_lastSyncTime w) (w_syncInterval w) (w_closed w).

Definition with_seq (w : WAL) (n : Z) : WAL :=
  mkWAL (w_file w) (w_buf w) (w_err w) n (w_currentSize w) (w_syncOnWrite w)
        (w_maxFileSize w) (w_rotateCount w) (w_lastSyncTime w) (w_syncInterval w) (w_closed w).

Definition with_size (w : WAL) (n : Z) : WAL :=
  mkWAL (w_file w) (w_buf w) (w_err w) (w_seqNum w) n (w_syncOnWrite w)
        (w_maxFileSize w) (w_rotateCount w) (w_lastSyncTime w) (w_syncInterval w) (w_closed w).

Definition with_sync_time (w : WAL) (t : Z) : WAL :=
  mkWAL (w_file w) (w_buf w) (w_err w) (w_seqNum w) (w_currentSize w) (w_syncOnWrite w)
        (w_maxFileSize w) (w_rotateCount w) t (w_syncInterval w) (w_closed w).

Definition with_closed (w : WAL) : WAL :=
  mkWAL (w_file w) (w_buf w) (w_err w) (w_seqNum w) (w_currentSize w) (w_syncOnWrite w)
        (w_maxFileSize w) (w_rotateCount w) (w_lastSyncTime w) (w_syncInterval w) true.

(** [openNewFile]: the new file and its header come first; the old file is
    flushed (its error ignored) and closed only when they succeed. *)
Definition openNewFile (e : Env) (w : WAL) (d : disk) : WAL * disk * bool :=
  let filename := wal_name (now_open e) in
  match (if open_ok e then create filename d else None) with
  | None => (w, d, false)
  | Some d =>
  let '(d, _, ok) := file_write filename file_header d in
  if negb ok then (w, d, false) else
  let d := match w_file w with
           | Some old => wr_disk (bufio_flush old (mkWr (w_buf w) (w_err w) d))
           | None => d
           end in
  (mkWAL (Some filename) [] false (w_seqNum w) (Z.of_nat FileHeaderSize) (w_syncOnWrite w)
         (w_maxFileSize w) (w_rotateCount w + 1) (w_lastSyncTime w) (w_syncInterval w) (w_closed w),
   d, true)
  end.

(** [writeRecord]: four writes, stopping at the first error. *)
Definition writeRecord (name : string) (r : Record_) (w : WAL) (d : disk) : WAL * disk * bool :=
  let s := mkWr (w_buf w) (w_err w) d in
  let s := bufio_write name (record_header r) s in
  if wr_err s then (with_wr w s, wr_disk s, false) else
  let s := bufio_write name (record_crc r) s in
  if wr_err s then (with_wr w s, wr_disk s, false) else
  let s := bufio_write name (record_time r) s in
  if wr_err s then (with_wr w s, wr_disk s, false) else
  let s := bufio_write name (Data r) s in
  if wr_err s then (with_wr w s, wr_disk s, false) else
  (with_size (with_wr w s) (w_currentSize w + (Z.of_nat HeaderSize + 4 + 8 + Zlength (Data r))),
   wr_disk s, true).

(** [sync]: flush, then fsync. *)
Definition sync (e : Env) (name : string) (w : WAL) (d : disk) : WAL * disk * bool :=
  let s := bufio_flush name (mkWr (w_buf w) (w_err w) d) in
  if wr_err s then (with_wr w s, wr_disk s, false) else
  if negb (fsync_ok e) then (with_wr w s, wr_disk s, false) else
  (with_sync_time (with_wr w s) (now_sync e), file_sync name (wr_disk s), true).

(** The record [Append] builds. *)
Definition append_record (e : Env) (recordType : Z) (data : list Z) (w : WAL) : Record_ :=
  mkRecord (uint64 (w_seqNum w + 1)) recordType (now_rec e) data.

Definition Append (e : Env) (recordType : Z) (data : list Z) (w : WAL) (d : disk)
    : WAL * disk * result wal_error Z :=
  if w_closed w then (w, d, Err ErrClosed) else
  if MaxRecordSize <? Zlength data then (w, d, Err ErrTooLarge) else
  let name := default "" (w_file w) in
  let record := append_record e recordType data w in
  let w := with_seq w (uint64 (w_seqNum w + 1)) in
  let '(w, d, ok) := writeRecord name record w d in
  if negb ok then (with_seq w (uint64 (w_seqNum w - 1)), d, Err ErrWrite) else
  let '(w, d, ok) :=
    if w_syncOnWrite w then sync e name w d
    else if w_syncInterval w <? now_since e - w_lastSyncTime w
         then let '(w, d, _) := sync e name w d in (w, d, true)
         else (w, d, true) in
  if negb ok then (w, d, Err ErrSync) else
  let '(w, d) :=
    if w_maxFileSize w <=? w_currentSize w
    then let '(w, d, _) := openNewFile e w d in (w, d)
    else (w, d) in
  (w, d, Ok (w_seqNum w)).

(** [listWALFiles]: the non-directories with the log suffix, in name order. *)
Definition is_log (d : disk) (name : string) : bool :=
  match entries d !! name with
  | Some (EFile _) => bool_decide (Ext name = walFileSuffix)
  | _ => false
  end.

Definition listWALFiles (d : disk) : list string :=
  List.filter (is_log d) (SortStrings (map_to_list (entries d)).*1).

(** *** Reading back

    What reading one file meets: nothing ([RdWhole]); it cannot be opened or
    put back to its start ([RdFail]); an I/O error after [n] bytes ([RdCut]).
    [rd_dir] says whether the directory can be listed. *)
Inductive read_outcome := RdWhole | RdFail | RdCut (n : nat).

Record reads := mkReads { rd_dir : bool; rd_file : string -> read_outcome }.

(** Every read works. *)
Definition all_read : reads := mkReads true (fun _ => RdWhole).

(** No file fails to be read; no file breaks off in the middle. *)
Definition whole (rd : reads) : Prop := forall name, rd_file rd name = RdWhole.
Definition uncut (rd : reads) : Prop := forall name n, rd_file rd name <> RdCut n.

(** [os.Open], the header and the loop over the records. [Peek] returns an
    I/O error before the fourth byte as it is; a later one ends the loop, or
    fails the header, like an early end of the file. *)
Definition read_with (o : read_outcome) (bs : list Z) : result read_error (list Record_) :=
  match o with
  | RdWhole => read_file bs
  | RdFail => Err ErrIO
  | RdCut n => if (n <? MagicNumberSize)%nat then Err ErrIO else read_file (take n bs)
  end.

(** The bytes of a listed file. *)
Definition file_bytes (d : disk) (name : string) : list Z :=
  match get_file d name with Some f => content f | None => [] end.

(** [replayFile]: a handler error ends the file, and what the handler did
    before it stays done. *)
Fixpoint replay_records {S} (handler : S -> Record_ -> S * bool) (s : S) (rs : list Record_) : S :=
  match rs with
  | [] => s
  | r :: rs =>
      let '(s, ok) := handler s r in
      if (ok : bool) then replay_records handler s rs else s
  end.

Definition replayFile {S} (o : read_outcome) (handler : S -> Record_ -> S * bool) (s : S) (bs : list Z) : S :=
  match read_with o bs with
  | Err _ => s
  | Ok rs => replay_records handler s rs
  end.

(** [Replay]: an error in one file is logged and the next file is replayed. *)
Definition Replay {S} (rd : reads) (handler : S -> Record_ -> S * bool) (d : disk) (s : S)
    : S * bool :=
  if negb (rd_dir rd) then (s, false) else
  (foldl (fun s name => replayFile (rd_file rd name) handler s (file_bytes d name)) s (listWALFiles d), true).

Definition getFileMaxSequence (o : read_outcome) (bs : list Z) : result read_error Z :=
  (let! rs := read_with o bs in Ok (max_list (SeqNum <$> rs)))%go.

(** [Truncate]: the open file is kept, and so is a file that cannot be opened
    or whose header cannot be read; [rm_ok] says which removals succeed. *)
Definition truncate_file (rd : reads) (rm_ok : string -> bool) (beforeSeqNum : Z) (w : WAL)
    (d : disk) (name : string) : disk :=
  if bool_decide (w_file w = Some name) then d else
  match getFileMaxSequence (rd_file rd name) (file_bytes d name) with
  | Err _ => d
  | Ok maxSeq => if (maxSeq <=? beforeSeqNum) && rm_ok name then remove name d else d
  end.

Definition Truncate (rd : reads) (rm_ok : string -> bool) (beforeSeqNum : Z) (w : WAL) (d : disk)
    : disk * bool :=
  if negb (rd_dir rd) then (d, false) else
  (foldl (truncate_file rd rm_ok beforeSeqNum w) d (listWALFiles d), true).

(** [findLastSequence], once the directory is listed: a file whose numbers
    cannot be read is passed over. *)
Definition findLastSequence (rd : reads) (d : disk) : Z :=
  foldl (fun acc name =>
           match getFileMaxSequence (rd_file rd name) (file_bytes d name) with
           | Err _ => acc
           | Ok seq => if acc <? seq then seq else acc
           end) 0 (listWALFiles d).

Definition New (e : Env) (mkdir_ok : bool) (rd : reads) (now : Z) (cfg : Config) (d : disk)
    : disk * result wal_error WAL :=
  if negb mkdir_ok then (d, Err ErrMkdir) else
  if negb (rd_dir rd) then (d, Err ErrReadDir) else
  let w := mkWAL None [] false (findLastSequence rd d) 0 (cfg_SyncOnWrite cfg) (cfg_MaxFileSize cfg)
                 0 now (cfg_SyncInterval cfg) false in
  let '(w, d, ok) := openNewFile e w d in
  if negb ok then (d, Err ErrOpen) else (d, Ok w).

Definition Close (e : Env) (w : WAL) (d : disk) : WAL * disk :=
  if w_closed w then (w, d) else
  let w := with_closed w in
  match w_file w with
  | None => (w, d)
  | Some name =>
      let s := bufio_flush name (mkWr (w_buf w) (w_err w) d) in
      (with_wr w s, if fsync_ok e then file_sync name (wr_disk s) else wr_disk s)
  end.

Definition LastSeqNum (w : WAL) : Z := w_seqNum w.

(** ** Crashes

    A crash keeps, of every file, a prefix at least as long as what was
    fsynced; a file that was never fsynced may be lost altogether. What is
    read back after the crash comes from the disk, so all of it is synced. *)
Definition crash (d d' : disk) : Prop :=
  forall name,
    match entries d !! name, entries d' !! name with
    | None, None => True
    | Some EDir, Some EDir => True
    | Some (EFile f), Some (EFile f') =>
        (exists n, (synced f <= n)%nat /\ content f' = take n (content f)) /\
        synced f' = length (content f')
    | Some (EFile f), None => synced f = 0%nat
    | _, _ => False
    end.
