(* ===== verification/WalLemmas.v ===== *)
(** * Lemmas on the log's files, writer and directory listing

    What a prefix of a log file reads as, what the buffered writer leaves on
    disk, and how the directory listing splits around the newest file. The
    theorems about the log's operations ([WalProofs]) rest on these. *)

From S2P Require Import Prelude GoStrings WalCodec Wal.

(** ** Prefixes of a log file *)

(** What a reader gets out of a file: a header error yields nothing. *)
Definition recs_of (bs : list Z) : list Record_ :=
  match read_file bs with Ok rs => rs | Err _ => [] end.

(** A file holds a prefix of a header and encoded records. *)
Definition good (bs : list Z) : Prop :=
  exists rs, Forall wf_record rs /\ bs `prefix_of` file_header ++ records_bytes rs.

Lemma good_prefix p bs : p `prefix_of` bs -> good bs -> good p.
Proof. intros Hp (rs & Hwf & Hbs). exists rs. split; [done|]. by etrans. Qed.

(** Where a prefix of encoded records stops. *)
Lemma prefix_records rs p :
  p `prefix_of` records_bytes rs ->
  exists m t, p = records_bytes (take m rs) ++ t /\ (m <= length rs)%nat /\
    ((m = length rs /\ t = []) \/
     exists r, rs !! m = Some r /\ t `prefix_of` record_bytes r /\ t <> record_bytes r).
Proof.
  revert p. induction rs as [|r rs IH]; intros p Hp.
  - apply prefix_nil_inv in Hp as ->. exists 0%nat, []. auto.
  - change (records_bytes (r :: rs)) with (record_bytes r ++ records_bytes rs) in Hp.
    destruct (prefix_app_cases _ _ _ Hp) as [Hs|(p' & -> & Hp')].
    + exists 0%nat, p. simpl. split_and!; [done | lia |]. right. exists r. split_and!; [done| |].
      * eapply prefix_app_short; [done|lia].
      * intros ->. lia.
    + destruct (IH p' Hp') as (m & t & -> & Hm & Ht).
      exists (S m), t. simpl. split_and!; [by rewrite app_assoc | lia |].
      destruct Ht as [[-> ->]|(r' & ? & ? & ?)]; [auto|right; eauto].
Qed.

Lemma length_records_bytes_take m rs :
  (length (records_bytes (take m rs)) <= length (records_bytes rs))%nat.
Proof.
  rewrite <- (take_drop m rs) at 2. rewrite records_bytes_app, length_app. lia.
Qed.

(** A prefix of a log file reads as a prefix of its records: at least those
    whose bytes are all there, and only records that are all there. *)
Lemma prefix_reads rs bs :
  Forall wf_record rs -> bs `prefix_of` file_header ++ records_bytes rs ->
  exists m, recs_of bs = take m rs /\
    (m = 0%nat \/ file_header ++ records_bytes (take m rs) `prefix_of` bs) /\
    (forall k, (k <= length rs)%nat ->
       file_header ++ records_bytes (take k rs) `prefix_of` bs -> (k <= m)%nat).
Proof.
  intros Hwf Hbs. destruct (prefix_app_cases _ _ _ Hbs) as [Hs|(p & -> & Hp)].
  - exists 0%nat. split_and!; [| by left |].
    + assert (bs `prefix_of` file_header) as Hh.
      { eapply prefix_app_short; [done|lia]. }
      unfold recs_of. destruct (read_file_short_header bs Hh) as [-> |[e ->]]; [|done..].
      intros ->. lia.
    + intros k _ Hk. apply prefix_length in Hk. rewrite length_app in Hk. lia.
  - destruct (prefix_records rs p Hp) as (m & t & -> & Hm & Ht).
    assert (torn t) as Htorn.
    { destruct Ht as [[_ ->]|(r & Hr & ? & ?)]; [apply torn_nil|].
      exists r. split; [|done]. by eapply Forall_lookup_1. }
    exists m. split_and!.
    + unfold recs_of. by rewrite read_file_records by auto using Forall_take.
    + right. rewrite app_assoc. by apply prefix_app_r.
    + intros k Hk Hpre. apply prefix_app_inv in Hpre. destruct (decide (k <= m)%nat); [done|].
      destruct Ht as [[-> _]|(r & Hr & Ht & Hne)]; [lia|].
      apply prefix_length in Hpre. rewrite length_app in Hpre.
      pose proof (prefix_length_lt _ _ Ht Hne).
      assert (take (S m) rs = take m rs ++ [r]) as E by (by apply take_S_r).
      pose proof (length_records_bytes_take (S m) (take k rs)) as Hlen.
      rewrite take_take, Nat.min_l, E, records_bytes_snoc, length_app in Hlen by lia. lia.
Qed.

Lemma recs_of_file rs : Forall wf_record rs -> recs_of (file_header ++ records_bytes rs) = rs.
Proof.
  intros. unfold recs_of. rewrite <- (app_nil_r (records_bytes rs)).
  by rewrite read_file_records by auto using torn_nil.
Qed.

(** Reading is monotone along the prefixes of a log file. *)
Lemma recs_of_mono p bs : good bs -> p `prefix_of` bs -> recs_of p `prefix_of` recs_of bs.
Proof.
  intros (rs & Hwf & Hbs) Hp.
  destruct (prefix_reads rs p Hwf) as (m1 & -> & Hm1 & _); [by etrans|].
  destruct (prefix_reads rs bs Hwf Hbs) as (m2 & -> & _ & Hm2).
  destruct Hm1 as [->|Hm1]; [apply prefix_nil|].
  destruct (decide (m1 <= length rs)%nat).
  - apply take_prefix_le. apply Hm2; [done|by etrans].
  - rewrite (take_ge rs m1) by lia. rewrite (take_ge rs m1) in Hm1 by lia.
    specialize (Hm2 (length rs)). rewrite take_ge in Hm2 by lia.
    rewrite take_ge; [done|]. apply Hm2; [lia|by etrans].
Qed.

Lemma recs_of_wf bs : good bs -> Forall wf_record (recs_of bs).
Proof.
  intros (rs & Hwf & Hbs). destruct (prefix_reads rs bs Hwf Hbs) as (m & -> & _).
  by apply Forall_take.
Qed.

(** ** The disk *)

Lemma get_set_file name f d : get_file (set_file name f d) name = Some f.
Proof. unfold get_file, set_file. simpl. by rewrite lookup_insert_eq. Qed.

(** Two disks agree on everything but one file. *)
Definition same_but (name : string) (d d' : disk) : Prop :=
  forall n, n <> name -> entries d' !! n = entries d !! n.

Lemma same_but_refl name d : same_but name d d.
Proof. done. Qed.

Lemma same_but_trans name d1 d2 d3 :
  same_but name d1 d2 -> same_but name d2 d3 -> same_but name d1 d3.
Proof. unfold same_but. intros H1 H2 n Hn. by rewrite H2, H1. Qed.

Lemma same_but_get name d d' n : same_but name d d' -> n <> name -> get_file d' n = get_file d n.
Proof. intros H Hn. unfold get_file. by rewrite (H n Hn). Qed.

Lemma same_but_set name f d : same_but name d (set_file name f d).
Proof. intros n Hn. unfold set_file. simpl. by rewrite lookup_insert_ne. Qed.

Lemma same_but_sync name d : same_but name d (file_sync name d).
Proof.
  unfold file_sync. destruct (get_file d name); [apply same_but_set|done].
Qed.

#[export] Hint Resolve same_but_refl same_but_set same_but_sync : miniodb.

Lemma file_write_spec name bs d f d' n ok :
  get_file d name = Some f -> file_write name bs d = (d', n, ok) ->
  get_file d' name = Some (mkFile (content f ++ take n bs) (synced f)) /\
  same_but name d d' /\ (ok = true -> take n bs = bs) /\
  (ok = false -> (length (take n bs) < length bs)%nat).
Proof.
  unfold file_write. intros Hf. rewrite Hf. intros H. simplify_eq. split_and!.
  - unfold get_file. simpl. by rewrite lookup_insert_eq.
  - intros m Hm. simpl. by rewrite lookup_insert_ne.
  - intros Hn%Nat.leb_le. apply take_ge. lia.
  - intros Hn%Nat.leb_gt. rewrite length_take. lia.
Qed.

(** ** The buffered writer *)

(** Trying to write [bs]: what is on disk afterwards is the old file with a
    prefix of the buffer and [bs] behind it, all of it (with the buffer) when
    no error is reported and not all of it when one is; an earlier error stops
    everything. *)
Record writes (name : string) (f : file) (s : wr) (bs : list Z) (s' : wr) (f' : file) : Prop := {
  ws_file : get_file (wr_disk s') name = Some f';
  ws_synced : synced f' = synced f;
  ws_grow : content f `prefix_of` content f';
  ws_prefix : content f' `prefix_of` content f ++ wr_buf s ++ bs;
  ws_ok : wr_err s' = false -> wr_err s = false /\ content f' ++ wr_buf s' = content f ++ wr_buf s ++ bs;
  ws_other : same_but name (wr_disk s) (wr_disk s');
  ws_stuck : wr_err s = true -> s' = s;
  ws_strict : wr_err s = false -> wr_err s' = true ->
    (length (content f') < length (content f ++ wr_buf s ++ bs))%nat;
}.

Lemma writes_refl name f s :
  get_file (wr_disk s) name = Some f -> writes name f s [] s f.
Proof.
  intros Hf. split; auto with miniodb.
  - by apply prefix_app_r.
  - intros H. by rewrite app_nil_r.
  - congruence.
Qed.

Lemma writes_stuck name f s bs :
  get_file (wr_disk s) name = Some f -> wr_err s = true -> writes name f s bs s f.
Proof. intros Hf He. split; auto with miniodb; [by apply prefix_app_r|congruence..]. Qed.

Lemma writes_weaken name f s bs s' f' bs' :
  writes name f s bs s' f' -> wr_err s' = true -> bs `prefix_of` bs' -> writes name f s bs' s' f'.
Proof.
  intros [] He [k ->]. split; auto; [|congruence|].
  - etrans; [done|]. rewrite !app_assoc. by apply prefix_app_r.
  - intros H1 H2. specialize (ws_strict0 H1 H2). rewrite !length_app in *. lia.
Qed.

Lemma writes_trans name f s a s1 f1 b s2 f2 :
  writes name f s a s1 f1 -> writes name f1 s1 b s2 f2 -> writes name f s (a ++ b) s2 f2.
Proof.
  intros [Ha1 Ha2 Ha3 Ha4 Ha5 Ha6 Ha7 Ha8] [Hb1 Hb2 Hb3 Hb4 Hb5 Hb6 Hb7 Hb8].
  split; [done|congruence|by etrans| | |by eapply same_but_trans| |].
  - destruct (wr_err s1) eqn:E1.
    + specialize (Hb7 eq_refl) as ->. rewrite Ha1 in Hb1. simplify_eq.
      etrans; [exact Ha4|]. rewrite !app_assoc. by apply prefix_app_r.
    + destruct (Ha5 eq_refl) as [_ E]. etrans; [exact Hb4|].
      rewrite app_assoc, E, <- !app_assoc. done.
  - intros He. destruct (Hb5 He) as [E1 Eb]. destruct (Ha5 E1) as [E Ea].
    split; [done|]. rewrite Eb, app_assoc, Ea, <- !app_assoc. done.
  - intros He. specialize (Ha7 He) as ->. auto.
  - intros He He2. destruct (wr_err s1) eqn:E1.
    + specialize (Hb7 eq_refl) as ->. rewrite Ha1 in Hb1. simplify_eq.
      specialize (Ha8 He eq_refl). rewrite !length_app in *. lia.
    + destruct (Ha5 eq_refl) as [_ E]. specialize (Hb8 eq_refl He2).
      rewrite app_assoc, E, !length_app in Hb8. rewrite !length_app. lia.
Qed.

Lemma bufio_flush_spec name s f :
  get_file (wr_disk s) name = Some f ->
  exists f', writes name f s [] (bufio_flush name s) f' /\
    (wr_err (bufio_flush name s) = false -> wr_buf (bufio_flush name s) = []).
Proof.
  intros Hf. unfold bufio_flush. destruct (wr_err s) eqn:Ee.
  { exists f. split; [by apply writes_stuck|congruence]. }
  destruct (wr_buf s) as [|b buf] eqn:Eb.
  { exists f. split; [by apply writes_refl|done]. }
  destruct (file_write name (b :: buf) (wr_disk s)) as [[d n] ok] eqn:Ew.
  destruct (file_write_spec _ _ _ _ _ _ _ Hf Ew) as (Hg & Hs & Hok & Hko).
  exists (mkFile (content f ++ take n (b :: buf)) (synced f)).
  destruct ok.
  - specialize (Hok eq_refl). rewrite Hok in *. split; [|done].
    split; simpl; auto; try congruence.
    + by apply prefix_app_r.
    + by rewrite Eb, app_nil_r.
    + intros _. rewrite Eb, !app_nil_r. done.
  - specialize (Hko eq_refl). split; [|done]. split; simpl; auto; try congruence.
    + by apply prefix_app_r.
    + rewrite Eb, app_nil_r. apply prefix_app, take_prefix.
    + intros _ _. rewrite Eb, app_nil_r, !length_app. lia.
Qed.

(** A write that fits in the buffer, or that finds it empty. *)
Lemma bufio_write_loop_empty fuel name s f p :
  get_file (wr_disk s) name = Some f -> wr_buf s = [] ->
  exists f', writes name f s p (bufio_write_loop (S (S fuel)) name p s) f'.
Proof.
  intros Hf Hb. cbn [bufio_write_loop]. destruct (wr_err s) eqn:Ee.
  { exists f. by apply writes_stuck. }
  rewrite Hb. destruct (_ <? length p)%nat eqn:El.
  - destruct (file_write name p (wr_disk s)) as [[d n] ok] eqn:Ew.
    destruct (file_write_spec _ _ _ _ _ _ _ Hf Ew) as (Hg & Hs & Hok & Hko).
    exists (mkFile (content f ++ take n p) (synced f)). destruct ok.
    + specialize (Hok eq_refl). rewrite Hok in *.
      assert (drop n p = []) as ->.
      { rewrite <- (take_drop n p) in Hok at 2. by rewrite <- (app_nil_r (take n p)) in Hok at 1;
        apply app_inv_head in Hok. }
      simpl. split; simpl; rewrite ?Hb, ?app_nil_r; auto using prefix_app_r; congruence.
    + specialize (Hko eq_refl). simpl. split; simpl; rewrite ?Hb; auto using prefix_app_r; try congruence.
      * apply prefix_app, take_prefix.
      * intros _ _. rewrite !length_app. simpl. lia.
  - exists f. split; simpl; auto using prefix_app_r with miniodb; [|congruence..].
    by rewrite Hb.
Qed.

Lemma bufio_write_spec name s f p :
  get_file (wr_disk s) name = Some f -> exists f', writes name f s p (bufio_write name p s) f'.
Proof.
  intros Hf. unfold bufio_write. destruct (wr_buf s) as [|b buf] eqn:Hb.
  { by apply bufio_write_loop_empty. }
  change (bufio_write_loop 3 name p s) with
    (let avail := (bufio_size - length (wr_buf s))%nat in
     if wr_err s then s else
     if (avail <? length p)%nat then
       match wr_buf s with
       | [] => let '(d, n, ok) := file_write name p (wr_disk s) in
               bufio_write_loop 2 name (drop n p) (mkWr [] (negb ok) d)
       | buf => bufio_write_loop 2 name (drop avail p)
                  (bufio_flush name (mkWr (buf ++ take avail p) false (wr_disk s)))
       end
     else mkWr (wr_buf s ++ p) false (wr_disk s)).
  cbv zeta. rewrite Hb. destruct (wr_err s) eqn:Ee.
  { exists f. by apply writes_stuck. }
  generalize (bufio_size - length (b :: buf))%nat. intros avail.
  destruct (_ <? length p)%nat eqn:El.
  - set (s1 := mkWr _ false (wr_disk s)).
    assert (writes name f s (take avail p) s1 f) as H1.
    { split; simpl; auto using prefix_app_r with miniodb; [|congruence..]. by rewrite Hb. }
    destruct (bufio_flush_spec name s1 f) as (f2 & H2 & Hempty); [done|].
    assert (exists f3, writes name f2 (bufio_flush name s1) (drop avail p)
              (bufio_write_loop 2 name (drop avail p) (bufio_flush name s1)) f3) as [f3 H3].
    { destruct (wr_err (bufio_flush name s1)) eqn:E2.
      - exists f2. cbn [bufio_write_loop]. rewrite E2. apply writes_stuck; [apply H2|done].
      - apply bufio_write_loop_empty; [apply H2|auto]. }
    exists f3. rewrite <- (take_drop avail p) at 1.
    eapply writes_trans; [exact H1|]. rewrite <- (app_nil_l (drop avail p)).
    by eapply writes_trans.
  - exists f. split; simpl; auto using prefix_app_r with miniodb; [|congruence..].
    by rewrite Hb.
Qed.

(** ** The directory listing *)

Lemma elem_of_keys (d : disk) n : n ∈ (map_to_list (entries d)).*1 <-> is_Some (entries d !! n).
Proof.
  rewrite list_elem_of_fmap. split.
  - intros ([k e] & -> & H%elem_of_map_to_list). eauto.
  - intros [e He]. exists (n, e). by rewrite elem_of_map_to_list.
Qed.

Lemma is_log_file d n : is_log d n = true -> exists f, get_file d n = Some f.
Proof. unfold is_log, get_file. intros. case_all; eauto; done. Qed.

Lemma is_log_iff d n :
  is_log d n = true <-> is_Some (get_file d n) /\ Ext n = walFileSuffix.
Proof.
  unfold is_log, get_file. destruct (entries d !! n) as [[|f]|].
  - split; [done|]. by intros [[? ?] _].
  - rewrite bool_decide_eq_true. split; [|by intros [_ ?]]. eauto.
  - split; [done|]. by intros [[? ?] _].
Qed.

Lemma elem_of_filter_bool {A} (P : A -> bool) l x : x ∈ List.filter P l <-> x ∈ l /\ P x = true.
Proof. by rewrite !list_elem_of_In, filter_In. Qed.

Lemma StronglySorted_filter_bool {A} (R : relation A) (P : A -> bool) l :
  StronglySorted R l -> StronglySorted R (List.filter P l).
Proof.
  induction 1 as [|x l Hl IH Hx]; simpl; [constructor|].
  destruct (P x); [|done]. constructor; [done|].
  rewrite Forall_forall in *. intros y [? _]%elem_of_filter_bool. auto.
Qed.

Lemma NoDup_filter_bool {A} (P : A -> bool) (l : list A) : NoDup l -> NoDup (List.filter P l).
Proof. rewrite !NoDup_ListNoDup. apply List.NoDup_filter. Qed.

Lemma elem_of_listWALFiles d n : n ∈ listWALFiles d <-> is_log d n = true.
Proof.
  unfold listWALFiles. rewrite elem_of_filter_bool, SortStrings_perm, elem_of_keys.
  split; [by intros [_ ?]|]. intros H. split; [|done].
  unfold is_log in H. case_all; eauto; done.
Qed.

Lemma listWALFiles_sorted d : StronglySorted String.le (listWALFiles d).
Proof. apply StronglySorted_filter_bool, SortStrings_sorted. Qed.

Lemma listWALFiles_NoDup d : NoDup (listWALFiles d).
Proof.
  apply NoDup_filter_bool. rewrite SortStrings_perm. apply NoDup_fst_map_to_list.
Qed.

(** The listing is the sorted list of the log files, whatever else the
    directory holds. *)
Lemma listWALFiles_unique d l :
  StronglySorted String.le l -> NoDup l -> (forall n, n ∈ l <-> is_log d n = true) ->
  listWALFiles d = l.
Proof.
  intros Hs Hn Hl. eapply (StronglySorted_unique String.le); [apply listWALFiles_sorted|done|].
  apply NoDup_Permutation; [apply listWALFiles_NoDup|done|].
  intros n. by rewrite elem_of_listWALFiles, Hl.
Qed.

Lemma listWALFiles_ext d d' :
  (forall n, is_log d' n = is_log d n) -> listWALFiles d' = listWALFiles d.
Proof.
  intros H. apply listWALFiles_unique; [apply listWALFiles_sorted|apply listWALFiles_NoDup|].
  intros n. by rewrite elem_of_listWALFiles, H.
Qed.

(** [cur] is the newest log file of [d] that holds anything: a file above it
    can only be one whose header could not be written. *)
Definition newest (cur : string) (d : disk) : Prop :=
  forall n, is_log d n = true -> n <> cur ->
    String.compare n cur = Lt \/ file_bytes d n `prefix_of` file_header.

Lemma is_log_remove d cur n :
  is_log (remove cur d) n = if bool_decide (n = cur) then false else is_log d n.
Proof.
  unfold is_log, remove. simpl. destruct (decide (n = cur)) as [->|Hne].
  - by rewrite lookup_delete_eq, bool_decide_true.
  - by rewrite lookup_delete_ne, (bool_decide_false (n = cur)).
Qed.

Lemma listWALFiles_split cur d :
  is_log d cur = true ->
  exists l1 l2, listWALFiles d = l1 ++ cur :: l2 /\ listWALFiles (remove cur d) = l1 ++ l2 /\
    forall n, n ∈ l2 -> is_log d n = true /\ n <> cur /\ String.compare n cur <> Lt.
Proof.
  intros Hc. pose proof Hc as Hin. rewrite <- elem_of_listWALFiles in Hin.
  apply list_elem_of_split in Hin as (l1 & l2 & E). exists l1, l2.
  pose proof (listWALFiles_sorted d) as Hs. pose proof (listWALFiles_NoDup d) as Hn.
  assert (forall n, n ∈ listWALFiles d <-> is_log d n = true) as He
    by apply elem_of_listWALFiles.
  rewrite E in Hs, Hn, He. split; [done|].
  assert (NoDup (cur :: l1 ++ l2)) as [Hn1 Hn2]%NoDup_cons by (by rewrite Permutation_middle).
  split.
  - apply listWALFiles_unique; [|done|].
    + apply StronglySorted_app_2.
      * intros x y Hx Hy. eapply StronglySorted_app_1_elem_of; [exact Hs|done|by right].
      * by apply StronglySorted_app_1_l in Hs.
      * apply StronglySorted_app_1_r in Hs. by inversion Hs.
    + intros n. rewrite is_log_remove. destruct (decide (n = cur)) as [->|Hne].
      * by rewrite bool_decide_true.
      * rewrite bool_decide_false, <- He by done. rewrite !elem_of_app, elem_of_cons. clear - Hne. tauto.
  - intros n Hin. split_and!.
    + apply He. rewrite elem_of_app, elem_of_cons. auto.
    + intros ->. apply Hn1. rewrite elem_of_app. auto.
    + intros Hlt%compare_Lt_asym. apply Hlt. apply StronglySorted_app_1_r in Hs.
      inversion Hs as [|?? _ Hall]; subst. rewrite Forall_forall in Hall. auto.
Qed.

(** ** Records of the whole directory *)

(** What [g] takes from each log file, in listing order. *)
Definition collect (g : file -> list Record_) (d : disk) : list Record_ :=
  mjoin ((fun n => from_option g [] (get_file d n)) <$> listWALFiles d).

(** All readable records, and those that no crash can take away. *)
Definition all_of (f : file) : list Record_ := recs_of (content f).
Definition durable_of (f : file) : list Record_ := recs_of (take (synced f) (content f)).

Definition dir_recs : disk -> list Record_ := collect all_of.
Definition dur_recs : disk -> list Record_ := collect durable_of.

Lemma elem_of_collect g d r :
  r ∈ collect g d <-> exists n f, is_log d n = true /\ get_file d n = Some f /\ r ∈ g f.
Proof.
  unfold collect. rewrite list_elem_of_join. setoid_rewrite list_elem_of_fmap. split.
  - intros (l & Hr & n & -> & Hn%elem_of_listWALFiles).
    destruct (is_log_file d n Hn) as [f Hf]. rewrite Hf in Hr. simpl in Hr. eauto 10.
  - intros (n & f & Hn & Hf & Hr). exists (g f). split; [done|].
    exists n. rewrite Hf, elem_of_listWALFiles. done.
Qed.

(** A file with no more than a header holds nothing. *)
Lemma recs_of_header p : p `prefix_of` file_header -> recs_of p = [].
Proof.
  intros Hp. assert (p `prefix_of` file_header ++ records_bytes []) as Hp'
    by (by rewrite app_nil_r).
  destruct (prefix_reads [] p) as (m & -> & _); [constructor|done|]. by rewrite take_nil.
Qed.

(** [g] finds nothing in a file with no more than a header. *)
Definition header_blind (g : file -> list Record_) : Prop :=
  forall f, content f `prefix_of` file_header -> g f = [].

Lemma all_of_blind : header_blind all_of.
Proof. intros f. apply recs_of_header. Qed.

Lemma durable_of_blind : header_blind durable_of.
Proof. intros f Hf. apply recs_of_header. etrans; [apply take_prefix|done]. Qed.

Lemma collect_split g cur d f :
  header_blind g -> is_log d cur = true -> newest cur d -> get_file d cur = Some f ->
  collect g d = collect g (remove cur d) ++ g f.
Proof.
  intros Hg Hc Hn Hf. unfold collect.
  destruct (listWALFiles_split cur d Hc) as (l1 & l2 & E & E' & H2). rewrite E, E'.
  set (h := fun n => from_option g [] (get_file d n)).
  assert (forall n, n ∈ l2 -> h n = []) as Hh.
  { intros n Hin. destruct (H2 n Hin) as (Hl & Hne & Hlt).
    destruct (Hn n Hl Hne) as [?|Hp]; [done|]. unfold h.
    unfold file_bytes in Hp. destruct (get_file d n) eqn:En; [|done]. by apply Hg. }
  assert (forall l, (forall n, n ∈ l -> h n = []) -> mjoin (h <$> l) = []) as Hj.
  { induction l as [|n l IH]; intros Hl; [done|]. simpl.
    rewrite Hl by (by left). simpl. apply IH. intros. apply Hl. by right. }
  assert (mjoin ((fun n => from_option g [] (get_file (remove cur d) n)) <$> l1 ++ l2)
          = mjoin (h <$> l1 ++ l2)) as ->.
  { f_equal. apply list_fmap_ext. intros i n Hi. unfold h.
    apply list_elem_of_lookup_2 in Hi. rewrite <- E', elem_of_listWALFiles, is_log_remove in Hi.
    case_bool_decide; [done|]. unfold get_file, remove. simpl. by rewrite lookup_delete_ne. }
  rewrite !fmap_app, !join_app, fmap_cons, (Hj l2), app_nil_r by done.
  change (mjoin (h cur :: (h <$> l2))) with (h cur ++ mjoin (h <$> l2)).
  rewrite (Hj l2), app_nil_r by done. f_equal. unfold h. by rewrite Hf.
Qed.

(** Changing the newest file does not change what the others give. *)
Lemma remove_same_but cur d d' : same_but cur d d' -> forall n, entries (remove cur d') !! n = entries (remove cur d) !! n.
Proof.
  intros H n. unfold remove. simpl. destruct (decide (n = cur)) as [->|].
  - by rewrite !lookup_delete_eq.
  - by rewrite !lookup_delete_ne, H by done.
Qed.

Lemma collect_ext g d d' :
  (forall n, entries d' !! n = entries d !! n) -> collect g d' = collect g d.
Proof.
  intros H. unfold collect. rewrite (listWALFiles_ext d d').
  - f_equal. apply list_fmap_ext. intros i n _. unfold get_file. by rewrite H.
  - intros n. unfold is_log. by rewrite H.
Qed.

Lemma collect_remove_same_but g cur d d' :
  same_but cur d d' -> collect g (remove cur d') = collect g (remove cur d).
Proof. intros. apply collect_ext. by apply remove_same_but. Qed.

Lemma is_log_same_but cur d d' n : same_but cur d d' -> n <> cur -> is_log d' n = is_log d n.
Proof. intros H Hn. unfold is_log. by rewrite H. Qed.

Lemma newest_same_but cur d d' : same_but cur d d' -> newest cur d -> newest cur d'.
Proof.
  intros H Hn n Hl Hne. unfold file_bytes. rewrite (same_but_get cur d d') by done.
  apply Hn; [|done]. by rewrite <- (is_log_same_but cur d d').
Qed.

Lemma durable_prefix f : good (content f) -> durable_of f `prefix_of` all_of f.
Proof. intros Hg. apply recs_of_mono; [done|apply take_prefix]. Qed.
