(* ===== verification/WalProofs.v ===== *)
(** * Correctness of the write-ahead log

    The invariant of an open log, that every operation preserves it, and what
    each operation does to the two things clients rely on: the records a
    replay delivers ([dir_recs]) and those no crash can take away
    ([dur_recs]). *)

From S2P Require Import Prelude GoStrings WalCodec Wal WalLemmas.

(** ** Invariants *)

(** A directory of log files: each a prefix of a header and records, and the
    records of all files, read in listing order, strictly ordered by sequence
    number. *)
Record dir_inv (d : disk) : Prop := {
  di_good : forall n f, is_log d n = true -> get_file d n = Some f -> good (content f);
  di_sorted : StronglySorted Z.lt (SeqNum <$> dir_recs d);
}.

(** The current file: the records accepted into it, then at most a torn one;
    as long as the writer has not failed, file and buffer together are
    exactly the header and the accepted records. *)
Record cur_inv (w : WAL) (f : file) (att : list Record_) : Prop := {
  ci_torn : exists t, torn t /\ content f `prefix_of` file_header ++ records_bytes att ++ t;
  ci_stream : w_err w = false -> content f ++ w_buf w = file_header ++ records_bytes att;
  ci_size : w_err w = false -> w_currentSize w = Zlength (file_header ++ records_bytes att);
}.

Record wal_inv (w : WAL) (d : disk) (cur : string) (att : list Record_) : Prop := {
  wi_file : w_file w = Some cur;
  wi_log : is_log d cur = true;
  wi_newest : newest cur d;
  wi_wf : Forall wf_record att;
  wi_cur : exists f, get_file d cur = Some f /\ cur_inv w f att;
  wi_good : forall n f, is_log d n = true -> n <> cur -> get_file d n = Some f -> good (content f);
  wi_seq : in_uint 64 (w_seqNum w);
  wi_sorted : StronglySorted Z.lt (SeqNum <$> (dir_recs (remove cur d) ++ att));
  wi_below : Forall (fun r => SeqNum r <= w_seqNum w) (dir_recs (remove cur d) ++ att);
}.

(** Everything written to the log so far, whether or not it has reached the
    disk. *)
Definition attempts (d : disk) (cur : string) (att : list Record_) : list Record_ :=
  dir_recs (remove cur d) ++ att.

(** The clock reading that names a new file is above every file there is. *)
Definition fresh_name (e : Env) (d : disk) : Prop :=
  forall n, is_log d n = true -> String.compare n (wal_name (now_open e)) = Lt.

(** ** The current file *)

Lemma torn_reads att t bs :
  Forall wf_record att -> torn t -> bs `prefix_of` file_header ++ records_bytes att ++ t ->
  good bs /\ recs_of bs `prefix_of` att /\
  (file_header ++ records_bytes att `prefix_of` bs -> recs_of bs = att).
Proof.
  intros Hwf (r & Hr & Ht & Hne) Hbs.
  assert (Forall wf_record (att ++ [r])) as Hwf' by (by apply Forall_app; auto).
  assert (bs `prefix_of` file_header ++ records_bytes (att ++ [r])) as Hbs'.
  { rewrite records_bytes_snoc. etrans; [exact Hbs|]. by do 2 apply prefix_app. }
  split; [by eexists|].
  destruct (prefix_reads _ _ Hwf' Hbs') as (m & Hm & Hm1 & Hm2).
  assert (m <= length att)%nat as Hle.
  { destruct (decide (m <= length att)%nat) as [|Hgt]; [done|].
    destruct Hm1 as [->|Hm1]; [lia|].
    rewrite take_ge in Hm1 by (rewrite length_app; simpl; lia).
    apply prefix_length in Hm1. apply prefix_length in Hbs.
    pose proof (prefix_length_lt _ _ Ht Hne).
    rewrite records_bytes_snoc in Hm1. rewrite !length_app in *. lia. }
  rewrite take_app_le in Hm by done. rewrite Hm. split; [apply take_prefix|].
  intros Hfull. specialize (Hm2 (length att)). rewrite take_app_length, length_app in Hm2.
  rewrite take_ge; [done|]. apply Hm2; [simpl; lia|done].
Qed.

Lemma cur_good w f att : Forall wf_record att -> cur_inv w f att -> good (content f).
Proof. intros Hwf [(t & Ht & Hp) _ _]. by eapply torn_reads. Qed.

Lemma cur_reads w f att : Forall wf_record att -> cur_inv w f att -> all_of f `prefix_of` att.
Proof. intros Hwf [(t & Ht & Hp) _ _]. by eapply torn_reads. Qed.

(** ** What the invariant says of the directory *)

Lemma StronglySorted_prefix_app {A} (R : relation A) l p q :
  p `prefix_of` q -> StronglySorted R (l ++ q) -> StronglySorted R (l ++ p).
Proof.
  intros [k ->]. rewrite app_assoc. intros H. by apply StronglySorted_app_1_l in H.
Qed.

Lemma wal_dir_recs w d cur att f :
  wal_inv w d cur att -> get_file d cur = Some f ->
  dir_recs d = dir_recs (remove cur d) ++ all_of f /\
  dur_recs d = dur_recs (remove cur d) ++ durable_of f.
Proof.
  intros [] Hf. split; apply collect_split; auto using all_of_blind, durable_of_blind.
Qed.

Lemma wal_dir_inv w d cur att : wal_inv w d cur att -> dir_inv d.
Proof.
  intros Hi. pose proof Hi as []. destruct wi_cur0 as (f & Hf & Hc).
  split.
  - intros n f' Hn Hf'. destruct (decide (n = cur)) as [->|]; [|by eauto].
    simplify_eq. by eapply cur_good.
  - destruct (wal_dir_recs _ _ _ _ _ Hi Hf) as [-> _]. rewrite fmap_app in *.
    eapply StronglySorted_prefix_app; [|exact wi_sorted0].
    destruct (cur_reads _ _ _ wi_wf0 Hc) as [k ->]. rewrite fmap_app. by apply prefix_app_r.
Qed.

(** ** Preservation: replacing the current file *)

(** One lemma for every operation that only touches the current file. *)
Lemma wal_inv_update w d cur att w' d' att' f' :
  wal_inv w d cur att -> same_but cur d d' -> get_file d' cur = Some f' ->
  w_file w' = Some cur -> cur_inv w' f' (att ++ att') -> Forall wf_record att' ->
  in_uint 64 (w_seqNum w') -> w_seqNum w <= w_seqNum w' ->
  StronglySorted Z.lt (SeqNum <$> att') ->
  Forall (fun r => w_seqNum w < SeqNum r <= w_seqNum w') att' ->
  wal_inv w' d' cur (att ++ att').
Proof.
  intros [] Hs Hf' Hfile Hc Hwf Hseq Hle Hsort Hab.
  pose proof (collect_remove_same_but all_of cur d d' Hs) as E. fold dir_recs in E.
  split; auto.
  - unfold is_log in *. unfold get_file in Hf'. case_all; done.
  - by eapply newest_same_but.
  - by apply Forall_app.
  - eauto.
  - intros n f Hn Hne Hf. rewrite (same_but_get cur d d') in Hf by done.
    rewrite (is_log_same_but cur d d') in Hn by done. eauto.
  - rewrite E, app_assoc, fmap_app. apply StronglySorted_app_2; [|done..].
    intros x y (r & -> & Hr)%list_elem_of_fmap (r' & -> & Hr')%list_elem_of_fmap.
    rewrite Forall_forall in wi_below0, Hab. specialize (wi_below0 _ Hr).
    specialize (Hab _ Hr'). simpl in *. lia.
  - rewrite E, app_assoc. apply Forall_app. split.
    + eapply Forall_impl; [exact wi_below0|]. simpl. lia.
    + eapply Forall_impl; [exact Hab|]. simpl. lia.
Qed.

(** ** writeRecord *)

Lemma writeRecord_spec name r w d f w' d' ok :
  get_file d name = Some f -> writeRecord name r w d = (w', d', ok) ->
  exists s' f', writes name f (mkWr (w_buf w) (w_err w) d) (record_bytes r) s' f' /\
    wr_disk s' = d' /\ ok = negb (wr_err s') /\
    w' = with_size (with_wr w s') (w_currentSize w + if ok then Zlength (record_bytes r) else 0).
Proof.
  intros Hf H. unfold writeRecord in H.
  set (s0 := mkWr (w_buf w) (w_err w) d) in *.
  assert (forall s, with_wr w s = with_size (with_wr w s) (w_currentSize w + 0)) as Esz.
  { intros s. rewrite Z.add_0_r. done. }
  destruct (bufio_write_spec name s0 f (record_header r) Hf) as (f1 & H1).
  set (s1 := bufio_write name (record_header r) s0) in *. clearbody s1.
  destruct (bufio_write_spec name s1 f1 (record_crc r) (ws_file _ _ _ _ _ _ H1)) as (f2 & H2).
  set (s2 := bufio_write name (record_crc r) s1) in *. clearbody s2.
  destruct (bufio_write_spec name s2 f2 (record_time r) (ws_file _ _ _ _ _ _ H2)) as (f3 & H3).
  set (s3 := bufio_write name (record_time r) s2) in *. clearbody s3.
  destruct (bufio_write_spec name s3 f3 (Data r) (ws_file _ _ _ _ _ _ H3)) as (f4 & H4).
  set (s4 := bufio_write name (Data r) s3) in *. clearbody s4.
  pose proof (writes_trans _ _ _ _ _ _ _ _ _ H1 H2) as H12.
  pose proof (writes_trans _ _ _ _ _ _ _ _ _ H12 H3) as H13.
  pose proof (writes_trans _ _ _ _ _ _ _ _ _ H13 H4) as H14.
  unfold record_bytes.
  destruct (wr_err s1) eqn:E1.
  { simplify_eq. exists s1, f1. rewrite E1. split_and!; auto.
    eapply writes_weaken; [done..|]. by apply prefix_app_r. }
  destruct (wr_err s2) eqn:E2.
  { simplify_eq. exists s2, f2. rewrite E2. split_and!; auto.
    eapply writes_weaken; [done..|]. rewrite app_assoc. by apply prefix_app_r. }
  destruct (wr_err s3) eqn:E3.
  { simplify_eq. exists s3, f3. rewrite E3. split_and!; auto.
    eapply writes_weaken; [done..|]. rewrite !app_assoc. by apply prefix_app_r. }
  rewrite <- !app_assoc in H14.
  destruct (wr_err s4) eqn:E4; simplify_eq; exists s4, f4; rewrite E4; split_and!; auto.
  pose proof (length_record_bytes r) as L. unfold record_bytes in L. cbn [negb].
  rewrite L. f_equal. unfold HeaderSize. lia.
Qed.

#[local] Opaque file_header record_bytes records_bytes.

(** ** How one file changes *)

(** Nothing that was readable or durable is lost. *)
Record grows (f f' : file) : Prop := {
  gr_all : all_of f `prefix_of` all_of f';
  gr_durable : durable_of f `prefix_of` durable_of f';
}.

Lemma grows_refl f : grows f f.
Proof. by split. Qed.

Lemma grows_trans f1 f2 f3 : grows f1 f2 -> grows f2 f3 -> grows f1 f3.
Proof. intros [] []. split; by etrans. Qed.

Lemma take_prefix_mono {A} n (l k : list A) : l `prefix_of` k -> take n l `prefix_of` take n k.
Proof. intros [q ->]. rewrite take_app. by apply prefix_app_r. Qed.

Lemma grows_content f f' :
  good (content f') -> content f `prefix_of` content f' ->
  synced f' = synced f \/ synced f' = length (content f') -> grows f f'.
Proof.
  intros Hg Hp Hs. split; [by apply recs_of_mono|]. unfold durable_of.
  apply recs_of_mono; [by eapply good_prefix; [apply take_prefix|]|].
  destruct Hs as [-> | ->]; [by apply take_prefix_mono|].
  rewrite (take_ge (content f')) by lia. etrans; [apply take_prefix|done].
Qed.

(** ** The current file under writeRecord, flush and fsync *)

Lemma torn_cases (h : list Z) p r :
  wf_record r -> p `prefix_of` h ++ record_bytes r ->
  (length p < length (h ++ record_bytes r))%nat ->
  exists t, torn t /\ p `prefix_of` h ++ t.
Proof.
  intros Hr Hp Hl. destruct (prefix_app_cases _ _ _ Hp) as [Hs|(t & -> & Ht)].
  - exists []. split; [apply torn_nil|]. rewrite app_nil_r.
    eapply prefix_app_short; [done|lia].
  - exists t. split; [|done]. exists r. split_and!; [done..|]. intros ->. lia.
Qed.

Lemma cur_write w f att r s' f' d cur :
  Forall wf_record att -> wf_record r -> cur_inv w f att -> get_file d cur = Some f ->
  writes cur f (mkWr (w_buf w) (w_err w) d) (record_bytes r) s' f' ->
  cur_inv (with_size (with_wr w s') (w_currentSize w + if negb (wr_err s') then Zlength (record_bytes r) else 0))
    f' (if wr_err s' then att else att ++ [r]) /\ grows f f'.
Proof.
  intros Hwf Hr Hc Hd [Hf Hsy Hgr Hpre Hok _ Hstuck Hstr].
  cbn [wr_buf wr_err wr_disk] in *.
  pose proof Hc as [(t & Ht & Htp) Hst Hsz].
  assert (cur_inv (with_size (with_wr w s') (w_currentSize w + if negb (wr_err s') then Zlength (record_bytes r) else 0))
    f' (if wr_err s' then att else att ++ [r])) as Hc'.
  { destruct (wr_err s') eqn:Es.
    - split; simpl; [|congruence..]. destruct (w_err w) eqn:Ew.
      + specialize (Hstuck eq_refl) as ->. cbn [wr_disk] in Hf. simplify_eq. eauto.
      + specialize (Hstr eq_refl eq_refl). rewrite app_assoc, (Hst eq_refl) in Hpre, Hstr.
        destruct (torn_cases _ _ _ Hr Hpre Hstr) as (t' & ? & ?).
        exists t'. by rewrite app_assoc.
    - destruct (Hok eq_refl) as [Ew E]. rewrite app_assoc, (Hst Ew) in E.
      assert (content f' ++ wr_buf s' = file_header ++ records_bytes (att ++ [r])) as E'.
      { by rewrite E, records_bytes_snoc, <- app_assoc. }
      split; simpl.
      + exists []. split; [apply torn_nil|]. rewrite app_nil_r, <- E'. by apply prefix_app_r.
      + done.
      + intros _. rewrite (Hsz Ew), records_bytes_snoc, !length_app. lia. }
  split; [done|]. apply grows_content; auto. eapply cur_good; [|exact Hc'].
  destruct (wr_err s'); [done|]. by apply Forall_app; auto.
Qed.

Lemma cur_flush w f att d cur :
  Forall wf_record att -> cur_inv w f att -> get_file d cur = Some f ->
  let s := bufio_flush cur (mkWr (w_buf w) (w_err w) d) in
  exists f', get_file (wr_disk s) cur = Some f' /\ same_but cur d (wr_disk s) /\
    cur_inv (with_wr w s) f' att /\ grows f f' /\ synced f' = synced f /\
    (wr_err s = false -> content f' = file_header ++ records_bytes att).
Proof.
  intros Hwf Hc Hd s. pose proof Hc as [(t & Ht & Htp) Hst Hsz].
  destruct (bufio_flush_spec cur (mkWr (w_buf w) (w_err w) d) f Hd)
    as (f' & [Hf Hsy Hgr Hpre Hok Hoth Hstuck Hstr] & Hempty).
  fold s in Hf, Hok, Hoth, Hstuck, Hstr, Hempty. clearbody s.
  cbn [wr_buf wr_err wr_disk] in *. rewrite app_nil_r in *.
  assert (wr_err s = false -> content f' = file_header ++ records_bytes att) as Hfull.
  { intros Es. destruct (Hok Es) as [Ew E]. rewrite (Hempty Es), app_nil_r, (Hst Ew) in E. done. }
  assert (cur_inv (with_wr w s) f' att) as Hc'.
  { split; simpl.
    - destruct (w_err w) eqn:Ew.
      + specialize (Hstuck eq_refl) as ->. cbn [wr_disk] in Hf. simplify_eq. eauto.
      + exists []. split; [apply torn_nil|]. rewrite app_nil_r, <- (Hst eq_refl). done.
    - intros Es. rewrite (Hempty Es), app_nil_r. auto.
    - intros Es. destruct (Hok Es) as [Ew _]. auto. }
  exists f'. split_and!; auto. apply grows_content; auto. by eapply cur_good.
Qed.

Lemma cur_sync e w f att d cur w' d' ok :
  Forall wf_record att -> cur_inv w f att -> get_file d cur = Some f ->
  sync e cur w d = (w', d', ok) ->
  exists f', get_file d' cur = Some f' /\ same_but cur d d' /\
    cur_inv w' f' att /\ grows f f' /\
    (ok = true -> durable_of f' = att /\ w_err w' = false) /\
    w_file w' = w_file w /\ w_seqNum w' = w_seqNum w /\ w_syncOnWrite w' = w_syncOnWrite w.
Proof.
  intros Hwf Hc Hd H. unfold sync in H.
  destruct (cur_flush w f att d cur Hwf Hc Hd) as (f' & Hf' & Hs & Hc' & Hg & Hsy & Hfull).
  set (s := bufio_flush _ _) in *. clearbody s.
  destruct (wr_err s) eqn:Es; [simplify_eq; exists f'; by split_and!|].
  destruct (fsync_ok e); simpl in H; simplify_eq; [|exists f'; by split_and!].
  unfold file_sync. rewrite Hf'.
  set (f2 := mkFile (content f') (length (content f'))).
  exists f2. split_and!; try done.
  - apply get_set_file.
  - eapply same_but_trans; [exact Hs|apply same_but_set].
  - destruct Hc'. by split.
  - eapply grows_trans; [exact Hg|]. apply grows_content; auto.
    apply (cur_good (with_wr w s) f' att); done.
  - intros _. split; [|done]. unfold durable_of. simpl. rewrite firstn_all, Hfull by done.
    by apply recs_of_file.
Qed.

(** ** openNewFile *)

Lemma Ext_log s : Ext (s +:+ walFileSuffix) = walFileSuffix.
Proof. induction s as [|c s IH]; [done|]. simpl. by rewrite IH. Qed.

Lemma Ext_wal_name t : Ext (wal_name t) = walFileSuffix.
Proof. unfold wal_name. rewrite string_app_assoc. apply Ext_log. Qed.

Lemma is_log_name d t f : get_file d (wal_name t) = Some f -> is_log d (wal_name t) = true.
Proof. unfold get_file, is_log. intros. case_all; try done. by apply bool_decide_true, Ext_wal_name. Qed.

Lemma fresh_not_there e d f : fresh_name e d -> get_file d (wal_name (now_open e)) <> Some f.
Proof.
  intros Hfr Hf. specialize (Hfr _ (is_log_name _ _ _ Hf)). by rewrite compare_refl in Hfr.
Qed.

(** [name] is above every other log file. *)
Definition above (name : string) (d : disk) : Prop :=
  forall n, is_log d n = true -> n <> name -> String.compare n name = Lt.

Lemma above_newest name d : above name d -> newest name d.
Proof. intros H n Hl Hne. left. by apply H. Qed.

#[local] Hint Resolve above_newest : core.

(** Creating the file and writing its header, on any directory. *)
Lemma create_spec e d d1 d2 n ok :
  let name := wal_name (now_open e) in
  fresh_name e d -> create name d = Some d1 -> file_write name file_header d1 = (d2, n, ok) ->
  exists f, get_file d2 name = Some f /\ content f `prefix_of` file_header /\ synced f = 0%nat /\
    (ok = true -> content f = file_header) /\ entries d !! name = None /\
    same_but name d d2 /\ is_log d2 name = true /\ above name d2.
Proof.
  intros name Hfr Hcr Hw. unfold create in Hcr.
  assert (entries d !! name = None) as Hno.
  { destruct (entries d !! name) as [[|f]|] eqn:E; try done.
    exfalso. apply (fresh_not_there e d f Hfr). unfold get_file. fold name. by rewrite E. }
  rewrite Hno in Hcr. simplify_eq.
  destruct (file_write_spec _ _ _ _ _ _ _ (get_set_file name (mkFile [] 0) d) Hw)
    as (Hg & Hs & Hok & _). simpl in Hg.
  assert (same_but name d d2) as Hsb by (eapply same_but_trans; [apply same_but_set|exact Hs]).
  eexists. split_and!; [exact Hg|apply take_prefix|done|exact Hok|done|done| |].
  - by eapply is_log_name.
  - intros m Hm Hne. apply Hfr. by rewrite <- (is_log_same_but name d d2).
Qed.

(** A directory with a new file that holds no record. *)
Lemma collect_new g e d d2 f :
  let name := wal_name (now_open e) in
  header_blind g -> entries d !! name = None -> same_but name d d2 -> is_log d2 name = true ->
  above name d2 -> get_file d2 name = Some f -> content f `prefix_of` file_header ->
  collect g d2 = collect g d.
Proof.
  intros name Hg Hno Hs Hl Hn Hf Hc.
  rewrite (collect_split g name d2 f) by auto. rewrite Hg, app_nil_r by done.
  apply collect_ext. intros m. unfold remove. simpl.
  destruct (decide (m = name)) as [->|]; [by rewrite lookup_delete_eq|].
  by rewrite lookup_delete_ne, Hs.
Qed.

Lemma good_header p : p `prefix_of` file_header -> good p.
Proof. intros Hp. exists []. split; [constructor|]. etrans; [exact Hp|]. by apply prefix_app_r. Qed.

Lemma remove_remove_ext a b d n : entries (remove a (remove b d)) !! n = entries (remove b (remove a d)) !! n.
Proof. unfold remove. simpl. by rewrite delete_delete. Qed.

(** The header of the new file could not be written: the log goes on with the
    file it has. *)
Lemma open_failed e w d cur att d2 f :
  let name := wal_name (now_open e) in
  wal_inv w d cur att -> entries d !! name = None -> same_but name d d2 -> is_log d2 name = true ->
  above name d2 -> get_file d2 name = Some f -> content f `prefix_of` file_header ->
  wal_inv w d2 cur att /\ dur_recs d2 = dur_recs d /\
  dir_recs (remove cur d2) = dir_recs (remove cur d).
Proof.
  intros name Hi Hno Hs Hl Hn Hf Hc. pose proof Hi as [].
  assert (cur <> name) as Hcn.
  { intros ->. unfold is_log in wi_log0. by rewrite Hno in wi_log0. }
  assert (dir_recs (remove cur d2) = dir_recs (remove cur d)) as E.
  { apply (collect_new all_of e _ _ f); auto using all_of_blind.
    - unfold remove. simpl. by rewrite lookup_delete_ne.
    - intros m Hm. unfold remove. simpl. destruct (decide (m = cur)) as [->|].
      + by rewrite !lookup_delete_eq.
      + by rewrite !lookup_delete_ne, Hs by done.
    - rewrite is_log_remove. by rewrite bool_decide_false.
    - intros m Hm Hne. rewrite is_log_remove in Hm. case_bool_decide; [done|].
      by apply Hn.
    - unfold get_file, remove in *. simpl. by rewrite lookup_delete_ne. }
  split; [|split; [by apply (collect_new durable_of e d d2 f); auto using durable_of_blind|done]].
  destruct wi_cur0 as (fc & Hfc & Hcc).
  split; auto.
  - by rewrite (is_log_same_but name d d2).
  - intros m Hm Hne. destruct (decide (m = name)) as [->|].
    + right. unfold file_bytes. by rewrite Hf.
    + unfold file_bytes. rewrite (same_but_get name d d2) by done. apply wi_newest0; [|done].
      by rewrite <- (is_log_same_but name d d2).
  - exists fc. by rewrite (same_but_get name d d2).
  - intros m fm Hm Hne Hfm. destruct (decide (m = name)) as [->|].
    + simplify_eq. by apply good_header.
    + rewrite (same_but_get name d d2) in Hfm by done.
      rewrite (is_log_same_but name d d2) in Hm by done. eauto.
  - by rewrite E.
  - by rewrite E.
Qed.

(** The rotation: the old file is flushed and the new one is current. *)
Lemma open_rotated e w d cur att d2 f f' d3 (w' : WAL) :
  let name := wal_name (now_open e) in
  wal_inv w d cur att -> entries d !! name = None -> same_but name d d2 -> is_log d2 name = true ->
  above name d2 -> get_file d2 name = Some f -> content f = file_header -> synced f = 0%nat ->
  same_but cur d2 d3 -> get_file d3 cur = Some f' -> good (content f') -> all_of f' `prefix_of` att ->
  w_file w' = Some name -> w_buf w' = [] -> w_currentSize w' = Z.of_nat FileHeaderSize ->
  w_seqNum w' = w_seqNum w ->
  wal_inv w' d3 name [] /\ dur_recs d3 = dur_recs (remove cur d) ++ durable_of f' /\
  dir_recs (remove name d3) = dir_recs (remove cur d) ++ all_of f'.
Proof.
  intros name Hi Hno Hs Hl Hn Hf Hc Hsy Hs3 Hf' Hgood Hall Ew1 Ew2 Ew3 Ew4.
  pose proof Hi as [].
  assert (cur <> name) as Hcn.
  { intros ->. unfold is_log in wi_log0. by rewrite Hno in wi_log0. }
  assert (same_but cur d (remove name d3)) as Hdr.
  { intros m Hm. unfold remove. simpl. destruct (decide (m = name)) as [->|].
    - by rewrite lookup_delete_eq.
    - by rewrite lookup_delete_ne, Hs3, Hs. }
  assert (get_file (remove name d3) cur = Some f') as Hfc.
  { unfold get_file, remove. simpl. rewrite lookup_delete_ne by done. exact Hf'. }
  assert (is_log (remove name d3) cur = true) as Hlc.
  { apply is_log_iff. split; [by rewrite Hfc|]. by apply is_log_iff in wi_log0 as [_ ?]. }
  assert (forall g, header_blind g -> collect g (remove name d3) = collect g (remove cur d) ++ g f') as Hcol.
  { intros g Hg. rewrite (collect_split g cur (remove name d3) f');
      [|done|done|by eapply newest_same_but|done].
    f_equal. by apply collect_remove_same_but. }
  assert (forall m, m <> name -> is_log d3 m = true -> is_log d2 m = true) as Hl3.
  { intros m Hm H3. destruct (decide (m = cur)) as [->|].
    - by rewrite (is_log_same_but name d d2).
    - by rewrite <- (is_log_same_but cur d2 d3). }
  assert (above name d3) as Hn3 by (intros m Hm Hne; apply Hn; auto).
  assert (get_file d3 name = Some f) as Hf3 by (by rewrite (same_but_get cur d2 d3)).
  assert (is_log d3 name = true) as Hlog3 by (by eapply is_log_name).
  split.
  - split; auto.
    + exists f. split; [done|]. split.
      * exists []. split; [apply torn_nil|]. rewrite Hc. by apply prefix_app_r.
      * intros _. by rewrite Ew2, Hc.
      * intros _. by rewrite Ew3.
    + intros m fm Hm Hne Hfm. destruct (decide (m = cur)) as [->|]; [by simplify_eq|].
      rewrite (same_but_get cur d2 d3), (same_but_get name d d2) in Hfm by done.
      rewrite (is_log_same_but cur d2 d3), (is_log_same_but name d d2) in Hm by done. eauto.
    + by rewrite Ew4.
    + rewrite app_nil_r. unfold dir_recs. rewrite Hcol by apply all_of_blind.
      rewrite fmap_app in *. eapply StronglySorted_prefix_app; [|exact wi_sorted0].
      destruct Hall as [k ->]. rewrite fmap_app. by apply prefix_app_r.
    + rewrite app_nil_r, Ew4. unfold dir_recs. rewrite Hcol by apply all_of_blind.
      apply Forall_app in wi_below0 as [H1 H2]. apply Forall_app. split; [done|].
      destruct Hall as [k Hk]. rewrite Hk in H2. by apply Forall_app in H2 as [? _].
  - split; [|apply Hcol, all_of_blind].
    unfold dur_recs. rewrite (collect_split durable_of name d3 f) by auto using durable_of_blind.
    rewrite Hcol by apply durable_of_blind. rewrite (durable_of_blind f), app_nil_r; [done|].
    by rewrite Hc.
Qed.

Lemma openNewFile_spec e w d cur att f w' d' ok :
  wal_inv w d cur att -> get_file d cur = Some f -> fresh_name e d ->
  openNewFile e w d = (w', d', ok) ->
  exists cur' att' f', wal_inv w' d' cur' att' /\ grows f f' /\ durable_of f' `prefix_of` att /\
    dur_recs d' = dur_recs (remove cur d) ++ durable_of f' /\
    attempts d' cur' att' `prefix_of` attempts d cur att /\
    w_seqNum w' = w_seqNum w /\ w_syncOnWrite w' = w_syncOnWrite w.
Proof.
  intros Hi Hf Hfr H. unfold openNewFile in H.
  destruct (wal_dir_recs _ _ _ _ _ Hi Hf) as [_ Hdur].
  pose proof Hi as []. destruct wi_cur0 as (f0 & Hf0 & Hc). simplify_eq.
  assert (durable_of f `prefix_of` att) as Hpre.
  { etrans; [by eapply durable_prefix, cur_good|by eapply cur_reads]. }
  destruct (if open_ok e then _ else _) as [d1|] eqn:Ecr.
  2:{ simplify_eq. exists cur, att, f. split_and!; auto using grows_refl. }
  destruct (open_ok e); [|done].
  destruct (file_write (wal_name (now_open e)) file_header d1) as [[d2 n] ok2] eqn:Ew.
  destruct (create_spec _ _ _ _ _ _ Hfr Ecr Ew) as (fn & Hfn & Hcn & Hsn & Hokn & Hno & Hsb & Hln & Hab).
  destruct ok2; simpl in H; simplify_eq.
  - rewrite wi_file0 in *. specialize (Hokn eq_refl).
    assert (cur <> wal_name (now_open e)) as Hne.
    { intros ->. unfold is_log in wi_log0. by rewrite Hno in wi_log0. }
    destruct (cur_flush w f att d2 cur wi_wf0 Hc) as (f' & Hf' & Hs' & Hc' & Hg & _ & _).
    { by rewrite (same_but_get (wal_name (now_open e)) d d2). }
    destruct (open_rotated e w d cur att d2 fn f'
      (wr_disk (bufio_flush cur (mkWr (w_buf w) (w_err w) d2)))
      (mkWAL (Some (wal_name (now_open e))) [] false (w_seqNum w) (Z.of_nat FileHeaderSize)
         (w_syncOnWrite w) (w_maxFileSize w) (w_rotateCount w + 1) (w_lastSyncTime w)
         (w_syncInterval w) (w_closed w))) as (Hi' & Hd' & Ha'); auto.
    { by eapply cur_good. }
    { by eapply cur_reads. }
    assert (all_of f' `prefix_of` att) as Hatt by (by eapply cur_reads).
    eexists _, [], f'. split_and!; [exact Hi'|done| |done| |done|done].
    + etrans; [by eapply durable_prefix, cur_good|done].
    + unfold attempts. rewrite Ha', app_nil_r. by apply prefix_app.
  - destruct (open_failed e w' d cur att d' fn) as (Hi' & Hd' & Ha'); auto.
    exists cur, att, f. split_and!; auto using grows_refl; [by rewrite Hd'|].
    unfold attempts. by rewrite Ha'.
Qed.

(** ** Append *)

Lemma append_record_wf e ty data w :
  in_uint 64 (w_seqNum w) -> w_seqNum w + 1 < 2 ^ 64 -> in_int64 (now_rec e) ->
  Zlength data <= MaxRecordSize ->
  wf_record (append_record e ty data w) /\ SeqNum (append_record e ty data w) = w_seqNum w + 1.
Proof.
  intros Hs Hb Ht Hd. unfold append_record, in_uint in *.
  assert (uint64 (w_seqNum w + 1) = w_seqNum w + 1) as E by (apply uint64_small; unfold in_uint; lia).
  split; simpl; [|done]. split; simpl; try done. unfold in_uint. lia.
Qed.

(** An operation on the current file: the invariant holds again, and the file
    has grown. *)
Record cur_step (w : WAL) (d : disk) (cur : string) (f : file)
    (w' : WAL) (d' : disk) (att' : list Record_) (f' : file) : Prop := {
  cs_inv : wal_inv w' d' cur att';
  cs_file : get_file d' cur = Some f';
  cs_other : same_but cur d d';
  cs_grows : grows f f';
  cs_sync : w_syncOnWrite w' = w_syncOnWrite w;
}.

Lemma cur_step_durable w d cur att f w' d' att' f' :
  wal_inv w d cur att -> get_file d cur = Some f -> cur_step w d cur f w' d' att' f' ->
  dur_recs (remove cur d') = dur_recs (remove cur d) /\ dur_recs d `prefix_of` dur_recs d'.
Proof.
  intros Hi Hf [Hi' Hf' Hs Hg _].
  pose proof (collect_remove_same_but durable_of cur d d' Hs) as E. fold dur_recs in E.
  split; [done|].
  destruct (wal_dir_recs _ _ _ _ _ Hi Hf) as [_ ->].
  destruct (wal_dir_recs _ _ _ _ _ Hi' Hf') as [_ ->].
  rewrite E. apply prefix_app, Hg.
Qed.

Lemma append_write w d cur att f r w2 d2 ok :
  wal_inv w d cur att -> get_file d cur = Some f -> wf_record r -> SeqNum r = w_seqNum w + 1 ->
  writeRecord cur r (with_seq w (w_seqNum w + 1)) d = (w2, d2, ok) ->
  w_seqNum w2 = w_seqNum w + 1 /\
  if ok then exists f2, cur_step w d cur f w2 d2 (att ++ [r]) f2
  else exists f2, cur_step w d cur f (with_seq w2 (w_seqNum w)) d2 att f2.
Proof.
  intros Hi Hf Hr Hrs H. pose proof Hi as [].
  destruct wi_cur0 as (f0 & Hf0 & Hc). simplify_eq.
  destruct (writeRecord_spec _ _ _ _ _ _ _ _ Hf H) as (s' & f' & Hw & <- & Hok & ->).
  cbn [with_seq w_buf w_err] in Hw.
  destruct (cur_write w f att r s' f' d cur wi_wf0 Hr Hc Hf Hw) as [Hc' Hg].
  pose proof (wf_seq r Hr) as Hsr. rewrite Hrs in Hsr.
  split; [done|]. destruct (wr_err s') eqn:Es; simpl in Hok, Hc'; subst ok.
  - exists f'. split; auto; [|apply Hw|apply Hw]. rewrite <- (app_nil_r att).
    eapply wal_inv_update; try done; [apply Hw|apply Hw| |constructor..].
    rewrite app_nil_r. destruct Hc'. by split.
  - exists f'. split; auto; [|apply Hw|apply Hw].
    eapply wal_inv_update; try done; [apply Hw|apply Hw| | | | |].
    + destruct Hc'. by split.
    + constructor; [done|constructor].
    + simpl. lia.
    + constructor; constructor.
    + constructor; [simpl; lia|constructor].
Qed.

Lemma append_sync e w d cur att f w2 d2 ok :
  wal_inv w d cur att -> get_file d cur = Some f -> sync e cur w d = (w2, d2, ok) ->
  w_seqNum w2 = w_seqNum w /\
  exists f2, cur_step w d cur f w2 d2 att f2 /\ (ok = true -> durable_of f2 = att).
Proof.
  intros Hi Hf H. pose proof Hi as [].
  destruct wi_cur0 as (f0 & Hf0 & Hc). simplify_eq.
  destruct (cur_sync _ _ _ _ _ _ _ _ _ wi_wf0 Hc Hf H)
    as (f2 & Hf2 & Hs & Hc2 & Hg & Hok & Ew1 & Ew2 & Ew3).
  split; [done|]. exists f2. split; [|by intros [? _]%Hok]. split; auto.
  rewrite <- (app_nil_r att). eapply wal_inv_update; try done; try by constructor.
  - by rewrite Ew1.
  - by rewrite app_nil_r.
  - by rewrite Ew2.
  - lia.
Qed.

Lemma cur_step_refl w d cur att f :
  wal_inv w d cur att -> get_file d cur = Some f -> cur_step w d cur f w d att f.
Proof. split; auto using grows_refl with miniodb. Qed.

Lemma cur_step_trans w1 d1 cur f1 w2 d2 att2 f2 w3 d3 att3 f3 :
  cur_step w1 d1 cur f1 w2 d2 att2 f2 -> cur_step w2 d2 cur f2 w3 d3 att3 f3 ->
  cur_step w1 d1 cur f1 w3 d3 att3 f3.
Proof.
  intros [] []. split; auto; [by eapply same_but_trans|by eapply grows_trans|congruence].
Qed.

(** The write and the sync of an accepted record, as [Append] combines them. *)
Lemma append_body e ty data w d cur att f w' d' ok :
  wal_inv w d cur att -> get_file d cur = Some f -> w_seqNum w + 1 < 2 ^ 64 ->
  in_int64 (now_rec e) -> Zlength data <= MaxRecordSize ->
  let r := append_record e ty data w in
  (let '(w1, d1, ok1) := writeRecord cur r (with_seq w (w_seqNum w + 1)) d in
   if negb ok1 then (with_seq w1 (w_seqNum w), d1, inl ErrWrite) else
   let '(w2, d2, ok2) :=
     if w_syncOnWrite w1 then sync e cur w1 d1
     else if w_syncInterval w1 <? now_since e - w_lastSyncTime w1
          then let '(w3, d3, _) := sync e cur w1 d1 in (w3, d3, true)
          else (w1, d1, true) in
   (w2, d2, if ok2 then inr tt else inl ErrSync)) = (w', d', ok) ->
  exists f',
  match ok with
  | inl ErrSync => cur_step w d cur f w' d' (att ++ [r]) f' /\ w_seqNum w' = w_seqNum w + 1
  | inl _ => cur_step w d cur f w' d' att f' /\ w_seqNum w' = w_seqNum w
  | inr _ => cur_step w d cur f w' d' (att ++ [r]) f' /\ w_seqNum w' = w_seqNum w + 1 /\
      (w_syncOnWrite w = true -> durable_of f' = att ++ [r])
  end.
Proof.
  intros Hi Hf Hb Ht Hd r H.
  destruct (append_record_wf e ty data w (wi_seq _ _ _ _ Hi) Hb Ht Hd) as [Hr Hrs].
  destruct (writeRecord _ _ _ _) as [[w1 d1] ok1] eqn:E1.
  destruct (append_write _ _ _ _ _ _ _ _ _ Hi Hf Hr Hrs E1) as [Hs1 H1].
  destruct ok1; simpl in H.
  2:{ destruct H1 as [f1 H1]. simplify_eq. exists f1. split; [done|]. done. }
  destruct H1 as [f1 H1]. pose proof H1 as [Hi1 Hf1 _ _ Ey1].
  destruct (sync e cur w1 d1) as [[w2 d2] ok2] eqn:E2.
  destruct (append_sync _ _ _ _ _ _ _ _ _ Hi1 Hf1 E2) as (Hs2 & f2 & H2 & Hok2).
  pose proof (cur_step_trans _ _ _ _ _ _ _ _ _ _ _ _ H1 H2) as H12.
  destruct (w_syncOnWrite w1) eqn:Esw.
  - destruct ok2; simplify_eq; exists f2; split_and!; try done; try lia. auto.
  - destruct (w_syncInterval w1 <? _); simplify_eq.
    + exists f2. split_and!; [done|lia|congruence].
    + exists f1. split_and!; [done|lia|congruence].
Qed.

Lemma attempts_more d cur att r : attempts d cur att `prefix_of` attempts d cur att ++ [r].
Proof. by apply prefix_app_r. Qed.

(** A step on the current file attempts what its invariant says. *)
Lemma cur_step_attempts w d cur f w' d' att att' f' r :
  cur_step w d cur f w' d' att' f' -> att' `prefix_of` att ++ [r] ->
  wal_inv w' d' cur att' /\ attempts d' cur att' `prefix_of` attempts d cur att ++ [r].
Proof.
  intros [Hi _ Hs _ _] Hp. split; [done|]. unfold attempts.
  unfold dir_recs. rewrite (collect_remove_same_but all_of cur d d' Hs), <- app_assoc.
  by apply prefix_app.
Qed.

(** What one [Append] does, on every path. *)
Lemma Append_spec e ty data w d cur att w' d' res :
  wal_inv w d cur att -> fresh_name e d -> w_seqNum w + 1 < 2 ^ 64 -> in_int64 (now_rec e) ->
  Append e ty data w d = (w', d', res) ->
  (exists cur' att', wal_inv w' d' cur' att' /\
    attempts d' cur' att' `prefix_of` attempts d cur att ++ [append_record e ty data w]) /\
  dur_recs d `prefix_of` dur_recs d' /\
  w_syncOnWrite w' = w_syncOnWrite w /\
  match res with
  | Ok n => n = w_seqNum w + 1 /\ w_seqNum w' = n /\
      (w_syncOnWrite w = true ->
       exists mid, dur_recs d' = dur_recs d ++ mid ++ [append_record e ty data w])
  | Err ErrSync => w_seqNum w' = w_seqNum w + 1
  | Err _ => w_seqNum w' = w_seqNum w
  end.
Proof.
  intros Hi Hfr Hb Ht H. unfold Append in H.
  destruct (w_closed w); [simplify_eq; by eauto 10 using attempts_more|].
  destruct (MaxRecordSize <? Zlength data) eqn:El; [simplify_eq; by eauto 10 using attempts_more|]. b2p.
  destruct (wi_cur _ _ _ _ Hi) as (f & Hf & Hc).
  destruct (wal_dir_recs _ _ _ _ _ Hi Hf) as [_ Hdur].
  rewrite (wi_file _ _ _ _ Hi) in H. cbn [default] in H.
  pose proof (wi_seq _ _ _ _ Hi) as Hseq.
  rewrite (uint64_small (w_seqNum w + 1)) in H by (unfold in_uint in *; lia).
  pose proof (fun w' d' ok => append_body e ty data w d cur att f w' d' ok Hi Hf Hb Ht El) as Hbody.
  cbv zeta in Hbody. destruct (writeRecord _ _ _ _) as [[w1 d1] ok1] eqn:E1.
  destruct (writeRecord_spec _ _ _ _ _ _ _ _ Hf E1) as (s1 & _ & _ & _ & _ & Ew1).
  assert (w_seqNum w1 = w_seqNum w + 1) as Es1 by (by rewrite Ew1). clear Ew1 s1 E1.
  destruct ok1; simpl in H, Hbody.
  2:{ rewrite Es1, Z.add_simpl_r, uint64_small in H by done.
      destruct (Hbody _ _ _ eq_refl) as (f1 & H1 & Hs1). simplify_eq.
      split_and!; [|by eapply cur_step_durable|apply H1|done].
      eexists _, _. eapply cur_step_attempts; [exact H1|]. by apply prefix_app_r. }
  destruct (if w_syncOnWrite w1 then _ else _) as [[w2 d2] ok2].
  specialize (Hbody _ _ _ eq_refl). destruct ok2; simpl in H.
  2:{ destruct Hbody as (f2 & H2 & Hs2). simplify_eq.
      split_and!; [|by eapply cur_step_durable|apply H2|done].
      eexists _, _. by eapply cur_step_attempts. }
  destruct Hbody as (f2 & H2 & Hs2 & Hdur2).
  destruct (cur_step_durable _ _ _ _ _ _ _ _ _ Hi Hf H2) as [Er Hpre].
  pose proof H2 as [Hi2 Hf2 Hsb2 _ Esy2].
  destruct (wal_dir_recs _ _ _ _ _ Hi2 Hf2) as [_ Hd2]. rewrite Er in Hd2.
  assert (durable_of f `prefix_of` att) as Hatt.
  { etrans; [by eapply durable_prefix, cur_good; [apply Hi|]|by eapply cur_reads; [apply Hi|]]. }
  destruct (w_maxFileSize w2 <=? w_currentSize w2).
  - destruct (openNewFile e w2 d2) as [[w3 d3] ok3] eqn:E3. simplify_eq.
    assert (fresh_name e d2) as Hfr2.
    { intros n Hn. apply Hfr. destruct (decide (n = cur)) as [->|]; [apply Hi|].
      by rewrite <- (is_log_same_but cur d d2). }
    destruct (openNewFile_spec _ _ _ _ _ _ _ _ _ Hi2 Hf2 Hfr2 E3)
      as (cur' & att' & f3 & Hi3 & Hg3 & Hp3 & Hd3 & Ha3 & Es3 & Esy3). rewrite Er in Hd3.
    assert (dur_recs d2 `prefix_of` dur_recs d') as Hpre3.
    { rewrite Hd2, Hd3. apply prefix_app, Hg3. }
    split_and!; [|by etrans|congruence|lia|done|].
    { exists cur', att'. split; [done|]. etrans; [exact Ha3|]. by eapply cur_step_attempts. }
    intros Hsw. specialize (Hdur2 Hsw).
    assert (durable_of f3 = att ++ [append_record e ty data w]) as E.
    { apply (anti_symm prefix); [done|]. rewrite <- Hdur2. apply Hg3. }
    rewrite Hd3, E, Hdur. destruct Hatt as [k ->]. exists k. by rewrite <- !app_assoc.
  - simplify_eq. split_and!; [|done|done|done|done|].
    { eexists _, _. by eapply cur_step_attempts. }
    intros Hsw. specialize (Hdur2 Hsw). rewrite Hd2, Hdur2, Hdur.
    destruct Hatt as [k ->]. exists k. by rewrite <- !app_assoc.
Qed.

(** ** Directories with less in them *)

Lemma StronglySorted_sublist {A} (R : relation A) l k :
  l `sublist_of` k -> StronglySorted R k -> StronglySorted R l.
Proof.
  induction 1 as [|x l k Hlk IH|x l k Hlk IH]; intros Hs; [done|..]; inversion Hs; subst.
  - constructor; [auto|]. rewrite Forall_forall in *. intros y Hy.
    eapply sublist_subseteq in Hlk. auto.
  - auto.
Qed.

Lemma join_filter_sublist {A B} (h h' : A -> list B) (P : A -> bool) l :
  (forall x, x ∈ l -> P x = true -> h' x `sublist_of` h x) ->
  mjoin (h' <$> List.filter P l) `sublist_of` mjoin (h <$> l).
Proof.
  induction l as [|x l IH]; intros H; [done|]. simpl.
  assert (mjoin (h' <$> List.filter P l) `sublist_of` mjoin (h <$> l)) as Hl
    by (apply IH; intros; apply H; [by right|done]).
  destruct (P x) eqn:E; simpl.
  - apply sublist_app; [|done]. apply H; [by left|done].
  - by apply sublist_inserts_l.
Qed.

(** [d'] has no log file [d] does not have, and no more in any of them. *)
Lemma collect_sublist g d d' :
  (forall n f', is_log d' n = true -> get_file d' n = Some f' ->
     exists f, is_log d n = true /\ get_file d n = Some f /\ g f' `sublist_of` g f) ->
  collect g d' `sublist_of` collect g d.
Proof.
  intros H. unfold collect.
  assert (listWALFiles d' = List.filter (is_log d') (listWALFiles d)) as ->.
  { apply listWALFiles_unique.
    - apply StronglySorted_filter_bool, listWALFiles_sorted.
    - apply NoDup_filter_bool, listWALFiles_NoDup.
    - intros n. rewrite elem_of_filter_bool, elem_of_listWALFiles. split; [by intros [_ ?]|].
      intros Hn. split; [|done]. destruct (is_log_file _ _ Hn) as [f' Hf'].
      by destruct (H n f' Hn Hf') as (f & ? & _). }
  apply join_filter_sublist. intros n _ Hn. destruct (is_log_file _ _ Hn) as [f' Hf'].
  destruct (H n f' Hn Hf') as (f & _ & Hf & Hs). by rewrite Hf, Hf'.
Qed.

(** ** Truncate *)

(** What [Truncate] may do to a directory: drop files other than the current
    one. When no read breaks off in the middle ([P]), the records of those
    files all have sequence numbers up to the bound. *)
Definition truncated (P : Prop) (cur : option string) (bound : Z) (d d' : disk) : Prop :=
  forall n, entries d' !! n = entries d !! n \/
    (entries d' !! n = None /\ is_log d n = true /\ cur <> Some n /\
     (P -> exists m, getFileMaxSequence RdWhole (file_bytes d n) = Ok m /\ m <= bound)).

Lemma Truncate_truncated rd rm bound w d d' ok :
  Truncate rd rm bound w d = (d', ok) -> truncated (uncut rd) (w_file w) bound d d'.
Proof.
  unfold Truncate. destruct (rd_dir rd); simpl; intros H; simplify_eq; [|by left].
  assert (forall l d1, (forall n, n ∈ l -> is_log d n = true) -> truncated (uncut rd) (w_file w) bound d d1 ->
    truncated (uncut rd) (w_file w) bound d (foldl (truncate_file rd rm bound w) d1 l)) as Hind.
  { induction l as [|x l IH]; intros d1 Hl Ht; [done|]. simpl.
    apply IH; [intros; apply Hl; by right|]. unfold truncate_file.
    case_bool_decide as Hc; [done|].
    destruct (getFileMaxSequence (rd_file rd x) (file_bytes d1 x)) as [m|] eqn:Em; [|done].
    destruct ((m <=? bound) && rm x) eqn:Eb; [|done]. b2p.
    intros n. unfold remove. simpl. destruct (decide (n = x)) as [->|].
    - rewrite lookup_delete_eq. destruct (Ht x) as [E|(E & ? & ? & ?)]; [|right; eauto].
      right. split_and!; [done|apply Hl; by left|done|]. intros Hu. exists m. split; [|done].
      assert (rd_file rd x = RdWhole) as Ew.
      { specialize (Hu x). destruct (rd_file rd x) as [| |k]; [done|done|by destruct (Hu k)]. }
      rewrite Ew in Em. rewrite <- Em. unfold file_bytes, get_file. by rewrite E.
    - rewrite lookup_delete_ne by done. apply Ht. }
  apply Hind; [|by left]. intros n. by rewrite elem_of_listWALFiles.
Qed.

Lemma max_seq_bound bs m r : getFileMaxSequence RdWhole bs = Ok m -> r ∈ recs_of bs -> SeqNum r <= m.
Proof.
  unfold getFileMaxSequence, recs_of. simpl. destruct (read_file bs) as [rs|]; [|done].
  intros [= <-] Hr. apply max_list_ge. by apply list_elem_of_fmap_2.
Qed.

Lemma truncated_keeps (P : Prop) g cur bound d d' r :
  (forall n f, is_log d n = true -> get_file d n = Some f -> g f ⊆ all_of f) ->
  P -> truncated P cur bound d d' -> r ∈ collect g d -> bound < SeqNum r -> r ∈ collect g d'.
Proof.
  intros Hg HP Ht (n & f & Hl & Hf & Hr)%elem_of_collect Hb. apply elem_of_collect.
  destruct (Ht n) as [E|(_ & _ & _ & Hm')]; [|destruct (Hm' HP) as (m & Hm & Hle)].
  - exists n, f. unfold is_log, get_file in *. by rewrite E.
  - exfalso. assert (SeqNum r <= m); [|lia]. eapply max_seq_bound; [done|].
    unfold file_bytes. rewrite Hf. apply (Hg n f Hl Hf), Hr.
Qed.

Lemma truncated_lookup P cur bound d d' n f :
  truncated P cur bound d d' -> get_file d' n = Some f -> get_file d n = Some f.
Proof. intros Ht. unfold get_file. by destruct (Ht n) as [-> |[-> _]]. Qed.

Lemma truncated_is_log P cur bound d d' n :
  truncated P cur bound d d' -> is_log d' n = true -> is_log d n = true.
Proof. intros Ht. unfold is_log. by destruct (Ht n) as [-> |[-> _]]. Qed.

Lemma truncated_inv P w bound d d' cur att :
  wal_inv w d cur att -> truncated P (w_file w) bound d d' -> wal_inv w d' cur att.
Proof.
  intros Hi Ht. pose proof Hi as []. rewrite wi_file0 in Ht.
  assert (entries d' !! cur = entries d !! cur) as Ecur.
  { destruct (Ht cur) as [E|(_ & _ & E & _)]; done. }
  assert (dir_recs (remove cur d') `sublist_of` dir_recs (remove cur d)) as Hsub.
  { apply collect_sublist. intros n f' Hn Hf'. rewrite is_log_remove in Hn.
    case_bool_decide; [done|]. exists f'. rewrite is_log_remove, bool_decide_false by done.
    unfold get_file, remove in *. simpl in *. rewrite lookup_delete_ne in * by done.
    split_and!; [by eapply truncated_is_log| |done].
    destruct (Ht n) as [E|[E _]]; [by rewrite <- E|by rewrite E in Hf']. }
  split; auto.
  - unfold is_log in *. by rewrite Ecur.
  - intros n Hn Hne. destruct (wi_newest0 n) as [?|Hp]; [by eapply truncated_is_log|done|by left|].
    right. unfold file_bytes in *. destruct (is_log_file _ _ Hn) as [f Hf]. rewrite Hf.
    by rewrite (truncated_lookup _ _ _ _ _ _ _ Ht Hf) in Hp.
  - destruct wi_cur0 as (f & Hf & Hc). exists f. unfold get_file in *. by rewrite Ecur.
  - intros n f Hn Hne Hf. eapply wi_good0; [by eapply truncated_is_log|done|].
    by eapply truncated_lookup.
  - eapply StronglySorted_sublist; [|exact wi_sorted0]. rewrite !fmap_app.
    apply sublist_app; [|done]. by apply fmap_sublist.
  - rewrite Forall_forall in *. intros r Hr. apply wi_below0.
    eapply elem_of_sublist; [exact Hr|]. by apply sublist_app.
Qed.

(** ** Crashes *)

Lemma prefix_sublist {A} (l k : list A) : l `prefix_of` k -> l `sublist_of` k.
Proof. intros [q ->]. by apply sublist_inserts_r. Qed.

Lemma crash_file d d' n f' :
  crash d d' -> get_file d' n = Some f' ->
  exists f m, get_file d n = Some f /\ (synced f <= m)%nat /\ content f' = take m (content f).
Proof.
  intros H. specialize (H n). unfold get_file.
  destruct (entries d !! n) as [[|f]|], (entries d' !! n) as [[|f2]|]; try done.
  destruct H as ((m & ? & ?) & _). intros [= <-]. eauto.
Qed.

Lemma crash_is_log d d' n : crash d d' -> is_log d' n = true -> is_log d n = true.
Proof.
  intros H. rewrite !is_log_iff. intros [[f' Hf'] He]. split; [|done].
  destruct (crash_file _ _ _ _ H Hf') as (f & m & -> & _). eauto.
Qed.

Lemma crash_sublist d d' : dir_inv d -> crash d d' -> dir_recs d' `sublist_of` dir_recs d.
Proof.
  intros [Hg Hs] Hc. apply collect_sublist.
  intros n f' Hn Hf'. destruct (crash_file _ _ _ _ Hc Hf') as (f & m & Hf & _ & E).
  pose proof (crash_is_log _ _ _ Hc Hn) as Hl. exists f. split_and!; [done..|].
  apply prefix_sublist, recs_of_mono; [by eapply Hg|]. rewrite E. apply take_prefix.
Qed.

Lemma crash_dir_inv d d' : dir_inv d -> crash d d' -> dir_inv d'.
Proof.
  intros [Hg Hs] Hc. split.
  - intros n f' Hn Hf'. destruct (crash_file _ _ _ _ Hc Hf') as (f & m & Hf & _ & ->).
    eapply good_prefix; [apply take_prefix|]. eapply Hg; [by eapply crash_is_log|done].
  - eapply StronglySorted_sublist; [|exact Hs]. by apply fmap_sublist, crash_sublist.
Qed.

(** What is durable is readable after any crash. *)
Lemma crash_keeps d d' r : dir_inv d -> crash d d' -> r ∈ dur_recs d -> r ∈ dir_recs d'.
Proof.
  intros [Hg _] Hc (n & f & Hl & Hf & Hr)%elem_of_collect. apply elem_of_collect.
  pose proof (Hc n) as Hn. pose proof Hf as Hf0. unfold get_file in Hf0.
  destruct (entries d !! n) as [[|f0]|]; simplify_eq.
  destruct (entries d' !! n) as [[|f']|] eqn:E'; try done.
  - destruct Hn as ((m & Hm & Ec) & _). exists n, f'.
    assert (get_file d' n = Some f') as Hf' by (unfold get_file; by rewrite E').
    split_and!; [|done|].
    + apply is_log_iff. split; [by rewrite Hf'|]. by apply is_log_iff in Hl as [_ ?].
    + eapply elem_of_prefix; [exact Hr|]. apply recs_of_mono.
      * rewrite Ec. eapply good_prefix; [apply take_prefix|]. by eapply Hg.
      * rewrite Ec. by apply take_prefix_le.
  - unfold durable_of in Hr. rewrite Hn, take_0, recs_of_header in Hr by apply prefix_nil.
    by apply elem_of_nil in Hr.
Qed.

(** After a crash, whatever is readable is durable. *)
Lemma crash_all_durable d d' : crash d d' -> dur_recs d' = dir_recs d'.
Proof.
  intros Hc. unfold dur_recs, dir_recs, collect. f_equal. apply list_fmap_ext.
  intros i n Hi%list_elem_of_lookup_2%elem_of_listWALFiles.
  destruct (is_log_file _ _ Hi) as [f Hf]. rewrite Hf. simpl. unfold durable_of, all_of.
  specialize (Hc n). unfold get_file in Hf.
  destruct (entries d' !! n) as [[|f']|]; simplify_eq.
  destruct (entries d !! n) as [[|f0]|]; try done. destruct Hc as [_ ->]. by rewrite firstn_all.
Qed.

(** ** Opening an existing directory *)

Lemma findLastSequence_max rd d :
  whole rd -> findLastSequence rd d = max_list (SeqNum <$> dir_recs d).
Proof.
  intros Hw. unfold findLastSequence, dir_recs, collect.
  assert (forall l acc, 0 <= acc ->
    foldl (fun acc name => match getFileMaxSequence (rd_file rd name) (file_bytes d name) with
                           | Err _ => acc | Ok seq => if acc <? seq then seq else acc end) acc l =
    Z.max acc (max_list (SeqNum <$> mjoin ((fun n => from_option all_of [] (get_file d n)) <$> l)))) as H.
  { induction l as [|n l IH]; intros acc Hacc; [simpl; unfold max_list; simpl; lia|].
    simpl. rewrite fmap_app, max_list_app.
    assert (match getFileMaxSequence (rd_file rd n) (file_bytes d n) with
            | Err _ => acc | Ok seq => if acc <? seq then seq else acc end =
            Z.max acc (max_list (SeqNum <$> from_option all_of [] (get_file d n)))) as ->.
    { rewrite Hw. unfold getFileMaxSequence, file_bytes. destruct (get_file d n) as [f|]; simpl.
      - unfold all_of, recs_of. destruct (read_file (content f)); simpl.
        + destruct (Z.ltb_spec acc (max_list (SeqNum <$> a))); lia.
        + unfold max_list. simpl. lia.
      - destruct (Z.ltb_spec acc (max_list [])); unfold max_list in *; simpl in *; lia. }
    rewrite IH by lia. symmetry. apply Z.max_assoc. }
  rewrite H by lia. pose proof (max_list_nonneg (SeqNum <$>
    mjoin ((fun n => from_option all_of [] (get_file d n)) <$> listWALFiles d))). lia.
Qed.

Lemma dir_recs_wf d : dir_inv d -> Forall wf_record (dir_recs d).
Proof.
  intros [Hg _]. rewrite Forall_forall. intros r (n & f & Hl & Hf & Hr)%elem_of_collect.
  eapply Forall_forall; [|exact Hr]. apply recs_of_wf. by eapply Hg.
Qed.

Lemma last_sequence_range rd d : whole rd -> dir_inv d -> in_uint 64 (findLastSequence rd d).
Proof.
  intros Hw Hd. rewrite findLastSequence_max by done.
  destruct (max_list_in (SeqNum <$> dir_recs d)) as [-> |H]; [unfold in_uint; lia|].
  apply list_elem_of_fmap in H as (r & -> & Hr).
  pose proof (dir_recs_wf d Hd) as Hf. rewrite Forall_forall in Hf. apply (wf_seq r), Hf, Hr.
Qed.

(** The number found is at least that of every record in a file that could be
    read, whatever happened to the others. *)
Lemma findLastSequence_ge rd d n f r :
  is_log d n = true -> get_file d n = Some f -> rd_file rd n = RdWhole -> r ∈ all_of f ->
  SeqNum r <= findLastSequence rd d.
Proof.
  intros Hl Hf Hn Hr. unfold findLastSequence.
  assert (forall l acc, acc <= foldl (fun acc name =>
    match getFileMaxSequence (rd_file rd name) (file_bytes d name) with
    | Err _ => acc | Ok seq => if acc <? seq then seq else acc end) acc l) as Hmono.
  { induction l as [|x l IH]; intros acc; simpl; [lia|]. etrans; [|apply IH].
    destruct (getFileMaxSequence _ _) as [m|]; [|lia]. destruct (Z.ltb_spec acc m); lia. }
  apply elem_of_listWALFiles, list_elem_of_split in Hl as (l1 & l2 & ->).
  rewrite foldl_app. simpl. etrans; [|apply Hmono].
  destruct (getFileMaxSequence (rd_file rd n) (file_bytes d n)) as [m|] eqn:Em; rewrite Hn in Em.
  - assert (SeqNum r <= m); [|case_match; b2p; lia].
    eapply max_seq_bound; [exact Em|]. unfold file_bytes. by rewrite Hf.
  - unfold getFileMaxSequence, file_bytes in Em. rewrite Hf in Em. simpl in Em.
    unfold all_of, recs_of in Hr. destruct (read_file (content f)); [done|by apply elem_of_nil in Hr].
Qed.

(** [New] on any directory of log files, as a crash may leave it. *)
Lemma New_spec e mk rd now cfg d d' res :
  dir_inv d -> fresh_name e d -> New e mk rd now cfg d = (d', res) ->
  dir_recs d' = dir_recs d /\ dur_recs d' = dur_recs d /\
  match res with
  | Ok w => w_seqNum w = findLastSequence rd d /\ w_syncOnWrite w = cfg_SyncOnWrite cfg /\
      (whole rd -> wal_inv w d' (wal_name (now_open e)) [])
  | Err _ => True
  end.
Proof.
  intros Hd Hfr H. unfold New in H.
  destruct mk; simpl in H; [|by simplify_eq]. destruct (rd_dir rd); simpl in H; [|by simplify_eq].
  unfold openNewFile in H.
  destruct (if open_ok e then _ else _) as [d1|] eqn:Ecr; [|by simpl in H; simplify_eq].
  destruct (open_ok e); [|done].
  destruct (file_write (wal_name (now_open e)) file_header d1) as [[d2 n] ok2] eqn:Ew.
  destruct (create_spec _ _ _ _ _ _ Hfr Ecr Ew) as (fn & Hfn & Hcn & Hsn & Hokn & Hno & Hsb & Hln & Hab).
  assert (forall g, header_blind g -> collect g d2 = collect g d) as Hcol.
  { intros g Hg. by apply (collect_new g e d d2 fn). }
  assert (d' = d2) as -> by (destruct ok2; simpl in H; by simplify_eq).
  split_and!; [apply Hcol, all_of_blind|apply Hcol, durable_of_blind|].
  destruct ok2; simpl in H; simplify_eq; [|done].
  assert (dir_recs (remove (wal_name (now_open e)) d2) = dir_recs d) as Er.
  { apply collect_ext. intros m. unfold remove. simpl.
    destruct (decide (m = wal_name (now_open e))) as [->|]; [by rewrite lookup_delete_eq|].
    by rewrite lookup_delete_ne, Hsb. }
  split_and!; [done..|]. intros Hw. split; simpl; auto.
  - exists fn. split; [done|]. specialize (Hokn eq_refl). split; simpl.
    + exists []. split; [apply torn_nil|]. rewrite Hokn. by apply prefix_app_r.
    + intros _. by rewrite Hokn.
    + done.
  - intros m f Hm Hne Hf. rewrite (same_but_get (wal_name (now_open e)) d d2) in Hf by done.
    rewrite (is_log_same_but (wal_name (now_open e)) d d2) in Hm by done. by eapply di_good.
  - by apply last_sequence_range.
  - rewrite app_nil_r, Er. apply Hd.
  - rewrite app_nil_r, Er, Forall_forall. intros r Hr. rewrite findLastSequence_max by done.
    apply max_list_ge. by apply list_elem_of_fmap_2.
Qed.

(** ** Close and Replay *)

Lemma close_spec e w d cur att w' d' :
  wal_inv w d cur att -> Close e w d = (w', d') ->
  wal_inv w' d' cur att /\ dur_recs d `prefix_of` dur_recs d' /\
  w_closed w' = true /\ w_syncOnWrite w' = w_syncOnWrite w.
Proof.
  intros Hi H. unfold Close in H. destruct (w_closed w) eqn:Ecl; [by simplify_eq|].
  pose proof Hi as []. destruct wi_cur0 as (f & Hf & Hc).
  cbn [with_closed w_file w_buf w_err] in H. rewrite wi_file0 in H.
  destruct (cur_flush w f att d cur wi_wf0 Hc Hf) as (f' & Hf' & Hs & Hc' & Hg & _ & _).
  set (s := bufio_flush _ _) in *. clearbody s.
  assert (exists f2, cur_step w d cur f w' d' att f2 /\ w_closed w' = true) as (f2 & H2 & Hcl).
  { destruct (fsync_ok e); simplify_eq.
    - unfold file_sync. rewrite Hf'. exists (mkFile (content f') (length (content f'))).
      split; [|done]. split; [|apply get_set_file| | |done].
      + rewrite <- (app_nil_r att). eapply wal_inv_update; try done; try by constructor.
        * eapply same_but_trans; [exact Hs|apply same_but_set].
        * apply get_set_file.
        * rewrite app_nil_r. destruct Hc'. by split.
      + eapply same_but_trans; [exact Hs|apply same_but_set].
      + eapply grows_trans; [exact Hg|]. apply grows_content; auto. exact (cur_good _ f' att wi_wf0 Hc').
    - exists f'. split; [|done]. split; auto.
      rewrite <- (app_nil_r att). eapply wal_inv_update; try done; try by constructor.
      rewrite app_nil_r. destruct Hc'. by split. }
  split_and!; [apply H2|by eapply cur_step_durable|done|apply H2].
Qed.

Lemma replay_records_total {S} (h : S -> Record_ -> S * bool) s rs :
  (forall s r, (h s r).2 = true) -> replay_records h s rs = foldl (fun s r => (h s r).1) s rs.
Proof.
  intros Hh. revert s. induction rs as [|r rs IH]; intros s; [done|]. simpl.
  specialize (Hh s r). destruct (h s r) as [s' ok]. simpl in *. subst. apply IH.
Qed.

(** A handler that reports no error sees exactly the readable records, in
    listing order. *)
Lemma replay_total {S} (h : S -> Record_ -> S * bool) d s :
  (forall s r, (h s r).2 = true) ->
  Replay all_read h d s = (foldl (fun s r => (h s r).1) s (dir_recs d), true).
Proof.
  intros Hh. unfold Replay. simpl. f_equal. unfold dir_recs, collect.
  generalize (listWALFiles d). intros l. revert s.
  induction l as [|n l IH]; intros s; [done|].
  rewrite fmap_cons. simpl. rewrite IH, foldl_app. f_equal.
  unfold replayFile, file_bytes. destruct (get_file d n) as [f|]; simpl; [|done].
  unfold all_of, recs_of. destruct (read_file (content f)); [|done]. by apply replay_records_total.
Qed.
