(* ===== verification/DurableLog.v ===== *)
(** * What a buffer relies on: a durable log

    The buffers (internal/buffer) keep their unflushed rows in a write-ahead
    log. This file states what they rely on as a class, so that their theorems
    are proved against the interface, and shows that the log of
    internal/wal/wal.go keeps the promise. *)

From S2P Require Import Prelude GoStrings WalCodec Wal WalLemmas WalProofs.

(** [L] is an open log together with its disk, [D] the disk a restart finds.
    [log_records] is what a replay delivers now, [log_durable] what is sure to
    be delivered after a crash; in a [log_clean] log nothing is pending. *)
Class DurableLog (L D : Type) := {
  log_append : Env -> Z -> list Z -> L -> L * result wal_error Z;
  log_truncate : reads -> (string -> bool) -> Z -> L -> L * bool;
  log_replay : forall S : Type, reads -> (S -> Record_ -> S * bool) -> L -> S -> S * bool;
  log_open : Env -> bool -> reads -> Z -> Config -> D -> D * result wal_error L;
  log_close : Env -> L -> L;
  log_crash : L -> D -> Prop;

  log_inv : L -> Prop;
  log_clean : L -> Prop;
  disk_inv : D -> Prop;
  log_env_ok : Env -> L -> Prop;
  open_env_ok : Env -> D -> Prop;
  log_records : L -> list Record_;
  log_durable : L -> list Record_;
  disk_records : D -> list Record_;
}.
Arguments log_replay {L D _ S}.

Class DurableLogLaws (L D : Type) `{DurableLog L D} : Prop := {
  (* an acknowledged record is durable under the number returned; no outcome
     loses a durable record *)
  append_law e ty data l l' res :
    log_inv l -> log_env_ok e l -> log_append e ty data l = (l', res) ->
    log_inv l' /\ log_durable l ⊆ log_durable l' /\
    match res with
    | Ok n => exists ts, mkRecord n ty ts data ∈ log_durable l'
    | Err _ => True
    end;
  (* without earlier failures the record is all that is added *)
  append_clean_law e ty data l l' n :
    log_inv l -> log_clean l -> log_env_ok e l -> log_append e ty data l = (l', Ok n) ->
    log_clean l' /\ exists ts, log_records l' = log_records l ++ [mkRecord n ty ts data];
  clean_law l : log_inv l -> log_clean l -> log_records l = log_durable l;
  (* truncation releases nothing above its bound, unless a read breaks off *)
  truncate_law rd rm bound l l' ok :
    log_inv l -> log_truncate rd rm bound l = (l', ok) ->
    log_inv l' /\ forall r, uncut rd -> r ∈ log_durable l -> bound < SeqNum r -> r ∈ log_durable l';
  (* a replay with a handler that does not fail visits the records in order *)
  replay_law (S : Type) (h : S -> Record_ -> S * bool) l s :
    (forall s r, (h s r).2 = true) ->
    log_replay all_read h l s = (foldl (fun s r => (h s r).1) s (log_records l), true);
  crash_law l d :
    log_inv l -> log_crash l d -> disk_inv d /\ log_durable l ⊆ disk_records d;
  (* with nothing pending, a crash loses nothing *)
  crash_clean_law l d :
    log_inv l -> log_clean l -> log_crash l d -> disk_records d = log_records l;
  open_law e mk rd now cfg d d' l :
    disk_inv d -> open_env_ok e d -> whole rd -> cfg_SyncOnWrite cfg = true ->
    log_open e mk rd now cfg d = (d', Ok l) ->
    log_inv l /\ log_clean l /\ log_records l = disk_records d /\ disk_records d ⊆ log_durable l;
  close_law e l : log_inv l -> log_inv (log_close e l) /\ log_durable l ⊆ log_durable (log_close e l);
  records_sorted l : log_inv l -> StronglySorted Z.lt (SeqNum <$> log_records l);
}.

(** ** The write-ahead log as a durable log *)

Record wal_state := mkWalState { ws_wal : WAL; ws_disk : disk }.

Definition wal_state_inv (l : wal_state) : Prop :=
  (exists cur att, wal_inv (ws_wal l) (ws_disk l) cur att) /\ w_syncOnWrite (ws_wal l) = true.

(** Everything ever written to the log is durable. *)
Definition wal_state_clean (l : wal_state) : Prop :=
  exists cur att, wal_inv (ws_wal l) (ws_disk l) cur att /\
    attempts (ws_disk l) cur att = dur_recs (ws_disk l).

#[export] Instance wal_durable_log : DurableLog wal_state disk := {|
  log_append e ty data l :=
    let '(w, d, res) := Append e ty data (ws_wal l) (ws_disk l) in (mkWalState w d, res);
  log_truncate rd rm bound l :=
    let '(d, ok) := Truncate rd rm bound (ws_wal l) (ws_disk l) in (mkWalState (ws_wal l) d, ok);
  log_replay S rd h l s := Replay rd h (ws_disk l) s;
  log_open e mk rd now cfg d :=
    let '(d, res) := New e mk rd now cfg d in
    (d, match res with Ok w => Ok (mkWalState w d) | Err er => Err er end);
  log_close e l := let '(w, d) := Close e (ws_wal l) (ws_disk l) in mkWalState w d;
  log_crash l d := crash (ws_disk l) d;
  log_inv := wal_state_inv;
  log_clean := wal_state_clean;
  disk_inv d := dir_inv d /\ dur_recs d = dir_recs d;
  log_env_ok e l :=
    fresh_name e (ws_disk l) /\ w_seqNum (ws_wal l) + 1 < 2 ^ 64 /\ in_int64 (now_rec e);
  open_env_ok := fresh_name;
  log_records l := dir_recs (ws_disk l);
  log_durable l := dur_recs (ws_disk l);
  disk_records := dir_recs;
|}.

Lemma prefix_subseteq {A} (l k : list A) : l `prefix_of` k -> l ⊆ k.
Proof. intros H x Hx. by eapply elem_of_prefix. Qed.

Lemma durable_subset d : dir_inv d ->
  forall n f, is_log d n = true -> get_file d n = Some f -> durable_of f ⊆ all_of f.
Proof.
  intros [Hg _] n f Hl Hf. apply prefix_subseteq, durable_prefix. by eapply Hg.
Qed.

Lemma wal_append_law e ty data (l l' : wal_state) res :
  log_inv l -> log_env_ok e l -> log_append e ty data l = (l', res) ->
  log_inv l' /\ log_durable l ⊆ log_durable l' /\
  match res with Ok n => exists ts, mkRecord n ty ts data ∈ log_durable l' | Err _ => True end.
Proof.
  intros [(cur & att & Hi) Hs] (Hf & Hn & Ht) H. simpl in H.
  destruct (Append e ty data (ws_wal l) (ws_disk l)) as [[w d] r] eqn:E. simplify_eq.
  destruct (Append_spec _ _ _ _ _ _ _ _ _ _ Hi Hf Hn Ht E) as (Hi' & Hp & Hs' & Hr).
  split; [|split].
  - split; simpl; [|congruence]. destruct Hi' as (cur' & att' & Hi' & _). by eauto.
  - by apply prefix_subseteq.
  - destruct res as [n|]; [|done]. destruct Hr as (-> & _ & Hm). destruct (Hm Hs) as [mid Em].
    exists (now_rec e). simpl. rewrite Em. rewrite !elem_of_app. right; right.
    unfold append_record. rewrite uint64_small; [by apply list_elem_of_singleton|].
    pose proof (wi_seq _ _ _ _ Hi). unfold in_uint in *. lia.
Qed.

Lemma dur_sublist_dir d : dir_inv d -> dur_recs d `sublist_of` dir_recs d.
Proof.
  intros [Hg _]. unfold dur_recs, dir_recs, collect.
  assert (Forall (fun n => is_log d n = true) (listWALFiles d)) as Hl.
  { apply Forall_forall. intros n. apply elem_of_listWALFiles. }
  induction Hl as [|n l Hn Hl IH]; [done|]. rewrite !fmap_cons. simpl. apply sublist_app; [|done].
  destruct (get_file d n) as [f|] eqn:E; simpl; [|done].
  apply prefix_sublist, durable_prefix. by eapply Hg.
Qed.

Lemma sublist_length_eq {A} (l k : list A) :
  l `sublist_of` k -> (length k <= length l)%nat -> l = k.
Proof.
  induction 1 as [|x l k H IH|x l k H IH]; simpl; intros Hl; [done| |].
  - f_equal. apply IH. lia.
  - apply sublist_length in H. lia.
Qed.

Lemma wal_clean_records (l : wal_state) : wal_state_clean l -> log_records l = log_durable l.
Proof.
  intros (cur & att & Hi & E). simpl. symmetry. apply sublist_length_eq.
  - apply dur_sublist_dir. by eapply wal_dir_inv.
  - destruct (wi_cur _ _ _ _ Hi) as (f & Hf & Hc).
    destruct (wal_dir_recs _ _ _ _ _ Hi Hf) as [Er _].
    rewrite <- E. unfold attempts. rewrite Er, !length_app.
    pose proof (prefix_length _ _ (cur_reads _ _ _ (wi_wf _ _ _ _ Hi) Hc)). lia.
Qed.

Lemma wal_append_clean_law e ty data (l l' : wal_state) n :
  log_inv l -> log_clean l -> log_env_ok e l -> log_append e ty data l = (l', Ok n) ->
  log_clean l' /\ exists ts, log_records l' = log_records l ++ [mkRecord n ty ts data].
Proof.
  intros [_ Hs] Hcl (Hf & Hn & Ht) H. pose proof (wal_clean_records _ Hcl) as El.
  destruct Hcl as (cur & att & Hi & E). simpl in H, El.
  destruct (Append e ty data (ws_wal l) (ws_disk l)) as [[w d] r] eqn:Ea. simplify_eq.
  destruct (Append_spec _ _ _ _ _ _ _ _ _ _ Hi Hf Hn Ht Ea)
    as ((cur' & att' & Hi' & Ha) & _ & _ & -> & _ & Hm).
  destruct (Hm Hs) as [mid Em]. set (r := append_record e ty data (ws_wal l)) in *.
  assert (r = mkRecord (w_seqNum (ws_wal l) + 1) ty (now_rec e) data) as Er.
  { unfold r, append_record. rewrite uint64_small; [done|].
    pose proof (wi_seq _ _ _ _ Hi). unfold in_uint in *. lia. }
  rewrite E in Ha.
  destruct (wi_cur _ _ _ _ Hi') as (f' & Hf' & Hc').
  destruct (wal_dir_recs _ _ _ _ _ Hi' Hf') as [Ed _].
  assert (dir_recs d `prefix_of` attempts d cur' att') as Hpre.
  { rewrite Ed. apply prefix_app. eapply cur_reads; [apply Hi'|done]. }
  pose proof (dur_sublist_dir d (wal_dir_inv _ _ _ _ Hi')) as Hsub.
  assert (attempts d cur' att' = dur_recs d) as Eat.
  { symmetry. apply sublist_length_eq.
    - etrans; [exact Hsub|]. by apply prefix_sublist.
    - rewrite Em, !length_app. apply prefix_length in Ha. rewrite length_app in Ha. simpl in *. lia. }
  assert (wal_state_clean (mkWalState w d)) as Hcl' by (exists cur', att'; by split).
  split; [done|]. exists (now_rec e). rewrite (wal_clean_records _ Hcl'), <- Er. simpl.
  rewrite El. symmetry. apply sublist_length_eq.
  - rewrite Em. apply sublist_app; [done|]. by apply sublist_inserts_l.
  - rewrite <- Eat. by apply prefix_length in Ha.
Qed.

Lemma wal_crash_clean_law (l : wal_state) (d : disk) :
  log_inv l -> log_clean l -> log_crash l d -> disk_records d = log_records l.
Proof.
  intros [(cur & att & Hi) _] Hcl Hc. pose proof (wal_clean_records _ Hcl) as El. simpl in *.
  pose proof (wal_dir_inv _ _ _ _ Hi) as Hd.
  apply sublist_length_eq; [by apply crash_sublist|].
  apply submseteq_length, NoDup_submseteq.
  - apply (NoDup_fmap_1 SeqNum), increasing_NoDup, Hd.
  - intros r Hr. rewrite El in Hr. by eapply crash_keeps.
Qed.

Lemma wal_truncate_law rd rm bound (l l' : wal_state) ok :
  log_inv l -> log_truncate rd rm bound l = (l', ok) ->
  log_inv l' /\ forall r, uncut rd -> r ∈ log_durable l -> bound < SeqNum r -> r ∈ log_durable l'.
Proof.
  intros [(cur & att & Hi) Hs] H. simpl in H.
  destruct (Truncate rd rm bound (ws_wal l) (ws_disk l)) as [d ok'] eqn:E. simplify_eq.
  pose proof (Truncate_truncated _ _ _ _ _ _ _ E) as Ht. split.
  - split; [|done]. exists cur, att. by eapply truncated_inv.
  - intros r Hu Hr Hb. eapply truncated_keeps; [|exact Hu|exact Ht|exact Hr|exact Hb].
    apply durable_subset. by eapply wal_dir_inv.
Qed.

#[export] Instance wal_durable_log_laws : DurableLogLaws wal_state disk.
Proof.
  split.
  - apply wal_append_law.
  - apply wal_append_clean_law.
  - intros l _. apply wal_clean_records.
  - apply wal_truncate_law.
  - intros S h l s Hh. by apply replay_total.
  - intros l d [(cur & att & Hi) _] Hc. simpl in *.
    pose proof (wal_dir_inv _ _ _ _ Hi) as Hd. split; [split|].
    + by eapply crash_dir_inv.
    + by eapply crash_all_durable.
    + intros r Hr. by eapply crash_keeps.
  - apply wal_crash_clean_law.
  - intros e mk rd now cfg d d' l [Hd Hall] Hf Hw Hs H. simpl in H.
    destruct (New e mk rd now cfg d) as [d1 [w|]] eqn:E; simplify_eq.
    destruct (New_spec _ _ _ _ _ _ _ _ Hd Hf E) as (Er & Eu & _ & Hsy & Hi). specialize (Hi Hw). simpl.
    split_and!; [split; simpl; [by eauto|congruence]| |done|by rewrite Eu, Hall].
    exists (wal_name (now_open e)), []. split; [done|]. simpl. rewrite Eu, Hall, <- Er.
    destruct (wi_cur _ _ _ _ Hi) as (f & Hf' & Hc).
    destruct (wal_dir_recs _ _ _ _ _ Hi Hf') as [-> _].
    pose proof (cur_reads _ _ _ (wi_wf _ _ _ _ Hi) Hc) as ->%prefix_nil_inv. done.
  - intros e l [(cur & att & Hi) Hs]. simpl.
    destruct (Close e (ws_wal l) (ws_disk l)) as [w d] eqn:E. simpl.
    destruct (close_spec _ _ _ _ _ _ _ Hi E) as (Hi' & Hp & _ & Hs').
    split; [split|]; simpl; [by eauto|congruence|by apply prefix_subseteq].
  - intros l [(cur & att & Hi) _]. eapply wal_dir_inv. exact Hi.
Qed.
