(* ===== verification/Buffer.v ===== *)
(** * The row buffers (internal/buffer/manager.go, internal/buffer/durable_manager.go)

    [Manager] is the plain in-memory buffer, [DurableManager] the one that
    writes every row to a log before it acknowledges it. Methods that release
    the mutex in the middle ([Flush]) are modelled as the pieces that run under
    the lock, so that other calls can be interleaved between them, together
    with their sequential composition. The [flushCh] channel has capacity one
    and is written with a non-blocking send: it is a boolean. *)

From S2P Require Import Prelude GoStrings WalCodec Wal DurableLog.

Record DataPoint := mkDataPoint { ID : string; Data_ : list Z; Timestamp_ : Z }.

#[export] Instance DataPoint_eq_dec : EqDecision DataPoint.
Proof. solve_decision. Defined.

(** ** The in-memory buffer *)

Module Manager.

Record Manager := mkManager { buffer : list DataPoint; maxSize : Z; flushCh : bool }.

Definition NewManager (max : Z) : Manager := mkManager [] max false.

Definition Add (id : string) (data : list Z) (ts : Z) (m : Manager) : Manager * bool :=
  if maxSize m <=? Zlength (buffer m) then (m, false) else
  let buf := buffer m ++ [mkDataPoint id data ts] in
  (mkManager buf (maxSize m) (if maxSize m <=? Zlength buf then true else flushCh m), true).

(** [Flush]: [None] when there is nothing to flush; otherwise the rows handed
    to the flush function, whose result the caller gets. *)
Definition Flush (m : Manager) : Manager * option (list DataPoint) :=
  match buffer m with
  | [] => (m, None)
  | data => (mkManager [] (maxSize m) (flushCh m), Some data)
  end.

Definition Size (m : Manager) : Z := Zlength (buffer m).
Definition IsFull (m : Manager) : bool := maxSize m <=? Zlength (buffer m).
Definition Clear (m : Manager) : Manager := mkManager [] (maxSize m) (flushCh m).

(** A receive from [FlushChannel]. *)
Definition recv_flushCh (m : Manager) : Manager := mkManager (buffer m) (maxSize m) false.

End Manager.

(** ** The durable buffer *)

Record walRecord := mkWalRecord { wr_ID : string; wr_Data : list Z; wr_Timestamp : Z; wr_Table : string }.

(** What the buffer uses of encoding/json: marshalling may fail (a time
    outside the years it can print), and what was marshalled from valid
    strings unmarshals to the same record. *)
Class WalRecordJSON := {
  json_marshal : walRecord -> option (list Z);
  json_unmarshal : list Z -> option walRecord;
  json_valid : walRecord -> Prop;
  json_roundtrip r bs : json_valid r -> json_marshal r = Some bs -> json_unmarshal bs = Some r;
}.

Inductive add_error := ErrMarshal | ErrWal (e : wal_error).

Module Durable.
Section durable.
Context {L D : Type} {DL : DurableLog L D} {J : WalRecordJSON}.

Record DurableManager := mkDurable {
  buffer : list DataPoint;
  maxSize : Z;
  flushCh : bool;
  wal : L;
  lastFlushedSeq : Z;
  table : string;
}.

Record DurableConfig := mkDurableConfig { MaxSize : Z; Table : string; SyncOnWrite : bool }.

Definition point_of (wr : walRecord) : DataPoint := mkDataPoint (wr_ID wr) (wr_Data wr) (wr_Timestamp wr).

(** The handler [recover] gives to [Replay]. *)
Definition recover_handler (tbl : string) (s : list DataPoint * Z) (record : Record_)
    : (list DataPoint * Z) * bool :=
  let '(buf, last) := s in
  if negb (Type_ record =? RecordTypeData) then (s, true) else
  match json_unmarshal (Data record) with
  | None => (s, true)
  | Some wr =>
      if bool_decide (tbl <> "") && bool_decide (wr_Table wr <> "") && bool_decide (wr_Table wr <> tbl)
      then (s, true)
      else ((buf ++ [point_of wr], if last <? SeqNum record then SeqNum record else last), true)
  end.

(** [recover]: what the handler collected stays, whether or not the replay
    could list the directory. *)
Definition recover (rd : reads) (dm : DurableManager) : DurableManager :=
  let '((buf, last), _) :=
    log_replay rd (recover_handler (table dm)) (wal dm) (buffer dm, lastFlushedSeq dm) in
  mkDurable buf (maxSize dm) (flushCh dm) (wal dm) last (table dm).

Definition NewDurableManager (e : Env) (mkdir_ok : bool) (rd rd2 : reads) (now : Z)
    (cfg : DurableConfig) (d : D) : D * result wal_error DurableManager :=
  let walCfg := mkConfig (SyncOnWrite cfg) (cfg_MaxFileSize DefaultConfig)
                         (cfg_SyncInterval DefaultConfig) in
  let '(d, res) := log_open e mkdir_ok rd now walCfg d in
  match res with
  | Err er => (d, Err er)
  | Ok w => (d, Ok (recover rd2 (mkDurable [] (MaxSize cfg) false w 0 (Table cfg))))
  end.

Definition Add (e : Env) (id : string) (data : list Z) (ts : Z) (dm : DurableManager)
    : DurableManager * result add_error bool :=
  if maxSize dm <=? Zlength (buffer dm) then (dm, Ok false) else
  match json_marshal (mkWalRecord id data ts (table dm)) with
  | None => (dm, Err ErrMarshal)
  | Some walData =>
      let '(w, res) := log_append e RecordTypeData walData (wal dm) in
      match res with
      | Err er => (mkDurable (buffer dm) (maxSize dm) (flushCh dm) w (lastFlushedSeq dm) (table dm),
                   Err (ErrWal er))
      | Ok seqNum =>
          let buf := buffer dm ++ [mkDataPoint id data ts] in
          (mkDurable buf (maxSize dm) (if maxSize dm <=? Zlength buf then true else flushCh dm)
                     w seqNum (table dm), Ok true)
      end
  end.

(** [Flush], the first critical section: the rows taken and [seqBeforeFlush]. *)
Definition Flush_take (dm : DurableManager) : DurableManager * option (list DataPoint * Z) :=
  match buffer dm with
  | [] => (dm, None)
  | data => (mkDurable [] (maxSize dm) (flushCh dm) (wal dm) (lastFlushedSeq dm) (table dm),
             Some (data, lastFlushedSeq dm))
  end.

(** [Flush], when the flush function failed: the rows go back to the front. *)
Definition Flush_restore (data : list DataPoint) (seqBeforeFlush : Z) (dm : DurableManager)
    : DurableManager :=
  mkDurable (data ++ buffer dm) (maxSize dm) (flushCh dm) (wal dm) seqBeforeFlush (table dm).

(** [Flush], after the flush function succeeded: the bound is the field's
    value at this moment. *)
Definition Flush_truncate (rd : reads) (rm_ok : string -> bool) (dm : DurableManager)
    : DurableManager :=
  let '(w, _) := log_truncate rd rm_ok (lastFlushedSeq dm) (wal dm) in
  mkDurable (buffer dm) (maxSize dm) (flushCh dm) w (lastFlushedSeq dm) (table dm).

(** [Flush] with nothing running in between. *)
Definition Flush (rd : reads) (rm_ok : string -> bool) (flushFunc : list DataPoint -> bool)
    (dm : DurableManager) : DurableManager * bool :=
  match Flush_take dm with
  | (dm, None) => (dm, true)
  | (dm, Some (data, seqBeforeFlush)) =>
      if flushFunc data then (Flush_truncate rd rm_ok dm, true)
      else (Flush_restore data seqBeforeFlush dm, false)
  end.

Definition Size (dm : DurableManager) : Z := Zlength (buffer dm).
Definition IsFull (dm : DurableManager) : bool := maxSize dm <=? Zlength (buffer dm).
Definition Clear (dm : DurableManager) : DurableManager :=
  mkDurable [] (maxSize dm) (flushCh dm) (wal dm) (lastFlushedSeq dm) (table dm).
Definition Close (e : Env) (dm : DurableManager) : DurableManager :=
  mkDurable (buffer dm) (maxSize dm) (flushCh dm) (log_close e (wal dm)) (lastFlushedSeq dm) (table dm).

(** ** The buffer as a state machine

    A flush is in flight between its critical sections. [persisted] are the
    rows a flush function accepted, [acked] the rows [Add] acknowledged. With
    [serial] set, nothing else runs while a flush is in flight. *)

Inductive flight := Flying (data : list DataPoint) (seqBeforeFlush : Z) | Flushed.

Record state := mkState {
  dm : DurableManager;
  flights : list flight;
  persisted : list DataPoint;
  acked : list DataPoint;
}.

Definition flight_rows (f : flight) : list DataPoint :=
  match f with Flying data _ => data | Flushed => [] end.

Definition in_flight (s : state) : list DataPoint := mjoin (flight_rows <$> flights s).

Inductive step (serial : bool) : state -> state -> Prop :=
  | step_add e id data ts b fs ps ak b' res :
      (serial = true -> fs = []) ->
      log_env_ok e (wal b) -> json_valid (mkWalRecord id data ts (table b)) ->
      Add e id data ts b = (b', res) ->
      step serial (mkState b fs ps ak)
        (mkState b' fs ps (match res with Ok true => ak ++ [mkDataPoint id data ts] | _ => ak end))
  | step_take b fs ps ak b' data seq :
      (serial = true -> fs = []) ->
      Flush_take b = (b', Some (data, seq)) ->
      step serial (mkState b fs ps ak) (mkState b' (fs ++ [Flying data seq]) ps ak)
  | step_fail b fs1 data seq fs2 ps ak :
      step serial (mkState b (fs1 ++ Flying data seq :: fs2) ps ak)
        (mkState (Flush_restore data seq b) (fs1 ++ fs2) ps ak)
  | step_persist b fs1 data seq fs2 ps ak :
      step serial (mkState b (fs1 ++ Flying data seq :: fs2) ps ak)
        (mkState b (fs1 ++ Flushed :: fs2) (ps ++ data) ak)
  | step_truncate b fs1 fs2 ps ak rd rm :
      step serial (mkState b (fs1 ++ Flushed :: fs2) ps ak)
        (mkState (Flush_truncate rd rm b) (fs1 ++ fs2) ps ak).

(** A crash and a restart with the same table, which reads the files of the
    log without errors; the rows in memory are gone. *)
Inductive restart : state -> state -> Prop :=
  | restart_crash e mk rd now cfg b fs ps ak d d' b' :
      log_crash (wal b) d -> open_env_ok e d -> whole rd -> SyncOnWrite cfg = true -> Table cfg = table b ->
      NewDurableManager e mk rd all_read now cfg d = (d', Ok b') ->
      restart (mkState b fs ps ak) (mkState b' [] ps ak).

End durable.
Arguments DurableManager : clear implicits.
Arguments state : clear implicits.
End Durable.
