(* ===== verification/WalTheorems.v ===== *)
(** * What the write-ahead log promises

    The log as a state machine (appends, truncations, closes, crashes followed
    by a restart), the promise it makes to its clients, and the theorems about
    its format and operations. *)

From S2P Require Import Prelude GoStrings WalCodec Wal WalLemmas WalProofs DurableLog.

(** ** The log as a state machine *)

(** [sys_kept] are the records the log must keep: the acknowledged ones that
    no truncation has released since. *)
Record sys := mkSys { sys_wal : WAL; sys_disk : disk; sys_kept : list Record_ }.

Definition released (bound : Z) (rs : list Record_) : list Record_ :=
  List.filter (fun r => bound <? SeqNum r) rs.

(** Appends with any outcome, truncations, closes and restarts after a crash.
    The conditions: a new file is named by a clock reading above the names
    there are, sequence numbers stay below 2^64, clock readings fit [int64];
    no read of a truncation breaks off midway; a restart opens a log that
    syncs on every write, and reads its files without I/O errors. *)
Inductive sys_step : sys -> sys -> Prop :=
  | step_append e ty data w d kept w' d' res :
      fresh_name e d -> w_seqNum w + 1 < 2 ^ 64 -> in_int64 (now_rec e) ->
      Append e ty data w d = (w', d', res) ->
      sys_step (mkSys w d kept)
        (mkSys w' d' (if is_ok res then kept ++ [append_record e ty data w] else kept))
  | step_truncate rd rm bound w d kept d' ok :
      uncut rd -> Truncate rd rm bound w d = (d', ok) ->
      sys_step (mkSys w d kept) (mkSys w d' (released bound kept))
  | step_close e w d kept w' d' :
      Close e w d = (w', d') ->
      sys_step (mkSys w d kept) (mkSys w' d' kept)
  | step_crash_restart e mk rd now cfg w d kept d1 d' w' :
      crash d d1 -> fresh_name e d1 -> whole rd -> cfg_SyncOnWrite cfg = true ->
      New e mk rd now cfg d1 = (d', Ok w') ->
      sys_step (mkSys w d kept) (mkSys w' d' kept).

(** The promise: an open log with a valid directory, in which every kept
    record is durable. *)
Record sys_inv (s : sys) : Prop := {
  si_wal : exists cur att, wal_inv (sys_wal s) (sys_disk s) cur att;
  si_sync : w_syncOnWrite (sys_wal s) = true;
  si_kept : forall r, r ∈ sys_kept s -> r ∈ dur_recs (sys_disk s);
}.

Lemma sys_step_inv s s' : sys_step s s' -> sys_inv s -> sys_inv s'.
Proof.
  intros Hst [(cur & att & Hi) Hsy Hk]. destruct Hst; simpl in *.
  - edestruct Append_spec as ((cur' & att' & Hi' & _) & Hpre & Hsy' & Hres); [done..|].
    split; simpl; [by eauto|congruence|].
    intros r Hr. destruct res as [n|er]; simpl in Hr.
    + destruct Hres as (_ & _ & Hmid). destruct (Hmid Hsy) as [mid ->].
      rewrite !elem_of_app in *. destruct Hr as [Hr|Hr]; auto.
    + eapply elem_of_prefix; [|exact Hpre]. auto.
  - pose proof (Truncate_truncated _ _ _ _ _ _ _ H0) as Ht.
    split; simpl; [|done|].
    + exists cur, att. by eapply truncated_inv.
    + intros r [Hr Hb]%elem_of_filter_bool. b2p.
      eapply truncated_keeps; [|exact H|exact Ht|by apply Hk|done].
      apply durable_subset. by eapply wal_dir_inv.
  - destruct (close_spec _ _ _ _ _ _ _ Hi H) as (Hi' & Hpre & _ & Hsy').
    split; simpl; [by eauto|congruence|].
    intros r Hr. eapply elem_of_prefix; [|exact Hpre]. auto.
  - pose proof (wal_dir_inv _ _ _ _ Hi) as Hd.
    pose proof (crash_dir_inv _ _ Hd H) as Hd1.
    destruct (New_spec _ _ _ _ _ _ _ _ Hd1 H0 H3) as (_ & Hdur & _ & Hsy' & Hi'). specialize (Hi' H1).
    split; simpl; [by eauto|congruence|].
    intros r Hr. rewrite Hdur, (crash_all_durable d d1 H).
    eapply crash_keeps; [exact Hd|exact H|auto].
Qed.

Lemma sys_run_inv s s' : rtc sys_step s s' -> sys_inv s -> sys_inv s'.
Proof. induction 1; eauto using sys_step_inv. Qed.

(** ** A concrete log *)

(** An empty directory on a disk with a megabyte free. *)
Definition demo_disk : disk := mkDisk ∅ 1000000.
Definition demo_env (t : Z) : Env := mkEnv t t t t true true.
Definition demo_open : disk * result wal_error WAL :=
  New (demo_env 1700000000000000000) true all_read 1700000000000000000 DefaultConfig demo_disk.
Definition demo_wal : WAL :=
  match demo_open.2 with Ok w => w | Err _ => mkWAL None [] true 0 0 true 0 0 0 0 true end.

Lemma is_log_empty n : is_log demo_disk n = false.
Proof. unfold is_log, demo_disk. simpl. by rewrite lookup_empty. Qed.

Lemma demo_dir_inv : dir_inv demo_disk.
Proof.
  split.
  - intros n f Hn. by rewrite is_log_empty in Hn.
  - unfold dir_recs, collect. rewrite (listWALFiles_unique demo_disk []).
    + constructor.
    + constructor.
    + constructor.
    + intros n. rewrite is_log_empty, elem_of_nil. done.
Qed.

Lemma demo_fresh e : fresh_name e demo_disk.
Proof. intros n Hn. by rewrite is_log_empty in Hn. Qed.

Lemma demo_open_eq : demo_open = (demo_open.1, Ok demo_wal).
Proof. vm_compute. reflexivity. Qed.

Lemma demo_wal_inv : wal_inv demo_wal demo_open.1 (wal_name 1700000000000000000) [].
Proof.
  destruct (New_spec _ _ _ _ _ _ _ _ demo_dir_inv (demo_fresh _) demo_open_eq) as (_ & _ & _ & _ & H).
  by apply H.
Qed.

(** The next file name is above the first. *)
Lemma demo_fresh_next d t :
  listWALFiles d = [wal_name 1700000000000000000] -> 1700000000000000000 < t < 10 ^ 19 ->
  fresh_name (demo_env t) d.
Proof.
  intros E Ht n Hn.
  assert (n = wal_name 1700000000000000000) as ->.
  { rewrite <- elem_of_listWALFiles, E in Hn. by apply list_elem_of_singleton in Hn. }
  unfold wal_name. rewrite compare_app_same. apply (Itoa_lt 18); simpl; lia.
Qed.

(** ** Observing a replay *)

(** The handler that remembers what it was given. *)
Definition collect_handler (acc : list Record_) (r : Record_) : list Record_ * bool :=
  (acc ++ [r], true).

Definition replayed (d : disk) : list Record_ := (Replay all_read collect_handler d []).1.

Lemma replayed_dir_recs d : replayed d = dir_recs d.
Proof.
  unfold replayed. rewrite replay_total by done. simpl.
  assert (forall rs acc : list Record_, foldl (fun s r => s ++ [r]) acc rs = acc ++ rs) as H.
  { induction rs as [|r rs IH]; intros acc; simpl; [by rewrite app_nil_r|].
    by rewrite IH, <- app_assoc. }
  apply H.
Qed.

(** A disk on which everything is synced is a possible outcome of a crash. *)
Definition entry_synced (e : entry) : bool :=
  match e with EDir => true | EFile f => bool_decide (synced f = length (content f)) end.

Definition all_synced (d : disk) : bool :=
  forallb (fun p => entry_synced p.2) (map_to_list (entries d)).

Lemma crash_all_synced d : all_synced d = true -> crash d d.
Proof.
  unfold all_synced. rewrite forallb_forall. intros H n.
  destruct (entries d !! n) as [[|f]|] eqn:E; try done.
  assert (In (n, EFile f) (map_to_list (entries d))) as Hin.
  { by apply list_elem_of_In, elem_of_map_to_list. }
  specialize (H _ Hin). simpl in H. b2p. split; [|done].
  exists (synced f). rewrite H. by rewrite firstn_all.
Qed.

(** One more append on the concrete log, and the log after it. *)
Definition demo_data : list Z := [104; 105].
Definition demo_append : WAL * disk * result wal_error Z :=
  Append (demo_env 1700000000000000001) RecordTypeData demo_data demo_wal demo_open.1.
Definition demo_rec : Record_ :=
  append_record (demo_env 1700000000000000001) RecordTypeData demo_data demo_wal.

Lemma demo_sys_inv : sys_inv (mkSys demo_wal demo_open.1 []).
Proof.
  split; simpl.
  - eexists _, _. apply demo_wal_inv.
  - vm_compute. reflexivity.
  - intros r Hr. by apply elem_of_nil in Hr.
Qed.

Lemma demo_step :
  sys_step (mkSys demo_wal demo_open.1 []) (mkSys demo_append.1.1 demo_append.1.2 [demo_rec]).
Proof.
  apply (step_append (demo_env 1700000000000000001) RecordTypeData demo_data
           demo_wal demo_open.1 [] _ _ (Ok 1)).
  - apply demo_fresh_next; [vm_compute; reflexivity|lia].
  - vm_compute. reflexivity.
  - vm_compute. split; discriminate.
  - vm_compute. reflexivity.
Qed.

(** ** Theorems *)

(** C1: durability of a log with SyncOnWrite. Whatever sequence of appends
    (with any outcome of the writes, fsyncs and file creations), truncations,
    closes and crash-restarts such a log goes through, every record whose
    append was acknowledged and that no truncation has released since is
    delivered by a replay after one more crash at any point. The conditions
    are those of [sys_step]: fresh file names, sequence numbers below 2^64,
    and files that a restart, a truncation and the last replay can read. *)
Theorem wal_durability s s' d'' r :
  sys_inv s -> rtc sys_step s s' -> crash (sys_disk s') d'' ->
  r ∈ sys_kept s' -> r ∈ replayed d''.
Proof.
  intros Hi Hrun Hc Hr. destruct (sys_run_inv _ _ Hrun Hi) as [(cur & att & Hw) _ Hk].
  rewrite replayed_dir_recs. eapply crash_keeps; [by eapply wal_dir_inv|exact Hc|auto].
Qed.

Lemma wal_durability_witness : demo_rec ∈ replayed demo_append.1.2.
Proof.
  apply (wal_durability (mkSys demo_wal demo_open.1 [])
           (mkSys demo_append.1.1 demo_append.1.2 [demo_rec])).
  - apply demo_sys_inv.
  - apply rtc_once, demo_step.
  - apply crash_all_synced. vm_compute. reflexivity.
  - apply list_elem_of_here.
Defined.

(** C2: after any such run (of a log with SyncOnWrite, under the conditions of
    [sys_step]: fresh file names, and files that restarts can read) and any
    crash, a replay that reads every file delivers its records in strictly
    increasing order of sequence number: in order, and none twice. *)
Theorem replay_ordered s s' d'' :
  sys_inv s -> rtc sys_step s s' -> crash (sys_disk s') d'' ->
  StronglySorted Z.lt (SeqNum <$> replayed d'').
Proof.
  intros Hi Hrun Hc. destruct (sys_run_inv _ _ Hrun Hi) as [(cur & att & Hw) _ _].
  rewrite replayed_dir_recs. eapply crash_dir_inv; [by eapply wal_dir_inv|exact Hc].
Qed.

Lemma replay_ordered_witness : StronglySorted Z.lt (SeqNum <$> replayed demo_append.1.2).
Proof.
  apply (replay_ordered (mkSys demo_wal demo_open.1 [])
           (mkSys demo_append.1.1 demo_append.1.2 [demo_rec])).
  - apply demo_sys_inv.
  - apply rtc_once, demo_step.
  - apply crash_all_synced. vm_compute. reflexivity.
Defined.

(** C3: what an append returns. An acknowledged record gets the next sequence
    number and is durable behind everything that was; a failed write leaves
    the sequence number as it was, a failed sync leaves it advanced; no path
    loses a durable record, and every path keeps the log valid. *)
Theorem append_outcome e ty data w d cur att w' d' res :
  wal_inv w d cur att -> fresh_name e d -> w_seqNum w + 1 < 2 ^ 64 -> in_int64 (now_rec e) ->
  Append e ty data w d = (w', d', res) ->
  (exists cur' att', wal_inv w' d' cur' att') /\
  dur_recs d `prefix_of` dur_recs d' /\
  match res with
  | Ok n => n = w_seqNum w + 1 /\ LastSeqNum w' = n /\
      (w_syncOnWrite w = true ->
       exists mid, dur_recs d' = dur_recs d ++ mid ++ [append_record e ty data w])
  | Err ErrSync => LastSeqNum w' = w_seqNum w + 1
  | Err _ => LastSeqNum w' = w_seqNum w
  end.
Proof.
  intros Hi Hfr Hb Ht H.
  destruct (Append_spec _ _ _ _ _ _ _ _ _ _ Hi Hfr Hb Ht H) as ((cur' & att' & H1 & _) & H2 & _ & H3).
  split; [by eauto|done].
Qed.

Lemma append_outcome_witness : LastSeqNum demo_append.1.1 = 1.
Proof.
  destruct (append_outcome (demo_env 1700000000000000001) RecordTypeData demo_data
    demo_wal demo_open.1 (wal_name 1700000000000000000) [] demo_append.1.1 demo_append.1.2 (Ok 1))
    as (_ & _ & _ & H & _).
  - apply demo_wal_inv.
  - apply demo_fresh_next; [vm_compute; reflexivity|lia].
  - vm_compute. reflexivity.
  - vm_compute. split; discriminate.
  - vm_compute. reflexivity.
  - exact H.
Defined.

(** C4: truncation is safe. It keeps the open file, invents no record and keeps
    the log valid, whether or not individual removals and reads fail; it keeps
    every record above its bound unless the read of a file breaks off midway. *)
Theorem truncate_safe rd rm bound w d cur att d' ok :
  wal_inv w d cur att -> Truncate rd rm bound w d = (d', ok) ->
  wal_inv w d' cur att /\ get_file d' cur = get_file d cur /\
  (uncut rd -> forall r, r ∈ replayed d -> bound < SeqNum r -> r ∈ replayed d') /\
  replayed d' `sublist_of` replayed d.
Proof.
  intros Hi H. pose proof (Truncate_truncated _ _ _ _ _ _ _ H) as Ht.
  split_and!; [by eapply truncated_inv| | |].
  - rewrite (wi_file _ _ _ _ Hi) in Ht. unfold get_file.
    destruct (Ht cur) as [-> |(_ & _ & E & _)]; done.
  - intros Hu r Hr Hb. rewrite replayed_dir_recs in *.
    eapply truncated_keeps; [done|exact Hu|exact Ht|done|done].
  - rewrite !replayed_dir_recs. apply collect_sublist. intros n f' Hn Hf'. exists f'.
    split_and!; [by eapply truncated_is_log|by eapply truncated_lookup|done].
Qed.

Lemma truncate_safe_witness :
  replayed (Truncate all_read (fun _ => true) 5 demo_wal demo_open.1).1 `sublist_of` replayed demo_open.1.
Proof.
  destruct (truncate_safe all_read (fun _ => true) 5 demo_wal demo_open.1
              (wal_name 1700000000000000000) []
              (Truncate all_read (fun _ => true) 5 demo_wal demo_open.1).1 true) as (_ & _ & _ & H).
  - apply demo_wal_inv.
  - vm_compute. reflexivity.
  - exact H.
Defined.

(** C5: reopening after a crash. [New] on whatever directory a crash leaves
    neither adds nor loses a record, and numbers handed out next are above
    those of every file it could read, whatever the reads of the others met.
    If it could read all files, [LastSeqNum] is at least every number in the
    log, and the log is valid. New file names must be above the old ones. *)
Theorem reopen_after_crash e mk rd now cfg d d1 d' w :
  dir_inv d -> crash d d1 -> fresh_name e d1 -> New e mk rd now cfg d1 = (d', Ok w) ->
  replayed d' = replayed d1 /\
  (forall n f r, is_log d1 n = true -> get_file d1 n = Some f -> rd_file rd n = RdWhole ->
     r ∈ all_of f -> SeqNum r <= LastSeqNum w) /\
  (whole rd -> (exists cur att, wal_inv w d' cur att) /\
     Forall (fun r => SeqNum r <= LastSeqNum w) (replayed d')).
Proof.
  intros Hd Hc Hfr H. pose proof (crash_dir_inv _ _ Hd Hc) as Hd1.
  destruct (New_spec _ _ _ _ _ _ _ _ Hd1 Hfr H) as (Er & _ & Es & _ & Hi).
  rewrite !replayed_dir_recs. unfold LastSeqNum. rewrite Es. split_and!; [done| |].
  - intros n f r Hl Hf Hn Hr. by eapply findLastSequence_ge.
  - intros Hw. split; [by eauto|]. rewrite Er, Forall_forall. intros r Hr.
    rewrite findLastSequence_max by done. apply max_list_ge. by apply list_elem_of_fmap_2.
Qed.

(** The concrete log after its append, and what opening it again gives. *)
Definition demo_reopen (rd : reads) : disk * result wal_error WAL :=
  New (demo_env 1700000000000000002) true rd 1700000000000000002 DefaultConfig demo_append.1.2.
Definition reopened (rd : reads) : WAL :=
  match (demo_reopen rd).2 with Ok w => w | Err _ => demo_wal end.

Lemma demo_append_dir_inv : dir_inv demo_append.1.2.
Proof.
  destruct (sys_step_inv _ _ demo_step demo_sys_inv) as [(cur & att & Hi) _ _].
  by eapply wal_dir_inv.
Qed.

Lemma reopen_after_crash_witness :
  replayed demo_append.1.2 = [demo_rec] /\ replayed (demo_reopen all_read).1 = [demo_rec] /\
  Forall (fun r => SeqNum r <= LastSeqNum (reopened all_read)) [demo_rec].
Proof.
  assert (replayed demo_append.1.2 = [demo_rec]) as E by (vm_compute; reflexivity).
  destruct (reopen_after_crash (demo_env 1700000000000000002) true all_read 1700000000000000002
           DefaultConfig demo_append.1.2 demo_append.1.2 (demo_reopen all_read).1 (reopened all_read))
    as (H1 & _ & H2).
  - apply demo_append_dir_inv.
  - apply crash_all_synced. vm_compute. reflexivity.
  - apply demo_fresh_next; [vm_compute; reflexivity|lia].
  - vm_compute. reflexivity.
  - rewrite E in H1. split_and!; [done|done|]. rewrite <- H1. apply H2. intros n. reflexivity.
Defined.

(** A file that cannot be opened is passed over without an error, so its
    sequence numbers are given out again: after a restart that fails to open
    the first file, the next append gets the number of the record in it, and
    later replays deliver two records with that number. *)
Definition no_file : reads := mkReads true (fun _ => RdFail).
Definition reused : WAL * disk * result wal_error Z :=
  Append (demo_env 1700000000000000003) RecordTypeData demo_data (reopened no_file) (demo_reopen no_file).1.

Theorem unreadable_file_reuses_numbers :
  (demo_reopen no_file).2 = Ok (reopened no_file) /\ LastSeqNum (reopened no_file) = 0 /\
  reused.2 = Ok 1 /\ SeqNum <$> replayed reused.1.2 = [1; 1].
Proof. vm_compute. done. Qed.

(** A read that breaks off within a closed file counts as its end, so a
    truncation can remove a file with records above its bound. *)
Theorem cut_read_loses_records :
  SeqNum <$> replayed (demo_reopen all_read).1 = [1] /\
  replayed (Truncate (mkReads true (fun _ => RdCut 6)) (fun _ => true) 0
              (reopened all_read) (demo_reopen all_read).1).1 = [].
Proof. vm_compute. done. Qed.

(** Torn tails. A file of encoded records that ends in a record cut
    anywhere before its last byte (as a crash in the middle of a write leaves
    it) reads as exactly the complete records. *)
Theorem torn_tail_discarded rs r tail :
  Forall wf_record rs -> wf_record r ->
  tail `prefix_of` record_bytes r -> tail <> record_bytes r ->
  read_file (file_header ++ records_bytes rs ++ tail) = Ok rs.
Proof. intros. apply read_file_records; [done|]. by exists r. Qed.

Lemma demo_rec_wf : wf_record demo_rec.
Proof.
  destruct (append_record_wf (demo_env 1700000000000000001) RecordTypeData demo_data demo_wal)
    as [H _]; [apply demo_wal_inv|vm_compute; reflexivity|vm_compute; split; discriminate| |exact H].
  vm_compute. discriminate.
Qed.

Lemma torn_tail_discarded_witness :
  read_file (file_header ++ records_bytes [demo_rec] ++ take 20 (record_bytes demo_rec)) = Ok [demo_rec].
Proof.
  apply (torn_tail_discarded [demo_rec] demo_rec).
  - constructor; [apply demo_rec_wf|constructor].
  - apply demo_rec_wf.
  - apply take_prefix.
  - vm_compute. discriminate.
Defined.

(** C6: the reader accepts only what the writer writes. If the reader returns
    a record from a byte stream, the stream starts with the exact encoding of
    that record (length, type, sequence number, checksum, time and data), and
    the reader is left right behind it. Together with the round trip in the
    other direction, encoding is a bijection onto what is accepted. *)
Theorem reader_accepts_only_encodings bs r rest :
  Forall is_byte bs ->
  readRecord bs = Ok (r, rest) <-> bs = record_bytes r ++ rest /\ wf_record r.
Proof.
  intros Hb. unfold readRecord. split.
  - by apply read_record_sound.
  - intros [-> Hwf]. by apply read_record_app.
Qed.

Lemma reader_accepts_only_encodings_witness :
  readRecord (record_bytes demo_rec) = Ok (demo_rec, []) <->
  record_bytes demo_rec = record_bytes demo_rec ++ [] /\ wf_record demo_rec.
Proof.
  apply (reader_accepts_only_encodings (record_bytes demo_rec) demo_rec []).
  assert (forallb (fun b => (0 <=? b) && (b <? 256)) (record_bytes demo_rec) = true) as H
    by (vm_compute; reflexivity).
  rewrite forallb_forall in H. apply Forall_forall. intros b Hb%list_elem_of_In.
  specialize (H b Hb). unfold is_byte. lia.
Defined.

(** A write error is final. Once the writer has failed, every later append
    reports a write error and changes nothing, neither log nor disk, because
    the writer's error is sticky and a new file is only opened after a
    successful write. *)
Theorem write_error_is_final e ty data w d :
  w_err w = true -> w_closed w = false -> Zlength data <= MaxRecordSize -> in_uint 64 (w_seqNum w) ->
  Append e ty data w d = (w, d, Err ErrWrite).
Proof.
  intros He Hc Hl Hs. unfold Append. rewrite Hc.
  destruct (Z.ltb_spec MaxRecordSize (Zlength data)); [lia|].
  unfold writeRecord. destruct w. simpl in *. subst. simpl.
  assert (uint64 (uint64 (w_seqNum + 1) - 1) = w_seqNum) as E.
  { unfold uint64, in_uint in *. rewrite Zminus_mod_idemp_l, Z.add_simpl_r. by apply Z.mod_small. }
  unfold with_seq, with_wr. simpl. by rewrite E.
Qed.

Definition demo_failed : WAL :=
  mkWAL (Some "wal_1.log") [1; 2] true 7 30 true 100 1 0 100 false.

Lemma write_error_is_final_witness :
  Append (demo_env 5) RecordTypeData [9] demo_failed demo_disk = (demo_failed, demo_disk, Err ErrWrite).
Proof.
  apply (write_error_is_final (demo_env 5) RecordTypeData [9] demo_failed demo_disk).
  - reflexivity.
  - reflexivity.
  - vm_compute. discriminate.
  - vm_compute. split; [discriminate|reflexivity].
Defined.
