(* ===== verification/BufferTheorems.v ===== *)
(** * What the row buffers promise

    Against the durable-log interface: no acknowledged row is lost by a crash
    as long as flushes do not overlap with other calls, and no interleaving
    loses or duplicates a row in memory. On the write-ahead log itself: a run
    with overlapping flushes after which a crash does lose a row. *)

From S2P Require Import Prelude GoStrings WalCodec Wal WalLemmas WalProofs DurableLog.
From S2P Require Import WalTheorems Buffer.

(** ** The in-memory buffer *)

Module ManagerProps.
Import Buffer.Manager.

Inductive op := OAdd (id : string) (data : list Z) (ts : Z) | OFlush | ORecv.

(** The state, the rows accepted and the rows handed to flush functions. *)
Definition exec (s : Manager * list DataPoint * list DataPoint) (o : op)
    : Manager * list DataPoint * list DataPoint :=
  let '(m, acc, out) := s in
  match o with
  | OAdd id data ts =>
      let '(m, ok) := Add id data ts m in
      (m, if (ok : bool) then acc ++ [mkDataPoint id data ts] else acc, out)
  | OFlush =>
      let '(m, data) := Flush m in (m, acc, out ++ default [] data)
  | ORecv => (recv_flushCh m, acc, out)
  end.

Definition good (s : Manager * list DataPoint * list DataPoint) : Prop :=
  let '(m, acc, out) := s in
  acc = out ++ buffer m /\ (0 <= maxSize m -> Size m <= maxSize m).

Lemma exec_good s o : good s -> good (exec s o).
Proof.
  destruct s as [[m acc] out]. intros [-> Hs]. destruct o as [id data ts| |]; simpl.
  - unfold Add. destruct (Z.leb_spec (maxSize m) (Zlength (buffer m))); simpl; [done|].
    rewrite app_assoc. split; [done|]. unfold Size. simpl. rewrite length_app. simpl. lia.
  - unfold Flush. destruct (buffer m) eqn:E; simpl.
    + by rewrite E, !app_nil_r.
    + rewrite app_nil_r. split; [done|]. unfold Size. simpl. lia.
  - done.
Qed.

(** The plain buffer is a bounded FIFO. Over any sequence of adds, flushes
    and channel reads, the rows handed to flush functions followed by the rows
    still buffered are exactly the accepted rows in the order of their
    acceptance, and the buffer never holds more than [maxSize] rows. *)
Theorem manager_bounded_fifo max ops m acc out :
  0 <= max -> foldl exec (NewManager max, [], []) ops = (m, acc, out) ->
  acc = out ++ buffer m /\ Size m <= maxSize m.
Proof.
  intros Hm H.
  assert (forall s, good s -> maxSize s.1.1 = max ->
    good (foldl exec s ops) /\ maxSize (foldl exec s ops).1.1 = max) as Hall.
  { clear. induction ops as [|o ops IH]; intros s Hg Hx; [done|]. simpl. apply IH.
    - by apply exec_good.
    - destruct s as [[m acc] out], o; simpl in *; unfold Add, Flush; crush. }
  destruct (Hall (NewManager max, [], [])) as [Hg Hx]; [by split|done|].
  rewrite H in *. simpl in Hx. destruct Hg as [? Hs]. split; [done|]. apply Hs. lia.
Qed.

Definition manager_demo_ops : list op :=
  [OAdd "a" [1] 0; OAdd "b" [2] 1; OAdd "c" [3] 2; OFlush; OAdd "d" [4] 3].

Lemma manager_bounded_fifo_witness :
  let s := foldl exec (NewManager 2, [], []) manager_demo_ops in
  s.1.2 = s.2 ++ buffer s.1.1 /\ Size s.1.1 <= maxSize s.1.1.
Proof.
  apply (manager_bounded_fifo 2 manager_demo_ops); [lia|vm_compute; reflexivity].
Defined.

End ManagerProps.

(** ** The durable buffer *)

Module DurableProps.
Import Buffer.Durable.
Section props.
Context {L D : Type} {DL : DurableLog L D} {DLL : DurableLogLaws L D} {J : WalRecordJSON}.

(** The row a replayed record gives to the buffer of a table, if any. *)
Definition accepted (tbl : string) (r : Record_) : option DataPoint :=
  if negb (Type_ r =? RecordTypeData) then None else
  match json_unmarshal (WalCodec.Data r) with
  | None => None
  | Some wr =>
      if bool_decide (tbl <> "") && bool_decide (wr_Table wr <> "") && bool_decide (wr_Table wr <> tbl)
      then None else Some (point_of wr)
  end.

Lemma durable_handler_total tbl s r : (recover_handler tbl s r).2 = true.
Proof. destruct s. unfold recover_handler. by case_all. Qed.

Lemma recover_fold tbl rs buf last :
  (foldl (fun s r => (recover_handler tbl s r).1) (buf, last) rs).1 = buf ++ omap (accepted tbl) rs.
Proof.
  revert buf last. induction rs as [|r rs IH]; intros buf last; simpl; [by rewrite app_nil_r|].
  unfold accepted at 1. destruct (negb _); simpl; [done|].
  destruct (json_unmarshal _) as [wr|]; simpl; [|done].
  destruct (_ && _ && _); simpl; [done|]. by rewrite IH, <- app_assoc.
Qed.

Lemma recover_spec (b : DurableManager L) :
  let b' := recover all_read b in
  buffer b' = buffer b ++ omap (accepted (table b)) (log_records (wal b)) /\
  wal b' = wal b /\ table b' = table b.
Proof.
  unfold recover. rewrite replay_law by apply durable_handler_total.
  destruct (foldl _ _ _) as [buf last] eqn:E. simpl. split_and!; try done.
  by rewrite <- (recover_fold _ _ _ (lastFlushedSeq b)), E.
Qed.

(** A row is covered when a durable record would bring it back. *)
Definition covered (b : DurableManager L) (p : DataPoint) : Prop :=
  exists r, r ∈ log_durable (wal b) /\ accepted (table b) r = Some p.

Lemma NewDurableManager_spec e mk rd now cfg (d d' : D) (b : DurableManager L) :
  disk_inv d -> open_env_ok e d -> whole rd -> SyncOnWrite cfg = true ->
  NewDurableManager e mk rd all_read now cfg d = (d', Ok b) ->
  log_inv (wal b) /\ table b = Table cfg /\
  buffer b = omap (accepted (Table cfg)) (disk_records d) /\
  (forall p, p ∈ buffer b -> covered b p).
Proof.
  intros Hd He Hw Hs H. unfold NewDurableManager in H.
  destruct (log_open _ _ _ _ _ _) as [d1 [w|]] eqn:E; simplify_eq.
  edestruct open_law as (Hi & _ & Hr & Hsub); [exact Hd|exact He|exact Hw| |exact E|]; [done|].
  pose proof (recover_spec (mkDurable [] (MaxSize cfg) false w 0 (Table cfg))) as (Eb & Ew & Et).
  simpl in *. rewrite Eb, Ew, Et, Hr. split_and!; try done.
  intros p (r & Hin & Ha)%list_elem_of_omap. exists r. rewrite Ew, Et. auto.
Qed.

(** [Add] on every path. *)
Lemma Add_spec e id data ts (b b' : DurableManager L) res :
  log_inv (wal b) -> log_env_ok e (wal b) -> json_valid (mkWalRecord id data ts (table b)) ->
  Add e id data ts b = (b', res) ->
  log_inv (wal b') /\ table b' = table b /\ log_durable (wal b) ⊆ log_durable (wal b') /\
  match res with
  | Ok true => buffer b' = buffer b ++ [mkDataPoint id data ts] /\ covered b' (mkDataPoint id data ts)
  | _ => buffer b' = buffer b
  end.
Proof.
  intros Hi He Hv H. unfold Add in H.
  destruct (maxSize b <=? _); [simplify_eq; by split_and!|].
  destruct (json_marshal _) as [bs|] eqn:Em; [|simplify_eq; by split_and!].
  destruct (log_append e RecordTypeData bs (wal b)) as [w r] eqn:Ea.
  destruct (append_law _ _ _ _ _ _ Hi He Ea) as (Hi' & Hsub & Hr).
  destruct r as [n|er]; simplify_eq; simpl; split_and!; try done.
  destruct Hr as [t Hr]. exists (mkRecord n RecordTypeData t bs). split; [done|].
  unfold accepted. simpl. rewrite (json_roundtrip _ _ Hv Em). simpl.
  rewrite (bool_decide_false (table b <> table b)) by auto. by rewrite andb_false_r.
Qed.

Lemma covered_mono (b b' : DurableManager L) p :
  table b' = table b -> log_durable (wal b) ⊆ log_durable (wal b') -> covered b p -> covered b' p.
Proof. intros Et Hs (r & Hr & Ha). exists r. rewrite Et. auto. Qed.

(** *** Crash safety of serial runs *)

Record safe (s : state L) : Prop := {
  safe_log : log_inv (wal (dm s));
  safe_acked : forall p, p ∈ acked s -> p ∈ persisted s \/ p ∈ in_flight s \/ p ∈ buffer (dm s);
  safe_covered : forall p, p ∈ in_flight s \/ p ∈ buffer (dm s) -> covered (dm s) p;
  safe_alone : flights s = [] \/ exists f, flights s = [f] /\ buffer (dm s) = [];
}.

Lemma in_flight_nil b ps ak : in_flight (mkState b [] ps ak : state L) = [].
Proof. done. Qed.

Lemma in_flight_one b f ps ak : in_flight (mkState b [f] ps ak : state L) = flight_rows f.
Proof. unfold in_flight. simpl. by rewrite app_nil_r. Qed.

Lemma single_split {A} (l1 l2 : list A) x y : l1 ++ x :: l2 = [y] -> l1 = [] /\ l2 = [] /\ x = y.
Proof. destruct l1 as [|? [|]]; destruct l2; simpl; intros; by simplify_eq. Qed.

(** In a serial run the flight a step works on is the only one. *)
Lemma alone_flight (s : state L) l1 f l2 :
  safe s -> flights s = l1 ++ f :: l2 -> l1 = [] /\ l2 = [] /\ buffer (dm s) = [].
Proof.
  intros [_ _ _ [Hn|(g & Hg & Hb)]] E.
  - rewrite E in Hn. by destruct l1.
  - rewrite E in Hg. by destruct (single_split _ _ _ _ Hg) as (-> & -> & ->).
Qed.

Lemma step_safe s s' : step true s s' -> safe s -> safe s'.
Proof.
  intros Hst Hs. destruct Hst as
    [e id data ts b fs ps ak b' res Hser He Hv Hadd
    |b fs ps ak b' data seq Hser Htake
    |b fs1 data seq fs2 ps ak|b fs1 data seq fs2 ps ak|b fs1 fs2 ps ak rd rm].
  - specialize (Hser eq_refl). subst fs. destruct Hs as [Hi Ha Hc _]. simpl in *.
    rewrite in_flight_nil in *.
    destruct (Add_spec _ _ _ _ _ _ _ Hi He Hv Hadd) as (Hi' & Et & Hsub & Hr).
    assert (forall p, p ∈ buffer b -> covered b' p) as Hold.
    { intros p Hp. eapply covered_mono; [exact Et|exact Hsub|]. auto. }
    split; simpl; rewrite ?in_flight_nil; [done| | |by left].
    + intros p Hp. destruct res as [[|]|]; [destruct Hr as [-> _]|rewrite Hr; auto..].
      rewrite !elem_of_app in *. destruct Hp as [Hp|Hp]; [|by auto].
      destruct (Ha _ Hp) as [|[|]]; auto.
    + intros p [Hp|Hp]; [by apply elem_of_nil in Hp|].
      destruct res as [[|]|]; [destruct Hr as [Eb Hcov]|rewrite Hr in Hp; auto..].
      rewrite Eb in Hp. apply elem_of_app in Hp as [Hp|Hp%list_elem_of_singleton]; [auto|by subst].
  - specialize (Hser eq_refl). subst fs. destruct Hs as [Hi Ha Hc _]. unfold Flush_take in Htake. simpl in *.
    rewrite in_flight_nil in *.
    destruct (buffer b) as [|p0 ps0] eqn:Eb; simplify_eq. simpl.
    split; simpl; rewrite ?in_flight_one; simpl; try done.
    + intros p Hp. specialize (Ha p Hp). rewrite elem_of_nil in *. tauto.
    + intros p Hp. destruct (Hc p) as (r & Hr); [|by exists r].
      rewrite elem_of_nil in *. tauto.
    + right. by eexists.
  - destruct (alone_flight _ _ _ _ Hs eq_refl) as (-> & -> & Hb). simpl in Hb.
    destruct Hs as [Hi Ha Hc _]. simpl in *. rewrite in_flight_one, Hb in *. simpl in *.
    split; simpl; rewrite ?in_flight_nil, ?Hb, ?app_nil_r; try done; [| |by left].
    + intros p Hp. specialize (Ha p Hp). rewrite elem_of_nil in *. tauto.
    + intros p Hp. destruct (Hc p) as (r & Hr); [|by exists r]. rewrite elem_of_nil in *. tauto.
  - destruct (alone_flight _ _ _ _ Hs eq_refl) as (-> & -> & Hb). simpl in Hb.
    destruct Hs as [Hi Ha Hc _]. simpl in *. rewrite in_flight_one, Hb in *. simpl in *.
    split; simpl; rewrite ?in_flight_one, ?Hb; simpl; try done.
    + intros p Hp. specialize (Ha p Hp). rewrite elem_of_app, elem_of_nil in *. tauto.
    + intros p Hp. rewrite elem_of_nil in Hp. tauto.
    + right. by eexists.
  - destruct (alone_flight _ _ _ _ Hs eq_refl) as (-> & -> & Hb). simpl in Hb.
    destruct Hs as [Hi Ha Hc _]. unfold Flush_truncate in *. simpl in *. rewrite in_flight_one, Hb in *.
    destruct (log_truncate _ _ _ _) as [w ok] eqn:Et.
    destruct (truncate_law _ _ _ _ _ _ Hi Et) as [Hi' _].
    split; simpl; rewrite ?in_flight_nil, ?Hb; try done; [|by left].
    intros p Hp. rewrite elem_of_nil in Hp. tauto.
Qed.

Lemma restart_safe s s' : restart s s' -> safe s -> safe s'.
Proof.
  intros Hst [Hi Ha Hc _]. destruct Hst as [e mk rd now cfg b fs ps ak d d' b' Hcr He Hw Hsy Ht Hnew].
  destruct (crash_law _ _ Hi Hcr) as [Hd Hsub]. simpl in *.
  destruct (NewDurableManager_spec _ _ _ _ _ _ _ _ Hd He Hw Hsy Hnew) as (Hi' & Et & Eb & Hcov).
  split; simpl; rewrite ?in_flight_nil; [done| | |by left].
  - intros p Hp. destruct (Ha p Hp) as [|Hq]; [by left|right; right].
    destruct (Hc p Hq) as (r & Hr & Hacc). rewrite Eb, list_elem_of_omap, Ht. by eauto.
  - intros p [Hp|Hp]; [by apply elem_of_nil in Hp|auto].
Qed.

Lemma run_safe s s' : rtc (fun a b => step true a b \/ restart a b) s s' -> safe s -> safe s'.
Proof. induction 1 as [|a b c [H|H] _ IH]; eauto using step_safe, restart_safe. Qed.

Lemma fresh_safe (b : DurableManager L) ps :
  log_inv (wal b) -> (forall p, p ∈ buffer b -> covered b p) ->
  safe (mkState b [] ps (buffer b)).
Proof.
  intros Hi Hc. split; simpl; rewrite ?in_flight_nil; [done|auto| |by left].
  intros p [Hp|Hp]; [by apply elem_of_nil in Hp|auto].
Qed.

(** C7: no acknowledged row is lost as long as calls do not overlap with a
    flush. Start a buffer that syncs on every write on any valid disk and let
    it run through adds (with any outcome), flushes (succeeding or failing)
    between whose start and end neither an [Add] nor another flush runs, and
    crash-restarts for the same table. After one more crash and restart every
    row [Add] ever acknowledged has been accepted by a flush function or is in
    the recovered buffer. Every restart reads the log without I/O errors and
    names its file above the existing ones; rows survive encoding/json. *)
Theorem durable_buffer_crash_safe e mk rd now cfg (d d' : D) (b : DurableManager L) s s' p :
  disk_inv d -> open_env_ok e d -> whole rd -> SyncOnWrite cfg = true ->
  NewDurableManager e mk rd all_read now cfg d = (d', Ok b) ->
  rtc (fun a b => step true a b \/ restart a b) (mkState b [] [] []) s -> restart s s' ->
  p ∈ acked s -> p ∈ persisted s' \/ p ∈ buffer (dm s').
Proof.
  intros Hd He Hw Hs Hn Hrun Hre Hp.
  destruct (NewDurableManager_spec _ _ _ _ _ _ _ _ Hd He Hw Hs Hn) as (Hi & _ & _ & Hcov).
  assert (safe (mkState b [] [] [])) as H0.
  { destruct (fresh_safe b [] Hi Hcov) as [? _ ? ?]. split; [done| |done|done].
    intros q Hq. by apply elem_of_nil in Hq. }
  assert (acked s' = acked s /\ flights s' = []) as [Ea Ef] by (by destruct Hre).
  destruct (restart_safe _ _ Hre (run_safe _ _ Hrun H0)) as [_ Ha _ _].
  rewrite <- Ea in Hp. destruct (Ha p Hp) as [|[Hq|]]; auto.
  unfold in_flight in Hq. rewrite Ef in Hq. by apply elem_of_nil in Hq.
Qed.

(** *** Conservation in memory, for every interleaving *)

Definition conserved (s : state L) : Prop :=
  acked s ≡ₚ persisted s ++ in_flight s ++ buffer (dm s).

Lemma step_conserved serial s s' : step serial s s' -> conserved s -> conserved s'.
Proof.
  intros Hst. unfold conserved. destruct Hst as
    [e id data ts b fs ps ak b' res _ _ _ Hadd|b fs ps ak b' data seq _ Htake
    |b fs1 data seq fs2 ps ak|b fs1 data seq fs2 ps ak|b fs1 fs2 ps ak rd rm];
    unfold in_flight; simpl; intros Hc.
  - unfold Add in Hadd.
    destruct (_ <=? _); simplify_eq; [done|]. destruct (json_marshal _); simplify_eq; [|done].
    destruct (log_append _ _ _ _) as [w [n|er]]; simplify_eq; simpl; [|done].
    by rewrite Hc, !app_assoc.
  - unfold Flush_take in Htake. destruct (buffer b) eqn:Eb; simplify_eq. simpl.
    rewrite fmap_app, join_app. simpl. rewrite Hc. solve_Permutation.
  - rewrite fmap_app, join_app in *. simpl in *. rewrite Hc. solve_Permutation.
  - rewrite fmap_app, join_app in *. simpl in *. rewrite Hc. solve_Permutation.
  - rewrite fmap_app, join_app in *. simpl in *. unfold Flush_truncate.
    by destruct (log_truncate _ _ _ _).
Qed.

(** C8: nothing is lost or duplicated in memory. In every interleaving of
    adds and any number of overlapping flushes, the acknowledged rows are, as
    a multiset, the rows accepted by flush functions, those of flushes in
    flight and those in the buffer. *)
Theorem durable_buffer_conserves (b : DurableManager L) s :
  rtc (step false) (mkState b [] [] (buffer b)) s ->
  acked s ≡ₚ persisted s ++ in_flight s ++ buffer (dm s).
Proof.
  intros Hrun. change (conserved s). remember (mkState b [] [] (buffer b)) as s0 eqn:E0.
  assert (conserved s0) as H0.
  { subst. unfold conserved. by rewrite in_flight_nil. }
  clear E0. induction Hrun; eauto using step_conserved.
Qed.

End props.
End DurableProps.

(** ** On the write-ahead log *)

(** A concrete codec: a bit of the record's code per byte. *)
Module BitCodec.

Fixpoint bits (p : positive) : list Z :=
  match p with xH => [] | xO p => 0 :: bits p | xI p => 1 :: bits p end.

Fixpoint unbits (bs : list Z) : positive :=
  match bs with [] => xH | b :: bs => if b =? 0 then xO (unbits bs) else xI (unbits bs) end.

Lemma unbits_bits p : unbits (bits p) = p.
Proof. induction p; simpl; congruence. Qed.

#[global] Program Instance bit_json : WalRecordJSON := {|
  json_marshal r := Some (bits (encode (wr_ID r, wr_Data r, wr_Timestamp r, wr_Table r)));
  json_unmarshal bs :=
    match decode (unbits bs) : option (string * list Z * Z * string) with
    | Some (id, data, ts, tbl) => Some (mkWalRecord id data ts tbl)
    | None => None
    end;
  json_valid _ := True;
|}.
Next Obligation.
  intros [id data ts tbl] bs _ H. simplify_eq/=. by rewrite unbits_bits, decode_encode.
Qed.

End BitCodec.

Module DurableDemo.
Import Buffer.Durable DurableProps BitCodec.

(** Whether a clock reading names a file above all there are. *)
Definition fresh_check (e : Env) (d : disk) : bool :=
  forallb (fun n => bool_decide (String.compare n (wal_name (now_open e)) = Lt)) (listWALFiles d).

Lemma fresh_check_ok e d : fresh_check e d = true -> fresh_name e d.
Proof.
  unfold fresh_check. rewrite forallb_forall. intros H n Hn.
  apply elem_of_listWALFiles, list_elem_of_In in Hn. apply (bool_decide_eq_true_1 _ (H n Hn)).
Qed.

Definition T (k : Z) : Z := 1700000000000000000 + k.
Definition cfg : DurableConfig := mkDurableConfig 10 "t" true.

Definition open_on (k : Z) (d : disk) : disk * result wal_error (DurableManager wal_state) :=
  NewDurableManager (demo_env (T k)) true all_read all_read (T k) cfg d.

Definition dead : DurableManager wal_state :=
  mkDurable [] 0 false (mkWalState (mkWAL None [] true 0 0 false 0 0 0 0 true) demo_disk) 0 "".

Definition opened (r : disk * result wal_error (DurableManager wal_state)) : DurableManager wal_state :=
  match r.2 with Ok b => b | Err _ => dead end.

Definition disk_of (b : DurableManager wal_state) : disk := ws_disk (wal b).
Definition add_on (k : Z) (id : string) (b : DurableManager wal_state) :=
  Add (demo_env (T k)) id [1; 2; 3] (T k) b.

Definition row (k : Z) (id : string) : DataPoint := mkDataPoint id [1; 2; 3] (T k).

Definition b0 := Eval vm_compute in opened (open_on 0 demo_disk).
Definition b1 := Eval vm_compute in (add_on 1 "x" b0).1.
Definition b2 := Eval vm_compute in opened (open_on 2 (disk_of b1)).

Lemma demo_disk_inv : disk_inv demo_disk.
Proof. split; [apply demo_dir_inv|]. vm_compute. reflexivity. Qed.

Lemma demo_restart b b' k fs ps ak :
  all_synced (disk_of b) = true -> fresh_check (demo_env (T k)) (disk_of b) = true ->
  table b = "t" -> open_on k (disk_of b) = (disk_of b', Ok b') ->
  restart (mkState b fs ps ak) (mkState b' [] ps ak).
Proof.
  intros Hs Hf Ht Ho. eapply (restart_crash (demo_env (T k)) true all_read (T k) cfg _ _ _ _ (disk_of b)).
  - by apply crash_all_synced.
  - by apply fresh_check_ok.
  - done.
  - done.
  - done.
  - exact Ho.
Qed.

Lemma demo_add serial b b' k id fs ps ak :
  (serial = true -> fs = []) -> fresh_check (demo_env (T k)) (disk_of b) = true ->
  (w_seqNum (ws_wal (wal b)) + 1 <? 2 ^ 64) = true -> bool_decide (in_int64 (T k)) = true ->
  add_on k id b = (b', Ok true) ->
  step serial (mkState b fs ps ak) (mkState b' fs ps (ak ++ [row k id])).
Proof.
  intros Hser Hf Hn Ht Ha.
  apply (step_add serial (demo_env (T k)) id [1; 2; 3] (T k) b fs ps ak b' (Ok true)); try done.
  split; [by apply fresh_check_ok|]. b2p. by split.
Qed.

Lemma demo_first_run :
  rtc (fun a b => step true a b \/ restart a b) (mkState b0 [] [] []) (mkState b1 [] [] [row 1 "x"]).
Proof.
  apply rtc_once. left. apply (demo_add true b0 b1 1 "x" [] [] []); try done; vm_compute; reflexivity.
Qed.

Lemma demo_second_start fs ps ak : restart (mkState b1 fs ps ak) (mkState b2 [] ps ak).
Proof. apply (demo_restart b1 b2 2); vm_compute; reflexivity. Qed.

Lemma durable_buffer_crash_safe_witness : row 1 "x" ∈ [] \/ row 1 "x" ∈ buffer b2.
Proof.
  apply (durable_buffer_crash_safe (demo_env (T 0)) true all_read (T 0) cfg demo_disk (disk_of b0) b0
           (mkState b1 [] [] [row 1 "x"]) (mkState b2 [] [] [row 1 "x"])).
  - apply demo_disk_inv.
  - apply demo_fresh.
  - done.
  - reflexivity.
  - vm_compute. reflexivity.
  - apply demo_first_run.
  - apply demo_second_start.
  - apply list_elem_of_here.
Defined.

Lemma durable_buffer_conserves_witness :
  buffer b2 ++ [row 3 "y"] ≡ₚ buffer b2 ++ [row 3 "y"].
Proof.
  apply (durable_buffer_conserves b2
           (mkState (add_on 3 "y" b2).1 [] [] (buffer b2 ++ [row 3 "y"]))).
  apply rtc_once. apply (demo_add false b2 _ 3 "y" [] [] (buffer b2)); try done; vm_compute; reflexivity.
Defined.

(** The run of the next theorem: [x] is recovered after a crash, a flush takes
    it, [y] is added, a second flush takes [y] and finishes first. *)
Definition b3 := Eval vm_compute in (Flush_take b2).1.
Definition b4 := Eval vm_compute in (add_on 3 "y" b3).1.
Definition b5 := Eval vm_compute in (Flush_take b4).1.
Definition b6 := Eval vm_compute in Flush_truncate all_read (fun _ => true) b5.
Definition b7 := Eval vm_compute in opened (open_on 4 (disk_of b6)).

(** Overlapping flushes can lose a row. [Flush] truncates the log at the
    value [lastFlushedSeq] has when it finishes; there is a run in which a
    flush that finishes first so releases the record of a row another flush
    still holds, and a crash then loses the acknowledged row: it is neither
    accepted by a flush function nor recovered. *)
Theorem overlapping_flush_loses_row :
  open_on 0 demo_disk = (disk_of b0, Ok b0) /\
  exists s s', rtc (fun a b => step false a b \/ restart a b) (mkState b0 [] [] []) s /\
    restart s s' /\ row 1 "x" ∈ acked s /\
    ~ (row 1 "x" ∈ persisted s') /\ ~ (row 1 "x" ∈ buffer (dm s')).
Proof.
  split; [vm_compute; reflexivity|].
  exists (mkState b6 [Flying [row 1 "x"] 1] [row 3 "y"] [row 1 "x"; row 3 "y"]).
  exists (mkState b7 [] [row 3 "y"] [row 1 "x"; row 3 "y"]).
  split_and!.
  - eapply rtc_l.
    { left. apply (demo_add false b0 b1 1 "x" [] [] []); try done; vm_compute; reflexivity. }
    eapply rtc_l; [right; apply demo_second_start|].
    eapply rtc_l; [left; apply (step_take false b2 [] _ _ b3 [row 1 "x"] 1); [done|]; vm_compute; reflexivity|].
    eapply rtc_l.
    { left. apply (demo_add false b3 b4 3 "y"); try done; vm_compute; reflexivity. }
    eapply rtc_l; [left; apply (step_take false b4 _ _ _ b5 [row 3 "y"] 2); [done|]; vm_compute; reflexivity|].
    eapply rtc_l; [left; apply (step_persist false b5 [Flying [row 1 "x"] 1] [row 3 "y"] 2 [])|].
    eapply rtc_l; [left; apply (step_truncate false b5 [Flying [row 1 "x"] 1] [] _ _ all_read (fun _ => true))|].
    simpl. assert (Flush_truncate all_read (fun _ => true) b5 = b6) as -> by (vm_compute; reflexivity).
    apply rtc_refl.
  - apply (demo_restart b6 b7 4); vm_compute; reflexivity.
  - apply list_elem_of_here.
  - apply (bool_decide_eq_true_1 _). vm_compute. reflexivity.
  - apply (bool_decide_eq_true_1 _). vm_compute. reflexivity.
Qed.

End DurableDemo.
