(* ===== verification/FieldMapping.v ===== *)
(** * From rows to Parquet columns (internal/buffer/concurrent_buffer.go)

    Column-name sanitizing, the batch-wide mapping from field keys to column
    names, type inference, the schema and the JSON object of each row. The
    Parquet writer itself is a third-party package; what is modelled is
    everything it is given: a schema string and one object per row. *)

From S2P Require Import Prelude GoStrings.
From Stdlib Require Import Ascii.
#[local] Open Scope Z_scope.

(** The values an [interface{}] field can hold, as [inferParquetType]
    distinguishes them. A float is its IEEE 754 bits. *)
Inductive value :=
  | VBool (b : bool)
  | VInt (z : Z)
  | VFloat (bits : Z)
  | VNumber (s : string)     (* json.Number *)
  | VString (s : string)
  | VOther (json : string).  (* null, objects and arrays *)

#[export] Instance value_eq_dec : EqDecision value.
Proof. solve_decision. Defined.

Record DataRow := mkRow {
  row_ID : string;
  row_Timestamp : Z;
  row_Table : string;
  row_Fields : gmap string value;
}.

#[export] Instance DataRow_eq_dec : EqDecision DataRow.
Proof. solve_decision. Defined.

(** ** Column names *)

Definition in_range (lo hi : N) (c : ascii) : bool :=
  let n := N_of_ascii c in ((lo <=? n) && (n <=? hi))%N.

(** The complement of the regular expression's class. *)
Definition safe_char (c : ascii) : bool :=
  in_range 97 122 c || in_range 65 90 c || in_range 48 57 c || bool_decide (c = "_"%char).

(** Width of the rune at the front of a string; one for an invalid encoding
    ([utf8.DecodeRuneInString]). *)
Definition second_ok (c0 c1 : ascii) : bool :=
  if in_range 224 224 c0 then in_range 160 191 c1
  else if in_range 237 237 c0 then in_range 128 159 c1
  else if in_range 240 240 c0 then in_range 144 191 c1
  else if in_range 244 244 c0 then in_range 128 143 c1
  else in_range 128 191 c1.

Definition rune_width (s : string) : nat :=
  match s with
  | String c0 (String c1 s2) =>
      if in_range 194 223 c0 && second_ok c0 c1 then 2 else
      match s2 with
      | String c2 s3 =>
          if in_range 224 239 c0 && second_ok c0 c1 && in_range 128 191 c2 then 3 else
          match s3 with
          | String c3 _ =>
              if in_range 240 244 c0 && second_ok c0 c1 && in_range 128 191 c2 && in_range 128 191 c3
              then 4 else 1
          | "" => 1
          end
      | "" => 1
      end
  | _ => 1
  end.

(** [sanitizeColumnNameRe.ReplaceAllString(name, "_")]; [skip] counts the
    remaining bytes of the rune just replaced. *)
Fixpoint replace_unsafe (skip : nat) (s : string) : string :=
  match s with
  | "" => ""
  | String c s' =>
      match skip with
      | S k => replace_unsafe k s'
      | O => if safe_char c then String c (replace_unsafe 0 s')
             else String "_" (replace_unsafe (rune_width s - 1) s')
      end
  end.

Definition sanitizeColumnName (name : string) : string :=
  match replace_unsafe 0 name with
  | "" => "_col"
  | String c s => ToLower (if is_digit c then "_" +:+ String c s else String c s)
  end.

(** ** Types *)

(** [strconv.ParseInt(s, 10, 64)] *)
Fixpoint digits_value (acc : Z) (s : string) : option Z :=
  match s with
  | "" => Some acc
  | String c s' =>
      if is_digit c then digits_value (acc * 10 + (Z.of_N (N_of_ascii c) - 48)) s' else None
  end.

Definition parse_digits (s : string) : option Z :=
  match s with "" => None | _ => digits_value 0 s end.

Definition ParseInt64 (s : string) : option Z :=
  match s with
  | String "-" s' =>
      match parse_digits s' with
      | Some z => if z <=? 2 ^ 63 then Some (- z) else None
      | None => None
      end
  | _ =>
      match parse_digits (match s with String "+" s' => s' | _ => s end) with
      | Some z => if z <=? max_int64 then Some z else None
      | None => None
      end
  end.

Definition inferParquetType (v : value) : string :=
  match v with
  | VBool _ => "type=BOOLEAN"
  | VInt _ => "type=INT64"
  | VFloat _ => "type=DOUBLE"
  | VNumber s => match ParseInt64 s with Some _ => "type=INT64" | None => "type=DOUBLE" end
  | VString _ | VOther _ => "type=BYTE_ARRAY, convertedtype=UTF8"
  end.

(** ** The mapping *)

Definition systemColumnNames : list string := ["id"; "timestamp"; "table_name"].
Definition reserved (s : string) : bool := bool_decide (s ∈ systemColumnNames).

Definition seen_count (seen : gmap string Z) (s : string) : Z := default 0 (seen !! s).

Definition final_name (safe : string) (count : Z) : string :=
  if count =? 0 then safe else safe +:+ String "_" (Itoa (count + 1)).

Definition mapping_step (s : gmap string Z * gmap string string) (k : string)
    : gmap string Z * gmap string string :=
  let '(seen, result) := s in
  let safe := sanitizeColumnName k in
  let seen := if reserved safe && (seen_count seen safe =? 0) then <[safe := 1]> seen else seen in
  let count := seen_count seen safe in
  (<[safe := count + 1]> seen, <[k := final_name safe count]> result).

Definition buildGlobalFieldMapping {A} (fields : gmap string A) : gmap string string :=
  (foldl mapping_step (∅, ∅) (SortStrings (map_to_list fields).*1)).2.

(** [resolveFieldNames]: the mapping is walked in any order. *)
Definition resolveFieldNames (fields : gmap string value) (order : list (string * string))
    : gmap string value :=
  foldl (fun result '(k, col) =>
           match fields !! k with Some v => <[col := v]> result | None => result end) ∅ order.

(** ** Schema and rows *)

Definition dq : string := String "034" "".

Definition schema_field (body : string) : string :=
  "{" +:+ dq +:+ "Tag" +:+ dq +:+ ":" +:+ dq +:+ body +:+ dq +:+ "}".

Definition fixedFields : list string := [
  schema_field "name=id, type=BYTE_ARRAY, convertedtype=UTF8, repetitiontype=REQUIRED";
  schema_field "name=timestamp, type=INT64, convertedtype=TIMESTAMP_MICROS, repetitiontype=REQUIRED";
  schema_field "name=table_name, type=BYTE_ARRAY, convertedtype=UTF8, repetitiontype=REQUIRED" ].

Definition dynamic_field (fields : gmap string value) (p : string * string) : string :=
  schema_field ("name=" +:+ p.2 +:+ ", " +:+
    inferParquetType (default (VOther "null") (fields !! p.1)) +:+ ", repetitiontype=OPTIONAL").

Definition buildParquetSchemaJSONFromMapping (mapping : gmap string string)
    (fields : gmap string value) : string :=
  let dynamicFields := SortStrings (dynamic_field fields <$> map_to_list mapping) in
  "{" +:+ dq +:+ "Tag" +:+ dq +:+ ":" +:+ dq +:+ "name=parquet-go-root" +:+ dq +:+ "," +:+
  dq +:+ "Fields" +:+ dq +:+ ":[" +:+ Join "," (fixedFields ++ dynamicFields) +:+ "]}".

(** The object [marshalRowToJSONWithMapping] builds and then encodes; the
    fields are walked in any order. *)
Definition row_object (row : DataRow) (order : list (string * value))
    (keyToColName : gmap string string) : gmap string value :=
  let m := foldl (fun m '(k, v) =>
             match keyToColName !! k with Some col => <[col := v]> m | None => m end) ∅ order in
  <["table_name" := VString (row_Table row)]>
    (<["timestamp" := VInt (row_Timestamp row)]> (<["id" := VString (row_ID row)]> m)).

Definition marshalRowToJSON (row : DataRow) (order : list (string * value)) : gmap string value :=
  row_object row order (buildGlobalFieldMapping (row_Fields row)).

(** [writeParquetFile]: the union of the rows' fields, the first value seen
    for each; then the schema and one object per row. *)
Definition allFieldKeys (rows : list DataRow) : gmap string value :=
  foldl (fun acc row => acc ∪ row_Fields row) ∅ rows.

Definition writeParquetFile (rows : list DataRow) : option (string * list (gmap string value)) :=
  match rows with
  | [] => None
  | _ =>
      let fields := allFieldKeys rows in
      let keyToColName := buildGlobalFieldMapping fields in
      Some (buildParquetSchemaJSONFromMapping keyToColName fields,
            (fun row => row_object row (map_to_list (row_Fields row)) keyToColName) <$> rows)
  end.

(** ** Sanitized names *)

Definition column_char (c : ascii) : bool :=
  in_range 97 122 c || in_range 48 57 c || bool_decide (c = "_"%char).

Definition column_name (s : string) : bool :=
  match s with "" => false | String c _ => negb (is_digit c) && all_chars column_char s end.

Lemma replace_unsafe_safe skip s : all_chars safe_char (replace_unsafe skip s) = true.
Proof.
  revert skip. induction s as [|c s IH]; intros skip; simpl; [done|].
  destruct skip; [|apply IH]. destruct (safe_char c) eqn:E; simpl; rewrite ?E, IH; done.
Qed.

(** A property of all 256 bytes, checked on each. *)
Lemma ascii_forall (P : ascii -> bool) :
  forallb P (ascii_of_nat <$> seq 0 256) = true -> forall c, P c = true.
Proof.
  rewrite forallb_forall. intros H c. apply H. apply in_map_iff.
  exists (nat_of_ascii c). split; [apply ascii_nat_embedding|].
  apply in_seq. pose proof (nat_ascii_bounded c). lia.
Qed.

Lemma lower_safe c : safe_char c = true -> column_char (lower_char c) = true.
Proof.
  pose proof (ascii_forall (fun c => implb (safe_char c) (column_char (lower_char c)))) as H.
  specialize (H ltac:(vm_compute; reflexivity) c). simpl in H. intros E. by rewrite E in H.
Qed.

Lemma lower_digit c : is_digit (lower_char c) = is_digit c.
Proof.
  pose proof (ascii_forall (fun c => Bool.eqb (is_digit (lower_char c)) (is_digit c))) as H.
  apply eqb_prop. apply (H ltac:(vm_compute; reflexivity) c).
Qed.

Lemma lower_all s : all_chars safe_char s = true -> all_chars column_char (ToLower s) = true.
Proof.
  induction s as [|c s IH]; simpl; [done|]. intros [H1 H2]%andb_true_iff.
  rewrite lower_safe by done. by apply IH.
Qed.

Lemma sanitize_valid k : column_name (sanitizeColumnName k) = true.
Proof.
  unfold sanitizeColumnName. pose proof (replace_unsafe_safe 0 k) as H.
  destruct (replace_unsafe 0 k) as [|c s]; [done|].
  destruct (is_digit c) eqn:E.
  - change ("_" +:+ String c s) with (String "_" (String c s)). simpl.
    simpl in H. apply andb_true_iff in H as [H1 H2]. rewrite lower_safe by done. by apply lower_all.
  - simpl. rewrite lower_digit, E. simpl. simpl in H. apply andb_true_iff in H as [H1 H2].
    rewrite lower_safe by done. by apply lower_all.
Qed.

(** ** Final names *)

Lemma final_name_inj_count s i j : 0 <= i -> 0 <= j -> final_name s i = final_name s j -> i = j.
Proof.
  unfold final_name. intros Hi Hj.
  destruct (Z.eqb_spec i 0), (Z.eqb_spec j 0); subst; try done; intros H.
  - apply (f_equal String.length) in H. rewrite string_length_app in H. simpl in H. lia.
  - apply (f_equal String.length) in H. rewrite string_length_app in H. simpl in H. lia.
  - apply (inj (String.append s)) in H. injection H as H. apply Itoa_inj in H. lia.
Qed.

(** A numbered name is no other name's numbered name. *)
Lemma final_name_numbered s t i j :
  0 < i -> 0 < j -> final_name s i = final_name t j -> s = t.
Proof.
  unfold final_name. intros Hi Hj.
  destruct (Z.eqb_spec i 0), (Z.eqb_spec j 0); try lia. intros H.
  apply last_sep_inj in H as [H _]; [done|apply Itoa_no_underscore..].
Qed.

Lemma final_name_valid s i : 0 <= i -> column_name s = true -> column_name (final_name s i) = true.
Proof.
  unfold final_name. intros Hi. destruct (Z.eqb_spec i 0); [done|].
  destruct s as [|c s]; [done|]. cbn [column_name]. intros [H1 H2]%andb_true_iff.
  change (String c s +:+ String "_" (Itoa (i + 1))) with (String c (s +:+ String "_" (Itoa (i + 1)))).
  cbn [column_name]. apply andb_true_iff. split; [done|].
  cbn [all_chars] in *. apply andb_true_iff in H2 as [H2 H3]. rewrite H2, all_chars_app, H3.
  cbn [all_chars]. apply andb_true_iff. split; [done|].
  apply (all_chars_impl is_digit); [|apply Itoa_digits; lia].
  intros x Hx. unfold column_char, in_range. unfold is_digit in Hx. cbv zeta in *.
  by rewrite Hx, orb_true_r.
Qed.

(** ** The mapping's invariant *)

Record mapping_inv (s : gmap string Z * gmap string string) : Prop := {
  mi_name : forall k fn, s.2 !! k = Some fn -> exists i,
    0 <= i < seen_count s.1 (sanitizeColumnName k) /\ fn = final_name (sanitizeColumnName k) i /\
    (reserved (sanitizeColumnName k) = true -> 1 <= i);
  mi_inj : forall k k' fn, s.2 !! k = Some fn -> s.2 !! k' = Some fn -> k <> k' ->
    sanitizeColumnName k <> sanitizeColumnName k';
  mi_seen : forall s', 0 <= seen_count s.1 s';
}.

Lemma seen_insert m s n : seen_count (<[s := n]> m) s = n.
Proof. unfold seen_count. by rewrite lookup_insert_eq. Qed.

Lemma seen_insert_ne m s t n : t <> s -> seen_count (<[s := n]> m) t = seen_count m t.
Proof. intros. unfold seen_count. by rewrite lookup_insert_ne. Qed.

Lemma mapping_step_inv s k : mapping_inv s -> s.2 !! k = None -> mapping_inv (mapping_step s k).
Proof.
  destruct s as [seen result]. intros [Hn Hj Hs] Hk. simpl in *. unfold mapping_step.
  set (safe := sanitizeColumnName k).
  set (seen1 := if reserved safe && _ then _ else seen).
  assert (forall t, seen_count seen t <= seen_count seen1 t) as Hmono.
  { intros t. unfold seen1. destruct (reserved safe && (seen_count seen safe =? 0)) eqn:E; [|lia].
    b2p. destruct (decide (t = safe)) as [->|].
    - rewrite seen_insert. lia.
    - by rewrite seen_insert_ne. }
  assert (reserved safe = true -> 1 <= seen_count seen1 safe) as Hres.
  { intros E. unfold seen1. rewrite E. simpl. destruct (Z.eqb_spec (seen_count seen safe) 0).
    - by rewrite seen_insert.
    - specialize (Hs safe). lia. }
  assert (0 <= seen_count seen1 safe) as Hpos by (specialize (Hs safe); specialize (Hmono safe); lia).
  assert (forall t, seen_count seen1 t <= seen_count (<[safe := seen_count seen1 safe + 1]> seen1) t) as Hmono2.
  { intros t. destruct (decide (t = safe)) as [->|]; [rewrite seen_insert; lia|by rewrite seen_insert_ne]. }
  split; simpl.
  - intros k' fn. destruct (decide (k' = k)) as [->|].
    + rewrite lookup_insert_eq. intros [= <-]. exists (seen_count seen1 safe).
      fold safe. rewrite seen_insert. split_and!; auto; lia.
    + rewrite lookup_insert_ne by done. intros H. destruct (Hn _ _ H) as (i & Hi & E & Hr).
      exists i. split_and!; auto; [lia|].
      specialize (Hmono (sanitizeColumnName k')). specialize (Hmono2 (sanitizeColumnName k')). lia.
  - assert (forall k' fn, result !! k' = Some fn -> k' <> k ->
      fn = final_name safe (seen_count seen1 safe) -> sanitizeColumnName k' <> safe) as Hnew.
    { intros k' fn H Hne E Esafe. destruct (Hn _ _ H) as (i & Hi & Ei & _).
      rewrite Esafe in *. subst fn. apply final_name_inj_count in Ei; [|lia..].
      specialize (Hmono safe). lia. }
    intros k1 k2 fn. destruct (decide (k1 = k)) as [->|], (decide (k2 = k)) as [->|];
      rewrite ?lookup_insert_eq, ?lookup_insert_ne by done; intros H1 H2 Hne; try done.
    + simplify_eq. intros E. by eapply Hnew.
    + simplify_eq. by eapply Hnew.
    + eauto.
  - intros t. specialize (Hs t). specialize (Hmono t). specialize (Hmono2 t). lia.
Qed.

Lemma mapping_fold_inv ks s :
  NoDup ks -> (forall k, k ∈ ks -> s.2 !! k = None) -> mapping_inv s ->
  mapping_inv (foldl mapping_step s ks) /\
  dom (foldl mapping_step s ks).2 = dom s.2 ∪ list_to_set ks.
Proof.
  intros Hnd. revert s. induction Hnd as [|k ks Hk Hnd IH]; intros s Hnone Hi; simpl.
  - split; [done|set_solver].
  - destruct (IH (mapping_step s k)) as [Hi' Hd].
    + intros k' Hk'. destruct s as [seen result]. simpl in *.
      rewrite lookup_insert_ne by set_solver. apply Hnone. set_solver.
    + apply mapping_step_inv; [done|]. apply Hnone. set_solver.
    + split; [done|]. rewrite Hd. destruct s as [seen result]. simpl. rewrite dom_insert_L. set_solver.
Qed.

Lemma mapping_spec {A} (fields : gmap string A) :
  (exists seen, mapping_inv (seen, buildGlobalFieldMapping fields)) /\
  dom (buildGlobalFieldMapping fields) = dom fields.
Proof.
  unfold buildGlobalFieldMapping.
  set (ks := SortStrings _).
  assert (NoDup ks) as Hnd.
  { unfold ks. rewrite SortStrings_perm. apply NoDup_fst_map_to_list. }
  destruct (mapping_fold_inv ks (∅, ∅) Hnd) as [Hi Hd].
  - intros k _. done.
  - split; simpl.
    + intros k fn H. by rewrite lookup_empty in H.
    + intros k k' fn H. by rewrite lookup_empty in H.
    + intros s. unfold seen_count. rewrite lookup_empty. simpl. lia.
  - destruct (foldl mapping_step (∅, ∅) ks) as [seen result]. simpl in *. split; [by eauto|].
    rewrite Hd, dom_empty_L. apply set_eq. intros k.
    rewrite elem_of_union, elem_of_list_to_set. unfold ks. rewrite SortStrings_perm.
    rewrite list_elem_of_fmap, elem_of_dom. split.
    + intros [?|([k' v] & -> & H%elem_of_map_to_list)]; [set_solver|]. simpl. by eauto.
    + intros [v Hv]. right. exists (k, v). split; [done|]. by apply elem_of_map_to_list.
Qed.

(** ** Theorems *)

Lemma has_char_app c a b : has_char c (a +:+ b) = has_char c a || has_char c b.
Proof.
  induction a as [|x a IH]; [done|].
  change (bool_decide (x = c) || has_char c (a +:+ b) = bool_decide (x = c) || has_char c a || has_char c b).
  by rewrite IH, orb_assoc.
Qed.

Lemma numbered_not_reserved s i : 1 <= i -> reserved (final_name s i) = false.
Proof.
  intros Hi. unfold reserved. apply bool_decide_eq_false. unfold final_name.
  destruct (Z.eqb_spec i 0); [lia|]. intros H.
  assert (has_char "_" (s +:+ String "_" (Itoa (i + 1))) = true) as Hu.
  { rewrite has_char_app. simpl. apply orb_true_r. }
  unfold systemColumnNames in H. rewrite !elem_of_cons, elem_of_nil in H.
  destruct H as [E|[E|[E|[]]]]; try (rewrite E in Hu; done).
  apply (last_sep_inj "_" _ "table" _ "name") in E as [_ E]; [|apply Itoa_no_underscore|done].
  pose proof (Itoa_digits (i + 1)) as Hd. rewrite E in Hd. specialize (Hd ltac:(lia)). done.
Qed.

(** User fields never shadow a system column. Every column name the
    mapping gives to a field key is a valid name (lower-case letters, digits
    and underscores, not starting with a digit) and none of [id], [timestamp]
    and [table_name], whatever the field keys are. *)
Theorem system_columns_protected (fields : gmap string value) k col :
  buildGlobalFieldMapping fields !! k = Some col ->
  column_name col = true /\ reserved col = false.
Proof.
  intros H. destruct (mapping_spec fields) as [[seen [Hn _ _]] _]. simpl in Hn.
  destruct (Hn k col H) as (i & Hi & -> & Hr). split.
  - apply final_name_valid; [lia|apply sanitize_valid].
  - destruct (decide (i = 0)) as [->|].
    + unfold final_name. simpl. destruct (reserved _); [|done]. specialize (Hr eq_refl). lia.
    + apply numbered_not_reserved. lia.
Qed.

Lemma system_columns_protected_witness :
  column_name "timestamp_2" = true /\ reserved "timestamp_2" = false.
Proof.
  apply (system_columns_protected {[ "TimeStamp" := VInt 3 ]} "TimeStamp").
  vm_compute. reflexivity.
Defined.

(** No sanitized key is another one's name with a number. *)
Definition no_clash {A} (fields : gmap string A) : Prop :=
  forall k k' n, k ∈ dom fields -> k' ∈ dom fields -> 2 <= n ->
    sanitizeColumnName k <> sanitizeColumnName k' +:+ String "_" (Itoa n).

Lemma mapping_inj_lemma {A} (fields : gmap string A) k k' col :
  no_clash fields ->
  buildGlobalFieldMapping fields !! k = Some col -> buildGlobalFieldMapping fields !! k' = Some col ->
  k = k'.
Proof.
  intros Hc Hk Hk'. destruct (decide (k = k')) as [|Hne]; [done|exfalso].
  destruct (mapping_spec fields) as [[seen [Hn Hj _]] Hd]. simpl in *.
  pose proof (Hj _ _ _ Hk Hk' Hne) as Hs.
  assert (k ∈ dom fields) as D by (rewrite <- Hd; by eapply elem_of_dom_2).
  assert (k' ∈ dom fields) as D' by (rewrite <- Hd; by eapply elem_of_dom_2).
  destruct (Hn _ _ Hk) as (i & Hi & E & _). destruct (Hn _ _ Hk') as (j & Hj' & E' & _). subst col.
  destruct (decide (i = 0)) as [->|], (decide (j = 0)) as [->|].
  - done.
  - unfold final_name in E'. simpl in E'. destruct (Z.eqb_spec j 0); [done|].
    eapply (Hc k k' (j + 1)); [done|done|lia|exact E'].
  - unfold final_name in E'. simpl in E'. destruct (Z.eqb_spec i 0); [done|].
    eapply (Hc k' k (i + 1)); [done|done|lia|]. by symmetry.
  - apply Hs. apply (final_name_numbered _ _ i j); [lia|lia|done].
Qed.

(** Distinct fields get distinct columns, as long as no sanitized key
    reads like another one's numbered name. *)
Theorem mapping_injective (fields : gmap string value) k k' col :
  no_clash fields ->
  buildGlobalFieldMapping fields !! k = Some col -> buildGlobalFieldMapping fields !! k' = Some col ->
  k = k'.
Proof. apply mapping_inj_lemma. Qed.

(** Keys that sanitize to the same name, and a system name. *)
Definition demo_fields : gmap string value :=
  {[ "a b" := VInt 1; "a-b" := VInt 2; "ID" := VString "x" ]}.

Lemma demo_no_clash : no_clash demo_fields.
Proof.
  intros k k' n Hk Hk' Hn E.
  assert (forall k, k ∈ dom demo_fields -> sanitizeColumnName k = "a_b" \/ sanitizeColumnName k = "id") as H.
  { intros q Hq. unfold demo_fields in Hq. rewrite !dom_insert_L, dom_singleton_L in Hq.
    assert (q = "a b" \/ q = "a-b" \/ q = "ID") as Hq' by set_solver.
    destruct_or! Hq'; subst q; vm_compute; auto. }
  pose proof (Itoa_no_underscore n) as Hu. pose proof (Itoa_digits n ltac:(lia)) as Hd.
  destruct (H k Hk) as [Ek|Ek]; rewrite Ek in E.
  - apply (last_sep_inj "_" "a" _ "b") in E as [_ E]; [|done|done]. by rewrite <- E in Hd.
  - assert (has_char "_" "id" = true) as F; [|done].
    rewrite E, has_char_app. simpl. apply orb_true_r.
Qed.

Lemma mapping_injective_witness : "a-b" = "a-b".
Proof.
  apply (mapping_injective demo_fields "a-b" "a-b" "a_b_2"); [apply demo_no_clash| |];
    vm_compute; reflexivity.
Defined.

(** The mapping is not injective in general. The keys [A], [a] and [a_2]
    get the columns [a], [a_2] and [a_2]: a name that is already taken is not
    skipped, and one of two fields overwrites the other. *)
Theorem mapping_collision :
  let m := buildGlobalFieldMapping ({[ "A" := VInt 1; "a" := VInt 2; "a_2" := VInt 3 ]} : gmap string value) in
  m !! "a" = Some "a_2" /\ m !! "a_2" = Some "a_2".
Proof. vm_compute. by split. Qed.

(** The object before the system columns are set. *)
Lemma row_fields_lookup (keyToCol : gmap string string) (l : list (string * value)) (m0 : gmap string value) :
  NoDup l.*1 ->
  (forall k k' col, keyToCol !! k = Some col -> keyToCol !! k' = Some col -> k = k') ->
  let m := foldl (fun m '(k, v) =>
             match keyToCol !! k with Some col => <[col := v]> m | None => m end) m0 l in
  (forall k v col, (k, v) ∈ l -> keyToCol !! k = Some col -> m !! col = Some v) /\
  (forall col, (forall k v, (k, v) ∈ l -> keyToCol !! k <> Some col) -> m !! col = m0 !! col).
Proof.
  intros Hnd Hinj. revert m0. induction l as [|[k v] l IH]; intros m0; simpl.
  - split; [|done]. intros k v col H. by apply elem_of_nil in H.
  - inversion Hnd as [|? ? Hk Hnd']; subst. specialize (IH Hnd').
    destruct (IH (match keyToCol !! k with Some col => <[col := v]> m0 | None => m0 end)) as [H1 H2].
    split.
    + intros k' v' col Hin Hcol. apply elem_of_cons in Hin as [[= -> ->]|Hin]; [|eauto].
      rewrite H2, Hcol; [apply lookup_insert_eq|].
      intros k' v' Hin Hc'. assert (k' = k) as -> by eauto.
      apply Hk, list_elem_of_fmap. by exists (k, v').
    + intros col Hno. rewrite H2.
      * destruct (keyToCol !! k) as [c|] eqn:E; [|done]. rewrite lookup_insert_ne; [done|].
        intros ->. apply (Hno k v); [apply list_elem_of_here|done].
      * intros k' v' Hin. apply (Hno k' v'). by apply list_elem_of_further.
Qed.

Lemma allFieldKeys_dom rows row k :
  row ∈ rows -> k ∈ dom (row_Fields row) -> k ∈ dom (allFieldKeys rows).
Proof.
  unfold allFieldKeys.
  assert (forall acc, k ∈ dom acc \/ (row ∈ rows /\ k ∈ dom (row_Fields row)) ->
    k ∈ dom (foldl (fun (acc : gmap string value) row => acc ∪ row_Fields row) acc rows)) as H; [|auto].
  induction rows as [|r rows IH]; intros acc; simpl.
  - intros [H|[H _]]; [done|by apply elem_of_nil in H].
  - intros H. apply IH. rewrite dom_union_L, elem_of_union.
    destruct H as [H|[[->|H]%elem_of_cons Hk]]; auto.
Qed.

(** What is written for each row. *)
Lemma parquet_rows_lemma rows schema objs row obj i :
  no_clash (allFieldKeys rows) -> writeParquetFile rows = Some (schema, objs) ->
  rows !! i = Some row -> objs !! i = Some obj ->
  let mapping := buildGlobalFieldMapping (allFieldKeys rows) in
  obj !! "id" = Some (VString (row_ID row)) /\
  obj !! "timestamp" = Some (VInt (row_Timestamp row)) /\
  obj !! "table_name" = Some (VString (row_Table row)) /\
  (forall k v, row_Fields row !! k = Some v ->
     exists col, mapping !! k = Some col /\ obj !! col = Some v) /\
  (forall col, is_Some (obj !! col) -> reserved col = true \/
     exists k, k ∈ dom (row_Fields row) /\ mapping !! k = Some col).
Proof.
  intros Hc Hw Hrow Hobj mapping. destruct rows as [|r0 rows0]; [done|].
  set (rows := r0 :: rows0) in *. unfold writeParquetFile in Hw. fold rows in Hw. simpl in Hw.
  fold mapping in Hw. injection Hw as <- <-.
  change (((fun row => row_object row (map_to_list (row_Fields row)) mapping) <$> rows) !! i = Some obj) in Hobj.
  rewrite list_lookup_fmap, Hrow in Hobj. simpl in Hobj. injection Hobj as <-.
  destruct (row_fields_lookup mapping (map_to_list (row_Fields row)) ∅) as [H1 H2].
  { apply NoDup_fst_map_to_list. }
  { intros k k' col. by apply mapping_inj_lemma. }
  unfold row_object. set (m := foldl _ _ _) in *.
  assert (forall k col, mapping !! k = Some col -> reserved col = false) as Hres.
  { intros k col Hk. destruct (mapping_spec (allFieldKeys rows)) as [[seen [Hn _ _]] _]. simpl in Hn.
    destruct (Hn k col Hk) as (j & Hj & -> & Hr). destruct (decide (j = 0)) as [->|].
    - unfold final_name. simpl. destruct (reserved _); [|done]. specialize (Hr eq_refl). lia.
    - apply numbered_not_reserved. lia. }
  split_and!.
  - by rewrite !lookup_insert_ne, lookup_insert_eq by done.
  - by rewrite lookup_insert_ne, lookup_insert_eq by done.
  - by rewrite lookup_insert_eq.
  - intros k v Hk.
    assert (k ∈ dom mapping) as [col Hcol]%elem_of_dom.
    { unfold mapping. rewrite (proj2 (mapping_spec _)).
      eapply (allFieldKeys_dom _ row); [by eapply list_elem_of_lookup_2|by eapply elem_of_dom_2]. }
    exists col. split; [done|]. pose proof (Hres _ _ Hcol) as Hr.
    rewrite !lookup_insert_ne by (intros <-; by vm_compute in Hr).
    eapply H1; [by apply elem_of_map_to_list|done].
  - intros col Hs. destruct (reserved col) eqn:Er; [by left|right].
    rewrite !lookup_insert_ne in Hs by (intros <-; by vm_compute in Er).
    destruct (decide (Exists (fun p => mapping !! p.1 = Some col) (map_to_list (row_Fields row)))) as [He|He].
    + apply Exists_exists in He as ([k v] & Hin & Hk). exists k. split; [|done].
      apply elem_of_map_to_list in Hin. by eapply elem_of_dom_2.
    + rewrite H2 in Hs; [by destruct Hs|]. intros k v Hin Hk. apply He, Exists_exists. by exists (k, v).
Qed.

(** C12: what is written to Parquet. When the batch has no clashing keys, the
    object written for each row has the row's id, timestamp and table in the
    system columns, each of the row's fields in its own column under the
    batch-wide mapping, and nothing else. *)
Theorem parquet_rows_faithful rows schema objs row obj i :
  no_clash (allFieldKeys rows) -> writeParquetFile rows = Some (schema, objs) ->
  rows !! i = Some row -> objs !! i = Some obj ->
  let mapping := buildGlobalFieldMapping (allFieldKeys rows) in
  obj !! "id" = Some (VString (row_ID row)) /\
  obj !! "timestamp" = Some (VInt (row_Timestamp row)) /\
  obj !! "table_name" = Some (VString (row_Table row)) /\
  (forall k v, row_Fields row !! k = Some v ->
     exists col, mapping !! k = Some col /\ obj !! col = Some v) /\
  (forall col, is_Some (obj !! col) -> reserved col = true \/
     exists k, k ∈ dom (row_Fields row) /\ mapping !! k = Some col).
Proof. apply parquet_rows_lemma. Qed.

Definition demo_row : DataRow := mkRow "r1" 1700000000000000 "t" demo_fields.

Lemma parquet_rows_faithful_witness :
  let mapping := buildGlobalFieldMapping (allFieldKeys [demo_row]) in
  let obj := row_object demo_row (map_to_list demo_fields) mapping in
  obj !! "id" = Some (VString "r1") /\ obj !! "timestamp" = Some (VInt 1700000000000000) /\
  obj !! "table_name" = Some (VString "t") /\
  (forall k v, demo_fields !! k = Some v ->
     exists col, mapping !! k = Some col /\ obj !! col = Some v) /\
  (forall col, is_Some (obj !! col) -> reserved col = true \/
     exists k, k ∈ dom demo_fields /\ mapping !! k = Some col).
Proof.
  intros mapping obj.
  apply (parquet_rows_faithful [demo_row]
           (buildParquetSchemaJSONFromMapping mapping (allFieldKeys [demo_row])) [obj] demo_row obj 0).
  - assert (allFieldKeys [demo_row] = demo_fields) as -> by (vm_compute; reflexivity).
    apply demo_no_clash.
  - reflexivity.
  - reflexivity.
  - reflexivity.
Defined.
