(* ===== verification/ConcurrentBuffer.v ===== *)
(** * The concurrent buffer (internal/buffer/concurrent_buffer.go)

    Rows are buffered per key (table/id/day), logged, and handed to worker
    goroutines as flush tasks. Each method is modelled as the pieces that run
    under the mutex, so that pieces of concurrent calls can be interleaved,
    and as their sequential composition. What the runtime decides (which
    ready case of a [select] is taken, whether a flush to object storage
    succeeds, the order in which a map is walked) is an argument. *)

From S2P Require Import Prelude GoStrings GoTime WalCodec Wal DurableLog FieldMapping.
From Stdlib Require Import Ascii.
#[local] Open Scope Z_scope.

(** What the buffer uses of encoding/json for its two record types. *)
Class RowJSON := {
  row_marshal : string * DataRow -> option (list Z);
  row_unmarshal : list Z -> option (string * DataRow);
  tomb_marshal : string * string -> option (list Z);
  tomb_unmarshal : list Z -> option (string * string);
  row_valid : string * DataRow -> Prop;
  tomb_valid : string * string -> Prop;
  row_roundtrip r bs : row_valid r -> row_marshal r = Some bs -> row_unmarshal bs = Some r /\ bs <> [];
  tomb_roundtrip t bs : tomb_valid t -> tomb_marshal t = Some bs -> tomb_unmarshal bs = Some t;
}.

Record ConcurrentBufferConfig := mkCBConfig {
  BufferSize : Z;
  FlushInterval : Z;
  WorkerPoolSize : Z;
  TaskQueueSize : Z;
  BatchFlushSize : Z;
  EnableBatching : bool;
  FlushTimeout : Z;
  MaxRetries : Z;
  RetryDelay : Z;
  WALEnabled : bool;
  WALDir : string;
  WALSyncOnWrite : bool;
}.

Definition DefaultConcurrentBufferConfig : ConcurrentBufferConfig :=
  mkCBConfig 1000 (30 * second) 10 100 5 true (60 * second) 3 (1 * second) true "data/wal" true.

Definition emptyIDPlaceholder : string := "_".
Definition walFailThreshold : Z := 3.

Record FlushTask := mkTask {
  task_BufferKey : string;
  task_Rows : list DataRow;
  task_Priority : Z;
  task_Retries : Z;
  task_MaxSeqNum : Z;
}.

(** The fields of [ConcurrentBuffer] and of its [ConcurrentBufferStats] are
    grouped by what guards them; durations and averages that are only shown
    are left out.

    The rows in memory, with the counter of pending writes and the buffer
    size the statistics show. *)
Record memory := mkMem {
  buffer : gmap string (list DataRow);
  pendingWrites : Z;
  stat_BufferSize : Z;
}.

(** The log and what is kept about it. *)
Record logging {L : Type} := mkLogging {
  wal : option L;
  walEnabled : bool;
  lastFlushedSeq : gmap string Z;
  recoveryMaxSeqNum : Z;
  walFailCount : Z;
  walDegraded : bool;
}.
Arguments logging : clear implicits.

(** The task queue, the shutdown signal and the task statistics. *)
Record tasks := mkTasks {
  taskQueue : list FlushTask;
  shutdown : bool;
  TotalTasks : Z;
  CompletedTasks : Z;
  FailedTasks : Z;
}.

Definition rows_at (m : memory) (key : string) : list DataRow := default [] (buffer m !! key).

(** ** Memory *)

(** The first critical section of [Add]: the index of the new row is returned. *)
Definition mem_insert (key : string) (row : DataRow) (m : memory) : memory * nat :=
  let buf := <[key := rows_at m key ++ [row]]> (buffer m) in
  (mkMem buf (pendingWrites m + 1) (Z.of_nat (size buf)), length (rows_at m key)).

(** The rollback of [Add]: the row at the index is removed if there is one;
    the counter goes down in any case. *)
Definition mem_rollback (key : string) (idx : nat) (m : memory) : memory :=
  mkMem (match buffer m !! key with
         | Some rows =>
             if (idx <? length rows)%nat then
               match take idx rows ++ drop (S idx) rows with
               | [] => delete key (buffer m)
               | rows' => <[key := rows']> (buffer m)
               end
             else buffer m
         | None => buffer m
         end) (pendingWrites m - 1) (stat_BufferSize m).

(** The critical section of [triggerFlush]: the rows of a key are taken. *)
Definition mem_take (key : string) (force : bool) (m : memory) : memory * option (list DataRow) :=
  match buffer m !! key with
  | None => (m, None)
  | Some rows =>
      if negb force && bool_decide (rows = []) then (m, None)
      else (mkMem (delete key (buffer m)) (pendingWrites m - Zlength rows) (stat_BufferSize m), Some rows)
  end.

(** The rows of a table's keys that do not have an id; keys left without rows
    go away. [Remove] and the recovery of a tombstone do this. *)
Definition keep_row (id : string) (row : DataRow) : bool := negb (bool_decide (row_ID row = id)).

Definition without_id (tableName id : string) (buf : gmap string (list DataRow))
    : gmap string (list DataRow) :=
  map_imap (fun key rows =>
    if HasPrefix key (tableName +:+ "/") then
      match List.filter (keep_row id) rows with [] => None | rows' => Some rows' end
    else Some rows) buf.

Definition count_id (tableName id : string) (buf : gmap string (list DataRow)) : Z :=
  map_fold (fun key rows n =>
    if HasPrefix key (tableName +:+ "/")
    then n + Zlength (List.filter (fun r => negb (keep_row id r)) rows) else n) 0 buf.

Definition mem_remove (tableName id : string) (m : memory) : memory * Z :=
  let removed := count_id tableName id (buffer m) in
  let buf := without_id tableName id (buffer m) in
  (mkMem buf (if 0 <? removed then pendingWrites m - removed else pendingWrites m)
         (if 0 <? removed then Z.of_nat (size buf) else stat_BufferSize m), removed).

Definition in_table (tableName key : string) : bool := HasPrefix key (tableName +:+ "/").

Definition without_table (tableName : string) (buf : gmap string (list DataRow))
    : gmap string (list DataRow) :=
  map_imap (fun key rows => if in_table tableName key then None else Some rows) buf.

Definition count_table (tableName : string) (buf : gmap string (list DataRow)) : Z :=
  map_fold (fun key rows n => if in_table tableName key then n + Zlength rows else n) 0 buf.

Definition mem_clear_table (tableName : string) (m : memory) : memory * Z :=
  let removed := count_table tableName (buffer m) in
  let buf := without_table tableName (buffer m) in
  (mkMem buf (if 0 <? removed then pendingWrites m - removed else pendingWrites m)
         (if 0 <? removed then Z.of_nat (size buf) else stat_BufferSize m), removed).

Definition Get (key : string) (m : memory) : list DataRow := rows_at m key.
Definition GetAllKeys (m : memory) : list string := (map_to_list (buffer m)).*1.

(** [GetTableKeys] asks for at least one byte behind the prefix. *)
Definition GetTableKeys (tableName : string) (m : memory) : list string :=
  List.filter (fun key => (String.length (tableName +:+ "/") <? String.length key)%nat &&
                          in_table tableName key) (GetAllKeys m).

(** ** Keys *)

Section keys.
(** The local day of a Unix time in microseconds, as [2006-01-02]; the
    configured default table, if there is a configuration. *)
Context (dayStr : Z -> string) (defaultTable : option string).

Definition key_table (row : DataRow) : string :=
  if bool_decide (row_Table row = "")
  then match defaultTable with Some t => t | None => "default_table" end
  else row_Table row.

Definition key_id (row : DataRow) : string :=
  if bool_decide (row_ID row = "") then emptyIDPlaceholder else row_ID row.

Definition bufferKey (row : DataRow) : string :=
  key_table row +:+ String "/" (key_id row +:+ String "/" (dayStr (row_Timestamp row))).

End keys.

(** [updateRedisIndex]: the index entry of an uploaded object. *)
Definition redisKey (key : string) : option string :=
  match Split "/" key with
  | [tableName; id; day] =>
      Some ("index:table:" +:+ tableName +:+ ":id:" +:+ id +:+ ":" +:+ day)
  | _ => None
  end.

(** ** The buffer *)

Section buffer.
Context {L D : Type} {DL : DurableLog L D} {RJ : RowJSON}.
Context (dayStr : Z -> string) (defaultTable : option string).

Record ConcurrentBuffer := mkCB {
  config : ConcurrentBufferConfig;
  mem : memory;
  lg : logging L;
  tk : tasks;
}.

Definition with_mem (m : memory) (cb : ConcurrentBuffer) : ConcurrentBuffer :=
  mkCB (config cb) m (lg cb) (tk cb).
Definition with_lg (l : logging L) (cb : ConcurrentBuffer) : ConcurrentBuffer :=
  mkCB (config cb) (mem cb) l (tk cb).
Definition with_tk (t : tasks) (cb : ConcurrentBuffer) : ConcurrentBuffer :=
  mkCB (config cb) (mem cb) (lg cb) t.
Definition with_wal (w : L) (g : logging L) : logging L :=
  mkLogging _ (Some w) (walEnabled g) (lastFlushedSeq g) (recoveryMaxSeqNum g) (walFailCount g)
            (walDegraded g).

(** The log, if it is in use. *)
Definition active_wal (g : logging L) : option L := if walEnabled g then wal g else None.

(** *** Recovery *)

Record recovery := mkRecovery {
  rec_buffer : gmap string (list DataRow);
  rec_lastFlushedSeq : gmap string Z;
  rec_tombstones : gset string;
  rec_count : Z;
  rec_tombs : Z;
  rec_maxSeq : Z;
}.

Definition recover_handler (s : recovery) (record : Record_) : recovery * bool :=
  let maxSeq := if rec_maxSeq s <? SeqNum record then SeqNum record else rec_maxSeq s in
  let s := mkRecovery (rec_buffer s) (rec_lastFlushedSeq s) (rec_tombstones s) (rec_count s)
                      (rec_tombs s) maxSeq in
  if Type_ record =? RecordTypeData then
    match row_unmarshal (Data record) with
    | None => (s, true)
    | Some (key, row) =>
        if bool_decide (row_Table row +:+ "/" +:+ row_ID row ∈ rec_tombstones s) then (s, true) else
        (mkRecovery (<[key := default [] (rec_buffer s !! key) ++ [row]]> (rec_buffer s))
           (if default 0 (rec_lastFlushedSeq s !! key) <? SeqNum record
            then <[key := SeqNum record]> (rec_lastFlushedSeq s) else rec_lastFlushedSeq s)
           (rec_tombstones s) (rec_count s + 1) (rec_tombs s) maxSeq, true)
    end
  else if Type_ record =? RecordTypeTombstone then
    match tomb_unmarshal (Data record) with
    | None => (s, true)
    | Some (tableName, id) =>
        (mkRecovery (without_id tableName id (rec_buffer s)) (rec_lastFlushedSeq s)
           ({[tableName +:+ "/" +:+ id]} ∪ rec_tombstones s) (rec_count s) (rec_tombs s + 1) maxSeq, true)
    end
  else (s, true).

Definition recovery_start : recovery := mkRecovery ∅ ∅ ∅ 0 0 0.

Definition recoverFromWAL (rd : reads) (cb : ConcurrentBuffer) : ConcurrentBuffer :=
  match wal (lg cb) with
  | None => cb
  | Some w =>
      let '(s, ok) := log_replay rd recover_handler w
                        (mkRecovery (buffer (mem cb)) (lastFlushedSeq (lg cb)) ∅ 0 0 0) in
      let found := ok && ((0 <? rec_count s) || (0 <? rec_tombs s)) in
      let g := lg cb in
      mkCB (config cb)
        (mkMem (rec_buffer s) (if found then rec_count s else pendingWrites (mem cb))
               (if found then Z.of_nat (size (rec_buffer s)) else stat_BufferSize (mem cb)))
        (mkLogging _ (wal g) (walEnabled g) (rec_lastFlushedSeq s)
               (if found then rec_maxSeq s else recoveryMaxSeqNum g) (walFailCount g) (walDegraded g))
        (tk cb)
  end.

(** [NewConcurrentBuffer]: a log that cannot be opened is done without. *)
Definition NewConcurrentBuffer (e : Env) (mkdir_ok : bool) (rd rd2 : reads) (now : Z)
    (cfg : ConcurrentBufferConfig) (d : D) : D * ConcurrentBuffer :=
  let cb0 en w := mkCB cfg (mkMem ∅ 0 0) (mkLogging _ w en ∅ 0 0 false) (mkTasks [] false 0 0 0) in
  if WALEnabled cfg then
    let walCfg := mkConfig (WALSyncOnWrite cfg) (cfg_MaxFileSize DefaultConfig)
                           (cfg_SyncInterval DefaultConfig) in
    let '(d, res) := log_open e mkdir_ok rd now walCfg d in
    match res with
    | Err _ => (d, cb0 false None)
    | Ok w => (d, recoverFromWAL rd2 (cb0 true (Some w)))
    end
  else (d, cb0 false None).

(** *** Flushing *)

Definition trigger_take (key : string) (force : bool) (cb : ConcurrentBuffer)
    : ConcurrentBuffer * option FlushTask :=
  let '(m, rows) := mem_take key force (mem cb) in
  let maxSeqNum := if walEnabled (lg cb) then default 0 (lastFlushedSeq (lg cb) !! key) else 0 in
  (with_mem m cb, (fun rows => mkTask key rows 0 0 maxSeqNum) <$> rows).

(** What becomes of a task after one attempt to flush it. *)
Inductive task_result := Done | Retry (t : FlushTask) | GaveUp.

(** [processTask]; [flush_ok] says whether [flushData] succeeds, the other
    arguments are the outcomes [Truncate] sees. *)
Definition processTask (flush_ok : bool) (rd : reads) (rm_ok : string -> bool) (task : FlushTask)
    (cb : ConcurrentBuffer) : ConcurrentBuffer * task_result :=
  let t := tk cb in
  let completed f := mkTasks (taskQueue t) (shutdown t) (TotalTasks t) (CompletedTasks t + 1)
                             (FailedTasks t + f) in
  if flush_ok then
    let g := match active_wal (lg cb) with
             | Some w =>
                 if 0 <? task_MaxSeqNum task
                 then with_wal (log_truncate rd rm_ok (task_MaxSeqNum task) w).1 (lg cb)
                 else lg cb
             | None => lg cb
             end in
    (with_tk (completed 0) (with_lg g cb), Done)
  else if task_Retries task <? MaxRetries (config cb) then
    (with_tk (completed 0) cb,
     Retry (mkTask (task_BufferKey task) (task_Rows task) (task_Priority task + 1)
                   (task_Retries task + 1) (task_MaxSeqNum task)))
  else (with_tk (completed 1) cb, GaveUp).

(** The outcomes of the [select] that submits a task. *)
Inductive submit_outcome :=
  | Queued                              (* there is room *)
  | Immediate (flush_ok : bool)         (* shutting down: processed here *)
  | QueuedLate                          (* room within five seconds *)
  | DroppedShutdown                     (* shutdown while waiting for room *)
  | DroppedTimeout.                     (* no room within five seconds *)

Definition has_room (cb : ConcurrentBuffer) : bool :=
  Zlength (taskQueue (tk cb)) <? TaskQueueSize (config cb).

(** Which outcomes the state allows. *)
Definition submit_allowed (o : submit_outcome) (cb : ConcurrentBuffer) : bool :=
  match o with
  | Queued => has_room cb
  | Immediate _ => shutdown (tk cb)
  | _ => negb (has_room cb) && negb (shutdown (tk cb))
  end.

(** What became of a submitted task. The code does not return this; it is
    kept here to follow the rows. *)
Inductive fate := InQueue | Processed (r : task_result) | Dropped.

(** The end of [triggerFlush]. *)
Definition submit (o : submit_outcome) (task : FlushTask) (cb : ConcurrentBuffer)
    : ConcurrentBuffer * fate :=
  let t := tk cb in
  match o with
  | Queued =>
      (with_tk (mkTasks (taskQueue t ++ [task]) (shutdown t) (TotalTasks t + 1) (CompletedTasks t)
                        (FailedTasks t)) cb, InQueue)
  | Immediate flush_ok =>
      let '(cb, r) := processTask flush_ok all_read (fun _ => true) task cb in (cb, Processed r)
  | QueuedLate =>
      (with_tk (mkTasks (taskQueue t ++ [task]) (shutdown t) (TotalTasks t) (CompletedTasks t)
                        (FailedTasks t)) cb, InQueue)
  | DroppedShutdown => (cb, Dropped)
  | DroppedTimeout =>
      (with_tk (mkTasks (taskQueue t) (shutdown t) (TotalTasks t) (CompletedTasks t)
                        (FailedTasks t + 1)) cb, Dropped)
  end.

Definition triggerFlush (o : submit_outcome) (key : string) (force : bool) (cb : ConcurrentBuffer)
    : ConcurrentBuffer * option (FlushTask * fate) :=
  match trigger_take key force cb with
  | (cb, None) => (cb, None)
  | (cb, Some task) => let '(cb, f) := submit o task cb in (cb, Some (task, f))
  end.

(** [flushAllBuffers], [batchFlush] and [emergencyFlush] visit a snapshot of
    the keys, in batches or not; [batchFlush] for a positive batch size. *)
Definition flush_keys (o : submit_outcome) (keys : list string) (cb : ConcurrentBuffer)
    : ConcurrentBuffer :=
  foldl (fun cb key => (triggerFlush o key true cb).1) cb keys.

Fixpoint batchFlush (fuel : nat) (o : submit_outcome) (keys : list string) (cb : ConcurrentBuffer)
    : ConcurrentBuffer :=
  match fuel with
  | O => cb
  | S fuel =>
      match keys with
      | [] => cb
      | _ =>
          let n := Z.to_nat (BatchFlushSize (config cb)) in
          batchFlush fuel o (drop n keys) (flush_keys o (take n keys) cb)
      end
  end.

Definition flushAllBuffers (o : submit_outcome) (cb : ConcurrentBuffer) : ConcurrentBuffer :=
  let keys := GetAllKeys (mem cb) in
  if EnableBatching (config cb) && (BatchFlushSize (config cb) <? Zlength keys)
  then batchFlush (length keys) o keys cb
  else flush_keys o keys cb.

Definition emergencyFlush (o : submit_outcome) (cb : ConcurrentBuffer) : ConcurrentBuffer :=
  flush_keys o (GetAllKeys (mem cb)) cb.

(** [waitAndTruncateRecoveryWAL], one tick; [true] when it is done. *)
Definition truncate_recovery_tick (rd : reads) (rm_ok : string -> bool) (maxSeq : Z)
    (cb : ConcurrentBuffer) : ConcurrentBuffer * bool :=
  if bool_decide (buffer (mem cb) = ∅) && bool_decide (length (taskQueue (tk cb)) = 0%nat) then
    let g := lg cb in
    let w := match wal g with
             | Some w => Some (log_truncate rd rm_ok (uint64 (maxSeq + 1)) w).1
             | None => None
             end in
    (with_lg (mkLogging _ w (walEnabled g) (lastFlushedSeq g) 0 (walFailCount g) (walDegraded g)) cb, true)
  else (cb, false).

(** *** Adding and removing *)

(** [Add], the critical section: key, index, whether the key is full, and the
    bytes to log. *)
Definition Add_insert (row : DataRow) (cb : ConcurrentBuffer)
    : ConcurrentBuffer * (string * nat * bool * option (list Z)) :=
  let key := bufferKey dayStr defaultTable row in
  let '(m, idx) := mem_insert key row (mem cb) in
  let needFlush := BufferSize (config cb) <=? Z.of_nat (S idx) in
  let walData := match active_wal (lg cb) with
                 | Some _ => row_marshal (key, row)
                 | None => None
                 end in
  (with_mem m cb, (key, idx, needFlush, walData)).

(** [Add], the write to the log: [false] when the failure threshold is reached
    and the call fails. *)
Definition Add_log (e : Env) (key : string) (walData : option (list Z)) (cb : ConcurrentBuffer)
    : ConcurrentBuffer * bool :=
  match active_wal (lg cb), walData with
  | Some w, Some (b :: bs) =>
      let '(w, res) := log_append e RecordTypeData (b :: bs) w in
      let g := lg cb in
      match res with
      | Err _ =>
          let failCount := walFailCount g + 1 in
          let degraded := walFailThreshold <=? failCount in
          (with_lg (mkLogging _ (Some w) (walEnabled g) (lastFlushedSeq g) (recoveryMaxSeqNum g)
                      failCount (walDegraded g || degraded)) cb, negb degraded)
      | Ok seqNum =>
          (with_lg (mkLogging _ (Some w) (walEnabled g) (<[key := seqNum]> (lastFlushedSeq g))
                      (recoveryMaxSeqNum g) 0 false) cb, true)
      end
  | _, _ => (cb, true)
  end.

Definition Add_rollback (key : string) (idx : nat) (cb : ConcurrentBuffer) : ConcurrentBuffer :=
  with_mem (mem_rollback key idx (mem cb)) cb.

(** [Add] with nothing running in between; [false] when it returns an error.
    The emergency flush it then starts runs later. *)
Definition Add (e : Env) (o : submit_outcome) (row : DataRow) (cb : ConcurrentBuffer)
    : ConcurrentBuffer * bool * option (FlushTask * fate) :=
  let '(cb, (key, idx, needFlush, walData)) := Add_insert row cb in
  let '(cb, ok) := Add_log e key walData cb in
  if negb ok then (Add_rollback key idx cb, false, None) else
  if needFlush then let '(cb, f) := triggerFlush o key false cb in (cb, true, f)
  else (cb, true, None).

(** [Remove]: the tombstone is logged only when something was removed. *)
Definition Remove (e : Env) (tableName id : string) (cb : ConcurrentBuffer) : ConcurrentBuffer * Z :=
  let '(m, removed) := mem_remove tableName id (mem cb) in
  let cb := with_mem m cb in
  if 0 <? removed then
    match active_wal (lg cb), tomb_marshal (tableName, id) with
    | Some w, Some bs =>
        (with_lg (with_wal (log_append e RecordTypeTombstone bs w).1 (lg cb)) cb, removed)
    | _, _ => (cb, removed)
    end
  else (cb, removed).

Definition ClearTable (tableName : string) (cb : ConcurrentBuffer) : ConcurrentBuffer * Z :=
  let '(m, removed) := mem_clear_table tableName (mem cb) in
  let g := lg cb in
  let seqs := map_imap (fun key seq =>
                if in_table tableName key && bool_decide (is_Some (buffer (mem cb) !! key))
                then None else Some seq) (lastFlushedSeq g) in
  (mkCB (config cb) m
     (mkLogging _ (wal g) (walEnabled g) seqs (recoveryMaxSeqNum g) (walFailCount g) (walDegraded g))
     (tk cb), removed).

Definition PendingWrites (cb : ConcurrentBuffer) : Z := pendingWrites (mem cb).
Definition IsWALDegraded (cb : ConcurrentBuffer) : bool := walDegraded (lg cb).
Definition GetWALFailCount (cb : ConcurrentBuffer) : Z := walFailCount (lg cb).

End buffer.
Arguments ConcurrentBuffer : clear implicits.
