(* ===== verification/ConcurrentTheorems.v ===== *)
(** * What the concurrent buffer promises

    Conservation of rows and of the pending counter under any sequence of
    operations, the rollback of a failed add, draining, the recovery after a
    crash as a refinement of the buffer in memory, and concrete runs in which
    the promise fails. *)

From S2P Require Import Prelude GoStrings WalCodec Wal WalLemmas WalProofs DurableLog.
From S2P Require Import WalTheorems FieldMapping ConcurrentBuffer.
From Stdlib Require Import Ascii.
#[local] Open Scope Z_scope.

(** * Lemmas on the concurrent buffer's memory *)


(** All rows in memory, key by key. *)
Definition buffered (buf : gmap string (list DataRow)) : list DataRow := mjoin (map_to_list buf).*2.

Lemma buffered_fresh buf k rows :
  buf !! k = None -> buffered (<[k := rows]> buf) ≡ₚ rows ++ buffered buf.
Proof. intros H. unfold buffered. by rewrite map_to_list_insert. Qed.

Lemma buffered_delete buf k rows :
  buf !! k = Some rows -> buffered buf ≡ₚ rows ++ buffered (delete k buf).
Proof.
  intros H. rewrite <- (insert_delete_id buf k rows H) at 1.
  apply buffered_fresh, lookup_delete_eq.
Qed.

Lemma buffered_insert buf k rows :
  buffered (<[k := rows]> buf) ≡ₚ rows ++ buffered (delete k buf).
Proof. rewrite <- insert_delete_eq. apply buffered_fresh, lookup_delete_eq. Qed.

Lemma buffered_empty : buffered ∅ = [].
Proof. unfold buffered. by rewrite map_to_list_empty. Qed.

(** Rewriting every key's rows. *)
Lemma buffered_imap (f : string -> list DataRow -> option (list DataRow)) h buf :
  (forall k rows, default [] (f k rows) = h k rows) ->
  buffered (map_imap f buf) ≡ₚ mjoin ((fun p => h p.1 p.2) <$> map_to_list buf).
Proof.
  intros Hf. induction buf as [|k rows buf Hk IH] using map_ind.
  - by rewrite map_imap_empty, buffered_empty, map_to_list_empty.
  - assert (map_imap f buf !! k = None) as Hn by (by rewrite map_lookup_imap, Hk).
    rewrite map_to_list_insert by done. simpl. rewrite <- Hf, <- IH.
    destruct (f k rows) as [rows'|] eqn:E.
    + rewrite (map_imap_insert_Some _ _ _ _ rows') by done. by rewrite buffered_fresh.
    + rewrite map_imap_insert_None by done. by rewrite delete_id.
Qed.

(** Splitting every key's rows in two. *)
Lemma join_split {A B} (h1 h2 : A -> list B) (g : A -> list B) (l : list A) :
  (forall a, g a ≡ₚ h1 a ++ h2 a) -> mjoin (g <$> l) ≡ₚ mjoin (h1 <$> l) ++ mjoin (h2 <$> l).
Proof.
  intros H. induction l as [|a l IH]; simpl; [done|]. rewrite H, IH. solve_Permutation.
Qed.

Lemma filter_split {A} (P : A -> bool) l : l ≡ₚ List.filter P l ++ List.filter (fun x => negb (P x)) l.
Proof.
  induction l as [|x l IH]; simpl; [done|].
  destruct (P x); simpl; [by rewrite <- IH|]. rewrite IH at 1. solve_Permutation.
Qed.

(** The rows [Remove] and [ClearTable] take out. *)
Definition rows_with_id (tableName id : string) (buf : gmap string (list DataRow)) : list DataRow :=
  mjoin ((fun p => if HasPrefix p.1 (tableName +:+ "/")
                   then List.filter (fun r => negb (keep_row id r)) p.2 else []) <$> map_to_list buf).

Definition rows_of_table (tableName : string) (buf : gmap string (list DataRow)) : list DataRow :=
  mjoin ((fun p => if in_table tableName p.1 then p.2 else []) <$> map_to_list buf).

Lemma buffered_join buf : buffered buf = mjoin ((fun p => p.2) <$> map_to_list buf).
Proof. done. Qed.

Lemma buffered_without_id t id buf :
  buffered buf ≡ₚ buffered (without_id t id buf) ++ rows_with_id t id buf.
Proof.
  unfold without_id. rewrite (buffered_imap _ (fun k rows =>
    if HasPrefix k (t +:+ "/") then List.filter (keep_row id) rows else rows)).
  2:{ intros k rows. destruct (HasPrefix k (t +:+ "/")); [|done]. by destruct (List.filter _ rows). }
  rewrite buffered_join. unfold rows_with_id. apply join_split. intros [k rows]. simpl.
  destruct (HasPrefix k (t +:+ "/")); [apply filter_split|by rewrite app_nil_r].
Qed.

Lemma buffered_without_table t buf :
  buffered buf ≡ₚ buffered (without_table t buf) ++ rows_of_table t buf.
Proof.
  unfold without_table. rewrite (buffered_imap _ (fun k rows => if in_table t k then [] else rows)).
  2:{ intros k rows. by destruct (in_table t k). }
  rewrite buffered_join. unfold rows_of_table. apply join_split. intros [k rows]. simpl.
  destruct (in_table t k); [done|by rewrite app_nil_r].
Qed.

(** The counters agree with the rows. *)
Lemma map_fold_count (g : string -> list DataRow -> list DataRow) (buf : gmap string (list DataRow)) :
  map_fold (fun k rows n => n + Zlength (g k rows)) 0 buf =
  Zlength (mjoin ((fun p => g p.1 p.2) <$> map_to_list buf)).
Proof.
  rewrite map_fold_foldr. induction (map_to_list buf) as [|[k rows] l IH]; [done|].
  rewrite fmap_cons. cbn [foldr uncurry]. rewrite IH. simpl. rewrite length_app. lia.
Qed.

Lemma map_fold_proper {A} (f g : string -> list DataRow -> A -> A) (a : A) (buf : gmap string (list DataRow)) :
  (forall k rows x, f k rows x = g k rows x) -> map_fold f a buf = map_fold g a buf.
Proof.
  intros H. rewrite !map_fold_foldr. induction (map_to_list buf) as [|[k rows] l IH]; simpl; [done|].
  by rewrite IH, H.
Qed.

Lemma count_id_length t id buf : count_id t id buf = Zlength (rows_with_id t id buf).
Proof.
  etrans; [|exact (map_fold_count (fun k rows => if HasPrefix k (t +:+ "/")
    then List.filter (fun r => negb (keep_row id r)) rows else []) buf)].
  apply map_fold_proper. intros k rows n. destruct (HasPrefix _ _); simpl; lia.
Qed.

Lemma count_table_length t buf : count_table t buf = Zlength (rows_of_table t buf).
Proof.
  etrans; [|exact (map_fold_count (fun k rows => if in_table t k then rows else []) buf)].
  apply map_fold_proper. intros k rows n. destruct (in_table _ _); simpl; lia.
Qed.

(** ** The counter of pending writes *)

Definition pending_ok (m : memory) : Prop := pendingWrites m = Zlength (buffered (buffer m)).

(** No key without rows. *)
Definition no_empty (buf : gmap string (list DataRow)) : Prop := forall k, buf !! k <> Some [].

Lemma mem_insert_spec k row m m' idx :
  mem_insert k row m = (m', idx) ->
  buffered (buffer m') ≡ₚ row :: buffered (buffer m) /\ (pending_ok m -> pending_ok m') /\
  idx = length (rows_at m k) /\ buffer m' = <[k := rows_at m k ++ [row]]> (buffer m).
Proof.
  intros [= <- <-]. simpl.
  assert (buffered (<[k := rows_at m k ++ [row]]> (buffer m)) ≡ₚ row :: buffered (buffer m)) as E.
  { rewrite buffered_insert. unfold rows_at. destruct (buffer m !! k) as [rows|] eqn:Ek; simpl.
    - rewrite (buffered_delete (buffer m) k rows) by done. solve_Permutation.
    - by rewrite delete_id. }
  split_and!; [done| |done|done].
  unfold pending_ok. simpl. rewrite E. simpl. lia.
Qed.

Lemma mem_take_spec k force m m' r :
  mem_take k force m = (m', r) ->
  buffered (buffer m) ≡ₚ buffered (buffer m') ++ default [] r /\ (pending_ok m -> pending_ok m').
Proof.
  unfold mem_take. destruct (buffer m !! k) as [rows|] eqn:E; [|intros [= <- <-]; by rewrite app_nil_r].
  destruct (negb force && _); intros [= <- <-]; simpl; [by rewrite app_nil_r|].
  rewrite (buffered_delete _ k rows E). split; [solve_Permutation|].
  unfold pending_ok. simpl. rewrite (buffered_delete _ k rows E), length_app. lia.
Qed.

Lemma mem_remove_spec t id m m' n :
  mem_remove t id m = (m', n) ->
  buffered (buffer m) ≡ₚ buffered (buffer m') ++ rows_with_id t id (buffer m) /\
  (pending_ok m -> pending_ok m') /\ n = Zlength (rows_with_id t id (buffer m)) /\
  buffer m' = without_id t id (buffer m).
Proof.
  intros [= <- <-]. simpl. rewrite count_id_length. pose proof (buffered_without_id t id (buffer m)) as E.
  split_and!; [done| |done|done].
  unfold pending_ok. simpl. rewrite E, length_app. intros ->.
  destruct (Z.ltb_spec 0 (Zlength (rows_with_id t id (buffer m)))); lia.
Qed.

Lemma mem_clear_spec t m m' n :
  mem_clear_table t m = (m', n) ->
  buffered (buffer m) ≡ₚ buffered (buffer m') ++ rows_of_table t (buffer m) /\
  (pending_ok m -> pending_ok m').
Proof.
  intros [= <- <-]. simpl. rewrite count_table_length. pose proof (buffered_without_table t (buffer m)) as E.
  split; [done|]. unfold pending_ok. simpl. rewrite E, length_app. intros ->.
  destruct (Z.ltb_spec 0 (Zlength (rows_of_table t (buffer m)))); lia.
Qed.

(** *** Rolling back an insert

    What other calls do to the memory while an [Add] is between its insert and
    its rollback: insert rows, under any key, and take the rows of keys. *)
Inductive other_op := OtherInsert (k : string) (row : DataRow) | OtherTake (k : string) (force : bool).

Definition other (m : memory) (o : other_op) : memory :=
  match o with
  | OtherInsert k row => (mem_insert k row m).1
  | OtherTake k force => (mem_take k force m).1
  end.

(** The operation does not take the rows of the key. *)
Definition spares (key : string) (o : other_op) : Prop :=
  match o with OtherInsert _ _ => True | OtherTake k _ => k <> key end.

(** [m'] is [m] with one more row, at an index of the key. *)
Record ahead (key : string) (row : DataRow) (idx : nat) (m m' : memory) : Prop := {
  ah_idx : (idx <= length (rows_at m key))%nat;
  ah_rows : buffer m' = <[key := take idx (rows_at m key) ++ row :: drop idx (rows_at m key)]> (buffer m);
  ah_pending : pendingWrites m' = pendingWrites m + 1;
  ah_no_empty : no_empty (buffer m);
}.

Lemma mem_insert_no_empty k row m m' idx :
  mem_insert k row m = (m', idx) -> no_empty (buffer m) -> no_empty (buffer m').
Proof.
  intros [= <- <-] Hne k'. simpl. destruct (decide (k' = k)) as [->|].
  - rewrite lookup_insert_eq. by destruct (rows_at m k).
  - by rewrite lookup_insert_ne.
Qed.

Lemma mem_take_no_empty k force m m' r :
  mem_take k force m = (m', r) -> no_empty (buffer m) -> no_empty (buffer m').
Proof.
  unfold mem_take. intros H Hne. destruct (buffer m !! k); [|by simplify_eq].
  destruct (_ && _); simplify_eq; [done|]. intros k'. simpl.
  destruct (decide (k' = k)) as [->|]; [by rewrite lookup_delete_eq|by rewrite lookup_delete_ne].
Qed.

Lemma insert_ahead key row m m' idx :
  no_empty (buffer m) -> mem_insert key row m = (m', idx) -> ahead key row idx m m'.
Proof.
  intros Hne [= <- <-]. split; simpl; [done| |done|done]. by rewrite take_ge, drop_ge by done.
Qed.

Lemma other_ahead key row idx m m' o :
  spares key o -> ahead key row idx m m' -> ahead key row idx (other m o) (other m' o).
Proof.
  intros Hsp [Hi Hr Hp Hne]. destruct o as [k r|k force]; cbn [other spares] in *.
  - destruct (decide (k = key)) as [->|Hk].
    + assert (rows_at m' key = take idx (rows_at m key) ++ row :: drop idx (rows_at m key)) as E
        by (unfold rows_at at 1; by rewrite Hr, lookup_insert_eq).
      assert (rows_at (mem_insert key r m).1 key = rows_at m key ++ [r]) as E2
        by (unfold rows_at at 1; simpl; by rewrite lookup_insert_eq).
      split; rewrite ?E2.
      * rewrite length_app. lia.
      * cbn. rewrite E, Hr, !insert_insert_eq, take_app_le, drop_app_le by lia. by rewrite <- app_assoc.
      * cbn. lia.
      * exact (mem_insert_no_empty key r m _ _ (surjective_pairing _) Hne).
    + assert (rows_at m' k = rows_at m k) as E by (unfold rows_at; by rewrite Hr, lookup_insert_ne).
      assert (rows_at (mem_insert k r m).1 key = rows_at m key) as E2
        by (unfold rows_at; simpl; by rewrite lookup_insert_ne).
      split; rewrite ?E2; cbn.
      * done.
      * by rewrite E, Hr, insert_insert_ne.
      * lia.
      * exact (mem_insert_no_empty k r m _ _ (surjective_pairing _) Hne).
  - unfold mem_take. rewrite Hr, lookup_insert_ne by done.
    destruct (buffer m !! k) as [rows|] eqn:Ek; [|by split].
    destruct (negb force && _); [by split|]. cbn.
    assert (rows_at (mkMem (delete k (buffer m)) (pendingWrites m - Zlength rows) (stat_BufferSize m)) key
            = rows_at m key) as E by (unfold rows_at; simpl; by rewrite lookup_delete_ne).
    split; rewrite ?E; cbn; [done|by rewrite delete_insert_ne|lia|].
    intros k'. destruct (decide (k' = k)) as [->|]; [by rewrite lookup_delete_eq|by rewrite lookup_delete_ne].
Qed.

Lemma others_ahead key row idx ops m m' :
  Forall (spares key) ops -> ahead key row idx m m' ->
  ahead key row idx (foldl other m ops) (foldl other m' ops).
Proof.
  intros Hs. revert m m'. induction Hs as [|o ops Ho _ IH]; intros m m' Ha; [done|]. simpl.
  by apply IH, other_ahead.
Qed.

(** Rolling back takes out exactly the row that is ahead. *)
Lemma rollback_ahead key row idx m m' :
  ahead key row idx m m' ->
  buffer (mem_rollback key idx m') = buffer m /\ pendingWrites (mem_rollback key idx m') = pendingWrites m.
Proof.
  intros [Hi Hr Hp Hne]. unfold mem_rollback. cbn [buffer pendingWrites]. split; [|lia].
  rewrite Hr, lookup_insert_eq. set (rows := rows_at m key) in *.
  assert (length (take idx rows) = idx) as Hl by (rewrite length_take; lia).
  assert ((idx <? length (take idx rows ++ row :: drop idx rows))%nat = true) as ->.
  { apply Nat.ltb_lt. rewrite length_app, Hl. simpl. lia. }
  rewrite take_app_length' by done.
  replace (drop (S idx) (take idx rows ++ row :: drop idx rows)) with (drop idx rows).
  2: { rewrite drop_app_ge, Hl by lia. by replace (S idx - idx)%nat with 1%nat by lia. }
  rewrite take_drop. subst rows. unfold rows_at in *. destruct (buffer m !! key) as [rows|] eqn:E; simpl.
  - destruct rows as [|r rows]; [by destruct (Hne key)|]. by rewrite insert_insert_eq, insert_id.
  - by rewrite delete_insert_id.
Qed.

(** Rolling back right after inserting restores the buffer. *)
Lemma rollback_insert k row m m' idx :
  no_empty (buffer m) -> mem_insert k row m = (m', idx) ->
  buffer (mem_rollback k idx m') = buffer m /\
  pendingWrites (mem_rollback k idx m') = pendingWrites m.
Proof. intros Hne H. by eapply rollback_ahead, insert_ahead. Qed.

(** * Theorems *)


Section theorems.
Context {L D : Type} {DL : DurableLog L D} {RJ : RowJSON}.
Context (dayStr : Z -> string) (defaultTable : option string).

Abbreviation CB := (ConcurrentBuffer L).

(** ** Conservation *)

Definition queue_rows (q : list FlushTask) : list DataRow := mjoin (task_Rows <$> q).

(** The buffer, the failed tasks waiting for their retry, the rows flushed,
    the rows dropped or removed, and the rows whose [Add] succeeded. *)
Record book := mkBook {
  bk_cb : CB;
  bk_waiting : list FlushTask;
  bk_flushed : list DataRow;
  bk_gone : list DataRow;
  bk_accepted : list DataRow;
}.

Inductive op :=
  | OpAdd (e : Env) (o : submit_outcome) (row : DataRow)
  | OpFlush (o : submit_outcome) (key : string) (force : bool)
  | OpWorker (flush_ok : bool) (rd : reads) (rm_ok : string -> bool)   (* the next task of the queue *)
  | OpRetry                                                     (* a waiting task is queued again *)
  | OpAbandon                                                   (* or given up at shutdown *)
  | OpRemove (e : Env) (tableName id : string)
  | OpClear (tableName : string)
  | OpShutdown.

Definition settle_result (t : FlushTask) (r : task_result) (b : book) : book :=
  match r with
  | Done => mkBook (bk_cb b) (bk_waiting b) (bk_flushed b ++ task_Rows t) (bk_gone b) (bk_accepted b)
  | Retry t' => mkBook (bk_cb b) (bk_waiting b ++ [t']) (bk_flushed b) (bk_gone b) (bk_accepted b)
  | GaveUp => mkBook (bk_cb b) (bk_waiting b) (bk_flushed b) (bk_gone b ++ task_Rows t) (bk_accepted b)
  end.

Definition settle (f : option (FlushTask * fate)) (b : book) : book :=
  match f with
  | None | Some (_, InQueue) => b
  | Some (t, Processed r) => settle_result t r b
  | Some (t, Dropped) =>
      mkBook (bk_cb b) (bk_waiting b) (bk_flushed b) (bk_gone b ++ task_Rows t) (bk_accepted b)
  end.

Definition set_queue (q : list FlushTask) (cb : CB) : CB :=
  let t := tk cb in with_tk (mkTasks q (shutdown t) (TotalTasks t) (CompletedTasks t) (FailedTasks t)) cb.

Definition exec (b : book) (o : op) : book :=
  let cb := bk_cb b in
  match o with
  | OpAdd e o row =>
      let '(cb, ok, f) := Add dayStr defaultTable e o row cb in
      settle f (mkBook cb (bk_waiting b) (bk_flushed b) (bk_gone b)
                  (if (ok : bool) then bk_accepted b ++ [row] else bk_accepted b))
  | OpFlush o key force =>
      let '(cb, f) := triggerFlush o key force cb in
      settle f (mkBook cb (bk_waiting b) (bk_flushed b) (bk_gone b) (bk_accepted b))
  | OpWorker flush_ok rd rm =>
      match taskQueue (tk cb) with
      | [] => b
      | t :: q =>
          let '(cb, r) := processTask flush_ok rd rm t (set_queue q cb) in
          settle_result t r (mkBook cb (bk_waiting b) (bk_flushed b) (bk_gone b) (bk_accepted b))
      end
  | OpRetry =>
      match bk_waiting b with
      | [] => b
      | t :: w => mkBook (set_queue (taskQueue (tk cb) ++ [t]) cb) w (bk_flushed b) (bk_gone b) (bk_accepted b)
      end
  | OpAbandon =>
      match bk_waiting b with
      | [] => b
      | t :: w => mkBook cb w (bk_flushed b) (bk_gone b ++ task_Rows t) (bk_accepted b)
      end
  | OpRemove e tbl id =>
      mkBook (Remove e tbl id cb).1 (bk_waiting b) (bk_flushed b)
             (bk_gone b ++ rows_with_id tbl id (buffer (mem cb))) (bk_accepted b)
  | OpClear tbl =>
      mkBook (ClearTable tbl cb).1 (bk_waiting b) (bk_flushed b)
             (bk_gone b ++ rows_of_table tbl (buffer (mem cb))) (bk_accepted b)
  | OpShutdown =>
      let t := tk cb in
      mkBook (with_tk (mkTasks (taskQueue t) true (TotalTasks t) (CompletedTasks t) (FailedTasks t)) cb)
             (bk_waiting b) (bk_flushed b) (bk_gone b) (bk_accepted b)
  end.

Record balanced (b : book) : Prop := {
  bal_rows : bk_accepted b ≡ₚ buffered (buffer (mem (bk_cb b))) ++ queue_rows (taskQueue (tk (bk_cb b))) ++
               queue_rows (bk_waiting b) ++ bk_flushed b ++ bk_gone b;
  bal_pending : pending_ok (mem (bk_cb b));
  bal_keys : no_empty (buffer (mem (bk_cb b)));
}.

Lemma queue_rows_app q q' : queue_rows (q ++ q') = queue_rows q ++ queue_rows q'.
Proof. unfold queue_rows. by rewrite fmap_app, join_app. Qed.

Lemma queue_rows_one t : queue_rows [t] = task_Rows t.
Proof. unfold queue_rows. simpl. by rewrite app_nil_r. Qed.

(** *** What the operations leave alone *)

Lemma processTask_mem fo rd rm t (cb cb' : CB) r :
  processTask fo rd rm t cb = (cb', r) ->
  mem cb' = mem cb /\ taskQueue (tk cb') = taskQueue (tk cb) /\
  match r with Retry t' => task_Rows t' = task_Rows t | _ => True end.
Proof. unfold processTask. intros H. destruct fo; [simplify_eq; by simpl|]. case_all; by simplify_eq. Qed.

Lemma Add_log_mem e k wd (cb cb' : CB) ok :
  Add_log e k wd cb = (cb', ok) -> mem cb' = mem cb /\ tk cb' = tk cb /\ config cb' = config cb.
Proof.
  unfold Add_log. intros H. destruct (active_wal (lg cb)), wd as [[|]|]; simplify_eq; try done.
  destruct (log_append _ _ _ _) as [w [n|er]]; by simplify_eq.
Qed.

(** A submitted task is in the queue, or its rows are where its fate says. *)
Lemma submit_spec o t (cb cb' : CB) f b :
  submit o t cb = (cb', f) -> bk_cb b = cb' ->
  mem cb' = mem cb /\
  bk_cb (settle (Some (t, f)) b) = cb' /\ bk_accepted (settle (Some (t, f)) b) = bk_accepted b /\
  queue_rows (taskQueue (tk cb')) ++ queue_rows (bk_waiting (settle (Some (t, f)) b)) ++
    bk_flushed (settle (Some (t, f)) b) ++ bk_gone (settle (Some (t, f)) b) ≡ₚ
  task_Rows t ++ queue_rows (taskQueue (tk cb)) ++ queue_rows (bk_waiting b) ++ bk_flushed b ++ bk_gone b.
Proof.
  intros H Hb. destruct o as [|fo| | |]; simpl in H.
  - injection H as <- <-. split_and!; try done. simpl. rewrite queue_rows_app, queue_rows_one. solve_Permutation.
  - destruct (processTask _ _ _ _ _) as [cb1 r] eqn:E. injection H as <- <-.
    destruct (processTask_mem _ _ _ _ _ _ _ E) as (Em & Hq & Hr).
    destruct r as [|t'|]; simpl; rewrite Hq; split_and!; try done; try solve_Permutation.
    rewrite queue_rows_app, queue_rows_one, Hr. solve_Permutation.
  - injection H as <- <-. split_and!; try done. simpl. rewrite queue_rows_app, queue_rows_one. solve_Permutation.
  - injection H as <- <-. split_and!; try done. simpl. solve_Permutation.
  - injection H as <- <-. split_and!; try done. simpl. solve_Permutation.
Qed.

Lemma triggerFlush_balanced o k force (b b' : book) f :
  balanced b -> triggerFlush o k force (bk_cb b) = (bk_cb b', f) ->
  bk_waiting b' = bk_waiting b -> bk_flushed b' = bk_flushed b -> bk_gone b' = bk_gone b ->
  bk_accepted b' = bk_accepted b -> balanced (settle f b').
Proof.
  intros [Hr Hp Hk] H Ew Ef Eg Ea. unfold triggerFlush, trigger_take in H.
  destruct (mem_take k force (mem (bk_cb b))) as [m rows] eqn:Et.
  destruct (mem_take_spec _ _ _ _ _ Et) as [Hrows Hpend].
  pose proof (mem_take_no_empty _ _ _ _ _ Et Hk) as Hne.
  destruct rows as [rows|]; simpl in H.
  - destruct (submit _ _ _) as [cb1 f1] eqn:Es. simplify_eq.
    destruct (submit_spec _ _ _ _ _ b' Es) as (Em & Ecb & Eacc & Hq); [done|].
    split; rewrite Ecb; [|rewrite Em; by apply Hpend|by rewrite Em].
    rewrite Eacc, Em, Ea, Hr, Hrows. simpl. simpl in Hq. rewrite Hq, Ew, Ef, Eg. solve_Permutation.
  - injection H as Hcb <-. split; simpl.
    + rewrite <- Hcb, Ew, Ef, Eg, Ea, Hr. simpl. rewrite Hrows. simpl. by rewrite app_nil_r.
    + rewrite <- Hcb. by apply Hpend.
    + by rewrite <- Hcb.
Qed.

Lemma without_id_no_empty t id buf : no_empty buf -> no_empty (without_id t id buf).
Proof.
  intros Hne k. unfold without_id. rewrite map_lookup_imap.
  destruct (buf !! k) as [rows|] eqn:E; simpl; [|done].
  destruct (HasPrefix _ _); [by destruct (List.filter _ _)|]. intros [= ->]. by apply (Hne k).
Qed.

Lemma without_table_no_empty t buf : no_empty buf -> no_empty (without_table t buf).
Proof.
  intros Hne k. unfold without_table. rewrite map_lookup_imap.
  destruct (buf !! k) as [rows|] eqn:E; simpl; [|done].
  destruct (in_table _ _); [done|]. intros [= ->]. by apply (Hne k).
Qed.

Lemma Add_balanced e o row b : balanced b -> balanced (exec b (OpAdd e o row)).
Proof.
  intros [Hr Hp Hk]. unfold exec, Add, Add_insert.
  set (key := bufferKey dayStr defaultTable row).
  destruct (mem_insert key row (mem (bk_cb b))) as [m idx] eqn:Em.
  destruct (mem_insert_spec _ _ _ _ _ Em) as (Hrows & Hpend & _ & _).
  pose proof (mem_insert_no_empty _ _ _ _ _ Em Hk) as Hne.
  destruct (Add_log e key _ _) as [cb1 ok] eqn:El.
  destruct (Add_log_mem _ _ _ _ _ _ El) as (Em1 & Et1 & _). simpl in Em1, Et1.
  destruct ok; cbn [negb].
  - assert (balanced (mkBook cb1 (bk_waiting b) (bk_flushed b) (bk_gone b) (bk_accepted b ++ [row]))) as Hb1.
    { split; simpl; rewrite ?Em1, ?Et1; [|by apply Hpend|done].
      rewrite Hrows, Hr. solve_Permutation. }
    destruct (BufferSize _ <=? _); [|done].
    destruct (triggerFlush o key false cb1) as [cb2 f] eqn:Ef.
    eapply triggerFlush_balanced; [exact Hb1|exact Ef|done..].
  - destruct (rollback_insert _ _ _ _ _ Hk Em) as [Eb Ep].
    unfold Add_rollback. rewrite Em1. generalize dependent (mem_rollback key idx m). intros m2 Eb Ep.
    split; simpl; rewrite ?Et1, ?Eb; [done| |done]. unfold pending_ok. by rewrite Eb, Ep.
Qed.

Lemma Remove_mem e t id (cb : CB) :
  mem (Remove e t id cb).1 = (mem_remove t id (mem cb)).1 /\ tk (Remove e t id cb).1 = tk cb.
Proof.
  unfold Remove. destruct (mem_remove t id (mem cb)) as [m n]. simpl.
  destruct (0 <? n); [|done]. destruct (active_wal (lg cb)), (tomb_marshal (t, id)); done.
Qed.

Lemma exec_balanced b o : balanced b -> balanced (exec b o).
Proof.
  intros Hb. pose proof Hb as [Hr Hp Hk].
  destruct o as [e o row|o key force|fo rd rm| | |e t id|t|].
  - by apply Add_balanced.
  - unfold exec. destruct (triggerFlush o key force (bk_cb b)) as [cb f] eqn:E.
    eapply triggerFlush_balanced; [exact Hb|exact E|done..].
  - unfold exec. destruct (taskQueue (tk (bk_cb b))) as [|t q] eqn:Eq; [done|].
    destruct (processTask fo rd rm t _) as [cb r] eqn:E.
    destruct (processTask_mem _ _ _ _ _ _ _ E) as (Em & Hq & Hrt). simpl in Em, Hq.
    change (t :: q) with ([t] ++ q) in Hr.
    rewrite queue_rows_app, queue_rows_one in Hr.
    destruct r as [|t'|]; split; simpl; rewrite ?Em, ?Hq; auto; rewrite Hr;
      rewrite ?queue_rows_app, ?queue_rows_one, ?Hrt; solve_Permutation.
  - unfold exec. destruct (bk_waiting b) as [|t w] eqn:Eq; [done|]. split; simpl; auto.
    change (t :: w) with ([t] ++ w) in Hr. rewrite queue_rows_app, queue_rows_one in Hr.
    rewrite Hr, queue_rows_app, queue_rows_one. solve_Permutation.
  - unfold exec. destruct (bk_waiting b) as [|t w] eqn:Eq; [done|]. split; simpl; auto.
    change (t :: w) with ([t] ++ w) in Hr. rewrite queue_rows_app, queue_rows_one in Hr.
    rewrite Hr. solve_Permutation.
  - unfold exec. destruct (Remove_mem e t id (bk_cb b)) as [Em Et].
    destruct (mem_remove t id (mem (bk_cb b))) as [m n] eqn:E.
    destruct (mem_remove_spec _ _ _ _ _ E) as (Hrows & Hpend & _ & Eb). simpl in Em.
    split; simpl; rewrite ?Em, ?Et; [|by apply Hpend|rewrite Eb; by apply without_id_no_empty].
    rewrite Hr, Hrows. solve_Permutation.
  - unfold exec, ClearTable. destruct (mem_clear_table t (mem (bk_cb b))) as [m n] eqn:E.
    destruct (mem_clear_spec _ _ _ _ E) as (Hrows & Hpend). simpl.
    split; simpl; [|by apply Hpend|].
    + rewrite Hr, Hrows. solve_Permutation.
    + injection E as <- _. by apply without_table_no_empty.
  - split; simpl; auto.
Qed.

Definition fresh_book (cb : CB) : book := mkBook cb [] [] [] (buffered (buffer (mem cb))).

(** C9: no row appears or disappears. From a buffer with an empty queue and a
    right counter, over any sequence of adds, flushes, worker steps (succeeding
    or failing), retries, removals, table drops and shutdown, whatever the log
    and the object store do: the rows whose add succeeded are, as a multiset,
    the rows in memory, in queued tasks, in tasks waiting for a retry, flushed,
    and dropped or removed; and [pendingWrites] is the number of rows in memory. *)
Theorem rows_conserved (cb : CB) ops b :
  taskQueue (tk cb) = [] -> pending_ok (mem cb) -> no_empty (buffer (mem cb)) ->
  foldl exec (fresh_book cb) ops = b ->
  bk_accepted b ≡ₚ buffered (buffer (mem (bk_cb b))) ++ queue_rows (taskQueue (tk (bk_cb b))) ++
               queue_rows (bk_waiting b) ++ bk_flushed b ++ bk_gone b /\
  PendingWrites (bk_cb b) = Zlength (buffered (buffer (mem (bk_cb b)))).
Proof.
  intros Hq Hp Hk <-.
  assert (balanced (fresh_book cb)) as H0.
  { split; simpl; [|done|done]. rewrite Hq. simpl. by rewrite app_nil_r. }
  assert (forall b, balanced b -> balanced (foldl exec b ops)) as Hrun.
  { induction ops as [|o ops IH]; intros b Hb; [done|]. simpl. by apply IH, exec_balanced. }
  by destruct (Hrun _ H0).
Qed.

Lemma Add_log_failed e key bs (cb cb' : CB) :
  Add_log e key bs cb = (cb', false) ->
  mem cb' = mem cb /\ IsWALDegraded cb' = true /\ walFailThreshold <= GetWALFailCount cb' /\
  GetWALFailCount cb' = GetWALFailCount cb + 1.
Proof.
  intros El. destruct (Add_log_mem _ _ _ _ _ _ El) as (Em & _). split; [done|].
  unfold Add_log in El. destruct (active_wal (lg cb)) as [w|]; [|done].
  destruct bs as [[|x bs]|]; [done| |done].
  destruct (log_append e RecordTypeData (x :: bs) w) as [w' [n|er]]; [done|].
  injection El as <- Hok. apply negb_false_iff in Hok. unfold IsWALDegraded, GetWALFailCount. simpl.
  rewrite Hok, orb_true_r. b2p. done.
Qed.

Lemma Add_failed e o row (cb cb' : CB) f :
  no_empty (buffer (mem cb)) -> Add dayStr defaultTable e o row cb = (cb', false, f) ->
  buffer (mem cb') = buffer (mem cb) /\ PendingWrites cb' = PendingWrites cb /\ f = None.
Proof.
  intros Hk H. unfold Add, Add_insert in H.
  set (key := bufferKey dayStr defaultTable row) in H.
  destruct (mem_insert key row (mem cb)) as [m idx] eqn:Em.
  destruct (rollback_insert _ _ _ _ _ Hk Em) as [Eb Ep].
  destruct (Add_log e key _ _) as [cb1 ok] eqn:El.
  destruct (Add_log_mem _ _ _ _ _ _ El) as (Em1 & _). simpl in Em1.
  destruct ok; simpl in H.
  { destruct (BufferSize _ <=? _); [|done]. by destruct (triggerFlush _ _ _ _). }
  injection H as <- <-. unfold Add_rollback, PendingWrites. cbn [mem with_mem]. by rewrite Em1, Eb, Ep.
Qed.

(** C10: an add that reports failure has no effect on the rows, also when
    other calls run between its critical sections. [Add] inserts its row;
    others insert rows under any key and take the rows of other keys; the
    write to the log fails for at least the third time in a row; others go
    on; [Add] rolls back and returns an error. Then the buffer and the counter
    are what the others alone would have made of them, and the buffer is in
    degraded mode. With nothing in between this is [Add] itself. Excluded are
    calls that shorten the rows of the same key in between: a flush of the
    key, a removal, or the rollback of another failed add. *)
Theorem failed_add_rolls_back e o row (cb cb1 cb1' cb2 cb2' : CB) key idx full walData ops ops' :
  no_empty (buffer (mem cb)) ->
  Add_insert dayStr defaultTable row cb = (cb1, (key, idx, full, walData)) ->
  Forall (spares key) ops -> mem cb1' = foldl other (mem cb1) ops ->
  Add_log e key walData cb1' = (cb2, false) ->
  Forall (spares key) ops' -> mem cb2' = foldl other (mem cb2) ops' ->
  let cb3 := Add_rollback key idx cb2' in
  buffer (mem cb3) = buffer (foldl other (mem cb) (ops ++ ops')) /\
  PendingWrites cb3 = pendingWrites (foldl other (mem cb) (ops ++ ops')) /\
  IsWALDegraded cb2 = true /\ walFailThreshold <= GetWALFailCount cb2 /\
  GetWALFailCount cb2 = GetWALFailCount cb1' + 1 /\
  (cb1' = cb1 -> cb2' = cb2 -> Add dayStr defaultTable e o row cb = (cb3, false, None)).
Proof.
  intros Hne Hin Hops Em1 Hlog Hops' Em2. cbv zeta.
  destruct (Add_log_failed _ _ _ _ _ Hlog) as (Em & Hd & Hf & Hc).
  split_and!; try done.
  1-2: unfold Add_insert in Hin; destruct (mem_insert _ row (mem cb)) as [m i] eqn:Ei;
    injection Hin as <- <- <- _ _; pose proof (insert_ahead _ _ _ _ _ Hne Ei) as Ha;
    apply (others_ahead _ _ _ (ops ++ ops')) in Ha; [|by apply Forall_app];
    apply rollback_ahead in Ha as [Hb Hp]; rewrite foldl_app in Hb, Hp;
    unfold Add_rollback, PendingWrites; cbn [mem with_mem] in *; by rewrite Em2, Em, Em1, ?Hb, ?Hp, foldl_app.
  intros -> ->. unfold Add. by rewrite Hin, Hlog.
Qed.

(** ** Recovery *)

Context {DLL : DurableLogLaws L D}.

(** What a recovery of the log's records would build. *)
Definition recovered (w : L) : recovery :=
  foldl (fun s r => (recover_handler s r).1) recovery_start (log_records w).

(** A tombstone for the row's table and id is in the log. *)
Definition tombstoned (w : L) (row : DataRow) : bool :=
  bool_decide (row_Table row +:+ "/" +:+ row_ID row ∈ rec_tombstones (recovered w)).

Lemma recover_handler_total s r : (recover_handler s r).2 = true.
Proof.
  unfold recover_handler. destruct (Type_ r =? RecordTypeData).
  - destruct (row_unmarshal _) as [[k row]|]; [|done]. by destruct (bool_decide _).
  - destruct (Type_ r =? RecordTypeTombstone); [|done]. by destruct (tomb_unmarshal _) as [[]|].
Qed.

Lemma recover_handler_no_empty s r : no_empty (rec_buffer s) -> no_empty (rec_buffer (recover_handler s r).1).
Proof.
  intros Hne. unfold recover_handler. destruct (Type_ r =? RecordTypeData).
  - destruct (row_unmarshal _) as [[k row]|]; [|done]. destruct (bool_decide _); [done|].
    intros k'. simpl. destruct (decide (k' = k)) as [->|].
    + rewrite lookup_insert_eq. by destruct (default [] _).
    + by rewrite lookup_insert_ne.
  - destruct (Type_ r =? RecordTypeTombstone); [|done].
    destruct (tomb_unmarshal _) as [[t id]|]; [|done]. by apply without_id_no_empty.
Qed.

Lemma recovered_no_empty w : no_empty (rec_buffer (recovered w)).
Proof.
  unfold recovered.
  assert (forall s, no_empty (rec_buffer s) ->
    no_empty (rec_buffer (foldl (fun s r => (recover_handler s r).1) s (log_records w)))) as H.
  { induction (log_records w) as [|r rs IH]; intros s Hs; [done|]. simpl.
    by apply IH, recover_handler_no_empty. }
  apply H. intros k. simpl. by rewrite lookup_empty.
Qed.

Lemma recovered_snoc w w' r :
  log_records w' = log_records w ++ [r] -> recovered w' = (recover_handler (recovered w) r).1.
Proof. intros E. unfold recovered. by rewrite E, foldl_app. Qed.

(** The buffer in memory is what its log would give back. *)
Record mirrored (cb : CB) (w : L) : Prop := {
  mr_wal : active_wal (lg cb) = Some w;
  mr_inv : log_inv w;
  mr_clean : log_clean w;
  mr_buffer : rec_buffer (recovered w) = buffer (mem cb);
}.

(** Adds that fill no key and removals, with a log that works. *)
Inductive quiet_step : CB -> CB -> Prop :=
  | quiet_add e o row cb cb' f w w' n bs :
      let key := bufferKey dayStr defaultTable row in
      active_wal (lg cb) = Some w -> log_env_ok e w -> row_valid (key, row) ->
      tombstoned w row = false ->
      Z.of_nat (S (length (rows_at (mem cb) key))) < BufferSize (config cb) ->
      row_marshal (key, row) = Some bs -> log_append e RecordTypeData bs w = (w', Ok n) ->
      Add dayStr defaultTable e o row cb = (cb', true, f) -> quiet_step cb cb'
  | quiet_remove e t id cb cb' removed w w' n bs :
      active_wal (lg cb) = Some w -> log_env_ok e w -> tomb_valid (t, id) ->
      tomb_marshal (t, id) = Some bs -> log_append e RecordTypeTombstone bs w = (w', Ok n) ->
      Remove e t id cb = (cb', removed) -> quiet_step cb cb'.

Lemma Add_quiet e o row (cb cb' : CB) f w w' n bs :
  let key := bufferKey dayStr defaultTable row in
  active_wal (lg cb) = Some w -> bs <> [] ->
  Z.of_nat (S (length (rows_at (mem cb) key))) < BufferSize (config cb) ->
  row_marshal (key, row) = Some bs -> log_append e RecordTypeData bs w = (w', Ok n) ->
  Add dayStr defaultTable e o row cb = (cb', true, f) ->
  active_wal (lg cb') = Some w' /\
  buffer (mem cb') = <[key := rows_at (mem cb) key ++ [row]]> (buffer (mem cb)).
Proof.
  intros key Ha Hne Hfull Hm Hl H. unfold Add, Add_insert in H. fold key in H.
  destruct (mem_insert key row (mem cb)) as [m idx] eqn:Em.
  destruct (mem_insert_spec _ _ _ _ _ Em) as (_ & _ & -> & Eb).
  apply Z.leb_gt in Hfull. rewrite Hfull, Ha, Hm in H.
  unfold Add_log in H. cbn [lg with_mem] in H. rewrite Ha in H.
  destruct bs as [|x bs]; [done|]. rewrite Hl in H. simpl in H. injection H as <- _.
  split; [|done]. unfold active_wal in *. simpl. by destruct (walEnabled (lg cb)).
Qed.

Lemma without_id_id t id buf : rows_with_id t id buf = [] -> no_empty buf -> without_id t id buf = buf.
Proof.
  intros H Hne. apply map_eq. intros k. unfold without_id. rewrite map_lookup_imap.
  destruct (buf !! k) as [rows|] eqn:E; simpl; [|done].
  destruct (HasPrefix k (t +:+ "/")) eqn:Ep; [|done].
  assert (List.filter (fun r => negb (keep_row id r)) rows = []) as Hf.
  { apply elem_of_map_to_list in E. unfold rows_with_id in H.
    revert H E. induction (map_to_list buf) as [|[k' rows'] l IH]; intros H E; [by apply elem_of_nil in E|].
    rewrite fmap_cons in H. simpl in H. apply app_nil in H as [H1 H2].
    apply elem_of_cons in E as [[= <- <-]|E]; [by rewrite Ep in H1|by apply IH]. }
  pose proof (filter_split (keep_row id) rows) as Hs. rewrite Hf, app_nil_r in Hs.
  assert (List.filter (keep_row id) rows = rows) as ->.
  { clear Hs E. induction rows as [|r rows IH]; [done|]. simpl in *.
    destruct (keep_row id r); simpl in *; [by rewrite IH|done]. }
  destruct rows; [by destruct (Hne k)|done].
Qed.

Lemma quiet_mirrored cb cb' w :
  quiet_step cb cb' -> mirrored cb w -> exists w', mirrored cb' w'.
Proof.
  intros Hst [Hw Hi Hcl Hb]. destruct Hst as
    [e o row cb cb' f w1 w' n bs key Ha He Hv Ht Hfull Hm Hl H
    |e t id cb cb' removed w1 w' n bs Ha He Hv Hm Hl H].
  - rewrite Hw in Ha. injection Ha as <-.
    destruct (row_roundtrip _ _ Hv Hm) as [Hu Hne].
    destruct (Add_quiet _ _ _ _ _ _ _ _ _ _ Hw Hne Hfull Hm Hl H) as [Hw' Hb'].
    destruct (append_law _ _ _ _ _ _ Hi He Hl) as [Hi' _].
    destruct (append_clean_law _ _ _ _ _ _ Hi Hcl He Hl) as [Hcl' [ts Er]].
    exists w'. split; [done..|]. rewrite (recovered_snoc _ _ _ Er), Hb'.
    unfold recover_handler. simpl. rewrite Hu. unfold tombstoned in Ht. rewrite Ht. simpl.
    unfold rows_at. by rewrite Hb.
  - rewrite Hw in Ha. injection Ha as <-. unfold Remove in H.
    destruct (mem_remove t id (mem cb)) as [m k] eqn:Em.
    destruct (mem_remove_spec _ _ _ _ _ Em) as (_ & _ & Ek & Eb). simpl in H.
    destruct (Z.ltb_spec 0 k).
    + rewrite Hw, Hm, Hl in H. simpl in H. injection H as <- _.
      destruct (append_law _ _ _ _ _ _ Hi He Hl) as [Hi' _].
      destruct (append_clean_law _ _ _ _ _ _ Hi Hcl He Hl) as [Hcl' [ts Er]].
      exists w'. split; [|done..|].
      * unfold active_wal in *. simpl. by destruct (walEnabled (lg cb)).
      * rewrite (recovered_snoc _ _ _ Er). simpl. rewrite Eb.
        unfold recover_handler. simpl. rewrite (tomb_roundtrip _ _ Hv Hm). simpl. by rewrite Hb.
    + injection H as <- _. exists w. split; [done..|]. simpl. rewrite Eb, Hb.
      rewrite without_id_id; [done| |rewrite <- Hb; apply recovered_no_empty].
      destruct (rows_with_id t id (buffer (mem cb))); [done|]. simpl in Ek. lia.
Qed.

Lemma NewConcurrentBuffer_mirrored e mk rd now cfg (d d' : D) (cb : CB) w :
  disk_inv d -> open_env_ok e d -> whole rd -> WALSyncOnWrite cfg = true ->
  NewConcurrentBuffer e mk rd all_read now cfg d = (d', cb) -> active_wal (lg cb) = Some w ->
  mirrored cb w /\ log_records w = disk_records d.
Proof.
  intros Hd He Hrd Hs H Hw. unfold NewConcurrentBuffer in H.
  destruct (WALEnabled cfg); [|by simplify_eq].
  destruct (log_open _ _ _ _ _ _) as [d1 [w1|]] eqn:Eo; [|by simplify_eq].
  edestruct open_law as (Hi & Hcl & Hr & _); [exact Hd|exact He|exact Hrd| |exact Eo|]; [done|].
  injection H as <- <-. unfold recoverFromWAL in *. simpl in *.
  rewrite replay_law in * by apply recover_handler_total. simpl in *.
  unfold active_wal in Hw. simpl in Hw. injection Hw as <-. split; [|done]. by split.
Qed.

(** C11: recovery restores the buffer. Start a buffer on any valid disk, let
    it run through adds and removals with a working log (adding no row whose
    table and id have a tombstone in the log, and filling no key), crash at any
    point, and start again: the recovered buffer is, key by key and row by row,
    the buffer that was in memory. Both starts read the log without I/O
    errors, and the log syncs on every write. *)
Theorem recovery_restores_buffer e e' mk mk' rd rd' now now' cfg (d d1 d' d1' : D) (cb0 cb cb' : CB) w0 w w' :
  disk_inv d -> open_env_ok e d -> whole rd -> whole rd' -> WALSyncOnWrite cfg = true ->
  NewConcurrentBuffer e mk rd all_read now cfg d = (d1, cb0) -> active_wal (lg cb0) = Some w0 ->
  rtc quiet_step cb0 cb -> active_wal (lg cb) = Some w -> log_crash w d' -> open_env_ok e' d' ->
  NewConcurrentBuffer e' mk' rd' all_read now' cfg d' = (d1', cb') -> active_wal (lg cb') = Some w' ->
  buffer (mem cb') = buffer (mem cb).
Proof.
  intros Hd He Hrd Hrd' Hs Hn Hw0 Hrun Hw Hc He' Hn' Hw'.
  destruct (NewConcurrentBuffer_mirrored _ _ _ _ _ _ _ _ _ Hd He Hrd Hs Hn Hw0) as [Hm0 _].
  assert (exists w, mirrored cb w) as [w1 [Hw1 Hi Hcl Hb]].
  { clear - Hrun Hm0 DLL. revert w0 Hm0. induction Hrun as [|a b c Hst _ IH]; [by eauto|].
    intros w0 Hm0. destruct (quiet_mirrored _ _ _ Hst Hm0) as [w' Hm']. eauto. }
  rewrite Hw in Hw1. injection Hw1 as <-.
  destruct (crash_law _ _ Hi Hc) as [Hd' _].
  destruct (NewConcurrentBuffer_mirrored _ _ _ _ _ _ _ _ _ Hd' He' Hrd' Hs Hn' Hw') as [[_ _ _ Hb'] Er].
  rewrite <- Hb', <- Hb. unfold recovered. by rewrite Er, (crash_clean_law _ _ Hi Hcl Hc).
Qed.

(** ** Draining *)

Lemma triggerFlush_config o k force (cb : CB) : config (triggerFlush o k force cb).1 = config cb.
Proof.
  unfold triggerFlush, trigger_take. destruct (mem_take _ _ _) as [m [rows|]]; [|done]. simpl.
  destruct o as [|fo| | |]; try done. simpl. unfold processTask.
  destruct fo; [done|]. by destruct (_ <? _).
Qed.

Lemma flush_keys_config o ks (cb : CB) : config (flush_keys o ks cb) = config cb.
Proof.
  revert cb. induction ks as [|k ks IH]; intros cb; [done|]. simpl.
  by rewrite IH, triggerFlush_config.
Qed.

Lemma flush_keys_app o ks ks' (cb : CB) : flush_keys o (ks ++ ks') cb = flush_keys o ks' (flush_keys o ks cb).
Proof. apply foldl_app. Qed.

(** Batches of a positive size visit the same keys in the same order. *)
Lemma batchFlush_keys fuel o ks (cb : CB) :
  0 < BatchFlushSize (config cb) -> (length ks <= fuel)%nat -> batchFlush fuel o ks cb = flush_keys o ks cb.
Proof.
  revert ks cb. induction fuel as [|fuel IH]; intros ks cb Hb Hl; simpl.
  - by destruct ks; [|simpl in Hl; lia].
  - destruct ks as [|k ks]; [done|].
    assert (Z.to_nat (BatchFlushSize (config cb)) <> 0)%nat by lia.
    rewrite IH.
    + rewrite <- flush_keys_app. by rewrite take_drop.
    + by rewrite flush_keys_config.
    + rewrite length_drop. simpl in *. lia.
Qed.

(** With room in the queue for all, flushing keys moves their rows there. *)
Lemma flush_keys_queued ks (cb : CB) :
  NoDup ks -> (forall k, k ∈ ks -> is_Some (buffer (mem cb) !! k)) ->
  let cb' := flush_keys Queued ks cb in
  buffer (mem cb') = foldr delete (buffer (mem cb)) ks /\
  queue_rows (taskQueue (tk cb')) ++ buffered (buffer (mem cb')) ≡ₚ
  queue_rows (taskQueue (tk cb)) ++ buffered (buffer (mem cb)) /\
  length (taskQueue (tk cb')) = (length (taskQueue (tk cb)) + length ks)%nat.
Proof.
  intros Hnd. revert cb. induction Hnd as [|k ks Hk Hnd IH]; intros cb Hin; simpl.
  - split_and!; [done|done|lia].
  - destruct (Hin k ltac:(apply list_elem_of_here)) as [rows Hrows].
    assert (triggerFlush Queued k true cb =
      (with_tk (mkTasks (taskQueue (tk cb) ++
         [mkTask k rows 0 0 (if walEnabled (lg cb) then default 0 (lastFlushedSeq (lg cb) !! k) else 0)])
         (shutdown (tk cb)) (TotalTasks (tk cb) + 1) (CompletedTasks (tk cb)) (FailedTasks (tk cb)))
       (with_mem (mkMem (delete k (buffer (mem cb))) (pendingWrites (mem cb) - Zlength rows)
                   (stat_BufferSize (mem cb))) cb),
       Some (mkTask k rows 0 0 (if walEnabled (lg cb) then default 0 (lastFlushedSeq (lg cb) !! k) else 0),
             InQueue))) as E.
    { unfold triggerFlush, trigger_take, mem_take. by rewrite Hrows. }
    rewrite E. destruct (IH (with_tk (mkTasks (taskQueue (tk cb) ++
         [mkTask k rows 0 0 (if walEnabled (lg cb) then default 0 (lastFlushedSeq (lg cb) !! k) else 0)])
         (shutdown (tk cb)) (TotalTasks (tk cb) + 1) (CompletedTasks (tk cb)) (FailedTasks (tk cb)))
       (with_mem (mkMem (delete k (buffer (mem cb))) (pendingWrites (mem cb) - Zlength rows)
                   (stat_BufferSize (mem cb))) cb))) as (H1 & H2 & H3).
    { intros k' Hk'. simpl. rewrite lookup_delete_ne by (intros ->; done).
      apply Hin. by apply list_elem_of_further. }
    simpl in *. split_and!.
    + rewrite H1. clear. induction ks as [|k' ks IH]; [done|]. simpl. by rewrite <- delete_delete, IH.
    + rewrite H2, queue_rows_app, queue_rows_one, (buffered_delete (buffer (mem cb)) k rows) by done. simpl.
      solve_Permutation.
    + rewrite H3, length_app. simpl. lia.
Qed.

Lemma GetAllKeys_elem m k : k ∈ GetAllKeys m <-> is_Some (buffer m !! k).
Proof.
  unfold GetAllKeys. rewrite list_elem_of_fmap. split.
  - intros ([k' rows] & -> & H%elem_of_map_to_list). by eauto.
  - intros [rows H]. exists (k, rows). split; [done|]. by apply elem_of_map_to_list.
Qed.

(** A full flush drains the buffer. When the queue has room,
    [flushAllBuffers], whether or not it works in batches, leaves no row in
    memory and adds one task per key whose rows are together exactly the rows
    that were buffered. *)
Theorem flush_all_drains (cb : CB) :
  0 < BatchFlushSize (config cb) ->
  let cb' := flushAllBuffers Queued cb in
  buffer (mem cb') = ∅ /\
  queue_rows (taskQueue (tk cb')) ≡ₚ queue_rows (taskQueue (tk cb)) ++ buffered (buffer (mem cb)) /\
  length (taskQueue (tk cb')) = (length (taskQueue (tk cb)) + size (buffer (mem cb)))%nat.
Proof.
  intros Hb. cbv zeta.
  assert (flushAllBuffers Queued cb = flush_keys Queued (GetAllKeys (mem cb)) cb) as ->.
  { unfold flushAllBuffers. destruct (_ && _); [|done]. by apply batchFlush_keys. }
  destruct (flush_keys_queued (GetAllKeys (mem cb)) cb) as (H1 & H2 & H3).
  { apply NoDup_fst_map_to_list. }
  { intros k. apply GetAllKeys_elem. }
  assert (buffer (mem (flush_keys Queued (GetAllKeys (mem cb)) cb)) = ∅) as He.
  { rewrite H1. apply map_eq. intros k. rewrite lookup_empty.
    destruct (buffer (mem cb) !! k) as [rows|] eqn:E.
    - apply lookup_foldr_delete. apply GetAllKeys_elem. by rewrite E.
    - apply eq_None_not_Some. intros [x Hx]. rewrite lookup_foldr_delete_not_elem_of in Hx; [congruence|].
      intros Hk%GetAllKeys_elem. rewrite E in Hk. by destruct Hk. }
  split_and!; [done| |].
  - rewrite He, buffered_empty, app_nil_r in H2. done.
  - rewrite H3. f_equal. unfold GetAllKeys. rewrite length_fmap. apply length_map_to_list.
Qed.

End theorems.

(** ** Keys *)

(** What the index accepts. The uploaded object of a buffer key gets an
    index entry exactly when the table name, the id and the day contain no
    slash, and the entry then names exactly them. For any other row every
    flush attempt fails. *)
Theorem redis_key_of_buffer_key dayStr defaultTable row :
  let t := key_table defaultTable row in
  let id := key_id row in
  let day := dayStr (row_Timestamp row) in
  redisKey (bufferKey dayStr defaultTable row) =
  if has_char "/" t || has_char "/" id || has_char "/" day then None
  else Some ("index:table:" +:+ t +:+ ":id:" +:+ id +:+ ":" +:+ day).
Proof.
  cbv zeta. unfold bufferKey, redisKey.
  set (t := key_table defaultTable row). set (id := key_id row). set (day := dayStr (row_Timestamp row)).
  destruct (has_char "/" t || has_char "/" id || has_char "/" day) eqn:E.
  - assert (length (Split "/" (t +:+ String "/" (id +:+ String "/" day))) <> 3%nat) as Hl.
    { rewrite Split_length, count_char_app. cbn [count_char]. rewrite bool_decide_true by done.
      rewrite count_char_app. cbn [count_char]. rewrite bool_decide_true by done. intros H.
      assert (count_char "/" t = 0%nat /\ count_char "/" id = 0%nat /\ count_char "/" day = 0%nat)
        as (H1 & H2 & H3) by lia.
      apply has_char_count in H1, H2, H3. by rewrite H1, H2, H3 in E. }
    destruct (Split _ _) as [|a [|b [|c [|]]]]; done.
  - apply orb_false_iff in E as [[E1 E2]%orb_false_iff E3].
    by rewrite !Split_app, Split_none.
Qed.
