(* ===== verification/ConcurrentDemo.v ===== *)
(** * The concurrent buffer on the write-ahead log: concrete runs

    Instances of the theorems on the real log, and runs in which rows are
    lost: a row added again after its removal, a row of one key whose log
    record another key's flush releases, and the rollback of one add that
    takes out the row of another. *)

From S2P Require Import Prelude GoStrings WalCodec Wal WalLemmas WalProofs DurableLog.
From S2P Require Import WalTheorems BufferTheorems FieldMapping ConcurrentBuffer ConcurrentTheorems.
#[local] Open Scope Z_scope.

Import BufferTheorems.BitCodec BufferTheorems.DurableDemo.

(** A codec for rows without fields: a bit of the row's code per byte. *)
#[local] Program Instance bit_rows : RowJSON := {|
  row_marshal p := Some (0 :: bits (encode (p.1, row_ID p.2, row_Timestamp p.2, row_Table p.2)));
  row_unmarshal bs :=
    match bs with
    | _ :: bs => match decode (unbits bs) : option (string * string * Z * string) with
                 | Some (k, id, ts, t) => Some (k, mkRow id ts t ∅)
                 | None => None
                 end
    | [] => None
    end;
  tomb_marshal p := Some (bits (encode p));
  tomb_unmarshal bs := decode (unbits bs);
  row_valid p := row_Fields p.2 = ∅;
  tomb_valid _ := True;
|}.
Next Obligation.
  intros [k [id ts t fs]] bs Hv H. simplify_eq/=. rewrite unbits_bits, decode_encode. by subst.
Qed.
Next Obligation. intros t bs _ H. simplify_eq/=. by rewrite unbits_bits, decode_encode. Qed.

Definition day (_ : Z) : string := "2024-01-01".
Definition cfg0 : ConcurrentBufferConfig := DefaultConcurrentBufferConfig.
Abbreviation WCB := (ConcurrentBuffer wal_state).

Definition start_on (k : Z) (d : disk) : disk * WCB :=
  NewConcurrentBuffer (demo_env (T k)) true all_read all_read (T k) cfg0 d.
Definition add_row (k : Z) (row : DataRow) (cb : WCB) : WCB * bool * option (FlushTask * fate) :=
  Add day None (demo_env (T k)) Queued row cb.
Definition remove_row (k : Z) (t id : string) (cb : WCB) : WCB * Z := Remove (demo_env (T k)) t id cb.
Definition log_disk (cb : WCB) : disk :=
  match wal (lg cb) with Some l => ws_disk l | None => demo_disk end.

Definition rowA : DataRow := mkRow "a" 1 "t" ∅.
Definition rowB : DataRow := mkRow "b" 1 "t" ∅.
Definition keyA : string := "t/a/2024-01-01".
Definition keyB : string := "t/b/2024-01-01".

Definition c0 := Eval vm_compute in (start_on 0 demo_disk).2.
Definition c1 := Eval vm_compute in (add_row 1 rowA c0).1.1.
Definition c2 := Eval vm_compute in (add_row 2 rowB c1).1.1.
Definition c3 := Eval vm_compute in (start_on 3 (log_disk c2)).2.

(** ** Instances *)

Lemma c0_no_empty : no_empty (buffer (mem c0)).
Proof. intros k. assert (buffer (mem c0) = ∅) as -> by (vm_compute; reflexivity). by rewrite lookup_empty. Qed.

Definition demo_ops : list op :=
  [OpAdd (demo_env (T 1)) Queued rowA; OpAdd (demo_env (T 2)) Queued rowB;
   OpFlush Queued keyA true; OpWorker false all_read (fun _ => true); OpRetry;
   OpRemove (demo_env (T 3)) "t" "b"; OpWorker true all_read (fun _ => true)].

Lemma rows_conserved_witness :
  let b := foldl (exec day None) (fresh_book c0) demo_ops in
  bk_accepted b ≡ₚ buffered (buffer (mem (bk_cb b))) ++ queue_rows (taskQueue (tk (bk_cb b))) ++
               queue_rows (bk_waiting b) ++ bk_flushed b ++ bk_gone b /\
  PendingWrites (bk_cb b) = Zlength (buffered (buffer (mem (bk_cb b)))).
Proof.
  apply (rows_conserved day None c0 demo_ops (foldl (exec day None) (fresh_book c0) demo_ops)).
  - reflexivity.
  - vm_compute. reflexivity.
  - apply c0_no_empty.
  - reflexivity.
Defined.

(** Two log failures in a row, and a log that is closed. *)
Definition failing : WCB :=
  mkCB cfg0 (mkMem ∅ 0 0)
    (mkLogging _ (Some (mkWalState (mkWAL None [] false 0 0 true 0 0 0 0 true) demo_disk)) true ∅ 0 2 false)
    (mkTasks [] false 0 0 0).

Definition rowA2 : DataRow := mkRow "a" 2 "t" ∅.

(** The call fails while another one inserts a row under the same key and a
    third takes the rows of another key. *)
Definition busy : list other_op := [OtherInsert keyA rowA2; OtherTake "t/other/2024-01-01" true].
Definition in_add := Add_insert day None rowA failing.
Definition logged := Add_log (demo_env (T 1)) keyA in_add.2.2 (with_mem (foldl other (mem in_add.1) busy) in_add.1).

Lemma failed_add_rolls_back_witness :
  let cb3 := Add_rollback keyA 0 logged.1 in
  buffer (mem cb3) = {[keyA := [rowA2]]} /\ PendingWrites cb3 = 1 /\ IsWALDegraded logged.1 = true.
Proof.
  destruct (failed_add_rolls_back day None (demo_env (T 1)) Queued rowA failing in_add.1
    (with_mem (foldl other (mem in_add.1) busy) in_add.1) logged.1 logged.1 keyA 0 in_add.2.1.2 in_add.2.2 busy [])
    as (Hb & Hp & Hd & _).
  - intros k. simpl. by rewrite lookup_empty.
  - vm_compute. reflexivity.
  - repeat constructor. vm_compute. discriminate.
  - reflexivity.
  - vm_compute. reflexivity.
  - constructor.
  - reflexivity.
  - split_and!; [rewrite Hb; vm_compute; reflexivity|rewrite Hp; vm_compute; reflexivity|exact Hd].
Defined.

Lemma demo_quiet_add k row (cb cb' : WCB) :
  match active_wal (lg cb) with
  | Some w =>
      fresh_check (demo_env (T k)) (ws_disk w) && (w_seqNum (ws_wal w) + 1 <? 2 ^ 64) &&
      bool_decide (in_int64 (T k)) && bool_decide (row_Fields row = ∅) && negb (tombstoned w row) &&
      (Z.of_nat (S (length (rows_at (mem cb) (bufferKey day None row)))) <? BufferSize (config cb)) &&
      match row_marshal (bufferKey day None row, row) with
      | Some bs => is_ok (log_append (demo_env (T k)) RecordTypeData bs w).2
      | None => false
      end
  | None => false
  end = true ->
  add_row k row cb = (cb', true, None) -> quiet_step day None cb cb'.
Proof.
  destruct (active_wal (lg cb)) as [w|] eqn:Ew; [|done]. intros H Ha.
  destruct (row_marshal _) as [bs|] eqn:Em; [|by rewrite andb_false_r in H].
  destruct (log_append _ _ bs w) as [w' [n|]] eqn:El; [|by rewrite andb_false_r in H].
  b2p. eapply (quiet_add day None (demo_env (T k)) Queued row cb cb' None w w' n bs); try done.
  split; [by apply fresh_check_ok|]. by split.
Qed.

Definition wal_of (cb : WCB) : wal_state :=
  match active_wal (lg cb) with Some w => w | None => mkWalState (mkWAL None [] true 0 0 true 0 0 0 0 true) demo_disk end.

Lemma recovery_restores_buffer_witness : buffer (mem c3) = buffer (mem c2).
Proof.
  apply (recovery_restores_buffer day None (demo_env (T 0)) (demo_env (T 3)) true true all_read all_read (T 0) (T 3)
           cfg0 demo_disk (start_on 0 demo_disk).1 (log_disk c2) (start_on 3 (log_disk c2)).1 c0 c2 c3
           (wal_of c0) (wal_of c2) (wal_of c3)).
  - apply demo_disk_inv.
  - apply demo_fresh.
  - done.
  - done.
  - reflexivity.
  - vm_compute. reflexivity.
  - vm_compute. reflexivity.
  - eapply rtc_l; [apply (demo_quiet_add 1 rowA c0 c1); vm_compute; reflexivity|].
    eapply rtc_l; [apply (demo_quiet_add 2 rowB c1 c2); vm_compute; reflexivity|].
    apply rtc_refl.
  - vm_compute. reflexivity.
  - apply crash_all_synced. vm_compute. reflexivity.
  - apply fresh_check_ok. vm_compute. reflexivity.
  - vm_compute. reflexivity.
  - vm_compute. reflexivity.
Defined.

Lemma flush_all_drains_witness : buffer (mem (flushAllBuffers Queued c2)) = ∅.
Proof. apply (flush_all_drains c2). vm_compute. reflexivity. Defined.

(** ** Runs that lose rows *)

(** The buffer after an update: a row is added, removed, and added again. *)
Definition u2 := Eval vm_compute in (remove_row 2 "t" "a" c1).1.
Definition u3 := Eval vm_compute in (add_row 3 rowA u2).1.1.
Definition u4 := Eval vm_compute in (start_on 4 (log_disk u3)).2.

(** A row added again after its removal does not survive a crash. Every
    call succeeds and the log holds the second record, but the recovery drops
    every data record behind a tombstone of the same table and id. *)
Theorem readded_row_lost :
  start_on 0 demo_disk = (log_disk c0, c0) /\
  add_row 1 rowA c0 = (c1, true, None) /\ remove_row 2 "t" "a" c1 = (u2, 1) /\
  add_row 3 rowA u2 = (u3, true, None) /\ Get keyA (mem u3) = [rowA] /\
  crash (log_disk u3) (log_disk u3) /\ start_on 4 (log_disk u3) = (log_disk u4, u4) /\
  Get keyA (mem u4) = [].
Proof.
  split_and!; try (vm_compute; reflexivity). apply crash_all_synced. vm_compute. reflexivity.
Qed.

(** The crash that loses nothing that was written. *)
Definition sync_all (d : disk) : disk :=
  mkDisk ((fun e => match e with
                    | EDir => EDir
                    | EFile f => EFile (mkFile (content f) (length (content f)))
                    end) <$> entries d) (free d).

Lemma crash_sync_all d :
  (forall n f, get_file d n = Some f -> (synced f <= length (content f))%nat) -> crash d (sync_all d).
Proof.
  intros H n. simpl. rewrite lookup_fmap.
  destruct (entries d !! n) as [[|f]|] eqn:E; simpl; try done.
  split; [|done]. exists (length (content f)). rewrite firstn_all. split; [|done].
  apply (H n). unfold get_file. by rewrite E.
Qed.

Lemma synced_check d :
  forallb (fun p => match p.2 with EDir => true | EFile f => (synced f <=? length (content f))%nat end)
    (map_to_list (entries d)) = true ->
  forall n f, get_file d n = Some f -> (synced f <= length (content f))%nat.
Proof.
  rewrite forallb_forall. intros H n f Hf. unfold get_file in Hf.
  destruct (entries d !! n) as [[|f']|] eqn:E; simplify_eq.
  specialize (H (n, EFile f)). simpl in H. apply Nat.leb_le, H.
  by apply list_elem_of_In, elem_of_map_to_list.
Qed.

(** Two keys are recovered; the flush of the second succeeds, then a crash. *)
Definition f4 := Eval vm_compute in (triggerFlush Queued keyB true c3).1.
Definition f5 := Eval vm_compute in
  match taskQueue (tk f4) with
  | t :: q => (processTask true all_read (fun _ => true) t (set_queue q f4)).1
  | [] => f4
  end.
Definition f6 := Eval vm_compute in (start_on 4 (sync_all (log_disk f5))).2.

(** A flush releases records of other keys. After a restart that
    recovered two keys, the successful flush of one truncates the log at its
    own last sequence number, which removes the record of the other key's row;
    a crash before that key's flush then loses an acknowledged row. *)
Theorem flush_releases_other_key :
  start_on 3 (log_disk c2) = (log_disk c3, c3) /\ Get keyA (mem c3) = [rowA] /\
  (exists t q, taskQueue (tk f4) = t :: q /\ task_Rows t = [rowB] /\
     processTask true all_read (fun _ => true) t (set_queue q f4) = (f5, Done)) /\
  Get keyA (mem f5) = [rowA] /\ crash (log_disk f5) (sync_all (log_disk f5)) /\
  start_on 4 (sync_all (log_disk f5)) = (log_disk f6, f6) /\ Get keyA (mem f6) = [].
Proof.
  split_and!; try (vm_compute; reflexivity).
  - eexists _, _. split_and!; vm_compute; reflexivity.
  - apply crash_sync_all, synced_check. vm_compute. reflexivity.
Qed.

(** The rollback of an add can remove the row of another. The index
    recorded at insertion is used after the lock was released: if a flush took
    the rows in between, the index denotes the row of a later add, which is
    removed although its add succeeds, while the failed add's row is flushed.
    Here the first add fails to log its row; a flush takes it and the second
    add inserts its own before the first one rolls back. *)
Theorem rollback_removes_other_row :
  let '(m1, idx) := mem_insert keyA rowA (mkMem ∅ 0 0) in
  let '(m2, taken) := mem_take keyA true m1 in
  let '(m3, _) := mem_insert keyA rowA2 m2 in
  taken = Some [rowA] /\ Get keyA m3 = [rowA2] /\ Get keyA (mem_rollback keyA idx m3) = [].
Proof. vm_compute. done. Qed.

(** Two adds of one key that both fail: the first rollback moves the row of
    the second to a smaller index, and the second rollback removes nothing,
    although its caller is told that the row was not accepted. *)
Theorem second_rollback_misses :
  let '(m1, i1) := mem_insert keyA rowA (mkMem ∅ 0 0) in
  let '(m2, i2) := mem_insert keyA rowA2 m1 in
  let m := mem_rollback keyA i2 (mem_rollback keyA i1 m2) in
  Get keyA m = [rowA2] /\ pendingWrites m = 0.
Proof. vm_compute. done. Qed.

(** A flush task holds the row when it is removed. *)
Definition q4 := Eval vm_compute in (triggerFlush Queued keyA true c1).1.
Definition q5 := Eval vm_compute in (remove_row 5 "t" "a" q4).1.

(** A removal does not reach the rows of tasks that wait to be flushed: it
    counts no row, and the task then writes the row. *)
Theorem removed_row_is_flushed :
  Get keyA (mem c1) = [rowA] /\ (remove_row 5 "t" "a" q4).2 = 0 /\
  exists t q, taskQueue (tk q5) = t :: q /\ task_Rows t = [rowA] /\ (processTask true all_read (fun _ => true) t (set_queue q q5)).2 = Done.
Proof. split_and!; try (vm_compute; reflexivity). eexists _, _. split_and!; vm_compute; reflexivity. Qed.
