(* ===== verification/ConsistentHash.v ===== *)
(** * The hash ring (pkg/consistenthash/consistenthash.go)

    The ring with its sorted key slice, its map from keys to nodes and Go's
    binary search; SHA-256 is spelled out, so that the ring can be run. *)

From S2P Require Import Prelude GoStrings WalCodec.
From Stdlib Require Import Ascii.
#[local] Open Scope Z_scope.

(** ** crypto/sha256 *)

Module Sha256.

(** The round constants and the initial state are the leading 32 bits of the
    fractional parts of the cube roots of the first 64 primes and of the square
    roots of the first eight. *)
Definition is_prime (n : nat) : bool :=
  forallb (fun d => negb (n mod d =? 0)%nat) (seq 2 (n - 2)).

Definition primes : list Z := Z.of_nat <$> List.filter is_prime (seq 2 310).

(** The integer cube root, bit by bit from the top. *)
Fixpoint cube_root (bits : nat) (z r : Z) : Z :=
  match bits with
  | O => r
  | S bits => let c := r + 2 ^ Z.of_nat bits in cube_root bits z (if c * c * c <=? z then c else r)
  end.

Definition K : list Z := Eval vm_compute in (fun p => uint32 (cube_root 36 (p * 2 ^ 96) 0)) <$> primes.

Definition init : list Z := Eval vm_compute in (fun p => uint32 (Z.sqrt (p * 2 ^ 64))) <$> take 8 primes.

Definition rotr (n x : Z) : Z := uint32 (Z.lor (Z.shiftr x n) (Z.shiftl x (32 - n))).

Definition pad (bs : list Z) : list Z :=
  let n := length bs in
  bs ++ [0x80] ++ replicate (Z.to_nat ((119 - Z.of_nat n) mod 64)) 0 ++ be_put 8 (8 * Z.of_nat n).

(** The message schedule, newest word first. *)
Fixpoint expand (k : nat) (w : list Z) : list Z :=
  match k with
  | O => w
  | S k =>
      let w15 := nth 14 w 0 in
      let w2 := nth 1 w 0 in
      let s0 := Z.lxor (Z.lxor (rotr 7 w15) (rotr 18 w15)) (Z.shiftr w15 3) in
      let s1 := Z.lxor (Z.lxor (rotr 17 w2) (rotr 19 w2)) (Z.shiftr w2 10) in
      expand k (uint32 (nth 15 w 0 + s0 + nth 6 w 0 + s1) :: w)
  end.

Definition round (st : list Z) (kw : Z * Z) : list Z :=
  match st with
  | [a; b; c; d; e; f; g; h] =>
      let s1 := Z.lxor (Z.lxor (rotr 6 e) (rotr 11 e)) (rotr 25 e) in
      let ch := Z.lxor (Z.land e f) (Z.land (Z.lxor e 0xffffffff) g) in
      let t1 := h + s1 + ch + kw.1 + kw.2 in
      let s0 := Z.lxor (Z.lxor (rotr 2 a) (rotr 13 a)) (rotr 22 a) in
      let maj := Z.lxor (Z.lxor (Z.land a b) (Z.land a c)) (Z.land b c) in
      [uint32 (t1 + s0 + maj); a; b; c; uint32 (d + t1); e; f; g]
  | _ => st
  end.

Fixpoint words (k : nat) (bs : list Z) : list Z :=
  match k with O => [] | S k => be_get (take 4 bs) :: words k (drop 4 bs) end.

Definition block (st : list Z) (bs : list Z) : list Z :=
  let w := rev (expand 48 (rev (words 16 bs))) in
  zip_with (fun a b => uint32 (a + b)) st (foldl round st (zip K w)).

Fixpoint blocks (k : nat) (st : list Z) (bs : list Z) : list Z :=
  match k with O => st | S k => blocks k (block st (take 64 bs)) (drop 64 bs) end.

Definition Sum256 (bs : list Z) : list Z :=
  let p := pad bs in
  mjoin (be_put 4 <$> blocks (Nat.div (length p) 64) init p).

End Sha256.

Fixpoint string_bytes (s : string) : list Z :=
  match s with "" => [] | String c s => Z.of_N (N_of_ascii c) :: string_bytes s end.

(** The digest of the three bytes [abc] (FIPS 180-4). *)
Example sha256_abc :
  take 8 (Sha256.Sum256 (string_bytes "abc")) = [0xba; 0x78; 0x16; 0xbf; 0x8f; 0x01; 0xcf; 0xea].
Proof. vm_compute. reflexivity. Qed.

(** ** The ring *)

Record ConsistentHash := mkRing { replicas : Z; keys : list Z; hashMap : gmap Z string }.

Definition New (n : Z) : ConsistentHash := mkRing n [] ∅.

Definition hash (key : string) : Z :=
  match Sha256.Sum256 (string_bytes key) with
  | h0 :: h1 :: h2 :: h3 :: _ => Z.shiftl h0 24 + Z.shiftl h1 16 + Z.shiftl h2 8 + h3
  | _ => 0
  end.

(** The hashes of a node's virtual nodes. *)
Definition vnodes (n : Z) (node : string) : list Z :=
  (fun i => hash (Itoa (Z.of_nat i) +:+ node)) <$> seq 0 (Z.to_nat n).

(** [sort.Ints] *)
Definition SortInts (l : list Z) : list Z := merge_sort Z.le l.

Definition add_node (s : list Z * gmap Z string) (n : Z) (node : string) : list Z * gmap Z string :=
  foldl (fun s key => (s.1 ++ [key], <[key := node]> s.2)) s (vnodes n node).

Definition Add (nodes : list string) (c : ConsistentHash) : ConsistentHash :=
  let '(ks, m) := foldl (fun s node => add_node s (replicas c) node) (keys c, hashMap c) nodes in
  mkRing (replicas c) (SortInts ks) m.

(** The inner loop of [Remove]: the first occurrence goes. *)
Fixpoint remove_first (key : Z) (ks : list Z) : list Z :=
  match ks with
  | [] => []
  | k :: ks => if k =? key then ks else k :: remove_first key ks
  end.

Definition Remove (node : string) (c : ConsistentHash) : ConsistentHash :=
  let '(ks, m) := foldl (fun s key => (remove_first key s.1, delete key s.2)) (keys c, hashMap c)
                        (vnodes (replicas c) node) in
  mkRing (replicas c) ks m.

(** [sort.Search]: the loop on [i, j), with as much fuel as there are indices. *)
Fixpoint search_loop (fuel : nat) (f : nat -> bool) (i j : nat) : nat :=
  match fuel with
  | O => i
  | S fuel =>
      if (i <? j)%nat then
        let h := Nat.div (i + j) 2 in
        if f h then search_loop fuel f i h else search_loop fuel f (S h) j
      else i
  end.

Definition Search (n : nat) (f : nat -> bool) : nat := search_loop n f 0 n.

Definition Get (key : string) (c : ConsistentHash) : string :=
  match keys c with
  | [] => ""
  | ks =>
      let h := hash key in
      let idx := Search (length ks) (fun i => h <=? nth i ks 0) in
      let idx := if (idx =? length ks)%nat then 0%nat else idx in
      default "" (hashMap c !! nth idx ks 0)
  end.

Definition IsEmpty (c : ConsistentHash) : bool := bool_decide (length (keys c) = 0%nat).

Definition GetNodes (c : ConsistentHash) : gset string := list_to_set (map_to_list (hashMap c)).*2.

(** ** Binary search *)

(** [Search] finds the first index where a monotone predicate holds. *)
Lemma search_loop_spec fuel f n i j :
  (forall a b, a <= b -> b < n -> f a = true -> f b = true)%nat ->
  (i <= j <= n)%nat -> (j - i <= fuel)%nat ->
  (forall k, k < i -> f k = false)%nat -> (j < n -> f j = true)%nat ->
  let r := search_loop fuel f i j in
  (i <= r <= j)%nat /\ (forall k, k < r -> f k = false)%nat /\ (r < n -> f r = true)%nat.
Proof.
  intros Hm. revert i j. induction fuel as [|fuel IH]; intros i j Hij Hf Hlo Hhi; cbn [search_loop].
  - assert (i = j) as -> by lia. done.
  - destruct (Nat.ltb_spec i j); [|assert (i = j) as -> by lia; done].
    assert (i <= Nat.div (i + j) 2 < j)%nat as Hh.
    { split; [apply Nat.div_le_lower_bound; lia|apply Nat.Div0.div_lt_upper_bound; lia]. }
    set (h := Nat.div (i + j) 2) in *.
    destruct (f h) eqn:E.
    + destruct (IH i h) as (H1 & H2 & H3); [lia|lia|done|done|]. split; [lia|done].
    + destruct (IH (S h) j) as (H1 & H2 & H3); [lia|lia| |done|split; [lia|done]].
      intros k Hk. destruct (f k) eqn:Ek; [|done].
      rewrite (Hm k h) in E; [done|lia|lia|done].
Qed.

Lemma Search_spec f n :
  (forall a b, a <= b -> b < n -> f a = true -> f b = true)%nat ->
  (Search n f <= n)%nat /\ (forall k, k < Search n f -> f k = false)%nat /\
  (Search n f < n -> f (Search n f) = true)%nat.
Proof.
  intros Hm. destruct (search_loop_spec n f n 0 n Hm) as (H1 & H2 & H3); [lia|lia|intros; lia|intros; lia|].
  split_and!; [apply H1|done|done].
Qed.

(** ** The successor on the ring *)

(** The ring key a hash belongs to: the least key not below it, or the least
    of all. *)
Definition ring_succ (h : Z) (ks : list Z) (k : Z) : Prop :=
  k ∈ ks /\ ((h <= k /\ forall k', k' ∈ ks -> h <= k' -> k <= k') \/
             ((forall k', k' ∈ ks -> k' < h) /\ forall k', k' ∈ ks -> k <= k')).

Lemma ring_succ_unique h ks k k' : ring_succ h ks k -> ring_succ h ks k' -> k = k'.
Proof.
  intros [Hk H] [Hk' H'].
  destruct H as [[H1 H2]|[H1 H2]], H' as [[H1' H2']|[H1' H2']].
  - specialize (H2 _ Hk' H1'). specialize (H2' _ Hk H1). lia.
  - specialize (H1' _ Hk). lia.
  - specialize (H1 _ Hk'). lia.
  - specialize (H2 _ Hk'). specialize (H2' _ Hk). lia.
Qed.

Lemma sorted_nth ks a b : StronglySorted Z.le ks -> (a <= b < length ks)%nat -> nth a ks 0 <= nth b ks 0.
Proof.
  intros Hs. revert a b. induction Hs as [|x ks Hs IH Hx]; intros a b Hab; simpl in *; [lia|].
  destruct a as [|a], b as [|b]; [lia| |lia|apply IH; lia].
  rewrite Forall_forall in Hx. apply Hx. apply list_elem_of_In, nth_In. lia.
Qed.

Lemma elem_nth (ks : list Z) k : k ∈ ks -> exists i, (i < length ks)%nat /\ nth i ks 0 = k.
Proof. intros H%list_elem_of_In. apply (In_nth _ _ 0) in H. destruct H as (i & ? & ?). by exists i. Qed.

(** [Get] returns the node of the successor. *)
Lemma Get_succ key c :
  StronglySorted Z.le (keys c) -> keys c <> [] ->
  exists k, ring_succ (hash key) (keys c) k /\ Get key c = default "" (hashMap c !! k).
Proof.
  intros Hs Hne. unfold Get. destruct (keys c) as [|k0 ks0] eqn:Ek; [done|].
  set (ks := k0 :: ks0) in *. set (h := hash key).
  destruct (Search_spec (fun i => h <=? nth i ks 0) (length ks)) as (Hle & Hlo & Hhi).
  { intros a b Hab Hb Ha. pose proof (sorted_nth ks a b Hs ltac:(lia)). b2p. apply Z.leb_le. lia. }
  set (r := Search (length ks) (fun i => h <=? nth i ks 0)) in *.
  destruct (Nat.eqb_spec r (length ks)) as [E|E].
  - exists (nth 0 ks 0). split; [|done]. split; [apply list_elem_of_In, nth_In; simpl; lia|]. right. split.
    + intros k' (i & Hi & <-)%elem_nth. specialize (Hlo i ltac:(rewrite E; exact Hi)). cbv beta in Hlo. b2p. done.
    + intros k' (i & Hi & <-)%elem_nth. apply sorted_nth; [done|lia].
  - exists (nth r ks 0). split; [|done]. split; [apply list_elem_of_In, nth_In; lia|]. left.
    specialize (Hhi ltac:(lia)). cbv beta in Hhi. b2p. split; [done|].
    intros k' (i & Hi & <-)%elem_nth Hh. destruct (decide (r <= i)%nat); [apply sorted_nth; [done|lia]|].
    specialize (Hlo i ltac:(lia)). cbv beta in Hlo. b2p. lia.
Qed.

(** ** Adding and removing *)

Lemma add_node_spec s n node :
  (add_node s n node).1 = s.1 ++ vnodes n node /\
  forall k, (add_node s n node).2 !! k = if bool_decide (k ∈ vnodes n node) then Some node else s.2 !! k.
Proof.
  unfold add_node. generalize (vnodes n node). intros vs. revert s.
  induction vs as [|v vs IH]; intros s; cbn [foldl].
  - rewrite app_nil_r. split; [done|]. intros k. by rewrite bool_decide_false by (apply not_elem_of_nil).
  - destruct (IH (s.1 ++ [v], <[v := node]> s.2)) as [H1 H2]. cbn [fst snd] in *. split.
    + by rewrite H1, <- app_assoc.
    + intros k. rewrite H2. destruct (decide (k ∈ vs)) as [Hk|Hk].
      * by rewrite !bool_decide_true by (by try apply list_elem_of_further).
      * rewrite (bool_decide_false (k ∈ vs)) by done. destruct (decide (k = v)) as [->|Hv].
        -- rewrite lookup_insert_eq, bool_decide_true by apply list_elem_of_here. done.
        -- rewrite lookup_insert_ne, bool_decide_false; [done| |done].
           rewrite elem_of_cons. naive_solver.
Qed.

Lemma SortInts_perm l : SortInts l ≡ₚ l.
Proof. apply merge_sort_Permutation. Qed.

Lemma SortInts_sorted l : StronglySorted Z.le (SortInts l).
Proof. apply StronglySorted_merge_sort; [intros x y z; lia|intros x y; lia]. Qed.

Lemma Add_one node c :
  let c' := Add [node] c in
  keys c' ≡ₚ keys c ++ vnodes (replicas c) node /\ StronglySorted Z.le (keys c') /\
  forall k, hashMap c' !! k =
    if bool_decide (k ∈ vnodes (replicas c) node) then Some node else hashMap c !! k.
Proof.
  unfold Add. simpl. destruct (add_node_spec (keys c, hashMap c) (replicas c) node) as [H1 H2].
  destruct (add_node _ _ _) as [ks m]. simpl in *. subst ks.
  split_and!; [apply SortInts_perm|apply SortInts_sorted|done].
Qed.

Lemma remove_first_sorted v ks : StronglySorted Z.le ks -> StronglySorted Z.le (remove_first v ks).
Proof.
  induction 1 as [|x ks Hs IH Hx]; simpl; [constructor|]. destruct (x =? v); [done|].
  constructor; [done|]. rewrite Forall_forall in *. intros y Hy. apply Hx.
  clear - Hy. induction ks as [|z ks IH]; simpl in *; [done|].
  destruct (z =? v); [by apply list_elem_of_further|].
  apply elem_of_cons in Hy as [->|Hy]; [apply list_elem_of_here|apply list_elem_of_further; auto].
Qed.

Lemma elem_of_remove_first v ks k : k ∈ remove_first v ks -> k ∈ ks.
Proof.
  induction ks as [|z ks IH]; simpl; [done|]. destruct (Z.eqb_spec z v).
  - by apply list_elem_of_further.
  - rewrite !elem_of_cons. naive_solver.
Qed.

Lemma remove_first_keeps v ks k : k <> v -> k ∈ ks -> k ∈ remove_first v ks.
Proof.
  intros Hne. induction ks as [|z ks IH]; simpl; [done|]. rewrite elem_of_cons.
  destruct (Z.eqb_spec z v); [naive_solver|]. rewrite elem_of_cons. naive_solver.
Qed.

Lemma remove_first_gone v ks : NoDup ks -> v ∉ remove_first v ks.
Proof.
  induction 1 as [|z ks Hz Hnd IH]; simpl; [apply not_elem_of_nil|].
  destruct (Z.eqb_spec z v); [by subst|]. rewrite elem_of_cons. naive_solver.
Qed.

Lemma remove_first_NoDup v ks : NoDup ks -> NoDup (remove_first v ks).
Proof.
  induction 1 as [|z ks Hz Hnd IH]; simpl; [constructor|]. destruct (z =? v); [done|].
  constructor; [|done]. intros H. by apply elem_of_remove_first in H.
Qed.

Lemma Remove_spec node c :
  let c' := Remove node c in
  (StronglySorted Z.le (keys c) -> StronglySorted Z.le (keys c')) /\
  (forall k, k ∈ keys c' -> k ∈ keys c) /\
  (forall k, k ∉ vnodes (replicas c) node -> k ∈ keys c -> k ∈ keys c') /\
  (NoDup (keys c) -> forall k, k ∈ keys c' -> k ∉ vnodes (replicas c) node) /\
  forall k, hashMap c' !! k =
    if bool_decide (k ∈ vnodes (replicas c) node) then None else hashMap c !! k.
Proof.
  unfold Remove. generalize (vnodes (replicas c) node). intros vs.
  assert (forall s : list Z * gmap Z string,
    let s' := foldl (fun s key => (remove_first key s.1, delete key s.2)) s vs in
    (StronglySorted Z.le s.1 -> StronglySorted Z.le s'.1) /\
    (forall k, k ∈ s'.1 -> k ∈ s.1) /\ (forall k, k ∉ vs -> k ∈ s.1 -> k ∈ s'.1) /\
    (NoDup s.1 -> forall k, k ∈ s'.1 -> k ∉ vs) /\
    forall k, s'.2 !! k = if bool_decide (k ∈ vs) then None else s.2 !! k) as H.
  { induction vs as [|v vs IH]; intros s; cbn [foldl]; cbv zeta.
    - split_and!; auto; intros;
        first [apply not_elem_of_nil|by rewrite bool_decide_false by apply not_elem_of_nil].
    - destruct (IH (remove_first v s.1, delete v s.2)) as (H1 & H2 & H3 & H4 & H5). cbn [fst snd] in *.
      split_and!.
      + intros Hs. by apply H1, remove_first_sorted.
      + intros k Hk. by eapply elem_of_remove_first, H2.
      + intros k Hk Hin. rewrite elem_of_cons in Hk. apply H3; [tauto|].
        apply remove_first_keeps; tauto.
      + intros Hnd k Hk. rewrite elem_of_cons. intros [->|Hv].
        * by eapply remove_first_gone, H2.
        * by eapply H4; [apply remove_first_NoDup| |].
      + intros k. rewrite H5. destruct (decide (k ∈ vs)) as [Hk|Hk].
        * by rewrite !bool_decide_true by (by try apply list_elem_of_further).
        * rewrite (bool_decide_false (k ∈ vs)) by done. destruct (decide (k = v)) as [->|Hv].
          -- rewrite lookup_delete_eq, bool_decide_true by apply list_elem_of_here. done.
          -- rewrite lookup_delete_ne, bool_decide_false; [done| |done]. rewrite elem_of_cons. naive_solver. }
  specialize (H (keys c, hashMap c)). destruct (foldl _ _ _) as [ks m]. apply H.
Qed.

(** ** Theorems *)

(** A ring as [Add] builds it: sorted, and every ring key has a node. *)
Record ring_ok (c : ConsistentHash) : Prop := {
  ro_sorted : StronglySorted Z.le (keys c);
  ro_owned : forall k, k ∈ keys c -> is_Some (hashMap c !! k);
}.

Lemma ring_ok_new n : ring_ok (New n).
Proof. split; simpl; [constructor|]. intros k Hk. by apply elem_of_nil in Hk. Qed.

Lemma Add_ok node c : ring_ok c -> ring_ok (Add [node] c).
Proof.
  intros [Hs Ho]. destruct (Add_one node c) as (Hp & Hs' & Hm). split; [done|].
  intros k Hk. rewrite Hm. rewrite Hp, elem_of_app in Hk.
  destruct (decide (k ∈ vnodes (replicas c) node)); [by rewrite bool_decide_true|].
  rewrite bool_decide_false by done. destruct Hk; [auto|done].
Qed.

(** Adding a node moves keys only to it. When none of the new node's
    virtual nodes hits an existing ring position, every data key is afterwards
    on the node it was on before, or on the new node; and the ring stays one
    on which every lookup finds a node. *)
Theorem add_moves_only_to_new_node node key c :
  ring_ok c -> (forall k, k ∈ vnodes (replicas c) node -> k ∉ keys c) -> keys c <> [] ->
  ring_ok (Add [node] c) /\
  (Get key (Add [node] c) = Get key c \/ Get key (Add [node] c) = node).
Proof.
  intros Hok Hfresh Hne. split; [by apply Add_ok|].
  destruct (Add_one node c) as (Hp & Hs' & Hm).
  destruct (Get_succ key c (ro_sorted _ Hok) Hne) as (k & Hk & ->).
  destruct (Get_succ key (Add [node] c) Hs') as (k' & Hk' & ->).
  { intros E. rewrite E in Hp. apply Permutation_nil_l in Hp. by destruct (keys c). }
  rewrite Hm. destruct (decide (k' ∈ vnodes (replicas c) node)) as [Hv|Hv].
  - right. by rewrite bool_decide_true.
  - left. rewrite bool_decide_false by done. do 2 f_equal.
    apply (ring_succ_unique (hash key) (keys c)); [|done].
    destruct Hk' as [Hin Hcase]. rewrite Hp, elem_of_app in Hin. destruct Hin as [Hin|]; [|done].
    assert (forall x, x ∈ keys c -> x ∈ keys (Add [node] c)) as Hsub.
    { intros x Hx. rewrite Hp, elem_of_app. by left. }
    split; [done|]. destruct Hcase as [[H1 H2]|[H1 H2]]; [left|right]; split; auto.
Qed.

(** Removing a node moves only its keys. When the ring positions of the
    node carry no other node, a data key that was on another node stays there. *)
Theorem remove_moves_only_own_keys node key c :
  ring_ok c -> NoDup (keys c) ->
  (forall k n, k ∈ vnodes (replicas c) node -> hashMap c !! k = Some n -> n = node) ->
  keys c <> [] -> Get key c <> node ->
  ring_ok (Remove node c) /\ Get key (Remove node c) = Get key c.
Proof.
  intros [Hs Ho] Hnd Hown Hne Hget.
  destruct (Remove_spec node c) as (R1 & R2 & R3 & R4 & R5). split.
  { split; [auto|]. intros k Hk. rewrite R5, bool_decide_false by auto. auto. }
  destruct (Get_succ key c Hs Hne) as (k & Hk & E). rewrite E in Hget.
  assert (k ∉ vnodes (replicas c) node) as Hkv.
  { intros Hv. destruct Hk as [Hin _]. destruct (Ho k Hin) as [n Hn]. rewrite Hn in Hget. simpl in Hget.
    by rewrite (Hown k n Hv Hn) in Hget. }
  assert (k ∈ keys (Remove node c)) as Hk2 by (apply R3; [done|apply Hk]).
  destruct (Get_succ key (Remove node c) (R1 Hs)) as (k' & Hk' & ->).
  { intros En. rewrite En in Hk2. by apply elem_of_nil in Hk2. }
  rewrite E. assert (k' = k) as ->; [|by rewrite R5, bool_decide_false].
  apply (ring_succ_unique (hash key) (keys (Remove node c))); [done|]. split; [done|].
  destruct Hk as [_ [[H1 H2]|[H1 H2]]]; [left|right]; split; auto.
Qed.

Definition demo_ring : ConsistentHash := Add ["n2"] (Add ["n1"] (New 3)).

Lemma demo_ring_ok : ring_ok demo_ring.
Proof. apply Add_ok, Add_ok, ring_ok_new. Qed.

Lemma add_moves_only_to_new_node_witness :
  Get "k" (Add ["n3"] demo_ring) = Get "k" demo_ring \/ Get "k" (Add ["n3"] demo_ring) = "n3".
Proof.
  apply (add_moves_only_to_new_node "n3" "k" demo_ring).
  - apply demo_ring_ok.
  - intros k Hk Hin.
    assert (forallb (fun k => negb (bool_decide (k ∈ keys demo_ring))) (vnodes (replicas demo_ring) "n3") = true)
      as H by (vm_compute; reflexivity).
    rewrite forallb_forall in H. apply list_elem_of_In, H in Hk. b2p. done.
  - vm_compute. discriminate.
Defined.

(** The node that does not own the data key [k]. *)
Definition demo_other : string := if bool_decide (Get "k" demo_ring = "n1") then "n2" else "n1".

Lemma remove_moves_only_own_keys_witness :
  Get "k" (Remove demo_other demo_ring) = Get "k" demo_ring.
Proof.
  apply (remove_moves_only_own_keys demo_other "k" demo_ring).
  - apply demo_ring_ok.
  - apply (bool_decide_eq_true_1 _). vm_compute. reflexivity.
  - intros k n Hk Hn.
    assert (forallb (fun k => bool_decide (default demo_other (hashMap demo_ring !! k) = demo_other))
      (vnodes (replicas demo_ring) demo_other) = true) as H by (vm_compute; reflexivity).
    rewrite forallb_forall in H. apply list_elem_of_In, H, bool_decide_eq_true_1 in Hk.
    rewrite Hn in Hk. exact Hk.
  - vm_compute. discriminate.
  - vm_compute. discriminate.
Defined.

(** Node names that differ by a leading digit share ring positions. The
    virtual nodes of a node are the hashes of a number followed by the name,
    so number 11 of [x] and number 1 of [1x] are the same position; removing
    [1x] then leaves positions of [x] without a node, and some lookups return
    no node although [x] is still on the ring. *)
Theorem shared_ring_positions :
  let c := Remove "1x" (Add ["1x"] (Add ["x"] (New 12))) in
  IsEmpty c = false /\ bool_decide ("x" ∈ GetNodes c) = true /\ Get "key1" c = "".
Proof. vm_compute. repeat split. Qed.
