(* ===== verification/GoCrypto.v ===== *)
(** * Encodings and ciphers of Go's standard library

    What the node uses of encoding/base64 (the standard alphabet, with
    padding), encoding/hex, crypto/aes and crypto/cipher's GCM with nonces of
    twelve bytes and no additional data. The ciphers are executable and agree
    with the published vectors. *)

From S2P Require Import Prelude GoStrings WalCodec ConsistentHash.
From Stdlib Require Import Ascii.
#[local] Open Scope Z_scope.

(** ** Bytes *)

Fixpoint bytes_string (l : list Z) : string :=
  match l with [] => "" | b :: l => String (ascii_of_N (Z.to_N b)) (bytes_string l) end.

Definition is_byte (b : Z) : Prop := in_uint 8 b.

Lemma bytes_string_bytes s : bytes_string (string_bytes s) = s.
Proof. induction s as [|c s IH]; cbn; [done|]. by rewrite N2Z.id, ascii_N_embedding, IH. Qed.

Lemma string_bytes_string l : Forall is_byte l -> string_bytes (bytes_string l) = l.
Proof.
  induction 1 as [|b l Hb Hl IH]; cbn; [done|]. unfold is_byte, in_uint in Hb.
  rewrite N_ascii_embedding by (change (2 ^ 8) with 256 in Hb; lia). rewrite IH, Z2N.id by lia. done.
Qed.

Lemma string_bytes_bytes s : Forall is_byte (string_bytes s).
Proof.
  induction s as [|c s IH]; cbn; constructor; [|done]. unfold is_byte, in_uint.
  pose proof (N_ascii_bounded c). change (2 ^ 8) with 256. lia.
Qed.

Lemma string_bytes_app a b : string_bytes (a +:+ b) = string_bytes a ++ string_bytes b.
Proof. induction a as [|c a IH]; [done|]. rewrite string_cons_app. cbn [string_bytes app]. by rewrite IH. Qed.

Lemma string_bytes_length s : length (string_bytes s) = String.length s.
Proof. induction s as [|c s IH]; cbn; congruence. Qed.

(** ** encoding/base64, [StdEncoding] *)

Definition std_alphabet : string := "ABCDEFGHIJKLMNOPQRSTUVWXYZabcdefghijklmnopqrstuvwxyz0123456789+/".

Definition sextet_char (v : Z) : ascii := default "="%char (String.get (Z.to_nat v) std_alphabet).

Fixpoint index_of (c : ascii) (s : string) : option Z :=
  match s with
  | "" => None
  | String d s => if Ascii.eqb c d then Some 0 else Z.succ <$> index_of c s
  end.

Definition char_sextet (c : ascii) : option Z := index_of c std_alphabet.

Definition quantum (a b c : Z) : Z := a * 2 ^ 16 + b * 2 ^ 8 + c.

Fixpoint b64_encode (l : list Z) : string :=
  match l with
  | [] => ""
  | [a] => let n := quantum a 0 0 in
      String (sextet_char (n / 2 ^ 18)) (String (sextet_char (n / 2 ^ 12 mod 64)) "==")
  | [a; b] => let n := quantum a b 0 in
      String (sextet_char (n / 2 ^ 18)) (String (sextet_char (n / 2 ^ 12 mod 64)) (String (sextet_char (n / 2 ^ 6 mod 64)) "="))
  | a :: b :: c :: l => let n := quantum a b c in
      String (sextet_char (n / 2 ^ 18)) (String (sextet_char (n / 2 ^ 12 mod 64))
        (String (sextet_char (n / 2 ^ 6 mod 64)) (String (sextet_char (n mod 64)) (b64_encode l))))
  end.

(** The decoder skips line breaks wherever they stand, and does not look at
    the bits a padded quantum leaves over. *)
Fixpoint skip_breaks (s : string) : string :=
  match s with
  | "" => ""
  | String c s => if Ascii.eqb c "010" || Ascii.eqb c "013" then skip_breaks s else String c (skip_breaks s)
  end.

Definition of_sextets (v0 v1 v2 v3 : Z) : Z := v0 * 2 ^ 18 + v1 * 2 ^ 12 + v2 * 2 ^ 6 + v3.

Fixpoint b64_quanta (s : string) : option (list Z) :=
  match s with
  | "" => Some []
  | String c0 (String c1 (String c2 (String c3 rest))) =>
      v0 ← char_sextet c0; v1 ← char_sextet c1;
      match char_sextet c2, char_sextet c3 with
      | Some v2, Some v3 =>
          let n := of_sextets v0 v1 v2 v3 in
          l ← b64_quanta rest; Some (n / 2 ^ 16 :: n / 2 ^ 8 mod 256 :: n mod 256 :: l)
      | Some v2, None =>
          if Ascii.eqb c3 "=" && bool_decide (rest = "") then
            let n := of_sextets v0 v1 v2 0 in Some [n / 2 ^ 16; n / 2 ^ 8 mod 256]
          else None
      | None, _ =>
          if Ascii.eqb c2 "=" && Ascii.eqb c3 "=" && bool_decide (rest = "") then
            let n := of_sextets v0 v1 0 0 in Some [n / 2 ^ 16]
          else None
      end
  | _ => None
  end.

Definition b64_decode (s : string) : option (list Z) := b64_quanta (skip_breaks s).

Lemma char_sextet_char v : 0 <= v < 64 ->
  char_sextet (sextet_char v) = Some v /\ Ascii.eqb (sextet_char v) "010" || Ascii.eqb (sextet_char v) "013" = false.
Proof.
  intros Hv. set (good v := bool_decide (char_sextet (sextet_char v) = Some v) &&
    negb (Ascii.eqb (sextet_char v) "010" || Ascii.eqb (sextet_char v) "013")).
  assert (forallb good (seqZ 0 64) = true) as H by (by vm_compute).
  rewrite forallb_forall in H. specialize (H v). unfold good in H.
  rewrite <- list_elem_of_In, elem_of_seqZ in H. specialize (H ltac:(lia)).
  apply andb_true_iff in H as [H1 H2]. by apply bool_decide_eq_true in H1; apply negb_true_iff in H2.
Qed.

Lemma sextet_of_char v : 0 <= v < 64 -> char_sextet (sextet_char v) = Some v.
Proof. intros Hv. apply (char_sextet_char v Hv). Qed.

Lemma skip_sextet v s : 0 <= v < 64 -> skip_breaks (String (sextet_char v) s) = String (sextet_char v) (skip_breaks s).
Proof. intros Hv. cbn [skip_breaks]. by destruct (char_sextet_char v Hv) as [_ ->]. Qed.

Lemma three_ind (P : list Z -> Prop) :
  P [] -> (forall a, P [a]) -> (forall a b, P [a; b]) -> (forall a b c l, P l -> P (a :: b :: c :: l)) -> forall l, P l.
Proof.
  intros H0 H1 H2 H3. fix IH 1. intros [|a [|b [|c l]]]; [apply H0 | apply H1 | apply H2 | apply H3, IH].
Qed.

Ltac sextet_range := repeat match goal with H : Forall is_byte (_ :: _) |- _ => apply Forall_cons in H as [? H] end;
  unfold is_byte, in_uint, quantum in *; change (2 ^ 8) with 256 in *; change (2 ^ 16) with 65536 in *;
  change (2 ^ 18) with 262144 in *; change (2 ^ 12) with 4096 in *; change (2 ^ 6) with 64 in *;
  Z.div_mod_to_equations; lia.

Lemma of_sextets_split n : of_sextets (n / 2 ^ 18) (n / 2 ^ 12 mod 64) (n / 2 ^ 6 mod 64) (n mod 64) = n.
Proof.
  unfold of_sextets. change (2 ^ 18) with (64 * 4096). change (2 ^ 12) with (64 * 64). change (2 ^ 6) with 64.
  change 4096 with (64 * 64). rewrite <- !Z.div_div by lia. set (m := n / 64). set (k := m / 64).
  pose proof (Z.div_mod n 64). pose proof (Z.div_mod m 64). pose proof (Z.div_mod k 64). lia.
Qed.

Lemma quantum_bytes a b c : is_byte a -> is_byte b -> is_byte c ->
  quantum a b c / 2 ^ 16 = a /\ quantum a b c / 2 ^ 8 mod 256 = b /\ quantum a b c mod 256 = c.
Proof. intros. sextet_range. Qed.

Lemma padded_sextets a b : quantum a b 0 mod 64 = 0 /\ quantum a 0 0 / 2 ^ 6 mod 64 = 0.
Proof.
  unfold quantum. split.
  - replace (a * 2 ^ 16 + b * 2 ^ 8 + 0) with ((a * 2 ^ 10 + b * 4) * 64) by lia. by rewrite Z.mod_mul.
  - replace (a * 2 ^ 16 + 0 * 2 ^ 8 + 0) with (a * 16 * 64 * 2 ^ 6) by lia. by rewrite Z.div_mul, Z.mod_mul.
Qed.

(** Decoding what was encoded gives the bytes back. *)
Lemma b64_roundtrip l : Forall is_byte l -> b64_decode (b64_encode l) = Some l.
Proof.
  unfold b64_decode. induction l as [|a|a b|a b c l IH] using three_ind; intros Hl; [done|..]; cbn [b64_encode];
    cbv zeta; rewrite !skip_sextet by sextet_range; cbn [b64_quanta skip_breaks Ascii.eqb orb];
    rewrite !sextet_of_char by sextet_range; cbn [mbind option_bind].
  - pose proof (of_sextets_split (quantum a 0 0)) as Hn. destruct (padded_sextets a 0) as [H1 H2]. rewrite H1, H2 in Hn.
    cbn -[Z.mul Z.add Z.div Z.modulo Z.pow quantum of_sextets]. rewrite Hn. inversion_clear Hl.
    destruct (quantum_bytes a 0 0) as (-> & _); done.
  - pose proof (of_sextets_split (quantum a b 0)) as Hn. destruct (padded_sextets a b) as [H1 _]. rewrite H1 in Hn.
    cbn -[Z.mul Z.add Z.div Z.modulo Z.pow quantum of_sextets]. rewrite Hn. inversion_clear Hl as [|?? Ha Hl']. inversion_clear Hl' as [|?? Hb _].
    destruct (quantum_bytes a b 0) as (-> & -> & _); done.
  - inversion_clear Hl as [|?? Ha Hl']. inversion_clear Hl' as [|?? Hb Hl]. inversion_clear Hl as [|?? Hc Hl'].
    rewrite IH by done. cbn [mbind option_bind]. rewrite of_sextets_split.
    destruct (quantum_bytes a b c) as (-> & -> & ->); done.
Qed.

(** What the decoder accepts is bytes. *)
Lemma index_of_range c s v : index_of c s = Some v -> 0 <= v < Z.of_nat (String.length s).
Proof.
  revert v. induction s as [|d s IH]; intros v; cbn [index_of String.length]; [done|].
  destruct (Ascii.eqb c d); [intros [= <-]; lia|]. destruct (index_of c s) as [w|]; [|done].
  intros [= <-]. specialize (IH w eq_refl). lia.
Qed.

Lemma char_sextet_range c v : char_sextet c = Some v -> 0 <= v < 64.
Proof. apply index_of_range. Qed.

Lemma four_ind (P : string -> Prop) : P "" -> (forall a, P (String a "")) -> (forall a b, P (String a (String b ""))) ->
  (forall a b c, P (String a (String b (String c "")))) ->
  (forall a b c d s, P s -> P (String a (String b (String c (String d s))))) -> forall s, P s.
Proof.
  intros H0 H1 H2 H3 H4. fix IH 1. intros [|a [|b [|c [|d s]]]]; [apply H0 | apply H1 | apply H2 | apply H3 | apply H4, IH].
Qed.

Lemma sextets_bytes v0 v1 v2 v3 : 0 <= v0 < 64 -> 0 <= v1 < 64 -> 0 <= v2 < 64 -> 0 <= v3 < 64 ->
  let n := of_sextets v0 v1 v2 v3 in is_byte (n / 2 ^ 16) /\ is_byte (n / 2 ^ 8 mod 256) /\ is_byte (n mod 256).
Proof.
  intros. unfold is_byte, in_uint. change (2 ^ 8) with 256. split; [|split; apply Z.mod_pos_bound; lia].
  unfold of_sextets in n. subst n. split; [apply Z.div_pos; lia|]. apply Z.div_lt_upper_bound; lia.
Qed.

Lemma b64_decode_bytes s l : b64_decode s = Some l -> Forall is_byte l.
Proof.
  unfold b64_decode. revert l. generalize (skip_breaks s). clear s.
  intros s. induction s as [| | | |a b c d s IH] using four_ind; intros l; cbn [b64_quanta]; try done; [by intros [= <-]|].
  destruct (char_sextet a) as [v0|] eqn:E0; [|done]. destruct (char_sextet b) as [v1|] eqn:E1; [|done]. cbn [mbind option_bind].
  apply char_sextet_range in E0, E1. destruct (char_sextet c) as [v2|] eqn:E2.
  - apply char_sextet_range in E2. destruct (char_sextet d) as [v3|] eqn:E3.
    + apply char_sextet_range in E3. destruct (b64_quanta s) as [l'|]; [|done]. cbn [mbind option_bind]. intros [= <-].
      destruct (sextets_bytes v0 v1 v2 v3) as (? & ? & ?); [done..|]. repeat (apply Forall_cons_2; [done|]). by apply IH.
    + case_match; [|done]. intros [= <-]. destruct (sextets_bytes v0 v1 v2 0) as (? & ? & ?); [lia..|].
      repeat (apply Forall_cons_2; [done|]). constructor.
  - case_match; [|done]. intros [= <-]. destruct (sextets_bytes v0 v1 0 0) as (? & ? & ?); [lia..|].
    repeat (apply Forall_cons_2; [done|]). constructor.
Qed.

(** ** encoding/hex *)

Definition hex_digit (n : Z) : ascii := ascii_of_N (Z.to_N (if n <? 10 then 48 + n else 87 + n)).
(** [hex.EncodeToString] *)
Fixpoint hex_encode (bs : list Z) : string :=
  match bs with
  | [] => ""
  | b :: bs => String (hex_digit (Z.shiftr b 4)) (String (hex_digit (Z.land b 15)) (hex_encode bs))
  end.

(** ** crypto/aes *)

Module Aes.

Definition xtime (b : Z) : Z := let d := Z.shiftl b 1 in if Z.testbit b 7 then Z.lxor (d mod 256) 0x1b else d.

Fixpoint gmul (n : nat) (a b : Z) : Z :=
  match n with
  | O => 0
  | S n => Z.lxor (if Z.testbit b 0 then a else 0) (gmul n (xtime a) (Z.shiftr b 1))
  end.
Definition mul (a b : Z) : Z := gmul 8 a b.

(** The inverse in the field, by search, and the affine map. *)
Definition inverse (a : Z) : Z := default 0 (List.find (fun b => mul a b =? 1) (seqZ 0 256)).
Definition rotl8 (b n : Z) : Z := Z.lor (Z.shiftl b n mod 256) (Z.shiftr b (8 - n)).
Definition affine (b : Z) : Z := foldr Z.lxor 0x63 (rotl8 b <$> [0; 1; 2; 3; 4]).
Definition sbox : list Z := Eval vm_compute in (fun a => affine (inverse a)) <$> seqZ 0 256.

Definition sub (b : Z) : Z := nth (Z.to_nat b) sbox 0.
Definition xor_bytes (a b : list Z) : list Z := zip_with Z.lxor a b.

(** Key expansion: words of four bytes, newest first. *)
Definition rotword (w : list Z) : list Z := drop 1 w ++ take 1 w.

Fixpoint expand (k : nat) (nk i : nat) (rcon : Z) (ws : list (list Z)) : list (list Z) :=
  match k with
  | O => ws
  | S k =>
      let temp := nth 0 ws [] in
      let prev := nth (nk - 1) ws [] in
      if (i mod nk =? 0)%nat then
        expand k nk (S i) (xtime rcon) (xor_bytes prev (xor_bytes (sub <$> rotword temp) [rcon; 0; 0; 0]) :: ws)
      else if (6 <? nk)%nat && (i mod nk =? 4)%nat then expand k nk (S i) rcon (xor_bytes prev (sub <$> temp) :: ws)
      else expand k nk (S i) rcon (xor_bytes prev temp :: ws)
  end.

Fixpoint chunks (n : nat) (k : nat) (l : list Z) : list (list Z) :=
  match k with O => [] | S k => take n l :: chunks n k (drop n l) end.

Definition round_keys (key : list Z) : list (list Z) :=
  let nk := (length key / 4)%nat in
  let nr := (nk + 6)%nat in
  let ws := rev (expand (4 * (nr + 1) - nk) nk nk 1 (rev (chunks 4 nk key))) in
  chunks 16 (nr + 1) (mjoin ws).

Definition shift_rows (st : list Z) : list Z :=
  (fun i => nth (Z.to_nat ((i + 4 * (i mod 4)) mod 16)) st 0) <$> seqZ 0 16.

Definition mix_column (c : list Z) : list Z :=
  match c with
  | [a; b; c; d] =>
      let f x y z w := Z.lxor (Z.lxor (xtime x) (Z.lxor (xtime y) y)) (Z.lxor z w) in
      [f a b c d; f b c d a; f c d a b; f d a b c]
  | _ => c
  end.
Definition mix_columns (st : list Z) : list Z := mjoin (mix_column <$> chunks 4 4 st).

Fixpoint rounds (st : list Z) (ks : list (list Z)) : list Z :=
  match ks with
  | [] => st
  | [k] => xor_bytes (shift_rows (sub <$> st)) k
  | k :: ks => rounds (xor_bytes (mix_columns (shift_rows (sub <$> st))) k) ks
  end.

Definition encrypt_block (key block : list Z) : list Z :=
  match round_keys key with
  | [] => block
  | k :: ks => rounds (xor_bytes block k) ks
  end.

End Aes.

(** FIPS 197, appendices C.1 and C.3. *)
Example aes_vector :
  Aes.encrypt_block (seqZ 0 16) ((fun i => i * 17) <$> seqZ 0 16)
  = [0x69; 0xc4; 0xe0; 0xd8; 0x6a; 0x7b; 0x04; 0x30; 0xd8; 0xcd; 0xb7; 0x80; 0x70; 0xb4; 0xc5; 0x5a] /\
  Aes.encrypt_block (seqZ 0 32) ((fun i => i * 17) <$> seqZ 0 16)
  = [0x8e; 0xa2; 0xb7; 0xca; 0x51; 0x67; 0x45; 0xbf; 0xea; 0xfc; 0x49; 0x90; 0x4b; 0x49; 0x60; 0x89].
Proof. split; vm_compute; reflexivity. Qed.

(** ** crypto/cipher, GCM *)

Module Gcm.
Section gcm.
Context (E : list Z -> list Z).

Definition NonceSize : nat := 12.
Definition TagSize : nat := 16.

(** Multiplication in GF(2^128), the highest bit first. *)
Fixpoint gf_mul (n : nat) (x v z : Z) : Z :=
  match n with
  | O => z
  | S n =>
      let z := if Z.testbit x (Z.of_nat n) then Z.lxor z v else z in
      let v := if Z.testbit v 0 then Z.lxor (Z.shiftr v 1) (Z.shiftl 0xe1 120) else Z.shiftr v 1 in
      gf_mul n x v z
  end.

Definition pad16 (l : list Z) : list Z := take (16 * ((length l + 15) / 16)) (l ++ replicate 16 0).

Definition ghash (h : Z) (l : list Z) : list Z :=
  be_put 16 (foldl (fun y b => gf_mul 128 (Z.lxor y (be_get b)) h 0) 0 (Aes.chunks 16 (length l / 16) l)).

Definition counter_block (nonce : list Z) (n : Z) : list Z := nonce ++ be_put 4 (uint32 n).

(** The key stream starts at counter 2. *)
Fixpoint ctr (fuel : nat) (nonce : list Z) (n : Z) (l : list Z) : list Z :=
  match fuel, l with
  | S fuel, _ :: _ => zip_with Z.lxor (take 16 l) (E (counter_block nonce n)) ++ ctr fuel nonce (n + 1) (drop 16 l)
  | _, _ => []
  end.
Definition crypt (nonce l : list Z) : list Z := ctr (length l) nonce 2 l.

Definition auth (nonce ct : list Z) : list Z :=
  let h := be_get (E (replicate 16 0)) in
  Aes.xor_bytes (ghash h (pad16 ct ++ be_put 8 0 ++ be_put 8 (8 * Zlength ct))) (E (counter_block nonce 1)).

(** [gcm.Seal(nonce, nonce, plaintext, nil)] without the nonce it prepends. *)
Definition Seal (nonce pt : list Z) : list Z := let ct := crypt nonce pt in ct ++ auth nonce ct.

Definition Open (nonce data : list Z) : option (list Z) :=
  if (length data <? TagSize)%nat then None else
  let ct := take (length data - TagSize) data in
  if bool_decide (auth nonce ct = drop (length data - TagSize) data) then Some (crypt nonce ct) else None.
End gcm.
End Gcm.

(** The GCM specification, test case 2. *)
Example gcm_vector :
  Gcm.Seal (Aes.encrypt_block (replicate 16 0)) (replicate 12 0) (replicate 16 0)
  = [0x03; 0x88; 0xda; 0xce; 0x60; 0xb6; 0xa3; 0x92; 0xf3; 0x28; 0xc2; 0xb9; 0x71; 0xb2; 0xfe; 0x78;
     0xab; 0x6e; 0x47; 0xd4; 0x2c; 0xec; 0x13; 0xbd; 0xf5; 0x3a; 0x67; 0xb2; 0x12; 0x57; 0xbd; 0xdf].
Proof. vm_compute. reflexivity. Qed.

(** ** The block cipher gives blocks of bytes *)

Definition byte_block (n : nat) (l : list Z) : Prop := length l = n /\ Forall is_byte l.

Lemma byte_lxor a b : is_byte a -> is_byte b -> is_byte (Z.lxor a b).
Proof.
  unfold is_byte, in_uint. intros Ha Hb.
  assert (0 <= Z.lxor a b) as H0 by (apply Z.lxor_nonneg; lia). split; [done|].
  destruct (Z.eq_dec (Z.lxor a b) 0) as [->|Hn]; [lia|]. apply Z.log2_lt_pow2; [lia|].
  eapply Z.le_lt_trans; [apply Z.log2_lxor; lia|].
  apply Z.max_lub_lt; (destruct (Z.eq_dec a 0) as [->|]; [|]); try (by cbn); try (apply Z.log2_lt_pow2; lia).
  all: destruct (Z.eq_dec b 0) as [->|]; try (by cbn); apply Z.log2_lt_pow2; lia.
Qed.

Lemma byte_xtime a : is_byte a -> is_byte (Aes.xtime a).
Proof.
  intros Ha. unfold Aes.xtime. destruct (Z.testbit a 7) eqn:E.
  - apply byte_lxor; unfold is_byte, in_uint; [apply Z.mod_pos_bound|]; lia.
  - unfold is_byte, in_uint in *. rewrite Z.shiftl_mul_pow2 by lia.
    rewrite Z.testbit_eqb in E by lia. apply Z.eqb_neq in E.
    change (2 ^ 8) with 256 in *. change (2 ^ 7) with 128 in *. change (2 ^ 1) with 2. Z.div_mod_to_equations. lia.
Qed.

Lemma byte_sub a : is_byte (Aes.sub a).
Proof.
  unfold Aes.sub. destruct (nth_in_or_default (Z.to_nat a) Aes.sbox 0) as [H| ->]; [|by vm_compute].
  assert (Forall is_byte Aes.sbox) as Hall.
  { apply (Forall_impl (fun b => (0 <=? b) && (b <? 256) = true)); [|intros b Hb; b2p; done].
    apply Forall_forall. intros b Hb%list_elem_of_In.
    by apply (proj1 (forallb_forall (fun b => (0 <=? b) && (b <? 256)) Aes.sbox) ltac:(by vm_compute)). }
  rewrite Forall_forall in Hall. by apply Hall, list_elem_of_In.
Qed.

Lemma bytes_sub l : Forall is_byte (Aes.sub <$> l).
Proof. apply Forall_fmap, Forall_true. intros. apply byte_sub. Qed.

Lemma xor_block n a b : byte_block n a -> byte_block n b -> byte_block n (Aes.xor_bytes a b).
Proof.
  intros [Ha1 Ha2] [Hb1 Hb2]. split; [unfold Aes.xor_bytes; rewrite length_zip_with; lia|].
  clear n Ha1 Hb1. revert b Hb2. induction Ha2; intros [|y b] Hb; cbn; try constructor; inversion Hb; subst.
  - by apply byte_lxor.
  - by apply IHHa2.
Qed.

Lemma chunks_blocks n k l : length l = (n * k)%nat -> Forall is_byte l -> Forall (byte_block n) (Aes.chunks n k l).
Proof.
  revert l. induction k as [|k IH]; intros l Hl Hb; cbn; constructor.
  - split; [rewrite length_take; lia | by apply Forall_take].
  - apply IH; [rewrite length_drop; lia | by apply Forall_drop].
Qed.

Lemma chunks_length n k l : length (Aes.chunks n k l) = k.
Proof. revert l. induction k as [|k IH]; intros l; cbn; [done|]. by rewrite IH. Qed.

Lemma expand_blocks k nk i rcon ws : Forall (byte_block 4) ws -> (1 <= nk <= length ws)%nat -> is_byte rcon ->
  Forall (byte_block 4) (Aes.expand k nk i rcon ws) /\ length (Aes.expand k nk i rcon ws) = (k + length ws)%nat.
Proof.
  revert i rcon ws. induction k as [|k IH]; intros i rcon ws Hws Hnk Hr; cbn [Aes.expand]; [done|].
  assert (forall j, (j < length ws)%nat -> byte_block 4 (nth j ws [])) as Hnth.
  { intros j Hj. rewrite Forall_forall in Hws. apply Hws, list_elem_of_In, nth_In. lia. }
  pose proof (Hnth 0%nat ltac:(lia)) as H0. pose proof (Hnth (nk - 1)%nat ltac:(lia)) as Hp.
  assert (forall l, length l = 4%nat -> byte_block 4 (Aes.sub <$> l)) as Hsub.
  { intros l Hl. split; [by rewrite length_fmap | apply bytes_sub]. }
  assert (forall w r, byte_block 4 w -> is_byte r -> let '(l, n) := (Aes.expand k nk (S i) r (w :: ws), (S k + length ws)%nat) in
    Forall (byte_block 4) l /\ length l = n) as Hnext.
  { intros w r Hw Hr'. destruct (IH (S i) r (w :: ws)) as [H1 H2]; [by constructor | cbn; lia | done |].
    split; [done|]. rewrite H2. cbn. lia. }
  case_match; [|case_match].
  - apply Hnext; [|by apply byte_xtime]. apply xor_block; [done|]. apply xor_block.
    + apply Hsub. unfold Aes.rotword. rewrite length_app, length_drop, length_take. destruct H0 as [-> _]. done.
    + split; [done|]. repeat (apply Forall_cons_2; [done|]). constructor.
  - apply Hnext; [|done]. apply xor_block; [done | apply Hsub, H0].
  - apply Hnext; [|done]. by apply xor_block.
Qed.

Lemma join_blocks n ls : Forall (byte_block n) ls -> byte_block (n * length ls) (mjoin ls).
Proof.
  induction 1 as [|l ls [H1 H2] Hls [IH1 IH2]]; [split; [cbn; lia|constructor]|].
  change (mjoin (l :: ls)) with (l ++ mjoin ls). split; [rewrite length_app, H1, IH1; cbn; lia | by apply Forall_app].
Qed.

Definition valid_key (key : list Z) : Prop := length key ∈ [16; 24; 32]%nat /\ Forall is_byte key.

Lemma round_keys_blocks key : valid_key key ->
  Forall (byte_block 16) (Aes.round_keys key) /\ (2 <= length (Aes.round_keys key))%nat.
Proof.
  intros [Hlen Hb]. unfold Aes.round_keys. set (nk := (length key / 4)%nat).
  assert (length key = (4 * nk)%nat /\ (4 <= nk <= 8)%nat) as [Hl Hnk].
  { subst nk. repeat (apply elem_of_cons in Hlen as [->|Hlen]; [cbn; lia|]). by apply not_elem_of_nil in Hlen. }
  destruct (expand_blocks (4 * (nk + 6 + 1) - nk) nk nk 1 (rev (Aes.chunks 4 nk key))) as [H1 H2].
  - apply Forall_rev. by apply chunks_blocks.
  - rewrite length_rev, chunks_length. lia.
  - done.
  - rewrite length_rev, chunks_length in H2. apply Forall_rev in H1. apply join_blocks in H1 as [H3 H4].
    rewrite length_rev, H2 in H3. split; [|rewrite chunks_length; lia].
    apply chunks_blocks; [|done]. rewrite H3. lia.
Qed.

Lemma mix_columns_block st : byte_block 16 st -> byte_block 16 (Aes.mix_columns st).
Proof.
  intros [Hl Hb]. assert (Forall (byte_block 4) (Aes.mix_column <$> Aes.chunks 4 4 st)) as H.
  { apply Forall_fmap. eapply Forall_impl; [by apply (chunks_blocks 4 4)|].
    intros [|a [|b [|c [|d [|]]]]] [Hc Hcb]; try done. split; [done|].
    repeat match goal with H : Forall is_byte (_ :: _) |- _ => apply Forall_cons in H as [? H] end.
    cbn [Aes.mix_column]. cbv zeta. repeat (apply Forall_cons_2; [auto 10 using byte_lxor, byte_xtime|]). constructor. }
  apply join_blocks in H. rewrite length_fmap, chunks_length in H. done.
Qed.

Lemma rounds_block st k ks : Forall (byte_block 16) (k :: ks) -> byte_block 16 (Aes.rounds st (k :: ks)).
Proof.
  assert (forall st, byte_block 16 (Aes.shift_rows (Aes.sub <$> st))) as Hs.
  { intros st'. split; [done|]. apply Forall_fmap, Forall_true. intros i. unfold compose.
    destruct (nth_in_or_default (Z.to_nat ((i + 4 * (i mod 4)) mod 16)) (Aes.sub <$> st') 0) as [H| ->]; [|by vm_compute].
    pose proof (bytes_sub st') as Hb. rewrite Forall_forall in Hb. by apply Hb, list_elem_of_In. }
  revert st k. induction ks as [|k' ks IH]; intros st k H; apply Forall_cons in H as [H1 H2].
  - by apply xor_block.
  - cbn [Aes.rounds]. by apply IH.
Qed.

Lemma encrypt_block_block key b : valid_key key -> byte_block 16 (Aes.encrypt_block key b).
Proof.
  intros Hk. destruct (round_keys_blocks key Hk) as [H1 H2]. unfold Aes.encrypt_block.
  destruct (Aes.round_keys key) as [|k [|k' ks]]; cbn in H2; [lia|lia|].
  apply Forall_cons in H1 as [_ H1]. by apply rounds_block.
Qed.

(** ** Opening what was sealed *)

Lemma xor_twice (a k : list Z) : (length a <= length k)%nat -> zip_with Z.lxor (zip_with Z.lxor a k) k = a.
Proof.
  revert k. induction a as [|x a IH]; intros [|y k] H; cbn in *; try done; [lia|].
  rewrite Z.lxor_assoc, Z.lxor_nilpotent, Z.lxor_0_r, IH by lia. done.
Qed.

Section seal.
Context (E : list Z -> list Z) (HE : forall b, byte_block 16 (E b)).

Lemma ctr_involutive fuel fuel' nonce n l : (length l <= fuel)%nat -> (length l <= fuel')%nat ->
  Gcm.ctr E fuel' nonce n (Gcm.ctr E fuel nonce n l) = l /\ length (Gcm.ctr E fuel nonce n l) = length l.
Proof.
  revert fuel' n l. induction fuel as [|fuel IH]; intros fuel' n l H1 H2.
  - destruct l; [|cbn in H1; lia]. by destruct fuel'.
  - destruct l as [|x l]; [by destruct fuel'|]. destruct fuel' as [|fuel']; [cbn in H2; lia|].
    cbn [Gcm.ctr]. set (ks := E (Gcm.counter_block nonce n)). destruct (HE (Gcm.counter_block nonce n)) as [Hks _].
    fold ks in Hks. set (l0 := x :: l). set (head := zip_with Z.lxor (take 16 l0) ks).
    assert (length head = length (take 16 l0)) as Hh by (subst head; rewrite length_zip_with, length_take; lia).
    destruct (IH fuel' (n + 1) (drop 16 l0)) as [IH1 IH2]; [rewrite length_drop; cbn in *; lia..|].
    split; [|rewrite length_app, IH2, Hh, length_take, length_drop; lia].
    destruct (head ++ Gcm.ctr E fuel nonce (n + 1) (drop 16 l0)) as [|y r] eqn:Er.
    { apply (f_equal length) in Er. rewrite length_app, IH2, Hh, length_take, length_drop in Er. cbn in Er. lia. }
    rewrite <- Er. clear y r Er.
    assert (take 16 (head ++ Gcm.ctr E fuel nonce (n + 1) (drop 16 l0)) = head /\
            drop 16 (head ++ Gcm.ctr E fuel nonce (n + 1) (drop 16 l0)) = Gcm.ctr E fuel nonce (n + 1) (drop 16 l0)) as [-> ->].
    { destruct (decide (16 <= length l0)%nat) as [Hge|Hlt].
      - apply take_drop_app. rewrite Hh, length_take. lia.
      - rewrite (drop_ge l0) by lia. assert (Gcm.ctr E fuel nonce (n + 1) [] = []) as -> by (by destruct fuel).
        rewrite app_nil_r, take_ge, drop_ge; [done|rewrite Hh, length_take; lia..]. }
    rewrite IH1. transitivity (take 16 l0 ++ drop 16 l0); [|apply take_drop]. f_equal.
    apply xor_twice. rewrite length_take. lia.
Qed.

Lemma ctr_bytes fuel nonce n l : Forall is_byte l -> Forall is_byte (Gcm.ctr E fuel nonce n l).
Proof.
  revert n l. induction fuel as [|fuel IH]; intros n l Hl; [done|]. destruct l as [|x l]; [done|]. cbn [Gcm.ctr].
  apply Forall_app. split; [|apply IH; by apply Forall_drop].
  assert (Forall is_byte (take 16 (x :: l))) as Ht by (by apply Forall_take).
  destruct (HE (Gcm.counter_block nonce n)) as [_ Hk]. clear IH Hl. revert Hk. generalize (E (Gcm.counter_block nonce n)).
  induction Ht; intros [|k ks] Hk; cbn; constructor; inversion Hk; subst; [by apply byte_lxor | by apply IHHt].
Qed.

Lemma be_put_bytes n z : Forall is_byte (be_put n z).
Proof.
  induction n as [|n IH]; [constructor|]. rewrite be_put_S. constructor; [|done].
  unfold is_byte, in_uint. apply Z.mod_pos_bound. done.
Qed.

Lemma auth_block nonce ct : byte_block 16 (Gcm.auth E nonce ct).
Proof. apply xor_block; [|apply HE]. split; [apply length_be_put | apply be_put_bytes]. Qed.

Lemma seal_bytes nonce pt : Forall is_byte pt -> Forall is_byte (Gcm.Seal E nonce pt).
Proof. intros Hp. apply Forall_app. split; [by apply ctr_bytes | apply auth_block]. Qed.

(** What was sealed under a nonce opens under it, to the same bytes. *)
Lemma open_seal nonce pt : Gcm.Open E nonce (Gcm.Seal E nonce pt) = Some pt.
Proof.
  unfold Gcm.Open, Gcm.Seal. set (ct := Gcm.crypt E nonce pt). destruct (auth_block nonce ct) as [Ht _].
  rewrite length_app, Ht. unfold Gcm.TagSize. case_match eqn:Hlt; [apply Nat.ltb_lt in Hlt; lia|].
  replace (length ct + 16 - 16)%nat with (length ct) by lia. rewrite take_app_length, drop_app_length.
  rewrite bool_decide_eq_true_2 by done. f_equal. subst ct. unfold Gcm.crypt.
  destruct (ctr_involutive (length pt) (length (Gcm.ctr E (length pt) nonce 2 pt)) nonce 2 pt); [lia| |done].
  by rewrite (proj2 (ctr_involutive (length pt) (length pt) nonce 2 pt ltac:(lia) ltac:(lia))).
Qed.

(** Only data with the right tag opens. *)
Lemma open_tag nonce data pt : Gcm.Open E nonce data = Some pt ->
  exists ct, data = ct ++ Gcm.auth E nonce ct /\ pt = Gcm.crypt E nonce ct.
Proof.
  unfold Gcm.Open. case_match; [done|]. case_bool_decide as Ht; [|done]. intros [= <-].
  eexists. split; [|done]. rewrite Ht. by rewrite take_drop.
Qed.

Lemma open_seals nonce data pt : Forall is_byte data -> Gcm.Open E nonce data = Some pt ->
  data = Gcm.Seal E nonce pt /\ Forall is_byte pt.
Proof.
  intros Hb Ho. destruct (open_tag _ _ _ Ho) as (ct & -> & ->). apply Forall_app in Hb as [Hb _].
  split; [|by apply ctr_bytes]. unfold Gcm.Seal. enough (Gcm.crypt E nonce (Gcm.crypt E nonce ct) = ct) as -> by done.
  unfold Gcm.crypt. destruct (ctr_involutive (length ct) (length (Gcm.ctr E (length ct) nonce 2 ct)) nonce 2 ct); [lia| |done].
  by rewrite (proj2 (ctr_involutive (length ct) (length ct) nonce 2 ct ltac:(lia) ltac:(lia))).
Qed.
End seal.
