(* ===== verification/IdGen.v ===== *)
(** * Identifiers (pkg/idgen)

    The snowflake generator with its clock readings as arguments, the parser
    of its identifiers, the strategy switch and the validator with its cache
    of compiled patterns. *)

From S2P Require Import Prelude GoStrings.
#[local] Open Scope Z_scope.

(** ** Snowflake *)

Definition epoch : Z := 1640995200000.
Definition timestampBits : Z := 41.
Definition nodeIDBits : Z := 10.
Definition sequenceBits : Z := 12.
Definition maxNodeID : Z := Z.lxor (-1) (Z.shiftl (-1) nodeIDBits).
Definition maxSequence : Z := Z.lxor (-1) (Z.shiftl (-1) sequenceBits).
Definition nodeIDShift : Z := sequenceBits.
Definition timestampShift : Z := sequenceBits + nodeIDBits.

Record SnowflakeGenerator := mkSnowflake { nodeID : Z; sequence : Z; lastTimestamp : Z }.

Definition NewSnowflakeGenerator (id : Z) : option SnowflakeGenerator :=
  if (id <? 0) || (maxNodeID <? id) then None else Some (mkSnowflake id 0 0).

(** [waitNextMillis]: the loop reads the clock until it is past
    [lastTimestamp]; [None] when the readings given do not get there. *)
Fixpoint waitNextMillis (last currentMillis : Z) (ticks : list Z) : option Z :=
  if currentMillis <=? last then
    match ticks with
    | [] => None
    | t :: ticks => waitNextMillis last t ticks
    end
  else Some currentMillis.

Inductive id_error := ErrClockBackwards.

Definition assemble (now node seq : Z) : Z :=
  int64 (Z.lor (Z.lor (int64 (Z.shiftl (now - epoch) timestampShift)) (Z.shiftl node nodeIDShift)) seq).

(** [Generate] at the clock reading [now], in milliseconds; [ticks] are the
    readings of the waiting loop. [None] when the loop is still waiting. *)
Definition Generate (now : Z) (ticks : list Z) (g : SnowflakeGenerator)
    : option (SnowflakeGenerator * result id_error Z) :=
  if now <? lastTimestamp g then Some (g, Err ErrClockBackwards) else
  let finish now seq :=
    Some (mkSnowflake (nodeID g) seq now, Ok (assemble now (nodeID g) seq)) in
  if now =? lastTimestamp g then
    let seq := Z.land (sequence g + 1) maxSequence in
    if seq =? 0 then
      match waitNextMillis (lastTimestamp g) now ticks with
      | None => None
      | Some now => finish now seq
      end
    else finish now seq
  else finish now 0.

Definition ParseSnowflakeID (id : Z) : Z * Z * Z :=
  (Z.shiftr id timestampShift + epoch, Z.land (Z.shiftr id nodeIDShift) maxNodeID, Z.land id maxSequence).

(** ** The generator and the validator *)

Inductive IDGeneratorStrategy := StrategyUUID | StrategySnowflake | StrategyCustom | StrategyUserProvided
  | StrategyEmpty | StrategyUnknown.

Inductive gen_error := ErrSnowflake (e : id_error) | ErrRandom | ErrUserProvided | ErrUnknownStrategy.

(** [CustomGenerator.Generate] from the formatted time, the milliseconds and
    the random bytes in hexadecimal. *)
Definition pad3 (n : Z) : string :=
  if n <? 10 then "00" +:+ Itoa n else if n <? 100 then "0" +:+ Itoa n else Itoa n.

Definition CustomGenerate (timestamp : string) (millis : Z) (random : option string) (prefix : string)
    : result gen_error string :=
  match random with
  | None => Err ErrRandom
  | Some randomStr =>
      Ok (if bool_decide (prefix = "") then timestamp +:+ pad3 millis +:+ "-" +:+ randomStr
          else prefix +:+ "-" +:+ timestamp +:+ pad3 millis +:+ "-" +:+ randomStr)
  end.

(** [DefaultGenerator.Generate]; [uuid] is the third-party package's value. *)
Definition DefaultGenerate (default_strategy : IDGeneratorStrategy) (uuid : string)
    (now : Z) (ticks : list Z) (timestamp : string) (millis : Z) (random : option string)
    (strategy : IDGeneratorStrategy) (prefix : string) (g : SnowflakeGenerator)
    : option (SnowflakeGenerator * result gen_error string) :=
  let strategy := match strategy with StrategyEmpty => default_strategy | s => s end in
  match strategy with
  | StrategyUUID => Some (g, Ok uuid)
  | StrategySnowflake =>
      match Generate now ticks g with
      | None => None
      | Some (g, Err e) => Some (g, Err (ErrSnowflake e))
      | Some (g, Ok id) =>
          Some (g, Ok (if bool_decide (prefix = "") then Itoa id else prefix +:+ "-" +:+ Itoa id))
      end
  | StrategyCustom => Some (g, CustomGenerate timestamp millis random prefix)
  | StrategyUserProvided => Some (g, Err ErrUserProvided)
  | StrategyEmpty | StrategyUnknown => Some (g, Err ErrUnknownStrategy)
  end.

Inductive validate_error := ErrEmptyID | ErrTooLong | ErrInvalidPattern | ErrNoMatch.

Section validator.
(** What the validator uses of the regexp package. *)
Context {regex : Type} (Compile : string -> option regex) (MatchString : regex -> string -> bool).

Definition Validate (id : string) (maxLength : Z) (pattern : string) (compiledPatterns : gmap string regex)
    : gmap string regex * result validate_error unit :=
  if bool_decide (id = "") then (compiledPatterns, Err ErrEmptyID) else
  if (0 <? maxLength) && (maxLength <? Z.of_nat (String.length id)) then (compiledPatterns, Err ErrTooLong) else
  if bool_decide (pattern = "") then (compiledPatterns, Ok tt) else
  match match compiledPatterns !! pattern with
        | Some re => Some (compiledPatterns, re)
        | None => match Compile pattern with
                  | Some re => Some (<[pattern := re]> compiledPatterns, re)
                  | None => None
                  end
        end with
  | None => (compiledPatterns, Err ErrInvalidPattern)
  | Some (cache, re) => (cache, if MatchString re id then Ok tt else Err ErrNoMatch)
  end.

(** A cache that holds what compiling gives. *)
Definition cache_ok (cache : gmap string regex) : Prop :=
  forall p re, cache !! p = Some re -> Compile p = Some re.

(** Whether an identifier is valid, without a cache. *)
Definition valid_id (id : string) (maxLength : Z) (pattern : string) : result validate_error unit :=
  if bool_decide (id = "") then Err ErrEmptyID else
  if (0 <? maxLength) && (maxLength <? Z.of_nat (String.length id)) then Err ErrTooLong else
  if bool_decide (pattern = "") then Ok tt else
  match Compile pattern with
  | None => Err ErrInvalidPattern
  | Some re => if MatchString re id then Ok tt else Err ErrNoMatch
  end.

Lemma Validate_with_cache id maxLength pattern cache :
  cache_ok cache -> cache_ok (Validate id maxLength pattern cache).1 /\ (Validate id maxLength pattern cache).2 = valid_id id maxLength pattern.
Proof.
  intros Hc. unfold Validate, valid_id.
  destruct (bool_decide (id = "")); [done|]. destruct (_ && _); [done|].
  destruct (bool_decide (pattern = "")); [done|].
  destruct (cache !! pattern) as [re|] eqn:E; [by rewrite (Hc _ _ E)|].
  destruct (Compile pattern) as [re|] eqn:Ec; [|done]. split; [|done].
  intros p' re'. destruct (decide (p' = pattern)) as [->|]; simpl.
  - rewrite lookup_insert_eq. congruence.
  - rewrite lookup_insert_ne by done. apply Hc.
Qed.

(** The validator's pattern cache is transparent. Over any sequence of
    validations starting from an empty cache, each returns what compiling the
    pattern afresh would give. *)
Theorem validator_cache_transparent (calls : list (string * Z * string)) id maxLength pattern :
  let cache := foldl (fun c '(i, m, p) => (Validate i m p c).1) ∅ calls in
  (Validate id maxLength pattern cache).2 = valid_id id maxLength pattern.
Proof.
  cbv zeta. apply Validate_with_cache. assert (cache_ok ∅) as H0 by (intros p re; by rewrite lookup_empty).
  revert H0. generalize (∅ : gmap string regex).
  induction calls as [|[[i m] p] calls IH]; intros c Hc; simpl; [done|]. apply IH. by apply Validate_with_cache.
Qed.

End validator.

(** ** Bits *)

Lemma lor_shift a b k : 0 <= k -> 0 <= b < 2 ^ k -> Z.lor (a * 2 ^ k) b = a * 2 ^ k + b.
Proof.
  intros Hk Hb. assert (Z.land (a * 2 ^ k) b = 0) as H0.
  { apply Z.bits_inj'. intros n Hn. rewrite Z.land_spec, Z.bits_0.
    destruct (Z.lt_ge_cases n k).
    - by rewrite Z.mul_pow2_bits_low.
    - destruct (decide (b = 0)) as [->|]; [by rewrite Z.bits_0, andb_false_r|].
      rewrite (Z.bits_above_log2 b n); [apply andb_false_r|lia|].
      apply Z.log2_lt_pow2; [lia|]. assert (2 ^ k <= 2 ^ n) by (apply Z.pow_le_mono_r; lia). lia. }
  rewrite Z.add_nocarry_lxor by done. by rewrite Z.lxor_lor.
Qed.

Lemma maxNodeID_ones : maxNodeID = Z.ones 10.
Proof. reflexivity. Qed.
Lemma maxSequence_ones : maxSequence = Z.ones 12.
Proof. reflexivity. Qed.

(** A clock reading the format can hold. *)
Definition in_epoch (now : Z) : Prop := epoch <= now < epoch + 2 ^ 41.

Lemma assemble_value now node seq :
  in_epoch now -> 0 <= node < 2 ^ 10 -> 0 <= seq < 2 ^ 12 ->
  assemble now node seq = (now - epoch) * 2 ^ 22 + node * 2 ^ 12 + seq /\
  0 <= assemble now node seq < 2 ^ 63.
Proof.
  intros Hn Hd Hs. unfold in_epoch in Hn. set (t := now - epoch). assert (0 <= t < 2 ^ 41) by lia.
  assert (assemble now node seq = t * 2 ^ 22 + node * 2 ^ 12 + seq) as E; [|split; [done|lia]].
  unfold assemble. fold t. change timestampShift with 22. change nodeIDShift with 12.
  rewrite !Z.shiftl_mul_pow2 by lia.
  rewrite (int64_small (t * 2 ^ 22)) by (unfold in_int64, min_int64, max_int64; lia).
  rewrite lor_shift by lia.
  replace (t * 2 ^ 22 + node * 2 ^ 12) with ((t * 2 ^ 10 + node) * 2 ^ 12) by lia.
  rewrite lor_shift by lia. rewrite int64_small by (unfold in_int64, min_int64, max_int64; lia). lia.
Qed.

Lemma parse_assemble now node seq :
  in_epoch now -> 0 <= node < 2 ^ 10 -> 0 <= seq < 2 ^ 12 ->
  ParseSnowflakeID (assemble now node seq) = (now, node, seq).
Proof.
  intros Hn Hd Hs. destruct (assemble_value now node seq Hn Hd Hs) as [-> _].
  unfold ParseSnowflakeID. rewrite maxNodeID_ones, maxSequence_ones, !Z.land_ones by lia.
  rewrite !Z.shiftr_div_pow2 by done. change timestampShift with 22. change nodeIDShift with 12.
  f_equal; [f_equal|].
  - rewrite <- (Z.div_unique ((now - epoch) * 2 ^ 22 + node * 2 ^ 12 + seq) (2 ^ 22) (now - epoch)
      (node * 2 ^ 12 + seq)); lia.
  - rewrite <- (Z.div_unique ((now - epoch) * 2 ^ 22 + node * 2 ^ 12 + seq) (2 ^ 12)
      ((now - epoch) * 2 ^ 10 + node) seq) by lia.
    symmetry. apply (Z.mod_unique _ _ (now - epoch)); lia.
  - symmetry. apply (Z.mod_unique _ _ ((now - epoch) * 2 ^ 10 + node)); lia.
Qed.

(** ** What the generator promises *)

Record gen_ok (g : SnowflakeGenerator) : Prop := {
  go_node : 0 <= nodeID g < 2 ^ 10;
  go_seq : 0 <= sequence g < 2 ^ 12;
}.

Lemma wait_later last c ticks now :
  waitNextMillis last c ticks = Some now -> last < now /\ (now = c \/ now ∈ ticks).
Proof.
  revert c. induction ticks as [|t ticks IH]; intros c; simpl.
  - destruct (Z.leb_spec c last); [done|]. intros [= ->]. split; [lia|by left].
  - destruct (Z.leb_spec c last).
    + intros H1. destruct (IH _ H1) as [? [->|?]]; (split; [done|right]).
      * apply list_elem_of_here.
      * by apply list_elem_of_further.
    + intros [= ->]. split; [lia|by left].
Qed.

(** One successful call: the identifier is made of the new state, which is
    later than the old one. *)
Lemma Generate_ok now ticks g g' id :
  gen_ok g -> Generate now ticks g = Some (g', Ok id) ->
  gen_ok g' /\ nodeID g' = nodeID g /\ id = assemble (lastTimestamp g') (nodeID g') (sequence g') /\
  (lastTimestamp g < lastTimestamp g' \/
   lastTimestamp g = lastTimestamp g' /\ sequence g < sequence g') /\
  (lastTimestamp g' = now \/ lastTimestamp g' ∈ ticks).
Proof.
  intros [Hn Hs] H. unfold Generate in H.
  destruct (Z.ltb_spec now (lastTimestamp g)); [done|].
  destruct (Z.eqb_spec now (lastTimestamp g)) as [E|E].
  - set (seq := Z.land (sequence g + 1) maxSequence) in *.
    assert (seq = (sequence g + 1) mod 2 ^ 12) as Es.
    { unfold seq. rewrite maxSequence_ones. by rewrite Z.land_ones. }
    destruct (Z.eqb_spec seq 0) as [E0|E0].
    + destruct (waitNextMillis _ _ _) as [now'|] eqn:Ew; [|done]. injection H as <- <-.
      destruct (wait_later _ _ _ _ Ew) as [Hl Hin]. simpl. split_and!; try done.
      * split; simpl; [done|]. rewrite E0. lia.
      * by left.
    + injection H as <- <-. simpl.
      assert (seq = sequence g + 1) as Eq.
      { rewrite Es in *. destruct (decide (sequence g + 1 = 2 ^ 12)) as [Ew|].
        - by rewrite Ew in E0.
        - apply Z.mod_small. lia. }
      split_and!; try done; [|right; lia|by left].
      split; simpl; [done|]. assert (seq < 2 ^ 12); [|lia]. rewrite Es. by apply Z.mod_pos_bound.
  - injection H as <- <-. simpl. split; [split; simpl; [done|lia]|].
    split; [done|]. split; [done|]. split; [left; lia|by left].
Qed.

Lemma Generate_err now ticks g g' e : Generate now ticks g = Some (g', Err e) -> g' = g.
Proof.
  unfold Generate. intros H. destruct (now <? _); [by simplify_eq|].
  destruct (now =? _); [|done]. destruct (_ =? 0); [|done]. by destruct (waitNextMillis _ _ _).
Qed.

(** The identifiers a sequence of calls returns; a call that still waits ends
    it. *)
Fixpoint run_ids (calls : list (Z * list Z)) (g : SnowflakeGenerator) : list Z :=
  match calls with
  | [] => []
  | (now, ticks) :: calls =>
      match Generate now ticks g with
      | None => []
      | Some (g, Ok id) => id :: run_ids calls g
      | Some (g, Err _) => run_ids calls g
      end
  end.

Definition calls_in_epoch (calls : list (Z * list Z)) : Prop :=
  Forall (fun c => in_epoch c.1 /\ Forall in_epoch c.2) calls.

(** Every identifier comes from a later state of the same node. *)
Lemma run_ids_spec calls g :
  gen_ok g -> calls_in_epoch calls ->
  StronglySorted Z.lt (run_ids calls g) /\
  Forall (fun id => exists t s, in_epoch t /\ 0 <= s < 2 ^ 12 /\ id = assemble t (nodeID g) s /\
    (lastTimestamp g < t \/ lastTimestamp g = t /\ sequence g < s)) (run_ids calls g).
Proof.
  intros Hg Hc. revert g Hg. induction Hc as [|[now ticks] calls [Hnow Hticks] Hc IH]; intros g Hg; simpl.
  { split; constructor. }
  destruct (Generate now ticks g) as [[g' [id|e]]|] eqn:E; [| |split; constructor].
  2:{ apply Generate_err in E as ->. by apply IH. }
  destruct (Generate_ok _ _ _ _ _ Hg E) as (Hg' & En & -> & Hlater & Hwhen).
  assert (in_epoch (lastTimestamp g')) as Hep.
  { destruct Hwhen as [->|Hin]; [done|]. rewrite Forall_forall in Hticks. auto. }
  destruct (IH g' Hg') as [Hsort Hall]. pose proof Hg' as [Hn' Hs'].
  split.
  - constructor; [done|]. eapply Forall_impl; [exact Hall|]. intros id (t & s & Ht & Hs & -> & Hl).
    destruct (assemble_value _ _ _ Hep Hn' Hs') as [-> _].
    destruct (assemble_value _ _ _ Ht Hn' Hs) as [-> _]. lia.
  - constructor.
    + exists (lastTimestamp g'), (sequence g'). rewrite En. split_and!; auto; apply Hs'.
    + eapply Forall_impl; [exact Hall|]. intros id (t & s & Ht & Hs & -> & Hl).
      exists t, s. rewrite En. split_and!; auto; lia.
Qed.

Lemma new_generator id g : NewSnowflakeGenerator id = Some g -> gen_ok g /\ nodeID g = id.
Proof.
  unfold NewSnowflakeGenerator. destruct (_ || _) eqn:E; [done|]. intros [= <-].
  apply orb_false_iff in E as [? ?]. b2p. change maxNodeID with (2 ^ 10 - 1) in *.
  split; [split; simpl; lia|done].
Qed.

(** The loop ends with the first reading past the last millisecond. *)
Lemma wait_ends last c ticks : Exists (fun t => last < t) ticks -> exists now, waitNextMillis last c ticks = Some now.
Proof.
  intros H. revert c. induction H as [t ticks Ht|t ticks _ IH]; intros c; simpl; destruct (c <=? last); eauto.
  exists t. destruct ticks; simpl; destruct (Z.leb_spec t last); done || lia.
Qed.

Lemma Generate_answers now ticks g :
  lastTimestamp g <= now -> Exists (fun t => lastTimestamp g < t) ticks ->
  exists g' id, Generate now ticks g = Some (g', Ok id).
Proof.
  intros Hn (t & Ht)%(wait_ends _ now). unfold Generate. rewrite (proj2 (Z.ltb_ge _ _)) by done.
  destruct (now =? _); [|eauto]. destruct (_ =? 0); [|eauto]. rewrite Ht. eauto.
Qed.

(** C40: Snowflake identifiers strictly increase. Whatever the clock reads
    from call to call (standing still, jumping back, overflowing the sequence
    within a millisecond), as long as its readings are in the 41-bit range from
    the epoch on, the identifiers a new generator returns are strictly
    increasing 63-bit numbers that parse to its node, so that none repeats and
    no other node makes the same. A call fails only when the clock has gone
    back behind the last identifier, and waits only until the clock is past
    its millisecond. *)
Theorem snowflake_increasing id g calls :
  NewSnowflakeGenerator id = Some g -> calls_in_epoch calls ->
  StronglySorted Z.lt (run_ids calls g) /\
  Forall (fun x => 0 <= x < 2 ^ 63 /\ exists t s, ParseSnowflakeID x = (t, id, s)) (run_ids calls g) /\
  (forall g' now ticks, lastTimestamp g' <= now -> Exists (fun t => lastTimestamp g' < t) ticks ->
     exists g'' x, Generate now ticks g' = Some (g'', Ok x)).
Proof.
  intros [Hg <-]%new_generator Hc. destruct (run_ids_spec calls g Hg Hc) as [Hs Hf]. split; [done|]. split.
  - eapply Forall_impl; [exact Hf|]. intros x (t & s & Ht & Hr & -> & _). pose proof (go_node _ Hg).
    split; [by apply assemble_value|]. exists t, s. by apply parse_assemble.
  - intros g' now ticks. apply Generate_answers.
Qed.

(** Two identifiers in one millisecond, a clock that jumps back, and one more. *)
Lemma snowflake_increasing_witness :
  let calls := [(1700000000000, []); (1700000000000, []); (1699999999999, []); (1700000000001, [])] in
  StronglySorted Z.lt (run_ids calls (mkSnowflake 5 0 0)) /\ length (run_ids calls (mkSnowflake 5 0 0)) = 3%nat /\
  exists g x, Generate 1700000000001 [1700000000002] (mkSnowflake 5 0 1700000000001) = Some (g, Ok x).
Proof.
  destruct (snowflake_increasing 5 (mkSnowflake 5 0 0)
    [(1700000000000, []); (1700000000000, []); (1699999999999, []); (1700000000001, [])]) as (H1 & _ & H2);
    [reflexivity|repeat constructor; unfold in_epoch, epoch; simpl; lia|].
  split; [exact H1|]. split; [vm_compute; reflexivity|].
  apply H2; [simpl; lia|repeat constructor; simpl; lia].
Defined.

(** Identifiers of different nodes differ, whatever their clocks read. *)
Theorem snowflake_nodes_disjoint id1 id2 g1 g2 calls1 calls2 x :
  NewSnowflakeGenerator id1 = Some g1 -> NewSnowflakeGenerator id2 = Some g2 -> id1 <> id2 ->
  calls_in_epoch calls1 -> calls_in_epoch calls2 ->
  x ∈ run_ids calls1 g1 -> ~ x ∈ run_ids calls2 g2.
Proof.
  intros H1 H2 Hne Hc1 Hc2 Hx1 Hx2.
  destruct (new_generator _ _ H1) as [Hg1 E1], (new_generator _ _ H2) as [Hg2 E2].
  destruct (run_ids_spec calls1 g1 Hg1 Hc1) as [_ F1]. destruct (run_ids_spec calls2 g2 Hg2 Hc2) as [_ F2].
  rewrite Forall_forall in F1, F2.
  destruct (F1 x Hx1) as (t1 & s1 & Ht1 & Hs1 & X1 & _). destruct (F2 x Hx2) as (t2 & s2 & Ht2 & Hs2 & X2 & _).
  pose proof (parse_assemble t1 (nodeID g1) s1 Ht1 (go_node _ Hg1) Hs1) as P1.
  pose proof (parse_assemble t2 (nodeID g2) s2 Ht2 (go_node _ Hg2) Hs2) as P2.
  rewrite <- X1 in P1. rewrite <- X2 in P2. congruence.
Qed.

Lemma snowflake_nodes_disjoint_witness :
  ~ assemble 1700000000000 1 0 ∈ run_ids [(1700000000000, [])] (mkSnowflake 2 0 0).
Proof.
  apply (snowflake_nodes_disjoint 1 2 (mkSnowflake 1 0 0) (mkSnowflake 2 0 0) [(1700000000000, [])]);
    try reflexivity; try done.
  - repeat constructor; unfold in_epoch, epoch; simpl; lia.
  - repeat constructor; unfold in_epoch, epoch; simpl; lia.
  - apply list_elem_of_here.
Defined.

(** Parsing inverts generating. The identifier of a successful call is a
    positive 63-bit number, and [ParseSnowflakeID] gives back the millisecond
    it was made in, the node and the sequence number. *)
Theorem snowflake_parse_roundtrip now ticks g g' id :
  0 <= nodeID g <= maxNodeID -> 0 <= sequence g <= maxSequence ->
  in_epoch now -> Forall in_epoch ticks -> Generate now ticks g = Some (g', Ok id) ->
  ParseSnowflakeID id = (lastTimestamp g', nodeID g, sequence g') /\ 0 <= id < 2 ^ 63.
Proof.
  change maxNodeID with (2 ^ 10 - 1). change maxSequence with (2 ^ 12 - 1).
  intros Hn Hs Hnow Ht H.
  destruct (Generate_ok now ticks g g' id ltac:(split; lia) H) as ([Hn' Hs'] & En & -> & _ & Hwhen).
  assert (in_epoch (lastTimestamp g')) as Hep.
  { destruct Hwhen as [->|Hin]; [done|]. rewrite Forall_forall in Ht. auto. }
  rewrite <- En. split; [by apply parse_assemble|]. by apply assemble_value.
Qed.

Lemma snowflake_parse_roundtrip_witness :
  ParseSnowflakeID (assemble 1700000000001 7 0) = (1700000000001, 7, 0) /\
  0 <= assemble 1700000000001 7 0 < 2 ^ 63.
Proof.
  apply (snowflake_parse_roundtrip 1700000000000 [1700000000000; 1700000000001]
           (mkSnowflake 7 4095 1700000000000) (mkSnowflake 7 0 1700000000001)).
  - vm_compute. split; discriminate.
  - vm_compute. split; discriminate.
  - unfold in_epoch, epoch. lia.
  - repeat constructor; unfold in_epoch, epoch; lia.
  - vm_compute. reflexivity.
Defined.
