(* ===== verification/Retry.v ===== *)
(** * Retries and the circuit breaker (pkg/retry)

    [Do] is modelled over what each attempt meets: the outcome of the
    function, the state of the context, and whether the wait ends by its timer
    or by the context. Durations are int64 nanoseconds. *)

From S2P Require Import Prelude GoTime GoFloat.
#[local] Open Scope Z_scope.

(** ** Retries *)

Module Retry.

Record Config := mkConfig {
  MaxAttempts : Z;
  InitialInterval : Z;
  MaxInterval : Z;
  Multiplier : spec_float;
  MaxJitter : Z;
}.

Definition millisecond : Z := 1000000.
Definition DefaultConfig : Config := mkConfig 3 (100 * millisecond) (5000 * millisecond) (f64 2) (100 * millisecond).

(** Whether [errors.As] finds a [RetryableError]; [code] identifies the error. *)
Record error := mkError { retryable : bool; code : Z }.

Definition IsRetryable (e : error) : bool := retryable e.

(** What an attempt meets. *)
Record attempt := mkAttempt {
  outcome : option error;     (* None: success *)
  ctx_err : bool;             (* ctx.Err() after the attempt *)
  ctx_done : bool;            (* the context ends the wait *)
  parity : Z;                 (* time.Now().UnixNano() % 2, for the jitter *)
}.

Inductive do_error := NonRetryable (e : error) | ContextError | MaxExceeded (last : option error).

(** What the caller sees: the result, the errors the function returned in
    order (one entry per call), and the intervals waited. *)
Record trace := mkTrace { res : result do_error unit; calls : list (option error); waits : list Z }.

Section do.
Context (cfg : Config).

(** [MaxJitter] times one half, or times one. *)
Definition jitter (parity : Z) : Z :=
  let half := fdiv (f64 1) (f64 2) in
  int_of_float (fmul (f64 (MaxJitter cfg)) (fadd half (fmul half (f64 parity)))).

Definition scaled (interval : Z) : Z :=
  let interval := int_of_float (fmul (f64 interval) (Multiplier cfg)) in
  if MaxInterval cfg <? interval then MaxInterval cfg else interval.

Definition next_interval (interval : Z) (a : attempt) : Z :=
  if 0 <? MaxJitter cfg then int64 (scaled interval + jitter (parity a)) else scaled interval.

Definition add_call (o : option error) (t : trace) : trace := mkTrace (res t) (o :: calls t) (waits t).
Definition add_wait (w : Z) (t : trace) : trace := mkTrace (res t) (calls t) (w :: waits t).

(** The loop from attempt [n] on; the attempts are given by their number.
    The fuel is the number of attempts left. *)
Fixpoint do_loop (fuel : nat) (n : Z) (interval : Z) (lastErr : option error) (env : Z -> attempt) : trace :=
  match fuel with
  | O => mkTrace (Err (MaxExceeded lastErr)) [] []
  | S fuel =>
      let a := env n in
      match outcome a with
      | None => mkTrace (Ok tt) [None] []
      | Some e =>
          add_call (Some e)
          (if negb (IsRetryable e) then mkTrace (Err (NonRetryable e)) [] []
           else if ctx_err a then mkTrace (Err ContextError) [] []
           else if n <? MaxAttempts cfg then
             if ctx_done a then mkTrace (Err ContextError) [] []
             else add_wait interval (do_loop fuel (n + 1) (next_interval interval a) (Some e) env)
           else do_loop fuel (n + 1) interval (Some e) env)
      end
  end.

Definition Do (env : Z -> attempt) : trace :=
  do_loop (Z.to_nat (MaxAttempts cfg)) 1 (InitialInterval cfg) None env.

(** [DoWithMetrics]: the same loop with a callback after each call. *)
Fixpoint do_metrics_loop {M} (metrics : M -> Z -> option error -> M) (fuel : nat) (n : Z) (interval : Z)
    (lastErr : option error) (env : Z -> attempt) (m : M) : M * trace :=
  match fuel with
  | O => (m, mkTrace (Err (MaxExceeded lastErr)) [] [])
  | S fuel =>
      let a := env n in
      let m := metrics m n (outcome a) in
      match outcome a with
      | None => (m, mkTrace (Ok tt) [None] [])
      | Some e =>
          let '(m, t) :=
            if negb (IsRetryable e) then (m, mkTrace (Err (NonRetryable e)) [] [])
            else if ctx_err a then (m, mkTrace (Err ContextError) [] [])
            else if n <? MaxAttempts cfg then
              if ctx_done a then (m, mkTrace (Err ContextError) [] [])
              else let '(m, t) := do_metrics_loop metrics fuel (n + 1) (next_interval interval a) (Some e) env m in
                   (m, add_wait interval t)
            else do_metrics_loop metrics fuel (n + 1) interval (Some e) env m in
          (m, add_call (Some e) t)
      end
  end.

Definition DoWithMetrics {M} (metrics : M -> Z -> option error -> M) (env : Z -> attempt) (m : M) : M * trace :=
  do_metrics_loop metrics (Z.to_nat (MaxAttempts cfg)) 1 (InitialInterval cfg) None env m.

(** An attempt after which the loop goes on. *)
Definition goes_on (a : attempt) (o : option error) : Prop :=
  exists e, outcome a = Some e /\ o = Some e /\ IsRetryable e = true /\ ctx_err a = false.

(** What the loop does from attempt [n] on: it goes on for all calls but the
    last, and the last one decides the result. *)
Record do_ok (fuel : nat) (n : Z) (env : Z -> attempt) (t : trace) : Prop := {
  do_count : (length (calls t) <= fuel)%nat;
  do_order : forall i o, calls t !! i = Some o -> outcome (env (n + Z.of_nat i)) = o;
  do_goes : forall i o, calls t !! i = Some o -> (S i < length (calls t))%nat ->
    goes_on (env (n + Z.of_nat i)) o;
  do_success : res t = Ok tt <-> last (calls t) = Some None;
  do_final : forall e, res t = Err (NonRetryable e) ->
    last (calls t) = Some (Some e) /\ IsRetryable e = false;
  do_gave_up : forall le, res t = Err (MaxExceeded le) -> length (calls t) = fuel;
}.

(** The call is the last one. *)
Lemma do_stop fuel n env o r :
  outcome (env n) = o -> (r = Ok tt <-> o = None) ->
  (forall e, r = Err (NonRetryable e) -> o = Some e /\ IsRetryable e = false) ->
  (forall le, r <> Err (MaxExceeded le)) ->
  do_ok (S fuel) n env (mkTrace r [o] []).
Proof.
  intros Ho Hok Hnr Hmx. split; simpl.
  - lia.
  - intros [|i] o'; simpl; [intros [= <-]; by rewrite Z.add_0_r|done].
  - intros [|i] o'; simpl; [lia|done].
  - rewrite Hok. split; [by intros ->|by intros [= ->]].
  - intros e He. by destruct (Hnr e He) as [-> ?].
  - intros le Hle. by destruct (Hmx le).
Qed.

(** The call is followed by more. *)
Lemma do_more fuel n env e t :
  outcome (env n) = Some e -> IsRetryable e = true -> ctx_err (env n) = false ->
  do_ok fuel (n + 1) env t -> do_ok (S fuel) n env (add_call (Some e) t).
Proof.
  intros Ho Hr Hc [H1 H2 H3 H4 H5 H6].
  assert (calls t <> [] -> last (Some e :: calls t) = last (calls t)) as Hlast by (by destruct (calls t)).
  split; simpl.
  - lia.
  - intros [|i] o; simpl; [intros [= <-]; by rewrite Z.add_0_r|].
    intros Hi. rewrite <- (H2 i o Hi). do 2 f_equal. lia.
  - intros [|i] o; simpl.
    + intros [= <-] _. exists e. rewrite Z.add_0_r. done.
    + intros Hi Hl. replace (n + Z.of_nat (S i)) with (n + 1 + Z.of_nat i) by lia.
      apply H3; [done|lia].
  - destruct (decide (calls t = [])) as [E|E]; [|by rewrite Hlast].
    rewrite E in *. simpl in *. split; [|done]. intros Ht. by apply H4 in Ht.
  - intros e' He'. destruct (H5 e' He') as [Hl Hnr]. split; [|done].
    rewrite Hlast; [done|]. intros E. by rewrite E in Hl.
  - intros le Hle. f_equal. by eapply H6.
Qed.

Lemma do_loop_spec fuel n interval lastErr env :
  1 <= n -> Z.of_nat fuel = MaxAttempts cfg - n + 1 -> do_ok fuel n env (do_loop fuel n interval lastErr env).
Proof.
  revert n interval lastErr. induction fuel as [|fuel IH]; intros n interval lastErr Hn Hf; simpl.
  { by split. }
  destruct (outcome (env n)) as [e|] eqn:Eo; [|by apply do_stop].
  destruct (IsRetryable e) eqn:Er; simpl.
  2:{ apply do_stop; try done. intros e' [= <-]. done. }
  destruct (ctx_err (env n)) eqn:Ec; [by apply do_stop|].
  destruct (Z.ltb_spec n (MaxAttempts cfg)).
  - destruct (ctx_done (env n)); [by apply do_stop|]. apply do_more; try done.
    destruct (IH (n + 1) (next_interval interval (env n)) (Some e)); [lia|lia|]. by split.
  - apply do_more; try done. apply IH; lia.
Qed.

(** The interval of a wait behind the first: capped, then the jitter on top. *)
Definition capped_wait (w : Z) : Prop :=
  exists x, x <= MaxInterval cfg /\ (w = x \/ exists p, w = int64 (x + jitter p)).

Lemma next_interval_capped interval a : capped_wait (next_interval interval a).
Proof.
  unfold next_interval. exists (scaled interval). split.
  - unfold scaled. destruct (Z.ltb_spec (MaxInterval cfg) (int_of_float (fmul (f64 interval) (Multiplier cfg)))); lia.
  - destruct (0 <? MaxJitter cfg); [right; by eexists|by left].
Qed.

(** The intervals waited. *)
Lemma do_loop_waits fuel n interval lastErr env :
  let t := do_loop fuel n interval lastErr env in
  forall i w, waits t !! i = Some w -> w = interval /\ i = 0%nat \/ capped_wait w.
Proof.
  revert n interval lastErr. induction fuel as [|fuel IH]; intros n interval lastErr; simpl; [done|].
  destruct (outcome (env n)) as [e|]; [|done]. destruct (negb _); [done|]. destruct (ctx_err _); [done|].
  destruct (n <? MaxAttempts cfg).
  - destruct (ctx_done _); [done|]. intros [|i] w; simpl; [intros [= <-]; by left|].
    intros Hw. right.
    destruct (IH (n + 1) (next_interval interval (env n)) (Some e) i w Hw) as [[-> _]|]; [|done].
    apply next_interval_capped.
  - apply IH.
Qed.

(** What a retried operation amounts to. [Do] always returns; it calls
    the function at most [MaxAttempts] times, in the order of the attempts, and
    goes on after a call only if the call failed with a retryable error and the
    context was live; it succeeds exactly when the last call did; it reports a
    non-retryable error exactly as the last call returned it; it gives up only
    after [MaxAttempts] calls; and every wait but the first is at most
    [MaxInterval] before the jitter is added. *)
Theorem retry_contract env :
  0 <= MaxAttempts cfg ->
  let t := Do env in
  Z.of_nat (length (calls t)) <= MaxAttempts cfg /\
  (forall i o, calls t !! i = Some o -> outcome (env (1 + Z.of_nat i)) = o) /\
  (forall i o, calls t !! i = Some o -> (S i < length (calls t))%nat -> goes_on (env (1 + Z.of_nat i)) o) /\
  (res t = Ok tt <-> last (calls t) = Some None) /\
  (forall e, res t = Err (NonRetryable e) -> last (calls t) = Some (Some e) /\ IsRetryable e = false) /\
  (forall le, res t = Err (MaxExceeded le) -> Z.of_nat (length (calls t)) = MaxAttempts cfg) /\
  (forall i w, waits t !! i = Some w -> w = InitialInterval cfg /\ i = 0%nat \/ capped_wait w).
Proof.
  intros Hm. unfold Do.
  destruct (do_loop_spec (Z.to_nat (MaxAttempts cfg)) 1 (InitialInterval cfg) None env)
    as [H1 H2 H3 H4 H5 H6]; [lia|lia|].
  split; [lia|]. split; [done|]. split; [done|]. split; [done|]. split; [done|].
  split; [intros le Hle; specialize (H6 le Hle); lia|by apply do_loop_waits].
Qed.

(** Recording metrics does not change the retries. [DoWithMetrics]
    returns and waits as [Do] does, and its callback sees exactly the calls,
    numbered from one. *)
Theorem metrics_do_not_interfere env :
  let '(m, t) := DoWithMetrics (fun m n o => m ++ [(n, o)]) env [] in
  t = Do env /\ m = imap (fun i o => (1 + Z.of_nat i, o)) (calls t).
Proof.
  unfold DoWithMetrics, Do.
  generalize (Z.to_nat (MaxAttempts cfg)) as fuel. generalize (InitialInterval cfg) as interval.
  generalize (@None error) as le.
  assert (forall fuel n interval le (m : list (Z * option error)),
    do_metrics_loop (fun m n o => m ++ [(n, o)]) fuel n interval le env m =
    (m ++ imap (fun i o => (n + Z.of_nat i, o)) (calls (do_loop fuel n interval le env)),
     do_loop fuel n interval le env)) as H.
  { induction fuel as [|fuel IH]; intros n interval le m; simpl; [by rewrite app_nil_r|].
    destruct (outcome (env n)) as [e|] eqn:Eo.
    2:{ simpl. by rewrite Z.add_0_r. }
    assert (forall l : list (option error),
      imap ((fun (i : nat) (o : option error) => (n + Z.of_nat i, o)) ∘ S) l =
      imap (fun (i : nat) (o : option error) => (n + 1 + Z.of_nat i, o)) l) as Hsh.
    { intros l. apply imap_ext. intros i x _. simpl. f_equal. lia. }
    destruct (IsRetryable e); simpl; [|by rewrite Z.add_0_r].
    destruct (ctx_err (env n)); simpl; [by rewrite Z.add_0_r|].
    destruct (n <? MaxAttempts cfg).
    - destruct (ctx_done (env n)); simpl; [by rewrite Z.add_0_r|]. rewrite IH. simpl.
      rewrite Z.add_0_r, Hsh, <- app_assoc. done.
    - rewrite IH. simpl. rewrite Z.add_0_r, Hsh, <- app_assoc. done. }
  intros le interval fuel. rewrite H. split; [done|]. done.
Qed.

End do.

(** A run: two retryable failures, then success. *)
Definition demo_env (n : Z) : attempt :=
  if n <? 3 then mkAttempt (Some (mkError true n)) false false 1 else mkAttempt None false false 0.

Lemma retry_contract_witness :
  let t := Do DefaultConfig demo_env in
  waits t = [100 * millisecond; 300 * millisecond] /\
  Z.of_nat (length (calls t)) <= 3 /\ (res t = Ok tt <-> last (calls t) = Some None).
Proof.
  destruct (retry_contract DefaultConfig demo_env) as (H1 & _ & _ & H2 & _).
  - vm_compute. discriminate.
  - split; [vm_compute; reflexivity|split; [exact H1|exact H2]].
Defined.

End Retry.

(** ** The circuit breaker *)

Module Breaker.

Inductive CircuitBreakerState := CircuitBreakerClosed | CircuitBreakerOpen | CircuitBreakerHalfOpen.

Record CircuitBreakerConfig := mkConfig {
  FailureThreshold : Z;
  RecoveryTimeout : Z;
  SuccessThreshold : Z;
  RequestVolumeThreshold : Z;
  SlidingWindowSize : Z;
}.

Definition DefaultCircuitBreakerConfig : CircuitBreakerConfig := mkConfig 5 (30 * second) 3 10 (60 * second).

Record CircuitBreaker := mkBreaker {
  config : CircuitBreakerConfig;
  state : CircuitBreakerState;
  failures : Z;
  successes : Z;
  requests : Z;
  lastFailTime : Z;
}.

Definition NewCircuitBreaker (c : CircuitBreakerConfig) : CircuitBreaker :=
  mkBreaker c CircuitBreakerClosed 0 0 0 0.

(** [Execute] up to the call of the function: [None] when it is rejected. *)
Definition admission (now : Z) (cb : CircuitBreaker) : option CircuitBreaker :=
  match state cb with
  | CircuitBreakerOpen =>
      if RecoveryTimeout (config cb) <? now - lastFailTime cb
      then Some (mkBreaker (config cb) CircuitBreakerHalfOpen (failures cb) 0 (requests cb + 1) (lastFailTime cb))
      else None
  | s => Some (mkBreaker (config cb) s (failures cb) (successes cb) (requests cb + 1) (lastFailTime cb))
  end.

Definition onFailure (now : Z) (cb : CircuitBreaker) : CircuitBreaker :=
  let f := failures cb + 1 in
  let s := match state cb with
           | CircuitBreakerClosed =>
               if (RequestVolumeThreshold (config cb) <=? requests cb) && (FailureThreshold (config cb) <=? f)
               then CircuitBreakerOpen else CircuitBreakerClosed
           | CircuitBreakerHalfOpen => CircuitBreakerOpen
           | CircuitBreakerOpen => CircuitBreakerOpen
           end in
  mkBreaker (config cb) s f (successes cb) (requests cb) now.

Definition onSuccess (cb : CircuitBreaker) : CircuitBreaker :=
  match state cb with
  | CircuitBreakerHalfOpen =>
      let k := successes cb + 1 in
      if SuccessThreshold (config cb) <=? k
      then mkBreaker (config cb) CircuitBreakerClosed 0 k 0 (lastFailTime cb)
      else mkBreaker (config cb) CircuitBreakerHalfOpen (failures cb) k (requests cb) (lastFailTime cb)
  | CircuitBreakerClosed =>
      mkBreaker (config cb) CircuitBreakerClosed (if 0 <? failures cb then 0 else failures cb) (successes cb)
                (requests cb) (lastFailTime cb)
  | CircuitBreakerOpen => cb
  end.

Inductive exec_result := Rejected | Failed | Succeeded.

(** [Execute] with nothing running in between; [ok] is what the function does. *)
Definition Execute (now now_fail : Z) (ok : bool) (cb : CircuitBreaker) : CircuitBreaker * exec_result :=
  match admission now cb with
  | None => (cb, Rejected)
  | Some cb => if ok then (onSuccess cb, Succeeded) else (onFailure now_fail cb, Failed)
  end.

Definition Reset (cb : CircuitBreaker) : CircuitBreaker :=
  mkBreaker (config cb) CircuitBreakerClosed 0 0 0 (lastFailTime cb).

Definition GetState (cb : CircuitBreaker) : CircuitBreakerState := state cb.

(** A run of calls: each at a time, with an outcome. *)
Definition run (calls : list (Z * bool)) (cb : CircuitBreaker) : CircuitBreaker :=
  foldl (fun cb c => (Execute c.1 c.1 c.2 cb).1) cb calls.

Lemma run_failures k t (cb : CircuitBreaker) :
  state cb = CircuitBreakerClosed -> 1 <= FailureThreshold (config cb) ->
  Z.of_nat k < Z.max (FailureThreshold (config cb) - failures cb) (RequestVolumeThreshold (config cb) - requests cb) ->
  let cb' := run (replicate k (t, false)) cb in
  state cb' = CircuitBreakerClosed /\ config cb' = config cb /\
  failures cb' = failures cb + Z.of_nat k /\ requests cb' = requests cb + Z.of_nat k /\
  (lastFailTime cb' = t \/ k = 0%nat).
Proof.
  revert cb. induction k as [|k IH]; intros cb Hs Hf Hk; cbv zeta.
  { simpl. split_and!; auto; lia. }
  set (cb1 := (Execute t t false cb).1).
  change (run (replicate (S k) (t, false)) cb) with (run (replicate k (t, false)) cb1).
  assert (cb1 = mkBreaker (config cb) CircuitBreakerClosed (failures cb + 1) (successes cb) (requests cb + 1) t) as E.
  { unfold cb1, Execute, admission. rewrite Hs. simpl. unfold onFailure. simpl. rewrite ?Hs. simpl.
    destruct (Z.leb_spec (RequestVolumeThreshold (config cb)) (requests cb + 1));
      destruct (Z.leb_spec (FailureThreshold (config cb)) (failures cb + 1)); simpl; try done. lia. }
  clearbody cb1. subst cb1.
  edestruct IH as (H1 & H2 & H3 & H4 & H5); [| | |split; [exact H1|split; [exact H2|]]].
  - done.
  - done.
  - simpl. lia.
  - simpl in H3, H4. split; [lia|]. split; [lia|].
    left. destruct H5 as [H5|H5]; [done|]. by subst k.
Qed.

Lemma trips_at (cb : CircuitBreaker) t :
  state cb = CircuitBreakerClosed ->
  RequestVolumeThreshold (config cb) <= requests cb + 1 -> FailureThreshold (config cb) <= failures cb + 1 ->
  state (Execute t t false cb).1 = CircuitBreakerOpen /\ lastFailTime (Execute t t false cb).1 = t /\
  config (Execute t t false cb).1 = config cb.
Proof.
  intros Hs Hr Hf. unfold Execute, admission. rewrite Hs. simpl. unfold onFailure. simpl. rewrite ?Hs. simpl.
  apply Z.leb_le in Hr, Hf. by rewrite Hr, Hf.
Qed.

(** When the breaker trips. A new breaker stays closed through any number
    of consecutive failures below both thresholds taken together, opens exactly
    at the failure that reaches the larger of the failure threshold and the
    request volume, and from then on rejects every call, without running it and
    without changing state, until more than the recovery timeout has passed. *)
Theorem breaker_trips c t now now' ok k :
  1 <= FailureThreshold c -> 1 <= RequestVolumeThreshold c ->
  Z.of_nat (S k) = Z.max (FailureThreshold c) (RequestVolumeThreshold c) ->
  let before := run (replicate k (t, false)) (NewCircuitBreaker c) in
  let tripped := run (replicate k (t, false) ++ [(t, false)]) (NewCircuitBreaker c) in
  GetState before = CircuitBreakerClosed /\ GetState tripped = CircuitBreakerOpen /\
  (now - t <= RecoveryTimeout c -> Execute now now' ok tripped = (tripped, Rejected)).
Proof.
  intros Hf Hv Hk. cbv zeta.
  destruct (run_failures k t (NewCircuitBreaker c)) as (H1 & H2 & H3 & H4 & _); simpl; [done|lia|lia|].
  unfold run in *. rewrite foldl_app. simpl.
  set (before := foldl _ _ _) in *. simpl in *.
  destruct (trips_at before t) as (T1 & T2 & T3); [done|rewrite H2; lia|rewrite H2; lia|].
  split_and!; [done|done|]. intros Hnow. unfold Execute at 1, admission. rewrite T1, T2, T3, H2.
  destruct (Z.ltb_spec (RecoveryTimeout c) (now - t)); [lia|done].
Qed.

Lemma breaker_trips_witness :
  let tripped := run (replicate 9 (7, false) ++ [(7, false)]) (NewCircuitBreaker DefaultCircuitBreakerConfig) in
  GetState tripped = CircuitBreakerOpen /\ Execute 8 8 true tripped = (tripped, Rejected).
Proof.
  destruct (breaker_trips DefaultCircuitBreakerConfig 7 8 8 true 9) as (_ & H1 & H2).
  - vm_compute. discriminate.
  - vm_compute. discriminate.
  - reflexivity.
  - split; [exact H1|apply H2]. vm_compute. discriminate.
Defined.

Lemma half_open_successes k t (cb : CircuitBreaker) :
  state cb = CircuitBreakerHalfOpen -> 0 < Z.of_nat k -> successes cb + Z.of_nat k <= SuccessThreshold (config cb) ->
  let cb' := run (replicate k (t, true)) cb in
  config cb' = config cb /\
  if successes cb + Z.of_nat k <? SuccessThreshold (config cb)
  then state cb' = CircuitBreakerHalfOpen /\ successes cb' = successes cb + Z.of_nat k
  else state cb' = CircuitBreakerClosed /\ failures cb' = 0 /\ requests cb' = 0.
Proof.
  revert cb. induction k as [|k IH]; intros cb Hs Hk Hb; [simpl in Hk; lia|].
  change (run (replicate (S k) (t, true)) cb) with (run (replicate k (t, true)) (Execute t t true cb).1).
  assert ((Execute t t true cb).1 =
    if SuccessThreshold (config cb) <=? successes cb + 1
    then mkBreaker (config cb) CircuitBreakerClosed 0 (successes cb + 1) 0 (lastFailTime cb)
    else mkBreaker (config cb) CircuitBreakerHalfOpen (failures cb) (successes cb + 1) (requests cb + 1) (lastFailTime cb)) as E.
  { unfold Execute, admission. rewrite Hs. simpl. unfold onSuccess. simpl. by destruct (_ <=? _). }
  rewrite E. destruct (Z.leb_spec (SuccessThreshold (config cb)) (successes cb + 1)).
  - assert (k = 0%nat) as -> by lia. change (Z.of_nat 1) with 1.
    destruct (Z.ltb_spec (successes cb + 1) (SuccessThreshold (config cb))); [lia|done].
  - destruct (decide (k = 0%nat)) as [->|Hk0].
    + change (Z.of_nat 1) with 1.
      destruct (Z.ltb_spec (successes cb + 1) (SuccessThreshold (config cb))); [done|lia].
    + destruct (IH (mkBreaker (config cb) CircuitBreakerHalfOpen (failures cb) (successes cb + 1) (requests cb + 1)
        (lastFailTime cb))) as [H1 H2]; simpl; [done|lia|lia|].
      simpl in *. split; [done|].
      replace (successes cb + Z.of_nat (S k)) with (successes cb + 1 + Z.of_nat k) by lia. done.
Qed.

(** When the breaker recovers. Once the timeout has passed, an open
    breaker lets calls through; it closes, with its counters reset, exactly at
    the [SuccessThreshold]-th success in a row, and a failure before that
    opens it again. *)
Theorem breaker_recovers cb t k :
  state cb = CircuitBreakerOpen -> RecoveryTimeout (config cb) < t - lastFailTime cb ->
  0 < Z.of_nat k <= SuccessThreshold (config cb) ->
  let cb' := run (replicate k (t, true)) cb in
  (if Z.of_nat k <? SuccessThreshold (config cb)
   then GetState cb' = CircuitBreakerHalfOpen /\ GetState (Execute t t false cb').1 = CircuitBreakerOpen
   else GetState cb' = CircuitBreakerClosed /\ failures cb' = 0 /\ requests cb' = 0).
Proof.
  intros Hs Ht Hk. cbv zeta. destruct k as [|k]; [simpl in Hk; lia|].
  set (h := mkBreaker (config cb) CircuitBreakerHalfOpen (failures cb) 0 (requests cb) (lastFailTime cb)).
  assert (run (replicate (S k) (t, true)) cb = run (replicate (S k) (t, true)) h) as ->.
  { simpl. unfold run. f_equal. unfold Execute, admission. rewrite Hs. simpl.
    apply Z.ltb_lt in Ht. by rewrite Ht. }
  destruct (half_open_successes (S k) t h) as [Hc H]; [done|lia|simpl; lia|].
  change (successes h + Z.of_nat (S k)) with (0 + Z.of_nat (S k)) in H.
  change (config h) with (config cb) in H. rewrite Z.add_0_l in H.
  destruct (Z.of_nat (S k) <? SuccessThreshold (config cb)); [|done].
  destruct H as [Hh _]. split; [done|]. unfold GetState, Execute, admission. by rewrite Hh.
Qed.

Lemma breaker_recovers_witness :
  let cb := mkBreaker DefaultCircuitBreakerConfig CircuitBreakerOpen 5 0 10 0 in
  GetState (run (replicate 3 (30000000001, true)) cb) = CircuitBreakerClosed.
Proof.
  apply (breaker_recovers (mkBreaker DefaultCircuitBreakerConfig CircuitBreakerOpen 5 0 10 0) 30000000001 3).
  - reflexivity.
  - vm_compute. reflexivity.
  - vm_compute. split; [reflexivity|discriminate].
Defined.

End Breaker.
