(* ===== verification/LogBuffer.v ===== *)
(** * The dashboard's log buffer (internal/dashboard/logbuffer/buffer.go)

    A ring of log entries, and paged, filtered queries over it. The theorem is
    a refinement: the ring behaves as the list of the last [maxSize] entries. *)

From S2P Require Import Prelude GoStrings FieldMapping.
#[local] Open Scope Z_scope.

Record LogEntry := mkEntry {
  le_Level : string;
  le_Timestamp : Z;
  le_Message : string;
  le_Fields : gmap string value;
}.

Definition zero_entry : LogEntry := mkEntry "" 0 "" ∅.

Record LogQueryParams := mkParams {
  q_Level : string;
  q_StartTime : Z;
  q_EndTime : Z;
  q_Keyword : string;
  q_Page : Z;
  q_PageSize : Z;
}.

Record LogQueryResult := mkResult {
  r_Logs : list LogEntry;
  r_Total : Z;
  r_Page : Z;
  r_PageSize : Z;
}.

Definition DefaultMaxSize : Z := 5000.

Record LogBuffer := mkLogBuffer {
  entries : list LogEntry;
  head_ : nat;
  tail_ : nat;
  size_ : nat;
  maxSize : nat;
}.

Definition NewBuffer (max : Z) : LogBuffer :=
  let max := Z.to_nat (if max <=? 0 then DefaultMaxSize else max) in
  mkLogBuffer (replicate max zero_entry) 0 0 0 max.

Definition Add (b : LogBuffer) (entry : LogEntry) : LogBuffer :=
  let es := <[tail_ b := entry]> (entries b) in
  let t := Nat.modulo (tail_ b + 1) (maxSize b) in
  if (size_ b <? maxSize b)%nat
  then mkLogBuffer es (head_ b) t (size_ b + 1) (maxSize b)
  else mkLogBuffer es (Nat.modulo (head_ b + 1) (maxSize b)) t (size_ b) (maxSize b).

(** The entry [i] places behind the head. *)
Definition nth_entry (b : LogBuffer) (i : nat) : LogEntry :=
  nth (Nat.modulo (head_ b + i) (maxSize b)) (entries b) zero_entry.

Definition GetAll (b : LogBuffer) : list LogEntry := nth_entry b <$> seq 0 (size_ b).

Definition Size (b : LogBuffer) : Z := Z.of_nat (size_ b).

Section query.
(** [strings.EqualFold] and [strings.ToLower], which follow Unicode's case
    tables. *)
Context (EqualFold : string -> string -> bool) (ToLowerU : string -> string).

Definition matchFilter (params : LogQueryParams) (entry : LogEntry) : bool :=
  if negb (bool_decide (q_Level params = "")) && negb (EqualFold (le_Level entry) (q_Level params)) then false
  else if (0 <? q_StartTime params) && (le_Timestamp entry <? q_StartTime params) then false
  else if (0 <? q_EndTime params) && (q_EndTime params <? le_Timestamp entry) then false
  else if negb (bool_decide (q_Keyword params = "")) &&
          negb (Contains (ToLowerU (le_Message entry)) (ToLowerU (q_Keyword params))) then false
  else true.

(** The slice expression [l[start:end]]: [None] when it panics. *)
Definition slice {A} (l : list A) (start end_ : Z) : option (list A) :=
  if (0 <=? start) && (start <=? end_) && (end_ <=? Zlength l)
  then Some (take (Z.to_nat (end_ - start)) (drop (Z.to_nat start) l)) else None.

(** [Query]; [None] when it panics. *)
Definition Query (params : LogQueryParams) (b : LogBuffer) : option LogQueryResult :=
  if (size_ b =? 0)%nat then Some (mkResult [] 0 (q_Page params) (q_PageSize params)) else
  let filtered := List.filter (matchFilter params) (GetAll b) in
  let total := Zlength filtered in
  let page := if q_Page params <? 1 then 1 else q_Page params in
  let pageSize := if q_PageSize params <? 1 then 20 else q_PageSize params in
  let start := int64 (int64 (page - 1) * pageSize) in
  let end_ := int64 (start + pageSize) in
  if total <=? start then Some (mkResult [] total page pageSize) else
  let end_ := if total <? end_ then total else end_ in
  match slice filtered start end_ with
  | Some logs => Some (mkResult logs total page pageSize)
  | None => None
  end.

(** ** The ring *)

Record ring_inv (b : LogBuffer) : Prop := {
  ri_pos : (0 < maxSize b)%nat;
  ri_len : length (entries b) = maxSize b;
  ri_size : (size_ b <= maxSize b)%nat;
  ri_head : (head_ b < maxSize b)%nat;
  ri_tail : tail_ b = Nat.modulo (head_ b + size_ b) (maxSize b);
}.

Lemma mod_add_inj m h i j :
  (0 < m)%nat -> (i < m)%nat -> (j < m)%nat -> Nat.modulo (h + i) m = Nat.modulo (h + j) m -> i = j.
Proof.
  intros Hm Hi Hj H.
  pose proof (Nat.div_mod (h + i) m ltac:(lia)) as E1. pose proof (Nat.div_mod (h + j) m ltac:(lia)) as E2.
  rewrite <- H in E2. set (a := Nat.div (h + i) m) in *. set (c := Nat.div (h + j) m) in *.
  destruct (decide (a = c)) as [->|Hne]; [lia|].
  assert (a < c \/ c < a)%nat as [Hlt|Hlt] by lia; nia.
Qed.

Lemma mod_range m x : (0 < m)%nat -> (Nat.modulo x m < m)%nat.
Proof. intros. apply Nat.mod_upper_bound. lia. Qed.

Lemma mod_succ m x y : (0 < m)%nat -> Nat.modulo (Nat.modulo x m + y) m = Nat.modulo (x + y) m.
Proof. intros. by rewrite Nat.Div0.add_mod_idemp_l. Qed.

Lemma nth_insert_eq (l : list LogEntry) i e : (i < length l)%nat -> nth i (<[i := e]> l) zero_entry = e.
Proof.
  intros H. apply nth_lookup_Some with (d := zero_entry). by apply list_lookup_insert_eq.
Qed.

Lemma nth_insert_ne (l : list LogEntry) i j e : i <> j -> nth j (<[i := e]> l) zero_entry = nth j l zero_entry.
Proof. intros H. rewrite !nth_lookup. by rewrite list_lookup_insert_ne. Qed.

Lemma Add_inv b e : ring_inv b -> ring_inv (Add b e).
Proof.
  intros [Hp Hl Hs Hh Ht]. unfold Add.
  destruct (Nat.ltb_spec (size_ b) (maxSize b)); split; simpl; rewrite ?length_insert; try done; try lia.
  - rewrite Ht, mod_succ by done. f_equal. lia.
  - by apply mod_range.
  - assert (size_ b = maxSize b) as E by lia. rewrite Ht, E, !mod_succ by done. f_equal. lia.
Qed.

(** One [Add] on the list of entries: append, and drop the oldest when full. *)
Definition push (max : nat) (l : list LogEntry) (e : LogEntry) : list LogEntry :=
  drop (length (l ++ [e]) - max) (l ++ [e]).

Lemma fmap_seq_first {A} (f : nat -> A) m : f <$> seq 0 (S m) = f 0%nat :: ((f ∘ S) <$> seq 0 m).
Proof. change (seq 0 (S m)) with (0%nat :: seq 1 m). by rewrite fmap_cons, <- fmap_S_seq, <- list_fmap_compose. Qed.

Lemma fmap_seq_last {A} (f : nat -> A) m : f <$> seq 0 (S m) = (f <$> seq 0 m) ++ [f m].
Proof. by rewrite seq_S, fmap_app. Qed.

Lemma Add_view b e : ring_inv b -> GetAll (Add b e) = push (maxSize b) (GetAll b) e.
Proof.
  intros [Hp Hl Hs Hh Ht]. unfold push. rewrite length_app. unfold GetAll at 2. rewrite length_fmap, length_seq.
  change (length [e]) with 1%nat.
  assert (tail_ b < length (entries b))%nat as Htl by (rewrite Hl, Ht; by apply mod_range).
  unfold GetAll, Add, nth_entry.
  destruct (Nat.ltb_spec (size_ b) (maxSize b)) as [Hlt|Hge]; cbn [entries head_ size_ maxSize].
  - replace (size_ b + 1 - maxSize b)%nat with 0%nat by lia. rewrite drop_0.
    rewrite seq_app, fmap_app. simpl. f_equal.
    + apply list_fmap_ext. intros k i Hi%lookup_seq. apply nth_insert_ne.
      rewrite Ht. intros E. apply mod_add_inj in E; lia.
    + rewrite <- Ht. by rewrite nth_insert_eq.
  - assert (size_ b = maxSize b) as E by lia. rewrite E in *.
    replace (maxSize b + 1 - maxSize b)%nat with 1%nat by lia.
    assert (tail_ b = head_ b) as Eth.
    { rewrite Ht. rewrite <- (Nat.mul_1_l (maxSize b)) at 1. rewrite Nat.Div0.mod_add. by apply Nat.mod_small. }
    destruct (maxSize b) as [|m] eqn:Em; [lia|]. clear Hge.
    rewrite (fmap_seq_first (fun i => nth (Nat.modulo (head_ b + i) (S m)) (entries b) zero_entry)).
    cbn [app drop]. rewrite drop_0, fmap_seq_last. f_equal.
    + apply list_fmap_ext. intros k i Hi%lookup_seq. unfold compose.
      rewrite mod_succ by lia. replace (head_ b + 1 + i)%nat with (head_ b + S i)%nat by lia.
      apply nth_insert_ne. rewrite Eth. intros Ei.
      assert (Nat.modulo (head_ b + 0) (S m) = Nat.modulo (head_ b + S i) (S m)) as Ej.
      { rewrite Nat.add_0_r, Nat.mod_small by lia. exact Ei. }
      apply mod_add_inj in Ej; lia.
    + f_equal. rewrite mod_succ by lia.
      replace (head_ b + 1 + m)%nat with (head_ b + 1 * S m)%nat by lia.
      rewrite Nat.Div0.mod_add, Nat.mod_small by lia. rewrite Eth. apply nth_insert_eq. lia.
Qed.

Lemma Add_max b e : maxSize (Add b e) = maxSize b.
Proof. unfold Add. by destruct (_ <? _)%nat. Qed.

Lemma NewBuffer_inv max : ring_inv (NewBuffer max).
Proof.
  unfold NewBuffer. set (m := Z.to_nat _).
  assert (0 < m)%nat by (unfold m, DefaultMaxSize; destruct (Z.leb_spec max 0); lia).
  split; simpl; try lia; [by rewrite length_replicate|]. symmetry. apply Nat.Div0.mod_0_l.
Qed.

Definition last_n {A} (n : nat) (l : list A) : list A := drop (length l - n) l.

Lemma push_last max l e : push max (last_n max l) e = last_n max (l ++ [e]).
Proof.
  unfold push, last_n. rewrite !length_app, length_drop. simpl.
  destruct (decide (length l < max)%nat).
  - replace (length l - max)%nat with 0%nat by lia.
    by rewrite drop_0, Nat.sub_0_r.
  - rewrite <- drop_app_le by lia. rewrite drop_drop. f_equal. lia.
Qed.

Lemma view_history max es :
  let b := foldl Add (NewBuffer max) es in
  ring_inv b /\ maxSize b = maxSize (NewBuffer max) /\ GetAll b = last_n (maxSize (NewBuffer max)) es.
Proof.
  induction es as [|e es IH] using rev_ind; cbv zeta.
  - split; [apply NewBuffer_inv|]. done.
  - rewrite foldl_app. simpl. destruct IH as (Hi & Hm & Hv).
    split; [by apply Add_inv|]. rewrite Add_max. split; [done|].
    rewrite Add_view by done. by rewrite Hm, Hv, push_last.
Qed.

(** The log buffer is the list of the last entries. After any sequence
    of additions, [GetAll] is exactly the last [maxSize] entries in order, and
    a query whose page and page size do not overflow an int64 returns the
    requested page of those of them that match, with the number of matches. *)
Theorem log_buffer_refines max es params :
  let kept := last_n (maxSize (NewBuffer max)) es in
  let b := foldl Add (NewBuffer max) es in
  let page := if q_Page params <? 1 then 1 else q_Page params in
  let pageSize := if q_PageSize params <? 1 then 20 else q_PageSize params in
  let filtered := List.filter (matchFilter params) kept in
  page * pageSize <= max_int64 -> in_int64 (q_Page params) -> es <> [] ->
  GetAll b = kept /\ Size b = Zlength kept /\
  Query params b = Some (mkResult
    (take (Z.to_nat pageSize) (drop (Z.to_nat ((page - 1) * pageSize)) filtered))
    (Zlength filtered) page pageSize).
Proof.
  cbv zeta. destruct (view_history max es) as (Hi & _ & Hv). cbv zeta in Hv.
  set (b := foldl Add (NewBuffer max) es) in *.
  set (page := if q_Page params <? 1 then 1 else q_Page params).
  set (pageSize := if q_PageSize params <? 1 then 20 else q_PageSize params).
  intros Hov Hpg Hes.
  assert (Z.of_nat (size_ b) = Zlength (GetAll b)) as Hsz by (unfold GetAll; by rewrite length_fmap, length_seq).
  split; [done|]. split; [unfold Size; by rewrite Hsz, Hv|].
  assert (size_ b <> 0%nat) as Hne.
  { intros E. rewrite E in Hsz. rewrite Hv in Hsz. unfold last_n in Hsz. rewrite length_drop in Hsz.
    pose proof (ri_pos _ (NewBuffer_inv max)).
    assert (length es <> 0%nat) by (by destruct es). lia. }
  assert (1 <= page) by (unfold page; destruct (Z.ltb_spec (q_Page params) 1); lia).
  assert (1 <= pageSize) by (unfold pageSize; destruct (Z.ltb_spec (q_PageSize params) 1); lia).
  unfold Query. destruct (Nat.eqb_spec (size_ b) 0); [done|]. fold page pageSize. rewrite Hv.
  set (filtered := List.filter _ _).
  assert (in_int64 (page - 1)) as Hp1.
  { unfold in_int64, min_int64, max_int64 in *. unfold page in *. destruct (Z.ltb_spec (q_Page params) 1); lia. }
  assert (0 <= (page - 1) * pageSize) by nia.
  assert ((page - 1) * pageSize + pageSize = page * pageSize) as Esum by lia.
  rewrite (int64_small (page - 1)) by done.
  rewrite (int64_small ((page - 1) * pageSize)) by (unfold in_int64, min_int64 in *; lia).
  rewrite (int64_small ((page - 1) * pageSize + pageSize)) by (unfold in_int64, min_int64 in *; lia).
  set (start := (page - 1) * pageSize) in *.
  destruct (Z.leb_spec (Zlength filtered) start) as [Hge|Hlt].
  - rewrite drop_ge by lia. by rewrite take_nil.
  - unfold slice. destruct (Z.ltb_spec (Zlength filtered) (start + pageSize)).
    + destruct (Z.leb_spec 0 start), (Z.leb_spec start (Zlength filtered)),
        (Z.leb_spec (Zlength filtered) (Zlength filtered)); try lia. simpl.
      rewrite !take_ge; [done| |]; rewrite length_drop; lia.
    + destruct (Z.leb_spec 0 start), (Z.leb_spec start (start + pageSize)),
        (Z.leb_spec (start + pageSize) (Zlength filtered)); try lia. simpl.
      by replace (start + pageSize - start) with pageSize by lia.
Qed.

End query.

Definition demo_entries : list LogEntry :=
  [mkEntry "info" 1 "start" ∅; mkEntry "warn" 2 "slow" ∅; mkEntry "info" 3 "stop" ∅].

Lemma log_buffer_refines_witness :
  GetAll (foldl Add (NewBuffer 2) demo_entries) = [mkEntry "warn" 2 "slow" ∅; mkEntry "info" 3 "stop" ∅].
Proof.
  apply (log_buffer_refines (fun a b => bool_decide (a = b)) ToLower 2 demo_entries (mkParams "" 0 0 "" 1 10)).
  - vm_compute. discriminate.
  - vm_compute. split; discriminate.
  - discriminate.
Defined.
