(* ===== verification/OptimisticLock.v ===== *)
(** * The in-process lock (pkg/lock/optimistic.go)

    [OptimisticLocker] works on a [sync.Map] with its atomic operations and no
    mutex, so every method is modelled as its atomic steps, and the methods of
    different goroutines interleave freely. An entry is a heap object: it has
    an identity, the number it was allocated with; [CompareAndSwap] and
    [CompareAndDelete] compare pointers, that is, numbered entries. *)

From S2P Require Import Prelude GoStrings.
#[local] Open Scope Z_scope.

Record lockEntry := mkLockEntry { ptr : nat; token : string; expiresAt : Z }.

#[export] Instance lockEntry_eq_dec : EqDecision lockEntry.
Proof. solve_decision. Defined.

(** [LockKey] *)
Definition LockKey (table id : string) : string := "lock:table:" +:+ table +:+ ":id:" +:+ id.

(** ** Atomic operations of the map *)

Abbreviation locks := (gmap string lockEntry).

Definition LoadOrStore (m : locks) (key : string) (e : lockEntry) : locks * lockEntry * bool :=
  match m !! key with
  | Some e' => (m, e', true)
  | None => (<[key := e]> m, e, false)
  end.

Definition same_entry (m : locks) (key : string) (e : lockEntry) : bool :=
  bool_decide (m !! key = Some e).

Definition CompareAndSwap (m : locks) (key : string) (old new : lockEntry) : locks * bool :=
  if same_entry m key old then (<[key := new]> m, true) else (m, false).

Definition CompareAndDelete (m : locks) (key : string) (old : lockEntry) : locks * bool :=
  if same_entry m key old then (delete key m, true) else (m, false).

(** ** The methods, atomic step by atomic step *)

(** Where a goroutine is inside a method. *)
Inductive phase :=
  | PTry (key : string) (existing entry : lockEntry)     (* TryLock: an entry was loaded *)
  | PSwap (key : string) (existing entry : lockEntry)    (* TryLock: it had expired *)
  | PUnlock (key : string) (entry : lockEntry)           (* Unlock: the token matched *)
  | PClean (key : string).                               (* CleanupExpired: the entry had expired *)

Inductive try_result := Acquired (tok : string) | ErrLockConflict | TryGoesOn (p : phase).

(** [TryLock] up to and including [LoadOrStore]. *)
Definition TryLock_start (m : locks) (key : string) (entry : lockEntry) : locks * try_result :=
  let '(m, actual, loaded) := LoadOrStore m key entry in
  (m, if loaded then TryGoesOn (PTry key actual entry) else Acquired (token entry)).

(** The expiry check. *)
Definition TryLock_check (now : Z) (key : string) (existing entry : lockEntry) : try_result :=
  if now <? expiresAt existing then ErrLockConflict else TryGoesOn (PSwap key existing entry).

(** The swap. *)
Definition TryLock_swap (m : locks) (key : string) (existing entry : lockEntry) : locks * try_result :=
  let '(m, ok) := CompareAndSwap m key existing entry in
  (m, if ok then Acquired (token entry) else ErrLockConflict).

Inductive unlock_result := Unlocked | ErrUnlockFailed | UnlockGoesOn (p : phase).

Definition Unlock_start (m : locks) (key tok : string) : unlock_result :=
  match m !! key with
  | None => Unlocked
  | Some entry => if bool_decide (token entry = tok) then UnlockGoesOn (PUnlock key entry) else ErrUnlockFailed
  end.

Definition Unlock_delete (m : locks) (key : string) (entry : lockEntry) : locks * unlock_result :=
  let '(m, ok) := CompareAndDelete m key entry in (m, if ok then Unlocked else ErrUnlockFailed).

(** One visit of [CleanupExpired]'s range: the check, then the delete, which
    does not look at the entry again. *)
Definition Cleanup_check (now : Z) (key : string) (entry : lockEntry) : option phase :=
  if expiresAt entry <=? now then Some (PClean key) else None.

Definition Cleanup_delete (m : locks) (key : string) : locks := delete key m.

(** ** Interleavings

    [held] are the leases granted and not given back; [next] numbers the
    entries, which are allocated when the call starts. *)

Record state := mkState {
  now : Z;
  map : locks;
  running : list phase;
  held : list (string * lockEntry);
  next : nat;
}.

Definition release (key : string) (entry : lockEntry) (h : list (string * lockEntry)) : list (string * lockEntry) :=
  List.filter (fun p => negb (bool_decide (p = (key, entry)))) h.

(** What a result of [TryLock] does to the goroutine and the leases. *)
Definition settle_try (r : try_result) (key : string) (entry : lockEntry)
    (run : list phase) (h : list (string * lockEntry)) : list phase * list (string * lockEntry) :=
  match r with
  | Acquired _ => (run, (key, entry) :: h)
  | ErrLockConflict => (run, h)
  | TryGoesOn p => (p :: run, h)
  end.

Inductive step (cleanup : bool) : state -> state -> Prop :=
  | step_time t t' m run h n :
      t <= t' -> step cleanup (mkState t m run h n) (mkState t' m run h n)
  | step_try t m run h n key tok deadline m' r run' h' :
      TryLock_start m key (mkLockEntry n tok deadline) = (m', r) ->
      settle_try r key (mkLockEntry n tok deadline) run h = (run', h') ->
      step cleanup (mkState t m run h n) (mkState t m' run' h' (S n))
  | step_check t m run1 key ex entry run2 h n run' h' :
      settle_try (TryLock_check t key ex entry) key entry (run1 ++ run2) h = (run', h') ->
      step cleanup (mkState t m (run1 ++ PTry key ex entry :: run2) h n) (mkState t m run' h' n)
  | step_swap t m run1 key ex entry run2 h n m' r run' h' :
      TryLock_swap m key ex entry = (m', r) ->
      settle_try r key entry (run1 ++ run2) h = (run', h') ->
      step cleanup (mkState t m (run1 ++ PSwap key ex entry :: run2) h n) (mkState t m' run' h' n)
  | step_unlock t m run h n key tok :
      step cleanup (mkState t m run h n)
        (mkState t m (match Unlock_start m key tok with UnlockGoesOn p => p :: run | _ => run end) h n)
  | step_delete t m run1 key entry run2 h n m' r :
      Unlock_delete m key entry = (m', r) ->
      step cleanup (mkState t m (run1 ++ PUnlock key entry :: run2) h n)
        (mkState t m' (run1 ++ run2) (match r with Unlocked => release key entry h | _ => h end) n)
  | step_clean_check t m run h n key entry p :
      cleanup = true -> m !! key = Some entry -> Cleanup_check t key entry = Some p ->
      step cleanup (mkState t m run h n) (mkState t m (p :: run) h n)
  | step_clean_delete t m run1 key run2 h n :
      step cleanup (mkState t m (run1 ++ PClean key :: run2) h n)
        (mkState t (Cleanup_delete m key) (run1 ++ run2) h n).

Definition start (t : Z) : state := mkState t ∅ [] [] 0.

(** ** Mutual exclusion without clean-up *)

Record inv (s : state) : Prop := {
  inv_held : forall k e, (k, e) ∈ held s -> now s < expiresAt e -> map s !! k = Some e;
  inv_swap : forall k ex e, PSwap k ex e ∈ running s -> expiresAt ex <= now s;
  inv_clean : forall k, ~ PClean k ∈ running s;
}.

Lemma elem_of_release k e h p : p ∈ release k e h <-> p ∈ h /\ p <> (k, e).
Proof.
  unfold release. rewrite list_elem_of_In, filter_In, <- list_elem_of_In, negb_true_iff, bool_decide_eq_false.
  done.
Qed.

Lemma elem_of_middle {A} (x p : A) l1 l2 : x ∈ l1 ++ l2 -> x ∈ l1 ++ p :: l2.
Proof. rewrite !elem_of_app, elem_of_cons. tauto. Qed.

(** Publishing an entry under a key that no live lease holds. *)
Lemma grant_inv t (m : locks) h k e m' :
  (forall k' e', (k', e') ∈ h -> t < expiresAt e' -> m !! k' = Some e') ->
  (forall e', (k, e') ∈ h -> t < expiresAt e' -> False) ->
  m' = <[k := e]> m ->
  forall k' e', (k', e') ∈ (k, e) :: h -> t < expiresAt e' -> m' !! k' = Some e'.
Proof.
  intros Hh Hfree -> k' e' Hin Ht. apply elem_of_cons in Hin as [[= -> ->]|Hin].
  - apply lookup_insert_eq.
  - destruct (decide (k' = k)) as [->|]; [by destruct (Hfree e' Hin Ht)|].
    rewrite lookup_insert_ne by done. by apply Hh.
Qed.

(** The phases of the goroutines that go on when one has moved. *)
Lemma middle_phases t run1 p run2 :
  (forall k ex e, PSwap k ex e ∈ run1 ++ p :: run2 -> expiresAt ex <= t) ->
  (forall k, ~ PClean k ∈ run1 ++ p :: run2) ->
  (forall k ex e, PSwap k ex e ∈ run1 ++ run2 -> expiresAt ex <= t) /\
  (forall k, ~ PClean k ∈ run1 ++ run2).
Proof.
  intros H1 H2. split; [intros k ex e Hp|intros k Hp]; [eapply H1|eapply H2]; by apply elem_of_middle.
Qed.

Lemma step_inv s s' : step false s s' -> inv s -> inv s'.
Proof.
  intros Hst [Hh Hsw Hcl]. destruct Hst as
    [t t' m run h n Ht|t m run h n key tok dl m' r run' h' Hr Hs|t m run1 key ex entry run2 h n run' h' Hs
    |t m run1 key ex entry run2 h n m' r run' h' Hr Hs|t m run h n key tok|t m run1 key entry run2 h n m' r Hr
    |t m run h n key entry p Hc|t m run1 key run2 h n]; cbn [now map running held next] in *.
  - split; simpl; [|intros k ex e Hp; specialize (Hsw _ _ _ Hp); lia|done].
    intros k e Hin Hlt. apply Hh; [done|lia].
  - unfold TryLock_start, LoadOrStore in Hr. destruct (m !! key) as [e'|] eqn:E; simplify_eq/=.
    + split; simpl; [done| |].
      * intros k ex e [?|Hp]%elem_of_cons; [done|eauto].
      * intros k [?|Hp]%elem_of_cons; [done|by apply (Hcl k)].
    + split; simpl; [|done|done].
      eapply (grant_inv t m h key); [exact Hh| |done].
      intros e' Hin Hlt. specialize (Hh _ _ Hin Hlt). congruence.
  - destruct (middle_phases _ _ _ _ Hsw Hcl) as [Hsw' Hcl'].
    unfold TryLock_check in Hs. destruct (Z.ltb_spec t (expiresAt ex)); simplify_eq/=; split; simpl; auto.
    + intros k ex' e [[= -> -> ->]|Hp]%elem_of_cons; [lia|eauto].
    + intros k [?|Hp]%elem_of_cons; [done|by eapply Hcl'].
  - assert (expiresAt ex <= t) as Hex.
    { eapply Hsw. rewrite elem_of_app, elem_of_cons. auto. }
    destruct (middle_phases _ _ _ _ Hsw Hcl) as [Hsw' Hcl'].
    unfold TryLock_swap, CompareAndSwap, same_entry in Hr.
    destruct (decide (m !! key = Some ex)) as [E|E];
      [rewrite bool_decide_true in Hr by done|rewrite bool_decide_false in Hr by done];
      simplify_eq/=; split; simpl; auto.
    eapply (grant_inv t m h key); [exact Hh| |done].
    intros e' Hin Hlt. specialize (Hh _ _ Hin Hlt). rewrite E in Hh. injection Hh as ->. lia.
  - split; simpl; [done| |].
    + intros k ex e Hp. unfold Unlock_start in Hp. destruct (m !! key); [|eauto].
      destruct (bool_decide _); [|eauto]. apply elem_of_cons in Hp as [?|Hp]; [done|eauto].
    + intros k Hp. unfold Unlock_start in Hp. destruct (m !! key); [|by apply (Hcl k)].
      destruct (bool_decide _); [|by apply (Hcl k)]. apply elem_of_cons in Hp as [?|Hp]; [done|by apply (Hcl k)].
  - destruct (middle_phases _ _ _ _ Hsw Hcl) as [Hsw' Hcl'].
    unfold Unlock_delete, CompareAndDelete, same_entry in Hr.
    destruct (decide (m !! key = Some entry)) as [E|E];
      [rewrite bool_decide_true in Hr by done|rewrite bool_decide_false in Hr by done];
      simplify_eq/=; split; simpl; auto.
    intros k e [Hin Hne]%elem_of_release Hlt. specialize (Hh _ _ Hin Hlt).
    destruct (decide (k = key)) as [->|]; [congruence|]. by rewrite lookup_delete_ne.
  - done.
  - exfalso. eapply Hcl. rewrite elem_of_app, elem_of_cons. auto.
Qed.

(** C36: mutual exclusion. In every interleaving of the atomic steps of any
    number of [TryLock] and [Unlock] calls (with any tokens and time-outs) and
    of the clock, two leases on the same key that were granted, not given
    back and not expired are the same lease. *)
Theorem lock_mutual_exclusion t s k e1 e2 :
  rtc (step false) (start t) s ->
  (k, e1) ∈ held s -> (k, e2) ∈ held s -> now s < expiresAt e1 -> now s < expiresAt e2 -> e1 = e2.
Proof.
  intros Hrun H1 H2 L1 L2.
  assert (inv (start t)) as H0.
  { split; simpl; [|intros k' ex e Hp; by apply elem_of_nil in Hp|intros k' Hp; by apply elem_of_nil in Hp].
    intros k' e Hp. by apply elem_of_nil in Hp. }
  assert (inv s) as [Hh _ _].
  { clear - Hrun H0. induction Hrun; eauto using step_inv. }
  pose proof (Hh _ _ H1 L1). pose proof (Hh _ _ H2 L2). congruence.
Qed.

Lemma lock_mutual_exclusion_witness : mkLockEntry 0 "a" 10 = mkLockEntry 0 "a" 10.
Proof.
  apply (lock_mutual_exclusion 1 (mkState 1 {[ "k" := mkLockEntry 0 "a" 10 ]} [] [("k", mkLockEntry 0 "a" 10)] 1) "k").
  - apply rtc_once. eapply (step_try false 1 ∅ [] [] 0 "k" "a" 10); reflexivity.
  - apply list_elem_of_here.
  - apply list_elem_of_here.
  - vm_compute. reflexivity.
  - vm_compute. reflexivity.
Defined.

(** Clean-up breaks the exclusion. [CleanupExpired] deletes the key it
    found expired without comparing the entry, so a lock taken over between
    the check and the delete is removed, and a third caller acquires a lock
    that is still validly held. *)
Theorem cleanup_breaks_exclusion :
  exists s, rtc (step true) (start 0) s /\
    exists e1 e2, ("k", e1) ∈ held s /\ ("k", e2) ∈ held s /\
      now s < expiresAt e1 /\ now s < expiresAt e2 /\ token e1 <> token e2.
Proof.
  set (a := mkLockEntry 0 "a" 5). set (b := mkLockEntry 1 "b" 100). set (c := mkLockEntry 2 "c" 100).
  set (m1 := <["k" := a]> (∅ : locks)). set (m2 := <["k" := b]> m1).
  exists (mkState 10 (<["k" := c]> (delete "k" m2)) [] [("k", c); ("k", b); ("k", a)] 3). split.
  - eapply rtc_l; [eapply (step_try true 0 ∅ [] [] 0 "k" "a" 5); reflexivity|].
    eapply rtc_l; [apply (step_time true 0 10); lia|].
    eapply rtc_l; [apply (step_clean_check true 10 _ [] _ _ "k" a (PClean "k")); reflexivity|].
    eapply rtc_l; [eapply (step_try true 10 m1 [PClean "k"] [("k", a)] 1 "k" "b" 100); reflexivity|].
    eapply rtc_l; [eapply (step_check true 10 m1 [] "k" a b [PClean "k"] [("k", a)] 2); reflexivity|].
    eapply rtc_l; [eapply (step_swap true 10 m1 [] "k" a b [PClean "k"] [("k", a)] 2); reflexivity|].
    eapply rtc_l; [apply (step_clean_delete true 10 m2 [] "k" [] [("k", b); ("k", a)] 2)|].
    eapply rtc_l; [eapply (step_try true 10 (delete "k" m2) [] [("k", b); ("k", a)] 2 "k" "c" 100); reflexivity|].
    apply rtc_refl.
  - exists c, b. split_and!; [apply list_elem_of_here|apply list_elem_of_further, list_elem_of_here|done|done|done].
Qed.
