(* ===== verification/RedisLock.v ===== *)
(** * The distributed lock (pkg/lock/redis_lock.go, factory.go)

    [RedisLocker] keeps a lock as a Redis key that holds its owner's token and
    expires. Redis is outside the repository: a class has the commands the
    code uses, another their documented effect. The theorems are proved from
    these; a store of values with deadlines is an instance. *)

From S2P Require Import Prelude GoStrings.
#[local] Open Scope Z_scope.

Inductive lock_error := ErrLockTimeout | ErrLockConflict | ErrUnlockFailed | ErrInvalidToken | ErrRedis.

Definition millisecond : Z := 1000000.
Definition DefaultLockTTL : Z := 30000 * millisecond.
Definition DefaultRetryDelay : Z := 20 * millisecond.
Definition DefaultMaxRetry : Z := 50.

(** ** The commands, at the server's time *)

Class RedisCommands (R : Type) := {
  GET : Z -> string -> R -> option string;
  SETNX : Z -> string -> string -> Z -> R -> R * bool;
  DEL : Z -> string -> R -> R;
  PEXPIRE : Z -> string -> Z -> R -> R * bool;
}.

(** What the documentation says of them, for positive times to live in whole
    milliseconds: a key set with a time to live is there until it has passed,
    or is deleted; commands on one key leave the others alone. *)
Class RedisLaws (R : Type) `{!RedisCommands R} : Prop := {
  get_earlier now now' k v (r : R) : now <= now' -> GET now' k r = Some v -> GET now k r = Some v;
  setnx_free now k v ttl (r : R) : GET now k r = None -> 0 < ttl -> ttl mod millisecond = 0 ->
    (SETNX now k v ttl r).2 = true /\
    forall t, now <= t -> GET t k (SETNX now k v ttl r).1 = if t <? now + ttl then Some v else None;
  setnx_taken now k v ttl x (r : R) : GET now k r = Some x -> SETNX now k v ttl r = (r, false);
  setnx_other now t k k' v ttl (r : R) : k <> k' -> now <= t -> GET t k' (SETNX now k v ttl r).1 = GET t k' r;
  del_gone now t k (r : R) : now <= t -> GET t k (DEL now k r) = None;
  del_other now t k k' (r : R) : k <> k' -> now <= t -> GET t k' (DEL now k r) = GET t k' r;
  pexpire_set now k v ttl (r : R) : GET now k r = Some v -> 0 < ttl -> ttl mod millisecond = 0 ->
    (PEXPIRE now k ttl r).2 = true /\
    forall t, now <= t -> GET t k (PEXPIRE now k ttl r).1 = if t <? now + ttl then Some v else None;
  pexpire_other now t k k' ttl (r : R) : k <> k' -> now <= t -> GET t k' (PEXPIRE now k ttl r).1 = GET t k' r;
}.

(** ** The locker *)

Record RedisLocker := mkLocker { retryDelay : Z; maxRetry : Z }.

Definition NewRedisLocker : RedisLocker := mkLocker DefaultRetryDelay DefaultMaxRetry.
Definition WithRetryDelay (d : Z) (l : RedisLocker) : RedisLocker := mkLocker d (maxRetry l).
Definition WithMaxRetry (n : Z) (l : RedisLocker) : RedisLocker := mkLocker (retryDelay l) n.

(** What becomes of a request: it is answered, it does not arrive, or its
    answer does not. *)
Inductive delivery := Answered | Lost | AnswerLost.

Section locker.
Context {R} `{!RedisCommands R}.

Definition request {A B} (net : delivery) (cmd : R -> R * A) (reply : A -> result lock_error B) (r : R)
    : result lock_error B * R :=
  match net with
  | Answered => let '(r', a) := cmd r in (reply a, r')
  | Lost => (Err ErrRedis, r)
  | AnswerLost => (Err ErrRedis, (cmd r).1)
  end.

Definition TryLock (net : delivery) (now : Z) (token key : string) (ttl : Z) (r : R) : result lock_error string * R :=
  request net (SETNX now key token ttl) (fun ok => if ok then Ok token else Err ErrLockConflict) r.

(** The script of [Unlock], run by the server in one piece. *)
Definition unlockScript (now : Z) (key token : string) (r : R) : R * Z :=
  if bool_decide (GET now key r = Some token) then (DEL now key r, 1) else (r, 0).

Definition Unlock (net : delivery) (now : Z) (key token : string) (r : R) : result lock_error unit * R :=
  if bool_decide (token = "") then (Err ErrInvalidToken, r) else
  request net (unlockScript now key token) (fun n => if n =? 0 then Err ErrUnlockFailed else Ok tt) r.

(** [ttl.Milliseconds()] rounds toward zero. *)
Definition whole_ms (ttl : Z) : Z := Z.quot ttl millisecond * millisecond.

Definition extendScript (now : Z) (key token : string) (ttl : Z) (r : R) : R * Z :=
  if bool_decide (GET now key r = Some token) then
    let '(r, ok) := PEXPIRE now key (whole_ms ttl) r in (r, if ok then 1 else 0)
  else (r, 0).

Definition Extend (net : delivery) (now : Z) (key token : string) (ttl : Z) (r : R) : result lock_error unit * R :=
  if bool_decide (token = "") then (Err ErrInvalidToken, r) else
  request net (extendScript now key token ttl) (fun n => if n =? 0 then Err ErrUnlockFailed else Ok tt) r.

Definition IsLocked (net : delivery) (now : Z) (key : string) (r : R) : result lock_error bool :=
  (request net (fun r => (r, GET now key r)) (fun v => Ok (match v with Some _ => true | None => false end)) r).1.

(** What surrounds one attempt of [Lock]: the context before it, what others
    did to the store meanwhile, the time, the token drawn, and the context
    after an error and during the wait. *)
Record attempt := mkAttempt {
  done_before : bool;
  others : R -> R;
  at_ : Z;
  net : delivery;
  drawn : string;
  done_after : bool;
  done_waiting : bool;
}.

Fixpoint lock_loop (n : nat) (i : nat) (env : nat -> attempt) (key : string) (ttl : Z) (r : R)
    : result lock_error string * R :=
  match n with
  | O => (Err ErrLockTimeout, r)
  | S n =>
      let a := env i in
      if done_before a then (Err ErrLockTimeout, r) else
      match TryLock (net a) (at_ a) (drawn a) key ttl (others a r) with
      | (Ok token, r) => (Ok token, r)
      | (Err ErrLockConflict, r) =>
          if done_waiting a then (Err ErrLockTimeout, r) else lock_loop n (S i) env key ttl r
      | (Err e, r) => (Err (if done_after a then ErrLockTimeout else e), r)
      end
  end.

Definition Lock (l : RedisLocker) (env : nat -> attempt) (key : string) (ttl : Z) (r : R) : result lock_error string * R :=
  lock_loop (Z.to_nat (maxRetry l)) 0 env key ttl r.
End locker.

Arguments attempt R : clear implicits.

(** ** The factory *)

Inductive RunMode := ModeStandalone | ModeDistributed | OtherMode.
Record Config := mkConfig { RunMode_ : RunMode; RetryDelay : Z; MaxRetry : Z }.
Definition DefaultConfig : Config := mkConfig ModeStandalone DefaultRetryDelay DefaultMaxRetry.

Inductive Locker := Optimistic | Distributed (l : RedisLocker).

Definition NewLocker (cfg : option Config) (client : bool) : Locker :=
  let cfg := match cfg with Some c => c | None => DefaultConfig end in
  match RunMode_ cfg with
  | ModeDistributed =>
      if client then Distributed (WithMaxRetry (MaxRetry cfg) (WithRetryDelay (RetryDelay cfg) NewRedisLocker))
      else Optimistic
  | _ => Optimistic
  end.

Definition NewLockerFromRedisMode (mode : string) (client : bool) : Locker :=
  if (bool_decide (mode = "sentinel") || bool_decide (mode = "cluster")) && client
  then Distributed NewRedisLocker else Optimistic.

Definition NewDistributedLocker (client : bool) (opts : list (RedisLocker -> RedisLocker)) : Locker :=
  if client then Distributed (foldl (fun l o => o l) NewRedisLocker opts) else Optimistic.

(** ** Leases

    What callers hold: the key, the token and until when. Calling [Unlock]
    gives a lease up, whatever the answer. *)

Record lease := mkLease { l_key : string; l_token : string; l_until : Z }.

Section exclusion.
Context {R} `{!RedisCommands R, !RedisLaws R}.

Record state := mkState { now : Z; server : R; leases : list lease; drawn_tokens : list string }.

Definition gives_up (key token : string) (l : lease) : bool :=
  bool_decide (l_key l = key) && bool_decide (l_token l = token).

(** The lease after [Extend]: the new time if the answer says so; otherwise
    the holder counts on the earlier of the two. *)
Definition extended (key token : string) (until : Z) (ok : bool) (l : lease) : lease :=
  if gives_up key token l then mkLease key token (if ok then until else Z.min (l_until l) until) else l.

Definition valid_ttl (ttl : Z) : Prop := 0 < ttl /\ ttl mod millisecond = 0.

Inductive step : state -> state -> Prop :=
  | step_time t t' r ls used : t <= t' -> step (mkState t r ls used) (mkState t' r ls used)
  | step_try t r ls used n token key ttl res r' :
      ~ (token ∈ used) -> valid_ttl ttl -> TryLock n t token key ttl r = (res, r') ->
      step (mkState t r ls used)
           (mkState t r' (if is_ok res then mkLease key token (t + ttl) :: ls else ls) (token :: used))
  | step_unlock t r ls used n key token res r' :
      Unlock n t key token r = (res, r') ->
      step (mkState t r ls used) (mkState t r' (List.filter (fun l => negb (gives_up key token l)) ls) used)
  | step_extend t r ls used n key token ttl res r' :
      valid_ttl (whole_ms ttl) -> Extend n t key token ttl r = (res, r') ->
      step (mkState t r ls used)
           (mkState t r' (extended key token (t + whole_ms ttl) (is_ok res) <$> ls) used).

Definition initial (s : state) : Prop := leases s = [] /\ drawn_tokens s = [].

(** A lease that runs is backed by the key until it ends. *)
Definition backed (t : Z) (r : R) (l : lease) : Prop :=
  forall t', t <= t' -> t' < l_until l -> GET t' (l_key l) r = Some (l_token l).

Record inv (s : state) : Prop := {
  inv_backed : Forall (backed (now s) (server s)) (leases s);
  inv_tokens : NoDup (l_token <$> leases s);
  inv_drawn : Forall (fun l => l_token l ∈ drawn_tokens s) (leases s);
}.

Lemma backed_get t r l : backed t r l -> t < l_until l -> GET t (l_key l) r = Some (l_token l).
Proof. intros H Hl. apply H; lia. Qed.

(** A key that is free or foreign at some time backs no lease after it. *)
Lemma backed_vacuous t (r : R) l : (t < l_until l -> False) -> backed t r l.
Proof. intros H t' Ht Hl. destruct H. lia. Qed.

Lemma backed_setnx t r l key token ttl :
  valid_ttl ttl -> backed t r l -> backed t (SETNX t key token ttl r).1 l.
Proof using RedisLaws0.
  intros [Hp Hm] Hb. destruct (GET t key r) as [x|] eqn:E; [by rewrite (setnx_taken _ _ _ _ x)|].
  destruct (decide (l_key l = key)) as [Ek|Hk].
  - apply backed_vacuous. intros Hl. rewrite <- Ek in E. rewrite (backed_get _ _ _ Hb Hl) in E. done.
  - intros t' Ht Hl. rewrite setnx_other by done. by apply Hb.
Qed.

Lemma setnx_lease t r key token ttl :
  valid_ttl ttl -> (SETNX t key token ttl r).2 = true -> backed t (SETNX t key token ttl r).1 (mkLease key token (t + ttl)).
Proof using RedisLaws0.
  intros [Hp Hm] Hok. destruct (GET t key r) as [x|] eqn:E; [by rewrite (setnx_taken _ _ _ _ x) in Hok|].
  destruct (setnx_free t key token ttl r E Hp Hm) as [_ H]. intros t' Ht Hl. cbn in *. rewrite H by done.
  by rewrite (proj2 (Z.ltb_lt _ _)).
Qed.

Lemma backed_unlock t r l key token :
  gives_up key token l = false -> backed t r l -> backed t (unlockScript t key token r).1 l.
Proof using RedisLaws0.
  intros Hg Hb. unfold unlockScript. case_bool_decide as E; [|done]. cbn.
  destruct (decide (l_key l = key)) as [Ek|Hk].
  - apply backed_vacuous. intros Hl. rewrite <- Ek in E. rewrite (backed_get _ _ _ Hb Hl) in E. injection E as E.
    unfold gives_up in Hg. by rewrite !bool_decide_true in Hg.
  - intros t' Ht Hl. rewrite del_other by done. by apply Hb.
Qed.

Lemma backed_extend t r l key token ttl :
  valid_ttl (whole_ms ttl) -> backed t r l ->
  backed t (extendScript t key token ttl r).1 (extended key token (t + whole_ms ttl) false l) /\
  ((extendScript t key token ttl r).2 <> 0 ->
   backed t (extendScript t key token ttl r).1 (extended key token (t + whole_ms ttl) true l)).
Proof using RedisLaws0.
  intros [Hp Hm] Hb. unfold extendScript. case_bool_decide as E.
  - destruct (pexpire_set t key token (whole_ms ttl) r E Hp Hm) as [_ Hx].
    destruct (PEXPIRE t key (whole_ms ttl) r) as [r' ok] eqn:EP. cbn [fst] in *.
    assert (forall t', t <= t' -> l_key l <> key -> GET t' (l_key l) r' = GET t' (l_key l) r) as Ho.
    { intros t' Ht Hk. pose proof (pexpire_other t t' key (l_key l) (whole_ms ttl) r) as H. rewrite EP in H. by apply H. }
    unfold extended. destruct (gives_up key token l) eqn:Eg.
    + split; [|intros _]; intros t' Ht Hl; cbn in *; rewrite Hx by done; rewrite (proj2 (Z.ltb_lt _ _)); (done || lia).
    + assert (backed t r' l); [|done]. destruct (decide (l_key l = key)) as [Ek|Hk].
      * apply backed_vacuous. intros Hl. rewrite <- Ek in E. rewrite (backed_get _ _ _ Hb Hl) in E. injection E as E.
        unfold gives_up in Eg. by rewrite !bool_decide_true in Eg.
      * intros t' Ht Hl. rewrite Ho by done. by apply Hb.
  - split; [|done]. cbn. unfold extended. destruct (gives_up key token l) eqn:Eg; [|done].
    unfold gives_up in Eg. b2p. intros t' Ht Hl. cbn in *.
    match goal with H : l_key l = key, H' : l_token l = token |- _ => rewrite <- H, <- H' end. apply Hb; lia.
Qed.

Lemma lease_step_inv s s' : step s s' -> inv s -> inv s'.
Proof using RedisLaws0.
  intros Hs [Hb Ht Hd].
  destruct Hs as [t t' r ls used Hle|t r ls used n token key ttl res r' Hf Hv HT
                 |t r ls used n key token res r' HU|t r ls used n key token ttl res r' Hv HE]; cbn in *.
  - split; cbn; [|done..]. eapply Forall_impl; [exact Hb|]. intros l H t'' ? ?. apply H; lia.
  - assert (Forall (backed t r') ls /\ (is_ok res = true -> backed t r' (mkLease key token (t + ttl)))) as [Hb' Hn].
    { unfold TryLock, request in HT. destruct n; [destruct (SETNX t key token ttl r) as [r1 ok] eqn:ES| |]; simplify_eq.
      - split; [eapply Forall_impl; [exact Hb|]; intros l Hl; pose proof (backed_setnx t r l key token ttl Hv Hl) as H
               |intros Hok; pose proof (setnx_lease t r key token ttl Hv) as H]; rewrite ES in H; [done|].
        destruct ok; [by apply H|done].
      - done.
      - split; [|done]. eapply Forall_impl; [exact Hb|]. intros l Hl. by apply backed_setnx. }
    destruct (is_ok res); split; cbn; auto.
    + constructor; [|done]. rewrite list_elem_of_fmap. intros (l & -> & Hin). rewrite Forall_forall in Hd.
      by apply Hf, Hd.
    + constructor; cbn; [by left|]. eapply Forall_impl; [exact Hd|]. intros l Hl. by right.
    + eapply Forall_impl; [exact Hd|]. intros l Hl. by right.
  - assert (forall l, gives_up key token l = false -> backed t r l -> backed t r' l) as Hk.
    { intros l Hg Hl. unfold Unlock, request in HU. case_bool_decide; [by simplify_eq|].
      pose proof (backed_unlock t r l key token Hg Hl).
      destruct n; [destruct (unlockScript t key token r)| |]; by simplify_eq/=. }
    assert (forall P : lease -> Prop, Forall P ls -> Forall P (List.filter (fun l => negb (gives_up key token l)) ls)) as Hfl.
    { intros P. rewrite !Forall_forall. intros H l [Hin _]%list_elem_of_In%filter_In. by apply H, list_elem_of_In. }
    split; cbn; [|clear -Ht|by apply Hfl].
    + apply Forall_forall. intros l [Hin Hg]%list_elem_of_In%filter_In. b2p. apply Hk; [done|].
      rewrite Forall_forall in Hb. by apply Hb, list_elem_of_In.
    + induction ls as [|l ls IH]; cbn; [done|]. apply NoDup_cons in Ht as [Hl Ht]. destruct (negb _); [|by apply IH].
      cbn. constructor; [|by apply IH]. rewrite list_elem_of_fmap. intros (l' & E & [Hin _]%list_elem_of_In%filter_In).
      apply Hl. rewrite E. apply list_elem_of_fmap_2. by apply list_elem_of_In.
  - assert (forall l, backed t r l -> backed t r' (extended key token (t + whole_ms ttl) (is_ok res) l)) as Hk.
    { intros l Hl. destruct (backed_extend t r l key token ttl Hv Hl) as [H1 H2]. unfold Extend, request in HE.
      assert (backed t r (extended key token (t + whole_ms ttl) false l)) as H0.
      { unfold extended, gives_up. destruct (bool_decide (l_key l = key) && bool_decide (l_token l = token)) eqn:Eg; [|done].
        b2p. subst. intros t' ? ?. cbn in *. apply Hl; lia. }
      case_bool_decide; [by simplify_eq|].
      destruct n; [destruct (extendScript t key token ttl r) as [r1 k]; cbn [fst snd] in *| |]; simplify_eq; [|done..].
      destruct (Z.eqb_spec k 0) as [->|Hk]; [done|by apply H2]. }
    assert (forall l, l_token (extended key token (t + whole_ms ttl) (is_ok res) l) = l_token l) as Htok.
    { intros l. unfold extended. destruct (gives_up key token l) eqn:Eg; [|done]. unfold gives_up in Eg. by b2p. }
    split; cbn.
    + apply Forall_fmap. eapply Forall_impl; [exact Hb|]. done.
    + rewrite <- list_fmap_compose. erewrite list_fmap_ext; [exact Ht|]. intros i l _. apply Htok.
    + apply Forall_fmap. eapply Forall_impl; [exact Hd|]. intros l. cbn. by rewrite Htok.
Qed.

(** C35: whatever the callers do, with ttls of a positive number of whole
    milliseconds, and whichever requests or answers get lost, two leases of
    a key that run at the same time by the clock of the server are one: its
    token is backed by the key, and nobody else's [Unlock] or [Extend]
    touches it. *)
Theorem redis_lock_exclusion s0 s l1 l2 :
  initial s0 -> rtc step s0 s -> l1 ∈ leases s -> l2 ∈ leases s -> l_key l1 = l_key l2 ->
  now s < l_until l1 -> now s < l_until l2 ->
  l1 = l2 /\ GET (now s) (l_key l1) (server s) = Some (l_token l1).
Proof using RedisLaws0.
  intros [H1 H2] Hr Hl1 Hl2 Hk Hu1 Hu2.
  assert (inv s) as [Hb Ht _].
  { assert (inv s0) as Hi by (split; rewrite H1; constructor). clear -Hr Hi RedisLaws0.
    induction Hr; eauto using lease_step_inv. }
  rewrite Forall_forall in Hb. pose proof (backed_get _ _ _ (Hb _ Hl1) Hu1) as G1.
  pose proof (backed_get _ _ _ (Hb _ Hl2) Hu2) as G2. split; [|done]. rewrite Hk, G2 in G1. injection G1 as E.
  apply list_elem_of_lookup in Hl1 as [i Hi]. apply list_elem_of_lookup in Hl2 as [j Hj].
  assert (i = j) as ->; [|congruence].
  apply (NoDup_lookup (l_token <$> leases s) i j (l_token l1)); [done|..]; rewrite list_lookup_fmap, ?Hi, ?Hj; cbn; by rewrite ?E.
Qed.
End exclusion.

(** ** A Redis of values with deadlines *)

Module SimpleRedis.

Abbreviation R := (gmap string (string * Z)).

Definition get (now : Z) (k : string) (r : R) : option string :=
  match r !! k with Some (v, d) => if now <? d then Some v else None | None => None end.

#[export] Instance commands : RedisCommands R := {
  GET := get;
  SETNX now k v ttl r := match get now k r with Some _ => (r, false) | None => (<[k := (v, now + ttl)]> r, true) end;
  DEL _ k r := delete k r;
  PEXPIRE now k ttl r := match get now k r with Some v => (<[k := (v, now + ttl)]> r, true) | None => (r, false) end;
}.

#[export] Instance laws : RedisLaws R.
Proof.
  split; cbn [GET SETNX DEL PEXPIRE commands]; unfold get.
  - intros now now' k v r Hle. destruct (r !! k) as [[x d]|]; [|done]. destruct (now' <? d) eqn:E; [|done]. b2p.
    by rewrite (proj2 (Z.ltb_lt _ _)) by lia.
  - intros now k v ttl r -> _ _. split; [done|]. intros t _. cbn [fst]. by rewrite lookup_insert_eq.
  - by intros now k v ttl x r ->.
  - intros now t k k' v ttl r Hk _. destruct (match r !! k with Some _ => _ | None => _ end); [done|]. cbn [fst].
    by rewrite lookup_insert_ne.
  - intros now t k r _. by rewrite lookup_delete_eq.
  - intros now t k k' r Hk _. by rewrite lookup_delete_ne.
  - intros now k v ttl r -> _ _. split; [done|]. intros t _. cbn [fst]. by rewrite lookup_insert_eq.
  - intros now t k k' ttl r Hk _. destruct (match r !! k with Some _ => _ | None => _ end); [|done]. cbn [fst].
    by rewrite lookup_insert_ne.
Qed.

Definition s0 : state := mkState 0 (∅ : R) [] [].
Definition s1 : state := mkState 0 (<["k" := ("t1", DefaultLockTTL)]> (∅ : R)) [mkLease "k" "t1" DefaultLockTTL] ["t1"].

Lemma redis_lock_exclusion_witness :
  GET (now s1) "k" (server s1) = Some "t1".
Proof.
  apply (redis_lock_exclusion s0 s1 (mkLease "k" "t1" DefaultLockTTL) (mkLease "k" "t1" DefaultLockTTL));
    [split; reflexivity| |by left|by left|reflexivity|vm_compute; reflexivity|vm_compute; reflexivity].
  apply rtc_once. apply (step_try 0 (∅ : R) [] [] Answered "t1" "k" DefaultLockTTL (Ok "t1")).
  - intros H. by apply elem_of_nil in H.
  - split; vm_compute; reflexivity.
  - vm_compute. reflexivity.
Defined.
End SimpleRedis.

(** ** Waiting for the lock *)

(** [Lock] grants a token only if the key was free, and then the key holds it;
    otherwise it gives up after [maxRetry] attempts, at once if there are
    none, as for a configuration that leaves the number at zero. *)
Lemma lock_grants {R} `{!RedisCommands R, !RedisLaws R} l env key ttl (r : R) token r' :
  valid_ttl ttl -> Lock l env key ttl r = (Ok token, r') ->
  exists i, (i < Z.to_nat (maxRetry l))%nat /\ drawn (env i) = token /\ GET (at_ (env i)) key r' = Some token.
Proof.
  intros [Hp Hm]. unfold Lock.
  enough (forall n i r, lock_loop n i env key ttl r = (Ok token, r') ->
    exists j, (i <= j < i + n)%nat /\ drawn (env j) = token /\ GET (at_ (env j)) key r' = Some token) as H.
  { intros HL. destruct (H _ _ _ HL) as (j & Hj & ? & ?). exists j. split; [lia|done]. }
  induction n as [|n IH]; intros i r0; cbn [lock_loop]; [done|]. destruct (done_before (env i)); [done|].
  unfold TryLock, request. destruct (net (env i)); [|by destruct (done_after (env i))..].
  destruct (SETNX _ _ _ _ _) as [r1 ok] eqn:ES. destruct ok.
  - intros [= <- <-]. exists i. split_and!; [lia|lia|done|].
    destruct (GET (at_ (env i)) key (others (env i) r0)) as [x|] eqn:EG; [by rewrite (setnx_taken _ _ _ _ x) in ES|].
    destruct (setnx_free (at_ (env i)) key (drawn (env i)) ttl _ EG Hp Hm) as [_ H]. rewrite ES in H. cbn in H.
    rewrite H by lia. by rewrite (proj2 (Z.ltb_lt _ _)) by lia.
  - destruct (done_waiting (env i)); [done|]. intros (j & Hj & ? & ?)%IH. exists j. split; [lia|done].
Qed.

Lemma zero_config_never_locks {R} `{!RedisCommands R} env key ttl (r : R) l :
  NewLocker (Some (mkConfig ModeDistributed 0 0)) true = Distributed l -> Lock l env key ttl r = (Err ErrLockTimeout, r).
Proof. by intros [= <-]. Qed.
