(* ===== verification/Discovery.v ===== *)
(** * Service discovery (internal/discovery/service_registry.go)

    Every node registers itself in a Redis hash and keeps a health key alive
    with heartbeats; from both every node learns which nodes there are. A node's
    own list of them gives each a state, which time and the operators change. *)

From S2P Require Import Prelude GoStrings GoTime GoFloat GoHeap GoOrder FieldMapping ConsistentHash RedisLock.
From Stdlib Require Import Ascii.
#[local] Open Scope Z_scope.

Definition ServiceRegistryKey : string := "nodes:services".
Definition NodeHealthKey (id : string) : string := "nodes:health:" +:+ id.
Definition NodeMetricsKey (id : string) : string := "nodes:metrics:" +:+ id.
Definition NodeEventsKey (id : string) : string := "nodes:events:" +:+ id.
Definition NodeMetricsTTL : Z := 120 * second.
Definition NodeEventsMaxCount : Z := 100.
Definition SuspiciousThreshold : Z := 30 * second.
Definition OfflineThreshold : Z := 60 * second.
Definition DefaultNodeTTL : Z := 60 * second.
Definition DefaultReplicas : Z := 150.

Inductive NodeState := StateUnknown | StateOnline | StateSuspicious | StateOffline | StateDecommissioning | StateTombstone.

#[export] Instance NodeState_eq_dec : EqDecision NodeState.
Proof. solve_decision. Defined.

Definition state_name (s : NodeState) : string :=
  match s with
  | StateUnknown => "unknown" | StateOnline => "online" | StateSuspicious => "suspicious"
  | StateOffline => "offline" | StateDecommissioning => "decommissioning" | StateTombstone => "tombstone"
  end.

Record NodeMetrics := mkNodeMetrics {
  CPUPercent : spec_float; MemoryUsedMB : spec_float; Goroutines : Z; ActiveQueries : Z;
  QPS : spec_float; AvgQueryTimeMs : spec_float; PendingWrites : Z; MinIOPoolUsage : spec_float; UpdatedAt : Z;
}.

Record NodeEvent := mkNodeEvent {
  ev_time : Z; ev_node : string; ev_event : string; ev_message : string; ev_prev : NodeState; ev_new : NodeState;
}.

Record NodeInfo := mkNodeInfo { ID : string; Address : string; Port : string; State : NodeState; LastSeen : Z }.

Record ServiceInfo := mkServiceInfo {
  svc_NodeID : string;
  svc_Address : string;
  svc_Port : string;
  svc_State : NodeState;
  svc_Status : string;
  svc_StartTime : Z;
  svc_LastSeen : Z;
  svc_Labels : option (gmap string string);      (* None: nil *)
  svc_Metadata : gmap string string;
  svc_Metrics : option NodeMetrics;
}.

(** [redisPool]: [None] is nil, [Some b] a pool whose client is there or not. *)
Record ServiceRegistry := mkServiceRegistry {
  nodeID : string;
  grpcPort : string;
  redisPool : option bool;
  services : gmap string ServiceInfo;
  isRunning : bool;
  redisEnabled : bool;
  hashRing : ConsistentHash.ConsistentHash;
  nodeInfo : NodeInfo;
}.

(** Updates of single fields. *)
Definition with_services (m : gmap string ServiceInfo) (sr : ServiceRegistry) : ServiceRegistry :=
  mkServiceRegistry (nodeID sr) (grpcPort sr) (redisPool sr) m (isRunning sr) (redisEnabled sr) (hashRing sr) (nodeInfo sr).
Definition with_running (b : bool) (sr : ServiceRegistry) : ServiceRegistry :=
  mkServiceRegistry (nodeID sr) (grpcPort sr) (redisPool sr) (services sr) b (redisEnabled sr) (hashRing sr) (nodeInfo sr).
Definition with_pool (p : option bool) (enabled : bool) (sr : ServiceRegistry) : ServiceRegistry :=
  mkServiceRegistry (nodeID sr) (grpcPort sr) p (services sr) (isRunning sr) enabled (hashRing sr) (nodeInfo sr).
Definition with_state (s : NodeState) (v : ServiceInfo) : ServiceInfo :=
  mkServiceInfo (svc_NodeID v) (svc_Address v) (svc_Port v) s (svc_Status v) (svc_StartTime v) (svc_LastSeen v)
    (svc_Labels v) (svc_Metadata v) (svc_Metrics v).
Definition with_status (s : string) (v : ServiceInfo) : ServiceInfo :=
  mkServiceInfo (svc_NodeID v) (svc_Address v) (svc_Port v) (svc_State v) s (svc_StartTime v) (svc_LastSeen v)
    (svc_Labels v) (svc_Metadata v) (svc_Metrics v).
Definition with_seen (t : Z) (v : ServiceInfo) : ServiceInfo :=
  mkServiceInfo (svc_NodeID v) (svc_Address v) (svc_Port v) (svc_State v) (svc_Status v) (svc_StartTime v) t
    (svc_Labels v) (svc_Metadata v) (svc_Metrics v).

Inductive reg_error :=
| AlreadyRunning | RedisNotEnabled | ClientNotAvailable | NoLocalIP | MarshalFailed | RedisFailed
| NodeNotFound | WrongState (s : NodeState).

(** ** Redis *)

(** The commands on hashes, on keys that expire and on lists. *)
Class RegistryCommands (R : Type) := {
  HGETALL : string -> R -> gmap string string;
  HSET : string -> string -> string -> R -> R;
  HDEL : string -> string -> R -> R;
  GET : Z -> string -> R -> option string;
  SET : Z -> string -> string -> Z -> R -> R;
  EXPIRE : Z -> string -> Z -> R -> R;
  DEL : Z -> string -> R -> R;
  LRANGE : string -> Z -> Z -> R -> list string;
  LPUSH : string -> string -> R -> R;
  LTRIM : string -> Z -> Z -> R -> R;
}.

(** What the documentation says of them, for keys that keep to one kind of
    value: a key that is set is there for its time to live, which EXPIRE
    renews only if the key is still there; no command touches another key. *)
Class RegistryLaws (R : Type) `{!RegistryCommands R} : Prop := {
  hset_all h f v (r : R) : HGETALL h (HSET h f v r) = <[f := v]> (HGETALL h r);
  hset_get t k h f v (r : R) : k <> h -> GET t k (HSET h f v r) = GET t k r;
  hdel_all h f (r : R) : HGETALL h (HDEL h f r) = delete f (HGETALL h r);
  hdel_get t k h f (r : R) : k <> h -> GET t k (HDEL h f r) = GET t k r;
  get_later now now' k (r : R) : now <= now' -> GET now k r = None -> GET now' k r = None;
  set_get now t k v ttl (r : R) : now <= t -> 0 < ttl -> GET t k (SET now k v ttl r) = if t <? now + ttl then Some v else None;
  set_other now t k k' v ttl (r : R) : k <> k' -> now <= t -> GET t k' (SET now k v ttl r) = GET t k' r;
  set_all now h k v ttl (r : R) : h <> k -> HGETALL h (SET now k v ttl r) = HGETALL h r;
  expire_there now t k v ttl (r : R) : GET now k r = Some v -> now <= t -> 0 < ttl ->
    GET t k (EXPIRE now k ttl r) = if t <? now + ttl then Some v else None;
  expire_gone now k ttl (r : R) : GET now k r = None -> EXPIRE now k ttl r = r;
  expire_other now t k k' ttl (r : R) : k <> k' -> now <= t -> GET t k' (EXPIRE now k ttl r) = GET t k' r;
  expire_all now h k ttl (r : R) : h <> k -> HGETALL h (EXPIRE now k ttl r) = HGETALL h r;
  del_get now t k (r : R) : now <= t -> GET t k (DEL now k r) = None;
  del_other now t k k' (r : R) : k <> k' -> now <= t -> GET t k' (DEL now k r) = GET t k' r;
  del_all now h k (r : R) : h <> k -> HGETALL h (DEL now k r) = HGETALL h r;
  lpush_range k x (r : R) : LRANGE k 0 (-1) (LPUSH k x r) = x :: LRANGE k 0 (-1) r;
  lpush_get t k k' x (r : R) : k <> k' -> GET t k' (LPUSH k x r) = GET t k' r;
  lpush_all h k x (r : R) : h <> k -> HGETALL h (LPUSH k x r) = HGETALL h r;
  ltrim_range k n (r : R) : 0 <= n -> LRANGE k 0 (-1) (LTRIM k 0 n r) = take (Z.to_nat (n + 1)) (LRANGE k 0 (-1) r);
  ltrim_get t k k' i j (r : R) : k <> k' -> GET t k' (LTRIM k i j r) = GET t k' r;
  ltrim_all h k i j (r : R) : h <> k -> HGETALL h (LTRIM k i j r) = HGETALL h r;
  lrange_first k n (r : R) : 0 <= n -> LRANGE k 0 n r = take (Z.to_nat (n + 1)) (LRANGE k 0 (-1) r);
}.

(** The commands the registry sends, to say what becomes of each. *)
Inductive command := HSetNode | SetHealth | HGetAllNodes | GetHealth (id : string) | HDelNode (id : string)
| ExpireHealth | SetMetrics | DelHealth | DelMetrics | LPushEvent | LTrimEvent.

(** [encoding/json] on what the registry stores: a service is read back, but
    labels that are empty are omitted. *)
Definition stored (v : ServiceInfo) : ServiceInfo :=
  mkServiceInfo (svc_NodeID v) (svc_Address v) (svc_Port v) (svc_State v) (svc_Status v) (svc_StartTime v) (svc_LastSeen v)
    (match svc_Labels v with Some l => if bool_decide (l = ∅) then None else Some l | None => None end)
    (svc_Metadata v) (svc_Metrics v).
Class RegistryJson (marshal : ServiceInfo -> string) (unmarshal : string -> option ServiceInfo) : Prop :=
  unmarshal_service v : svc_Metrics v = None -> unmarshal (marshal v) = Some (stored v).

Section registry.
Context {R} `{!RegistryCommands R}.
Context (marshal : ServiceInfo -> string) (unmarshal : string -> option ServiceInfo).
Context (marshal_event : NodeEvent -> string) (unmarshal_event : string -> option NodeEvent).
Context (marshal_metrics : NodeMetrics -> string) (unmarshal_metrics : string -> option NodeMetrics).
Context (range : forall A, gmap string A -> list (string * A)).
(** What becomes of each command. *)
Context (net : command -> delivery).

(** A command that changes Redis, and whether the client sees an error. *)
Definition send (c : command) (f : R -> R) (r : R) : R := match net c with Lost => r | _ => f r end.
Definition fails (c : command) : bool := match net c with Answered => false | _ => true end.

(** The client, if Redis is enabled and there is one. *)
Definition client (sr : ServiceRegistry) : bool :=
  redisEnabled sr && match redisPool sr with Some c => c | None => false end.

Definition NewServiceRegistry (enabled : bool) (id port : string) (now : Z) : ServiceRegistry :=
  mkServiceRegistry id port (if enabled then Some true else None) ∅ false enabled (ConsistentHash.New DefaultReplicas)
    (mkNodeInfo id "localhost" port StateOnline now).

Definition registerService (localIP : option string) (now : Z) (sr : ServiceRegistry) (r : R) : result reg_error unit * R :=
  if negb (redisEnabled sr) then (Err RedisNotEnabled, r) else
  match redisPool sr with
  | None => (Err RedisNotEnabled, r)
  | Some false => (Err ClientNotAvailable, r)
  | Some true =>
      match localIP with
      | None => (Err NoLocalIP, r)
      | Some address =>
          let serviceInfo := mkServiceInfo (nodeID sr) address (grpcPort sr) StateOnline (state_name StateOnline) now now
            (Some ∅) {["mode" := "multi-node"; "redis_enabled" := "true"]} None in
          let r := send HSetNode (HSET ServiceRegistryKey (nodeID sr) (marshal serviceInfo)) r in
          if fails HSetNode then (Err RedisFailed, r) else
          let r := send SetHealth (SET now (NodeHealthKey (nodeID sr)) "healthy" DefaultNodeTTL) r in
          if fails SetHealth then (Err RedisFailed, r) else (Ok tt, r)
      end
  end.

Definition Start (localIP : option string) (now : Z) (sr : ServiceRegistry) (r : R) : result reg_error unit * ServiceRegistry * R :=
  if isRunning sr then (Err AlreadyRunning, sr, r) else
  if negb (redisEnabled sr) then (Ok tt, with_running true sr, r) else
  match registerService localIP now sr r with
  | (Err e, r) => (Err e, sr, r)
  | (Ok _, r) => (Ok tt, with_running true sr, r)
  end.

Definition unregisterService (now : Z) (sr : ServiceRegistry) (r : R) : R :=
  if client sr then
    send DelHealth (DEL now (NodeHealthKey (nodeID sr)))
      (send (HDelNode (nodeID sr)) (HDEL ServiceRegistryKey (nodeID sr)) r)
  else r.

(** The pool is closed; its client is gone. *)
Definition Stop (now : Z) (sr : ServiceRegistry) (r : R) : ServiceRegistry * R :=
  if negb (isRunning sr) then (sr, r) else
  let sr := with_running false sr in
  if redisEnabled sr && bool_decide (is_Some (redisPool sr))
  then (with_pool (Some false) (redisEnabled sr) sr, unregisterService now sr r) else (sr, r).

(** One registered service: read, and removed if its health key is gone. *)
Definition discover_one (now : Z) (acc : list ServiceInfo * R) (entry : string * string) : list ServiceInfo * R :=
  let '(healthyServices, r) := acc in
  let '(serviceID, serviceData) := entry in
  match unmarshal serviceData with
  | None => acc
  | Some service =>
      if fails (GetHealth serviceID) then acc else
      match GET now (NodeHealthKey serviceID) r with
      | None => (healthyServices, send (HDelNode serviceID) (HDEL ServiceRegistryKey serviceID) r)
      | Some _ => (healthyServices ++ [service], r)
      end
  end.

Definition discoverFromRedis (now : Z) (sr : ServiceRegistry) (r : R) : result reg_error (list ServiceInfo) * R :=
  if negb (redisEnabled sr) then (Err RedisNotEnabled, r) else
  match redisPool sr with
  | None => (Err RedisNotEnabled, r)
  | Some false => (Err ClientNotAvailable, r)
  | Some true =>
      if fails HGetAllNodes then (Err RedisFailed, r) else
      let '(healthyServices, r) := foldl (discover_one now) ([], r) (range string (HGETALL ServiceRegistryKey r)) in
      (Ok healthyServices, r)
  end.

Definition DiscoverNodes (now : Z) (sr : ServiceRegistry) (r : R) : result reg_error (list ServiceInfo) * R :=
  if negb (redisEnabled sr) then
    (Ok [mkServiceInfo (nodeID sr) ("localhost:" +:+ grpcPort sr) (grpcPort sr) StateOnline (state_name StateOnline) now now
           (Some {["mode" := "single-node"]}) {["mode" := "single-node"]} None], r)
  else discoverFromRedis now sr r.

(** [snapshot]: the runtime metrics, if they are not stale. *)
Definition sendHeartbeat (now : Z) (snapshot : option NodeMetrics) (sr : ServiceRegistry) (r : R) : result reg_error unit * R :=
  if client sr then
    let r := send ExpireHealth (EXPIRE now (NodeHealthKey (nodeID sr)) DefaultNodeTTL) r in
    if fails ExpireHealth then (Err RedisFailed, r) else
    match snapshot with
    | Some m => (Ok tt, send SetMetrics (SET now (NodeMetricsKey (nodeID sr)) (marshal_metrics m) NodeMetricsTTL) r)
    | None => (Ok tt, r)
    end
  else (Ok tt, r).

Record pendingEvent := mkPending {
  pe_node : string; pe_event : string; pe_message : string; pe_prev : NodeState; pe_new : NodeState;
}.

(** The state of a service that is seen again, and the event of a change. *)
Definition next_state (now : Z) (prev : option NodeState) (id : string) (lastSeen : Z) : NodeState * list pendingEvent :=
  match prev with
  | None => (StateOnline, [mkPending id "joined" "Node joined the cluster" StateUnknown StateOnline])
  | Some prevState =>
      let timeSinceLastSeen := time_Sub now lastSeen in
      if bool_decide (prevState = StateDecommissioning) || bool_decide (prevState = StateTombstone) then (prevState, [])
      else if OfflineThreshold <=? timeSinceLastSeen then
        (StateOffline, if bool_decide (prevState = StateOffline) then []
           else [mkPending id "offline" "Node offline due to heartbeat timeout" prevState StateOffline])
      else if SuspiciousThreshold <=? timeSinceLastSeen then
        (StateSuspicious, if bool_decide (prevState = StateSuspicious) then []
           else [mkPending id "suspicious" "Node suspicious due to heartbeat delay" prevState StateSuspicious])
      else
        (StateOnline, if bool_decide (prevState = StateSuspicious) || bool_decide (prevState = StateOffline)
           then [mkPending id "recovered" "Node recovered" prevState StateOnline] else [])
  end.

Definition update_service (now : Z) (prevServices : gmap string ServiceInfo)
    (acc : gmap string ServiceInfo * list pendingEvent) (service : ServiceInfo) :
    gmap string ServiceInfo * list pendingEvent :=
  let '(m, events) := acc in
  let id := svc_NodeID service in
  let '(s, evs) := next_state now (svc_State <$> prevServices !! id) id (svc_LastSeen service) in
  let service := mkServiceInfo id (svc_Address service) (svc_Port service) s (svc_Status service)
    (if svc_StartTime service =? zero_time then now else svc_StartTime service) (svc_LastSeen service)
    (Some (default ∅ (svc_Labels service))) (svc_Metadata service) (svc_Metrics service) in
  (<[id := service]> m, events ++ evs).

Definition removed_events (prevServices m : gmap string ServiceInfo) : list pendingEvent :=
  omap (fun '(id, prevService) =>
    if bool_decide (m !! id = None) && negb (bool_decide (svc_State prevService = StateTombstone))
    then Some (mkPending id "offline" "Node removed from registry" (svc_State prevService) StateOffline) else None)
    (range ServiceInfo prevServices).

Definition recordEvent (now : Z) (sr : ServiceRegistry) (r : R) (e : pendingEvent) : R :=
  if client sr then
    let key := NodeEventsKey (pe_node e) in
    let data := marshal_event (mkNodeEvent now (pe_node e) (pe_event e) (pe_message e) (pe_prev e) (pe_new e)) in
    let r := send LPushEvent (LPUSH key data) r in
    if fails LPushEvent then r else send LTrimEvent (LTRIM key 0 (NodeEventsMaxCount - 1)) r
  else r.

Definition updateServiceList (now : Z) (sr : ServiceRegistry) (r : R) : result reg_error unit * ServiceRegistry * R :=
  match discoverFromRedis now sr r with
  | (Err e, r) => (Err e, sr, r)
  | (Ok found, r) =>
      let '(m, events) := foldl (update_service now (services sr)) (∅, []) found in
      let events := events ++ removed_events (services sr) m in
      let sr := with_services m sr in
      (Ok tt, sr, foldl (recordEvent now sr) r events)
  end.

(** [range] of a string decodes UTF-8; [int] wraps around. *)
Context (runes : string -> list Z).

Definition hashString (s : string) : Z :=
  let h := foldl (fun h c => int64 (31 * h + c)) 0 (runes s) in
  if h <? 0 then int64 (- h) else h.

(** [None]: the index is out of range. *)
Definition GetNodeForKey (sr : ServiceRegistry) (key : string) : option string :=
  if negb (redisEnabled sr) then Some (nodeID sr) else
  match SortStrings (range ServiceInfo (services sr)).*1 with
  | [] => Some (nodeID sr)
  | nodeIDs =>
      let nodeIndex := Z.rem (hashString key) (Z.of_nat (length nodeIDs)) in
      if nodeIndex <? 0 then None else nodeIDs !! Z.to_nat nodeIndex
  end.

Definition up_state (s : NodeState) : bool := bool_decide (s = StateOnline) || bool_decide (s = StateSuspicious).

Definition IsNodeHealthy (sr : ServiceRegistry) (id : string) : bool :=
  if negb (redisEnabled sr) then bool_decide (id = nodeID sr) else
  match services sr !! id with Some service => up_state (svc_State service) | None => false end.

Definition node_of (v : ServiceInfo) : NodeInfo :=
  mkNodeInfo (svc_NodeID v) (svc_Address v) (svc_Port v) (svc_State v) (svc_LastSeen v).

Definition GetHealthyNodes (now : Z) (sr : ServiceRegistry) (r : R) : result reg_error (list NodeInfo) * R :=
  match DiscoverNodes now sr r with
  | (Err e, r) => (Err e, r)
  | (Ok found, r) => (Ok (map node_of (List.filter (fun v => up_state (svc_State v)) found)), r)
  end.

(** The change of state is kept in memory, then written to Redis as far as
    Redis is there, then recorded. *)
Definition DecommissionNode (now : Z) (id : string) (sr : ServiceRegistry) (r : R) : result reg_error unit * ServiceRegistry * R :=
  match services sr !! id with
  | None => (Err NodeNotFound, sr, r)
  | Some service =>
      if negb (up_state (svc_State service)) then (Err (WrongState (svc_State service)), sr, r) else
      let updated := with_status (state_name StateDecommissioning) (with_state StateDecommissioning service) in
      let sr := with_services (<[id := updated]> (services sr)) sr in
      let r := if client sr then send HSetNode (HSET ServiceRegistryKey id (marshal updated)) r else r in
      (Ok tt, sr, recordEvent now sr r
        (mkPending id "decommissioned" "Node decommissioned by operator" (svc_State service) StateDecommissioning))
  end.

Definition RecommissionNode (now : Z) (id : string) (sr : ServiceRegistry) (r : R) : result reg_error unit * ServiceRegistry * R :=
  match services sr !! id with
  | None => (Err NodeNotFound, sr, r)
  | Some service =>
      if negb (bool_decide (svc_State service = StateDecommissioning) || bool_decide (svc_State service = StateOffline))
      then (Err (WrongState (svc_State service)), sr, r) else
      let updated := with_seen now (with_status (state_name StateOnline) (with_state StateOnline service)) in
      let sr := with_services (<[id := updated]> (services sr)) sr in
      let r := if client sr then send HSetNode (HSET ServiceRegistryKey id (marshal updated)) r else r in
      (Ok tt, sr, recordEvent now sr r
        (mkPending id "recommissioned" "Node recommissioned by operator" (svc_State service) StateOnline))
  end.

Definition RemoveNode (now : Z) (id : string) (sr : ServiceRegistry) (r : R) : result reg_error unit * ServiceRegistry * R :=
  match services sr !! id with
  | None => (Err NodeNotFound, sr, r)
  | Some service =>
      if negb (bool_decide (svc_State service = StateOffline) || bool_decide (svc_State service = StateDecommissioning))
      then (Err (WrongState (svc_State service)), sr, r) else
      let sr := with_services (delete id (services sr)) sr in
      let r := recordEvent now sr r (mkPending id "removed" "Node removed from cluster" (svc_State service) StateTombstone) in
      let r := if client sr then
          send DelMetrics (DEL now (NodeMetricsKey id))
            (send DelHealth (DEL now (NodeHealthKey id)) (send (HDelNode id) (HDEL ServiceRegistryKey id) r))
        else r in
      (Ok tt, sr, r)
  end.

Definition GetNodeMetrics (now : Z) (failed : bool) (sr : ServiceRegistry) (r : R) (id : string) : option NodeMetrics :=
  if client sr && negb failed then GET now (NodeMetricsKey id) r ≫= unmarshal_metrics else None.

Definition GetNodeEvents (failed : bool) (sr : ServiceRegistry) (r : R) (id : string) (limit : Z) : list NodeEvent :=
  if client sr && negb failed then omap unmarshal_event (LRANGE (NodeEventsKey id) 0 (limit - 1) r) else [].

(** The switch to a new pool, which has a client. *)
Definition SwitchToDistributed (localIP : option string) (now : Z) (sr : ServiceRegistry) (r : R) :
    result reg_error unit * ServiceRegistry * R :=
  Start localIP now (with_running false (with_pool (Some true) true sr)) r.
End registry.
