(* ===== verification/DiscoveryTheorems.v ===== *)
(** * What the nodes know of each other (internal/discovery/service_registry.go)

    Discovery finds just the registered nodes whose health key is there; the
    states of the nodes follow the rules of the state machine; a node whose
    health key has expired never comes back, and every node goes offline a
    minute after it has registered. *)

From S2P Require Import Prelude GoStrings GoTime GoFloat GoHeap GoOrder FieldMapping ConsistentHash RedisLock Discovery.
From Stdlib Require Import Ascii.
#[local] Open Scope Z_scope.

Lemma health_key_inj id id' : NodeHealthKey id = NodeHealthKey id' -> id = id'.
Proof. unfold NodeHealthKey. apply (inj (String.append _)). Qed.

Section discovery.
Context {R} `{!RegistryCommands R, !RegistryLaws R}.
Context (unmarshal : string -> option ServiceInfo).
Context (range : forall A, gmap string A -> list (string * A)) `{!MapRange range}.

(** ** Discovery *)

Lemma send_health net c f t id (r : R) :
  (GET t (NodeHealthKey id) (f r) = GET t (NodeHealthKey id) r) ->
  GET t (NodeHealthKey id) (send net c f r) = GET t (NodeHealthKey id) r.
Proof. unfold send. by destruct (net c). Qed.

Lemma discover_one_health net now acc entry t id :
  GET t (NodeHealthKey id) (discover_one unmarshal net now acc entry).2 = GET t (NodeHealthKey id) (acc.2 : R).
Proof using RegistryLaws0.
  destruct acc as [vs r], entry as [sid data]. unfold discover_one. destruct (unmarshal data); [|done].
  destruct (fails _ _); [done|]. destruct (GET now _ r); [done|]. cbn [snd]. apply send_health. by apply hdel_get.
Qed.

Lemma discover_loop_health net now entries acc t id :
  GET t (NodeHealthKey id) (foldl (discover_one unmarshal net now) acc entries).2 = GET t (NodeHealthKey id) (acc.2 : R).
Proof using RegistryLaws0.
  revert acc. induction entries as [|e entries IH]; intros acc; [done|]. cbn [foldl]. by rewrite IH, discover_one_health.
Qed.

(** What discovery returns is registered, and its health key is there. *)
Lemma discover_loop_found net now entries acc v :
  v ∈ (foldl (discover_one unmarshal net now) acc entries).1 <->
  v ∈ acc.1 \/ exists id data, (id, data) ∈ entries /\ unmarshal data = Some v /\ fails net (GetHealth id) = false /\
    is_Some (GET now (NodeHealthKey id) (acc.2 : R)).
Proof using RegistryLaws0.
  revert acc. induction entries as [|[id data] entries IH]; intros acc; cbn [foldl].
  { split; [by left|]. intros [?|(id & data & Hin & _)]; [done|]. by apply elem_of_nil in Hin. }
  rewrite IH. setoid_rewrite discover_one_health. setoid_rewrite elem_of_cons.
  assert (v ∈ (discover_one unmarshal net now acc (id, data)).1 <->
    v ∈ acc.1 \/ unmarshal data = Some v /\ fails net (GetHealth id) = false /\ is_Some (GET now (NodeHealthKey id) (acc.2 : R))) as ->.
  { destruct acc as [vs r]. unfold discover_one. cbn [fst snd]. destruct (unmarshal data) as [w|]; [|naive_solver].
    destruct (fails net (GetHealth id)); cbn [fst]; [naive_solver|]. destruct (GET now (NodeHealthKey id) r); cbn [fst].
    - rewrite elem_of_app, list_elem_of_singleton. naive_solver.
    - split; [by left|]. intros [?|(_ & _ & [? [=]])]; done. }
  split; [intros [[?|(?&?&?)]|(id' & data' & ? & ?)]|intros [?|(id' & data' & [[= -> ->]|?] & ?)]]; naive_solver.
Qed.

(** Without failures, the services whose health key is gone are removed. *)
Definition gone (now : Z) (r : R) (id data : string) : bool :=
  bool_decide (is_Some (unmarshal data)) && bool_decide (GET now (NodeHealthKey id) r = None).

Lemma discover_one_registry net now vs (r : R) id data :
  (forall c, net c = Answered) ->
  HGETALL ServiceRegistryKey (discover_one unmarshal net now (vs, r) (id, data)).2 =
  if gone now r id data then delete id (HGETALL ServiceRegistryKey r) else HGETALL ServiceRegistryKey r.
Proof using RegistryLaws0.
  intros Hnet. unfold discover_one, fails, send, gone. rewrite !Hnet. destruct (unmarshal data) as [v|].
  - rewrite bool_decide_eq_true_2 by done. cbn [andb]. destruct (GET now (NodeHealthKey id) r).
    + by rewrite bool_decide_eq_false_2.
    + rewrite bool_decide_eq_true_2 by done. apply hdel_all.
  - rewrite bool_decide_eq_false_2; [done|]. by intros [? [=]].
Qed.

Lemma discover_loop_registry net now entries acc id :
  (forall c, net c = Answered) -> NoDup entries.*1 ->
  HGETALL ServiceRegistryKey (foldl (discover_one unmarshal net now) acc entries).2 !! id =
  match (list_to_map entries : gmap string string) !! id with
  | Some data => if gone now acc.2 id data then None else HGETALL ServiceRegistryKey acc.2 !! id
  | None => HGETALL ServiceRegistryKey acc.2 !! id
  end.
Proof using RegistryLaws0.
  intros Hnet. revert acc. induction entries as [|[j data] entries IH]; intros [vs r] Hnd; [done|].
  cbn [foldl fmap list_fmap fst snd] in *. apply NoDup_cons in Hnd as [Hj Hnd]. rewrite IH by done.
  assert (forall k d, gone now (discover_one unmarshal net now (vs, r) (j, data)).2 k d = gone now r k d) as Hg.
  { intros k d. unfold gone. by rewrite discover_one_health. }
  rewrite (discover_one_registry net now vs r j data Hnet). cbn [list_to_map foldr fst snd].
  destruct (decide (id = j)) as [->|Hne].
  - rewrite (not_elem_of_list_to_map_1 _ _ Hj), lookup_insert_eq. destruct (gone now r j data); [apply lookup_delete_eq|done].
  - rewrite lookup_insert_ne by done. destruct (list_to_map entries !! id) as [d|]; rewrite ?Hg; destruct (gone now r j data);
      rewrite ?lookup_delete_ne by done; done.
Qed.

(** Discovery. When Redis answers, the nodes found are just those that are
    registered in a readable form and have a live health key; the registered
    nodes without one are removed from the registry, the others stay, and no
    health key changes. *)
Theorem discovery_exact net now sr (r : R) :
  (forall c, net c = Answered) -> redisEnabled sr = true -> redisPool sr = Some true ->
  exists vs r', discoverFromRedis unmarshal range net now sr r = (Ok vs, r') /\
    (forall v, v ∈ vs <-> exists id data, HGETALL ServiceRegistryKey r !! id = Some data /\ unmarshal data = Some v /\
      is_Some (GET now (NodeHealthKey id) r)) /\
    (forall id, HGETALL ServiceRegistryKey r' !! id =
      match HGETALL ServiceRegistryKey r !! id with
      | Some data => if gone now r id data then None else Some data
      | None => None
      end) /\
    (forall t id, GET t (NodeHealthKey id) r' = GET t (NodeHealthKey id) r).
Proof using MapRange0 RegistryLaws0.
  intros Hnet He Hp. unfold discoverFromRedis. rewrite He, Hp. unfold fails. rewrite Hnet. cbn [negb].
  set (entries := range string (HGETALL ServiceRegistryKey r)).
  pose proof (discover_loop_found net now entries ([], r)) as Hf.
  pose proof (fun id => discover_loop_registry net now entries ([], r) id Hnet (range_NoDup range _ _)) as Hr.
  pose proof (fun t id => discover_loop_health net now entries ([], r) t id) as Hh.
  destruct (foldl _ _ _) as [vs r']. cbn [fst snd] in *. exists vs, r'. split_and!; [done|..|done].
  - intros v. rewrite Hf. split.
    + intros [Hv|(id & data & Hin & Hu & _ & Hl)]; [by apply elem_of_nil in Hv|]. exists id, data. by apply (range_elem range) in Hin.
    + intros (id & data & Hin & Hu & Hl). right. exists id, data. split_and!; [by apply (range_elem range)|done| |done].
      unfold fails. by rewrite Hnet.
  - intros id. rewrite Hr. unfold entries. rewrite (range_map range). by destruct (HGETALL _ r !! id).
Qed.

End discovery.

(** ** The state machine *)

(** The state a node that is neither decommissioned nor removed should have
    for the age of its last sign. *)
Definition age_state (age : Z) : NodeState :=
  if OfflineThreshold <=? age then StateOffline else if SuspiciousThreshold <=? age then StateSuspicious else StateOnline.

Definition usual (s : NodeState) : Prop :=
  s = StateOnline \/ s = StateSuspicious \/ s = StateOffline \/ s = StateDecommissioning.

(** Where a usual state goes, and that just the changes are told. *)
Lemma next_state_spec now s id seen :
  usual s ->
  let '(s', evs) := next_state now (Some s) id seen in
  s' = (if decide (s = StateDecommissioning) then s else age_state (time_Sub now seen)) /\ usual s' /\
  (s' = s -> evs = []) /\
  (s' <> s -> exists e, evs = [e] /\ pe_node e = id /\ pe_prev e = s /\ pe_new e = s').
Proof.
  intros Hs. unfold next_state, age_state, usual.
  destruct Hs as [->|[->|[->| ->]]]; cbn; try (split_and!; [done|naive_solver|done..]);
    destruct (OfflineThreshold <=? time_Sub now seen), (SuspiciousThreshold <=? time_Sub now seen); cbn; (split_and!; [done|naive_solver|try done|]);
    intros Hne; try done; eexists; split_and!; done.
Qed.

Definition usual_services (m : gmap string ServiceInfo) : Prop :=
  map_Forall (fun id v => svc_NodeID v = id /\ usual (svc_State v)) m.

(** The state of a node after an update, from what was known of it. *)
Definition updated_state (now : Z) (prev : option ServiceInfo) (v : ServiceInfo) : NodeState :=
  match prev with
  | None => StateOnline
  | Some p => if decide (svc_State p = StateDecommissioning) then StateDecommissioning else age_state (time_Sub now (svc_LastSeen v))
  end.

Lemma update_service_ok now prev acc v :
  usual_services prev ->
  map_Forall (fun id v => svc_NodeID v = id /\ usual (svc_State v) /\ svc_State v = updated_state now (prev !! id) v) acc.1 ->
  map_Forall (fun id v => svc_NodeID v = id /\ usual (svc_State v) /\ svc_State v = updated_state now (prev !! id) v)
    (update_service now prev acc v).1.
Proof.
  intros Hprev Hacc. destruct acc as [m evs]. unfold update_service.
  destruct (next_state _ _ _ _) as [s es] eqn:E. cbn [fst] in *. apply map_Forall_insert_2; [|done]. cbn.
  unfold updated_state. cbn. destruct (prev !! svc_NodeID v) as [p|] eqn:Ep; cbn [fmap option_fmap option_map] in E.
  - destruct (Hprev _ _ Ep) as [_ Hu]. pose proof (next_state_spec now (svc_State p) (svc_NodeID v) (svc_LastSeen v) Hu) as H.
    rewrite E in H. destruct H as (-> & Hs & _). split_and!; [done|done|]. by destruct (decide _).
  - injection E as <- _. split_and!; [done|by left|done].
Qed.

(** The states an update gives. *)
Lemma update_services_ok now prev vs :
  usual_services prev ->
  map_Forall (fun id v => svc_NodeID v = id /\ usual (svc_State v) /\ svc_State v = updated_state now (prev !! id) v)
    (foldl (update_service now prev) (∅, []) vs).1.
Proof.
  intros Hprev. assert (map_Forall (fun id v => svc_NodeID v = id /\ usual (svc_State v) /\ svc_State v = updated_state now (prev !! id) v)
    (@empty (gmap string ServiceInfo) _, @nil pendingEvent).1) as Hacc by apply map_Forall_empty.
  revert Hacc. generalize (@empty (gmap string ServiceInfo) _, @nil pendingEvent).
  induction vs as [|v vs IH]; intros acc Hacc; [done|]. cbn [foldl]. by apply IH, update_service_ok.
Qed.
(** ** The cluster *)

Create HintDb lost.

(** What a node does. *)
Inductive action :=
| AStart (localIP : option string) | AStop | AHeartbeat (snapshot : option NodeMetrics) | ADiscover | AUpdate
| ADecommission (id : string) | ARecommission (id : string) | ARemove (id : string) | ASwitch (localIP : option string).

Section cluster.
Context {R} `{!RegistryCommands R, !RegistryLaws R}.
Context (marshal : ServiceInfo -> string) (unmarshal : string -> option ServiceInfo).
Context (marshal_event : NodeEvent -> string) (marshal_metrics : NodeMetrics -> string).
Context (range : forall A, gmap string A -> list (string * A)) `{!MapRange range}.

Definition perform (net : command -> delivery) (now : Z) (a : action) (sr : ServiceRegistry) (r : R) : ServiceRegistry * R :=
  match a with
  | AStart ip => let '(_, sr, r) := Start marshal net ip now sr r in (sr, r)
  | AStop => Stop net now sr r
  | AHeartbeat snapshot => (sr, (sendHeartbeat marshal_metrics net now snapshot sr r).2)
  | ADiscover => (sr, (DiscoverNodes unmarshal range net now sr r).2)
  | AUpdate => let '(_, sr, r) := updateServiceList unmarshal marshal_event range net now sr r in (sr, r)
  | ADecommission id => let '(_, sr, r) := DecommissionNode marshal marshal_event net now id sr r in (sr, r)
  | ARecommission id => let '(_, sr, r) := RecommissionNode marshal marshal_event net now id sr r in (sr, r)
  | ARemove id => let '(_, sr, r) := RemoveNode marshal_event net now id sr r in (sr, r)
  | ASwitch ip => let '(_, sr, r) := SwitchToDistributed marshal net ip now sr r in (sr, r)
  end.

(** The registries of the nodes, by node, and Redis at a time. *)
Record cluster := mkCluster { clock : Z; registries : gmap string ServiceRegistry; redis : R }.

Inductive step : cluster -> string * action -> cluster -> Prop :=
| step_node w n a net now sr sr' r' :
    registries w !! n = Some sr -> clock w <= now ->
    perform net now a sr (redis w) = (sr', r') ->
    step w (n, a) (mkCluster now (<[n := sr']> (registries w)) r').

Inductive steps : cluster -> list (string * action) -> cluster -> Prop :=
| steps_nil w : steps w [] w
| steps_cons w e w1 tr w2 : step w e w1 -> steps w1 tr w2 -> steps w (e :: tr) w2.

(** Every registry is stored under its node, and keeps only usual states. *)
Definition cluster_ok (w : cluster) : Prop :=
  map_Forall (fun n sr => nodeID sr = n /\ usual_services (services sr)) (registries w).

Lemma perform_keeps net now a sr r sr' r' :
  usual_services (services sr) -> perform net now a sr r = (sr', r') ->
  nodeID sr' = nodeID sr /\ usual_services (services sr').
Proof.
  intros Hu. destruct a; cbn [perform].
  - unfold Start. destruct (isRunning sr); [by intros [= <- <-]|]. destruct (negb _); [by intros [= <- <-]|].
    by destruct (registerService _ _ _ _ _ _) as [[] ?]; intros [= <- <-].
  - unfold Stop. destruct (negb _); [by intros [= <- <-]|]. destruct (_ && _); by intros [= <- <-].
  - by intros [= <- <-].
  - by intros [= <- <-].
  - unfold updateServiceList. destruct (discoverFromRedis _ _ _ _ _ _) as [[vs|e] r1]; [|by intros [= <- <-]].
    pose proof (update_services_ok now (services sr) vs Hu) as H. destruct (foldl _ _ vs) as [m evs].
    intros [= <- <-]. split; [done|]. eapply map_Forall_impl; [exact H|]. naive_solver.
  - unfold DecommissionNode. destruct (services sr !! id) as [v|] eqn:E; [|by intros [= <- <-]].
    destruct (negb _); [by intros [= <- <-]|]. intros [= <- <-]. split; [done|].
    apply map_Forall_insert_2; [|done]. split; [apply (Hu _ _ E)|]. unfold usual. cbn. auto.
  - unfold RecommissionNode. destruct (services sr !! id) as [v|] eqn:E; [|by intros [= <- <-]].
    destruct (negb _); [by intros [= <- <-]|]. intros [= <- <-]. split; [done|].
    apply map_Forall_insert_2; [|done]. split; [apply (Hu _ _ E)|]. unfold usual. cbn. auto.
  - unfold RemoveNode. destruct (services sr !! id) as [v|] eqn:E; [|by intros [= <- <-]].
    destruct (negb _); [by intros [= <- <-]|]. intros [= <- <-]. split; [done|]. by apply map_Forall_delete.
  - unfold SwitchToDistributed, Start. cbn [isRunning with_running redisEnabled with_pool negb].
    by destruct (registerService _ _ _ _ _ _) as [[] ?]; intros [= <- <-].
Qed.

Lemma steps_ok w tr w' : steps w tr w' -> cluster_ok w -> cluster_ok w'.
Proof.
  induction 1 as [|w e w1 tr w2 Hs _ IH]; [done|]. intros Hw. apply IH. destruct Hs as [w n a net now sr sr' r' Hn _ Hp].
  destruct (Hw _ _ Hn) as [Hid Hu]. apply perform_keeps in Hp as [Hid' Hu']; [|done]. unfold cluster_ok. cbn.
  apply map_Forall_insert_2; [|done]. split; [congruence|done].
Qed.

(** The states of the nodes. Whatever the nodes of a cluster have done,
    an update gives every node it finds the state the rules prescribe: online
    if it is new, decommissioning if it was, and otherwise online, suspicious
    or offline by the time since it was last seen. No other states occur. *)
Theorem node_states_follow_rules w tr w' n sr net now sr' r' :
  cluster_ok w -> steps w tr w' -> registries w' !! n = Some sr ->
  updateServiceList unmarshal marshal_event range net now sr (redis w') = (Ok tt, sr', r') ->
  forall id v, services sr' !! id = Some v ->
    svc_NodeID v = id /\ usual (svc_State v) /\ svc_State v = updated_state now (services sr !! id) v.
Proof.
  intros Hw Hs Hn. apply (steps_ok _ _ _ Hs) in Hw. destruct (Hw _ _ Hn) as [_ Hu]. unfold updateServiceList.
  destruct (discoverFromRedis _ _ _ _ _ _) as [[vs|e] r1]; [|done].
  pose proof (update_services_ok now (services sr) vs Hu) as H. destruct (foldl _ _ vs) as [m evs]. intros [= <- _]. exact H.
Qed.

(** ** Lost nodes *)

Definition restarts (x : string) (e : string * action) : Prop :=
  e.1 = x /\ match e.2 with AStart _ | ASwitch _ => True | _ => False end.

(** The health key of [x] is gone. *)
Definition lost (x : string) (now : Z) (r : R) : Prop := GET now (NodeHealthKey x) r = None.

Lemma send_lost net c f x now (r : R) : (lost x now r -> lost x now (f r)) -> lost x now r -> lost x now (send net c f r).
Proof. unfold send. destruct (net c); auto. Qed.

Lemma hset_lost x now f v (r : R) : lost x now r -> lost x now (HSET ServiceRegistryKey f v r).
Proof using RegistryLaws0. unfold lost. by rewrite hset_get. Qed.
Lemma hdel_lost x now f (r : R) : lost x now r -> lost x now (HDEL ServiceRegistryKey f r).
Proof using RegistryLaws0. unfold lost. by rewrite hdel_get. Qed.
Lemma set_lost x now k v ttl (r : R) : k <> NodeHealthKey x -> lost x now r -> lost x now (SET now k v ttl r).
Proof using RegistryLaws0. intros Hk. unfold lost. by rewrite set_other. Qed.
Lemma del_lost x now k (r : R) : lost x now r -> lost x now (DEL now k r).
Proof using RegistryLaws0.
  unfold lost. intros H. destruct (decide (k = NodeHealthKey x)) as [->|]; [by apply del_get|by rewrite del_other].
Qed.
Lemma expire_lost x now y ttl (r : R) : lost x now r -> lost x now (EXPIRE now (NodeHealthKey y) ttl r).
Proof using RegistryLaws0.
  unfold lost. intros H. destruct (decide (y = x)) as [->|Hne]; [by rewrite expire_gone|].
  rewrite expire_other; [done| |done]. by intros ?%health_key_inj.
Qed.
Lemma recordEvent_lost net x now sr e (r : R) : lost x now r -> lost x now (recordEvent marshal_event net now sr r e).
Proof using RegistryLaws0.
  intros H. unfold recordEvent. destruct (client sr); [|done]. assert (lost x now (send net LPushEvent
    (LPUSH (NodeEventsKey (pe_node e)) (marshal_event (mkNodeEvent now (pe_node e) (pe_event e) (pe_message e) (pe_prev e) (pe_new e)))) r)).
  { apply send_lost; [|done]. unfold lost. by rewrite lpush_get. }
  destruct (fails _ _); [done|]. apply send_lost; [|done]. unfold lost. by rewrite ltrim_get.
Qed.
#[local] Hint Resolve send_lost hset_lost hdel_lost set_lost del_lost expire_lost recordEvent_lost : lost.

Lemma discover_lost net x now sr (r : R) :
  lost x now r -> lost x now (discoverFromRedis unmarshal range net now sr r).2.
Proof using RegistryLaws0.
  intros H. unfold discoverFromRedis. destruct (negb _); [done|]. destruct (redisPool sr) as [[]|]; [|done..].
  destruct (fails _ _); [done|]. pose proof (discover_loop_health unmarshal net now
    (range string (HGETALL ServiceRegistryKey r)) ([], r) now x) as E.
  destruct (foldl _ _ _) as [vs r']. cbn [snd] in *. unfold lost. by rewrite E.
Qed.

Lemma register_lost net x ip now sr (r : R) :
  nodeID sr <> x -> lost x now r -> lost x now (registerService marshal net ip now sr r).2.
Proof using RegistryLaws0.
  intros Hne H. unfold registerService. destruct (negb _); [done|]. destruct (redisPool sr) as [[]|]; [|done..].
  destruct ip; [|done]. destruct (fails net HSetNode); cbn [snd]; [auto with lost|].
  destruct (fails net SetHealth); cbn [snd]; (apply send_lost; [intros; apply set_lost; [|done]|auto with lost]);
    by intros ?%health_key_inj.
Qed.

Lemma perform_lost net x now a sr (r : R) :
  ~ restarts x (nodeID sr, a) -> lost x now r -> lost x now (perform net now a sr r).2.
Proof using RegistryLaws0.
  intros Hnr H. destruct a; cbn [perform].
  - unfold Start. destruct (isRunning sr); [done|]. destruct (negb _); [done|].
    pose proof (register_lost net x localIP now sr r) as Hr. destruct (registerService _ _ _ _ _ _) as [[] ?];
      apply Hr; try done; intros <-; by apply Hnr.
  - unfold Stop. destruct (negb _); [done|]. destruct (_ && _); [|done]. cbn [snd]. unfold unregisterService.
    destruct (client _); auto with lost.
  - unfold sendHeartbeat. destruct (client sr); [|done]. destruct (fails _ _); cbn [snd]; [auto with lost|].
    destruct snapshot; cbn [snd]; auto 6 with lost.
  - unfold DiscoverNodes. destruct (negb _); [done|]. by apply discover_lost.
  - unfold updateServiceList. pose proof (discover_lost net x now sr r H) as Hd.
    destruct (discoverFromRedis _ _ _ _ _ _) as [[vs|e] r1]; [|done]. destruct (foldl _ _ vs) as [m evs]. cbn [snd] in *.
    generalize (evs ++ removed_events range (services sr) m) as es. intros es. revert r1 Hd.
    induction es as [|e es IH]; intros r1 Hd; [done|]. cbn [foldl]. auto with lost.
  - unfold DecommissionNode. destruct (services sr !! id); [|done]. destruct (negb _); [done|]. cbn [snd].
    destruct (client _); auto with lost.
  - unfold RecommissionNode. destruct (services sr !! id); [|done]. destruct (negb _); [done|]. cbn [snd].
    destruct (client _); auto with lost.
  - unfold RemoveNode. destruct (services sr !! id); [|done]. destruct (negb _); [done|]. cbn [snd].
    destruct (client _); auto 8 with lost.
  - unfold SwitchToDistributed, Start. cbn [isRunning with_running redisEnabled with_pool negb].
    set (sr1 := with_running false (with_pool (Some true) true sr)).
    pose proof (register_lost net x localIP now sr1 r) as Hr. destruct (registerService _ _ _ _ _ _) as [[] ?];
      apply Hr; try done; intros <-; by apply Hnr.
Qed.

Lemma steps_lost x w tr w' :
  cluster_ok w -> steps w tr w' -> Forall (fun e => ~ restarts x e) tr ->
  lost x (clock w) (redis w) -> clock w <= clock w' /\ lost x (clock w') (redis w').
Proof using RegistryLaws0.
  intros Hw Hs. revert Hw. induction Hs as [|w e w1 tr w2 Hstep Hs IH]; intros Hw Hnr Hl; [done|].
  apply Forall_cons in Hnr as [Hnr Hnrs]. pose proof (steps_ok _ _ _ (steps_cons _ _ _ _ _ Hstep (steps_nil _)) Hw) as Hw1.
  destruct Hstep as [w n a net now sr sr' r' Hn Hle Hp]. destruct (Hw _ _ Hn) as [Hid _].
  destruct (IH Hw1 Hnrs) as [? ?]; [|cbn in *; split; [lia|done]]. cbn.
  pose proof (perform_lost net x now a sr (redis w)) as Hpl. rewrite Hp in Hpl. apply Hpl; [by rewrite Hid|].
  by eapply get_later.
Qed.

(** A lost node stays lost. Once the health key of a node has expired or
    was deleted, then, as long as the node is not started again, no step of any
    node of the cluster brings it back: no node ever discovers it under its
    name, though its own heartbeats report no error. *)
Theorem lost_node_stays_lost x w tr w' :
  cluster_ok w -> steps w tr w' -> Forall (fun e => ~ restarts x e) tr ->
  lost x (clock w) (redis w) ->
  (forall net now n sr vs r', registries w' !! n = Some sr -> clock w' <= now ->
     discoverFromRedis unmarshal range net now sr (redis w') = (Ok vs, r') ->
     forall v, v ∈ vs -> exists id data, id <> x /\ HGETALL ServiceRegistryKey (redis w') !! id = Some data /\ unmarshal data = Some v) /\
  (forall net now sr snapshot, registries w' !! x = Some sr -> net ExpireHealth = Answered ->
     (sendHeartbeat marshal_metrics net now snapshot sr (redis w')).1 = Ok tt).
Proof using RegistryLaws0 MapRange0.
  intros Hw Hs Hnr Hl. destruct (steps_lost x w tr w' Hw Hs Hnr Hl) as [_ Hl']. split.
  - intros net now n sr vs r' Hn Hle. unfold discoverFromRedis. destruct (negb _); [done|].
    destruct (redisPool sr) as [[]|]; [|done..]. destruct (fails _ _); [done|].
    pose proof (discover_loop_found unmarshal net now (range string (HGETALL ServiceRegistryKey (redis w'))) ([], redis w')) as Hf.
    destruct (foldl _ _ _) as [vs' r'']. intros [= -> ->] v Hv. apply Hf in Hv as [Hv|(id & data & Hin & Hu & _ & Hlive)].
    + by apply elem_of_nil in Hv.
    + exists id, data. split_and!; [|by apply (range_elem range) in Hin|done]. intros ->. cbn [snd] in Hlive.
      rewrite (get_later (clock w') now) in Hlive by done. by destruct Hlive.
  - intros net now sr snapshot Hx Hnet. unfold sendHeartbeat, fails. destruct (client sr); [|done]. rewrite Hnet.
    by destruct snapshot.
Qed.
End cluster.

(** ** Nodes that are there *)

(** An update keeps a node that is found, with the time it was last seen. *)
Lemma update_services_seen now prev vs id (P : Z -> Prop) :
  (forall v, v ∈ vs -> svc_NodeID v = id -> P (svc_LastSeen v)) -> (exists v, v ∈ vs /\ svc_NodeID v = id) ->
  exists v, (foldl (update_service now prev) (∅, []) vs).1 !! id = Some v /\ P (svc_LastSeen v).
Proof.
  intros HP Hex.
  assert (forall acc, ((exists v, v ∈ vs /\ svc_NodeID v = id) \/ exists v, acc.1 !! id = Some v /\ P (svc_LastSeen v)) ->
    exists v, (foldl (update_service now prev) acc vs).1 !! id = Some v /\ P (svc_LastSeen v)) as H; [|by apply H; left].
  clear Hex. induction vs as [|u vs IH]; intros acc Hex; cbn [foldl].
  { destruct Hex as [(v & Hv & _)|?]; [by apply elem_of_nil in Hv|done]. }
  apply IH; [intros; apply HP; [by right|done]|]. destruct acc as [m evs]. unfold update_service.
  destruct (next_state _ _ _ _) as [st es]. cbn [fst] in *. destruct (decide (svc_NodeID u = id)) as [<-|Hne].
  - right. eexists. rewrite lookup_insert_eq. split; [done|]. cbn [svc_LastSeen]. apply HP; [by left|done].
  - destruct Hex as [(v & [->|Hv]%elem_of_cons & Hid)|Hex]; [done|left; by exists v|right]. by rewrite lookup_insert_ne.
Qed.

Section live.
Context {R} `{!RegistryCommands R, !RegistryLaws R}.
Context (unmarshal : string -> option ServiceInfo) (marshal_event : NodeEvent -> string).
Context (range : forall A, gmap string A -> list (string * A)) `{!MapRange range}.

(** A live node goes offline. The time a node was last seen is written
    when it registers and not with its heartbeats; so a node that has been
    registered for a minute, and whose health key is there all the time, is
    offline and unhealthy in the list of every node that knew it before (unless
    it is being decommissioned), while the list of healthy nodes has it. *)
Theorem live_node_goes_offline net now sr (r : R) id data v p :
  (forall c, net c = Answered) -> redisEnabled sr = true -> redisPool sr = Some true ->
  usual_services (services sr) -> services sr !! id = Some p -> svc_State p <> StateDecommissioning ->
  (forall id' data' v', HGETALL ServiceRegistryKey r !! id' = Some data' -> unmarshal data' = Some v' -> svc_NodeID v' = id') ->
  HGETALL ServiceRegistryKey r !! id = Some data -> unmarshal data = Some v -> up_state (svc_State v) = true ->
  is_Some (GET now (NodeHealthKey id) r) -> svc_LastSeen v + OfflineThreshold <= now ->
  exists sr' r1 nodes r2,
    updateServiceList unmarshal marshal_event range net now sr r = (Ok tt, sr', r1) /\ IsNodeHealthy sr' id = false /\
    GetHealthyNodes unmarshal range net now sr r = (Ok nodes, r2) /\ node_of v ∈ nodes.
Proof using MapRange0 RegistryLaws0.
  intros Hnet He Hp Hu Hprev Hnd Hids Hdata Hv Hup Hlive Hold.
  destruct (discovery_exact unmarshal range net now sr r Hnet He Hp) as (vs & r1 & Hd & Hvs & _).
  assert (v ∈ vs) as Hin by (apply Hvs; by exists id, data).
  assert (svc_NodeID v = id) as Hid by (by eapply Hids).
  destruct (update_services_seen now (services sr) vs id (fun t => t + OfflineThreshold <= now)) as (v' & Hv' & Hseen).
  { intros u Hu' Hidu. apply Hvs in Hu' as (id' & data' & Hd' & Hu' & _). pose proof (Hids _ _ _ Hd' Hu').
    assert (id' = id) as -> by congruence. rewrite Hdata in Hd'. injection Hd' as <-. rewrite Hv in Hu'. by injection Hu' as <-. }
  { by exists v. }
  pose proof (update_services_ok now (services sr) vs Hu) as Hok.
  unfold updateServiceList, GetHealthyNodes, DiscoverNodes. rewrite He, Hd. cbn [negb].
  destruct (foldl (update_service now (services sr)) (∅, []) vs) as [m evs]. cbn [fst] in *.
  eexists _, _, _, _. split_and!; [reflexivity| |reflexivity|].
  - unfold IsNodeHealthy. cbn. rewrite He, Hv'. cbn. destruct (Hok _ _ Hv') as (_ & _ & ->).
    unfold updated_state. rewrite Hprev, decide_False by done. unfold age_state.
    assert (OfflineThreshold <= time_Sub now (svc_LastSeen v')) as ->%Z.leb_le; [|done].
    unfold time_Sub, max_int64, min_int64, OfflineThreshold, second in *. lia.
  - apply list_elem_of_fmap. exists v. split; [done|]. apply list_elem_of_In, filter_In. split; [by apply list_elem_of_In|done].
Qed.
End live.

(** ** A store with the commands *)

Module DiscoveryDemo.
Record store := mkStore {
  hashes : gmap string (gmap string string); strings : gmap string (string * Z); lists : gmap string (list string) }.

Definition live (now : Z) (e : string * Z) : option string := if now <? e.2 then Some e.1 else None.
Definition store_get (now : Z) (k : string) (r : store) : option string := strings r !! k ≫= live now.

#[export] Instance store_commands : RegistryCommands store := {|
  HGETALL h r := default ∅ (hashes r !! h);
  HSET h f v r := mkStore (<[h := <[f := v]> (default ∅ (hashes r !! h))]> (hashes r)) (strings r) (lists r);
  HDEL h f r := mkStore (<[h := delete f (default ∅ (hashes r !! h))]> (hashes r)) (strings r) (lists r);
  GET := store_get;
  SET now k v ttl r := mkStore (hashes r) (<[k := (v, now + ttl)]> (strings r)) (lists r);
  EXPIRE now k ttl r :=
    match store_get now k r with
    | Some v => mkStore (hashes r) (<[k := (v, now + ttl)]> (strings r)) (lists r)
    | None => r
    end;
  DEL now k r := mkStore (hashes r) (delete k (strings r)) (lists r);
  LRANGE k i j r :=
    let l := default [] (lists r !! k) in
    if j <? 0 then drop (Z.to_nat i) l else take (Z.to_nat (j + 1 - i)) (drop (Z.to_nat i) l);
  LPUSH k x r := mkStore (hashes r) (strings r) (<[k := x :: default [] (lists r !! k)]> (lists r));
  LTRIM k i j r := mkStore (hashes r) (strings r)
    (<[k := take (Z.to_nat (j + 1 - i)) (drop (Z.to_nat i) (default [] (lists r !! k)))]> (lists r));
|}.

#[export] Instance store_laws : RegistryLaws store.
Proof.
  split; cbn; unfold store_get; cbn; intros; rewrite ?lookup_insert_eq, ?lookup_delete_eq, ?lookup_insert_ne, ?lookup_delete_ne by done; try done.
  - destruct (strings r !! k) as [[v d]|]; [|done]. cbn in *. unfold live in *. cbn in *.
    destruct (Z.ltb_spec now d), (Z.ltb_spec now' d); done || lia.
  - destruct (strings r !! k) as [[v' d]|] eqn:E; [|done]. cbn in *. rewrite H. cbn. by rewrite lookup_insert_eq.
  - destruct (strings r !! k) as [[v' d]|] eqn:E; [|done]. cbn in *. by rewrite H.
  - destruct (strings r !! k ≫= live now); [|done]. cbn. by rewrite lookup_insert_ne.
  - by destruct (strings r !! k ≫= live now).
  - destruct (Z.ltb_spec n 0); [lia|]. by rewrite Z.sub_0_r.
  - destruct (Z.ltb_spec n 0); [lia|]. by rewrite Z.sub_0_r.
Qed.

Definition state_code (s : NodeState) : Z :=
  match s with StateUnknown => 0 | StateOnline => 1 | StateSuspicious => 2 | StateOffline => 3 | StateDecommissioning => 4 | StateTombstone => 5 end.
Definition code_state (z : Z) : NodeState :=
  match z with 1 => StateOnline | 2 => StateSuspicious | 3 => StateOffline | 4 => StateDecommissioning | 5 => StateTombstone | _ => StateUnknown end.

Definition text_of (v : ServiceInfo) : string :=
  encode_text (svc_NodeID v, svc_Address v, svc_Port v, state_code (svc_State v), svc_Status v, svc_StartTime v, svc_LastSeen v,
    svc_Labels (stored v), svc_Metadata v).
Definition service_of (s : string) : option ServiceInfo :=
  match decode_text s : option (string * string * string * Z * string * Z * Z * option (gmap string string) * gmap string string) with
  | Some (id, address, port, st, status, start, seen, labels, metadata) =>
      Some (mkServiceInfo id address port (code_state st) status start seen labels metadata None)
  | None => None
  end.

#[export] Instance text_service : RegistryJson text_of service_of.
Proof.
  intros v Hm. unfold service_of, text_of. rewrite decode_encode_text. destruct v as [? ? ? [] ? ? ? ? ? ?]; cbn in *; by subst.
Qed.

Definition no_event (_ : NodeEvent) : string := "".
Definition no_metrics (_ : NodeMetrics) : string := "".
Definition fine (_ : command) : delivery := Answered.
Definition empty_store : store := mkStore ∅ ∅ ∅.

Abbreviation act := (perform text_of service_of no_event no_metrics map_range fine).

(** Two nodes start, beat and update every half minute. *)
Definition round (s : ServiceRegistry * ServiceRegistry * store) (now : Z) : ServiceRegistry * ServiceRegistry * store :=
  let '(a, b, r) := s in
  let '(a, r) := act now (AHeartbeat None) a r in
  let '(b, r) := act now (AHeartbeat None) b r in
  let '(a, r) := act now AUpdate a r in
  let '(b, r) := act now AUpdate b r in (a, b, r).

Definition started : ServiceRegistry * ServiceRegistry * store :=
  let '(a, r) := act 0 (AStart (Some "10.0.0.1")) (NewServiceRegistry true "a" "7000" 0) empty_store in
  let '(b, r) := act 0 (AStart (Some "10.0.0.2")) (NewServiceRegistry true "b" "7000" 0) r in (a, b, r).

Definition after_30s : ServiceRegistry * ServiceRegistry * store := Eval vm_compute in round started (30 * second).

Definition node_a : ServiceRegistry := started.1.1.
Definition node_b : ServiceRegistry := started.1.2.
Definition at_start : store := started.2.

Lemma discovery_exact_witness :
  exists vs r', discoverFromRedis service_of map_range fine (30 * second) node_a at_start = (Ok vs, r') /\
    exists v, v ∈ vs /\ svc_NodeID v = "b".
Proof.
  destruct (discovery_exact service_of map_range fine (30 * second) node_a at_start) as (vs & r' & Hd & Hv & _);
    [done|reflexivity|reflexivity|].
  exists vs, r'. split; [exact Hd|].
  destruct (service_of (default "" (HGETALL ServiceRegistryKey at_start !! "b"))) as [v|] eqn:E; [|vm_compute in E; discriminate].
  exists v. split.
  - apply Hv. exists "b", (default "" (HGETALL ServiceRegistryKey at_start !! "b")).
    split_and!; [vm_compute; reflexivity|exact E|vm_compute; eauto].
  - vm_compute in E. injection E as <-. reflexivity.
Defined.

Definition first_cluster : cluster := mkCluster (30 * second) {["a" := after_30s.1.1; "b" := after_30s.1.2]} after_30s.2.

Lemma usual_decide (m : gmap string ServiceInfo) :
  forallb (fun '(id, v) => bool_decide (svc_NodeID v = id) &&
    (bool_decide (svc_State v = StateOnline) || bool_decide (svc_State v = StateOffline))) (map_to_list m) = true -> usual_services m.
Proof.
  intros H id v Hv%elem_of_map_to_list%list_elem_of_In. rewrite forallb_forall in H. specialize (H _ Hv). cbn beta iota in H.
  apply andb_true_iff in H as [Hid%bool_decide_eq_true_1 Hs]. split; [done|]. unfold usual.
  apply orb_true_iff in Hs as [Hs%bool_decide_eq_true_1|Hs%bool_decide_eq_true_1]; auto.
Qed.

Lemma first_cluster_ok : cluster_ok first_cluster.
Proof.
  unfold cluster_ok, first_cluster. cbn [registries].
  apply map_Forall_insert_2; [|apply map_Forall_singleton]; (split; [vm_compute; reflexivity|apply usual_decide; vm_compute; reflexivity]).
Qed.

(** Node a updates its list a minute after the start: both nodes are offline,
    as the rule says, and are called healthy by the other list. *)
Lemma node_states_follow_rules_witness :
  exists v, services (act (60 * second) AUpdate after_30s.1.1 after_30s.2).1 !! "b" = Some v /\ svc_State v = StateOffline.
Proof.
  destruct (services (act (60 * second) AUpdate after_30s.1.1 after_30s.2).1 !! "b") as [v|] eqn:E; [|vm_compute in E; discriminate].
  exists v. split; [done|].
  destruct (updateServiceList service_of no_event map_range fine (60 * second) after_30s.1.1 after_30s.2) as [[res sr'] r'] eqn:Eu.
  pose proof (node_states_follow_rules text_of service_of no_event no_metrics map_range first_cluster [] first_cluster "a"
    after_30s.1.1 fine (60 * second) sr' r' first_cluster_ok (steps_nil _ _ _ _ _ _)) as H.
  assert (services sr' !! "b" = Some v) as Hb.
  { cbn [perform] in E. rewrite Eu in E. exact E. }
  destruct (H ltac:(vm_compute; reflexivity)) with (id := "b") (v := v) as (_ & _ & ->); [|exact Hb|].
  - cbn [redis first_cluster]. rewrite Eu. assert (res = Ok tt) as ->; [|done].
    assert (res = (updateServiceList service_of no_event map_range fine (60 * second) after_30s.1.1 after_30s.2).1.1) as -> by (by rewrite Eu).
    vm_compute. reflexivity.
  - clear -E. vm_compute in E. injection E as <-. vm_compute. reflexivity.
Defined.

Definition stored_b : ServiceInfo :=
  mkServiceInfo "b" "10.0.0.2" "7000" StateOnline "online" 0 0 None {["mode" := "multi-node"; "redis_enabled" := "true"]} None.

Lemma live_node_goes_offline_witness :
  exists sr' r1 nodes r2,
    updateServiceList service_of no_event map_range fine (60 * second) after_30s.1.1 after_30s.2 = (Ok tt, sr', r1) /\
    IsNodeHealthy sr' "b" = false /\
    GetHealthyNodes service_of map_range fine (60 * second) after_30s.1.1 after_30s.2 = (Ok nodes, r2) /\ node_of stored_b ∈ nodes.
Proof.
  destruct (services after_30s.1.1 !! "b") as [p|] eqn:Ep; [|vm_compute in Ep; discriminate].
  destruct (HGETALL ServiceRegistryKey after_30s.2 !! "b") as [data|] eqn:Ed; [|vm_compute in Ed; discriminate].
  apply (live_node_goes_offline service_of no_event map_range fine (60 * second) after_30s.1.1 after_30s.2 "b" data stored_b p).
  - done.
  - vm_compute. reflexivity.
  - vm_compute. reflexivity.
  - apply usual_decide. vm_compute. reflexivity.
  - exact Ep.
  - vm_compute in Ep. injection Ep as <-. discriminate.
  - assert (forall id' data' v', (id', data') ∈ map_to_list (HGETALL ServiceRegistryKey after_30s.2) ->
      service_of data' = Some v' -> svc_NodeID v' = id') as H; [|intros ? ? ? Hin; apply H; by apply elem_of_map_to_list].
    intros id' data' v' Hin Hv.
    assert (forallb (fun '(id, data) => match service_of data with Some v => bool_decide (svc_NodeID v = id) | None => true end)
      (map_to_list (HGETALL ServiceRegistryKey after_30s.2)) = true) as Hall by (vm_compute; reflexivity).
    rewrite forallb_forall in Hall. specialize (Hall _ (proj1 (list_elem_of_In _ _) Hin)). cbn beta iota in Hall.
    rewrite Hv in Hall. by apply bool_decide_eq_true_1 in Hall.
  - exact Ed.
  - vm_compute in Ed. injection Ed as <-. vm_compute. reflexivity.
  - reflexivity.
  - vm_compute. eauto.
  - vm_compute. discriminate.
Defined.

(** Node b is silent for more than a minute; node a finds it gone. *)
Definition silent : cluster := mkCluster (91 * second) (registries first_cluster) (redis first_cluster).

Lemma lost_node_stays_lost_witness :
  let w' := mkCluster (92 * second) (<["b" := after_30s.1.2]> (registries silent)) (act (92 * second) (AHeartbeat None) after_30s.1.2 after_30s.2).2 in
  (sendHeartbeat no_metrics fine (92 * second) None after_30s.1.2 (redis w')).1 = Ok tt /\
  forall vs r', discoverFromRedis service_of map_range fine (93 * second) after_30s.1.1 (redis w') = (Ok vs, r') ->
    forall v, v ∈ vs -> exists id data, id <> "b" /\ HGETALL ServiceRegistryKey (redis w') !! id = Some data /\ service_of data = Some v.
Proof.
  intros w'.
  destruct (lost_node_stays_lost text_of service_of no_event no_metrics map_range "b" silent [("b", AHeartbeat None)] w') as [H1 H2].
  - exact first_cluster_ok.
  - eapply steps_cons; [|apply steps_nil].
    refine (step_node text_of service_of no_event no_metrics map_range silent "b" (AHeartbeat None) fine (92 * second)
      after_30s.1.2 after_30s.1.2 (redis w') _ _ _).
    + vm_compute. reflexivity.
    + vm_compute. discriminate.
    + subst w'. cbn [perform redis silent first_cluster snd]. reflexivity.
  - constructor; [|constructor]. intros [_ []].
  - vm_compute. reflexivity.
  - split.
    + apply H2; [vm_compute; reflexivity|reflexivity].
    + intros vs r' Hd. apply (H1 fine (93 * second) "a" after_30s.1.1 vs r'); [vm_compute; reflexivity|vm_compute; discriminate|exact Hd].
Defined.

(** The runes of a text of ASCII characters. *)
Fixpoint ascii_runes (s : string) : list Z :=
  match s with EmptyString => [] | String c s => Z.of_N (N_of_ascii c) :: ascii_runes s end.

Definition three_nodes : gmap string ServiceInfo := {["a" := stored_b; "b" := stored_b; "c" := stored_b]}.

(** What the registry does not survive. With three nodes, a key whose hash
    is the least 64-bit integer has no node: the hash stays negative, and the
    index is out of range. And a registry that was stopped cannot be started again, because its
    pool has no client any more. *)
Theorem registry_gaps :
  GetNodeForKey map_range ascii_runes (with_services three_nodes after_30s.1.1) "OY[T^]CZ@DXRW" = None /\
  (Start text_of fine (Some "10.0.0.1") (90 * second) (Stop fine (90 * second) after_30s.1.1 after_30s.2).1
     (Stop fine (90 * second) after_30s.1.1 after_30s.2).2).1.1 = Err ClientNotAvailable.
Proof. vm_compute. split; reflexivity. Qed.
End DiscoveryDemo.
