(* ===== verification/Failover.v ===== *)
(** * Failover between two object stores (pkg/pool/failover_manager.go, manager.go)

    Operations run on the active pool, primary or backup; a failure on the
    primary switches to the backup, a health check switches back. Uploads are
    copied to the backup by a queue with workers. [uploadToStorage] of
    internal/buffer/concurrent_buffer.go is the caller that uses both. *)

From S2P Require Import Prelude GoStrings GoTime.
#[local] Open Scope Z_scope.

Inductive pool := Primary | Backup.

#[export] Instance pool_eq_dec : EqDecision pool.
Proof. solve_decision. Defined.

Inductive QueueFullBehavior := QueueFullBlock | QueueFullReturnError | QueueFullDropAndAlert.

Record AsyncSyncConfig := mkAsync {
  QueueSize : Z;
  WorkerCount : Z;
  RetryTimes : Z;
  RetryInterval : Z;
  SyncTimeout : Z;
  QueueFullBehavior_ : QueueFullBehavior;
  QueueFullTimeout : Z;
}.

Record FailoverConfig := mkConfig {
  Enabled : bool;
  HealthCheckInterval : Z;
  AsyncSync : AsyncSyncConfig;
  NodeID : string;
}.

Definition DefaultFailoverConfig : FailoverConfig :=
  mkConfig true (15 * second) (mkAsync 1000 3 3 second (60 * second) QueueFullBlock (5 * second)) "".

Record SyncTask := mkTask { ObjectName : string; FilePath : string }.

(** What is stored in Redis for five minutes. *)
Record RedisFailoverState := mkRedisState { UsingBackup : bool; LastUpdate : Z; StateNode : string }.

(** [closed]: the queue's channel; [saved]: the key in Redis, with its
    deadline. *)
Record FailoverManager := mkManager {
  config : FailoverConfig;
  hasBackup : bool;                    (* the pool manager has a backup pool *)
  hasRedis : bool;
  usingBackup : bool;
  lastHealthCheck : Z;
  syncQueue : list SyncTask;
  stopped : bool;
  cancelled : bool;
  closed : bool;
  saved : option (RedisFailoverState * Z);
}.

Definition NewFailoverManager (c : FailoverConfig) (hasBackup hasRedis : bool)
    (saved : option (RedisFailoverState * Z)) : FailoverManager :=
  mkManager c hasBackup hasRedis false 0 [] false false false saved.

Definition set_using (b : bool) (fm : FailoverManager) : FailoverManager :=
  mkManager (config fm) (hasBackup fm) (hasRedis fm) b (lastHealthCheck fm) (syncQueue fm) (stopped fm)
    (cancelled fm) (closed fm) (saved fm).
Definition set_check (t : Z) (fm : FailoverManager) : FailoverManager :=
  mkManager (config fm) (hasBackup fm) (hasRedis fm) (usingBackup fm) t (syncQueue fm) (stopped fm)
    (cancelled fm) (closed fm) (saved fm).
Definition set_queue (q : list SyncTask) (fm : FailoverManager) : FailoverManager :=
  mkManager (config fm) (hasBackup fm) (hasRedis fm) (usingBackup fm) (lastHealthCheck fm) q (stopped fm)
    (cancelled fm) (closed fm) (saved fm).
Definition set_saved (s : option (RedisFailoverState * Z)) (fm : FailoverManager) : FailoverManager :=
  mkManager (config fm) (hasBackup fm) (hasRedis fm) (usingBackup fm) (lastHealthCheck fm) (syncQueue fm) (stopped fm)
    (cancelled fm) (closed fm) s.

(** ** Which pool *)

Definition GetActivePool (fm : FailoverManager) : pool := if usingBackup fm then Backup else Primary.

Definition saveStateToRedis (now : Z) (redis_up : bool) (fm : FailoverManager) : FailoverManager :=
  if hasRedis fm && redis_up
  then set_saved (Some (mkRedisState (usingBackup fm) now (NodeID (config fm)), now + 300 * second)) fm else fm.

(** At the start: an expired or missing key leaves the primary active. *)
Definition loadStateFromRedis (now : Z) (redis_up : bool) (fm : FailoverManager) : FailoverManager :=
  if hasRedis fm && redis_up then
    match saved fm with
    | Some (s, deadline) => if now <? deadline then set_using (UsingBackup s) fm else fm
    | None => fm
    end
  else fm.

(** Health of the pools and of Redis at a moment. *)
Record health := mkHealth { primary_ok : bool; backup_ok : bool; redis_ok : bool }.

Definition switchToBackup (now : Z) (h : health) (fm : FailoverManager) : bool * FailoverManager :=
  if usingBackup fm then (false, fm) else
  if negb (hasBackup fm) then (false, fm) else
  if negb (backup_ok h) then (false, fm) else
  (true, saveStateToRedis now (redis_ok h) (set_check now (set_using true fm))).

Definition checkAndRecover (now : Z) (h : health) (fm : FailoverManager) : FailoverManager :=
  let fm := set_check now fm in
  if negb (usingBackup fm) then fm else
  if negb (primary_ok h) then fm else
  saveStateToRedis now (redis_ok h) (set_using false fm).

(** ** Operations *)

Inductive exec_error := PoolError (p : pool) | BothFailed.

Section execute.
(** An operation changes the world and says whether it went well. *)
Context {W : Type} (operation : pool -> W -> bool * W).

(** Where a caller is inside [Execute]: between its accesses to the shared
    state others may run. *)
Inductive exec_phase :=
  | ERun (p : pool)                    (* the active pool was read *)
  | EFailed (p : pool)                 (* the operation failed on it *)
  | ESwitch (p : pool)                 (* the backup was not active *)
  | ERetry                             (* the switch was made *)
  | EDone (r : result exec_error unit).

Definition exec_step (now : Z) (h : health) (ph : exec_phase) (fm : FailoverManager) (w : W)
    : exec_phase * FailoverManager * W :=
  match ph with
  | ERun p => let '(ok, w) := operation p w in (if ok then EDone (Ok tt) else EFailed p, fm, w)
  | EFailed p => (if usingBackup fm then EDone (Err (PoolError p)) else ESwitch p, fm, w)
  | ESwitch p =>
      let '(ok, fm) := switchToBackup now h fm in (if ok then ERetry else EDone (Err (PoolError p)), fm, w)
  | ERetry =>
      let '(ok, w) := operation (GetActivePool fm) w in (EDone (if ok then Ok tt else Err BothFailed), fm, w)
  | EDone r => (EDone r, fm, w)
  end.

Definition exec_start (fm : FailoverManager) : exec_phase := ERun (GetActivePool fm).

Fixpoint exec_run (n : nat) (now : Z) (h : health) (ph : exec_phase) (fm : FailoverManager) (w : W)
    : exec_phase * FailoverManager * W :=
  match n with
  | O => (ph, fm, w)
  | S n => let '(ph, fm, w) := exec_step now h ph fm w in exec_run n now h ph fm w
  end.

(** [Execute] with nobody in between: four steps at most. *)
Definition Execute (now : Z) (h : health) (fm : FailoverManager) (w : W) : result exec_error unit * FailoverManager * W :=
  match exec_run 4 now h (exec_start fm) fm w with
  | (EDone r, fm, w) => (r, fm, w)
  | (_, fm, w) => (Err BothFailed, fm, w)
  end.

(** [ExecuteWithFailover]: without a manager the primary is used. *)
Definition ExecuteWithFailover (now : Z) (h : health) (ofm : option FailoverManager) (w : W)
    : result exec_error unit * option FailoverManager * W :=
  match ofm with
  | Some fm => let '(r, fm, w) := Execute now h fm w in (r, Some fm, w)
  | None => let '(ok, w) := operation Primary w in (if ok then Ok tt else Err (PoolError Primary), None, w)
  end.
End execute.

(** ** The queue of copies *)

Inductive enqueue_error := ManagerStopped | SyncQueueFullError | ShuttingDown.

Inductive enqueue_result := Enqueued | Refused (e : enqueue_error) | Dropped | SendOnClosed.

(** What a blocked sender sees first. *)
Inductive wait_outcome := RoomFound | WaitTimeout | WaitCancelled.

Definition has_room (fm : FailoverManager) : bool := Zlength (syncQueue fm) <? QueueSize (AsyncSync (config fm)).

(** Sending on a closed channel panics, also from a [select]. *)
Definition send (task : SyncTask) (fm : FailoverManager) : enqueue_result * FailoverManager :=
  if closed fm then (SendOnClosed, fm) else (Enqueued, set_queue (syncQueue fm ++ [task]) fm).

Definition enqueueWithBlock (o : wait_outcome) (task : SyncTask) (fm : FailoverManager) : enqueue_result * FailoverManager :=
  match o with
  | RoomFound => send task fm
  | WaitTimeout => (Refused SyncQueueFullError, fm)
  | WaitCancelled => (Refused ShuttingDown, fm)
  end.

Definition handleQueueFull (o : wait_outcome) (task : SyncTask) (fm : FailoverManager) : enqueue_result * FailoverManager :=
  match QueueFullBehavior_ (AsyncSync (config fm)) with
  | QueueFullBlock => enqueueWithBlock o task fm
  | QueueFullReturnError => (Refused SyncQueueFullError, fm)
  | QueueFullDropAndAlert => (Dropped, fm)
  end.

(** The test of [stopped] and the send are separate accesses. *)
Definition enqueue_check (fm : FailoverManager) : bool := negb (stopped fm).

Definition enqueue_send (o : wait_outcome) (task : SyncTask) (fm : FailoverManager) : enqueue_result * FailoverManager :=
  if closed fm || has_room fm then send task fm else handleQueueFull o task fm.

Definition EnqueueSyncWithResult (o : wait_outcome) (task : SyncTask) (fm : FailoverManager) : enqueue_result * FailoverManager :=
  if enqueue_check fm then enqueue_send o task fm else (Refused ManagerStopped, fm).

(** [EnqueueSync] drops the result. *)
Definition EnqueueSync (o : wait_outcome) (task : SyncTask) (fm : FailoverManager) : FailoverManager :=
  (EnqueueSyncWithResult o task fm).2.

(** A worker takes the first task. *)
Definition take_task (fm : FailoverManager) : option (SyncTask * FailoverManager) :=
  match syncQueue fm with t :: q => Some (t, set_queue q fm) | [] => None end.

(** [Stop]: the workers end when they see the context, whatever is queued;
    then the channel is closed. *)
Definition Stop (fm : FailoverManager) : FailoverManager :=
  mkManager (config fm) (hasBackup fm) (hasRedis fm) (usingBackup fm) (lastHealthCheck fm) (syncQueue fm) true true true
    (saved fm).

(** ** Objects and the uploader *)

Record world := mkWorld { primary_objects : gmap string string; backup_objects : gmap string string; local : gmap string string }.

Definition objects (p : pool) (w : world) : gmap string string :=
  match p with Primary => primary_objects w | Backup => backup_objects w end.

Definition put (p : pool) (name data : string) (w : world) : world :=
  match p with
  | Primary => mkWorld (<[name := data]> (primary_objects w)) (backup_objects w) (local w)
  | Backup => mkWorld (primary_objects w) (<[name := data]> (backup_objects w)) (local w)
  end.

(** [FPutObject] reads the local file; [works] says whether the server takes
    it. *)
Definition FPutObject (works : bool) (name path : string) (p : pool) (w : world) : bool * world :=
  match local w !! path with
  | Some data => if works then (true, put p name data w) else (false, w)
  | None => (false, w)
  end.

(** [performSync]: up to [RetryTimes + 1] attempts on the backup pool. *)
Fixpoint sync_attempts (n : nat) (i : nat) (works : nat -> bool) (task : SyncTask) (w : world) : bool * world :=
  match n with
  | O => (false, w)
  | S n =>
      let '(ok, w) := FPutObject (works i) (ObjectName task) (FilePath task) Backup w in
      if ok then (true, w) else sync_attempts n (S i) works task w
  end.

Definition performSync (works : nat -> bool) (task : SyncTask) (fm : FailoverManager) (w : world) : bool * world :=
  if negb (hasBackup fm) then (false, w)
  else sync_attempts (Z.to_nat (RetryTimes (AsyncSync (config fm)) + 1)) 0 works task w.

(** The upload of a flushed file: put with failover, queue the copy; on return
    the caller removes the local file. *)
Definition upload (now : Z) (h : health) (works : pool -> bool) (o : wait_outcome) (name path : string)
    (fm : FailoverManager) (w : world) : result exec_error unit * FailoverManager * world :=
  let '(r, fm, w) := Execute (fun p => FPutObject (works p) name path p) now h fm w in
  match r with
  | Ok _ => (Ok tt, EnqueueSync o (mkTask name path) fm, w)
  | Err e => (Err e, fm, w)
  end.

Definition remove_local (path : string) (w : world) : world :=
  mkWorld (primary_objects w) (backup_objects w) (delete path (local w)).

(** ** What callers of [Execute] get *)

Section contract.
Context {W : Type} (operation : pool -> W -> bool * W).

Lemma switch_using now h fm ok fm' :
  switchToBackup now h fm = (ok, fm') -> ok = true -> usingBackup fm' = true.
Proof.
  unfold switchToBackup, saveStateToRedis. intros H ->. case_all; simplify_eq/=; done.
Qed.

(** With nobody in between, [Execute] runs the operation on the active
    pool; a failure on the primary is retried on the backup exactly if there
    is a healthy one, which stays active then; the manager is left alone
    otherwise, and the caller learns of every failure that was not made up
    for. *)
Theorem execute_contract now h fm (w : W) :
  let '(ok1, w1) := operation (GetActivePool fm) w in
  match Execute operation now h fm w with
  | (r, fm', w') =>
      if ok1 then r = Ok tt /\ fm' = fm /\ w' = w1
      else if usingBackup fm || negb (hasBackup fm) || negb (backup_ok h)
      then r = Err (PoolError (GetActivePool fm)) /\ fm' = fm /\ w' = w1
      else usingBackup fm' = true /\ w' = (operation Backup w1).2 /\
           r = (if (operation Backup w1).1 then Ok tt else Err BothFailed)
  end.
Proof.
  unfold Execute, exec_start. cbn [exec_run exec_step]. destruct (operation (GetActivePool fm) w) as [ok1 w1] eqn:E1.
  destruct ok1; cbn [exec_run exec_step]; [done|].
  destruct (usingBackup fm) eqn:Eu; cbn [exec_run exec_step orb]; [done|].
  destruct (switchToBackup now h fm) as [ok fm'] eqn:ES.
  pose proof ES as ES'. unfold switchToBackup in ES'. rewrite Eu in ES'.
  destruct (hasBackup fm); cbn [negb orb] in *; [|by simplify_eq]. destruct (backup_ok h); cbn [negb] in *; [|by simplify_eq].
  injection ES' as <- Efm. pose proof (switch_using _ _ _ _ _ ES eq_refl) as Hu.
  cbn [exec_run exec_step]. assert (GetActivePool fm' = Backup) as -> by (unfold GetActivePool; by rewrite Hu).
  by destruct (operation Backup w1) as [[] w2].
Qed.

(** ** Back to the primary *)

(** What happens to a manager: operations, and health checks. *)
Inductive event := Operate (now : Z) (h : health) | Check (now : Z) (h : health).

Definition react (s : FailoverManager * W) (e : event) : FailoverManager * W :=
  match e with
  | Operate now h => let '(_, fm, w) := Execute operation now h s.1 s.2 in (fm, w)
  | Check now h => (checkAndRecover now h s.1, s.2)
  end.

Definition primary_healthy (e : event) : bool := match e with Operate _ h | Check _ h => primary_ok h end.

Lemma recover_primary now h fm : primary_ok h = true -> usingBackup (checkAndRecover now h fm) = false.
Proof.
  intros Hh. unfold checkAndRecover. cbn. destruct (usingBackup fm) eqn:E; cbn; [|done]. rewrite Hh. cbn.
  unfold saveStateToRedis. by destruct (_ && _).
Qed.

(** Whatever happened before, once the primary works again one health
    check brings the node back to it, and it stays there for as long as the
    primary works: no operation runs on the backup any more. *)
Theorem failover_recovers fm w now h es :
  primary_ok h = true -> Forall (fun e => primary_healthy e = true) es ->
  (forall w, (operation Primary w).1 = true) ->
  let '(fm', w') := foldl react (react (fm, w) (Check now h)) es in
  GetActivePool fm' = Primary /\
  w' = foldl (fun w e => match e with Operate _ _ => (operation Primary w).2 | Check _ _ => w end) w es.
Proof.
  intros Hh Hes Hop. cbn [react fst snd]. pose proof (recover_primary now h fm Hh) as Hu.
  set (fm1 := checkAndRecover now h fm) in *. clearbody fm1. revert fm1 w Hu.
  induction es as [|e es IH]; intros fm1 w Hu; cbn [foldl].
  { split; [|done]. unfold GetActivePool. by rewrite Hu. }
  inversion Hes as [|? ? He Hes']; subst. destruct e as [t h'|t h']; cbn [react fst snd].
  - pose proof (execute_contract t h' fm1 w) as Hc. unfold GetActivePool in Hc. rewrite Hu in Hc.
    pose proof (Hop w) as Ho. destruct (operation Primary w) as [ok1 w1]. cbn in Ho. subst ok1.
    destruct (Execute operation t h' fm1 w) as [[r fm2] w2]. destruct Hc as (_ & -> & ->). cbn [snd]. by apply IH.
  - apply IH; [done|]. by apply recover_primary.
Qed.
End contract.

(** ** The queue *)

Inductive queue_step (fm : FailoverManager) : FailoverManager -> list SyncTask -> list SyncTask -> Prop :=
  | q_enqueue o task r fm' : (o = RoomFound -> has_room fm = true) ->
      EnqueueSyncWithResult o task fm = (r, fm') -> r <> SendOnClosed ->
      queue_step fm fm' (match r with Enqueued => [task] | _ => [] end) []
  | q_take task fm' : take_task fm = Some (task, fm') -> queue_step fm fm' [] [task]
  | q_stop : queue_step fm (Stop fm) [] [].

Inductive queue_run : FailoverManager -> FailoverManager -> list SyncTask -> list SyncTask -> Prop :=
  | qr_done fm : queue_run fm fm [] []
  | qr_more fm fm1 fm2 a t a' t' : queue_step fm fm1 a t -> queue_run fm1 fm2 a' t' -> queue_run fm fm2 (a ++ a') (t ++ t').

(** What a step does to the queue and its bound. *)
Lemma queue_step_ok fm fm' a t :
  queue_step fm fm' a t -> Zlength (syncQueue fm) <= QueueSize (AsyncSync (config fm)) ->
  config fm' = config fm /\ syncQueue fm ++ a = t ++ syncQueue fm' /\
  Zlength (syncQueue fm') <= QueueSize (AsyncSync (config fm')).
Proof.
  intros H Hb. destruct H as [o task r fm' Ho HE Hr|task fm' HT|].
  - assert (forall q, send task fm = q -> q.1 <> SendOnClosed ->
      config q.2 = config fm /\ syncQueue q.2 = syncQueue fm ++ [task] /\ q.1 = Enqueued) as Hsend.
    { intros q <-. unfold send. by destruct (closed fm). }
    assert (fm' = fm /\ r <> Enqueued \/ config fm' = config fm /\ syncQueue fm' = syncQueue fm ++ [task] /\ r = Enqueued /\ has_room fm = true)
      as [[-> Hne]|(Ec & Eq & -> & Hroom)].
    { unfold EnqueueSyncWithResult in HE. destruct (enqueue_check fm); [|left; simplify_eq; split; done]. unfold enqueue_send in HE.
      destruct (closed fm) eqn:Ecl; [unfold send in HE; rewrite Ecl in HE; cbn in HE; by injection HE as <- _|]. cbn [orb] in HE.
      destruct (has_room fm) eqn:Er; [right; destruct (Hsend _ HE Hr) as (? & ? & ?); done|].
      unfold handleQueueFull, enqueueWithBlock in HE.
      destruct (QueueFullBehavior_ _); [destruct o; [by specialize (Ho eq_refl)|..]|..]; left; simplify_eq; split; done. }
    + split; [done|]. split; [|done]. destruct r; try done; by rewrite app_nil_r.
    + split; [done|]. rewrite Eq. split; [done|]. unfold has_room in Hroom. b2p. rewrite Ec, length_app. cbn. lia.
  - unfold take_task in HT. destruct (syncQueue fm) as [|x q] eqn:E; [done|]. simplify_eq. cbn in *.
    rewrite app_nil_r. split_and!; [done|done|lia].
  - by rewrite app_nil_r.
Qed.

(** The queue never exceeds its size, and the accepted copies are, in
    order, those handed to the workers followed by those still queued. *)
Theorem sync_queue_fifo fm fm' accepted taken :
  queue_run fm fm' accepted taken -> syncQueue fm = [] -> 0 <= QueueSize (AsyncSync (config fm)) ->
  accepted = taken ++ syncQueue fm' /\ Zlength (syncQueue fm') <= QueueSize (AsyncSync (config fm)).
Proof.
  intros H E0 Hq.
  assert (syncQueue fm ++ accepted = taken ++ syncQueue fm' /\ config fm' = config fm /\
          Zlength (syncQueue fm') <= QueueSize (AsyncSync (config fm'))) as (E & Ec & Hl).
  { assert (Zlength (syncQueue fm) <= QueueSize (AsyncSync (config fm))) as Hb by (by rewrite E0).
    clear E0 Hq. induction H as [fm|fm fm1 fm2 a t a' t' Hs _ IH]; [by rewrite app_nil_r|].
    destruct (queue_step_ok _ _ _ _ Hs Hb) as (Ec & E & Hl). destruct (IH Hl) as (E' & Ec' & Hl').
    split_and!; [|by rewrite Ec', Ec|done]. by rewrite app_assoc, E, <- app_assoc, E', app_assoc. }
  rewrite E0 in E. rewrite <- Ec. done.
Qed.

(** ** What does not reach its place *)

(** The copy of a flushed file is queued by its local name, which is
    removed when the flush returns: a worker that takes the task afterwards
    finds no file, whatever the backup would have done, and the object is not
    in the backup. *)
Theorem queued_copy_finds_no_file now h works o name path fm w fm' w' works' :
  usingBackup fm = false -> backup_objects w !! name = None -> works Primary = true ->
  upload now h works o name path fm w = (Ok tt, fm', w') ->
  performSync works' (mkTask name path) fm' (remove_local path w') = (false, remove_local path w') /\
  backup_objects (remove_local path w') !! name = None.
Proof.
  intros Hu Hn Hp HU. assert (backup_objects w' = backup_objects w) as Hb.
  { unfold upload in HU. pose proof (execute_contract (fun p => FPutObject (works p) name path p) now h fm w) as Hc.
    unfold GetActivePool in Hc. rewrite Hu in Hc. unfold FPutObject at 1 in Hc. rewrite Hp in Hc.
    destruct (local w !! path) as [data|] eqn:El.
    - destruct (Execute _ now h fm w) as [[r fm1] w1]. destruct Hc as (-> & -> & ->). by simplify_eq.
    - unfold FPutObject in Hc, HU. destruct (Execute _ now h fm w) as [[r fm1] w1]. cbn [fst snd] in Hc. rewrite El in Hc.
      destruct (_ || _); [destruct Hc as (-> & _ & _)|destruct Hc as (_ & _ & ->)]; done. }
  split; [|cbn; by rewrite Hb]. unfold performSync. destruct (negb (hasBackup fm')); [done|].
  generalize 0%nat. induction (Z.to_nat _) as [|n IH]; intros i; [done|]. cbn [sync_attempts].
  unfold FPutObject at 1. cbn [FilePath local remove_local]. rewrite lookup_delete_eq. apply IH.
Qed.

(** ** Runs *)

Module FailoverDemo.

Definition fm0 : FailoverManager := NewFailoverManager DefaultFailoverConfig true true None.
Definition all_up : health := mkHealth true true true.
Definition world0 : world := mkWorld ∅ ∅ {["f" := "rows"]}.

Definition count_op (p : pool) (n : Z) : bool * Z := (true, n + 1).

Lemma failover_recovers_witness :
  foldl (react count_op) (react count_op (set_using true fm0, 0) (Check 5 all_up)) [Operate 6 all_up] =
    (checkAndRecover 5 all_up (set_using true fm0), 1) /\
  GetActivePool (checkAndRecover 5 all_up (set_using true fm0)) = Primary.
Proof.
  pose proof (failover_recovers count_op (set_using true fm0) 0 5 all_up [Operate 6 all_up] eq_refl
    ltac:(repeat constructor) (fun _ => eq_refl)) as H.
  split; [reflexivity|]. exact (proj1 H).
Defined.

Lemma sync_queue_fifo_witness :
  syncQueue (EnqueueSync RoomFound (mkTask "o" "f") fm0) = [mkTask "o" "f"] /\
  [mkTask "o" "f"] = [] ++ syncQueue (EnqueueSync RoomFound (mkTask "o" "f") fm0).
Proof.
  split; [reflexivity|].
  apply (sync_queue_fifo fm0 (EnqueueSync RoomFound (mkTask "o" "f") fm0) [mkTask "o" "f"] []);
    [|reflexivity|vm_compute; discriminate].
  apply (qr_more fm0 (EnqueueSync RoomFound (mkTask "o" "f") fm0) _ [mkTask "o" "f"] [] [] []); [|constructor].
  apply (q_enqueue fm0 RoomFound (mkTask "o" "f") Enqueued); [reflexivity|reflexivity|discriminate].
Defined.

Definition uploaded := upload 0 all_up (fun _ => true) RoomFound "o" "f" fm0 world0.

Lemma queued_copy_finds_no_file_witness :
  primary_objects uploaded.2 !! "o" = Some "rows" /\ backup_objects (remove_local "f" uploaded.2) !! "o" = None.
Proof.
  split; [reflexivity|].
  apply (queued_copy_finds_no_file 0 all_up (fun _ => true) RoomFound "o" "f" fm0 world0 uploaded.1.2 uploaded.2 (fun _ => true));
    reflexivity.
Defined.

(** What was uploaded while the backup was active is not at the primary
    when the node has switched back; and of two operations that fail on the
    primary together, only the first is retried on the backup. *)
Theorem failover_gaps :
  (let h := mkHealth false true true in
   let '(r, fm, w) := upload 0 h (fun p => bool_decide (p = Backup)) RoomFound "o" "f" fm0 world0 in
   let fm := checkAndRecover 10 all_up fm in
   r = Ok tt /\ objects Backup w !! "o" = Some "rows" /\ GetActivePool fm = Primary /\ objects Primary w !! "o" = None) /\
  (let op := fun (p : pool) (n : Z) => (bool_decide (p = Backup), n) in
   let h := mkHealth false true true in
   let a := exec_start fm0 in
   let b := exec_start fm0 in
   let '(a, fm, w) := exec_step op 0 h a fm0 0 in      (* A fails on the primary *)
   let '(b, fm, w) := exec_step op 0 h b fm w in       (* so does B *)
   let '(a, fm, w) := exec_run op 3 0 h a fm w in      (* A switches and retries *)
   let '(b, fm, w) := exec_step op 0 h b fm w in
   a = EDone (Ok tt) /\ b = EDone (Err (PoolError Primary)) /\ GetActivePool fm = Backup).
Proof. by vm_compute. Qed.

(** A caller that passed the test of [stopped] before [Stop] closed the
    channel sends on a closed channel. *)
Lemma stop_races_with_enqueue :
  enqueue_check fm0 = true /\ (enqueue_send RoomFound (mkTask "o" "f") (Stop fm0)).1 = SendOnClosed.
Proof. done. Qed.

(** Tasks that are queued when the manager stops stay there. *)
Lemma stop_leaves_tasks :
  syncQueue (Stop (EnqueueSync RoomFound (mkTask "o" "f") fm0)) = [mkTask "o" "f"].
Proof. done. Qed.

(** After a restart within five minutes the saved choice is used. *)
Lemma restart_keeps_choice :
  usingBackup (loadStateFromRedis 100 true
    (NewFailoverManager DefaultFailoverConfig true true (saved (switchToBackup 0 all_up fm0).2))) = true.
Proof. done. Qed.
End FailoverDemo.
