(* ===== verification/SqlSanitizer.v ===== *)
(** * SQL quoting and name validation (internal/security/sql_sanitizer.go, pkg/validator/validator.go)

    Both packages quote identifiers and literals and validate names. Strings
    are bytes; the loop over runes in the control-character filter is spelled
    out with Go's UTF-8 decoding. A reference reader of quoted SQL tokens says
    what quoting has to achieve. *)

From S2P Require Import Prelude GoStrings FieldMapping.
From Stdlib Require Import Ascii.
#[local] Open Scope Z_scope.

(** [strings.ReplaceAll(s, q, qq)] for a one-byte quote. *)
Fixpoint double (q : ascii) (s : string) : string :=
  match s with
  | "" => ""
  | String c s' => if bool_decide (c = q) then String c (String c (double q s')) else String c (double q s')
  end.

Definition dquote : ascii := "034".
Definition squote : ascii := "039".

Definition enclose (q : ascii) (s : string) : string := String q (s +:+ String q "").

(** [QuoteIdentifier], the same in both packages. *)
Definition QuoteIdentifier (identifier : string) : string := enclose dquote (double dquote identifier).

(** [unicode.IsControl] of the rune at the front of the string, and what
    [WriteRune] writes for it: its bytes, or U+FFFD for an invalid encoding. *)
Definition is_control (s : string) : bool :=
  match s with
  | "" => false
  | String c s' =>
      in_range 0 31 c || in_range 127 127 c ||
      (Nat.eqb (rune_width s) 2 && in_range 194 194 c &&
       match s' with String c1 _ => in_range 128 159 c1 | "" => false end)
  end.

Definition kept_control (s : string) : bool :=
  match s with
  | "" => false
  | String c _ => in_range 10 10 c || in_range 13 13 c || in_range 9 9 c
  end.

Definition replacement : string := String "239" (String "191" (String "189" "")).

Fixpoint take_bytes (n : nat) (s : string) : string :=
  match n, s with
  | S n, String c s' => String c (take_bytes n s')
  | _, _ => ""
  end.

Definition rune_bytes (s : string) : string :=
  match s with
  | "" => ""
  | String c _ => if Nat.eqb (rune_width s) 1 && in_range 128 255 c then replacement
                  else take_bytes (rune_width s) s
  end.

(** [sanitizeControlChars] and [SanitizeString]: rune by rune; [skip] counts
    the bytes of the current rune still to be passed over. *)
Fixpoint strip_controls (skip : nat) (s : string) : string :=
  match s with
  | "" => ""
  | String c s' =>
      match skip with
      | S k => strip_controls k s'
      | O => (if is_control s && negb (kept_control s) then "" else rune_bytes s) +:+
             strip_controls (rune_width s - 1) s'
      end
  end.

Definition sanitizeControlChars (s : string) : string := strip_controls 0 s.
Definition SanitizeString (s : string) : string := strip_controls 0 s.

(** [SQLSanitizer.QuoteLiteral] doubles the quotes, then drops controls;
    [Validator.QuoteLiteral] does it in the other order. *)
Definition QuoteLiteral (literal : string) : string :=
  enclose squote (sanitizeControlChars (double squote literal)).

Definition Validator_QuoteLiteral (literal : string) : string :=
  enclose squote (double squote (SanitizeString literal)).

(** ** Names *)

Definition is_letter (c : ascii) : bool := in_range 97 122 c || in_range 65 90 c.
Definition name_char (c : ascii) : bool := is_letter c || in_range 48 57 c || bool_decide (c = "_"%char).
Definition id_char (c : ascii) : bool := name_char c || bool_decide (c = "-"%char).

(** [tableNameRegex] and [idRegex]. *)
Definition tableNameRegex (s : string) : bool :=
  match s with "" => false | String c s' => is_letter c && all_chars name_char s' end.
Definition idRegex (s : string) : bool :=
  match s with "" => false | _ => all_chars id_char s end.

Definition sql_keywords : list string := [
  "select"; "from"; "where"; "and"; "or"; "insert"; "into"; "values"; "update"; "set";
  "delete"; "drop"; "create"; "table"; "index"; "alter"; "add"; "column"; "truncate"; "grant";
  "revoke"; "union"; "join"; "left"; "right"; "inner"; "outer"; "on"; "group"; "by";
  "order"; "having"; "limit"; "offset"; "as"; "distinct"; "count"; "sum"; "avg"; "max";
  "min"; "null"; "not"; "in"; "exists"; "between"; "like"; "is"; "case"; "when";
  "then"; "else"; "end"; "primary"; "key"; "foreign"; "references"; "constraint"; "unique";
  "view"; "database"; "schema"; "use"; "exec"; "execute"; "procedure"; "function"; "trigger"].

Definition isSQLKeyword (word : string) : bool := bool_decide (ToLower word ∈ sql_keywords).

Inductive name_error := NameEmpty | NameTooLong | NameFormat | NameKeyword.

Definition ValidateTableName (tableName : string) : result name_error unit :=
  if bool_decide (tableName = "") then Err NameEmpty else
  if (128 <? String.length tableName)%nat then Err NameTooLong else
  if negb (tableNameRegex tableName) then Err NameFormat else
  if isSQLKeyword tableName then Err NameKeyword else Ok tt.

Definition ValidateID (id : string) : result name_error unit :=
  if bool_decide (id = "") then Err NameEmpty else
  if (255 <? String.length id)%nat then Err NameTooLong else
  if negb (idRegex id) then Err NameFormat else Ok tt.

(** ** Statements *)

Inductive build_error := InvalidTable (e : name_error) | InvalidID (e : name_error) | InvalidColumn (e : name_error).

Definition BuildSafeDeleteSQL (tableName id : string) : result build_error string :=
  match ValidateTableName tableName with
  | Err e => Err (InvalidTable e)
  | Ok _ =>
      match ValidateID id with
      | Err e => Err (InvalidID e)
      | Ok _ => Ok ("DELETE FROM " +:+ QuoteIdentifier tableName +:+ " WHERE id = " +:+ QuoteLiteral id)
      end
  end.

Definition BuildSafeDeleteEmptyIDSQL (tableName : string) : result build_error string :=
  match ValidateTableName tableName with
  | Err e => Err (InvalidTable e)
  | Ok _ => Ok ("DELETE FROM " +:+ QuoteIdentifier tableName +:+ " WHERE id = '' OR id IS NULL")
  end.

Fixpoint quote_columns (columns : list string) : result build_error (list string) :=
  match columns with
  | [] => Ok []
  | col :: columns =>
      match ValidateTableName col with
      | Err e => Err (InvalidColumn e)
      | Ok _ => (let! qs := quote_columns columns in Ok (QuoteIdentifier col :: qs))%go
      end
  end.

(** [upper_trim] is [strings.TrimSpace(strings.ToUpper(_))], which follows
    Unicode's tables. *)
Definition BuildSafeSelectSQL (upper_trim : string -> string) (tableName : string) (columns : list string) (whereClause suffix : string)
    : result build_error string :=
  match ValidateTableName tableName with
  | Err e => Err (InvalidTable e)
  | Ok _ =>
      (let! columnList :=
         match columns with
         | [] => Ok "*"
         | _ => if bool_decide (columns = ["*"]) then Ok "*"
                else let! qs := quote_columns columns in Ok (Join ", " qs)
         end in
       Ok ("SELECT " +:+ columnList +:+ " FROM " +:+ QuoteIdentifier tableName +:+
           (if bool_decide (whereClause = "") then "" else " WHERE " +:+ whereClause) +:+
           (if bool_decide (suffix = "") then ""
            else if bool_decide (upper_trim suffix = "LIMIT 0") then " LIMIT 0" else "")))%go
  end.

Definition BuildSafeDropViewSQL (viewName : string) : result build_error string :=
  match ValidateTableName viewName with
  | Err e => Err (InvalidTable e)
  | Ok _ => Ok ("DROP VIEW IF EXISTS " +:+ QuoteIdentifier viewName)
  end.

Definition BuildSafeCreateViewSQL (viewName : string) (filePaths : list string) : result build_error string :=
  match ValidateTableName viewName with
  | Err e => Err (InvalidTable e)
  | Ok _ => Ok ("CREATE VIEW " +:+ QuoteIdentifier viewName +:+ " AS SELECT * FROM read_parquet([" +:+
                Join ", " (QuoteLiteral <$> filePaths) +:+ "], union_by_name=true)")
  end.

(** ** Reading quoted tokens

    How SQL reads a token that starts with a quote: a doubled quote stands for
    one, a single quote ends the token. *)

Fixpoint read_body (q : ascii) (s : string) : option (string * string) :=
  match s with
  | "" => None
  | String c s' =>
      if bool_decide (c = q) then
        match s' with
        | String c2 s2 =>
            if bool_decide (c2 = q) then
              match read_body q s2 with Some (t, rest) => Some (String q t, rest) | None => None end
            else Some ("", s')
        | "" => Some ("", s')
        end
      else match read_body q s' with Some (t, rest) => Some (String c t, rest) | None => None end
  end.

Definition read_quoted (q : ascii) (s : string) : option (string * string) :=
  match s with
  | String c s' => if bool_decide (c = q) then read_body q s' else None
  | "" => None
  end.

(** The text behind a token does not go on with the quote. *)
Definition token_ends (q : ascii) (rest : string) : bool :=
  match rest with String c _ => negb (bool_decide (c = q)) | "" => true end.

Lemma read_body_double q s rest :
  token_ends q rest = true -> read_body q (double q s +:+ String q rest) = Some (s, rest).
Proof.
  intros Hr. induction s as [|c s IH]; simpl.
  - rewrite bool_decide_true by done. destruct rest as [|c2 rest]; [done|]. simpl in Hr.
    apply negb_true_iff in Hr. by rewrite Hr.
  - destruct (decide (c = q)) as [->|Hc].
    + rewrite (bool_decide_true (q = q)) by done. rewrite !string_cons_app. simpl.
      rewrite !(bool_decide_true (q = q)) by done. by rewrite IH.
    + rewrite (bool_decide_false (c = q)) by done. rewrite string_cons_app. simpl.
      rewrite (bool_decide_false (c = q)) by done. by rewrite IH.
Qed.

Lemma read_quoted_enclose q s rest :
  token_ends q rest = true -> read_quoted q (enclose q (double q s) +:+ rest) = Some (s, rest).
Proof.
  intros Hr. unfold enclose. rewrite string_cons_app. simpl. rewrite bool_decide_true by done.
  rewrite <- string_app_assoc. by apply read_body_double.
Qed.

(** ** The two ways of quoting a literal agree *)

Lemma double_cons_ne q c s : c <> q -> double q (String c s) = String c (double q s).
Proof. intros H. simpl. by rewrite bool_decide_false. Qed.

Lemma double_cons_eq q s : double q (String q s) = String q (String q (double q s)).
Proof. simpl. by rewrite bool_decide_true. Qed.

Lemma double_app q a b : double q (a +:+ b) = double q a +:+ double q b.
Proof.
  induction a as [|c a IH]; [done|]. rewrite string_cons_app. destruct (decide (c = q)) as [->|Hc].
  - by rewrite !double_cons_eq, IH.
  - by rewrite !double_cons_ne, IH.
Qed.

Lemma double_id q s : has_char q s = false -> double q s = s.
Proof.
  induction s as [|c s IH]; simpl; [done|]. intros [Hc Hs]%orb_false_iff. rewrite Hc. by rewrite IH.
Qed.

(** A byte of a multi-byte rune is not a quote. *)
Lemma cont_not_quote c : in_range 128 191 c = true -> c <> squote.
Proof. intros H ->. vm_compute in H. done. Qed.

Lemma second_not_quote c0 c1 : second_ok c0 c1 = true -> c1 <> squote.
Proof.
  unfold second_ok. intros H ->. revert H. repeat case_match; vm_compute; done.
Qed.

Lemma second_quote c0 : second_ok c0 squote = false.
Proof. destruct (second_ok c0 squote) eqn:E; [|done]. by apply second_not_quote in E. Qed.

(** A rune is one byte, or a lead byte and continuation bytes. *)
Inductive rune_shape : string -> Prop :=
  | shape_1 s : rune_width s = 1%nat -> rune_shape s
  | shape_2 c0 c1 s : rune_width (String c0 (String c1 s)) = 2%nat -> c1 <> squote ->
      rune_shape (String c0 (String c1 s))
  | shape_3 c0 c1 c2 s : rune_width (String c0 (String c1 (String c2 s))) = 3%nat ->
      c1 <> squote -> c2 <> squote -> rune_shape (String c0 (String c1 (String c2 s)))
  | shape_4 c0 c1 c2 c3 s : rune_width (String c0 (String c1 (String c2 (String c3 s)))) = 4%nat ->
      c1 <> squote -> c2 <> squote -> c3 <> squote ->
      rune_shape (String c0 (String c1 (String c2 (String c3 s)))).

Lemma rune_shapes s : rune_shape s.
Proof.
  destruct s as [|c0 [|c1 s2]]; [by apply shape_1..|].
  destruct (in_range 194 223 c0 && second_ok c0 c1) eqn:E2.
  { apply andb_true_iff in E2 as [E0 E1]. apply shape_2; [|by eapply second_not_quote].
    simpl. by rewrite E0, E1. }
  destruct s2 as [|c2 s3]; [apply shape_1; simpl; by rewrite E2|].
  destruct (in_range 224 239 c0 && second_ok c0 c1 && in_range 128 191 c2) eqn:E3.
  { pose proof E3 as [[E0 E1]%andb_true_iff Ec]%andb_true_iff.
    apply shape_3; [|by eapply second_not_quote|by apply cont_not_quote]. simpl. by rewrite E2, E3. }
  destruct s3 as [|c3 s4]; [apply shape_1; simpl; by rewrite E2, E3|].
  destruct (in_range 240 244 c0 && second_ok c0 c1 && in_range 128 191 c2 && in_range 128 191 c3) eqn:E4.
  - pose proof E4 as [[[E0 E1]%andb_true_iff Ec]%andb_true_iff Ed]%andb_true_iff.
    apply shape_4; [|by eapply second_not_quote|by apply cont_not_quote..]. simpl. by rewrite E2, E3, E4.
  - apply shape_1. simpl. by rewrite E2, E3, E4.
Qed.

(** Doubling quotes behind the first byte does not change its rune. *)
Lemma rune_width_double c s : rune_width (String c (double squote s)) = rune_width (String c s).
Proof.
  assert (in_range 128 191 squote = false) as Hq by done.
  destruct s as [|c1 s2]; [done|]. destruct (decide (c1 = squote)) as [->|H1].
  { rewrite double_cons_eq. simpl. rewrite second_quote, !andb_false_r. simpl.
    destruct (double squote s2), s2 as [|? [|]]; done. }
  rewrite double_cons_ne by done. destruct s2 as [|c2 s3]; [done|].
  destruct (decide (c2 = squote)) as [->|H2].
  { rewrite double_cons_eq. simpl. rewrite Hq, !andb_false_r. simpl. by destruct s3. }
  rewrite double_cons_ne by done. destruct s3 as [|c3 s4]; [done|].
  destruct (decide (c3 = squote)) as [->|H3].
  { rewrite double_cons_eq. simpl. by rewrite Hq, !andb_false_r. }
  by rewrite double_cons_ne.
Qed.

Lemma is_control_double c s : is_control (String c (double squote s)) = is_control (String c s).
Proof.
  cbn [is_control]. rewrite rune_width_double. destruct s as [|c1 s2]; [done|].
  destruct (decide (c1 = squote)) as [->|H1]; [by rewrite double_cons_eq|by rewrite double_cons_ne].
Qed.

(** The bytes written for a rune contain no quote, unless it is the quote. *)
Lemma rune_bytes_double c s :
  c <> squote ->
  rune_bytes (String c (double squote s)) = rune_bytes (String c s) /\
  double squote (rune_bytes (String c s)) = rune_bytes (String c s).
Proof.
  intros Hc. cbn [rune_bytes]. rewrite rune_width_double.
  destruct (Nat.eqb (rune_width (String c s)) 1 && in_range 128 255 c) eqn:E; [done|].
  pose proof (rune_shapes (String c s)) as Hs.
  inversion Hs as [s' Hw|c0 c1 s' Hw H1|c0 c1 c2 s' Hw H1 H2|c0 c1 c2 c3 s' Hw H1 H2 H3]; subst; rewrite Hw.
  - simpl. by rewrite bool_decide_false.
  - rewrite double_cons_ne by done. simpl. by rewrite !bool_decide_false by done.
  - rewrite !double_cons_ne by done. simpl. by rewrite !bool_decide_false by done.
  - rewrite !double_cons_ne by done. simpl. by rewrite !bool_decide_false by done.
Qed.

Lemma strip_step c s :
  strip_controls 0 (String c s) =
  (if is_control (String c s) && negb (kept_control (String c s)) then "" else rune_bytes (String c s)) +:+
  strip_controls (rune_width (String c s) - 1) s.
Proof. done. Qed.

Lemma strip_double s : strip_controls 0 (double squote s) = double squote (strip_controls 0 s).
Proof.
  remember (String.length s) as n eqn:Hn. assert (String.length s <= n)%nat as Hle by lia. clear Hn.
  revert s Hle. induction n as [|n IH]; intros s Hle.
  { destruct s; [done|]. simpl in Hle. lia. }
  destruct s as [|c s]; [done|]. simpl in Hle.
  destruct (decide (c = squote)) as [->|Hc].
  - rewrite double_cons_eq.
    assert (forall t, strip_controls 0 (String squote t) = String squote (strip_controls 0 t)) as Hq.
    { intros t. rewrite strip_step. assert (rune_width (String squote t) = 1%nat) as Hw.
      { destruct t as [|c1 [|c2 [|c3 t]]]; done. }
      cbn [is_control rune_bytes]. rewrite Hw. done. }
    rewrite !Hq, double_cons_eq, IH by lia. done.
  - rewrite double_cons_ne by done. rewrite !strip_step, is_control_double, rune_width_double.
    change (kept_control (String c (double squote s))) with (kept_control (String c s)).
    destruct (rune_bytes_double c s Hc) as [-> Hd].
    rewrite double_app.
    assert (double squote (if is_control (String c s) && negb (kept_control (String c s)) then ""
              else rune_bytes (String c s)) =
            (if is_control (String c s) && negb (kept_control (String c s)) then ""
             else rune_bytes (String c s))) as -> by (by destruct (_ && _)).
    f_equal.
    pose proof (rune_shapes (String c s)) as Hs.
    inversion Hs as [s' Hw|c0 c1 s' Hw H1|c0 c1 c2 s' Hw H1 H2|c0 c1 c2 c3 s' Hw H1 H2 H3]; subst; rewrite Hw.
    + apply IH. lia.
    + rewrite double_cons_ne by done. simpl. apply IH. simpl in Hle. lia.
    + rewrite !double_cons_ne by done. simpl. apply IH. simpl in Hle. lia.
    + rewrite !double_cons_ne by done. simpl. apply IH. simpl in Hle. lia.
Qed.

(** ** Theorems *)

(** C38: quoting is injection-safe. Whatever bytes an identifier or a literal
    consists of, the quoted form is read back by SQL as one token that ends
    exactly where the quoting ends: the identifier unchanged, the literal
    without its control characters; and the two packages quote literals
    identically although they filter and double in different orders. *)
Theorem quoting_reads_back s rest :
  (token_ends dquote rest = true ->
   read_quoted dquote (QuoteIdentifier s +:+ rest) = Some (s, rest)) /\
  (token_ends squote rest = true ->
   read_quoted squote (QuoteLiteral s +:+ rest) = Some (sanitizeControlChars s, rest)) /\
  QuoteLiteral s = Validator_QuoteLiteral s.
Proof.
  assert (QuoteLiteral s = Validator_QuoteLiteral s) as E.
  { unfold QuoteLiteral, Validator_QuoteLiteral, sanitizeControlChars, SanitizeString. by rewrite strip_double. }
  split_and!; [by apply read_quoted_enclose| |done].
  rewrite E. by apply read_quoted_enclose.
Qed.

Lemma quoting_reads_back_witness :
  read_quoted squote (QuoteLiteral "a' OR '1'='1" +:+ " LIMIT 1") = Some ("a' OR '1'='1", " LIMIT 1").
Proof. apply (quoting_reads_back "a' OR '1'='1" " LIMIT 1"). reflexivity. Defined.

Lemma name_char_no_quote c : name_char c = true -> c <> dquote.
Proof. intros H ->. vm_compute in H. done. Qed.

Lemma all_chars_no q P s : (forall c, P c = true -> c <> q) -> all_chars P s = true -> has_char q s = false.
Proof.
  intros H. induction s as [|c s IH]; simpl; [done|]. intros [Hc Hs]%andb_true_iff.
  rewrite IH by done. rewrite bool_decide_false by auto. done.
Qed.

Lemma valid_table_name t : ValidateTableName t = Ok tt -> has_char dquote t = false.
Proof.
  unfold ValidateTableName. intros H. destruct (bool_decide _); [done|]. destruct (_ <? _)%nat; [done|].
  destruct (tableNameRegex t) eqn:E; [|done]. destruct t as [|c t]; [done|]. simpl in E.
  apply andb_true_iff in E as [Hc Ht].
  apply (all_chars_no dquote name_char (String c t)); [apply name_char_no_quote|].
  simpl. rewrite Ht, andb_true_r. unfold name_char. by rewrite Hc.
Qed.

Definition plain_id (c : ascii) : bool := in_range 32 126 c && negb (bool_decide (c = squote)).

Lemma id_char_plain c : id_char c = true -> plain_id c = true.
Proof.
  pose proof (ascii_forall (fun c => implb (id_char c) (plain_id c))) as H.
  specialize (H ltac:(vm_compute; reflexivity) c). simpl in H. intros E. by rewrite E in H.
Qed.

Lemma strip_plain s : all_chars plain_id s = true -> strip_controls 0 s = s /\ double squote s = s.
Proof.
  induction s as [|c s IH]; [done|]. cbn [all_chars]. intros [Hc Hs]%andb_true_iff.
  destruct (IH Hs) as [I1 I2]. unfold plain_id in Hc. apply andb_true_iff in Hc as [Hr Hq]. b2p.
  rewrite double_cons_ne by done. split; [|by rewrite I2]. rewrite strip_step.
  assert (rune_width (String c s) = 1%nat /\ is_control (String c s) = false /\ in_range 128 255 c = false)
    as (Hw & Hk & H8).
  { unfold in_range in Hr. cbv zeta in Hr. apply andb_true_iff in Hr as [Hr1 Hr2].
    apply N.leb_le in Hr1, Hr2.
    assert (forall lo hi, (127 <= lo)%N -> in_range lo hi c = false) as Hhi.
    { intros lo hi Hlo. unfold in_range. cbv zeta. apply andb_false_iff. left. apply N.leb_gt. lia. }
    assert (in_range 0 31 c = false) as Hlo.
    { unfold in_range. cbv zeta. apply andb_false_iff. right. apply N.leb_gt. lia. }
    split_and!; [|cbn [is_control]; by rewrite Hlo, (Hhi 127%N), (Hhi 194%N), andb_false_r|by apply Hhi].
    destruct s as [|c1 [|c2 [|c3 s]]]; cbn [rune_width]; by rewrite ?(Hhi 194%N), ?(Hhi 224%N), ?(Hhi 240%N). }
  rewrite Hk. cbn [andb rune_bytes]. rewrite Hw, H8, andb_false_r. simpl. by rewrite I1.
Qed.

(** What the delete statement says. When a table name and an id pass
    validation, the statement is literally the template with the name and the
    id in quotes, with nothing escaped or dropped; otherwise no statement is
    built. *)
Theorem delete_statement_exact tableName id :
  BuildSafeDeleteSQL tableName id =
  match ValidateTableName tableName, ValidateID id with
  | Ok _, Ok _ =>
      Ok ("DELETE FROM " +:+ enclose dquote tableName +:+ " WHERE id = " +:+ enclose squote id)
  | Ok _, Err e => Err (InvalidID e)
  | Err e, _ => Err (InvalidTable e)
  end.
Proof.
  unfold BuildSafeDeleteSQL. destruct (ValidateTableName tableName) as [[]|] eqn:Et; [|done].
  destruct (ValidateID id) as [[]|] eqn:Ei; [|done].
  unfold QuoteIdentifier. rewrite (double_id dquote tableName) by (by apply valid_table_name).
  assert (QuoteLiteral id = enclose squote id) as ->; [|done].
  unfold ValidateID in Ei. destruct (bool_decide _); [done|]. destruct (_ <? _)%nat; [done|].
  destruct (idRegex id) eqn:E; [|done].
  assert (all_chars id_char id = true) as Hall by (destruct id; [done|exact E]).
  destruct (strip_plain id) as [H1 H2]; [by apply (all_chars_impl id_char), Hall; apply id_char_plain|].
  unfold QuoteLiteral, sanitizeControlChars. by rewrite H2, H1.
Qed.
