(* ===== verification/SelectQuery.v ===== *)
(** * Statements from outside (internal/security/sql_sanitizer.go, pkg/validator/validator.go)

    [ValidateSelectQuery] lets a statement through or names the reason why
    not; it works on a normalised copy of the text, with the regular
    expressions of [GoRegexp]. The theorem speaks of the original text (no
    forbidden word in any spelling, no comment, no second statement) and of
    the start of the normalised one. The e-mail and URL checks of the validator are here too. *)

From S2P Require Import Prelude GoStrings GoRegexp.
From Stdlib Require Import Ascii.
#[local] Open Scope Z_scope.

(** ** The regular expressions *)

Inductive query_error :=
  | QueryEmpty | QueryTooLong | OnlySelect | NoUnion | NoExec | NoExtended | NoComments | OneStatement | NotSelect.

Definition write_words : list string :=
  ["drop"; "alter"; "truncate"; "create"; "insert"; "update"; "delete"].

Definition dangerousRegexes : list (regex * query_error) := [
  (seq [WordB; Group 1 (alts (ilit <$> write_words)); WordB], OnlySelect);
  (seq [WordB; ilit "union"; WordB], NoUnion);
  (seq [WordB; ilit "exec"; opt (Group 1 (ilit "ute")); WordB], NoExec);
  (seq [WordB; ilit "xp_"], NoExtended)].

Definition commentPatterns : list regex := [lit "--"; lit "/*"; lit "#"].

Definition nonblank (c : ascii) : bool := negb (is_blank c).

Definition multiStatementRegex : regex := seq [lit ";"; star blank; Cls nonblank].

Definition whitespaceNormalizeRegex : regex := plus blank.

Definition selectStartRegex : regex :=
  seq [Begin; star blank;
       Group 1 (Alt (ilit "select")
                    (seq [ilit "with"; plus blank; plus (Alt iword (chr "_")); plus blank;
                          ilit "as"; star blank; lit "("]))].

Definition normalizeWhitespace (str : string) : string :=
  ReplaceAll whitespaceNormalizeRegex (fun _ => " ") str.

(** The first dangerous pattern that matches. *)
Fixpoint first_danger (ds : list (regex * query_error)) (s : string) : option query_error :=
  match ds with
  | [] => None
  | (re, message) :: ds => if MatchString re s then Some message else first_danger ds s
  end.

Section validate.
(** [strings.ToLower] on arbitrary text. *)
Context (toLower : string -> string).

Definition normalizedSQL (sql : string) : string := normalizeWhitespace (toLower (TrimSpace sql)).

Definition ValidateSelectQuery (sql : string) : result query_error unit :=
  if bool_decide (sql = "") then Err QueryEmpty else
  if (10000 <? Z.of_nat (String.length sql)) then Err QueryTooLong else
  let normalized := normalizedSQL sql in
  match first_danger dangerousRegexes normalized with
  | Some e => Err e
  | None =>
      if existsb (fun cp => MatchString cp normalized) commentPatterns then Err NoComments else
      if MatchString multiStatementRegex normalized then Err OneStatement else
      if negb (MatchString selectStartRegex normalized) then Err NotSelect else
      Ok tt
  end.
End validate.

(** ** E-mail addresses and URLs *)

Inductive format_error := FieldEmpty | InvalidFormat.

Definition class_of (chars : string) (c : ascii) : bool :=
  has_char c chars || match N_of_ascii c with n => ((65 <=? n) && (n <=? 90) || (97 <=? n) && (n <=? 122))%N end.

Definition letter : regex := Cls (class_of "").

Definition emailRegex : regex :=
  seq [Begin; plus (Cls (class_of "0123456789._%+-")); lit "@"; plus (Cls (class_of "0123456789.-")); lit ".";
       letter; letter; star letter; End_].

Definition urlRegex : regex :=
  seq [Begin; lit "http"; opt (lit "s"); lit "://"; plus (Cls (class_of "0123456789.-"));
       opt (Group 1 (seq [lit ":"; plus digit])); opt (Group 2 (seq [lit "/"; star dot])); End_].

Definition ValidateEmail (email : string) : result format_error unit :=
  if bool_decide (email = "") then Err FieldEmpty else
  if negb (MatchString emailRegex email) then Err InvalidFormat else Ok tt.

Definition ValidateURL (url : string) : result format_error unit :=
  if bool_decide (url = "") then Err FieldEmpty else
  if negb (MatchString urlRegex url) then Err InvalidFormat else Ok tt.

Example email_ok : ValidateEmail "ops@example.com" = Ok tt /\ ValidateEmail "ops@example" = Err InvalidFormat.
Proof. by vm_compute. Qed.
Example url_ok : ValidateURL "https://a.b:80/x?y" = Ok tt /\ ValidateURL "ftp://a" = Err InvalidFormat.
Proof. by vm_compute. Qed.
Example select_ok :
  ValidateSelectQuery ToLower "SELECT a FROM t WHERE dropped = 1;" = Ok tt /\
  ValidateSelectQuery ToLower "SELECT 1; DROP TABLE t" = Err OnlySelect /\
  ValidateSelectQuery ToLower " select 1 -- x" = Err NoComments /\
  ValidateSelectQuery ToLower "select 1; select 2" = Err OneStatement /\
  ValidateSelectQuery ToLower "with x as (select 1) select * from x" = Ok tt /\
  ValidateSelectQuery ToLower "explain select 1" = Err NotSelect.
Proof. by vm_compute. Qed.

(** ** What is looked for, in the original text *)

Definition is_ascii (c : ascii) : bool := (N_of_ascii c <? 128)%N.

(** An ASCII character that is not white space. *)
Definition solid (c : ascii) : bool :=
  let n := N_of_ascii c in is_ascii c && negb (((9 <=? n) && (n <=? 13) || (n =? 32))%N).

Definition first_of (s : string) : option ascii := match s with String c _ => Some c | "" => None end.

(** The end of the text, or an ASCII character that is no word character. *)
Definition separator (o : option ascii) : bool :=
  match o with Some c => is_ascii c && negb (is_word c) | None => true end.

(** A word in some mix of cases, set off on both sides. *)
Definition occurs_word (word sql : string) : Prop :=
  exists pre w suf, sql = pre +:+ w +:+ suf /\ ToLower w = word /\
    separator (last_of None pre) = true /\ separator (first_of suf) = true.

Definition occurs (text sql : string) : Prop := exists pre suf, sql = pre +:+ text +:+ suf.

(** A semicolon with something behind it. *)
Definition second_statement (sql : string) : Prop :=
  exists pre mid c suf, sql = pre +:+ ";" +:+ mid +:+ String c suf /\ solid c = true.

(** A prefix of a word, in some mix of cases. *)
Definition occurs_prefix (text sql : string) : Prop :=
  exists pre w suf, sql = pre +:+ w +:+ suf /\ ToLower w = text /\ separator (last_of None pre) = true.

(** How [(?i)] lets a word be spelled: each letter in either case, and also as
    a long s or a Kelvin sign. *)
Inductive spelling : string -> string -> Prop :=
  | spell_nil : spelling "" ""
  | spell_letter c x w t : lower_char x = c -> spelling w t -> spelling (String c w) (String x t)
  | spell_long_s w t : spelling w t -> spelling (String "s" w) (bytes [197; 191]%N +:+ t)
  | spell_kelvin w t : spelling w t -> spelling (String "k" w) (bytes [226; 132; 170]%N +:+ t).

Definition name_byte (c : ascii) : bool := is_word c || negb (is_ascii c).

(** The start of a text: the word SELECT, or WITH, a name, AS and a
    parenthesis, behind any blanks. *)
Definition starts_query (text : string) : Prop :=
  exists b t suf, text = b +:+ t +:+ suf /\ all_chars is_blank b = true /\
    (spelling "select" t \/
     exists w b1 n b2 a b3, t = w +:+ b1 +:+ n +:+ b2 +:+ a +:+ b3 +:+ "(" /\ spelling "with" w /\ spelling "as" a /\
       b1 <> "" /\ b2 <> "" /\ n <> "" /\ all_chars is_blank (b1 +:+ b2 +:+ b3) = true /\ all_chars name_byte n = true).

(** What a case mapping does to ASCII text inside any text. *)
Class CaseMap (toLower : string -> string) : Prop := {
  lower_nil : toLower "" = "";
  lower_ascii a w b :
    w <> "" -> all_chars is_ascii w = true ->
    toLower (a +:+ w +:+ b) = toLower a +:+ ToLower w +:+ toLower b;
}.

(** ** Trimming keeps what is not white space *)

Definition ws_byte (c : ascii) : bool := negb (solid c).

Lemma first_prefix_app ws s r : first_prefix ws s = Some r -> exists p, p ∈ ws /\ s = p +:+ r.
Proof.
  induction ws as [|p ws IH]; cbn; [done|]. destruct (cut_prefix p s) eqn:E.
  - intros [= ->]. exists p. split; [by left|by apply cut_prefix_Some].
  - intros (q & Hq & ->)%IH. exists q. split; [by right|done].
Qed.

Lemma app_solid p r pre c t :
  all_chars ws_byte p = true -> solid c = true -> pre +:+ String c t = p +:+ r ->
  exists pre', pre = p +:+ pre' /\ r = pre' +:+ String c t.
Proof.
  revert pre. induction p as [|d p IH]; intros pre Hp Hc E; [by exists pre|].
  cbn in Hp. apply andb_true_iff in Hp as [Hd Hp].
  destruct pre as [|x pre].
  - change (String c t = String d (p +:+ r)) in E. injection E as <- _. unfold ws_byte in Hd. by rewrite Hc in Hd.
  - change (String x (pre +:+ String c t) = String d (p +:+ r)) in E. injection E as -> E.
    destruct (IH _ Hp Hc E) as (pre' & -> & ->). by exists pre'.
Qed.

Lemma trim_left_keeps n ws pre c t :
  Forall (fun p => all_chars ws_byte p = true) ws -> solid c = true ->
  exists cutoff pre', pre = cutoff +:+ pre' /\ trim_left n ws (pre +:+ String c t) = pre' +:+ String c t.
Proof.
  intros Hws Hc. revert pre. induction n as [|n IH]; intros pre; [by exists "", pre|].
  cbn. destruct (first_prefix ws (pre +:+ String c t)) as [r|] eqn:E; [|by exists "", pre].
  apply first_prefix_app in E as (p & Hp & E). rewrite Forall_forall in Hws.
  destruct (app_solid p r pre c t (Hws _ Hp) Hc E) as (pre1 & -> & ->).
  destruct (IH pre1) as (cutoff & pre' & -> & ->). exists (p +:+ cutoff), pre'.
  by rewrite string_app_assoc.
Qed.

(** A solid piece survives, with a suffix of what is before it and a prefix
    of what is behind. *)
Lemma TrimSpace_keeps pre w c w1 d w2 suf :
  w = String c w1 -> w = w2 +:+ String d "" -> solid c = true -> solid d = true ->
  exists a pre' suf' b, pre = a +:+ pre' /\ suf = suf' +:+ b /\
    TrimSpace (pre +:+ w +:+ suf) = pre' +:+ w +:+ suf'.
Proof.
  intros E1 E2 Hc Hd. unfold TrimSpace.
  assert (w +:+ suf = String c (w1 +:+ suf)) as -> by by rewrite E1.
  destruct (trim_left_keeps (String.length (pre +:+ String c (w1 +:+ suf))) white_space
              pre c (w1 +:+ suf)) as (a & pre' & -> & ->); [by repeat constructor|done|].
  set (n := String.length (pre' +:+ _)). set (ws := (fun w => string_rev w "") <$> white_space).
  assert (pre' +:+ String c (w1 +:+ suf) = (pre' +:+ w2) +:+ String d suf) as ->.
  { change (String c (w1 +:+ suf)) with (String c w1 +:+ suf). rewrite <- E1, E2.
    by rewrite <- !string_app_assoc. }
  rewrite string_rev_app.
  replace (string_rev (String d suf) "") with (string_rev suf "" +:+ String d "")
    by (cbn; by rewrite (string_rev_acc suf (String d ""))).
  rewrite <- string_app_assoc. change (String d "" +:+ ?x) with (String d x).
  destruct (trim_left_keeps n ws (string_rev suf "") d (string_rev (pre' +:+ w2) ""))
    as (b & s & Hs & ->); [by repeat constructor|done|].
  exists a, pre', (string_rev s ""), (string_rev b ""). split; [done|]. split.
  - by rewrite <- string_rev_app, <- Hs, string_rev_involutive.
  - rewrite string_rev_app. cbn [string_rev]. rewrite string_rev_acc, string_rev_involutive.
    rewrite E2. by rewrite <- !string_app_assoc.
Qed.

(** ** Squeezing keeps words and their surroundings *)

Definition word_byte (o : option ascii) : bool := match o with Some c => is_word c | None => false end.

Lemma boundary_bytes p s cs :
  boundary (mkState p s cs) = xorb (word_byte p) (word_byte (first_of s)).
Proof. by destruct p, s. Qed.

Lemma blank_no_word c : is_blank c = true -> is_word c = false.
Proof. destruct c as [[] [] [] [] [] [] [] []]; by vm_compute. Qed.

Lemma last_of_word p q s : word_byte p = word_byte q -> word_byte (last_of p s) = word_byte (last_of q s).
Proof. by destruct s. Qed.

Lemma squeeze_last b p x :
  (b = true -> word_byte p = false) -> word_byte (last_of p (squeeze b x)) = word_byte (last_of p x).
Proof.
  revert b p. induction x as [|c x IH]; intros b p Hb; [done|]. cbn.
  destruct (is_blank c) eqn:E; cbn; [|by apply IH].
  pose proof (blank_no_word c E) as Hc. destruct b; cbn.
  - rewrite IH by done. apply last_of_word. cbn. by rewrite Hc, Hb.
  - rewrite IH by done. apply last_of_word. cbn. by rewrite Hc.
Qed.

Lemma squeeze_first y : word_byte (first_of (squeeze false y)) = word_byte (first_of y).
Proof. 
  destruct y as [|c y]; [done|]. cbn [squeeze]. destruct (is_blank c) eqn:E; [|done].
  cbn [first_of word_byte]. by rewrite (blank_no_word c E).
Qed.

Lemma squeeze_cons b c y : nonblank c = true -> squeeze b (String c y) = String c (squeeze false y).
Proof. unfold nonblank. intros Hc%negb_true_iff. cbn [squeeze]. by rewrite Hc. Qed.

(** A piece without blanks is kept. *)
Lemma squeeze_piece b x u y :
  u <> "" -> all_chars nonblank u = true ->
  squeeze b (x +:+ u +:+ y) = squeeze b x +:+ u +:+ squeeze false y.
Proof.
  intros Hu Hn. revert b. induction x as [|c x IH]; intros b.
  - change (squeeze b (u +:+ y) = u +:+ squeeze false y). clear - Hu Hn. revert b Hu.
    induction u as [|c u IH]; intros b Hu; [done|]. cbn in Hn. apply andb_true_iff in Hn as [Hc Hn].
    rewrite !string_cons_app, squeeze_cons by done. f_equal.
    destruct u as [|d u]; [done|]. by apply IH.
  - rewrite string_cons_app. cbn [squeeze]. destruct (is_blank c); [destruct b|]; by rewrite IH.
Qed.

Lemma ToLower_app a b : ToLower (a +:+ b) = ToLower a +:+ ToLower b.
Proof. induction a as [|c a IH]; [done|]. exact (f_equal (String _) IH). Qed.

Lemma lower_char_idemp c : lower_char (lower_char c) = lower_char c.
Proof. destruct c as [[] [] [] [] [] [] [] []]; by vm_compute. Qed.

Lemma ToLower_idemp s : ToLower (ToLower s) = ToLower s.
Proof. induction s as [|c s IH]; [done|]. cbn. rewrite lower_char_idemp. by f_equal. Qed.

Lemma lower_separator c : separator (Some c) = true -> lower_char c = c.
Proof. destruct c as [[] [] [] [] [] [] [] []]; by vm_compute. Qed.

Lemma separator_no_word o : separator o = true -> word_byte o = false.
Proof. destruct o as [c|]; [|done]. cbn. intros [_ ?]%andb_true_iff. by apply negb_true_iff. Qed.

Lemma lower_nonblank c : solid c = true -> nonblank (lower_char c) = true.
Proof. destruct c as [[] [] [] [] [] [] [] []]; by vm_compute. Qed.

Lemma solid_ascii c : solid c = true -> is_ascii c = true.
Proof. unfold solid. by intros [? _]%andb_true_iff. Qed.

Lemma all_solid_lower w : all_chars solid w = true -> all_chars nonblank (ToLower w) = true.
Proof.
  induction w as [|c w IH]; [done|]. cbn. intros [Hc Hw]%andb_true_iff.
  rewrite (lower_nonblank _ Hc). by apply IH.
Qed.

Lemma last_of_snoc p s : s = "" \/ exists s' c, s = s' +:+ String c "" /\ last_of p s = Some c.
Proof.
  revert p. induction s as [|c s IH]; intros p; [by left|right]. cbn.
  destruct (IH (Some c)) as [->|(s' & d & -> & Hd)]; [by exists "", c|]. by exists (String c s'), d.
Qed.

(** A suffix ends as the whole, unless it is empty. *)
Lemma last_of_suffix a s : s = "" \/ last_of None (a +:+ s) = last_of None s.
Proof. destruct s as [|c s]; [by left|right]. by rewrite last_of_app. Qed.

Lemma lower_word_solid w : all_chars is_word (ToLower w) = true -> all_chars solid w = true.
Proof.
  induction w as [|c w IH]; [done|]. cbn [ToLower map_string all_chars]. intros [Hc Hw]%andb_true_iff.
  apply andb_true_iff. split; [|by apply IH]. clear -Hc. revert Hc.
  destruct c as [[] [] [] [] [] [] [] []]; by vm_compute.
Qed.

Lemma last_of_words p w : w <> "" -> all_chars is_word w = true -> word_byte (last_of p w) = true.
Proof.
  revert p. induction w as [|c w IH]; intros p Hne Hw; [done|]. cbn in Hw.
  apply andb_true_iff in Hw as [Hc Hw]. destruct w as [|d w]; [done|]. by apply (IH (Some c)).
Qed.

(** ** What the start of a statement matches *)

Lemma chr_class c s s' : Matches (chr c) s s' -> rest s = String c "" +:+ rest s'.
Proof. intros H. inversion H as [|? x ? ? ? Hx| | | | | | | | |]; subst. apply bool_decide_eq_true in Hx. by subst. Qed.

Lemma lit_class bs s s' : Matches (lit bs) s s' -> rest s = bs +:+ rest s'.
Proof.
  revert s. induction bs as [|x bs IH]; intros s H; [by inversion H|].
  destruct bs as [|y bs]; [by apply chr_class|]. cbn [lit] in H. inversion H as [| |? ? ? s1 ? H1 H2| | | | | | | |]; subst.
  by rewrite (chr_class _ _ _ H1), (IH _ H2).
Qed.

Lemma fold_spelling c st st' : Matches (fold c) st st' ->
  exists t, rest st = t +:+ rest st' /\ forall w u, spelling w u -> spelling (String c w) (t +:+ u).
Proof.
  assert (forall st st', Matches (Cls (fun x => bool_decide (lower_char x = c))) st st' ->
    exists t, rest st = t +:+ rest st' /\ forall w u, spelling w u -> spelling (String c w) (t +:+ u)) as Hboth.
  { intros s s' H. inversion H as [|? x ? ? ? Hx| | | | | | | | |]; subst. exists (String x ""). split; [done|].
    intros w u Hu. apply bool_decide_eq_true in Hx. by apply spell_letter. }
  unfold fold. destruct (decide (c = "s"%char)) as [->|Hs]; [|destruct (decide (c = "k"%char)) as [->|Hk]].
  - intros H. cbn in H. inversion H as [| | |? ? ? ? H1|? ? ? ? H1| | | | | |]; subst; [by apply Hboth|].
    exists (bytes [197; 191]%N). split; [exact (lit_class (bytes [197; 191]%N) _ _ H1)|]. intros w u. apply spell_long_s.
  - intros H. cbn in H. inversion H as [| | |? ? ? ? H1|? ? ? ? H1| | | | | |]; subst; [by apply Hboth|].
    exists (bytes [226; 132; 170]%N). split; [exact (lit_class (bytes [226; 132; 170]%N) _ _ H1)|]. intros w u. apply spell_kelvin.
  - destruct c as [[] [] [] [] [] [] [] []]; try done; apply Hboth.
Qed.

Lemma ilit_spelling w st st' : Matches (ilit w) st st' -> exists t, rest st = t +:+ rest st' /\ spelling w t.
Proof.
  revert st. induction w as [|c w IH]; intros st H.
  - inversion H; subst. exists "". split; [done|constructor].
  - destruct w as [|d w].
    + apply fold_spelling in H as (t & Ht & Hs). exists t. split; [done|].
      rewrite <- (string_app_nil_r t). apply Hs. constructor.
    + cbn [ilit] in H. inversion H as [| |? ? ? s1 ? H1 H2| | | | | | | |]; subst.
      apply fold_spelling in H1 as (t & Ht & Hs). destruct (IH _ H2) as (u & Hu & Hsp).
      exists (t +:+ u). rewrite Ht, Hu, string_app_assoc. auto.
Qed.

(** A repetition of pieces of a class is a text of the class. *)
Lemma star_class P g r st st' :
  (forall s s', Matches r s s' -> exists t, rest s = t +:+ rest s' /\ all_chars P t = true) ->
  Matches (Star g r) st st' -> exists t, rest st = t +:+ rest st' /\ all_chars P t = true.
Proof.
  intros Hr H. remember (Star g r) as R eqn:E. induction H as [| | | | | |g' a s1 s2 s3 H1 _ Hlt H2 IH2| | | |]; simplify_eq.
  - by exists "".
  - apply Hr in H1 as (t1 & E1 & P1). destruct (IH2 eq_refl) as (t2 & E2 & P2). exists (t1 +:+ t2).
    rewrite E1, E2, string_app_assoc, all_chars_app, P1, P2. done.
Qed.

Lemma plus_class P r st st' :
  (forall s s', Matches r s s' -> exists t, rest s = t +:+ rest s' /\ t <> "" /\ all_chars P t = true) ->
  Matches (plus r) st st' -> exists t, rest st = t +:+ rest st' /\ t <> "" /\ all_chars P t = true.
Proof.
  intros Hr H. inversion H as [| |? ? ? s1 ? H1 H2| | | | | | | |]; subst. apply Hr in H1 as (t1 & E1 & N1 & P1).
  apply (star_class P) in H2 as (t2 & E2 & P2); [|intros s s' (t & ? & _ & ?)%Hr; by exists t].
  exists (t1 +:+ t2). rewrite E1, E2, string_app_assoc, all_chars_app, P1, P2. split_and!; [done| |done].
  by destruct t1.
Qed.

Lemma blank_class s s' : Matches blank s s' -> exists t, rest s = t +:+ rest s' /\ t <> "" /\ all_chars is_blank t = true.
Proof.
  intros H. inversion H as [|? c ? ? ? Hc| | | | | | | | |]; subst. exists (String c ""). cbn. by rewrite Hc.
Qed.

Lemma name_class s s' : Matches (Alt iword (chr "_")) s s' ->
  exists t, rest s = t +:+ rest s' /\ t <> "" /\ all_chars name_byte t = true.
Proof.
  intros H. inversion H as [| | |? ? ? ? Hi|? ? ? ? Hc| | | | | |]; subst; [|apply chr_class in Hc; by exists "_"].
  inversion Hi as [| | |? ? ? ? Hw|? ? ? ? Ho| | | | | |]; subst.
  - inversion Hw as [|? c ? ? ? Hc| | | | | | | | |]; subst. exists (String c ""). cbn. unfold name_byte. by rewrite Hc.
  - inversion Ho as [| | |? ? ? ? Hl|? ? ? ? Hl| | | | | |]; subst.
    + exists (bytes [197; 191]%N). split; [exact (lit_class (bytes [197; 191]%N) _ _ Hl)|done].
    + exists (bytes [226; 132; 170]%N). split; [exact (lit_class (bytes [226; 132; 170]%N) _ _ Hl)|done].
Qed.

Lemma seq_inv a b s s' : Matches (Cat a b) s s' -> exists s1, Matches a s s1 /\ Matches b s1 s'.
Proof. intros H. inversion H; subst. eauto. Qed.
Lemma alt_inv a b s s' : Matches (Alt a b) s s' -> Matches a s s' \/ Matches b s s'.
Proof. intros H. inversion H; subst; auto. Qed.
Lemma group_inv n a s s' : Matches (Group n a) s s' -> exists s1, Matches a s s1 /\ rest s' = rest s1.
Proof. intros H. inversion H; subst. eauto. Qed.
Lemma begin_inv p t cs s' : Matches Begin (mkState p t cs) s' -> p = None /\ rest s' = t.
Proof. intros H. inversion H; subst. auto. Qed.
Lemma blanks_class s s' : Matches (star blank) s s' -> exists t, rest s = t +:+ rest s' /\ all_chars is_blank t = true.
Proof. apply star_class. intros u u' (t & ? & _ & ?)%blank_class. by exists t. Qed.

Lemma select_start text : MatchString selectStartRegex text = true -> starts_query text.
Proof.
  intros (pre & suf & st' & -> & H)%MatchString_iff. unfold selectStartRegex in H.
  apply seq_inv in H as (s1 & [Hp E1]%begin_inv & H). destruct pre as [|c pre]; [|by destruct (last_of_cons None c pre)].
  apply seq_inv in H as (s2 & (b & E2 & Pb)%blanks_class & H). apply group_inv in H as (s3 & H & _).
  exists b. change ("" +:+ suf) with suf. rewrite <- E1, E2.
  apply alt_inv in H as [(t & E3 & Ht)%ilit_spelling|H]; [exists t, (rest s3); rewrite <- E3; auto|].
  apply seq_inv in H as (u1 & (w & F1 & Hw)%ilit_spelling & H).
  apply seq_inv in H as (u2 & (b1 & F2 & N1 & P1)%(plus_class is_blank _ _ _ blank_class) & H).
  apply seq_inv in H as (u3 & (n & F3 & N2 & P2)%(plus_class name_byte _ _ _ name_class) & H).
  apply seq_inv in H as (u4 & (b2 & F4 & N3 & P3)%(plus_class is_blank _ _ _ blank_class) & H).
  apply seq_inv in H as (u5 & (a & F5 & Ha)%ilit_spelling & H).
  apply seq_inv in H as (u6 & (b3 & F6 & P4)%blanks_class & H). apply lit_class in H.
  exists (w +:+ b1 +:+ n +:+ b2 +:+ a +:+ b3 +:+ "("), (rest s3).
  split; [by rewrite F1, F2, F3, F4, F5, F6, H, <- !string_app_assoc|]. split; [done|]. right.
  exists w, b1, n, b2, a, b3. by rewrite !all_chars_app, P1, P3, P4.
Qed.

Section safety.
Context (toLower : string -> string) `{!CaseMap toLower}.

Lemma nil_low : toLower "" = "".
Proof. apply lower_nil. Qed.
Lemma ascii_low a w b :
  w <> "" -> all_chars is_ascii w = true -> toLower (a +:+ w +:+ b) = toLower a +:+ ToLower w +:+ toLower b.
Proof. apply lower_ascii. Qed.

Lemma lower_last p s :
  separator (last_of p s) = true -> s <> "" -> word_byte (last_of p (toLower s)) = false.
Proof.
  intros Hs Hne. destruct (last_of_snoc p s) as [->|(s' & c & -> & Hc)]; [done|].
  rewrite Hc in Hs. replace (s' +:+ String c "") with (s' +:+ String c "" +:+ "") by done.
  rewrite ascii_low; [|done|cbn; cbn in Hs; by rewrite andb_true_r; apply andb_true_iff in Hs as [? _]].
  rewrite nil_low, string_app_nil_r, last_of_app. cbn. rewrite lower_separator by done.
  by apply (separator_no_word (Some c)).
Qed.

Lemma lower_first s : separator (first_of s) = true -> word_byte (first_of (toLower s)) = false.
Proof.
  destruct s as [|c s]; [by rewrite nil_low|]. intros Hc. cbn in Hc.
  change (String c s) with ("" +:+ String c "" +:+ s).
  rewrite ascii_low; [|done|by cbn; rewrite andb_true_r; apply andb_true_iff in Hc as [? _]].
  rewrite nil_low. cbn. rewrite lower_separator by done. by apply (separator_no_word (Some c)).
Qed.

Lemma all_solid_ascii w : all_chars solid w = true -> all_chars is_ascii w = true.
Proof. apply all_chars_impl, solid_ascii. Qed.

(** A solid piece of the statement is a piece of the normalised text. *)
Lemma normalized_piece pre w suf :
  w <> "" -> all_chars solid w = true ->
  exists x y, normalizedSQL toLower (pre +:+ w +:+ suf) = x +:+ ToLower w +:+ y /\
    (separator (last_of None pre) = true -> word_byte (last_of None x) = false) /\
    (separator (first_of suf) = true -> word_byte (first_of y) = false).
Proof.
  intros Hw Hsolid.
  destruct w as [|c w1] eqn:Ew; [done|]. rewrite <- Ew in *.
  destruct (last_of_snoc None w) as [->|(w2 & d & E2 & _)]; [done|].
  assert (solid c = true /\ solid d = true) as [Hc Hd].
  { split; [rewrite Ew in Hsolid|rewrite E2, all_chars_app in Hsolid];
      apply andb_true_iff in Hsolid as [H1 H2]; [done|]. cbn in H2. by rewrite andb_true_r in H2. }
  destruct (TrimSpace_keeps pre w c w1 d w2 suf Ew E2 Hc Hd) as (a & pre' & suf' & b & -> & -> & Ht).
  unfold normalizedSQL, normalizeWhitespace, whitespaceNormalizeRegex.
  rewrite ReplaceAll_blanks, Ht, ascii_low by (done || by apply all_solid_ascii).
  rewrite squeeze_piece; [|by rewrite Ew|by apply all_solid_lower].
  eexists _, _. split; [done|]. split.
  - intros Hs. rewrite squeeze_last by done.
    destruct (decide (pre' = "")) as [->|Hp]; [by rewrite nil_low|].
    apply lower_last; [|done]. by destruct (last_of_suffix a pre') as [?|<-].
  - intros Hs. rewrite squeeze_first. apply lower_first. by destruct suf'.
Qed.

(** A word is set off in the normalised text as in the original. *)
Lemma normalized_word word sql :
  word <> "" -> all_chars is_word word = true -> occurs_word word sql ->
  exists x y, normalizedSQL toLower sql = x +:+ word +:+ y /\
    word_byte (last_of None x) = false /\ word_byte (first_of y) = false.
Proof.
  intros Hne Hword (pre & w & suf & -> & <- & Hp & Hs).
  destruct (normalized_piece pre w suf) as (x & y & -> & Hx & Hy);
    [by intros ->|by apply lower_word_solid|]. exists x, y. auto.
Qed.

Lemma first_danger_None ds s re e : first_danger ds s = None -> (re, e) ∈ ds -> MatchString re s = false.
Proof.
  intros H Hin. induction ds as [|[re' e'] ds IH]; [by apply elem_of_nil in Hin|]. cbn in H.
  destruct (MatchString re' s) eqn:E; [done|].
  apply elem_of_cons in Hin as [[= -> ->]|Hin]; auto.
Qed.

(** A word with both boundaries. *)
Lemma bounded_matches r x word y :
  word <> "" -> all_chars is_word word = true ->
  word_byte (last_of None x) = false -> word_byte (first_of y) = false ->
  (forall p cs, exists cs', Matches r (mkState p (word +:+ y) cs) (mkState (last_of p word) y cs')) ->
  MatchString (seq [WordB; r; WordB]) (x +:+ word +:+ y) = true.
Proof.
  intros Hne Hw Hx Hy Hr. destruct (Hr (last_of None x) []) as [cs' Hm].
  eapply MatchString_at. cbn [seq]. econstructor; [|econstructor; [exact Hm|]]; constructor;
    rewrite boundary_bytes.
  - rewrite Hx. destruct word as [|c word]; [done|]. cbn [all_chars] in Hw.
    apply andb_true_iff in Hw as [Hc _]. rewrite string_cons_app. cbn [first_of word_byte]. by rewrite Hc.
  - by rewrite Hy, last_of_words.
Qed.

Lemma MatchString_assoc a b s :
  MatchString (seq [WordB; Cat a b; WordB]) s = true -> MatchString (seq [WordB; a; b; WordB]) s = true.
Proof.
  rewrite !MatchString_iff. intros (pre & suf & st & E & H). exists pre, suf, st. split; [done|]. cbn [seq] in *.
  repeat match goal with H : Matches (Cat _ _) _ _ |- _ => inversion H; clear H; subst end. eauto with miniodb.
Qed.

Definition forbidden_words : list string := write_words ++ ["union"; "exec"; "execute"].
Definition comment_marks : list string := ["--"; "/*"; "#"].

Lemma forbidden_shape word : word ∈ forbidden_words -> word <> "" /\ all_chars is_word word = true /\ ToLower word = word.
Proof.
  assert (Forall (fun word => word <> "" /\ all_chars is_word word = true /\ ToLower word = word) forbidden_words)
    as H by (repeat constructor; done).
  rewrite Forall_forall in H. apply H.
Qed.

(** Every forbidden word, set off, is caught by one of the patterns. *)
Lemma forbidden_caught word x y :
  word ∈ forbidden_words -> word_byte (last_of None x) = false -> word_byte (first_of y) = false ->
  first_danger dangerousRegexes (x +:+ word +:+ y) <> None.
Proof.
  intros Hin Hx Hy Hn. destruct (forbidden_shape word Hin) as (Hne & Hw & Hl).
  assert (forall r e, (seq [WordB; r; WordB], e) ∈ dangerousRegexes ->
    (forall p cs, exists cs', Matches r (mkState p (word +:+ y) cs) (mkState (last_of p word) y cs')) -> False) as Hd.
  { intros r e Hre Hr. pose proof (first_danger_None _ _ _ _ Hn Hre) as Hf.
    by rewrite bounded_matches in Hf. }
  unfold forbidden_words in Hin. apply elem_of_app in Hin as [Hin|Hin].
  { eapply (Hd (Group 1 (alts (ilit <$> write_words))) OnlySelect); [by left|].
    intros p cs. eexists.
    eapply M_group with (st' := mkState (last_of p word) y cs).
    eapply alts_matches; [by apply list_elem_of_fmap_2|]. by apply ilit_matches. }
  apply elem_of_cons in Hin as [->|Hin].
  { eapply (Hd (ilit "union") NoUnion); [by right; left|]. intros p cs. exists cs. by apply ilit_matches. }
  pose proof (first_danger_None _ _ _ NoExec Hn (ltac:(by right; right; left))) as Hf.
  rewrite MatchString_assoc in Hf; [done|]. apply bounded_matches; try done. intros p cs.
  apply elem_of_cons in Hin as [->|Hin].
  - exists cs. eapply M_cat; [by apply (ilit_matches "exec" "exec")|]. apply M_right. constructor.
  - apply list_elem_of_singleton in Hin as ->. eexists.
    eapply M_cat; [by apply (ilit_matches "exec" "exec" p ("ute" +:+ y))|]. apply M_left.
    eapply M_group with (st' := mkState (last_of (last_of p "exec") "ute") y cs). by apply ilit_matches.
Qed.

Lemma comment_shape mark :
  mark ∈ comment_marks -> mark <> "" /\ all_chars solid mark = true /\ ToLower mark = mark.
Proof.
  assert (Forall (fun mark => mark <> "" /\ all_chars solid mark = true /\ ToLower mark = mark) comment_marks)
    as H by (repeat constructor; done).
  rewrite Forall_forall in H. apply H.
Qed.

Lemma comment_caught mark x y :
  mark ∈ comment_marks -> existsb (fun cp => MatchString cp (x +:+ mark +:+ y)) commentPatterns = true.
Proof.
  intros Hin. apply existsb_exists. exists (lit mark). split.
  - unfold comment_marks in Hin. unfold commentPatterns.
    rewrite !elem_of_cons, elem_of_nil in Hin. destruct_or! Hin; subst; simpl; auto; done.
  - eapply MatchString_at, lit_matches.
Qed.

Lemma statement_caught x z c y :
  nonblank c = true -> MatchString multiStatementRegex (x +:+ ";" +:+ z +:+ String c y) = true.
Proof.
  intros Hc. destruct (span is_blank (z +:+ String c y)).2 as [|d r] eqn:E.
  { apply span_all in E. rewrite all_chars_app in E. apply andb_true_iff in E as [_ E]. cbn [all_chars] in E.
    unfold nonblank in Hc. apply negb_true_iff in Hc. by rewrite Hc in E. }
  eapply MatchString_at. unfold multiStatementRegex. cbn [seq]. econstructor; [apply lit_matches|].
  econstructor; [apply star_matches|]. rewrite E. constructor. unfold nonblank. by rewrite (span_next _ _ _ _ E).
Qed.

Lemma normalized_statement pre mid c suf :
  solid c = true ->
  exists x z y, normalizedSQL toLower (pre +:+ ";" +:+ mid +:+ String c suf) =
    x +:+ ";" +:+ z +:+ String (lower_char c) y.
Proof.
  intros Hc. set (w := ";" +:+ mid +:+ String c "").
  destruct (TrimSpace_keeps pre w ";" (mid +:+ String c "") c (";" +:+ mid) suf) as
    (a & pre' & suf' & b & -> & -> & Ht); try done.
  assert (forall s, w +:+ s = ";" +:+ mid +:+ String c s) as Hw by (intros s; unfold w; by rewrite <- !string_app_assoc).
  rewrite !Hw in Ht. unfold normalizedSQL, normalizeWhitespace, whitespaceNormalizeRegex.
  rewrite ReplaceAll_blanks, Ht, ascii_low by done.
  change (String c suf') with (String c "" +:+ suf').
  rewrite ascii_low by (done || (cbn; by rewrite solid_ascii)).
  rewrite squeeze_piece by done. eexists _, _, _.
  rewrite squeeze_piece; [reflexivity|done|]. apply (all_solid_lower (String c "")). cbn [all_chars]. by rewrite Hc.
Qed.

(** The prefix of the stored procedures, at the start of a word. *)
Lemma extended_caught x y :
  word_byte (last_of None x) = false -> first_danger dangerousRegexes (x +:+ "xp_" +:+ y) <> None.
Proof.
  intros Hx Hn. pose proof (first_danger_None _ _ _ NoExtended Hn (ltac:(by right; right; right; left))) as Hf.
  assert (MatchString (seq [WordB; ilit "xp_"]) (x +:+ "xp_" +:+ y) = true) as Ht; [|by rewrite Ht in Hf].
  eapply MatchString_at. cbn [seq]. econstructor; [|by apply (ilit_matches "xp_" "xp_")].
  constructor. by rewrite boundary_bytes, Hx.
Qed.

(** C37: a statement that [ValidateSelectQuery] lets through holds none of the
    forbidden words (DROP, ALTER, TRUNCATE, CREATE, INSERT, UPDATE, DELETE,
    UNION, EXEC, EXECUTE) in any mix of cases, set off by ASCII characters or
    the ends of the text, no word that starts with XP_, no comment mark,
    nothing solid behind a semicolon, at most 10000 bytes; and its normalised
    text starts with SELECT or with WITH, a name, AS and a parenthesis, in any
    spelling that [(?i)] allows. The case mapping is any that acts on ASCII
    text as it should. *)
Theorem select_query_safe sql :
  ValidateSelectQuery toLower sql = Ok tt ->
  (forall word, word ∈ forbidden_words -> ~ occurs_word word sql) /\ ~ occurs_prefix "xp_" sql /\
  (forall mark, mark ∈ comment_marks -> ~ occurs mark sql) /\
  ~ second_statement sql /\ Z.of_nat (String.length sql) <= 10000 /\
  starts_query (normalizedSQL toLower sql).
Proof using CaseMap0.
  unfold ValidateSelectQuery. case_bool_decide; [done|]. destruct (10000 <? _) eqn:Hlen; [done|].
  destruct (first_danger _ _) eqn:Hd; [done|]. destruct (existsb _ _) eqn:Hcm; [done|].
  destruct (MatchString multiStatementRegex _) eqn:Hms; [done|].
  destruct (MatchString selectStartRegex _) eqn:Hst; [|done]. intros _. b2p.
  split_and!; [| | | |done|by apply select_start].
  - intros word Hin Ho. destruct (forbidden_shape word Hin) as (Hne & Hw & _).
    destruct (normalized_word word sql Hne Hw Ho) as (x & y & E & Hx & Hy). rewrite E in Hd.
    by apply (forbidden_caught word x y).
  - intros (pre & w & suf & -> & Hw & Hp). destruct (normalized_piece pre w suf) as (x & y & E & Hx & _).
    + by intros ->.
    + apply lower_word_solid. by rewrite Hw.
    + rewrite E, Hw in Hd. by apply (extended_caught x y (Hx Hp)).
  - intros mark Hin (pre & suf & ->).
    destruct (comment_shape mark Hin) as (Hne & Hs & Hl).
    destruct (normalized_piece pre mark suf Hne Hs) as (x & y & E & _).
    by rewrite E, Hl, comment_caught in Hcm.
  - intros (pre & mid & c & suf & -> & Hc).
    destruct (normalized_statement pre mid c suf Hc) as (x & z & y & E). rewrite E in Hms.
    rewrite statement_caught in Hms; [done|]. by apply lower_nonblank.
Qed.

End safety.

#[export] Instance ascii_case_map : CaseMap ToLower.
Proof. split; [done|]. intros a w b _ _. by rewrite !ToLower_app. Qed.

Lemma select_query_safe_witness :
  ValidateSelectQuery ToLower "SELECT dropped FROM t;" = Ok tt /\ ~ occurs_word "drop" "SELECT dropped FROM t;" /\
  starts_query "select dropped from t;".
Proof.
  destruct (select_query_safe ToLower "SELECT dropped FROM t;" ltac:(vm_compute; reflexivity)) as (H1 & _ & _ & _ & _ & H2).
  split; [vm_compute; reflexivity|]. split; [apply H1; by left|]. vm_compute in H2 |- *. exact H2.
Defined.
