(* ===== verification/TableExtractor.v ===== *)
(** * The tables of a statement (internal/query/table_extractor.go)

    The extractor finds table names with regular expressions on a cleaned-up
    copy of the statement, and classifies statements by type and complexity
    for the query cache. *)

From S2P Require Import Prelude GoStrings GoRegexp FieldMapping SqlSanitizer SelectQuery.
From Stdlib Require Import Ascii.
#[local] Open Scope Z_scope.

(** ** The regular expressions *)

Definition any_char (_ : ascii) : bool := true.

Definition reSingleLineComment : regex := seq [lit "--"; star dot; End_].
Definition reMultiLineComment : regex := seq [lit "/*"; Star false (Cls any_char); lit "*/"].
Definition reDoubleQuotedIdent : regex := seq [chr dquote; Group 1 (plus word); chr dquote].
Definition reBacktickIdent : regex := seq [chr "`"; Group 1 (plus word); chr "`"].
Definition reWhitespace : regex := plus blank.

Definition name_start (c : ascii) : bool := is_letter c || bool_decide (c = "_"%char).

Definition reTableName : regex := seq [Begin; Cls name_start; star (Cls name_char); End_].

(** [(?:(\w+\.)?(\w+))] and [(?:\s+(?:as\s+)?(\w+))?] *)
Definition table_ref : list regex := [opt (Group 1 (seq [plus iword; lit "."])); Group 2 (plus iword)].
Definition table_alias : regex :=
  opt (seq [plus blank; opt (seq [ilit "as"; plus blank]); Group 3 (plus iword)]).

Definition side (name : string) : regex :=
  seq [ilit name; plus blank; opt (seq [ilit "outer"; plus blank])].

Definition fromRegex : regex := seq ([WordB; ilit "from"; plus blank] ++ table_ref ++ [table_alias]).
Definition joinRegex : regex :=
  seq ([WordB; opt (alts [seq [ilit "inner"; plus blank]; side "left"; side "right"; side "full";
                          seq [ilit "cross"; plus blank]]); ilit "join"; plus blank] ++ table_ref ++ [table_alias]).
Definition updateRegex : regex := seq ([WordB; ilit "update"; plus blank] ++ table_ref ++ [table_alias]).
Definition insertRegex : regex := seq ([WordB; ilit "insert"; plus blank; ilit "into"; plus blank] ++ table_ref).
Definition deleteRegex : regex :=
  seq ([WordB; ilit "delete"; plus blank; ilit "from"; plus blank] ++ table_ref ++ [table_alias]).
Definition subqueryRegex : regex :=
  seq [lit "("; star blank; ilit "select"; plus blank; Star false dot; WordB; ilit "from"; plus blank;
       Group 1 (plus iword)].

(** ** Extraction *)

Definition cleanSQL (sql : string) : string :=
  let sql := ReplaceAll reSingleLineComment (fun _ => "") sql in
  let sql := ReplaceAll reMultiLineComment (fun _ => "") sql in
  let sql := ReplaceAll reDoubleQuotedIdent (capture 1) sql in
  let sql := ReplaceAll reBacktickIdent (capture 1) sql in
  ReplaceAll reWhitespace (fun _ => " ") (TrimSpace sql).

Definition extractor_keywords : list string := [
  "select"; "from"; "where"; "join"; "inner"; "left"; "right"; "outer"; "on"; "as"; "and"; "or"; "not";
  "in"; "exists"; "between"; "like"; "is"; "null"; "true"; "false"; "union"; "group"; "by"; "having";
  "order"; "limit"; "offset"; "distinct"; "count"; "sum"; "avg"; "max"; "min"; "case"; "when"; "then";
  "else"; "end"; "insert"; "update"; "delete"; "create"; "drop"; "alter"; "table"; "index"; "view";
  "database"; "schema"].

(** A name with a byte outside ASCII fails the pattern, so lower-casing its
    ASCII letters is enough. *)
Definition isValidTableName (tableName : string) : bool :=
  negb (bool_decide (ToLower tableName ∈ extractor_keywords)) && MatchString reTableName tableName.

(** The six [extract...Tables] functions: a pattern and the group of the name. *)
Definition extract (re : regex) (group : nat) (sql : string) : list string :=
  List.filter isValidTableName (List.filter (fun t => negb (bool_decide (t = ""))) (capture group <$> FindAll re sql)).

Definition extractFromTables : string -> list string := extract fromRegex 2.
Definition extractJoinTables : string -> list string := extract joinRegex 2.
Definition extractUpdateTables : string -> list string := extract updateRegex 2.
Definition extractInsertTables : string -> list string := extract insertRegex 2.
Definition extractDeleteTables : string -> list string := extract deleteRegex 2.
Definition extractSubqueryTables : string -> list string := extract subqueryRegex 1.

Fixpoint unique_from (seen input : list string) : list string :=
  match input with
  | [] => []
  | str :: input =>
      if bool_decide (str = "") || bool_decide (str ∈ seen) then unique_from seen input
      else str :: unique_from (str :: seen) input
  end.

Definition uniqueStrings : list string -> list string := unique_from [].

Definition ExtractTableNames (sql : string) : list string :=
  let clean := cleanSQL sql in
  if bool_decide (clean = "") then [] else
  uniqueStrings (extractFromTables clean ++ extractJoinTables clean ++ extractUpdateTables clean ++
                 extractInsertTables clean ++ extractDeleteTables clean ++ extractSubqueryTables clean).

Definition ValidateTableNames (tables : list string) : list string := List.filter isValidTableName tables.

(** ** Classification *)

Definition count_lparen (s : string) : nat := count_char "("%char s.

Section classify.
(** [strings.ToLower] on arbitrary text. *)
Context (toLower : string -> string).

Definition GetQueryType (sql : string) : string :=
  let sqlLower := toLower (TrimSpace sql) in
  if HasPrefix sqlLower "select" then
    if Contains sqlLower "count(" then "count" else
    if Contains sqlLower "sum(" || Contains sqlLower "avg(" || Contains sqlLower "max(" || Contains sqlLower "min("
    then "aggregation" else
    if Contains sqlLower "group by" then "group_by" else
    if Contains sqlLower "join" then "join" else
    if Contains sqlLower "union" then "union" else "select"
  else if HasPrefix sqlLower "insert" then "insert"
  else if HasPrefix sqlLower "update" then "update"
  else if HasPrefix sqlLower "delete" then "delete"
  else if HasPrefix sqlLower "create" then "create"
  else if HasPrefix sqlLower "drop" then "drop"
  else if HasPrefix sqlLower "alter" then "alter"
  else if HasPrefix sqlLower "with" then "cte"
  else "unknown".

Definition weight (b : bool) (n : Z) : Z := if b then n else 0.

Definition complexity_score (sql : string) : Z :=
  let sqlLower := toLower sql in
  weight (Contains sqlLower "join") 2 +
  weight (Contains sqlLower "subquery" || (1 <? count_lparen sqlLower)%nat) 3 +
  weight (Contains sqlLower "group by") 2 +
  weight (Contains sqlLower "having") 1 +
  weight (Contains sqlLower "order by") 1 +
  weight (Contains sqlLower "union") 2 +
  weight (Contains sqlLower "with") 2 +
  (Zlength (ExtractTableNames sql) - 1) +
  foldr Z.add 0 ((fun fn => weight (Contains sqlLower fn) 1) <$> ["count("; "sum("; "avg("; "max("; "min("; "case"]).

Definition GetQueryComplexity (sql : string) : string :=
  let complexity := complexity_score sql in
  if complexity <=? 2 then "simple" else
  if complexity <=? 5 then "medium" else
  if complexity <=? 10 then "complex" else "very_complex".

Definition ShouldCacheQuery (sql : string) : bool :=
  let queryType := GetQueryType sql in
  let complexity := GetQueryComplexity sql in
  if bool_decide (queryType ∈ ["insert"; "update"; "delete"; "create"; "drop"; "alter"]) then false else
  if bool_decide (queryType ∈ ["select"; "count"; "aggregation"])
  then bool_decide (complexity = "medium") || bool_decide (complexity = "complex")
  else false.
End classify.

Example extract_join :
  ExtractTableNames "SELECT * FROM orders o LEFT JOIN `users` AS u ON o.id = u.id JOIN s.items i" =
  ["orders"; "users"; "items"].
Proof. by vm_compute. Qed.
Example extract_sub :
  ExtractTableNames "SELECT a FROM (SELECT b FROM t1) x, (select c from t2) /* from no */ -- from nope" = ["t1"; "t2"].
Proof. by vm_compute. Qed.
Example extract_dml :
  ExtractTableNames "insert into a select * from b" = ["b"; "a"] /\
  ExtractTableNames "delete from a" = ["a"] /\ ExtractTableNames "update x set a=1" = ["x"].
Proof. by vm_compute. Qed.

(** ** What is cached *)

(** Only statements that begin with SELECT are cached; whatever changes
    data or tables is not, in any spelling and behind any white space. *)
Theorem cached_is_select toLower sql :
  ShouldCacheQuery toLower sql = true ->
  HasPrefix (toLower (TrimSpace sql)) "select" = true /\
  GetQueryComplexity toLower sql ∈ ["medium"; "complex"] /\ 2 < complexity_score toLower sql <= 10.
Proof.
  unfold ShouldCacheQuery. intros H. case_bool_decide; [done|]. case_bool_decide as Ht; [|done].
  apply orb_true_iff in H. split.
  - unfold GetQueryType in Ht. destruct (HasPrefix (toLower _) "select"); [done|]. exfalso.
    revert Ht. repeat case_match; set_solver.
  - unfold GetQueryComplexity in *. repeat case_match; destruct H; b2p; try done; split; try set_solver; lia.
Qed.

Lemma cached_is_select_witness :
  ShouldCacheQuery ToLower "SELECT a, count(b) FROM t WHERE (a > 1) GROUP BY a" = true /\
  HasPrefix (ToLower (TrimSpace "SELECT a, count(b) FROM t WHERE (a > 1) GROUP BY a")) "select" = true.
Proof.
  assert (ShouldCacheQuery ToLower "SELECT a, count(b) FROM t WHERE (a > 1) GROUP BY a" = true) as H
    by (vm_compute; reflexivity).
  split; [exact H|]. exact (proj1 (cached_is_select ToLower _ H)).
Defined.

(** What the patterns miss: the second table of a list, a comment in the
    middle of the text, the names a WITH clause introduces, and tables called
    like a Boolean constant. *)
Lemma extraction_limits :
  ExtractTableNames "SELECT * FROM a, b WHERE a.x = b.x" = ["a"] /\
  ExtractTableNames ("SELECT 1 -- from x" +:+ String "010" "FROM t") = ["x"] /\
  ExtractTableNames "WITH x AS (SELECT 1 FROM a) SELECT * FROM x" = ["a"; "x"] /\
  ValidateTableName "true" = Ok tt /\ ExtractTableNames "SELECT * FROM true" = [].
Proof. by vm_compute. Qed.

(** * Column pruning (internal/query/column_pruning.go)

    The pruner reads the columns of a SELECT list off the text of a statement
    and builds the view that offers only these. A cache from statements to
    columns saves the work for repeated statements. *)

Definition reSelectColumns : regex :=
  seq [ilit "select"; plus blank; Group 1 (Star false dot); plus blank; ilit "from"].

Record ColumnPruner := mkColumnPruner { cache : gmap string (list string); enabled : bool }.

Definition NewColumnPruner (enabled : bool) : ColumnPruner := mkColumnPruner ∅ enabled.

Definition aggregateFuncs : list string :=
  ["COUNT("; "SUM("; "AVG("; "MIN("; "MAX("; "STDDEV("; "VARIANCE("; "GROUP_CONCAT("; "COUNT_DISTINCT("].

Section pruner.
(** [strings.ToUpper] and [strings.EqualFold] on arbitrary text. *)
Context (toUpper : string -> string) (EqualFold : string -> string -> bool).

Definition isAggregateFunction (col : string) : bool := existsb (Contains (toUpper col)) aggregateFuncs.

Definition contains (cols : list string) (col : string) : bool := existsb (fun c => EqualFold c col) cols.

(** A column of the list, without its table and DISTINCT. *)
Definition column_name (col : string) : string :=
  let col := match Split "." col with [_; c] => c | _ => col end in
  TrimSpace (TrimPrefix (TrimPrefix col "DISTINCT ") "DISTINCT").

Definition add_column (requiredColumns : list string) (col : string) : list string :=
  let col := TrimSpace col in
  if isAggregateFunction col then requiredColumns else
  let col := column_name col in
  if negb (bool_decide (col = "")) && negb (contains requiredColumns col)
  then requiredColumns ++ [col] else requiredColumns.

(** The columns of a trimmed statement, and whether they go into the cache. *)
Definition select_columns (sql : string) : list string * bool :=
  let upperSQL := toUpper sql in
  if Contains upperSQL "SELECT *" || Contains upperSQL "COUNT(*)" then (["*"], false) else
  match FindSubmatch reSelectColumns sql with
  | None => (["*"], false)
  | Some m =>
      let columnsStr := TrimSpace (capture 1 m) in
      if bool_decide (columnsStr = "") then ([], false) else
      match foldl add_column [] (Split "," columnsStr) with
      | [] => (["*"], false)
      | cols => (cols, true)
      end
  end.

Definition ExtractRequiredColumns (cp : ColumnPruner) (sql : string) : list string * ColumnPruner :=
  let sql := TrimSpace sql in
  if bool_decide (sql = "") then ([], cp) else
  if negb (enabled cp) then (["*"], cp) else
  match cache cp !! sql with
  | Some cols => (cols, cp)
  | None =>
      match select_columns sql with
      | (cols, false) => (cols, cp)
      | (cols, true) =>
          let base := if (10000 <=? Z.of_nat (size (cache cp))) then ∅ else cache cp in
          (cols, mkColumnPruner (<[sql := cols]> base) (enabled cp))
      end
  end.

Definition ClearCache (cp : ColumnPruner) : ColumnPruner := mkColumnPruner ∅ (enabled cp).

(** [GetCacheStats]: the size and the switch. *)
Definition GetCacheStats (cp : ColumnPruner) : Z * bool := (Z.of_nat (size (cache cp)), enabled cp).

(** ** Views *)

Definition buildFilesClause (files : list string) : string := Join "," (QuoteLiteral <$> files).

Definition buildStandardViewSQL (tableName : string) (files : list string) : string :=
  "CREATE OR REPLACE VIEW " +:+ QuoteIdentifier tableName +:+ " AS SELECT * FROM read_parquet([" +:+
  buildFilesClause files +:+ "], union_by_name=true)".

Definition BuildOptimizedViewSQL (cp : ColumnPruner) (tableName : string) (files requiredColumns : list string) : string :=
  if negb (enabled cp) || bool_decide (requiredColumns = []) || bool_decide (requiredColumns = ["*"])
  then buildStandardViewSQL tableName files
  else "CREATE OR REPLACE VIEW " +:+ QuoteIdentifier tableName +:+ " AS SELECT " +:+
       Join ", " (QuoteIdentifier <$> requiredColumns) +:+ " FROM read_parquet([" +:+
       buildFilesClause files +:+ "], union_by_name=true)".

(** ** The cache changes nothing but the work *)

(** Statements and clearings, in any order. *)
Inductive reachable (on : bool) : ColumnPruner -> Prop :=
  | r_new : reachable on (NewColumnPruner on)
  | r_extract cp sql : reachable on cp -> reachable on (ExtractRequiredColumns cp sql).2
  | r_clear cp : reachable on cp -> reachable on (ClearCache cp).

Definition cache_ok (cp : ColumnPruner) : Prop :=
  Z.of_nat (size (cache cp)) <= 10000 /\
  map_Forall (fun sql cols => select_columns sql = (cols, true)) (cache cp).

Lemma extract_ok cp sql : cache_ok cp -> cache_ok (ExtractRequiredColumns cp sql).2.
Proof.
  intros [Hs Hm]. unfold ExtractRequiredColumns. case_bool_decide; [done|]. destruct (negb _); [done|].
  destruct (cache cp !! _) eqn:E; [done|]. destruct (select_columns _) as [cols []] eqn:Ec; [|done].
  cbn. destruct (10000 <=? _) eqn:Hl; b2p; split; cbn [cache].
  - rewrite map_size_insert_None by done. rewrite map_size_empty. lia.
  - apply map_Forall_insert_2; [done|]. apply map_Forall_empty.
  - rewrite map_size_insert_None by done. lia.
  - by apply map_Forall_insert_2.
Qed.

Lemma reachable_ok on cp : reachable on cp -> cache_ok cp /\ enabled cp = on.
Proof.
  induction 1 as [|cp sql _ [IH He]|cp _ [IH He]].
  - split; [|done]. split; [cbn; rewrite map_size_empty; lia|]. apply map_Forall_empty.
  - split; [by apply extract_ok|]. unfold ExtractRequiredColumns. repeat case_match; done.
  - split; [|done]. split; [cbn; rewrite map_size_empty; lia|]. apply map_Forall_empty.
Qed.

(** After any sequence of statements and clearings the pruner answers as a
    new one does, whatever its cache holds, and the cache keeps within its
    bound. *)
Theorem column_cache_transparent on cp sql :
  reachable on cp ->
  (ExtractRequiredColumns cp sql).1 = (ExtractRequiredColumns (NewColumnPruner on) sql).1 /\
  Z.of_nat (size (cache cp)) <= 10000.
Proof.
  intros [[Hs Hm] He]%reachable_ok. split; [|done]. unfold ExtractRequiredColumns. rewrite He.
  case_bool_decide; [done|]. cbn [enabled NewColumnPruner cache]. destruct (negb on); [done|].
  rewrite lookup_empty. destruct (cache cp !! _) as [cols|] eqn:E.
  - by rewrite (Hm _ _ E).
  - by destruct (select_columns _) as [cols []].
Qed.

(** Column names as [add_column] leaves them: not empty and not twice. *)
Lemma fold_columns_ok l acc :
  (forall x, EqualFold x x = true) -> NoDup acc -> ~ ("" ∈ acc) ->
  NoDup (foldl add_column acc l) /\ ~ ("" ∈ foldl add_column acc l).
Proof.
  intros Hrefl. revert acc. induction l as [|c l IH]; intros acc Hn He; [done|]. cbn. apply IH.
  all: unfold add_column; destruct (isAggregateFunction _); [done|];
    destruct (negb _ && negb _) eqn:E; [|done]; b2p.
  - apply NoDup_app. split; [done|]. split; [|apply NoDup_singleton].
    intros x Hx ->%list_elem_of_singleton. unfold contains in *.
    match goal with H : existsb _ _ = false |- _ => apply not_true_iff_false in H; apply H end.
    apply existsb_exists. eexists. split; [by apply list_elem_of_In|apply Hrefl].
  - rewrite elem_of_app, list_elem_of_singleton. intros [?|?]; congruence.
Qed.
End pruner.

(** Any relation that makes every text equal to itself may stand for
    [EqualFold] here. *)
Definition fold_eq (a b : string) : bool := bool_decide (ToLower a = ToLower b).

Lemma column_cache_transparent_witness :
  (ExtractRequiredColumns ToUpper fold_eq
    (ExtractRequiredColumns ToUpper fold_eq (NewColumnPruner true) "select a, b from t").2 "select a, b from t").1 =
  (ExtractRequiredColumns ToUpper fold_eq (NewColumnPruner true) "select a, b from t").1.
Proof.
  apply (column_cache_transparent ToUpper fold_eq true). apply r_extract, r_new.
Defined.

(** Only the SELECT list counts: a column that WHERE needs is not in the view,
    an alias becomes part of the name, and the columns inside an aggregate are
    left out beside a plain one. *)
Lemma view_misses_columns :
  let cp := NewColumnPruner true in
  let view sql := BuildOptimizedViewSQL cp "t" ["f"] (ExtractRequiredColumns ToUpper fold_eq cp sql).1 in
  view "SELECT a FROM t WHERE b > 1" =
    "CREATE OR REPLACE VIEW " +:+ QuoteIdentifier "t" +:+ " AS SELECT " +:+ QuoteIdentifier "a" +:+
    " FROM read_parquet(['f'], union_by_name=true)" /\
  (ExtractRequiredColumns ToUpper fold_eq cp "SELECT a AS x FROM t").1 = ["a AS x"] /\
  (ExtractRequiredColumns ToUpper fold_eq cp "SELECT a, sum(b) FROM t GROUP BY a").1 = ["a"].
Proof. by vm_compute. Qed.
