(* ===== verification/QueryCache.v ===== *)
(** * The query cache (internal/query/query_cache.go)

    Results of queries are kept in Redis under a hash of the query and its
    tables; sets in Redis list the keys of every table, to remove them when the
    table changes. A list in memory, ordered by use, bounds the size. *)

From S2P Require Import Prelude GoStrings GoTime GoHeap GoOrder FieldMapping ConsistentHash GoCrypto.
From Stdlib Require Import Ascii.
#[local] Open Scope Z_scope.

(** ** The list of use *)

Record lruEntry := mkLruEntry { key : string; size : Z; expiresAt : Z }.

(** [order]: the list, most recently used first; its elements are known by a
    number, which [items] has for every key. *)
Record lruCache := mkLruCache {
  capacity : Z; usedSize : Z; items : gmap string nat; order : list (nat * lruEntry); next : nat }.

Definition newLRUCache (capacity : Z) : lruCache := mkLruCache capacity 0 ∅ [] 0.

(** [container/list] *)
Definition element (h : nat) (l : list (nat * lruEntry)) : option lruEntry := snd <$> List.find (fun x => (x.1 =? h)%nat) l.
Definition list_remove (h : nat) (l : list (nat * lruEntry)) : list (nat * lruEntry) :=
  List.filter (fun x => negb (x.1 =? h)%nat) l.
Definition MoveToFront (h : nat) (l : list (nat * lruEntry)) : list (nat * lruEntry) :=
  match element h l with Some e => (h, e) :: list_remove h l | None => l end.

Definition lru_drop (l : lruCache) (h : nat) (e : lruEntry) (k : string) : lruCache :=
  mkLruCache (capacity l) (int64 (usedSize l - size e)) (delete k (items l)) (list_remove h (order l)) (next l).

Definition lru_get (now : Z) (k : string) (l : lruCache) : option lruEntry * lruCache :=
  match items l !! k with
  | Some h =>
      match element h (order l) with
      | Some e =>
          if now <? expiresAt e
          then (Some e, mkLruCache (capacity l) (usedSize l) (items l) (MoveToFront h (order l)) (next l))
          else (None, lru_drop l h e k)
      | None => (None, l)
      end
  | None => (None, l)
  end.

Definition lru_put (now : Z) (k : string) (sz ttl : Z) (l : lruCache) : lruCache :=
  let l := match items l !! k with
    | Some h =>
        match element h (order l) with
        | Some e => mkLruCache (capacity l) (int64 (usedSize l - size e)) (items l) (list_remove h (order l)) (next l)
        | None => l
        end
    | None => l
    end in
  mkLruCache (capacity l) (int64 (usedSize l + sz)) (<[k := next l]> (items l))
    ((next l, mkLruEntry k sz (now + ttl)) :: order l) (S (next l)).

Definition lru_remove (k : string) (l : lruCache) : lruCache :=
  match items l !! k with
  | Some h => match element h (order l) with Some e => lru_drop l h e k | None => l end
  | None => l
  end.

Definition evictOne (l : lruCache) : option (string * Z) * lruCache :=
  match last (order l) with
  | None => (None, l)
  | Some (h, e) => (Some (key e, size e), lru_drop l h e (key e))
  end.

(** The loop of [evictForSpace]; every round takes an element off the list, so
    its length is enough fuel. *)
Fixpoint evict_loop (fuel : nat) (requiredSpace freedSpace : Z) (evictedKeys : list string) (l : lruCache) :
    list string * lruCache :=
  match fuel with
  | O => (evictedKeys, l)
  | S fuel =>
      if freedSpace <? requiredSpace then
        match last (order l) with
        | None => (evictedKeys, l)
        | Some (h, e) =>
            evict_loop fuel requiredSpace (int64 (freedSpace + size e)) (evictedKeys ++ [key e]) (lru_drop l h e (key e))
        end
      else (evictedKeys, l)
  end.

Definition evictForSpace (requiredSpace : Z) (l : lruCache) : list string * lruCache :=
  evict_loop (length (order l)) requiredSpace 0 [] l.

Definition needsEviction (newSize : Z) (l : lruCache) : bool := capacity l <? int64 (usedSize l + newSize).

(** ** Keys *)

Definition hashQuery (query : string) : string := hex_encode (Sha256.Sum256 (string_bytes query)).

(** Lower case outside of string literals; a backslash protects the byte after
    it, and two quotes in a literal stay in it. *)
Fixpoint normalize_loop (inSingleQuote escaped : bool) (s : string) : string :=
  match s with
  | EmptyString => ""
  | String ch s' =>
      if escaped then String ch (normalize_loop inSingleQuote false s')
      else if bool_decide (ch = "\"%char) then String ch (normalize_loop inSingleQuote true s')
      else if bool_decide (ch = "'"%char) then
        match s' with
        | String ch' s'' =>
            if inSingleQuote && bool_decide (ch' = "'"%char)
            then String ch (String ch' (normalize_loop true false s''))
            else String ch (normalize_loop (negb inSingleQuote) false s')
        | EmptyString => String ch ""
        end
      else String (if inSingleQuote then ch else lower_char ch) (normalize_loop inSingleQuote false s')
  end.

Definition normalizeQuery (query : string) : string := normalize_loop false false (Join " " (Fields (TrimSpace query))).

(** ** The cache *)

Record CacheEntry := mkCacheEntry {
  Query : string; QueryHash : string; Result : string; Tables : list string;
  Metadata : gmap string string; CreatedAt : Z; AccessCount : Z; Size : Z;
}.

Record CacheConfig := mkCacheConfig { DefaultTTL : Z; MaxCacheSize : Z; EnableMetrics : bool; KeyPrefix : string }.

Definition defaultCacheConfig : CacheConfig := mkCacheConfig (1800 * second) (100 * 1024 * 1024) true "query_cache:".

Record QueryCache := mkQueryCache {
  defaultTTL : Z; maxCacheSize : Z; enableMetrics : bool; cacheHits : Z; cacheMisses : Z; cacheKeyPrefix : string; lru : lruCache }.

Definition NewQueryCache (config : option CacheConfig) : QueryCache :=
  let c := default defaultCacheConfig config in
  mkQueryCache (DefaultTTL c) (MaxCacheSize c) (EnableMetrics c) 0 0 (KeyPrefix c) (newLRUCache (MaxCacheSize c)).

Definition with_lru (l : lruCache) (qc : QueryCache) : QueryCache :=
  mkQueryCache (defaultTTL qc) (maxCacheSize qc) (enableMetrics qc) (cacheHits qc) (cacheMisses qc) (cacheKeyPrefix qc) l.
Definition recordCacheHit (qc : QueryCache) : QueryCache :=
  mkQueryCache (defaultTTL qc) (maxCacheSize qc) (enableMetrics qc)
    (if enableMetrics qc then int64 (cacheHits qc + 1) else cacheHits qc) (cacheMisses qc) (cacheKeyPrefix qc) (lru qc).
Definition recordCacheMiss (qc : QueryCache) : QueryCache :=
  mkQueryCache (defaultTTL qc) (maxCacheSize qc) (enableMetrics qc) (cacheHits qc)
    (if enableMetrics qc then int64 (cacheMisses qc + 1) else cacheMisses qc) (cacheKeyPrefix qc) (lru qc).

Definition generateCacheKey (qc : QueryCache) (query : string) (tables : list string) : string :=
  cacheKeyPrefix qc +:+ hashQuery (normalizeQuery query +:+ "|" +:+ Join "," tables).

Definition getTableIndexKey (qc : QueryCache) (table : string) : string := cacheKeyPrefix qc +:+ "table_index:" +:+ table.

Section metadata.
(** [strings.ToLower] on arbitrary text. *)
Context (toLower : string -> string).
Definition extractMetadata (query result : string) : gmap string string :=
  let queryLower := toLower (TrimSpace query) in
  let has := Contains queryLower in
  <["type" := if HasPrefix queryLower "select" then "select" else if HasPrefix queryLower "count" then "count" else "unknown"]>
  (<["result_size" := Itoa (Z.of_nat (String.length result))]>
  {["has_aggregation" := if has "group by" || has "count(" || has "sum(" || has "avg(" then "true" else "false"]}).
End metadata.

(** *** Redis *)

Class CacheCommands (R : Type) := {
  GET : Z -> string -> R -> option string;
  SET : Z -> string -> string -> Z -> R -> R;
  DEL : Z -> list string -> R -> R;
  SMEMBERS : Z -> string -> R -> gset string;
  SADD : Z -> string -> string -> R -> R;
  EXPIRE : Z -> string -> Z -> R -> R;
}.

(** What the documentation says of them, for keys that keep to one kind of
    value. *)
Class CacheLaws (R : Type) `{!CacheCommands R} : Prop := {
  get_later now t k (r : R) : now <= t -> GET now k r = None -> GET t k r = None;
  get_same now t k v (r : R) : now <= t -> GET t k r = Some v -> GET now k r = Some v;
  set_get now t k v ttl (r : R) : now <= t -> 0 < ttl -> GET t k (SET now k v ttl r) = if t <? now + ttl then Some v else None;
  set_get_other now t k k' v ttl (r : R) : k <> k' -> now <= t -> GET t k' (SET now k v ttl r) = GET t k' r;
  set_members now t k k' v ttl (r : R) : k <> k' -> now <= t -> SMEMBERS t k' (SET now k v ttl r) = SMEMBERS t k' r;
  del_get now t ks k (r : R) : k ∈ ks -> now <= t -> GET t k (DEL now ks r) = None;
  del_get_other now t ks k (r : R) : k ∉ ks -> now <= t -> GET t k (DEL now ks r) = GET t k r;
  del_members now t ks k (r : R) : k ∉ ks -> now <= t -> SMEMBERS t k (DEL now ks r) = SMEMBERS t k r;
  del_members_gone now t ks k (r : R) : k ∈ ks -> now <= t -> SMEMBERS t k (DEL now ks r) = ∅;
  members_same now t k x (r : R) : now <= t -> x ∈ SMEMBERS t k r -> x ∈ SMEMBERS now k r;
  sadd_members now k x (r : R) : SMEMBERS now k (SADD now k x r) = {[x]} ∪ SMEMBERS now k r;
  sadd_members_other now t k k' x (r : R) : k <> k' -> now <= t -> SMEMBERS t k' (SADD now k x r) = SMEMBERS t k' r;
  sadd_get now t k k' x (r : R) : k <> k' -> now <= t -> GET t k' (SADD now k x r) = GET t k' r;
  expire_members now t k ttl (r : R) : SMEMBERS now k r <> ∅ -> now <= t -> 0 < ttl ->
    SMEMBERS t k (EXPIRE now k ttl r) = if t <? now + ttl then SMEMBERS now k r else ∅;
  expire_members_other now t k k' ttl (r : R) : k <> k' -> now <= t -> SMEMBERS t k' (EXPIRE now k ttl r) = SMEMBERS t k' r;
  expire_get now t k k' ttl (r : R) : k <> k' -> now <= t -> GET t k' (EXPIRE now k ttl r) = GET t k' r;
}.

Inductive cache_command := CGet | CGetAgain | CSet | CDelEvicted | CSMembers (table : string) | CDelIndex (table : string)
| CDelKeys | CSAdd (table : string) | CExpire (table : string).

Inductive cache_error := MarshalFailed | SetFailed | DelFailed.

Section cache.
Context {R} `{!CacheCommands R}.
Context (marshal : CacheEntry -> string) (unmarshal : string -> option CacheEntry) (toLower : string -> string).
(** Which commands reach Redis and are answered; the others fail. *)
Context (ok : cache_command -> bool).

Definition get (c : cache_command) (now : Z) (k : string) (r : R) : option CacheEntry :=
  if ok c then GET now k r ≫= unmarshal else None.

Definition access (e : CacheEntry) : CacheEntry :=
  mkCacheEntry (Query e) (QueryHash e) (Result e) (Tables e) (Metadata e) (CreatedAt e) (int64 (AccessCount e + 1)) (Size e).

(** [Get]: the entry, and the entry to be written back in the background. *)
Definition Get (now : Z) (query : string) (tables : list string) (qc : QueryCache) (r : R) : option CacheEntry * QueryCache :=
  let cacheKey := generateCacheKey qc query tables in
  let '(found, l) := lru_get now cacheKey (lru qc) in
  let qc := with_lru l qc in
  let first := match found with Some _ => get CGet now cacheKey r | None => None end in
  match first with
  | Some e => (Some (access e), recordCacheHit qc)
  | None =>
      let qc := match found with Some _ => with_lru (lru_remove cacheKey (lru qc)) qc | None => qc end in
      match get CGetAgain now cacheKey r with
      | Some e => (Some (access e), recordCacheHit (with_lru (lru_put now cacheKey (Size e) (defaultTTL qc) (lru qc)) qc))
      | None => (None, recordCacheMiss qc)
      end
  end.

(** The write of [updateAccessStats], whenever it happens. *)
Definition updateAccessStats (now : Z) (qc : QueryCache) (cacheKey : string) (e : CacheEntry) (r : R) : R :=
  SET now cacheKey (marshal e) (defaultTTL qc) r.

Definition evictLRU (now requiredSpace : Z) (qc : QueryCache) (r : R) : QueryCache * R :=
  let '(evictedKeys, l) := evictForSpace requiredSpace (lru qc) in
  (with_lru l qc, match evictedKeys with [] => r | _ => if ok CDelEvicted then DEL now evictedKeys r else r end).

Definition updateTableIndex (now : Z) (qc : QueryCache) (cacheKey : string) (tables : list string) (r : R) : R :=
  foldl (fun r table =>
    let indexKey := getTableIndexKey qc table in
    let r := if ok (CSAdd table) then SADD now indexKey cacheKey r else r in
    if ok (CExpire table) then EXPIRE now indexKey (defaultTTL qc * 2) r else r) r tables.

Definition new_entry (now : Z) (query result : string) (tables : list string) : CacheEntry :=
  mkCacheEntry query (hashQuery query) result tables (extractMetadata toLower query result) now 1 (Z.of_nat (String.length result)).

Definition Set_ (now : Z) (query result : string) (tables : list string) (qc : QueryCache) (r : R) :
    Prelude.result cache_error unit * QueryCache * R :=
  let data := marshal (new_entry now query result tables) in
  let cacheKey := generateCacheKey qc query tables in
  let entrySize := Z.of_nat (String.length data) in
  let '(qc, r) := if needsEviction entrySize (lru qc) then evictLRU now entrySize qc r else (qc, r) in
  if negb (ok CSet) then (Err SetFailed, qc, r) else
  let r := SET now cacheKey data (defaultTTL qc) r in
  let qc := with_lru (lru_put now cacheKey entrySize (defaultTTL qc) (lru qc)) qc in
  (Ok tt, qc, updateTableIndex now qc cacheKey tables r).

(** The keys of the tables, and Redis without their indexes. *)
Definition collect_keys (now : Z) (qc : QueryCache) (acc : list string * R) (table : string) : list string * R :=
  let '(keysToDelete, r) := acc in
  let indexKey := getTableIndexKey qc table in
  if ok (CSMembers table) then
    (keysToDelete ++ elements (SMEMBERS now indexKey r), if ok (CDelIndex table) then DEL now [indexKey] r else r)
  else acc.

Definition InvalidateByTables (now : Z) (tables : list string) (qc : QueryCache) (r : R) :
    Prelude.result cache_error unit * QueryCache * R :=
  let '(keysToDelete, r) := foldl (collect_keys now qc) ([], r) tables in
  match keysToDelete with
  | [] => (Ok tt, qc, r)
  | _ =>
      if negb (ok CDelKeys) then (Err DelFailed, qc, r) else
      (Ok tt, with_lru (foldl (fun l k => lru_remove k l) (lru qc) keysToDelete) qc, DEL now keysToDelete r)
  end.

(** [Clear]; [keys]: what the scan of the prefix finds. *)
Definition Clear (now : Z) (keys : list string) (qc : QueryCache) (r : R) : Prelude.result cache_error unit * QueryCache * R :=
  let cleared := mkQueryCache (defaultTTL qc) (maxCacheSize qc) (enableMetrics qc) 0 0 (cacheKeyPrefix qc) (newLRUCache (maxCacheSize qc)) in
  match keys with
  | [] => (Ok tt, cleared, r)
  | _ => if ok CDelKeys then (Ok tt, cleared, DEL now keys r) else (Err DelFailed, qc, r)
  end.
End cache.
