(* ===== verification/QueryCacheTheorems.v ===== *)
(** * What the query cache returns (internal/query/query_cache.go)

    The list of use is a list of entries with distinct keys, most recently used
    first, whose sizes are counted right. And a hit is the result that was
    stored last for the query, and no table of it was invalidated since, if the
    background writes are prompt. *)

From S2P Require Import Prelude GoStrings GoTime GoHeap GoOrder WalCodec FieldMapping ConsistentHash GoCrypto QueryCache.
From Stdlib Require Import Ascii.
#[local] Open Scope Z_scope.

(** ** The list of use *)

Definition sizes (l : list (nat * lruEntry)) : Z := foldr (fun x s => size x.2 + s) 0 l.

Record lru_ok (l : lruCache) : Prop := {
  lo_handles : NoDup (order l).*1;
  lo_items : forall k h, items l !! k = Some h <-> exists e, (h, e) ∈ order l /\ key e = k;
  lo_fresh : forall h e, (h, e) ∈ order l -> (h < next l)%nat;
  lo_size : usedSize l = int64 (sizes (order l));
}.

(** What the list stands for. *)
Definition view (l : lruCache) : list lruEntry := (order l).*2.
Definition without (k : string) (v : list lruEntry) : list lruEntry := base.filter (fun e => key e <> k) v.

Lemma int64_mod a b : (a - b) mod 2 ^ 64 = 0 -> int64 a = int64 b.
Proof.
  intros H. unfold int64. f_equal. replace (a + 2 ^ 63) with (a - b + (b + 2 ^ 63)) by lia.
  by rewrite <- Zplus_mod_idemp_l, H.
Qed.

Lemma int64_int64 a b : int64 (int64 a + b) = int64 (a + b).
Proof.
  apply int64_mod. unfold int64. pose proof (Z.div_mod (a + 2 ^ 63) (2 ^ 64) ltac:(lia)).
  apply Z.mod_divide; [lia|]. exists (- ((a + 2 ^ 63) / 2 ^ 64)). lia.
Qed.

(** An element by its number. *)
Lemma element_spec h e l : NoDup l.*1 -> element h l = Some e <-> (h, e) ∈ l.
Proof.
  unfold element. induction l as [|[j d] l IH]; intros Hnd; cbn [List.find fst].
  { cbn. split; [done|]. intros H. by apply elem_of_nil in H. }
  cbn [fmap list_fmap fst] in Hnd. apply NoDup_cons in Hnd as [Hj Hnd]. destruct (Nat.eqb_spec j h) as [->|Hne].
  - cbn. rewrite elem_of_cons. split; [intros [= ->]; by left|]. intros [[= ->]|H]; [done|].
    exfalso. apply Hj. by apply (list_elem_of_fmap_2 fst _ (h, e)).
  - rewrite IH by done. rewrite elem_of_cons. naive_solver.
Qed.

Lemma elem_of_list_remove h x l : x ∈ list_remove h l <-> x ∈ l /\ x.1 <> h.
Proof.
  unfold list_remove. rewrite !list_elem_of_In, filter_In. destruct (Nat.eqb_spec x.1 h); cbn; naive_solver.
Qed.

Lemma list_remove_handles h l : NoDup l.*1 -> NoDup (list_remove h l).*1.
Proof.
  induction l as [|[j e] l IH]; intros Hnd; [done|]. cbn [fmap list_fmap fst] in Hnd. apply NoDup_cons in Hnd as [Hj Hnd].
  cbn [list_remove List.filter fst]. destruct (negb _); [|by apply IH]. cbn [fmap list_fmap fst]. constructor; [|by apply IH].
  intros (x & -> & Hx%elem_of_list_remove)%list_elem_of_fmap. apply Hj. apply list_elem_of_fmap. exists x. naive_solver.
Qed.

Lemma list_remove_sizes h e l : NoDup l.*1 -> (h, e) ∈ l -> sizes (list_remove h l) = sizes l - size e.
Proof.
  induction l as [|[j d] l IH]; intros Hnd Hin; [by apply elem_of_nil in Hin|]. cbn [fmap list_fmap fst] in Hnd.
  apply NoDup_cons in Hnd as [Hj Hnd]. cbn [list_remove List.filter fst sizes foldr snd]. apply elem_of_cons in Hin as [[= <- <-]|Hin].
  - rewrite Nat.eqb_refl. cbn [negb]. assert (List.filter (fun x => negb (x.1 =? h)%nat) l = l) as ->; [|unfold sizes; lia].
    clear -Hj. induction l as [|[k f] l IH]; [done|]. cbn in *. destruct (Nat.eqb_spec k h) as [->|]; cbn.
    + exfalso. apply Hj. left.
    + f_equal. apply IH. intros H. apply Hj. by right.
  - destruct (Nat.eqb_spec j h) as [->|]; cbn [negb].
    + exfalso. apply Hj. by apply (list_elem_of_fmap_2 fst _ (h, e)).
    + cbn [foldr snd]. fold (sizes (List.filter (fun x => negb (x.1 =? h)%nat) l)). unfold list_remove in IH. rewrite IH by done.
      fold (sizes l). lia.
Qed.

(** Keys are distinct: an entry is the only one with its key. *)
Lemma same_key l h h' e e' : lru_ok l -> (h, e) ∈ order l -> (h', e') ∈ order l -> key e = key e' -> h = h' /\ e = e'.
Proof.
  intros Hok H1 H2 Hk. assert (items l !! key e = Some h) as E1 by (apply (lo_items l Hok); by exists e).
  assert (items l !! key e = Some h') as E2 by (apply (lo_items l Hok); by exists e').
  rewrite E1 in E2. injection E2 as <-. split; [done|]. apply (element_spec h) in H1; [|by apply lo_handles].
  apply (element_spec h) in H2; [|by apply lo_handles]. congruence.
Qed.

Lemma list_remove_view l h e : lru_ok l -> (h, e) ∈ order l -> (list_remove h (order l)).*2 = without (key e) (view l).
Proof.
  intros Hok Hin. assert (forall x, x ∈ order l -> (x.1 = h <-> key x.2 = key e)) as Hiff.
  { intros [j d] Hx. cbn. split; [intros ->|intros Hk; by destruct (same_key l j h d e Hok Hx Hin Hk)].
    apply (element_spec h) in Hx; [|by apply lo_handles]. apply (element_spec h) in Hin; [|by apply lo_handles]. congruence. }
  unfold view, without, list_remove. clear Hin Hok. induction (order l) as [|x o IH]; [done|].
  cbn [List.filter fmap list_fmap]. rewrite filter_cons. destruct (Nat.eqb_spec x.1 h) as [E|E]; cbn [negb].
  - rewrite decide_False; [|intros H; apply H; apply Hiff; [by left|done]]. apply IH. intros; apply Hiff; by right.
  - rewrite decide_True; [|intros H; apply E; apply Hiff; [by left|done]]. cbn. f_equal. apply IH. intros; apply Hiff; by right.
Qed.

Lemma without_id k v : (forall e, e ∈ v -> key e <> k) -> without k v = v.
Proof.
  unfold without. induction v as [|e v IH]; intros H; [done|]. rewrite filter_cons, decide_True by (apply H; by left).
  f_equal. apply IH. intros; apply H; by right.
Qed.

Lemma without_none l k : lru_ok l -> items l !! k = None -> without k (view l) = view l.
Proof.
  intros Hok Hk. apply without_id. intros e (x & -> & Hx)%list_elem_of_fmap E.
  assert (items l !! k = Some x.1) as Hs by (apply (lo_items l Hok); exists x.2; split; [by destruct x|done]). congruence.
Qed.

Lemma lru_drop_ok l h e : lru_ok l -> (h, e) ∈ order l -> lru_ok (lru_drop l h e (key e)) /\ view (lru_drop l h e (key e)) = without (key e) (view l).
Proof.
  intros Hok Hin. split; [|by apply list_remove_view]. split; cbn.
  - apply list_remove_handles, lo_handles, Hok.
  - intros k j. setoid_rewrite elem_of_list_remove. destruct (decide (k = key e)) as [->|Hne].
    + rewrite lookup_delete_eq. split; [done|]. intros (d & [Hd Hj] & Hk). destruct (same_key l j h d e Hok Hd Hin Hk). by subst.
    + rewrite lookup_delete_ne by done. rewrite (lo_items l Hok). split; intros (d & Hd & Hk).
      * exists d. split; [split; [done|]|done]. cbn. intros ->. apply (element_spec h) in Hd; [|by apply lo_handles].
        apply (element_spec h) in Hin; [|by apply lo_handles]. congruence.
      * naive_solver.
  - intros j d Hd%elem_of_list_remove. apply (lo_fresh l Hok j d). naive_solver.
  - rewrite (list_remove_sizes h e) by (done || apply lo_handles, Hok). rewrite (lo_size l Hok). unfold Z.sub at 1. by rewrite int64_int64.
Qed.

Lemma items_element l k h : lru_ok l -> items l !! k = Some h -> exists e, element h (order l) = Some e /\ (h, e) ∈ order l /\ key e = k.
Proof.
  intros Hok H. apply (lo_items l Hok) in H as (e & Hin & Hk). exists e. split_and!; [|done..].
  apply element_spec; [by apply lo_handles|done].
Qed.

Lemma fresh_front h (l : list (nat * lruEntry)) : NoDup l.*1 -> NoDup (h :: (list_remove h l).*1).
Proof.
  intros Hnd. constructor; [|by apply list_remove_handles].
  intros (x & -> & Hx%elem_of_list_remove)%list_elem_of_fmap. naive_solver.
Qed.

Lemma front_ok l h e :
  lru_ok l -> (h, e) ∈ order l -> lru_ok (mkLruCache (capacity l) (usedSize l) (items l) (MoveToFront h (order l)) (next l)).
Proof.
  intros Hok Hin. unfold MoveToFront. rewrite (proj2 (element_spec h e (order l) (lo_handles l Hok)) Hin). split; cbn.
  - apply fresh_front, lo_handles, Hok.
  - intros k j. rewrite (lo_items l Hok). setoid_rewrite elem_of_cons. setoid_rewrite elem_of_list_remove. cbn.
    split; intros (d & Hd & Hk); exists d; (split; [|done]).
    + destruct (decide (j = h)) as [->|]; [left|by right]. apply (element_spec h) in Hd; [|by apply lo_handles].
      apply (element_spec h) in Hin; [|by apply lo_handles]. congruence.
    + naive_solver.
  - intros j d [[= -> ->]|Hd%elem_of_list_remove]%elem_of_cons; [by apply (lo_fresh l Hok h e)|apply (lo_fresh l Hok j d); naive_solver].
  - rewrite (lo_size l Hok), (list_remove_sizes h e) by (done || apply lo_handles, Hok). f_equal. cbn. lia.
Qed.

Lemma push_ok l k sz t :
  lru_ok l -> items l !! k = None ->
  lru_ok (mkLruCache (capacity l) (int64 (usedSize l + sz)) (<[k := next l]> (items l)) ((next l, mkLruEntry k sz t) :: order l) (S (next l))).
Proof.
  intros Hok Hk. split; cbn.
  - constructor; [|apply lo_handles, Hok]. intros (x & E & Hx)%list_elem_of_fmap. destruct x as [j d]. cbn in E. subst j.
    pose proof (lo_fresh l Hok _ _ Hx). lia.
  - intros k' j. setoid_rewrite elem_of_cons. destruct (decide (k' = k)) as [->|Hne].
    + rewrite lookup_insert_eq. split; [intros [= <-]; eexists; split; [by left|done]|].
      intros (d & [[= -> ->]|Hd] & Hkd); [done|]. assert (items l !! k = Some j) by (apply (lo_items l Hok); by exists d). congruence.
    + rewrite lookup_insert_ne by done. rewrite (lo_items l Hok). split; intros (d & Hd & Hkd); exists d; (split; [|done]); [by right|].
      destruct Hd as [[= -> ->]|Hd]; [by cbn in Hkd|done].
  - intros j d [[= -> ->]|Hd]%elem_of_cons; [lia|]. pose proof (lo_fresh l Hok j d Hd). lia.
  - rewrite (lo_size l Hok), int64_int64. f_equal. unfold sizes. lia.
Qed.

Lemma lru_get_ok now k l :
  lru_ok l -> lru_ok (lru_get now k l).2 /\
  view (lru_get now k l).2 =
    match (lru_get now k l).1 with Some e => e :: without k (view l) | None => without k (view l) end /\
  (forall e, (lru_get now k l).1 = Some e -> e ∈ view l /\ key e = k /\ now < expiresAt e).
Proof.
  intros Hok. unfold lru_get. destruct (items l !! k) as [h|] eqn:E; [|by rewrite (without_none l k Hok E)].
  destruct (items_element l k h Hok E) as (e & -> & Hin & <-). destruct (Z.ltb_spec now (expiresAt e)); cbn [fst snd].
  - split_and!; [by eapply front_ok| |].
    + unfold view at 1. cbn. unfold MoveToFront. rewrite (proj2 (element_spec h e (order l) (lo_handles l Hok)) Hin). cbn.
      f_equal. by apply list_remove_view.
    + intros e' [= <-]. split_and!; [|done..]. apply list_elem_of_fmap. by exists (h, e).
  - destruct (lru_drop_ok l h e Hok Hin) as [H1 H2]. by split_and!.
Qed.

Lemma lru_put_ok now k sz ttl l :
  lru_ok l -> lru_ok (lru_put now k sz ttl l) /\ view (lru_put now k sz ttl l) = mkLruEntry k sz (now + ttl) :: without k (view l).
Proof.
  intros Hok. unfold lru_put. destruct (items l !! k) as [h|] eqn:E.
  - destruct (items_element l k h Hok E) as (e & -> & Hin & <-). destruct (lru_drop_ok l h e Hok Hin) as [Hd Hv].
    pose proof (push_ok _ (key e) sz (now + ttl) Hd (lookup_delete_eq _ _)) as Hp. cbn in *. rewrite insert_delete_eq in Hp.
    split; [exact Hp|]. unfold view at 1. cbn. f_equal. exact Hv.
  - split; [by apply push_ok|]. unfold view at 1. cbn. by rewrite (without_none l k Hok E).
Qed.

Lemma lru_remove_ok k l : lru_ok l -> lru_ok (lru_remove k l) /\ view (lru_remove k l) = without k (view l).
Proof.
  intros Hok. unfold lru_remove. destruct (items l !! k) as [h|] eqn:E; [|by rewrite (without_none l k Hok E)].
  destruct (items_element l k h Hok E) as (e & -> & Hin & <-). by apply lru_drop_ok.
Qed.

(** Dropping the last element. *)
Lemma drop_last_ok l h e :
  lru_ok l -> last (order l) = Some (h, e) ->
  lru_ok (lru_drop l h e (key e)) /\ view l = view (lru_drop l h e (key e)) ++ [e] /\
  length (order l) = S (length (order (lru_drop l h e (key e)))).
Proof.
  intros Hok Hl. apply last_Some in Hl as [o Ho].
  assert ((h, e) ∈ order l) as Hin by (rewrite Ho, elem_of_app; right; by left).
  destruct (lru_drop_ok l h e Hok Hin) as [Hd Hv].
  assert (list_remove h (order l) = o) as Hrem.
  { pose proof (lo_handles l Hok) as Hnd. rewrite Ho, fmap_app, NoDup_app in Hnd. destruct Hnd as (_ & Hnd & _). rewrite Ho.
    unfold list_remove. rewrite List.filter_app. cbn. rewrite Nat.eqb_refl. cbn. rewrite app_nil_r.
    clear -Hnd. induction o as [|x o IH]; [done|]. cbn in *. destruct (Nat.eqb_spec x.1 h) as [E|]; cbn.
    - exfalso. apply (Hnd x.1); [left|rewrite E; by left].
    - f_equal. apply IH. intros y Hy. apply Hnd. by right. }
  split_and!; [done|unfold view; cbn; rewrite Hrem, Ho, fmap_app; done|cbn; rewrite Hrem, Ho, length_app; cbn; lia].
Qed.

Definition total (v : list lruEntry) : Z := foldr (fun e s => size e + s) 0 v.
Definition countable (v : list lruEntry) : Prop := Forall (fun e => 0 <= size e) v /\ total v <= max_int64.

Lemma total_app a b : total (a ++ b) = total a + total b.
Proof. unfold total. induction a as [|e a IH]; cbn; [done|]. lia. Qed.

Lemma total_one e : total [e] = size e.
Proof. unfold total. cbn. lia. Qed.

Lemma total_nonneg v : Forall (fun e => 0 <= size e) v -> 0 <= total v.
Proof. induction 1; cbn; [done|]. unfold total in *. lia. Qed.

Lemma evict_loop_ok fuel required freed keys l :
  lru_ok l -> (length (order l) <= fuel)%nat ->
  let '(keys', l') := evict_loop fuel required freed keys l in
  lru_ok l' /\ exists out, view l = view l' ++ out /\ keys' = keys ++ (key <$> reverse out) /\
    (countable (view l) -> 0 <= freed -> freed + total (view l) <= max_int64 ->
       (view l' = [] \/ required <= freed + total out) /\
       forall e out', out = e :: out' -> freed + total out' < required).
Proof.
  revert freed keys l. induction fuel as [|fuel IH]; intros freed keys l Hok Hf; cbn [evict_loop].
  { split; [done|]. exists []. rewrite !app_nil_r. split_and!; [done..|]. intros _ _ _. split; [left|done].
    unfold view. destruct (order l); [done|cbn in Hf; lia]. }
  destruct (Z.ltb_spec freed required).
  - destruct (last (order l)) as [[h e]|] eqn:El.
    + destruct (drop_last_ok l h e Hok El) as (Hd & Hv & Hlen).
      specialize (IH (int64 (freed + size e)) (keys ++ [key e]) _ Hd ltac:(lia)).
      destruct (evict_loop _ _ _ _ _) as [keys' l']. destruct IH as (Hok' & out & Hv' & Hk & Hc). split; [done|].
      exists (out ++ [e]). split_and!.
      * by rewrite Hv, Hv', app_assoc.
      * rewrite Hk, reverse_app, <- app_assoc. done.
      * intros [Hnn Hmax] H0 Hfit. rewrite Hv in Hnn, Hmax, Hfit. apply Forall_app in Hnn as [Hnn1 Hnn2].
        rewrite total_app, total_one in Hmax, Hfit. pose proof (total_nonneg _ Hnn1). apply Forall_inv in Hnn2.
        rewrite int64_small in Hc by (unfold in_int64, min_int64 in *; lia).
        destruct Hc as [Hc1 Hc2]; [split; [done|lia]|lia|lia|]. rewrite total_app, total_one. split.
        -- destruct Hc1 as [?|?]; [by left|right; lia].
        -- intros e' out' E. destruct out as [|e0 out0]; cbn in E; injection E as <- <-; [unfold total; cbn; lia|].
           rewrite total_app, total_one. specialize (Hc2 _ _ eq_refl). lia.
    + split; [done|]. exists []. rewrite !app_nil_r. split_and!; [done..|]. intros _ _ _. split; [left|done].
      unfold view. apply last_None in El. by rewrite El.
  - split; [done|]. exists []. rewrite !app_nil_r. split_and!; [done..|]. intros _ _ _. split; [right; unfold total; cbn; lia|done].
Qed.

Lemma lru_new_ok cap : lru_ok (newLRUCache cap).
Proof.
  split; cbn; [constructor| |intros h e H; by apply elem_of_nil in H|done]. intros k h. rewrite lookup_empty. split; [done|].
  intros (e & H & _). by apply elem_of_nil in H.
Qed.

Inductive lru_op := OGet (now : Z) (k : string) | OPut (now : Z) (k : string) (sz ttl : Z) | ORemove (k : string) | OEvict (required : Z).

Definition lru_step (op : lru_op) (l : lruCache) : lruCache :=
  match op with
  | OGet now k => (lru_get now k l).2
  | OPut now k sz ttl => lru_put now k sz ttl l
  | ORemove k => lru_remove k l
  | OEvict required => (evictForSpace required l).2
  end.

(** What the operations mean for a list of entries, most recently used first:
    a hit moves its entry to the front, a store puts one there, and eviction
    drops entries from the end, as many as are needed and no more. *)
Definition view_step (op : lru_op) (v v' : list lruEntry) : Prop :=
  match op with
  | OGet now k => v' = without k v \/ exists e, e ∈ v /\ key e = k /\ now < expiresAt e /\ v' = e :: without k v
  | OPut now k sz ttl => v' = mkLruEntry k sz (now + ttl) :: without k v
  | ORemove k => v' = without k v
  | OEvict required => exists out, v = v' ++ out /\
      (countable v -> (v' = [] \/ required <= total out) /\ forall e out', out = e :: out' -> total out' < required)
  end.

(** C26: the cache's list of use. Every run of lookups, stores, removals and
    evictions on the linked list, its index and its counter does what it should
    to the list of entries; the index has just the keys of the list, and the
    counter is the sum of the sizes. *)
Theorem lru_refines ops cap :
  let run := foldl (fun l op => lru_step op l) (newLRUCache cap) ops in
  lru_ok run /\ forall op, view_step op (view run) (view (lru_step op run)).
Proof.
  intros run.
  assert (forall l op, lru_ok l -> lru_ok (lru_step op l) /\ view_step op (view l) (view (lru_step op l))) as Hstep.
  { intros l [now k|now k sz ttl|k|required] Hok; cbn [lru_step view_step].
    - destruct (lru_get_ok now k l Hok) as (H1 & H2 & H3). split; [done|]. destruct (lru_get now k l).1 as [e|]; [right|by left].
      exists e. destruct (H3 e eq_refl) as (? & ? & ?). by split_and!.
    - by apply lru_put_ok.
    - by apply lru_remove_ok.
    - pose proof (evict_loop_ok (length (order l)) required 0 [] l Hok ltac:(lia)) as H. unfold evictForSpace.
      destruct (evict_loop _ _ _ _ _) as [keys l']. destruct H as (H1 & out & H2 & _ & H3). split; [done|]. exists out. split; [done|].
      intros Hc. apply H3; [done|lia|]. destruct Hc. lia. }
  assert (lru_ok run) as Hrun; [|split; [done|]; intros op; by apply Hstep].
  subst run. pose proof (lru_new_ok cap) as H0. revert H0. generalize (newLRUCache cap). induction ops as [|op ops IH]; intros l Hok; [done|]. cbn [foldl]. by apply IH, Hstep.
Qed.

(** ** Keys of entries and of indexes *)

Lemma hex_digit_not_t n : 0 <= n < 16 -> hex_digit n <> "t"%char.
Proof.
  intros Hn. assert (n ∈ seqZ 0 16) as H by (apply elem_of_seqZ; lia). revert H. clear Hn. vm_compute seqZ.
  intros H. repeat (apply elem_of_cons in H as [->|H]; [done|]). by apply elem_of_nil in H.
Qed.

Lemma Sum256_bytes bs : Forall (fun b => 0 <= b < 256) (Sha256.Sum256 bs).
Proof.
  unfold Sha256.Sum256. generalize (Sha256.blocks (length (Sha256.pad bs) / 64) Sha256.init (Sha256.pad bs)).
  induction l as [|z l IH]; cbn; [constructor|]. apply Forall_app. split; [exact (be_put_bytes 4 z)|done].
Qed.

(** No key of an entry is the key of an index. *)
Lemma keys_apart qc query tables table : generateCacheKey qc query tables <> getTableIndexKey qc table.
Proof.
  unfold generateCacheKey, getTableIndexKey, hashQuery. intros E%(inj (String.append _)).
  pose proof (Sum256_bytes (string_bytes (normalizeQuery query +:+ "|" +:+ Join "," tables))) as Hb.
  destruct (Sha256.Sum256 _) as [|b bs]; [done|]. apply Forall_inv in Hb. cbn in E. injection E as E _.
  apply (hex_digit_not_t (Z.shiftr b 4)); [|done]. rewrite Z.shiftr_div_pow2 by lia. split; [apply Z.div_pos; lia|].
  apply Z.div_lt_upper_bound; lia.
Qed.

(** ** The indexes *)

Definition answered (_ : cache_command) : bool := true.

Definition entry_key (qc : QueryCache) (k : string) : Prop := exists query tables, k = generateCacheKey qc query tables.

Lemma index_inj qc T T' : getTableIndexKey qc T = getTableIndexKey qc T' -> T = T'.
Proof. unfold getTableIndexKey. intros E%(inj (String.append _)). by apply (inj (String.append _)) in E. Qed.

Section index.
Context {R} `{!CacheCommands R, !CacheLaws R}.

(** Storing: the key goes into the index of every table, and no index loses
    a key within twice the time to live. *)
Definition index_one (qc : QueryCache) (now : Z) (k : string) (r : R) (T : string) : R :=
  EXPIRE now (getTableIndexKey qc T) (defaultTTL qc * 2) (SADD now (getTableIndexKey qc T) k r).

Lemma index_one_spec qc now k r T :
  0 < defaultTTL qc ->
  (forall t k', entry_key qc k' -> now <= t -> GET t k' (index_one qc now k r T) = GET t k' r) /\
  (forall T' t k', now <= t < now + 2 * defaultTTL qc -> k' ∈ SMEMBERS t (getTableIndexKey qc T') r \/ (k' = k /\ T' = T) ->
     k' ∈ SMEMBERS t (getTableIndexKey qc T') (index_one qc now k r T)).
Proof using CacheLaws0.
  intros Hpos. unfold index_one. split.
  - intros t k' (query & tables & ->) Ht. rewrite expire_get, sadd_get by (done || intros E; by apply (keys_apart qc query tables T)). done.
  - intros T' t k' Ht Hk'. destruct (decide (T' = T)) as [->|HT].
    + rewrite expire_members by (rewrite ?sadd_members; lia || set_solver).
      destruct (Z.ltb_spec t (now + defaultTTL qc * 2)); [|lia]. rewrite sadd_members.
      destruct Hk' as [Hk'|[-> _]]; [|set_solver]. apply elem_of_union_r. apply (members_same now t); [lia|done].
    + assert (getTableIndexKey qc T <> getTableIndexKey qc T') as Hne by (intros E; by apply HT; apply index_inj in E).
      rewrite expire_members_other, sadd_members_other by (done || lia). naive_solver.
Qed.

Lemma index_spec qc now k tables r :
  0 < defaultTTL qc ->
  let r' := updateTableIndex answered now qc k tables r in
  (forall t k', entry_key qc k' -> now <= t -> GET t k' r' = GET t k' r) /\
  (forall T t k', now <= t < now + 2 * defaultTTL qc -> k' ∈ SMEMBERS t (getTableIndexKey qc T) r \/ (k' = k /\ T ∈ tables) ->
     k' ∈ SMEMBERS t (getTableIndexKey qc T) r').
Proof using CacheLaws0.
  intros Hpos. unfold updateTableIndex. cbn [answered].
  revert r. induction tables as [|T tables IH]; intros r; cbn [foldl].
  { split; [done|]. intros T t k' _ [?|[_ H]]; [done|by apply elem_of_nil in H]. }
  destruct (index_one_spec qc now k r T Hpos) as [H1 H2]. destruct (IH (index_one qc now k r T)) as [H3 H4]. split.
  - intros t k' Hk' Ht. rewrite H3 by done. by apply H1.
  - intros T' t k' Ht Hk'. apply H4; [done|]. rewrite elem_of_cons in Hk'.
    destruct Hk' as [?|[-> [->|?]]]; [left; apply H2; [done|by left]|left; apply H2; [done|by right]|by right].
Qed.

(** The members of the indexes are keys of entries. *)
Definition indexes_ok (qc : QueryCache) (now : Z) (r : R) : Prop :=
  forall T x, x ∈ SMEMBERS now (getTableIndexKey qc T) r -> entry_key qc x.

Lemma indexes_ok_index qc now k tables r :
  0 < defaultTTL qc -> entry_key qc k -> indexes_ok qc now r -> indexes_ok qc now (updateTableIndex answered now qc k tables r).
Proof using CacheLaws0.
  intros Hpos Hk. unfold updateTableIndex. cbn [answered]. revert r. induction tables as [|T tables IH]; intros r Hok; [done|].
  cbn [foldl]. apply IH. intros T' x. destruct (decide (T' = T)) as [->|HT].
  - rewrite expire_members by (rewrite ?sadd_members; lia || set_solver).
    destruct (now <? now + defaultTTL qc * 2); [|set_solver]. rewrite sadd_members, elem_of_union, elem_of_singleton.
    intros [->|Hx]; [done|by eapply Hok].
  - assert (getTableIndexKey qc T <> getTableIndexKey qc T') as Hne by (intros E; by apply HT; apply index_inj in E).
    rewrite expire_members_other, sadd_members_other by (done || lia). apply Hok.
Qed.

(** Invalidation collects all keys of the tables, and removes their indexes. *)
Lemma collect_spec qc now tables keys r :
  let '(keys', r') := foldl (collect_keys answered now qc) (keys, r) tables in
  (forall t k, entry_key qc k -> now <= t -> GET t k r' = GET t k r) /\
  (forall T t, T ∉ tables -> now <= t -> SMEMBERS t (getTableIndexKey qc T) r' = SMEMBERS t (getTableIndexKey qc T) r) /\
  (forall T x, x ∈ SMEMBERS now (getTableIndexKey qc T) r' -> x ∈ SMEMBERS now (getTableIndexKey qc T) r) /\
  (forall x, x ∈ keys' <-> x ∈ keys \/ exists T, T ∈ tables /\ x ∈ SMEMBERS now (getTableIndexKey qc T) r).
Proof using CacheLaws0.
  revert keys r. induction tables as [|T tables IH]; intros keys r; cbn [foldl].
  { split_and!; [done..|]. intros x. split; [by left|]. intros [?|(T & HT & _)]; [done|by apply elem_of_nil in HT]. }
  unfold collect_keys at 2. cbn [answered].
  specialize (IH (keys ++ elements (SMEMBERS now (getTableIndexKey qc T) r)) (DEL now [getTableIndexKey qc T] r)).
  destruct (foldl _ _ tables) as [keys' r']. destruct IH as (H1 & H2 & H3 & H4). split_and!.
  - intros t k Hk Ht. rewrite H1 by done. apply del_get_other; [|done]. destruct Hk as (q & ts & ->).
    intros E%list_elem_of_singleton. by apply keys_apart in E.
  - intros T' t [HT HT']%not_elem_of_cons Ht. rewrite H2 by done. apply del_members; [|done].
    intros E%list_elem_of_singleton. by apply HT; apply index_inj in E.
  - intros T' x Hx. apply H3 in Hx. destruct (decide (T' = T)) as [->|HT].
    + by rewrite del_members_gone in Hx by (lia || by left).
    + rewrite del_members in Hx; [done| |lia]. intros E%list_elem_of_singleton. by apply HT; apply index_inj in E.
  - intros x. rewrite H4, elem_of_app, elem_of_elements. setoid_rewrite elem_of_cons. split.
    + intros [[?|Hx]|(T' & HT' & Hx)]; [by left|right; exists T; auto|]. destruct (decide (T' = T)) as [->|HT].
      * by rewrite del_members_gone in Hx by (lia || by left).
      * right. exists T'. split; [by right|]. rewrite del_members in Hx; [done| |lia].
        intros E%list_elem_of_singleton. by apply HT; apply index_inj in E.
    + intros [?|(T' & HT' & Hx)]; [by left; left|]. destruct (decide (T' = T)) as [->|HT]; [by left; right|].
      destruct HT' as [?|HT']; [done|]. right. exists T'. split; [done|]. rewrite del_members; [done| |lia].
      intros E%list_elem_of_singleton. by apply HT; apply index_inj in E.
Qed.
End index.

(** ** Hits *)

(** What is done to the cache, in order, with its time. *)
Inductive cache_event :=
| ESet (t : Z) (query result : string) (tables : list string)
| EGet (t : Z) (query : string) (tables : list string)
| EInvalidate (t : Z) (tables : list string).

Definition event_time (e : cache_event) : Z :=
  match e with ESet t _ _ _ | EGet t _ _ | EInvalidate t _ => t end.

(** The results that are valid: stored, and no table of theirs invalidated
    since; with the tables and the time. *)
Abbreviation valid_results := (gmap string (string * list string * Z)).

Section hits.
Context {R} `{!CacheCommands R, !CacheLaws R}.
Context (marshal : CacheEntry -> string) (unmarshal : string -> option CacheEntry) (toLower : string -> string).
(** [encoding/json] reads back an entry whose texts are valid UTF-8. *)
Context (utf8 : string -> Prop).
Definition plain (e : CacheEntry) : Prop := utf8 (Query e) /\ utf8 (Result e) /\ Forall utf8 (Tables e).
Hypothesis entry_roundtrip : forall e, plain e -> unmarshal (marshal e) = Some e.

(** Every background write happens at once. *)
Definition run_event (e : cache_event) (s : QueryCache * R) : QueryCache * R :=
  let '(qc, r) := s in
  match e with
  | ESet t query result tables =>
      let '(_, qc, r) := Set_ marshal toLower answered t query result tables qc r in (qc, r)
  | EGet t query tables =>
      let '(found, qc') := Get unmarshal answered t query tables qc r in
      (qc', match found with Some e => updateAccessStats marshal t qc (generateCacheKey qc query tables) e r | None => r end)
  | EInvalidate t tables =>
      let '(_, qc, r) := InvalidateByTables answered t tables qc r in (qc, r)
  end.

Definition valid_event (qc : QueryCache) (e : cache_event) (v : valid_results) : valid_results :=
  match e with
  | ESet t query result tables => <[generateCacheKey qc query tables := (result, tables, t)]> v
  | EGet _ _ _ => v
  | EInvalidate _ tables => base.filter (fun '(_, (_, ts, _)) => Forall (fun T => T ∉ tables) ts) v
  end.

(** An event that fits: not in the past, of valid texts, and a query that is
    valid is asked again within the time to live after it was stored. *)
Definition event_ok (qc : QueryCache) (now : Z) (v : valid_results) (e : cache_event) : Prop :=
  now <= event_time e /\
  match e with
  | ESet _ query result tables => utf8 query /\ utf8 result /\ Forall utf8 tables
  | EGet t query tables =>
      forall res ts s, v !! generateCacheKey qc query tables = Some (res, ts, s) -> t <= s + defaultTTL qc
  | EInvalidate _ _ => True
  end.

Inductive cache_run (qc0 : QueryCache) (r0 : R) : Z -> QueryCache * R -> valid_results -> Prop :=
| run_start t0 : (forall k, GET t0 k r0 = None /\ SMEMBERS t0 k r0 = ∅) -> cache_run qc0 r0 t0 (qc0, r0) ∅
| run_step now s v e : cache_run qc0 r0 now s v -> event_ok qc0 now v e ->
    cache_run qc0 r0 (event_time e) (run_event e s) (valid_event qc0 e v).

(** The settings do not change. *)
Definition same_settings (qc qc' : QueryCache) : Prop :=
  defaultTTL qc = defaultTTL qc' /\ cacheKeyPrefix qc = cacheKeyPrefix qc'.

(** What Redis has for a key is valid, and will be gone or listed in the index
    of each of its tables when it is invalidated. *)
Definition redis_ok (qc : QueryCache) (now : Z) (v : valid_results) (r : R) : Prop :=
  forall k data, entry_key qc k -> GET now k r = Some data ->
    exists e ts s, unmarshal data = Some e /\ plain e /\ v !! k = Some (Result e, ts, s) /\
      (forall t, now <= t -> s + 2 * defaultTTL qc <= t -> GET t k r = None) /\
      (forall T t, T ∈ ts -> now <= t < s + 2 * defaultTTL qc -> k ∈ SMEMBERS t (getTableIndexKey qc T) r).

Lemma redis_ok_later qc now now' v r : now <= now' -> redis_ok qc now v r -> redis_ok qc now' v r.
Proof using CacheLaws0.
  intros Hle H k data Hk Hg. destruct (H k data Hk) as (e & ts & s & H1 & H2 & H3 & H4 & H5); [by eapply get_same|].
  exists e, ts, s. split_and!; [done..| |]; intros; [apply H4|apply H5]; done || lia.
Qed.

Lemma redis_ok_del qc now v ks r :
  (forall T, getTableIndexKey qc T ∉ ks) -> redis_ok qc now v r -> redis_ok qc now v (DEL now ks r).
Proof using CacheLaws0.
  intros Hks H k data Hk Hg. destruct (decide (k ∈ ks)) as [Hin|Hin]; [by rewrite del_get in Hg|].
  rewrite del_get_other in Hg by done. destruct (H k data Hk Hg) as (e & ts & s & H1 & H2 & H3 & H4 & H5).
  exists e, ts, s. split_and!; [done..| |].
  - intros t Ht Hs. rewrite del_get_other by done. auto.
  - intros T t HT Ht. rewrite del_members by (done || lia). auto.
Qed.

Lemma redis_ok_set qc now v r query result tables e ts s :
  0 < defaultTTL qc -> let k := generateCacheKey qc query tables in
  redis_ok qc now v r -> plain e -> Result e = result -> now + defaultTTL qc <= s + 2 * defaultTTL qc ->
  (forall T t, T ∈ ts -> now <= t < s + 2 * defaultTTL qc -> k ∈ SMEMBERS t (getTableIndexKey qc T) r) ->
  redis_ok qc now (<[k := (result, ts, s)]> v) (SET now k (marshal e) (defaultTTL qc) r).
Proof using CacheLaws0 entry_roundtrip.
  intros Hpos k Hok Hpl <- Hs Hidx k' data Hk' Hg. destruct (decide (k' = k)) as [->|Hne].
  - rewrite set_get in Hg by (done || lia). destruct (Z.ltb_spec now (now + defaultTTL qc)); [|lia]. injection Hg as <-.
    exists e, ts, s. rewrite lookup_insert_eq. split_and!; [by apply entry_roundtrip|done|done| |].
    + intros t Ht Hts. rewrite set_get by (done || lia). destruct (Z.ltb_spec t (now + defaultTTL qc)); [lia|done].
    + intros T t HT Ht. rewrite set_members; [by apply Hidx| |lia]. apply keys_apart.
  - rewrite set_get_other in Hg by (done || lia). destruct (Hok k' data Hk' Hg) as (e' & ts' & s' & H1 & H2 & H3 & H4 & H5).
    exists e', ts', s'. rewrite lookup_insert_ne by done. split_and!; [done..| |].
    + intros t Ht Hts. rewrite set_get_other by done. auto.
    + intros T t HT Ht. rewrite set_members; [by apply H5| |lia]. apply keys_apart.
Qed.

(** All that is kept along a run. *)
Record cache_ok (qc0 : QueryCache) (now : Z) (qc : QueryCache) (r : R) (v : valid_results) : Prop := {
  co_same : same_settings qc0 qc;
  co_lru : lru_ok (lru qc);
  co_keys : forall e, e ∈ view (lru qc) -> entry_key qc0 (key e);
  co_redis : redis_ok qc0 now v r;
  co_index : indexes_ok qc0 now r;
}.

Lemma same_key_of qc qc' query tables : same_settings qc qc' -> generateCacheKey qc' query tables = generateCacheKey qc query tables.
Proof. intros [_ E]. unfold generateCacheKey. by rewrite E. Qed.

Lemma same_index_of qc qc' : same_settings qc qc' -> forall T, getTableIndexKey qc' T = getTableIndexKey qc T.
Proof. intros [_ E] T. unfold getTableIndexKey. by rewrite E. Qed.

Lemma put_keys qc now query tables sz ttl l :
  lru_ok l -> (forall e, e ∈ view l -> entry_key qc (key e)) ->
  forall e, e ∈ view (lru_put now (generateCacheKey qc query tables) sz ttl l) -> entry_key qc (key e).
Proof.
  intros Hok Hk e. destruct (lru_put_ok now (generateCacheKey qc query tables) sz ttl l Hok) as [_ ->].
  intros [->|He]%elem_of_cons; [by exists query, tables|]. apply list_elem_of_filter in He as [_ He]. auto.
Qed.

(** Eviction removes entries only. *)
Lemma evict_ok qc0 qc now v r required :
  cache_ok qc0 now qc r v ->
  cache_ok qc0 now (evictLRU answered now required qc r).1 (evictLRU answered now required qc r).2 v /\
  same_settings qc (evictLRU answered now required qc r).1.
Proof using CacheLaws0.
  intros [H1 H2 H3 H4 H5]. unfold evictLRU, evictForSpace.
  pose proof (evict_loop_ok (length (order (lru qc))) required 0 [] (lru qc) H2 ltac:(lia)) as H.
  destruct (evict_loop _ _ _ _ _) as [keys l]. destruct H as (Hl & out & Hv & -> & _). cbn [app fst snd answered].
  assert (forall k, k ∈ key <$> reverse out -> entry_key qc0 k) as Hkeys.
  { intros k (e & -> & He)%list_elem_of_fmap. apply H3. rewrite Hv, elem_of_app. right. by apply elem_of_reverse. }
  assert (forall T, getTableIndexKey qc0 T ∉ key <$> reverse out) as Hapart.
  { intros T (query & tables & E)%Hkeys. symmetry in E. by apply keys_apart in E. }
  split; [|done]. split; cbn.
  - done.
  - done.
  - intros e He. apply H3. rewrite Hv, elem_of_app. by left.
  - destruct (key <$> reverse out) eqn:E; [done|]. by apply redis_ok_del.
  - destruct (key <$> reverse out) eqn:E; [done|]. intros T x. rewrite del_members by (apply Hapart || lia). apply H5.
Qed.

Lemma update_index_same qc qc' now k tables (r : R) :
  same_settings qc qc' -> updateTableIndex answered now qc' k tables r = updateTableIndex answered now qc k tables r.
Proof.
  intros H. unfold updateTableIndex. revert r. induction tables as [|T tables IH]; intros r; [done|]. cbn [foldl].
  rewrite IH. f_equal. cbn [answered]. by rewrite (same_index_of qc qc' H), (proj1 H).
Qed.

Lemma redis_ok_index qc now v k tables r :
  0 < defaultTTL qc -> (forall k res ts s, v !! k = Some (res, ts, s) -> s <= now) ->
  redis_ok qc now v r -> redis_ok qc now v (updateTableIndex answered now qc k tables r).
Proof using CacheLaws0.
  intros Hpos Hs Hok k' data Hk' Hg. destruct (index_spec qc now k tables r Hpos) as [H1 H2]. rewrite H1 in Hg by (done || lia).
  destruct (Hok k' data Hk' Hg) as (e & ts & s & H3 & H4 & H5 & H6 & H7). exists e, ts, s. split_and!; [done..| |].
  - intros t Ht Hts. rewrite H1 by done. auto.
  - intros T t HT Ht. pose proof (Hs _ _ _ _ H5). apply H2; [lia|]. left. auto.
Qed.

Lemma set_ok qc0 qc now v r query result tables :
  0 < defaultTTL qc0 -> utf8 query -> utf8 result -> Forall utf8 tables -> (forall k res ts s, v !! k = Some (res, ts, s) -> s <= now) ->
  cache_ok qc0 now qc r v ->
  let '(qc', r') := run_event (ESet now query result tables) (qc, r) in
  cache_ok qc0 now qc' r' (valid_event qc0 (ESet now query result tables) v).
Proof using CacheLaws0 entry_roundtrip.
  intros Hpos Hq Hr Ht Hs Hok. cbn [run_event valid_event]. unfold Set_. cbn [answered negb].
  rewrite (same_key_of qc0 qc) by apply Hok. set (k := generateCacheKey qc0 query tables).
  set (data := marshal (new_entry toLower now query result tables)). set (sz := Z.of_nat (String.length data)).
  assert (exists qc1 r1, (if needsEviction sz (lru qc) then evictLRU answered now sz qc r else (qc, r)) = (qc1, r1) /\ cache_ok qc0 now qc1 r1 v)
    as (qc1 & r1 & -> & [H1 H2 H3 H4 H5]).
  { destruct (needsEviction sz (lru qc)); [|by exists qc, r]. destruct (evict_ok qc0 qc now v r sz Hok) as [He _].
    exists (evictLRU answered now sz qc r).1, (evictLRU answered now sz qc r).2. by destruct (evictLRU answered now sz qc r). }
  set (qc2 := with_lru (lru_put now k sz (defaultTTL qc1) (lru qc1)) qc1).
  rewrite (update_index_same qc0 qc2) by exact H1. replace (defaultTTL qc1) with (defaultTTL qc0) by apply H1.
  assert (entry_key qc0 k) as Hk by (by exists query, tables).
  destruct (index_spec qc0 now k tables r1 Hpos) as [Hget Hmem].
  split; cbn [lru qc2 with_lru].
  - exact H1.
  - by apply lru_put_ok.
  - by apply put_keys.
  - (* the entry is written, then the indexes *)
    intros k' d Hk' Hg. destruct (index_spec qc0 now k tables (SET now k data (defaultTTL qc0) r1) Hpos) as [Hg2 Hm2].
    rewrite Hg2 in Hg by (done || lia). destruct (decide (k' = k)) as [->|Hne].
    + rewrite set_get in Hg by (done || lia). destruct (Z.ltb_spec now (now + defaultTTL qc0)); [|lia]. injection Hg as <-.
      exists (new_entry toLower now query result tables), tables, now. rewrite lookup_insert_eq.
      split_and!; [by apply entry_roundtrip|done|done| |].
      * intros t Ht' Hts. rewrite Hg2, set_get by (done || lia). destruct (Z.ltb_spec t (now + defaultTTL qc0)); [lia|done].
      * intros T t HT Ht'. apply Hm2; [lia|by right].
    + rewrite set_get_other in Hg by (done || lia). destruct (H4 k' d Hk' Hg) as (e' & ts' & s' & G1 & G2 & G3 & G4 & G5).
      exists e', ts', s'. rewrite lookup_insert_ne by done. pose proof (Hs _ _ _ _ G3). split_and!; [done..| |].
      * intros t Ht' Hts. rewrite Hg2, set_get_other by (done || lia). auto.
      * intros T t HT Ht'. apply Hm2; [lia|]. left. rewrite set_members by (apply keys_apart || lia). auto.
  - apply indexes_ok_index; [done..|]. intros T x. rewrite set_members by (apply keys_apart || lia). apply H5.
Qed.

(** A lookup finds what Redis has, and keeps the list of use in order. *)
Lemma get_again qc0 qc now k query tables (r : R) l :
  same_settings qc0 qc -> k = generateCacheKey qc0 query tables ->
  lru_ok l -> (forall e, e ∈ view l -> entry_key qc0 (key e)) ->
  exists found qc', (match GET now k r ≫= unmarshal with
    | Some e => (Some (access e), recordCacheHit (with_lru (lru_put now k (Size e) (defaultTTL (with_lru l qc)) l) (with_lru l qc)))
    | None => (None, recordCacheMiss (with_lru l qc)) end) = (found, qc') /\ same_settings qc0 qc' /\ lru_ok (lru qc') /\
  (forall e, e ∈ view (lru qc') -> entry_key qc0 (key e)) /\
  (forall e, found = Some e -> exists d, GET now k r = Some d /\ access <$> unmarshal d = Some e).
Proof.
  intros H1 -> K1 K2. destruct (GET now _ r) as [d|]; cbn [mbind option_bind]; [destruct (unmarshal d) as [e|] eqn:Eu|].
  - eexists _, _. split; [reflexivity|]. cbn. split_and!; [done|by apply lru_put_ok|by apply put_keys|].
    intros e' [= <-]. exists d. by rewrite Eu.
  - eexists _, _. split; [reflexivity|]. cbn. by split_and!.
  - eexists _, _. split; [reflexivity|]. cbn. by split_and!.
Qed.

Lemma get_found qc0 qc now query tables (r : R) :
  same_settings qc0 qc -> lru_ok (lru qc) -> (forall e, e ∈ view (lru qc) -> entry_key qc0 (key e)) ->
  let k := generateCacheKey qc0 query tables in
  exists found qc', Get unmarshal answered now query tables qc r = (found, qc') /\ same_settings qc0 qc' /\ lru_ok (lru qc') /\
    (forall e, e ∈ view (lru qc') -> entry_key qc0 (key e)) /\
    (forall e, found = Some e -> exists d, GET now k r = Some d /\ access <$> unmarshal d = Some e).
Proof.
  intros H1 H2 H3 k. unfold Get. rewrite (same_key_of qc0 qc) by done. fold k. destruct (lru_get_ok now k (lru qc) H2) as (L1 & L2 & L3).
  assert (forall e, e ∈ view (lru_get now k (lru qc)).2 -> entry_key qc0 (key e)) as L4.
  { intros e He. rewrite L2 in He. destruct ((lru_get now k (lru qc)).1) as [e1|] eqn:E1.
    - apply elem_of_cons in He as [->|He]; [destruct (L3 e1 eq_refl) as (_ & -> & _); by exists query, tables|].
      apply list_elem_of_filter in He as [_ He]. auto.
    - apply list_elem_of_filter in He as [_ He]. auto. }
  destruct (lru_get now k (lru qc)) as [hit l]. cbn [fst snd] in *. unfold get. cbn [answered].
  destruct hit as [e1|]; [|by apply (get_again qc0 qc now k query tables r l)].
  destruct (GET now k r ≫= unmarshal) as [e|] eqn:Eu.
  - eexists _, _. split; [reflexivity|]. cbn. split_and!; [done..|]. intros e' [= <-].
    destruct (GET now k r) as [d|]; [|done]. cbn in Eu. exists d. by rewrite Eu.
  - destruct (lru_remove_ok k l L1) as [R1 R2].
    eexists _, _. split; [reflexivity|]. cbn. split_and!; [done..| |done]. intros e He. rewrite R2 in He. apply list_elem_of_filter in He as [_ He]. auto.
Qed.

(** A hit and its write back. *)
Lemma get_ok qc0 qc now v r query tables :
  0 < defaultTTL qc0 -> event_ok qc0 now v (EGet now query tables) -> cache_ok qc0 now qc r v ->
  (let '(qc', r') := run_event (EGet now query tables) (qc, r) in cache_ok qc0 now qc' r' v) /\
  forall e, (Get unmarshal answered now query tables qc r).1 = Some e ->
    exists ts s, v !! generateCacheKey qc0 query tables = Some (Result e, ts, s).
Proof using CacheLaws0 entry_roundtrip.
  intros Hpos [_ Hprompt] [H1 H2 H3 H4 H5]. set (k := generateCacheKey qc0 query tables) in *.
  assert (entry_key qc0 k) as Hk by (by exists query, tables).
  destruct (get_found qc0 qc now query tables r H1 H2 H3) as (found & qc' & Eg & G1 & G2 & G3 & G4). fold k in G4.
  cbn [run_event]. rewrite Eg. cbn [fst]. destruct found as [e|]; [|split; [by split|done]].
  destruct (G4 e eq_refl) as (d & Hd & He). destruct (H4 k d Hk Hd) as (e0 & ts & s & U1 & U2 & U3 & U4 & U5).
  rewrite U1 in He. injection He as <-. split; [|intros e [= <-]; by exists ts, s].
  unfold updateAccessStats. rewrite (same_key_of qc0 qc) by done. fold k. replace (defaultTTL qc) with (defaultTTL qc0) by apply H1.
  split; [done..| |].
  - pose proof (redis_ok_set qc0 now v r query (Result e0) tables (access e0) ts s Hpos H4) as Hset. cbv zeta in Hset. fold k in Hset.
    rewrite insert_id in Hset by done. apply Hset; [done|done| |].
    + pose proof (Hprompt _ _ _ U3). lia.
    + intros T t HT Ht. auto.
  - intros T x. rewrite set_members by (apply keys_apart || lia). apply H5.
Qed.

Lemma invalidate_ok qc0 qc now v r tables :
  cache_ok qc0 now qc r v ->
  let '(qc', r') := run_event (EInvalidate now tables) (qc, r) in
  cache_ok qc0 now qc' r' (valid_event qc0 (EInvalidate now tables) v).
Proof using CacheLaws0.
  intros [H1 H2 H3 H4 H5]. cbn [run_event valid_event]. unfold InvalidateByTables.
  pose proof (collect_spec qc now tables [] r) as Hc.
  destruct (foldl _ _ tables) as [keys r1]. destruct Hc as (C1 & C2 & C3 & C4).
  setoid_rewrite (same_index_of qc0 qc H1) in C2. setoid_rewrite (same_index_of qc0 qc H1) in C3.
  setoid_rewrite (same_index_of qc0 qc H1) in C4.
  assert (forall k, entry_key qc0 k -> entry_key qc k) as Hek.
  { intros k (q & ts & ->). exists q, ts. by rewrite (same_key_of qc0 qc). }
  assert (forall k, k ∈ keys -> entry_key qc0 k) as Hkeys.
  { intros k [Hk|(T & _ & Hx)]%C4; [by apply elem_of_nil in Hk|by eapply H5]. }
  assert (forall T, getTableIndexKey qc0 T ∉ keys) as Hapart.
  { intros T (q & ts & E)%Hkeys. symmetry in E. by apply keys_apart in E. }
  assert (forall r', (forall t k, entry_key qc0 k -> now <= t -> k ∉ keys -> GET t k r' = GET t k r1) ->
      (forall t k, k ∈ keys -> now <= t -> GET t k r' = None) ->
      (forall T t, now <= t -> SMEMBERS t (getTableIndexKey qc0 T) r' = SMEMBERS t (getTableIndexKey qc0 T) r1) ->
    redis_ok qc0 now (base.filter (fun '(_, (_, ts, _)) => Forall (fun T => T ∉ tables) ts) v) r' /\ indexes_ok qc0 now r') as Hfinal.
  { intros r' D1 D2 D3. split; [|intros T x; rewrite D3 by lia; intros Hx%C3; by eapply H5].
    intros k d Hk Hg. destruct (decide (k ∈ keys)) as [Hin|Hin]; [by rewrite D2 in Hg by (done || lia)|].
    rewrite D1, C1 in Hg by (auto || lia). destruct (H4 k d Hk Hg) as (e & ts & s & U1 & U2 & U3 & U4 & U5).
    assert (now < s + 2 * defaultTTL qc0) as Hlive.
    { destruct (decide (s + 2 * defaultTTL qc0 <= now)); [|lia]. rewrite U4 in Hg by lia. done. }
    assert (Forall (fun T => T ∉ tables) ts) as Hts.
    { apply Forall_forall. intros T HT HT'. apply Hin, C4. right. exists T. split; [done|]. apply U5; [done|lia]. }
    exists e, ts, s. split_and!; [done|done|by apply map_lookup_filter_Some| |].
    - intros t Ht Hst. rewrite D1, C1 by (auto || lia). auto.
    - intros T t HT Ht. rewrite Forall_forall in Hts. rewrite D3, C2 by (auto || lia). auto. }
  destruct keys as [|k0 ks].
  - destruct (Hfinal r1) as [F1 F2]; [done| |done|by split]. intros t k Hk. by apply elem_of_nil in Hk.
  - cbn [answered negb]. destruct (Hfinal (DEL now (k0 :: ks) r1)) as [F1 F2].
    + intros t k _ Ht Hk. by apply del_get_other.
    + intros t k Hk Ht. by apply del_get.
    + intros T t Ht. apply del_members; [apply Hapart|done].
    + assert (forall (l : list string) (c : lruCache), lru_ok c -> (forall e, e ∈ view c -> entry_key qc0 (key e)) ->
        lru_ok (foldl (fun c k => lru_remove k c) c l) /\ forall e, e ∈ view (foldl (fun c k => lru_remove k c) c l) -> entry_key qc0 (key e)) as Hrem.
      { induction l as [|x l IH]; intros c K1 K2; [done|]. cbn [foldl]. destruct (lru_remove_ok x c K1) as [R1 R2].
        apply IH; [done|]. intros e He. rewrite R2 in He. apply list_elem_of_filter in He as [_ He]. auto. }
      destruct (Hrem (k0 :: ks) (lru qc) H2 H3) as [K1 K2]. by split.
Qed.

(** C25: what a hit returns. In a run of stores, lookups and invalidations in
    which Redis answers, the write back of a lookup happens at once, and a query
    is not asked again later than its time to live after it was stored: whatever
    a lookup finds is the result that was stored last under its key, and none of
    the tables it was stored with has been invalidated since. *)
Theorem cache_hits_valid qc0 r0 now qc r v query tables e :
  0 < defaultTTL qc0 -> lru_ok (lru qc0) -> view (lru qc0) = [] ->
  cache_run qc0 r0 now (qc, r) v -> event_ok qc0 now v (EGet now query tables) ->
  (Get unmarshal answered now query tables qc r).1 = Some e ->
  exists ts s, v !! generateCacheKey qc0 query tables = Some (Result e, ts, s).
Proof using CacheLaws0 entry_roundtrip.
  intros Hpos Hlru Hempty Hrun Hev. 
  assert (cache_ok qc0 now qc r v /\ forall k res ts s, v !! k = Some (res, ts, s) -> s <= now) as [Hok _]; [|by apply get_ok].
  clear Hev. remember (qc, r) as st eqn:Est. revert qc r Est. induction Hrun as [t0 H0|now [qc1 r1] v ev Hrun IH Hok]; intros qc r Est.
  - injection Est as <- <-. split; [|intros k res ts s; by rewrite lookup_empty]. split; [done|done|by rewrite Hempty; intros e' He'%elem_of_nil| |].
    + intros k d _ Hg. by rewrite (proj1 (H0 k)) in Hg.
    + intros T x. rewrite (proj2 (H0 _)). by intros ?%elem_of_empty.
  - destruct (IH qc1 r1 eq_refl) as [[H1 H2 H3 H4 H5] Hs]. destruct Hok as [Hle Hev].
    assert (cache_ok qc0 (event_time ev) qc1 r1 v) as Hc.
    { split; [done..|by eapply redis_ok_later|]. intros T x Hx. apply (H5 T). by eapply members_same. }
    assert (forall k res ts s, v !! k = Some (res, ts, s) -> s <= event_time ev) as Hs' by (intros; etransitivity; [by eapply Hs|done]).
    destruct ev as [t q res ts|t q ts|t ts]; cbn [event_time] in *.
    + destruct Hev as (V1 & V2 & V3). pose proof (set_ok qc0 qc1 t v r1 q res ts Hpos V1 V2 V3 Hs' Hc) as Hset. rewrite Est in Hset.
      split; [done|]. intros k res' ts' s. cbn [valid_event]. intros [[_ [= _ _ <-]]|[_ Hk]]%lookup_insert_Some; [lia|by eapply Hs'].
    + destruct (get_ok qc0 qc1 t v r1 q ts Hpos (conj (Z.le_refl t) Hev) Hc) as [Hget _]. rewrite Est in Hget. by split.
    + pose proof (invalidate_ok qc0 qc1 t v r1 ts Hc) as Hinv. rewrite Est in Hinv. split; [done|].
      intros k res' ts' s. cbn [valid_event]. intros [Hk _]%map_lookup_filter_Some. by eapply Hs'.
Qed.
End hits.

(** ** A store, and what goes wrong *)

Module CacheDemo.
Record store := mkStore { texts : gmap string (string * Z); groups : gmap string (gset string * option Z) }.

Definition text_at (now : Z) (k : string) (r : store) : option string :=
  match texts r !! k with Some (v, d) => if now <? d then Some v else None | None => None end.
Definition group_at (now : Z) (k : string) (r : store) : gset string :=
  match groups r !! k with Some (x, Some d) => if now <? d then x else ∅ | Some (x, None) => x | None => ∅ end.

#[export] Instance store_cache : CacheCommands store := {|
  GET := text_at;
  SET now k v ttl r := mkStore (<[k := (v, now + ttl)]> (texts r)) (groups r);
  DEL now ks r := mkStore (base.filter (fun '(k, _) => k ∉ ks) (texts r)) (base.filter (fun '(k, _) => k ∉ ks) (groups r));
  SMEMBERS := group_at;
  SADD now k x r := mkStore (texts r) (<[k := ({[x]} ∪ group_at now k r,
    match groups r !! k with Some (_, Some d) => if now <? d then Some d else None | _ => None end)]> (groups r));
  EXPIRE now k ttl r := mkStore (texts r)
    (if bool_decide (group_at now k r = ∅) then groups r else <[k := (group_at now k r, Some (now + ttl))]> (groups r));
|}.

#[export] Instance store_cache_laws : CacheLaws store.
Proof.
  split; cbn; unfold text_at, group_at; cbn.
  - intros now t k r Ht. destruct (texts r !! k) as [[v d]|]; [|done]. destruct (Z.ltb_spec now d), (Z.ltb_spec t d); done || lia.
  - intros now t k v r Ht. destruct (texts r !! k) as [[w d]|]; [|done]. destruct (Z.ltb_spec now d), (Z.ltb_spec t d); done || lia.
  - intros. by rewrite lookup_insert_eq.
  - intros. by rewrite lookup_insert_ne.
  - done.
  - intros now t ks k r Hk Ht. rewrite map_lookup_filter_None_2; [done|]. right. by intros x _ H.
  - intros now t ks k r Hk Ht. destruct (texts r !! k) as [x|] eqn:E.
    + by rewrite (map_lookup_filter_Some_2 _ _ _ x E).
    + by rewrite map_lookup_filter_None_2 by (by left).
  - intros now t ks k r Hk Ht. destruct (groups r !! k) as [x|] eqn:E.
    + by rewrite (map_lookup_filter_Some_2 _ _ _ x E).
    + by rewrite map_lookup_filter_None_2 by (by left).
  - intros now t ks k r Hk Ht. rewrite map_lookup_filter_None_2; [done|]. right. by intros x _ H.
  - intros now t k x r Ht. destruct (groups r !! k) as [[s [d|]]|]; [|done..].
    destruct (Z.ltb_spec now d), (Z.ltb_spec t d); done || lia.
  - intros now k x r. rewrite lookup_insert_eq. destruct (groups r !! k) as [[s [d|]]|]; [|done..].
    destruct (now <? d) eqn:E; [by rewrite E|done].
  - intros. by rewrite lookup_insert_ne.
  - done.
  - intros now t k ttl r Hne Ht Hpos. rewrite bool_decide_eq_false_2 by exact Hne. rewrite lookup_insert_eq. done.
  - intros now t k k' ttl r Hne Ht. destruct (bool_decide _); [done|]. by rewrite lookup_insert_ne.
  - done.
Qed.

Definition text_of (e : CacheEntry) : string :=
  encode_text (Query e, QueryHash e, Result e, Tables e, Metadata e, CreatedAt e, AccessCount e, Size e).
Definition entry_of (s : string) : option CacheEntry :=
  match decode_text s : option (string * string * string * list string * gmap string string * Z * Z * Z) with
  | Some (q, h, res, ts, m, c, n, sz) => Some (mkCacheEntry q h res ts m c n sz)
  | None => None
  end.

Lemma entry_of_text e : entry_of (text_of e) = Some e.
Proof. unfold entry_of, text_of. rewrite decode_encode_text. by destruct e. Qed.

Definition qc0 : QueryCache := NewQueryCache (Some (mkCacheConfig 10 1000000 true "qc:")).
Definition r0 : store := mkStore ∅ ∅.
Definition sql : string := "SELECT * FROM sales".

Abbreviation do_event := (run_event text_of entry_of ToLower).

Definition v1 : valid_results := valid_event qc0 (ESet 0 sql "old" ["sales"]) ∅.
Definition v2 : valid_results := valid_event qc0 (EInvalidate 1 ["sales"]) v1.
Definition v3 : valid_results := valid_event qc0 (ESet 2 sql "new" ["sales"]) v2.
Definition s1 : QueryCache * store := do_event (ESet 0 sql "old" ["sales"]) (qc0, r0).
Definition s2 : QueryCache * store := do_event (EInvalidate 1 ["sales"]) s1.
Definition s3 : QueryCache * store := do_event (ESet 2 sql "new" ["sales"]) s2.

Lemma demo_run : cache_run text_of entry_of ToLower (fun _ => True) qc0 r0 2 s3 v3.
Proof.
  assert (cache_run text_of entry_of ToLower (fun _ => True) qc0 r0 0 (qc0, r0) ∅) as G0 by (apply run_start; intros k; split; reflexivity).
  assert (cache_run text_of entry_of ToLower (fun _ => True) qc0 r0 0 s1 v1) as G1.
  { refine (run_step _ _ _ _ _ _ _ _ _ (ESet 0 sql "old" ["sales"]) G0 _). split; [cbn; lia|repeat constructor]. }
  assert (cache_run text_of entry_of ToLower (fun _ => True) qc0 r0 1 s2 v2) as G2.
  { refine (run_step _ _ _ _ _ _ _ _ _ (EInvalidate 1 ["sales"]) G1 _). split; [cbn; lia|exact I]. }
  refine (run_step _ _ _ _ _ _ _ _ _ (ESet 2 sql "new" ["sales"]) G2 _). split; [cbn; lia|repeat constructor].
Qed.

Lemma cache_hits_valid_witness :
  exists e, (Get entry_of answered 2 "select *  from SALES" ["sales"] s3.1 s3.2).1 = Some e /\ Result e = "new".
Proof.
  destruct ((Get entry_of answered 2 "select *  from SALES" ["sales"] s3.1 s3.2).1) as [e|] eqn:E; [|vm_compute in E; discriminate].
  exists e. split; [reflexivity|].
  destruct (cache_hits_valid text_of entry_of ToLower (fun _ => True) (fun e _ => entry_of_text e) qc0 r0 2 s3.1 s3.2 v3
    "select *  from SALES" ["sales"] e) as (ts & s & H).
  - reflexivity.
  - apply lru_new_ok.
  - reflexivity.
  - rewrite <- (surjective_pairing s3). exact demo_run.
  - split; [cbn; lia|]. intros res ts s Hv. vm_compute in Hv. injection Hv as <- <- <-. vm_compute. discriminate.
  - exact E.
  - vm_compute in H. injection H as H _ _. by rewrite H.
Defined.

(** How a stale result comes back. The write back of a lookup that is late
    restores an entry that was invalidated meanwhile. An entry that is asked
    for again and again outlives the index of its table, so that invalidating
    the table no longer reaches it. And two queries whose literals differ in
    spaces only share a key. *)
Theorem stale_results :
  (let '(found, qc) := Get entry_of answered 1 sql ["sales"] s1.1 s1.2 in
   let '(_, qc, r) := InvalidateByTables answered 2 ["sales"] qc s1.2 in
   let r := match found with Some e => updateAccessStats text_of 3 qc (generateCacheKey qc sql ["sales"]) e r | None => r end in
   Result <$> (Get entry_of answered 4 sql ["sales"] qc r).1) = Some "old" /\
  (let s := foldl (fun s t => do_event (EGet t sql ["sales"]) s) s1 [9; 18] in
   let s := do_event (EInvalidate 21 ["sales"]) s in
   Result <$> (Get entry_of answered 22 sql ["sales"] s.1 s.2).1) = Some "old" /\
  generateCacheKey qc0 "SELECT * FROM t WHERE a = 'x  y'" ["t"] = generateCacheKey qc0 "SELECT * FROM t WHERE a = 'x y'" ["t"].
Proof. vm_compute. split_and!; reflexivity. Qed.
End CacheDemo.
