(* ===== verification/FileCache.v ===== *)
(** * The cache of downloaded files (internal/query/file_cache.go)

    Objects of the store are kept as files in a directory, named by a hash of
    the object's name. An index in memory has the size, age and content hash of
    each; files are removed to make room and when they are too old. *)

From S2P Require Import Prelude GoStrings GoTime GoHeap GoOrder FieldMapping ConsistentHash GoCrypto QueryCache.
From Stdlib Require Import Ascii.
#[local] Open Scope Z_scope.

Record file := mkFile { content : string; mtime : Z }.
Abbreviation files := (gmap string file).
Definition file_size (f : file) : Z := Z.of_nat (String.length (content f)).

Record FileCacheEntry := mkFileCacheEntry {
  ObjectName : string; LocalPath : string; fc_Size : Z; fc_CreatedAt : Z; LastAccessed : Z; fc_AccessCount : Z; Hash : string;
}.

Record FileCacheConfig := mkFileCacheConfig { CacheDir : string; fc_MaxCacheSize : Z; MaxFileAge : Z }.
Definition minute : Z := 60 * second.
Definition defaultFileCacheConfig (tempDir : string) : FileCacheConfig :=
  mkFileCacheConfig (tempDir +:+ "/miniodb_file_cache") (500 * 1024 * 1024) (120 * minute).

Record FileCache := mkFileCache {
  cacheDir : string; maxSize : Z; maxFileAge : Z; currentSize : Z;
  cacheIndex : gmap string FileCacheEntry; accessStats : gmap string Z;
}.

Definition set_index (size : Z) (index : gmap string FileCacheEntry) (stats : gmap string Z) (fc : FileCache) : FileCache :=
  mkFileCache (cacheDir fc) (maxSize fc) (maxFileAge fc) size index stats.

(** [hex.EncodeToString] of the SHA-256 of a file. *)
Definition sha256_hex (s : string) : string := hex_encode (Sha256.Sum256 (string_bytes s)).

Inductive cache_file_error (E : Type) := DownloadFailed (e : E) | StatFailed | CopyFailed.
Arguments DownloadFailed {E} e. Arguments StatFailed {E}. Arguments CopyFailed {E}.

(** What the operating system does to single calls. *)
Record os_env := mkEnv {
  remove_ok : string -> bool;       (* [os.Remove] of a file that is there *)
  copy_ok : bool;                   (* [copyFile] to its end *)
  partial : option string;          (* what a failing copy leaves at the target *)
  hash_ok : bool;                   (* reading the file back for its hash *)
}.

Section cache.
(** [hex.EncodeToString] of [md5.Sum], and [range] over the index. *)
Context {E : Type} (md5_hex : string -> string) (range : forall A, gmap string A -> list (string * A)).

Definition generateCacheKey (objectName : string) : string :=
  let ext := Ext objectName in
  md5_hex objectName +:+ (if bool_decide (ext = "") then ".parquet" else ext).

Definition validateFileHash (fs : files) (path expectedHash : string) : bool :=
  match fs !! path with Some f => bool_decide (sha256_hex (content f) = expectedHash) | None => false end.

Definition isCacheValid (now : Z) (fc : FileCache) (fs : files) (entry : FileCacheEntry) : bool :=
  bool_decide (is_Some (fs !! LocalPath entry)) && negb (maxFileAge fc <? now - fc_CreatedAt entry) &&
  (bool_decide (Hash entry = "") || validateFileHash fs (LocalPath entry) (Hash entry)).

Definition updateAccessStats (now : Z) (key : string) (entry : FileCacheEntry) (fc : FileCache) : FileCache :=
  let entry := mkFileCacheEntry (ObjectName entry) (LocalPath entry) (fc_Size entry) (fc_CreatedAt entry) now
    (int64 (fc_AccessCount entry + 1)) (Hash entry) in
  set_index (currentSize fc) (<[key := entry]> (cacheIndex fc)) (<[key := now]> (accessStats fc)) fc.

(** [os.Remove]; a file that is not there is fine. *)
Definition removeFromCache (env : os_env) (entry : FileCacheEntry) (fc : FileCache) (fs : files) : bool * FileCache * files :=
  if bool_decide (is_Some (fs !! LocalPath entry)) && negb (remove_ok env (LocalPath entry)) then (false, fc, fs) else
  let key := generateCacheKey (ObjectName entry) in
  (true, set_index (int64 (currentSize fc - fc_Size entry)) (delete key (cacheIndex fc)) (delete key (accessStats fc)) fc,
   delete (LocalPath entry) fs).

Fixpoint evict_files (env : os_env) (requiredSpace freedSpace : Z) (entries : list FileCacheEntry) (fc : FileCache) (fs : files) :
    FileCache * files :=
  match entries with
  | [] => (fc, fs)
  | entry :: entries =>
      if requiredSpace <=? freedSpace then (fc, fs) else
      let '(ok, fc, fs) := removeFromCache env entry fc fs in
      evict_files env requiredSpace (if ok then int64 (freedSpace + fc_Size entry) else freedSpace) entries fc fs
  end.

Definition ensureCacheSpace (env : os_env) (requiredSpace : Z) (fc : FileCache) (fs : files) : FileCache * files :=
  if int64 (currentSize fc + requiredSpace) <=? maxSize fc then (fc, fs)
  else evict_files env requiredSpace 0 (range FileCacheEntry (cacheIndex fc)).*2 fc fs.

Definition cacheFile (env : os_env) (now : Z) (objectName sourcePath : string) (fc : FileCache) (fs : files) :
    result (cache_file_error E) string * FileCache * files :=
  match fs !! sourcePath with
  | None => (Err StatFailed, fc, fs)
  | Some source =>
      let '(fc, fs) := ensureCacheSpace env (file_size source) fc fs in
      let key := generateCacheKey objectName in
      let cachedPath := cacheDir fc +:+ "/" +:+ key in
      match fs !! sourcePath with
      | None => (Err CopyFailed, fc, fs)
      | Some source' =>
          if negb (copy_ok env) then
            (Err CopyFailed, fc, match partial env with Some s => <[cachedPath := mkFile s now]> fs | None => fs end)
          else
            (* [os.Create] of the file that is being read leaves nothing to copy *)
            let copied := if bool_decide (sourcePath = cachedPath) then "" else content source' in
            let fs := <[cachedPath := mkFile copied now]> fs in
            let hash := if hash_ok env then sha256_hex copied else "" in
            let entry := mkFileCacheEntry objectName cachedPath (file_size source) now now 1 hash in
            (Ok cachedPath, set_index (int64 (currentSize fc + file_size source)) (<[key := entry]> (cacheIndex fc)) (accessStats fc) fc, fs)
      end
  end.

Definition Put := cacheFile.

(** [downloadFunc] writes a file and says where, or fails. *)
Definition download_and_cache (env : os_env) (now : Z) (objectName : string) (download : files -> result E string * files)
    (fc : FileCache) (fs : files) : result (cache_file_error E) string * FileCache * files :=
  match download fs with
  | (Err e, fs) => (Err (DownloadFailed e), fc, fs)
  | (Ok tempPath, fs) =>
      let '(res, fc, fs) := cacheFile env now objectName tempPath fc fs in
      (res, fc, match res with Err _ => if remove_ok env tempPath then delete tempPath fs else fs | Ok _ => fs end)
  end.

Definition Get (env : os_env) (now : Z) (objectName : string) (download : files -> result E string * files)
    (fc : FileCache) (fs : files) : result (cache_file_error E) string * FileCache * files :=
  let key := generateCacheKey objectName in
  match cacheIndex fc !! key with
  | Some entry =>
      if isCacheValid now fc fs entry then (Ok (LocalPath entry), updateAccessStats now key entry fc, fs)
      else download_and_cache env now objectName download fc fs
  | None => download_and_cache env now objectName download fc fs
  end.

Definition Contains (now : Z) (objectName : string) (fc : FileCache) (fs : files) : bool :=
  match cacheIndex fc !! generateCacheKey objectName with Some entry => isCacheValid now fc fs entry | None => false end.

Definition cleanup (env : os_env) (now : Z) (fc : FileCache) (fs : files) : FileCache * files :=
  let toRemove := List.filter (fun entry => maxFileAge fc <? now - fc_CreatedAt entry) (range FileCacheEntry (cacheIndex fc)).*2 in
  foldl (fun '(fc, fs) entry => let '(_, fc, fs) := removeFromCache env entry fc fs in (fc, fs)) (fc, fs) toRemove.

Definition Clear (env : os_env) (fc : FileCache) (fs : files) : FileCache * files :=
  (set_index 0 ∅ ∅ fc,
   foldl (fun fs entry => if remove_ok env (LocalPath entry) then delete (LocalPath entry) fs else fs) fs
     (range FileCacheEntry (cacheIndex fc)).*2).

Record FileCacheStats := mkFileCacheStats {
  TotalFiles : Z; TotalSize : Z; OldestFile : string; NewestFile : string; AvgFileSize : Z;
}.

(** The zero time of the loop is [None]. *)
Definition oldest_newest (entries : list FileCacheEntry) : option (Z * string) * option (Z * string) :=
  foldl (fun '(o, n) entry =>
    ((match o with Some (t, _) => if fc_CreatedAt entry <? t then Some (fc_CreatedAt entry, ObjectName entry) else o
                 | None => Some (fc_CreatedAt entry, ObjectName entry) end),
     (match n with Some (t, _) => if t <? fc_CreatedAt entry then Some (fc_CreatedAt entry, ObjectName entry) else n
                 | None => Some (fc_CreatedAt entry, ObjectName entry) end))) (None, None) entries.

Definition GetStats (fc : FileCache) : FileCacheStats :=
  let entries := (range FileCacheEntry (cacheIndex fc)).*2 in
  let n := Z.of_nat (length entries) in
  if 0 <? n then
    let '(o, w) := oldest_newest entries in
    mkFileCacheStats n (currentSize fc) (from_option snd "" o) (from_option snd "" w) (Z.quot (currentSize fc) n)
  else mkFileCacheStats n (currentSize fc) "" "" 0.

(** [loadCacheIndex]: [names]: the files of the directory; [meta]: the name and
    the time of creation that Redis has for a key, if it can be asked. *)
Definition load_one (meta : string -> option (string * option Z)) (fs : files) (fc : FileCache) (name : string) : FileCache :=
  let path := cacheDir fc +:+ "/" +:+ name in
  match fs !! path with
  | None => fc
  | Some f =>
      let m := meta ("file_cache_meta:" +:+ TrimSuffix name (Ext name)) in
      let objectName := match m with Some (o, _) => if bool_decide (o = "") then name else o | None => name end in
      let createdAt := match m with Some (_, Some t) => t | _ => mtime f end in
      set_index (int64 (currentSize fc + file_size f))
        (<[name := mkFileCacheEntry objectName path (file_size f) createdAt (mtime f) 0 ""]> (cacheIndex fc)) (accessStats fc) fc
  end.

Definition loadCacheIndex (meta : string -> option (string * option Z)) (names : list string) (fs : files) (fc : FileCache) : FileCache :=
  foldl (load_one meta fs) (set_index 0 (cacheIndex fc) (accessStats fc) fc) names.

Definition NewFileCache (config : FileCacheConfig) (meta : string -> option (string * option Z)) (names : list string) (fs : files) : FileCache :=
  loadCacheIndex meta names fs (mkFileCache (CacheDir config) (fc_MaxCacheSize config) (MaxFileAge config) 0 ∅ ∅).
End cache.
