(* ===== verification/FileCacheTheorems.v ===== *)
(** * What the file cache hands out (internal/query/file_cache.go)

    A hit is a file that is not too old and, if this process copied it and
    could hash the copy, has the SHA-256 of the source copied last for the
    object, whatever happens to the files in between. The count of bytes is exact, and the limit kept, as long as no object is cached
    twice; the last section shows what happens then. *)

From S2P Require Import Prelude GoStrings GoTime GoHeap GoOrder WalCodec FieldMapping ConsistentHash QueryCache FileCache.
From Stdlib Require Import Ascii.
#[local] Open Scope Z_scope.

(** ** The digest has 32 bytes *)

Lemma round_length st kw : length st = 8%nat -> length (Sha256.round st kw) = 8%nat.
Proof. unfold Sha256.round. intros H. do 9 (destruct st as [|? st]; try done). Qed.

Lemma rounds_length l st : length st = 8%nat -> length (foldl Sha256.round st l) = 8%nat.
Proof. revert st. induction l as [|kw l IH]; intros st H; [done|]. cbn [foldl]. by apply IH, round_length. Qed.

Lemma blocks_length k st bs : length st = 8%nat -> length (Sha256.blocks k st bs) = 8%nat.
Proof.
  revert st bs. induction k as [|k IH]; intros st bs H; [done|]. cbn [Sha256.blocks]. apply IH.
  unfold Sha256.block. rewrite length_zip_with, (rounds_length _ st H), H. done.
Qed.

Lemma Sum256_length bs : length (Sha256.Sum256 bs) = 32%nat.
Proof.
  unfold Sha256.Sum256. pose proof (blocks_length (length (Sha256.pad bs) / 64) Sha256.init (Sha256.pad bs) eq_refl) as H.
  destruct (Sha256.blocks _ _ _) as [|a l]; [done|]. do 8 (destruct l as [|? l]; try done).
Qed.

Lemma sha256_hex_nonempty s : sha256_hex s <> "".
Proof. unfold sha256_hex. pose proof (Sum256_length (string_bytes s)). by destruct (Sha256.Sum256 _). Qed.

(** ** Histories *)

Section histories.
Context {ER : Type} (md5_hex : string -> string) (range : forall A, gmap string A -> list (string * A)) `{!MapRange range}.

Abbreviation generateCacheKey := (generateCacheKey md5_hex).
Abbreviation cacheFile := (cacheFile (E := ER) md5_hex range).
Abbreviation Get := (Get (E := ER) md5_hex range).
Abbreviation Contains := (Contains md5_hex).
Abbreviation removeFromCache := (removeFromCache md5_hex).

Definition path_of (fc : FileCache) (key : string) : string := cacheDir fc +:+ "/" +:+ key.

(** What was copied into the cache, newest first: the key, and of the copy the
    content of its source, its time, and whether it could be hashed. *)
Record copy := mkCopy { of_source : string; copied_at : Z; hashed : bool }.
Abbreviation copies := (list (string * copy)).
Definition last_copy (key : string) (log : copies) : option copy := snd <$> List.find (fun x => (x.1 =? key)%string) log.

Definition logged (env : os_env) (now : Z) (objectName : string) (source : option file) (res : result (cache_file_error ER) string) (log : copies) : copies :=
  match res with
  | Ok _ => (generateCacheKey objectName, mkCopy (from_option content "" source) now (hash_ok env)) :: log
  | Err _ => log
  end.

(** The file a download leaves. *)
Definition downloaded (download : files -> result ER string * files) (fs : files) : option file :=
  match download fs with (Ok tmp, fs) => fs !! tmp | (Err _, _) => None end.

(** The operations, with every file changed by others at any time. A file is
    not cached from the place where it would be cached. *)
Inductive cache_step : FileCache * files * copies -> FileCache * files * copies -> Prop :=
| step_put env now o src fc fs log res fc' fs' : src <> path_of fc (generateCacheKey o) ->
    cacheFile env now o src fc fs = (res, fc', fs') -> cache_step (fc, fs, log) (fc', fs', logged env now o (fs !! src) res log)
| step_hit env now o download fc fs log res fc' fs' : Contains now o fc fs = true ->
    Get env now o download fc fs = (res, fc', fs') -> cache_step (fc, fs, log) (fc', fs', log)
| step_miss env now o download fc fs log res fc' fs' : (download fs).1 <> Ok (path_of fc (generateCacheKey o)) -> Contains now o fc fs = false ->
    Get env now o download fc fs = (res, fc', fs') -> cache_step (fc, fs, log) (fc', fs', logged env now o (downloaded download fs) res log)
| step_cleanup env now fc fs log fc' fs' :
    cleanup md5_hex range env now fc fs = (fc', fs') -> cache_step (fc, fs, log) (fc', fs', log)
| step_clear env fc fs log fc' fs' :
    Clear range env fc fs = (fc', fs') -> cache_step (fc, fs, log) (fc', fs', log)
| step_files fc fs log fs' : cache_step (fc, fs, log) (fc, fs', log).

(** The age of a file taken over from an earlier process: from the time that
    Redis has for it, or from its own. *)
Definition taken_over_at (meta : string -> option (string * option Z)) (name : string) (f : file) : Z :=
  match meta ("file_cache_meta:" +:+ TrimSuffix name (Ext name)) with Some (_, Some t) => t | _ => mtime f end.

(** Of every entry: its file is named by its key, and it has the hash and the
    time of the last copy, or comes from an earlier process, without a hash. *)
Context (meta : string -> option (string * option Z)) (fs0 : files).
Definition entry_ok (fc : FileCache) (log : copies) (key : string) (e : FileCacheEntry) : Prop :=
  LocalPath e = path_of fc key /\
  match last_copy key log with
  | Some c => Hash e = (if hashed c then sha256_hex (of_source c) else "") /\ fc_CreatedAt e = copied_at c
  | None => exists f0, fs0 !! path_of fc key = Some f0 /\ fc_CreatedAt e = taken_over_at meta key f0
  end.

Definition index_ok (fc : FileCache) (log : copies) : Prop := map_Forall (entry_ok fc log) (cacheIndex fc).

(** The cache only lost entries. *)
Definition shrinks (fc fc' : FileCache) : Prop :=
  cacheIndex fc' ⊆ cacheIndex fc /\ cacheDir fc' = cacheDir fc /\ maxSize fc' = maxSize fc /\ maxFileAge fc' = maxFileAge fc.

Lemma shrinks_refl fc : shrinks fc fc.
Proof. done. Qed.

Lemma shrinks_trans a b c : shrinks a b -> shrinks b c -> shrinks a c.
Proof. intros (Hi & ? & ? & ?) (Hj & ? & ? & ?). split_and!; [by etrans|congruence..]. Qed.

Lemma index_ok_shrinks fc fc' log : shrinks fc fc' -> index_ok fc log -> index_ok fc' log.
Proof.
  intros (Hsub & Hd & _) H key e He. eapply lookup_weaken in He; [|exact Hsub]. apply H in He.
  unfold entry_ok, path_of in *. by rewrite Hd.
Qed.

Lemma removeFromCache_shrinks env entry fc fs ok fc' fs' :
  removeFromCache env entry fc fs = (ok, fc', fs') -> shrinks fc fc'.
Proof.
  unfold FileCache.removeFromCache. destruct (_ && _); intros [= _ <- _]; [done|]. split_and!; try done. apply delete_subseteq.
Qed.

Lemma evict_files_shrinks env required l freed fc fs fc' fs' :
  evict_files md5_hex env required freed l fc fs = (fc', fs') -> shrinks fc fc'.
Proof.
  revert freed fc fs. induction l as [|e l IH]; intros freed fc fs; cbn [evict_files]; [by intros [= <- _]|].
  destruct (_ <=? _); [by intros [= <- _]|]. destruct (removeFromCache env e fc fs) as [[ok fc1] fs1] eqn:E.
  intros H%IH. apply removeFromCache_shrinks in E. by eapply shrinks_trans.
Qed.

Lemma ensureCacheSpace_shrinks env n fc fs fc' fs' :
  ensureCacheSpace md5_hex range env n fc fs = (fc', fs') -> shrinks fc fc'.
Proof. unfold ensureCacheSpace. destruct (_ <=? _); [by intros [= <- _]|]. apply evict_files_shrinks. Qed.

Lemma cleanup_shrinks env now fc fs fc' fs' : cleanup md5_hex range env now fc fs = (fc', fs') -> shrinks fc fc'.
Proof.
  unfold cleanup. generalize (List.filter (fun entry => maxFileAge fc <? now - fc_CreatedAt entry) (range FileCacheEntry (cacheIndex fc)).*2).
  intros l. revert fc fs. induction l as [|e l IH]; intros fc fs; cbn [foldl]; [by intros [= <- _]|].
  destruct (removeFromCache env e fc fs) as [[ok fc1] fs1] eqn:E. intros H%IH. apply removeFromCache_shrinks in E. by eapply shrinks_trans.
Qed.

Lemma last_copy_logged_ne env now o source res log key :
  key <> generateCacheKey o -> last_copy key (logged env now o source res log) = last_copy key log.
Proof.
  intros Hne. destruct res; unfold last_copy; cbn [logged List.find fst]; [|done].
  destruct (String.eqb_spec (generateCacheKey o) key); [congruence|done].
Qed.

(** Making room removes files and changes none. *)
Lemma evict_files_files env required l freed fc fs fc' fs' :
  evict_files md5_hex env required freed l fc fs = (fc', fs') -> fs' ⊆ fs.
Proof.
  revert freed fc fs. induction l as [|e l IH]; intros freed fc fs; cbn [evict_files]; [by intros [= _ <-]|].
  destruct (_ <=? _); [by intros [= _ <-]|]. destruct (removeFromCache env e fc fs) as [[ok fc1] fs1] eqn:E.
  intros H%IH. etrans; [exact H|]. unfold FileCache.removeFromCache in E.
  destruct (_ && _); injection E as _ _ <-; [done|apply delete_subseteq].
Qed.

Lemma ensureCacheSpace_files env n fc fs fc' fs' :
  ensureCacheSpace md5_hex range env n fc fs = (fc', fs') -> fs' ⊆ fs.
Proof. unfold ensureCacheSpace. destruct (_ <=? _); [by intros [= _ <-]|]. apply evict_files_files. Qed.

(** What caching a file does to the index. *)
Lemma cacheFile_index env now o src fc fs res fc' fs' : src <> path_of fc (generateCacheKey o) ->
  cacheFile env now o src fc fs = (res, fc', fs') ->
  shrinks fc fc' /\ (exists err, res = Err err) \/
  exists fc1 f size, shrinks fc fc1 /\ res = Ok (path_of fc (generateCacheKey o)) /\ fs !! src = Some f /\
    fc' = set_index (int64 (currentSize fc1 + size)) (<[generateCacheKey o := mkFileCacheEntry o (path_of fc (generateCacheKey o)) size now now 1
      (if hash_ok env then sha256_hex (content f) else "")]> (cacheIndex fc1)) (accessStats fc1) fc1.
Proof.
  intros Hsrc. unfold FileCache.cacheFile. destruct (fs !! src) as [f|] eqn:Ef; [|intros [= <- <- <-]; left; split; [done|by eexists]].
  destruct (ensureCacheSpace _ _ _ _ _ _) as [fc1 fs1] eqn:E. apply ensureCacheSpace_shrinks in E as Hs. apply ensureCacheSpace_files in E.
  destruct (fs1 !! src) as [f1|] eqn:Ef1; [|intros [= <- <- <-]; left; split; [done|by eexists]].
  eapply lookup_weaken in Ef1; [|exact E]. rewrite Ef in Ef1. injection Ef1 as <-.
  destruct (copy_ok env); cbn [negb]; [|intros [= <- <- <-]; left; split; [done|by eexists]].
  intros [= <- <- <-]. right. unfold path_of in *. destruct Hs as (Hi & Hd & Hm & Ha). rewrite <- Hd in *.
  rewrite bool_decide_false by done. eexists fc1, f, _. by split_and!.
Qed.

Lemma index_ok_cacheFile env now o src fc fs log res fc' fs' : src <> path_of fc (generateCacheKey o) ->
  cacheFile env now o src fc fs = (res, fc', fs') -> index_ok fc log -> index_ok fc' (logged env now o (fs !! src) res log).
Proof.
  intros Hsrc [[Hs [err ->]]|(fc1 & f & size & Hs & -> & Hf & ->)]%cacheFile_index H; [by eapply index_ok_shrinks| |done].
  apply (index_ok_shrinks _ _ _ Hs) in H. destruct Hs as (_ & Hd & _). intros key e He. cbn [set_index cacheIndex] in He.
  unfold entry_ok, path_of in *. cbn [set_index cacheDir].
  destruct (decide (key = generateCacheKey o)) as [->|Hne].
  - rewrite lookup_insert_eq in He. injection He as <-. cbn [LocalPath Hash fc_CreatedAt]. rewrite Hd. split; [done|].
    unfold last_copy. cbn [logged List.find fst]. by rewrite String.eqb_refl, Hf.
  - rewrite lookup_insert_ne in He by done. rewrite last_copy_logged_ne by done. by apply H.
Qed.

Lemma Get_hit env now o download fc fs : Contains now o fc fs = true ->
  exists e, cacheIndex fc !! generateCacheKey o = Some e /\ isCacheValid now fc fs e = true /\
    Get env now o download fc fs = (Ok (LocalPath e), updateAccessStats now (generateCacheKey o) e fc, fs).
Proof.
  unfold FileCache.Contains, FileCache.Get. destruct (cacheIndex fc !! _) as [e|]; [|done]. intros Hv. rewrite Hv. by exists e.
Qed.

Lemma Get_miss env now o download fc fs : Contains now o fc fs = false ->
  Get env now o download fc fs = download_and_cache md5_hex range env now o download fc fs.
Proof.
  unfold FileCache.Contains, FileCache.Get. destruct (cacheIndex fc !! _) as [e|]; [|done]. by intros ->.
Qed.

Lemma index_ok_download env now o download fc fs log res fc' fs' : (download fs).1 <> Ok (path_of fc (generateCacheKey o)) ->
  download_and_cache md5_hex range env now o download fc fs = (res, fc', fs') -> index_ok fc log ->
  index_ok fc' (logged env now o (downloaded download fs) res log).
Proof.
  unfold download_and_cache, downloaded. destruct (download fs) as [[tmp|err] fs1]; intros Htmp; [|by intros [= <- <- <-]].
  destruct (cacheFile env now o tmp fc fs1) as [[r fc2] fs2] eqn:E. intros [= <- <- <-] H.
  eapply index_ok_cacheFile; [|exact E|done]. intros ->. by apply Htmp.
Qed.

Lemma index_ok_step s s' : cache_step s s' -> index_ok s.1.1 s.2 -> index_ok s'.1.1 s'.2.
Proof.
  intros Hstep. destruct Hstep as [env now o src fc fs log res fc' fs' Hh E|env now o dl fc fs log res fc' fs' Hc E
    |env now o dl fc fs log res fc' fs' Hh Hc E|env now fc fs log fc' fs' E|env fc fs log fc' fs' E|fc fs log fs'];
    cbn [fst snd]; intros H.
  - by eapply index_ok_cacheFile.
  - destruct (Get_hit env now o dl fc fs Hc) as (e & He & _ & E'). rewrite E' in E. injection E as <- <- <-.
    intros key e' He'. cbn [updateAccessStats set_index cacheIndex] in He'.
    destruct (decide (key = generateCacheKey o)) as [->|Hne].
    + rewrite lookup_insert_eq in He'. injection He' as <-. by apply H in He.
    + rewrite lookup_insert_ne in He' by done. by apply H in He'.
  - rewrite Get_miss in E by done. by eapply index_ok_download.
  - eapply index_ok_shrinks; [by eapply cleanup_shrinks|done].
  - injection E as <- <-. intros key e He. cbn [set_index cacheIndex] in He. by apply lookup_empty_Some in He.
  - done.
Qed.

Lemma index_ok_load names fc : index_ok fc [] -> index_ok (foldl (load_one meta fs0) fc names) [].
Proof.
  revert fc. induction names as [|n names IH]; intros fc H; [done|]. cbn [foldl]. apply IH. unfold load_one.
  destruct (fs0 !! _) as [f|] eqn:Ef; [|done]. intros key e. cbn [set_index cacheIndex].
  destruct (decide (key = n)) as [->|Hne]; [rewrite lookup_insert_eq; intros [= <-]|].
  - split; [done|]. cbn [last_copy List.find fmap option_fmap option_map]. by exists f.
  - rewrite lookup_insert_ne by done. intros He. by apply H in He.
Qed.

Lemma index_ok_reachable config names s :
  rtc cache_step (NewFileCache config meta names fs0, fs0, []) s -> index_ok s.1.1 s.2.
Proof.
  apply (rtc_ind_r (fun s => index_ok s.1.1 s.2)).
  - cbn [fst snd]. unfold NewFileCache, loadCacheIndex. apply index_ok_load. intros key e He. cbn [set_index cacheIndex] in He. by apply lookup_empty_Some in He.
  - intros s1 s2 _ Hstep. by apply index_ok_step.
Qed.

(** C27: a hit in the file cache, after any sequence of operations and of changes
    that others make to the files, hands out a file that is there, without
    touching any file. If this process has copied a file for the key, the last
    copy is at most [MaxFileAge] old, and the file handed out has the SHA-256
    of the source of that copy, provided that the copy could be hashed when it
    was made. A file taken over from an earlier process is handed out without
    a look at its content, but only up to [MaxFileAge] after the time that
    Redis or the file itself gives for it. Files are cached from other places
    than their own place in the cache. *)
Theorem file_hits_intact config names fc fs log env now o download :
  rtc cache_step (NewFileCache config meta names fs0, fs0, []) (fc, fs, log) ->
  Contains now o fc fs = true ->
  exists f, (Get env now o download fc fs).1.1 = Ok (path_of fc (generateCacheKey o)) /\
    (Get env now o download fc fs).2 = fs /\ fs !! path_of fc (generateCacheKey o) = Some f /\
    match last_copy (generateCacheKey o) log with
    | Some c => now - copied_at c <= maxFileAge fc /\ (hashed c = true -> sha256_hex (content f) = sha256_hex (of_source c))
    | None => exists f0, fs0 !! path_of fc (generateCacheKey o) = Some f0 /\
        now - taken_over_at meta (generateCacheKey o) f0 <= maxFileAge fc
    end.
Proof.
  intros Hr Hc. apply index_ok_reachable in Hr. cbn [fst snd] in Hr.
  destruct (Get_hit env now o download fc fs Hc) as (e & He & Hv & ->). cbn [fst snd].
  apply Hr in He as [Hp Hl]. rewrite Hp in *. unfold isCacheValid in Hv. rewrite !andb_true_iff, bool_decide_eq_true in Hv.
  destruct Hv as [[[f Hf] Hage] Hhash]. rewrite Hp in *. exists f. split_and!; [done..|].
  apply negb_true_iff, Z.ltb_ge in Hage.
  destruct (last_copy _ log) as [c|]; [|destruct Hl as (f0 & Hf0 & Ht); exists f0; split; [done|lia]].
  destruct Hl as [Hl Ht]. split; [lia|]. intros Hh. rewrite Hh in Hl.
  rewrite orb_true_iff, bool_decide_eq_true, Hl in Hhash.
  destruct Hhash as [H|H]; [by apply sha256_hex_nonempty in H|].
  unfold validateFileHash in H. rewrite Hf in H. by apply bool_decide_eq_true in H.
Qed.

(** ** The count of bytes *)

Definition total (m : gmap string FileCacheEntry) : Z := map_fold (fun _ e s => fc_Size e + s) 0 m.

Lemma total_insert m k e : m !! k = None -> total (<[k := e]> m) = fc_Size e + total m.
Proof. intros H. unfold total. rewrite map_fold_insert_L; [done| |done]. intros. lia. Qed.

Lemma total_delete m k e : m !! k = Some e -> total (delete k m) = total m - fc_Size e.
Proof. intros H. rewrite <- (insert_delete_id m k e H) at 2. rewrite total_insert by apply lookup_delete_eq. lia. Qed.

Lemma total_size_nonneg m : map_Forall (fun _ e => 0 <= fc_Size e) m -> 0 <= total m.
Proof.
  induction m as [|k e m Hk IH] using map_ind; intros H; [done|]. rewrite total_insert by done.
  apply map_Forall_insert in H as [He H]; [|done]. apply IH in H. lia.
Qed.

(** The sizes add up, within the limit, and every entry is under its own key. *)
Record counted (fc : FileCache) : Prop := {
  co_size : currentSize fc = total (cacheIndex fc);
  co_sizes : map_Forall (fun k e => 0 <= fc_Size e /\ k = generateCacheKey (ObjectName e)) (cacheIndex fc);
  co_limit : currentSize fc <= maxSize fc;
  co_range : maxSize fc < 2 ^ 62;
}.

Lemma counted_range fc : counted fc -> 0 <= currentSize fc < 2 ^ 62.
Proof.
  intros [H1 H2 H3 H4]. split; [|lia]. rewrite H1. apply total_size_nonneg. intros k e He. by apply H2 in He as [? _].
Qed.

Lemma counted_remove env k e fc fs : (forall p, remove_ok env p = true) -> counted fc -> cacheIndex fc !! k = Some e ->
  exists fc', removeFromCache env e fc fs = (true, fc', delete (LocalPath e) fs) /\ counted fc' /\
    cacheIndex fc' = delete k (cacheIndex fc) /\ currentSize fc' = currentSize fc - fc_Size e /\ maxSize fc' = maxSize fc.
Proof.
  intros Hok Hc He. pose proof (counted_range _ Hc). destruct Hc as [H1 H2 H3 H4]. pose proof (H2 _ _ He) as [Hs Hk].
  assert (map_Forall (fun k e => 0 <= fc_Size e /\ k = generateCacheKey (ObjectName e)) (delete k (cacheIndex fc))) as Hf by by apply map_Forall_delete.
  assert (0 <= total (delete k (cacheIndex fc))) as Hp by (apply total_size_nonneg; intros j d Hj; by apply Hf in Hj as [? _]).
  pose proof (total_delete _ _ _ He) as Ht.
  unfold FileCache.removeFromCache. rewrite Hok, andb_false_r, <- Hk. eexists. split; [done|].
  cbn [set_index cacheIndex currentSize maxSize]. rewrite int64_small by (unfold in_int64, min_int64, max_int64; lia).
  split_and!; [|done..]. split; cbn [set_index cacheIndex currentSize maxSize]; [lia|done|lia..].
Qed.

Lemma evict_files_counted env required l : (forall p, remove_ok env p = true) -> NoDup l.*1 -> forall freed fc fs,
  0 <= freed -> freed + currentSize fc < 2 ^ 62 -> counted fc -> cacheIndex fc = list_to_map l ->
  let '(fc', fs') := evict_files md5_hex env required freed l.*2 fc fs in
  counted fc' /\ maxSize fc' = maxSize fc /\ (currentSize fc' + required <= currentSize fc + freed \/ cacheIndex fc' = ∅).
Proof.
  intros Hok. induction l as [|[k e] l IH]; intros Hnd freed fc fs Hf0 Hf Hc Hi.
  { cbn [evict_files]. split_and!; [done..|by right]. }
  cbn [fmap list_fmap fst snd evict_files] in *. destruct (Z.leb_spec required freed) as [H|H]; [split_and!; [done..|left; lia]|].
  apply NoDup_cons in Hnd as [Hk Hnd].
  assert (cacheIndex fc !! k = Some e) as He by (rewrite Hi; apply lookup_insert_eq).
  destruct (counted_remove env k e fc fs Hok Hc He) as (fc1 & -> & Hc1 & Hi1 & Hs1 & Hm1).
  pose proof (counted_range _ Hc1). destruct (co_sizes _ Hc _ _ He) as [Hs _].
  rewrite int64_small by (unfold in_int64, min_int64, max_int64; lia).
  specialize (IH Hnd (freed + fc_Size e) fc1 (delete (LocalPath e) fs) ltac:(lia) ltac:(lia) Hc1).
  destruct (evict_files _ _ _ _ _ _ _) as [fc' fs']. destruct IH as (IH1 & IH2 & IH3).
  { rewrite Hi1, Hi. cbn [list_to_map foldr]. rewrite delete_insert_id; [done|by apply not_elem_of_list_to_map]. }
  split_and!; [done|congruence|]. destruct IH3 as [IH3|IH3]; [left; lia|by right].
Qed.

Lemma ensureCacheSpace_counted env required fc fs fc' fs' : (forall p, remove_ok env p = true) -> counted fc ->
  0 <= required <= maxSize fc -> ensureCacheSpace md5_hex range env required fc fs = (fc', fs') ->
  counted fc' /\ maxSize fc' = maxSize fc /\ currentSize fc' + required <= maxSize fc.
Proof.
  intros Hok Hc Hreq E. pose proof (counted_range _ Hc). pose proof (co_limit _ Hc). pose proof (co_range _ Hc).
  unfold ensureCacheSpace in E. rewrite int64_small in E by (unfold in_int64, min_int64, max_int64; lia).
  destruct (Z.leb_spec (currentSize fc + required) (maxSize fc)) as [Hl|Hl]; [by injection E as <- <-|].
  pose proof (evict_files_counted env required (range FileCacheEntry (cacheIndex fc)) Hok (range_NoDup range _ _)
    0 fc fs ltac:(lia) ltac:(lia) Hc) as He.
  rewrite E in He. destruct He as (Hc' & Hm & [Hs|Hs]); [by rewrite range_map|split_and!; [done..|lia]|].
  split_and!; [done..|]. rewrite (co_size _ Hc'), Hs. unfold total. rewrite map_fold_empty. lia.
Qed.

(** Caching a file keeps the cache within its limit and the count of bytes
    exact, provided that the object is not in the index yet, that the file is
    not larger than the limit, and that the files chosen for eviction can be
    removed. Afterwards the new entry is in the index. *)
Theorem cache_within_limit env now o src fc fs f path fc' fs' :
  (forall p, remove_ok env p = true) -> counted fc -> fs !! src = Some f -> file_size f <= maxSize fc ->
  cacheIndex fc !! generateCacheKey o = None ->
  cacheFile env now o src fc fs = (Ok path, fc', fs') ->
  counted fc' /\ maxSize fc' = maxSize fc /\
  (exists e, cacheIndex fc' !! generateCacheKey o = Some e /\ ObjectName e = o /\ LocalPath e = path /\ fc_Size e = file_size f).
Proof.
  intros Hok Hc Hf Hsz Hk. unfold FileCache.cacheFile. rewrite Hf.
  destruct (ensureCacheSpace _ _ _ _ _ _) as [fc1 fs1] eqn:E.
  pose proof (ensureCacheSpace_shrinks _ _ _ _ _ _ E) as (Hsub & _).
  assert (0 <= file_size f) as Hpos by (unfold file_size; lia).
  destruct (ensureCacheSpace_counted env (file_size f) fc fs fc1 fs1 Hok Hc ltac:(lia) E) as (Hc1 & Hm & Hle).
  destruct (fs1 !! src) as [f1|]; [|done]. destruct (copy_ok env); [|done]. cbn [negb]. intros [= <- <- <-].
  pose proof (counted_range _ Hc1). pose proof (co_range _ Hc).
  assert (cacheIndex fc1 !! generateCacheKey o = None) as Hk1 by (by eapply lookup_weaken_None).
  cbn [set_index cacheIndex maxSize]. split_and!; [|done|eexists; split; [apply lookup_insert_eq|done]].
  split; cbn [set_index cacheIndex currentSize maxSize]; rewrite ?int64_small by (unfold in_int64, min_int64, max_int64; lia);
    [|apply map_Forall_insert_2; [by cbn [fc_Size ObjectName]|apply Hc1]|lia..].
  rewrite total_insert by done. cbn [fc_Size]. rewrite (co_size _ Hc1). lia.
Qed.
End histories.

(** ** Examples *)

Module FileCacheDemo.

Definition name_hash (s : string) : string := s.
Definition calm : os_env := mkEnv (fun _ => true) true None true.
Definition config : FileCacheConfig := mkFileCacheConfig "/c" 10 100.
Definition fs0 : files := {[ "/t/a" := mkFile "aaaa" 0; "/t/b" := mkFile "bbbbbb" 0; "/t/d" := mkFile "dddd" 0 ]}.
Definition no_meta : string -> option (string * option Z) := fun _ => None.
Definition fc0 : FileCache := NewFileCache config no_meta [] fs0.
Definition no_download (fs : files) : result unit string * files := (Err tt, fs).
Abbreviation put := (FileCache.cacheFile (E := unit) name_hash map_range calm).

Definition fc1 : FileCache := Eval vm_compute in (put 5 "a" "/t/a" fc0 fs0).1.2.
Definition fs1 : files := Eval vm_compute in (put 5 "a" "/t/a" fc0 fs0).2.

Lemma file_hits_intact_witness :
  exists f, (FileCache.Get name_hash map_range calm 9 "a" no_download fc1 fs1).1.1 = Ok "/c/a.parquet" /\
    fs1 !! "/c/a.parquet" = Some f /\ sha256_hex (content f) = sha256_hex "aaaa".
Proof.
  destruct (file_hits_intact name_hash map_range no_meta fs0 config [] fc1 fs1 [("a.parquet", mkCopy "aaaa" 5 true)] calm 9 "a" no_download)
    as (f & H1 & _ & H3 & _ & H4).
  - apply rtc_once. exact (step_put (ER := unit) name_hash map_range calm 5 "a" "/t/a" fc0 fs0 [] (Ok "/c/a.parquet") fc1 fs1 ltac:(discriminate) eq_refl).
  - vm_compute. reflexivity.
  - exists f. split_and!; [exact H1|exact H3|by apply H4].
Defined.

Lemma counted_fc1 : counted name_hash fc1.
Proof.
  split; [reflexivity| |done..].
  apply (bool_decide_unpack _). vm_compute. exact I.
Qed.

Lemma cache_within_limit_witness :
  let fc2 := (put 7 "b" "/t/b" fc1 fs1).1.2 in counted name_hash fc2 /\ currentSize fc2 = 10.
Proof.
  split; [|reflexivity].
  apply (cache_within_limit (ER := unit) name_hash map_range calm 7 "b" "/t/b" fc1 fs1 (mkFile "bbbbbb" 0) "/c/b.parquet" _
    (put 7 "b" "/t/b" fc1 fs1).2); [done|apply counted_fc1|done|done|done|].
  vm_compute. reflexivity.
Defined.

(** The count of the file cache goes wrong in two ways. An object that is
    cached again, as [Get] does when its file is too old or has been changed,
    is counted again although its file was replaced. And an entry taken over
    from the directory, without metadata in Redis, is removed under the key of
    its file's name, which is another one: the file goes, its entry stays in
    the index, and its size is subtracted at every further try. *)
Theorem file_cache_miscounts :
  (let '(_, fc, fs) := put 6 "a" "/t/a" fc1 fs1 in currentSize fc = 8 /\ base.size (cacheIndex fc) = 1%nat /\
     total (cacheIndex fc) = 4) /\
  (let fs := <["/c/0a.parquet" := mkFile "aaaa" 1]> fs0 in
   let fc := NewFileCache config no_meta ["0a.parquet"] fs in
   let name_hash := fun s => "0" +:+ String.substring 0 1 s in
   let '(fc', fs') := cleanup name_hash map_range calm 200 fc fs in
   let '(fc'', _) := cleanup name_hash map_range calm 300 fc' fs' in
   currentSize fc = 4 /\ fs' !! "/c/0a.parquet" = None /\ base.size (cacheIndex fc') = 1%nat /\
   currentSize fc' = 0 /\ currentSize fc'' = -4).
Proof. vm_compute. repeat split; reflexivity. Qed.
End FileCacheDemo.
