(* ===== verification/ParquetFiles.v ===== *)
(** * Parquet files of generic records (internal/storage/parquet_writer.go, parquet_reader.go)

    The writer that splits records over files, the conversion of a record to
    the four columns of the schema, and the conversion back when a file is
    read. The Parquet format and [encoding/json] are parameters. *)

From S2P Require Import Prelude GoStrings.
From Stdlib Require Import Ascii.
#[local] Open Scope Z_scope.

Record GenericRecord := mkGeneric { g_ID : string; g_Timestamp : Z; g_Payload : string; g_Table : string }.

#[export] Instance GenericRecord_eq_dec : EqDecision GenericRecord.
Proof. solve_decision. Defined.

Record ParquetWriterConfig := mkWriterConfig { OutputDir : string; RowGroupSize : Z; PageSize : Z; CompressionType : string; MaxRowsPerFile : Z }.
Definition DefaultParquetWriterConfig (outputDir : string) : ParquetWriterConfig :=
  mkWriterConfig outputDir (128 * 1024 * 1024) (8 * 1024) "snappy" 100000.

(** What the dynamic type of a field can be; [json]: a value of [json.Unmarshal]
    that is not a string. *)
Inductive any (json : Type) :=
  | AString (s : string)
  | ABytes (s : string)
  | AInt64 (z : Z)
  | ATime (ns : Z)
  | AJson (j : json).
Arguments AString {json} s. Arguments ABytes {json} s. Arguments AInt64 {json} z. Arguments ATime {json} ns. Arguments AJson {json} j.

(** The open file of a writer: [pw] with the rows written so far, and [fw]. *)
Record ParquetWriterImpl := mkWriter {
  pw : option (list GenericRecord);
  fw : option string;
  currentFile : string;
  rowCount : Z;
  totalRows : Z;
  totalFiles : Z;
}.

Definition NewParquetWriter : ParquetWriterImpl := mkWriter None None "" 0 0 0.

(** The files of the output directory that are complete. *)
Abbreviation outputs := (list (string * list GenericRecord)).

Inductive writer_error := CreateFailed | WriteFailed | StopFailed | CloseFailed.

(** The clock and the failures of the calls, by the number of the file. *)
Record writer_env := mkWriterEnv {
  open_time : Z -> Z;
  create_ok : Z -> bool;
  write_ok : Z -> bool;      (* [pw.Write] of a row, by the number of rows *)
  stop_ok : Z -> bool;
  close_ok : Z -> bool;
}.

Section writer.
Context (env : writer_env) (MaxRows : Z).

Definition data_name (nano n : Z) : string := "data_" +:+ Itoa nano +:+ "_" +:+ Itoa n +:+ ".parquet".

Definition openNewFile (p : ParquetWriterImpl) : result writer_error unit * ParquetWriterImpl :=
  if create_ok env (totalFiles p) then
    let filename := data_name (open_time env (totalFiles p)) (totalFiles p) in
    (Ok tt, mkWriter (Some []) (Some filename) filename 0 (totalRows p) (totalFiles p + 1))
  else (Err CreateFailed, p).

Definition closeCurrentFile (p : ParquetWriterImpl) (out : outputs) : result writer_error unit * ParquetWriterImpl * outputs :=
  let n := totalFiles p in
  match pw p with
  | Some rows =>
      if negb (stop_ok env n) then (Err StopFailed, p, out) else
      let p := mkWriter None (fw p) (currentFile p) (rowCount p) (totalRows p) n in
      let out := out ++ [(currentFile p, rows)] in
      match fw p with
      | Some _ => if negb (close_ok env n) then (Err CloseFailed, p, out)
                  else (Ok tt, mkWriter None None (currentFile p) (rowCount p) (totalRows p) n, out)
      | None => (Ok tt, p, out)
      end
  | None =>
      match fw p with
      | Some _ => if negb (close_ok env n) then (Err CloseFailed, p, out)
                  else (Ok tt, mkWriter None None (currentFile p) (rowCount p) (totalRows p) n, out)
      | None => (Ok tt, p, out)
      end
  end.

Definition rotateFile (p : ParquetWriterImpl) (out : outputs) : result writer_error unit * ParquetWriterImpl * outputs :=
  match closeCurrentFile p out with
  | (Ok _, p, out) => (openNewFile p, out)
  | r => r
  end.

Fixpoint write_loop (records : list GenericRecord) (p : ParquetWriterImpl) (out : outputs) :
    result writer_error unit * ParquetWriterImpl * outputs :=
  match records with
  | [] => (Ok tt, p, out)
  | r :: records =>
      if negb (write_ok env (totalRows p)) then (Err WriteFailed, p, out) else
      let p := mkWriter ((fun rows => rows ++ [r]) <$> pw p) (fw p) (currentFile p) (rowCount p + 1) (totalRows p + 1) (totalFiles p) in
      if MaxRows <=? rowCount p then
        match rotateFile p out with
        | (Ok _, p, out) => write_loop records p out
        | r => r
        end
      else write_loop records p out
  end.

(** [Write], of records that are converted already. *)
Definition Write (records : list GenericRecord) (p : ParquetWriterImpl) (out : outputs) :
    result writer_error unit * ParquetWriterImpl * outputs :=
  match pw p with
  | Some _ => write_loop records p out
  | None => match openNewFile p with (Ok _, p) => write_loop records p out | (Err e, p) => (Err e, p, out) end
  end.

Definition Close (p : ParquetWriterImpl) (out : outputs) := closeCurrentFile p out.

(** ** What a writer has written *)

Definition pending (p : ParquetWriterImpl) : list GenericRecord := default [] (pw p).
Definition written (p : ParquetWriterImpl) (out : outputs) : list GenericRecord := concat out.*2 ++ pending p.

(** A new file is named by its number, every file has at most [MaxRows] rows. *)
Record writing (p : ParquetWriterImpl) (out : outputs) : Prop := {
  wr_names : out.*1 = (fun n => data_name (open_time env n) n) <$> seqZ 0 (Z.of_nat (length out));
  wr_count : totalFiles p = Z.of_nat (length out) + 1;
  wr_current : currentFile p = data_name (open_time env (Z.of_nat (length out))) (Z.of_nat (length out));
  wr_open : is_Some (pw p) /\ fw p = Some (currentFile p);
  wr_rows : rowCount p = Z.of_nat (length (pending p));
  wr_full : Forall (fun f => Z.of_nat (length f.2) = MaxRows) out;
  wr_room : rowCount p < MaxRows;
}.

Lemma openNewFile_writing p out p' : 0 < MaxRows -> pw p = None -> totalFiles p = Z.of_nat (length out) ->
  out.*1 = (fun n => data_name (open_time env n) n) <$> seqZ 0 (Z.of_nat (length out)) ->
  Forall (fun f => Z.of_nat (length f.2) = MaxRows) out ->
  openNewFile p = (Ok tt, p') -> writing p' out /\ pending p' = [].
Proof.
  intros HM Hp Hn Hnames Hfull. unfold openNewFile. destruct (create_ok env _); [|done]. intros [= <-]. rewrite Hn.
  split; [|done]. split; cbn [pw fw currentFile rowCount totalFiles pending default from_option length]; try done; lia.
Qed.

Lemma closeCurrentFile_ok p out p' out' : is_Some (pw p) -> closeCurrentFile p out = (Ok tt, p', out') ->
  out' = out ++ [(currentFile p, pending p)] /\ pw p' = None /\ totalFiles p' = totalFiles p.
Proof.
  intros [rows Hr]. unfold closeCurrentFile, pending. rewrite Hr. cbn [pw fw currentFile rowCount totalRows totalFiles default from_option].
  destruct (stop_ok env _); [|done]. destruct (fw p); [destruct (close_ok env _); [|done]|]; by intros [= <- <-].
Qed.

Lemma rotateFile_writing p out p' out' : 0 < MaxRows ->
  is_Some (pw p) -> Z.of_nat (length (pending p)) = MaxRows -> totalFiles p = Z.of_nat (length out) + 1 ->
  currentFile p = data_name (open_time env (Z.of_nat (length out))) (Z.of_nat (length out)) ->
  out.*1 = (fun n => data_name (open_time env n) n) <$> seqZ 0 (Z.of_nat (length out)) ->
  Forall (fun f => Z.of_nat (length f.2) = MaxRows) out -> rotateFile p out = (Ok tt, p', out') -> writing p' out' /\ written p' out' = written p out.
Proof.
  intros HM Hsome Hlen Hn Hc Hnames Hfull.
  unfold rotateFile. destruct (closeCurrentFile p out) as [[[[]|e] p1] out1] eqn:E; [|done].
  destruct (closeCurrentFile_ok _ _ _ _ Hsome E) as (-> & Hp1 & Hn1). intros H. injection H as Ho Hout.
  subst out'. destruct (openNewFile_writing p1 (out ++ [(currentFile p, pending p)]) p') as [Hw Hpend]; try done.
  - rewrite Hn1, Hn, length_app. cbn [length]. lia.
  - rewrite fmap_app, length_app. cbn [length fmap list_fmap fst]. rewrite Hnames, Nat2Z.inj_add, seqZ_app by lia.
    rewrite fmap_app. f_equal. rewrite Hc. change (Z.of_nat 1) with 1. rewrite Z.add_0_l. done.
  - apply Forall_app. split; [done|]. constructor; [done|constructor].
  - split; [done|]. unfold written. rewrite Hpend, fmap_app, concat_app. cbn [fmap list_fmap snd concat]. by rewrite !app_nil_r.
Qed.

Lemma write_loop_writing records p out p' out' : 0 < MaxRows -> writing p out -> write_loop records p out = (Ok tt, p', out') ->
  writing p' out' /\ written p' out' = written p out ++ records.
Proof.
  intros HM. revert p out. induction records as [|r records IH]; intros p out Hw; cbn [write_loop].
  { intros [= <- <-]. by rewrite app_nil_r. }
  destruct (write_ok env _); cbn [negb]; [|done].
  destruct Hw as [Hnames Hn Hc [[rows Hrows] Hf] Hcount Hfull Hroom]. unfold pending in Hcount. rewrite Hrows in Hcount.
  cbn [default from_option id] in Hcount. rewrite Hrows. cbn [fmap option_fmap option_map rowCount].
  set (p1 := mkWriter (Some (rows ++ [r])) (fw p) (currentFile p) (rowCount p + 1) (totalRows p + 1) (totalFiles p)).
  assert (written p1 out = written p out ++ [r]) as Hwr.
  { unfold written, pending. rewrite Hrows. apply app_assoc. }
  assert (Z.of_nat (length (pending p1)) = rowCount p + 1) as Hlen.
  { change (pending p1) with (rows ++ [r]). rewrite length_app. cbn [length]. lia. }
  destruct (Z.leb_spec MaxRows (rowCount p + 1)) as [Hle|Hle].
  - destruct (rotateFile p1 out) as [[[[]|e] p2] out2] eqn:E; [|done]. intros H.
    assert (Z.of_nat (length (pending p1)) = MaxRows) as Hmax by lia.
    apply rotateFile_writing in E as [Hw2 Hr2]; try done.
    apply IH in H as [H1 H2]; [|done]. split; [done|]. rewrite H2, Hr2, Hwr. by rewrite <- app_assoc.
  - intros H. apply IH in H as [H1 H2].
    + split; [done|]. rewrite H2, Hwr. by rewrite <- app_assoc.
    + by split.
Qed.

(** Writing to a new writer and closing it: the rows are in the files in
    order, all files but the last have [MaxRows] rows and the last has fewer,
    and the files have distinct names. *)
Lemma writer_splits records p out p' out' : 0 < MaxRows ->
  Write records NewParquetWriter [] = (Ok tt, p, out) -> Close p out = (Ok tt, p', out') ->
  concat out'.*2 = records /\
  (exists full last, out' = full ++ [last] /\ Forall (fun f => Z.of_nat (length f.2) = MaxRows) full /\ Z.of_nat (length last.2) < MaxRows) /\
  out'.*1 = (fun n => data_name (open_time env n) n) <$> seqZ 0 (Z.of_nat (length out')).
Proof.
  intros HM. unfold Write. cbn [NewParquetWriter pw]. destruct (openNewFile NewParquetWriter) as [[[]|e] p0] eqn:E; [|done].
  apply (openNewFile_writing _ []) in E as [Hw Hp]; try done. intros H Hclose.
  apply write_loop_writing in H as [Hw' Hr]; [|done..]. unfold written in Hr. rewrite Hp in Hr. cbn [concat fmap list_fmap app] in Hr.
  apply closeCurrentFile_ok in Hclose as (-> & _ & _); [|apply Hw'].
  destruct Hw' as [Hnames Hn Hc _ Hcount Hfull Hroom]. split_and!.
  - rewrite fmap_app, concat_app. cbn [fmap list_fmap snd concat]. by rewrite app_nil_r.
  - eexists out, _. split_and!; [done..|]. cbn [snd]. lia.
  - rewrite fmap_app, length_app. cbn [length fmap list_fmap fst]. rewrite Hnames, Nat2Z.inj_add, seqZ_app by lia.
    rewrite fmap_app, Hc. done.
Qed.
End writer.

(** ** Conversion *)

Section records.
Context (json : Type) (Unmarshal : string -> option (any json)) (Marshal : json -> option string)
  (MarshalMap : gmap string (any json) -> option string).

(** [json.Marshal] of the types a payload can have in the default case. *)
Context (MarshalInt : Z -> option string) (MarshalTime : Z -> option string).

Definition payload_text (raw : any json) : string :=
  match raw with
  | ABytes s | AString s => s
  | AInt64 z => default "" (MarshalInt z)
  | ATime t => default "" (MarshalTime t)
  | AJson j => default "" (Marshal j)
  end.

Definition convertToGenericRecord (now : Z) (record : gmap string (any json)) : GenericRecord :=
  mkGeneric
    (match record !! "id" with Some (AString id) => id | _ => "" end)
    (match record !! "timestamp" with Some (ATime ns) => ns / 1000 | Some (AInt64 z) => z | _ => now / 1000 end)
    (match record !! "payload" with
     | Some raw => payload_text raw
     | None => match record !! "data" with Some raw => payload_text raw | None => default "" (MarshalMap record) end
     end)
    (match record !! "table" with Some (AString t) => t | _ => "" end).

(** The map [ReadFile] makes of a row. *)
Definition read_record (rec : GenericRecord) : gmap string (any json) :=
  let m := <["table" := AString (g_Table rec)]> (<["timestamp" := AInt64 (g_Timestamp rec)]> {["id" := AString (g_ID rec)]}) in
  if bool_decide (g_Payload rec = "") then m
  else <["payload" := default (AString (g_Payload rec)) (Unmarshal (g_Payload rec))]> m.

(** A row that is read and written again. *)
Definition rewritten (now : Z) (rec : GenericRecord) : GenericRecord := convertToGenericRecord now (read_record rec).

(** The text of a payload that comes out as it went in. *)
Definition stable (payload : string) : Prop :=
  payload <> "" /\
  match Unmarshal payload with
  | None => True
  | Some (AJson j) => Marshal j = Some payload
  | Some (AString s) => s = payload
  | Some _ => False
  end.

(** Reading a row and writing it again keeps the identifier, the time and the
    table, always; and the payload, if its text is stable. *)
Lemma rewritten_spec now rec :
  g_ID (rewritten now rec) = g_ID rec /\ g_Timestamp (rewritten now rec) = g_Timestamp rec /\ g_Table (rewritten now rec) = g_Table rec /\
  (stable (g_Payload rec) -> rewritten now rec = rec).
Proof.
  unfold rewritten, convertToGenericRecord, read_record. destruct rec as [i ts payload table]. cbn [g_ID g_Timestamp g_Payload g_Table].
  destruct (bool_decide_reflect (payload = "")) as [->|Hne]; simplify_map_eq; [split_and!; [done..|]; by intros [? _]|].
  split_and!; [done..|]. intros [_ Hs]. f_equal. destruct (Unmarshal payload) as [v|]; [|done]. cbn [default from_option id].
  destruct v as [s|s|z|t|j]; cbn [payload_text]; try done. by rewrite Hs.
Qed.
End records.
