(* ===== verification/Compaction.v ===== *)
(** * Compaction (internal/compaction/manager.go)

    Small files of a table are merged: the candidates are downloaded and read,
    their rows written to new files, these uploaded, and the old objects
    removed. Either all files below a size are candidates, or files are sorted
    into levels by size and each level is merged on its own. *)

From S2P Require Import Prelude GoStrings GoTime GoFloat GoHeap GoOrder ParquetFiles.
From Stdlib Require Import Ascii SpecFloat.
#[local] Open Scope Z_scope.

Record CompactionLevel := mkLevel {
  l_Name : string; MaxFileSize : Z; l_TargetFileSize : Z; MinFilesToMerge : Z; l_CooldownPeriod : Z;
}.

Record TieredCompactionConfig := mkTiered {
  Enabled : bool; Levels : list CompactionLevel; MaxFilesToMerge : Z; t_MaxRowsPerFile : Z;
}.

Definition minutes (n : Z) : Z := n * 60 * second.
Definition MB (n : Z) : Z := n * 1024 * 1024.

Definition DefaultTieredCompactionConfig : TieredCompactionConfig :=
  mkTiered true
    [mkLevel "L0" (MB 16) (MB 16) 5 (minutes 2); mkLevel "L1" (MB 64) (MB 64) 3 (minutes 5);
     mkLevel "L2" (MB 256) (MB 256) 2 (minutes 10); mkLevel "L3" (MB 1024) (MB 512) 2 (minutes 30)] 20 1000000.

Record Config := mkConfig {
  TargetFileSize : Z; MinFilesToCompact : Z; MaxFilesToCompact : Z; CooldownPeriod : Z; c_MaxRowsPerFile : Z;
  TieredConfig : option TieredCompactionConfig;
}.

Definition DefaultConfig : Config := mkConfig (MB 128) 5 20 (minutes 5) 1000000 (Some DefaultTieredCompactionConfig).

Record Stats := mkStats {
  CompactionsRun : Z; FilesCompacted : Z; BytesBefore : Z; BytesAfter : Z; LastCompactionAt : Z; Errors : Z;
  TieredCompactions : gmap string Z; WriteAmplification : spec_float;
}.
Definition NewStats : Stats := mkStats 0 0 0 0 zero_time 0 ∅ (S754_zero false).

Record FileInfo := mkFileInfo { Path : string; Size : Z; ModTime : Z }.

Record object := mkObject { body : string; modified : Z }.
Abbreviation bucket := (gmap string object).
Definition object_size (o : object) : Z := Z.of_nat (String.length (body o)).

Inductive compaction_error := ListFailed | DirFailed | DownloadFailed | ReadFailed | WriterFailed (e : writer_error) | UploadFailed.

(** The environment of one merge: failures of the calls, clocks, and what other
    clients do to the bucket between the downloads and the uploads. *)
Record merge_env := mkMergeEnv {
  dir_ok : bool;
  get_ok : string -> bool;
  stat_ok : string -> bool;
  put_ok : string -> bool;
  remove_ok : string -> bool;
  writer : writer_env;
  meanwhile : bucket -> bucket;
  read_time : Z;               (* [time.Now] while rows are converted *)
  name_time : string -> Z;     (* and when an output is named *)
  put_time : string -> Z;      (* the server's time of an upload *)
  end_time : Z;
}.

(** ** Candidates *)

Definition getFileLevel (levels : list CompactionLevel) (size : Z) : string :=
  match List.find (fun level => size <=? MaxFileSize level) levels with
  | Some level => l_Name level
  | None => from_option l_Name "" (list.last levels)
  end.

Definition classifyFilesByTier (levels : list CompactionLevel) (files : list FileInfo) : gmap string (list FileInfo) :=
  foldl (fun result f =>
    let level := getFileLevel levels (Size f) in
    if bool_decide (level = "") then result else <[level := default [] (result !! level) ++ [f]]> result)
    (foldl (fun result level => <[l_Name level := []]> result) ∅ levels) files.

Definition by_size (a b : FileInfo) : bool :=
  if negb (Size a =? Size b) then Size a <? Size b else ModTime a <? ModTime b.
Definition by_time (a b : FileInfo) : bool := ModTime a <? ModTime b.

(** [candidates[:max]]; the limits of a configuration are not negative. *)
Definition limited (max : Z) (files : list FileInfo) : list FileInfo :=
  if max <? Z.of_nat (length files) then take (Z.to_nat max) files else files.

Section manager.
Context (sort : forall A, (A -> A -> bool) -> list A -> list A) (range : forall A, gmap string A -> list (string * A)).
Context (encode : list GenericRecord -> string) (decode : string -> option (list GenericRecord)).
Context (json : Type) (Unmarshal : string -> option (any json)) (Marshal : json -> option string)
  (MarshalMap : gmap string (any json) -> option string) (MarshalInt MarshalTime : Z -> option string).

Definition selectTieredCompactionCandidates (now : Z) (files : list FileInfo) (level : CompactionLevel) (MaxFilesToMerge : Z) : list FileInfo :=
  let candidates := List.filter (fun f => negb (time_Sub now (ModTime f) <? l_CooldownPeriod level) && negb (MaxFileSize level <? Size f)) files in
  limited MaxFilesToMerge (sort FileInfo by_size candidates).

Definition selectCompactionCandidates (now : Z) (config : Config) (files : list FileInfo) : list FileInfo :=
  let candidates := List.filter (fun f => negb (time_Sub now (ModTime f) <? CooldownPeriod config) && (Size f <? TargetFileSize config)) files in
  limited (MaxFilesToCompact config) (sort FileInfo by_time candidates).

(** An object of a table is a Parquet file below the table's prefix. *)
Definition in_table (table key : string) : bool :=
  String.prefix (table +:+ "/") key && bool_decide (Ext key = ".parquet").

Definition listTableFiles (list_ok : bool) (table : string) (b : bucket) : result compaction_error (list FileInfo) :=
  if list_ok then
    Ok ((fun x => mkFileInfo x.1 (object_size x.2) (modified x.2)) <$>
        List.filter (fun x => in_table table x.1) (range object b))
  else Err ListFailed.

(** ** Merging *)

Fixpoint read_files (env : merge_env) (b : bucket) (files : list FileInfo) (records : list GenericRecord) (size : Z) :
    result compaction_error (list GenericRecord * Z) :=
  match files with
  | [] => Ok (records, size)
  | f :: files =>
      match b !! Path f with
      | None => Err DownloadFailed
      | Some o =>
          if negb (get_ok env (Path f)) then Err DownloadFailed else
          match decode (body o) with
          | None => Err ReadFailed
          | Some rows => read_files env b files (records ++ rows) (int64 (size + Size f))
          end
      end
  end.

Fixpoint upload_files (env : merge_env) (object_name : string -> string) (outs : list (string * list GenericRecord)) (b : bucket) (size : Z) :
    result compaction_error Z * bucket :=
  match outs with
  | [] => (Ok size, b)
  | (file, rows) :: outs =>
      if negb (stat_ok env file) then upload_files env object_name outs b size else
      let objectName := object_name file in
      if negb (put_ok env objectName) then (Err UploadFailed, b) else
      upload_files env object_name outs (<[objectName := mkObject (encode rows) (put_time env objectName)]> b)
        (int64 (size + Z.of_nat (String.length (encode rows))))
  end.

Definition remove_files (env : merge_env) (files : list FileInfo) (b : bucket) : bucket :=
  foldl (fun b f => if remove_ok env (Path f) then delete (Path f) b else b) b files.

(** The part that [compactFiles] and [compactTieredFiles] share: everything
    but the names of the uploads and the counters. *)
Definition merge (env : merge_env) (object_name : string -> string) (maxRows : Z) (files : list FileInfo) (b : bucket) :
    result compaction_error (Z * Z) * bucket :=
  if negb (dir_ok env) then (Err DirFailed, b) else
  match read_files env b files [] 0 with
  | Err e => (Err e, b)
  | Ok (allRecords, totalSizeBefore) =>
      let b := meanwhile env b in
      let rows := rewritten json Unmarshal Marshal MarshalMap MarshalInt MarshalTime (read_time env) <$> allRecords in
      match Write (writer env) (if maxRows <=? 0 then 1000000 else maxRows) rows NewParquetWriter [] with
      | (Err e, _, _) => (Err (WriterFailed e), b)
      | (Ok _, p, outs) =>
          match Close (writer env) p outs with
          | (Err e, _, _) => (Err (WriterFailed e), b)
          | (Ok _, _, outs) =>
              match upload_files env object_name (sort _ (fun x y => String.ltb x.1 y.1) outs) b 0 with
              | (Err e, b) => (Err e, b)
              | (Ok totalSizeAfter, b) => (Ok (totalSizeBefore, totalSizeAfter), remove_files env files b)
              end
          end
      end
  end.

Definition compacted_name (env : merge_env) (table file : string) : string :=
  table +:+ "/compacted_" +:+ Itoa (name_time env file) +:+ "_" +:+ file.
Definition promoted_name (env : merge_env) (table nextLevel file : string) : string :=
  table +:+ "/" +:+ nextLevel +:+ "_promoted_" +:+ Itoa (name_time env file) +:+ "_" +:+ file.

Definition count_compaction (now files before after : Z) (s : Stats) : Stats :=
  mkStats (int64 (CompactionsRun s + 1)) (int64 (FilesCompacted s + files)) (int64 (BytesBefore s + before)) (int64 (BytesAfter s + after))
    now (Errors s) (TieredCompactions s) (WriteAmplification s).

(** The moving average; [0.9] and [0.1] are the floats nearest to them. *)
Definition f_tenths (n : Z) : spec_float := fdiv (f64 n) (f64 10).
Definition is_zero (f : spec_float) : bool := match f with S754_zero _ => true | _ => false end.
Definition amplify (before after : Z) (s : Stats) : Stats :=
  if before <=? 0 then s else
  let writeAmp := fdiv (f64 (int64 (before + after))) (f64 before) in
  let w := if is_zero (WriteAmplification s) then writeAmp
           else fadd (fmul (f_tenths 9) (WriteAmplification s)) (fmul (f_tenths 1) writeAmp) in
  mkStats (CompactionsRun s) (FilesCompacted s) (BytesBefore s) (BytesAfter s) (LastCompactionAt s) (Errors s) (TieredCompactions s) w.

Definition compactFiles (env : merge_env) (config : Config) (table : string) (files : list FileInfo) (s : Stats) (b : bucket) :
    result compaction_error unit * Stats * bucket :=
  match merge env (compacted_name env table) (c_MaxRowsPerFile config) files b with
  | (Err e, b) => (Err e, s, b)
  | (Ok (before, after), b) => (Ok tt, count_compaction (end_time env) (Z.of_nat (length files)) before after s, b)
  end.

(** The name of an upload of a level: the last level has no next one. *)
Definition tiered_name (env : merge_env) (levels : list CompactionLevel) (table : string) (i : nat) (file : string) : string :=
  let nextLevel := from_option l_Name "" (levels !! S i) in
  if bool_decide (nextLevel = "") then compacted_name env table file else promoted_name env table nextLevel file.

Definition compactTieredFiles (env : merge_env) (config : TieredCompactionConfig) (table : string) (files : list FileInfo) (i : nat)
    (s : Stats) (b : bucket) : result compaction_error unit * Stats * bucket :=
  match merge env (tiered_name env (Levels config) table i) (t_MaxRowsPerFile config) files b with
  | (Err e, b) => (Err e, s, b)
  | (Ok (before, after), b) =>
      (Ok tt, amplify before after (count_compaction (end_time env) (Z.of_nat (length files)) before after s), b)
  end.

Definition count_level (level : string) (s : Stats) : Stats :=
  mkStats (CompactionsRun s) (FilesCompacted s) (BytesBefore s) (BytesAfter s) (LastCompactionAt s) (Errors s)
    (<[level := int64 (default 0 (TieredCompactions s !! level) + 1)]> (TieredCompactions s)) (WriteAmplification s).

(** The loop over the levels: an error moves on to the next one. *)
Fixpoint compact_levels (env : nat -> merge_env) (now : nat -> Z) (config : TieredCompactionConfig) (table : string)
    (tieredFiles : gmap string (list FileInfo)) (i : nat) (levels : list CompactionLevel) (s : Stats) (b : bucket) : Stats * bucket :=
  match levels with
  | [] => (s, b)
  | level :: levels =>
      let levelFiles := default [] (tieredFiles !! l_Name level) in
      let next := compact_levels env now config table tieredFiles (S i) levels in
      if Z.of_nat (length levelFiles) <? MinFilesToMerge level then next s b else
      let candidates := selectTieredCompactionCandidates (now i) levelFiles level (MaxFilesToMerge config) in
      if Z.of_nat (length candidates) <? MinFilesToMerge level then next s b else
      match compactTieredFiles (env i) config table candidates i s b with
      | (Err _, s, b) => next s b
      | (Ok _, s, b) => next (count_level (l_Name level) s) b
      end
  end.

Definition compactTableTiered (env : nat -> merge_env) (now : nat -> Z) (list_ok : bool) (config : TieredCompactionConfig) (table : string)
    (s : Stats) (b : bucket) : result compaction_error unit * Stats * bucket :=
  match listTableFiles list_ok table b with
  | Err e => (Err e, s, b)
  | Ok files =>
      let '(s, b) := compact_levels env now config table (classifyFilesByTier (Levels config) files) 0 (Levels config) s b in
      (Ok tt, s, b)
  end.

Definition compactTable (env : nat -> merge_env) (now : nat -> Z) (list_ok : bool) (config : Config) (table : string)
    (s : Stats) (b : bucket) : result compaction_error unit * Stats * bucket :=
  match TieredConfig config ≫= (fun tiered => if Enabled tiered then Some tiered else None) with
  | Some tiered => compactTableTiered env now list_ok tiered table s b
  | None =>
      match listTableFiles list_ok table b with
      | Err e => (Err e, s, b)
      | Ok files =>
          let candidates := selectCompactionCandidates (now 0%nat) config files in
          if Z.of_nat (length candidates) <? MinFilesToCompact config then (Ok tt, s, b)
          else compactFiles (env 0%nat) config table candidates s b
      end
  end.

Definition ForceCompact := compactTable.

(** [tables]: the top-level prefixes of the listing, or an error. *)
Definition RunCompaction (env : string -> nat -> merge_env) (now : string -> nat -> Z) (list_ok : string -> bool) (config : Config)
    (tables : result compaction_error (list string)) (s : Stats) (b : bucket) : result compaction_error unit * Stats * bucket :=
  match tables with
  | Err e => (Err e, s, b)
  | Ok tables =>
      let '(s, b) := foldl (fun '(s, b) table =>
        let '(_, s, b) := compactTable (env table) (now table) (list_ok table) config table s b in (s, b)) (s, b) tables in
      (Ok tt, s, b)
  end.

(** A tick of [runCompactionLoop]. *)
Definition compaction_tick (env : string -> nat -> merge_env) (now : string -> nat -> Z) (list_ok : string -> bool) (config : Config)
    (tables : result compaction_error (list string)) (s : Stats) (b : bucket) : Stats * bucket :=
  match RunCompaction env now list_ok config tables s b with
  | (Err _, s, b) => (mkStats (CompactionsRun s) (FilesCompacted s) (BytesBefore s) (BytesAfter s) (LastCompactionAt s)
                        (int64 (Errors s + 1)) (TieredCompactions s) (WriteAmplification s), b)
  | (Ok _, s, b) => (s, b)
  end.
End manager.
