(* ===== verification/CompactionTheorems.v ===== *)
(** * Compaction keeps the rows of a table (internal/compaction/manager.go)

    Rows are counted as a multiset over all files of a table. No failure of a
    call loses a row, except one; without failures the multiset is the same,
    if the payloads survive being read and written again. *)

From S2P Require Import Prelude GoStrings GoTime GoFloat GoHeap GoOrder ParquetFiles Compaction.
From Stdlib Require Import Ascii SpecFloat.
#[local] Open Scope Z_scope.

(** A Parquet file that the writer closed is read back. *)
Class ParquetCodec (encode : list GenericRecord -> string) (decode : string -> option (list GenericRecord)) : Prop :=
  decode_encode l : decode (encode l) = Some l.

(** ** Names *)

Lemma data_name_inj t n t' n' : data_name t n = data_name t' n' -> n = n'.
Proof.
  unfold data_name. intros H%(inj (String.append "data_")). apply first_sep_inj in H as [_ H]; [|apply Itoa_no_underscore..].
  apply (last_sep_inj ".") in H as [H _]; [by apply Itoa_inj|done..].
Qed.

Lemma append_inj_l a s t : a +:+ s = a +:+ t -> s = t.
Proof. apply (inj (String.append a)). Qed.

Lemma compacted_name_inj env table x y : compacted_name env table x = compacted_name env table y -> x = y.
Proof.
  unfold compacted_name. intros H%append_inj_l%append_inj_l. apply first_sep_inj in H as [_ H]; [done|apply Itoa_no_underscore..].
Qed.

Lemma promoted_name_inj env table level x y : promoted_name env table level x = promoted_name env table level y -> x = y.
Proof.
  unfold promoted_name. intros H%append_inj_l%append_inj_l%append_inj_l%append_inj_l.
  apply first_sep_inj in H as [_ H]; [done|apply Itoa_no_underscore..].
Qed.

Lemma tiered_name_inj env levels table i x y : tiered_name env levels table i x = tiered_name env levels table i y -> x = y.
Proof.
  unfold tiered_name. destruct (bool_decide _); [apply compacted_name_inj|apply promoted_name_inj].
Qed.

Lemma prefix_append a s : String.prefix a (a +:+ s) = true.
Proof.
  induction a as [|c a IH]; [by destruct s|].
  change ((if ascii_dec c c then String.prefix a (a +:+ s) else false) = true). by destruct (ascii_dec c c).
Qed.

Lemma in_table_output table s n m : in_table table ((table +:+ "/" +:+ s) +:+ data_name n m) = true.
Proof.
  unfold in_table. rewrite <- !string_app_assoc, (string_app_assoc table "/"), prefix_append. apply bool_decide_true.
  unfold data_name. repeat (apply Ext_app; [|done]). done.
Qed.

Lemma in_table_compacted env table n m : in_table table (compacted_name env table (data_name n m)) = true.
Proof.
  unfold compacted_name. pose proof (in_table_output table ("compacted_" +:+ Itoa (name_time env (data_name n m)) +:+ "_") n m) as H.
  by rewrite <- !string_app_assoc in H.
Qed.

Lemma in_table_tiered env levels table i n m : in_table table (tiered_name env levels table i (data_name n m)) = true.
Proof.
  unfold tiered_name. destruct (bool_decide _); [apply in_table_compacted|]. unfold promoted_name.
  pose proof (in_table_output table (from_option l_Name "" (levels !! S i) +:+ "_promoted_" +:+ Itoa (name_time env (data_name n m)) +:+ "_") n m) as H.
  by rewrite <- !string_app_assoc in H.
Qed.

(** ** The rows of a table *)

Section rows.
Context (sort : forall A, (A -> A -> bool) -> list A -> list A) (range : forall A, gmap string A -> list (string * A)).
Context (encode : list GenericRecord -> string) (decode : string -> option (list GenericRecord)).
Context (json : Type) (Unmarshal : string -> option (any json)) (Marshal : json -> option string)
  (MarshalMap : gmap string (any json) -> option string) (MarshalInt MarshalTime : Z -> option string).
Context (sort_ok : forall A, SliceSort (sort A)) `{!MapRange range} `{!ParquetCodec encode decode}.
Context (table : string).

Definition object_rows (k : string) (o : object) : list GenericRecord := if in_table table k then default [] (decode (body o)) else [].
Definition table_rows (b : bucket) : list GenericRecord := map_to_list b ≫= fun x => object_rows x.1 x.2.

Lemma table_rows_insert b k o : b !! k = None -> table_rows (<[k := o]> b) ≡ₚ object_rows k o ++ table_rows b.
Proof. intros H. unfold table_rows. by rewrite map_to_list_insert. Qed.

Lemma table_rows_delete b k o : b !! k = Some o -> table_rows b ≡ₚ object_rows k o ++ table_rows (delete k b).
Proof. intros H. rewrite <- (insert_delete_id b k o H) at 1. by rewrite table_rows_insert by apply lookup_delete_eq. Qed.

Definition input_rows (b : bucket) (files : list FileInfo) : list GenericRecord :=
  files ≫= fun f => from_option (object_rows (Path f)) [] (b !! Path f).

Lemma input_rows_ext b b' files : (forall f, f ∈ files -> b' !! Path f = b !! Path f) -> input_rows b' files = input_rows b files.
Proof.
  induction files as [|f files IH]; intros H; [done|]. unfold input_rows. cbn. rewrite (H f) by apply list_elem_of_here.
  f_equal. apply IH. intros g Hg. apply H. by apply list_elem_of_further.
Qed.

Lemma read_files_ok env b files acc size records size' : Forall (fun f => in_table table (Path f) = true) files ->
  read_files decode env b files acc size = Ok (records, size') ->
  records = acc ++ input_rows b files /\ Forall (fun f => is_Some (b !! Path f)) files.
Proof.
  intros Ht. revert acc size. induction files as [|f files IH]; intros acc size; cbn [read_files].
  { intros [= <- _]. by rewrite app_nil_r. }
  apply Forall_cons in Ht as [Hf Ht]. destruct (b !! Path f) as [o|] eqn:E; [|done]. destruct (get_ok env _); [|done].
  cbn [negb]. destruct (decode (body o)) as [rows|] eqn:D; [|done]. intros H. apply IH in H as [-> HF]; [|done]. split.
  - unfold input_rows. cbn. rewrite E. cbn [from_option]. unfold object_rows. rewrite Hf, D. cbn. by rewrite <- app_assoc.
  - constructor; [by rewrite E|done].
Qed.

Lemma remove_files_rows env files b : NoDup (Path <$> files) -> Forall (fun f => is_Some (b !! Path f)) files ->
  exists removed kept, removed ++ kept ≡ₚ input_rows b files /\ table_rows b ≡ₚ removed ++ table_rows (remove_files env files b) /\
    ((forall p, remove_ok env p = true) -> kept = []).
Proof.
  revert b. induction files as [|f files IH]; intros b Hnd Hall; [by exists [], []|].
  rewrite fmap_cons in Hnd. apply NoDup_cons in Hnd as [Hf Hnd]. apply Forall_cons in Hall as [[o Ho] Hall].
  assert (forall g, g ∈ files -> Path g <> Path f) as Hne by (intros g Hg E; apply Hf; rewrite <- E; by apply list_elem_of_fmap_2).
  unfold remove_files. cbn [foldl]. unfold input_rows. cbn [mbind list_bind]. fold (input_rows b files). rewrite Ho. cbn [from_option].
  destruct (remove_ok env (Path f)) eqn:Er.
  - destruct (IH (delete (Path f) b)) as (removed & kept & H1 & H2 & H3); [done| |].
    { apply Forall_forall. intros g Hg. rewrite Forall_forall in Hall. rewrite lookup_delete_ne by (symmetry; by apply Hne). by apply Hall. }
    exists (object_rows (Path f) o ++ removed), kept. split_and!; [|rewrite (table_rows_delete _ _ _ Ho), <- app_assoc; by apply Permutation_app|done].
    rewrite <- app_assoc. apply Permutation_app; [done|]. rewrite H1. rewrite (input_rows_ext b); [done|].
    intros g Hg. apply lookup_delete_ne. symmetry. by apply Hne.
  - destruct (IH b) as (removed & kept & H1 & H2 & H3); [done..|]. exists removed, (object_rows (Path f) o ++ kept).
    split_and!; [|done|intros H; by rewrite H in Er]. rewrite <- H1. by rewrite (Permutation_app_swap_app removed).
Qed.

Lemma upload_files_rows env name outs b size res b' :
  (forall f, stat_ok env f = true) -> NoDup (name <$> outs.*1) ->
  Forall (fun n => b !! name n = None /\ in_table table (name n) = true) outs.*1 ->
  upload_files encode env name outs b size = (res, b') ->
  exists done rest, outs = done ++ rest /\ table_rows b' ≡ₚ concat done.*2 ++ table_rows b /\
    (forall k, k ∉ name <$> outs.*1 -> b' !! k = b !! k) /\
    (forall n, res = Ok n -> rest = []) /\ ((forall p, put_ok env p = true) -> exists n, res = Ok n).
Proof.
  intros Hstat. revert b size. induction outs as [|[file rows] outs IH]; intros b size Hnd Hfree; cbn [upload_files].
  { intros [= <- <-]. exists [], []. split_and!; try done. by eexists. }
  cbn [fmap list_fmap fst] in Hnd, Hfree. apply NoDup_cons in Hnd as [Hf Hnd]. apply Forall_cons in Hfree as [[Hb Ht] Hfree].
  rewrite Hstat. cbn [negb]. destruct (put_ok env (name file)) eqn:Ep; cbn [negb].
  - intros H. apply IH in H as (dn & rest & -> & Hrows & Hother & Hrest & Hok); [|done|].
    + exists ((file, rows) :: dn), rest. split_and!; [done| | |done..].
      * rewrite Hrows, table_rows_insert by done. unfold object_rows. rewrite Ht. cbn [body]. rewrite decode_encode. cbn.
        rewrite <- app_assoc. apply Permutation_app_swap_app.
      * intros k Hk. rewrite fmap_cons, fmap_cons, not_elem_of_cons in Hk. destruct Hk as [Hk1 Hk2]. rewrite Hother by done.
        by apply lookup_insert_ne.
    + apply Forall_forall. intros n Hn. rewrite Forall_forall in Hfree. destruct (Hfree n Hn) as [Hn1 Hn2]. split; [|done].
      rewrite lookup_insert_ne; [done|]. intros E. apply Hf. rewrite E. by apply list_elem_of_fmap_2.
  - intros [= <- <-]. exists [], ((file, rows) :: outs). split_and!; try done. intros H. by rewrite H in Ep.
Qed.

(** ** One merge *)

Abbreviation rewritten := (rewritten json Unmarshal Marshal MarshalMap MarshalInt MarshalTime).
Abbreviation stable := (stable json Unmarshal Marshal).
Abbreviation merge := (merge sort encode decode json Unmarshal Marshal MarshalMap MarshalInt MarshalTime).

Lemma rewritten_all now l : Forall (fun r => stable (g_Payload r)) l -> rewritten now <$> l = l.
Proof. induction 1 as [|r l Hr Hl IH]; [done|]. rewrite fmap_cons, IH. f_equal. by apply rewritten_spec. Qed.

Lemma input_rows_subset b files r : r ∈ input_rows b files -> r ∈ table_rows b.
Proof.
  unfold input_rows, table_rows. rewrite !list_elem_of_bind. intros (f & Hr & _). destruct (b !! Path f) as [o|] eqn:E; [|by apply elem_of_nil in Hr].
  exists (Path f, o). split; [done|by apply elem_of_map_to_list].
Qed.

(** The environment of a merge in which nothing is lost. *)
Record quiet (env : merge_env) (name : string -> string) (b : bucket) : Prop := {
  q_stat : forall f, stat_ok env f = true;
  q_meanwhile : meanwhile env b = b;
  q_inj : forall x y, name x = name y -> x = y;
  q_fresh : forall n, b !! name (data_name (open_time (writer env) n) n) = None;
  q_table : forall n m, in_table table (name (data_name n m)) = true;
}.

Lemma outputs_names env maxRows rows p outs p' outs' : 0 < maxRows ->
  Write (writer env) maxRows rows NewParquetWriter [] = (Ok tt, p, outs) -> Close (writer env) p outs = (Ok tt, p', outs') ->
  let sorted := sort _ (fun x y : string * list GenericRecord => String.ltb x.1 y.1) outs' in
  concat sorted.*2 ≡ₚ rows /\ NoDup sorted.*1 /\ (forall f, f ∈ sorted.*1 -> exists n, f = data_name (open_time (writer env) n) n).
Proof.
  intros HM HW HC. destruct (writer_splits _ _ _ _ _ _ _ HM HW HC) as (Hrows & _ & Hnames). cbv zeta.
  pose proof (sort_perm (fun x y : string * list GenericRecord => String.ltb x.1 y.1) outs') as Hp. split_and!.
  - rewrite <- Hrows, Hp. done.
  - rewrite Hp, Hnames. apply NoDup_fmap_2_strong; [|apply NoDup_seqZ]. intros x y _ _ E. by apply data_name_inj in E.
  - intros f. rewrite Hp, Hnames. intros (n & -> & _)%list_elem_of_fmap. by eexists.
Qed.

(** What a merge does to the rows of its table: it may add rows that are there
    already, and adds none if no call fails. *)
Definition only_adds (all_ok : Prop) (b b' : bucket) : Prop :=
  (exists extra, table_rows b' ≡ₚ table_rows b ++ extra /\ (forall r, r ∈ extra -> r ∈ table_rows b) /\ (all_ok -> extra = [])) /\
  (forall k, in_table table k = false -> b' !! k = b !! k).

Lemma only_adds_refl ok b : only_adds ok b b.
Proof. split; [|done]. exists []. split_and!; [by rewrite app_nil_r|by intros r ?%elem_of_nil|done]. Qed.

Lemma only_adds_trans ok b1 b2 b3 : only_adds ok b1 b2 -> only_adds ok b2 b3 -> only_adds ok b1 b3.
Proof.
  intros [(e1 & H1 & S1 & O1) K1] [(e2 & H2 & S2 & O2) K2]. split.
  - exists (e1 ++ e2). split_and!; [by rewrite H2, H1, app_assoc| |intros Hok; by rewrite O1, O2].
    intros r [?|Hr]%elem_of_app; [by apply S1|]. apply S2 in Hr. rewrite H1, elem_of_app in Hr. destruct Hr; [done|by apply S1].
  - intros k Hk. by rewrite K2, K1.
Qed.

Lemma only_adds_impl (ok ok' : Prop) b b' : (ok' -> ok) -> only_adds ok b b' -> only_adds ok' b b'.
Proof. intros H [(e & ? & ? & He) ?]. split; [|done]. exists e. split_and!; auto. Qed.

Definition calls_ok (env : merge_env) : Prop := (forall p, put_ok env p = true) /\ (forall p, remove_ok env p = true).

Lemma remove_files_other env files b k : Forall (fun f => in_table table (Path f) = true) files -> in_table table k = false ->
  remove_files env files b !! k = b !! k.
Proof.
  intros Hf Hk. unfold remove_files. revert b. induction Hf as [|f files Hin _ IH]; intros b; [done|]. cbn [foldl]. rewrite IH.
  destruct (remove_ok env _); [|done]. apply lookup_delete_ne. intros E. rewrite E in Hin. congruence.
Qed.

Lemma remove_after_upload env files b b1 sorted rows :
  NoDup (Path <$> files) -> Forall (fun f => is_Some (b !! Path f)) files ->
  (forall f, f ∈ files -> b1 !! Path f = b !! Path f) -> concat sorted ≡ₚ rows -> rows = input_rows b files ->
  table_rows b1 ≡ₚ concat sorted ++ table_rows b ->
  exists kept, table_rows (remove_files env files b1) ≡ₚ table_rows b ++ kept /\ (forall r, r ∈ kept -> r ∈ table_rows b) /\
    ((forall p, remove_ok env p = true) -> kept = []).
Proof.
  intros Hnd Hall Hsame Hsorted -> Hup.
  destruct (remove_files_rows env files b1 Hnd) as (removed & kept & H1 & H2 & H3).
  { apply Forall_forall. intros f Hf. rewrite Hsame by done. rewrite Forall_forall in Hall. by apply Hall. }
  rewrite (input_rows_ext b b1) in H1 by done. exists kept. split_and!; [| |done].
  - rewrite Hup, Hsorted, <- H1, <- app_assoc in H2. apply (inj (app removed)) in H2. by rewrite <- H2, Permutation_app_comm.
  - intros r Hr. apply (input_rows_subset b files). rewrite <- H1. apply elem_of_app. by right.
Qed.

Lemma merge_rows env name maxRows files b res b' :
  quiet env name b -> NoDup (Path <$> files) -> Forall (fun f => in_table table (Path f) = true) files ->
  Forall (fun r => stable (g_Payload r)) (table_rows b) ->
  merge env name maxRows files b = (res, b') -> only_adds (calls_ok env) b b'.
Proof.
  intros Hq Hnd Htab Hst. unfold Compaction.merge. destruct (dir_ok env); cbn [negb]; [|intros [= _ <-]; apply only_adds_refl].
  destruct (read_files decode env b files [] 0) as [[records before]|e] eqn:Er; [|intros [= _ <-]; apply only_adds_refl].
  apply read_files_ok in Er as [-> Hall]; [|done]. rewrite (q_meanwhile _ _ _ Hq). cbn [app].
  rewrite rewritten_all by (apply Forall_forall; intros r Hr; rewrite Forall_forall in Hst; by apply Hst, (input_rows_subset b files)).
  set (M := if maxRows <=? 0 then 1000000 else maxRows).
  assert (0 < M) as HM by (unfold M; destruct (Z.leb_spec maxRows 0); lia).
  destruct (Write _ _ _ _ _) as [[[[]|e] p] outs] eqn:EW; [|intros [= _ <-]; apply only_adds_refl].
  destruct (Close _ p outs) as [[[[]|e] p'] outs'] eqn:EC; [|intros [= _ <-]; apply only_adds_refl].
  destruct (outputs_names _ _ _ _ _ _ _ HM EW EC) as (Hrows & Hnames & Hform). cbv zeta in Hrows, Hnames, Hform.
  set (sorted := sort _ _ outs') in *.
  destruct (upload_files encode env name sorted b 0) as [r b1] eqn:EU.
  assert (NoDup (name <$> sorted.*1)) as Hnn by (apply NoDup_fmap_2_strong; [intros x y _ _; apply (q_inj _ _ _ Hq)|done]).
  assert (Forall (fun n => b !! name n = None /\ in_table table (name n) = true) sorted.*1) as Hfree.
  { apply Forall_forall. intros f Hf. destruct (Hform f Hf) as [n ->]. split; [apply (q_fresh _ _ _ Hq)|apply (q_table _ _ _ Hq)]. }
  assert (forall k, k ∈ name <$> sorted.*1 -> b !! k = None /\ in_table table k = true) as Hnew.
  { intros k (f & -> & Hf)%list_elem_of_fmap. rewrite Forall_forall in Hfree. by apply Hfree. }
  destruct (upload_files_rows env name sorted b 0 r b1 (q_stat _ _ _ Hq) Hnn Hfree EU) as (dn & rest & Hsplit & Hup & Hother & Hdone & Hput).
  assert (forall k, in_table table k = false -> b1 !! k = b !! k) as Hout.
  { intros k Hk. apply Hother. intros Hin. apply Hnew in Hin as [_ Hin]. congruence. }
  destruct r as [after|e].
  - intros [= <- <-]. rewrite (Hdone after eq_refl), app_nil_r in Hsplit. rewrite <- Hsplit in Hup.
    destruct (remove_after_upload env files b b1 sorted.*2 (input_rows b files) Hnd Hall) as (kept & K1 & K2 & K3); try done.
    { intros f Hf. apply Hother. intros Hin. apply Hnew in Hin as [Hin _]. rewrite Forall_forall in Hall. destruct (Hall f Hf). congruence. }
    split; [exists kept; split_and!; [done..|intros [_ Hrm]; by apply K3]|]. intros k Hk. by rewrite remove_files_other, Hout.
  - intros [= <- <-]. split; [|done]. exists (concat dn.*2). split_and!; [by rewrite Hup, Permutation_app_comm| |].
    + intros r Hr. apply (input_rows_subset b files). rewrite <- Hrows, Hsplit, fmap_app, concat_app. apply elem_of_app. by left.
    + intros [Hp _]. by destruct (Hput Hp).
Qed.

(** ** Candidates *)

Definition files_ok (files : list FileInfo) : Prop := NoDup (Path <$> files) /\ Forall (fun f => in_table table (Path f) = true) files.

Lemma files_ok_submseteq files files' : files' ⊆+ files -> files_ok files -> files_ok files'.
Proof.
  intros Hs [H1 H2]. split; [by eapply NoDup_part; [apply fmap_submseteq|]|]. apply Forall_forall. intros f Hf. rewrite Forall_forall in H2.
  apply H2. by eapply elem_of_submseteq.
Qed.

Lemma listed_ok b files : listTableFiles range true table b = Ok files -> files_ok files.
Proof.
  intros [= <-]. split.
  - rewrite <- list_fmap_compose. assert (forall l : list (string * object), (Path ∘ (fun x => mkFileInfo x.1 (object_size x.2) (modified x.2))) <$> l = l.*1) as E
      by (intros l; by apply list_fmap_ext).
    rewrite E. eapply sublist_NoDup; [apply (range_NoDup range)|]. apply fmap_sublist, filter_sublist.
  - apply Forall_forall. intros f (x & -> & Hx)%list_elem_of_fmap. apply list_elem_of_In, filter_In in Hx as [_ Hx]. done.
Qed.

Lemma limited_part max files : limited max files ⊆+ files.
Proof. unfold limited. destruct (_ <? _); [apply submseteq_take|done]. Qed.

Lemma tiered_candidates_part now files level max : selectTieredCompactionCandidates sort now files level max ⊆+ files.
Proof. unfold selectTieredCompactionCandidates. rewrite limited_part, sort_perm. apply sublist_submseteq, filter_sublist. Qed.

Lemma candidates_part now config files : selectCompactionCandidates sort now config files ⊆+ files.
Proof. unfold selectCompactionCandidates. rewrite limited_part, sort_perm. apply sublist_submseteq, filter_sublist. Qed.

Lemma classify_part levels files level : default [] (classifyFilesByTier levels files !! level) `sublist_of` files.
Proof.
  unfold classifyFilesByTier. induction files as [|f files IH] using rev_ind.
  - cbn [foldl]. assert (forall m : gmap string (list FileInfo), (forall l, default [] (m !! l) = []) ->
      default [] (foldl (fun result level => <[l_Name level := []]> result) m levels !! level) = []) as H; [|by rewrite H].
    induction levels as [|x levels IH]; intros m Hm; [done|]. cbn [foldl]. apply IH. intros l.
    destruct (decide (l = l_Name x)) as [->|Hne]; [by rewrite lookup_insert_eq|by rewrite lookup_insert_ne].
  - rewrite foldl_app. cbn [foldl]. destruct (bool_decide _); [by apply sublist_inserts_r|].
    destruct (decide (level = getFileLevel levels (Size f))) as [->|Hne].
    + rewrite lookup_insert_eq. by apply sublist_app.
    + rewrite lookup_insert_ne by done. by apply sublist_inserts_r.
Qed.

(** ** A table *)

Abbreviation compactTable := (compactTable sort range encode decode json Unmarshal Marshal MarshalMap MarshalInt MarshalTime).
Abbreviation compact_levels := (compact_levels sort encode decode json Unmarshal Marshal MarshalMap MarshalInt MarshalTime).

(** The name of an upload of the merge of level [i], of the [n]-th file. *)
Definition upload_name (env : nat -> merge_env) (levels : list CompactionLevel) (i : nat) (n : Z) : string :=
  tiered_name (env i) levels table i (data_name (open_time (writer (env i)) n) n).

(** No merge meets a name of its uploads, in the bucket or of another level;
    every output is found; nobody else is at work. *)
Record undisturbed (env : nat -> merge_env) (levels : list CompactionLevel) (b : bucket) : Prop := {
  ud_stat : forall i f, stat_ok (env i) f = true;
  ud_meanwhile : forall i b, meanwhile (env i) b = b;
  ud_fresh : forall i n, b !! upload_name env levels i n = None;
  ud_distinct : forall i j n m, upload_name env levels i n = upload_name env levels j m -> i = j;
}.

Lemma merge_keys env name maxRows files b res b' k : meanwhile env b = b -> merge env name maxRows files b = (res, b') ->
  (forall n, k <> name (data_name (open_time (writer env) n) n)) -> b !! k = None -> b' !! k = None.
Proof.
  intros Hm. unfold Compaction.merge. destruct (dir_ok env); cbn [negb]; [|by intros [= _ <-]].
  destruct (read_files decode env b files [] 0) as [[records before]|e]; [|by intros [= _ <-]]. rewrite Hm.
  set (M := if maxRows <=? 0 then 1000000 else maxRows).
  assert (0 < M) as HM by (unfold M; destruct (Z.leb_spec maxRows 0); lia).
  destruct (Write _ _ _ _ _) as [[[[]|e] p] outs] eqn:EW; [|by intros [= _ <-]].
  destruct (Close _ p outs) as [[[[]|e] p'] outs'] eqn:EC; [|by intros [= _ <-]].
  destruct (outputs_names _ _ _ _ _ _ _ HM EW EC) as (_ & _ & Hform). cbv zeta in Hform. revert Hform.
  generalize (sort (string * list GenericRecord) (fun x y => String.ltb x.1 y.1) outs'). intros sorted Hform Hmerge Hk Hb.
  assert (forall l b size r b1, (forall f, f ∈ l.*1 -> exists n, f = data_name (open_time (writer env) n) n) -> b !! k = None ->
    upload_files encode env name l b size = (r, b1) -> b1 !! k = None) as Hup.
  { induction l as [|[f rows] l IH]; intros b0 size r b1 Hl Hb0; cbn [upload_files]; [by intros [= _ <-]|].
    assert (forall g, g ∈ l.*1 -> exists n, g = data_name (open_time (writer env) n) n) as Hl' by (intros g Hg; apply Hl; by apply list_elem_of_further).
    destruct (stat_ok env f); cbn [negb]; [|by eapply IH]. destruct (put_ok env _); cbn [negb]; [|by intros [= _ <-]].
    apply IH; [done|]. rewrite lookup_insert_ne; [done|]. destruct (Hl f) as [n ->]; [apply list_elem_of_here|]. symmetry. by apply Hk. }
  destruct (upload_files encode env name sorted b 0) as [r b1] eqn:EU. apply Hup in EU; [|done..].
  destruct r as [after|e]; injection Hmerge as _ <-; [|done]. unfold remove_files. clear - EU.
  revert b1 EU. induction files as [|f files IH]; intros b1 EU; [done|]. cbn [foldl]. apply IH.
  destruct (remove_ok env _); [|done]. destruct (decide (Path f = k)) as [->|Hne]; [apply lookup_delete_eq|by rewrite lookup_delete_ne].
Qed.

Lemma stable_kept ok b b' : only_adds ok b b' -> Forall (fun r => stable (g_Payload r)) (table_rows b) ->
  Forall (fun r => stable (g_Payload r)) (table_rows b').
Proof.
  intros [(extra & -> & Hsub & _) _] H. apply Forall_app. split; [done|]. apply Forall_forall. intros r Hr.
  rewrite Forall_forall in H. by apply H, Hsub.
Qed.

Lemma compact_levels_rows env now config files : files_ok files -> (forall i f, stat_ok (env i) f = true) ->
  (forall i b, meanwhile (env i) b = b) -> (forall i j n m, upload_name env (Levels config) i n = upload_name env (Levels config) j m -> i = j) ->
  forall levels i s b s' b', (forall j n, (i <= j)%nat -> b !! upload_name env (Levels config) j n = None) ->
  Forall (fun r => stable (g_Payload r)) (table_rows b) ->
  compact_levels env now config table (classifyFilesByTier (Levels config) files) i levels s b = (s', b') ->
  only_adds (forall i, calls_ok (env i)) b b'.
Proof.
  intros Hfiles Hstat Hmean Hdist. induction levels as [|level levels IH]; intros i s b s' b' Hfresh Hst; cbn [Compaction.compact_levels].
  { intros [= _ <-]. apply only_adds_refl. }
  assert (forall j n, (S i <= j)%nat -> b !! upload_name env (Levels config) j n = None) as Hfresh' by (intros; apply Hfresh; lia).
  destruct (_ <? _); [by apply IH|]. destruct (_ <? _); [by apply IH|]. unfold compactTieredFiles.
  set (candidates := selectTieredCompactionCandidates _ _ _ _ _).
  destruct (merge (env i) _ _ candidates b) as [r b1] eqn:E.
  assert (files_ok candidates) as [Hnd Htab].
  { eapply files_ok_submseteq; [|exact Hfiles]. unfold candidates. rewrite tiered_candidates_part. apply sublist_submseteq, classify_part. }
  assert (only_adds (calls_ok (env i)) b b1) as Hadd.
  { eapply merge_rows; [|done..]. split; [done|by rewrite Hmean|apply tiered_name_inj|intros n; by apply Hfresh|intros; apply in_table_tiered]. }
  assert (forall j n, (S i <= j)%nat -> b1 !! upload_name env (Levels config) j n = None) as Hfresh1.
  { intros j n Hj. eapply merge_keys; [apply Hmean|exact E| |by apply Hfresh'].
    intros m Heq. apply (Hdist j i n m) in Heq. lia. }
  assert (Forall (fun r => stable (g_Payload r)) (table_rows b1)) as Hst1 by by eapply stable_kept.
  destruct r as [[before after]|e]; intros H; apply IH in H; try done;
    (eapply only_adds_trans; [eapply only_adds_impl; [|exact Hadd]; auto|done]).
Qed.

(** C13: compaction of a table, when every output is found by [os.Stat], nobody
    else changes the bucket meanwhile, the names of the uploads are new and
    every payload is stable under reading and writing again. Then, whatever
    downloads, uploads and removals fail, in any level, every row is
    afterwards in the table at least as often as before, and no row is new;
    if no upload and no removal fails, the rows are the same as a multiset.
    Objects of other tables are not touched. *)
Theorem compaction_keeps_rows env now config list_ok s b res s' b' :
  undisturbed env (from_option Levels [] (TieredConfig config ≫= (fun t => if Enabled t then Some t else None))) b ->
  Forall (fun r => stable (g_Payload r)) (table_rows b) ->
  compactTable env now list_ok config table s b = (res, s', b') ->
  table_rows b ⊆+ table_rows b' /\ (forall r, r ∈ table_rows b' -> r ∈ table_rows b) /\
  ((forall i, calls_ok (env i)) -> table_rows b' ≡ₚ table_rows b) /\
  (forall k, in_table table k = false -> b' !! k = b !! k).
Proof.
  intros Hu Hst E. assert (only_adds (forall i, calls_ok (env i)) b b') as [(extra & H1 & H2 & H3) H4].
  - unfold Compaction.compactTable in E. destruct (TieredConfig config ≫= _) as [tiered|]; cbn [from_option] in Hu.
    + unfold compactTableTiered in E. destruct list_ok; [|injection E as _ _ <-; apply only_adds_refl].
      destruct (listTableFiles range true table b) as [files|] eqn:EL; [|done]. apply listed_ok in EL.
      destruct (compact_levels _ _ _ _ _ _ _ _ _) as [s1 b1] eqn:EC. injection E as _ _ <-.
      eapply compact_levels_rows; [exact EL|apply Hu|apply Hu|apply Hu| |done|exact EC]. intros; apply Hu.
    + destruct list_ok; [|injection E as _ _ <-; apply only_adds_refl].
      destruct (listTableFiles range true table b) as [files|] eqn:EL; [|done]. apply listed_ok in EL.
      destruct (_ <? _); [injection E as _ _ <-; apply only_adds_refl|]. unfold compactFiles in E.
      destruct (merge _ _ _ _ b) as [r b1] eqn:EM. assert (b1 = b') as -> by (by destruct r as [[]|]; injection E).
      destruct (files_ok_submseteq _ _ (candidates_part (now 0%nat) config files) EL) as [Hnd Htab].
      eapply only_adds_impl; [|eapply merge_rows; [|exact Hnd|exact Htab|done|exact EM]]; [auto|].
      split; [apply Hu|apply Hu|apply compacted_name_inj|intros n; apply (ud_fresh _ _ _ Hu 0%nat n)|intros; apply in_table_compacted].
  - split_and!; [|intros r Hr; rewrite H1, elem_of_app in Hr; destruct Hr; auto|intros Hok; by rewrite H1, H3, app_nil_r|done].
    rewrite H1. by apply submseteq_inserts_r.
Qed.
End rows.

(** ** Examples *)

#[export] Instance GenericRecord_countable : Countable GenericRecord.
Proof.
  refine (inj_countable' (fun r => (g_ID r, g_Timestamp r, g_Payload r, g_Table r)) (fun '(i, t, p, b) => mkGeneric i t p b) _).
  by intros [].
Defined.

Module CompactionDemo.

Definition quote : ascii := ascii_of_N 34.

(** JSON texts as values: an object is its text, a string is unquoted. *)
Definition unmarshal (s : string) : option (any string) :=
  match s with
  | String c rest =>
      if bool_decide (c = "{"%char) then Some (AJson s)
      else if bool_decide (c = quote) then Some (AString (String.substring 0 (String.length rest - 1) rest)) else None
  | EmptyString => None
  end.
Definition marshal_map (m : gmap string (any string)) : option string := Some "{record}".
Definition no_json (z : Z) : option string := None.
Definition sort A : (A -> A -> bool) -> list A -> list A := insertion_sort.

#[local] Instance text_codec : ParquetCodec encode_text decode_text.
Proof. intros l. apply decode_encode_text. Qed.

Definition calm (i : nat) : merge_env :=
  mkMergeEnv true (fun _ => true) (fun _ => true) (fun _ => true) (fun _ => true)
    (mkWriterEnv (fun _ => 7) (fun _ => true) (fun _ => true) (fun _ => true) (fun _ => true))
    (fun b => b) 0 (fun _ => Z.of_nat i) (fun _ => 90) 99.
Definition config (maxRows : Z) : Config := mkConfig 1000000 2 20 5 maxRows None.

Definition row (id payload : string) : GenericRecord := mkGeneric id 5 payload "t".
Definition file_of (rows : list GenericRecord) : object := mkObject (encode_text rows) 1.
Definition b0 : bucket :=
  {[ "t/a.parquet" := file_of [row "a" "{1}"]; "t/b.parquet" := file_of [row "b" "{2}"]; "u/c.parquet" := file_of [row "c" "{3}"] ]}.

Definition compact (env : merge_env) (maxRows : Z) (b : bucket) :=
  compactTable sort map_range encode_text decode_text string unmarshal Some marshal_map no_json no_json
    (fun _ => env) (fun _ => 80) true (config maxRows) "t" NewStats b.

Lemma undisturbed_b0 : undisturbed "t" calm [] b0.
Proof.
  split; [done..| |].
  - intros i n. unfold upload_name, tiered_name, compacted_name. cbn [lookup list_lookup from_option]. rewrite bool_decide_true by done.
    unfold b0. rewrite !lookup_insert_ne by (intros H; discriminate H). apply lookup_singleton_ne. intros H; discriminate H.
  - intros i j n m. unfold upload_name, tiered_name, compacted_name. cbn [lookup list_lookup from_option]. rewrite !bool_decide_true by done.
    intros H%append_inj_l%append_inj_l. apply first_sep_inj in H as [H _]; [|apply Itoa_no_underscore..].
    apply Itoa_inj in H. cbn [calm name_time] in H. lia.
Qed.

Lemma rows_b0 : table_rows decode_text "t" b0 = [row "a" "{1}"; row "b" "{2}"].
Proof. vm_compute. reflexivity. Qed.

Lemma triple_eta {A B C} (x : A * B * C) : x = (x.1.1, x.1.2, x.2).
Proof. by destruct x as [[]]. Qed.

Lemma compaction_keeps_rows_witness :
  let b' := (compactTable sort map_range encode_text decode_text string unmarshal Some marshal_map no_json no_json
    calm (fun _ => 80) true (config 0) "t" NewStats b0).2 in
  table_rows decode_text "t" b' ≡ₚ table_rows decode_text "t" b0 /\ length (map_to_list b') = 2%nat.
Proof.
  split; [|vm_compute; reflexivity].
  refine (proj1 (proj2 (proj2 (compaction_keeps_rows sort map_range encode_text decode_text string unmarshal Some marshal_map no_json no_json
    (fun A => insertion_SliceSort) "t" calm (fun _ => 80) (config 0) true NewStats b0 _ _ _ undisturbed_b0 _ (triple_eta _)))) _).
  - rewrite rows_b0. by repeat constructor.
  - by intros i.
Defined.

Definition failing_stat : merge_env :=
  mkMergeEnv true (fun _ => true) (fun _ => false) (fun _ => true) (fun _ => true) (writer (calm 0)) (fun b => b) 0 (fun _ => 3) (fun _ => 90) 99.
Definition failing_put : merge_env :=
  mkMergeEnv true (fun _ => true) (fun _ => true) (fun p => bool_decide (p <> "t/compacted_3_data_7_1.parquet")) (fun _ => true)
    (writer (calm 0)) (fun b => b) 0 (fun _ => 3) (fun _ => 90) 99.

Definition quoted : string := String quote ("x" +:+ String quote "").
Definition b1 : bucket := {[ "t/a.parquet" := file_of [row "a" quoted]; "t/b.parquet" := file_of [row "b" ""] ]}.

(** Where compaction does change a table. An output that [os.Stat] does not
    find is skipped, and the old files are removed all the same: its rows are
    lost. An upload that fails after another one leaves rows twice, and the
    next run adds more. A payload that is a JSON string loses its quotes; an
    empty payload is replaced by the text of the whole record. And a merge
    whose rows fill the last file leaves an empty file behind. *)
Theorem compaction_flaws :
  table_rows decode_text "t" (compact failing_stat 0 b0).2 = [] /\
  ((compact failing_put 1 b0).1.1 = Err UploadFailed /\ length (table_rows decode_text "t" (compact failing_put 1 b0).2) = 3%nat) /\
  table_rows decode_text "t" (compact (calm 0) 0 b1).2 = [row "a" "x"; row "b" "{record}"] /\
  omap (fun x : string * object => decode_text (body x.2)) (map_to_list (delete "u/c.parquet" (compact (calm 0) 2 b0).2)) =
    [[]; [row "a" "{1}"; row "b" "{2}"]].
Proof. split_and!; vm_compute; reflexivity. Qed.
End CompactionDemo.
