(* ===== verification/Aggregation.v ===== *)
(** * Combining the answers of several nodes (internal/coordinator/aggregation_strategy.go)

    Every node answers a distributed query with rows in JSON; a strategy turns
    the answers into one: columns summed, averages from sums and counts, groups
    summed, the first rows of all merged, or all rows together. *)

From S2P Require Import Prelude GoStrings GoFloat GoRegexp GoHeap GoOrder FieldMapping SelectQuery TableExtractor.
From Stdlib Require Import Ascii SpecFloat.
From Stdlib Require Import Ascii.
#[local] Open Scope Z_scope.


(** * Analysing a distributed query (internal/coordinator/query_analyzer.go)

    Regular expressions pick aggregations, grouping, ordering and limit off
    the text; from these follows how partial results are put together. *)

Inductive QueryType := QueryTypeSimple | QueryTypeAggregate | QueryTypeGroupBy | QueryTypeOrderBy | QueryTypeJoin.
Inductive AggregationType := AggNone | AggCount | AggSum | AggAvg | AggMin | AggMax.
Inductive OrderDirection := OrderAsc | OrderDesc.

#[export] Instance AggregationType_eq_dec : EqDecision AggregationType.
Proof. solve_decision. Defined.

Record Aggregation := mkAggregation { Agg_Type : AggregationType; Agg_Column : string; Agg_Alias : string }.
Record OrderBy := mkOrderBy { Ob_Column : string; Ob_Direction : OrderDirection }.

Record AnalyzedQuery := mkAnalyzedQuery {
  Type_ : QueryType;
  Aggregations : list Aggregation;
  GroupByKeys : list string;
  OrderByKeys : list OrderBy;
  Limit : Z;
  HasDistinct : bool;
  IsSubQuery : bool;
}.

(** ** The regular expressions *)

Definition alias : regex := opt (seq [plus blank; opt (seq [ilit "as"; plus blank]); Group 2 (plus iword)]).

Definition agg_pattern (name : string) (argument : regex) : regex :=
  seq [ilit name; star blank; lit "("; star blank; Group 1 argument; star blank; lit ")"; alias].

Definition countPattern : regex := agg_pattern "count" (Alt (lit "*") (plus iword)).
Definition sumPattern : regex := agg_pattern "sum" (plus iword).
Definition avgPattern : regex := agg_pattern "avg" (plus iword).
Definition minPattern : regex := agg_pattern "min" (plus iword).
Definition maxPattern : regex := agg_pattern "max" (plus iword).

Definition groupByPattern : regex :=
  seq [ilit "group"; plus blank; ilit "by"; plus blank;
       Group 1 (Cat (plus iword) (star (seq [star blank; lit ","; star blank; plus iword])))].
Definition orderByPattern : regex :=
  seq [ilit "order"; plus blank; ilit "by"; plus blank; Group 1 (plus iword);
       opt (seq [plus blank; Group 2 (Alt (ilit "asc") (ilit "desc"))])].
Definition limitPattern : regex := seq [ilit "limit"; plus blank; Group 1 (plus digit)].

(** ** Analysis *)

Definition found_aggregations (t : AggregationType) (re : regex) (sql : string) : list Aggregation :=
  (fun m => mkAggregation t (capture 1 m) (capture 2 m)) <$> FindAll re sql.

Definition extractAggregations (sql : string) : list Aggregation :=
  found_aggregations AggCount countPattern sql ++ found_aggregations AggSum sumPattern sql ++
  found_aggregations AggAvg avgPattern sql ++ found_aggregations AggMin minPattern sql ++
  found_aggregations AggMax maxPattern sql.

Definition extractGroupBy (sql : string) : list string :=
  match FindSubmatch groupByPattern sql with
  | Some m => List.filter (fun c => negb (bool_decide (c = ""))) (TrimSpace <$> Split "," (capture 1 m))
  | None => []
  end.

Definition extractOrderBy (sql : string) : list OrderBy :=
  match FindSubmatch orderByPattern sql with
  | Some m => [mkOrderBy (capture 1 m) (if bool_decide (ToLower (capture 2 m) = "desc") then OrderDesc else OrderAsc)]
  | None => []
  end.

(** The digits are added up in a machine integer. *)
Fixpoint digits_value (acc : Z) (s : string) : Z :=
  match s with
  | "" => acc
  | String c s' => digits_value (int64 (acc * 10 + (Z.of_N (N_of_ascii c) - 48))) s'
  end.

Definition extractLimit (sql : string) : Z :=
  match FindSubmatch limitPattern sql with Some m => digits_value 0 (capture 1 m) | None => 0 end.

Definition determineQueryType (aggs : list Aggregation) (groups : list string) (orders : list OrderBy) : QueryType :=
  match groups, aggs, orders with
  | _ :: _, _, _ => QueryTypeGroupBy
  | [], _ :: _, _ => QueryTypeAggregate
  | [], [], _ :: _ => QueryTypeOrderBy
  | [], [], [] => QueryTypeSimple
  end.

(** [strings.Count]: occurrences that do not overlap. *)
Fixpoint count_from (fuel : nat) (sub s : string) : nat :=
  match fuel with
  | O => O
  | S fuel => match cut sub s with Some (_, r) => S (count_from fuel sub r) | None => O end
  end.
Definition Count (s sub : string) : nat := count_from (String.length s) sub s.

Section analyze.
(** [strings.ToLower] on arbitrary text. *)
Context (toLower : string -> string).

Definition Analyze (sql : string) : AnalyzedQuery :=
  let lowerSQL := toLower sql in
  let aggs := extractAggregations sql in
  let groups := extractGroupBy sql in
  let orders := extractOrderBy sql in
  mkAnalyzedQuery (determineQueryType aggs groups orders) aggs groups orders (extractLimit sql)
    (Contains lowerSQL "distinct") (1 <? Count lowerSQL "select")%nat.
End analyze.

Definition RequiresDistributedProcessing (q : AnalyzedQuery) : bool :=
  (0 <? length (Aggregations q))%nat || (0 <? length (GroupByKeys q))%nat ||
  ((0 <? length (OrderByKeys q))%nat && (0 <? Limit q)).

Inductive strategy_name := simple_aggregate | avg_decompose | group_aggregate | topn_merge | union_.

#[export] Instance strategy_name_eq_dec : EqDecision strategy_name.
Proof. solve_decision. Defined.

Definition GetMapReduceStrategy (q : AnalyzedQuery) : strategy_name :=
  if (0 <? length (GroupByKeys q))%nat then group_aggregate else
  if existsb (fun a => bool_decide (Agg_Type a = AggAvg)) (Aggregations q) then avg_decompose else
  if (0 <? length (Aggregations q))%nat then simple_aggregate else
  if (0 <? length (OrderByKeys q))%nat && (0 <? Limit q) then topn_merge else union_.

(** The two ways of asking whether partial results have to be combined
    agree, for every query. *)
Theorem distributed_iff_strategy q :
  RequiresDistributedProcessing q = true <-> GetMapReduceStrategy q <> union_.
Proof.
  unfold RequiresDistributedProcessing, GetMapReduceStrategy.
  destruct (GroupByKeys q) as [|g gs]; cbn [length Nat.ltb Nat.leb]; [|by rewrite orb_true_r].
  destruct (Aggregations q) as [|a l]; cbn [length Nat.ltb Nat.leb existsb orb].
  - by destruct (_ && _).
  - by destruct (_ || _).
Qed.

(** The limit is a machine integer. *)
Lemma digits_value_range acc s : in_int64 acc -> in_int64 (digits_value acc s).
Proof. revert acc. induction s as [|c s IH]; intros acc H; [done|]. apply IH, int64_range. Qed.

Lemma limit_range sql : in_int64 (extractLimit sql).
Proof.
  unfold extractLimit. destruct (FindSubmatch _ _); [apply digits_value_range|]; by apply (bool_decide_unpack _).
Qed.

Example analyze_group :
  Analyze ToLower "SELECT region, SUM(amount) AS total FROM sales GROUP BY region, year ORDER BY total DESC LIMIT 10" =
  mkAnalyzedQuery QueryTypeGroupBy [mkAggregation AggSum "amount" "total"] ["region"; "year"]
    [mkOrderBy "total" OrderDesc] 10 false false.
Proof. by vm_compute. Qed.

(** A limit above 2^63 wraps around, so that the rows are not limited. *)
Lemma limit_wraps : extractLimit "select a from t order by a limit 18446744073709551615" = -1.
Proof. by vm_compute. Qed.

(** The word behind an aggregation without alias is taken for one. *)
Lemma from_taken_for_alias :
  extractAggregations "SELECT AVG(price) FROM products" = [mkAggregation AggAvg "price" "FROM"].
Proof. by vm_compute. Qed.

(** * Strategies *)

(** What an [interface{}] of a row holds. Nested arrays and objects, which no
    strategy looks into, are kept as their text. *)
Inductive any :=
| Nil
| Bool (b : bool)
| Float64 (f : spec_float)
| Float32 (f : spec_float)
| Int (z : Z)
| Int64 (z : Z)
| Int32 (z : Z)
| String_ (s : string)
| Nested (text : string).

Abbreviation row := (gmap string any).

(** A float32 is a float64, too; an integer is rounded. *)
Definition toFloat64 (v : any) : option spec_float :=
  match v with
  | Float64 f => Some f
  | Float32 f => Some f
  | Int z | Int64 z | Int32 z => Some (f64 z)
  | _ => None
  end.

Definition aggTypeName (t : AggregationType) : string :=
  match t with
  | AggCount => "count" | AggSum => "sum" | AggAvg => "avg" | AggMin => "min" | AggMax => "max"
  | AggNone => "unknown"
  end.

Definition compareInterface (a b : any) : Z :=
  match a, b with
  | Float64 va, Float64 vb => float_compare va vb
  | String_ va, String_ vb => ord (String.compare va vb)
  | Int64 va, Int64 vb => ord (va ?= vb)
  | _, _ => 0
  end.

(** The order of the merged rows: rows without the column come last. *)
Definition row_less (ob : OrderBy) (x y : row) : bool :=
  match x !! Ob_Column ob, y !! Ob_Column ob with
  | Some vi, Some vj =>
      let cmp := compareInterface vi vj in
      match Ob_Direction ob with OrderDesc => 0 <? cmp | OrderAsc => cmp <? 0 end
  | Some _, None => true
  | None, _ => false
  end.

(** [strings.Replace] with [n = 1]. *)
Definition ReplaceOnce (s old new : string) : string :=
  match cut old s with Some (before, after) => before +:+ new +:+ after | None => s end.

Definition fzero : spec_float := S754_zero false.
Definition fpositive (f : spec_float) : bool := 0 <? float_compare f fzero.

(** [m[key] += num] *)
Definition plus_at (m : gmap string spec_float) (key : string) (num : spec_float) : gmap string spec_float :=
  <[key := fadd (default fzero (m !! key)) num]> m.

(** ** Parameters *)

(** [encoding/json] on rows: what it writes, it reads back, as it does all rows
    it has read. *)
Class JsonRows (Marshal : list row -> option string) (Unmarshal : string -> option (list row))
    (plain : row -> Prop) : Prop := {
  unmarshal_plain s rows : Unmarshal s = Some rows -> Forall plain rows;
  marshal_plain rows : Forall plain rows -> exists s, Marshal rows = Some s /\ Unmarshal s = Some rows;
  unmarshal_null : Unmarshal "null" = Some [];
}.

(** ** Strategies *)

Section strategies.
(** [json.Marshal] and [json.Unmarshal], [range], [sort.Slice],
    [fmt.Sprintf("%v", v)] and [strings.ToLower]. *)
Context (Marshal : list row -> option string) (Unmarshal : string -> option (list row)).
Context (range : forall A, gmap string A -> list (string * A)).
Context (sort : (row -> row -> bool) -> list row -> list row).
Context (Sprint : any -> string) (toLower : string -> string).

(** A slice that was only appended to is nil when it is empty. *)
Definition MarshalSlice (rows : list row) : option string :=
  match rows with [] => Some "null" | _ => Marshal rows end.

(** The rows of all answers that can be read. *)
Definition all_rows (results : list string) : list row :=
  concat (map (fun result => default [] (Unmarshal result)) results).

(** One row added to the sums, column by column. *)
Definition add_row (aggregated : gmap string spec_float) (r : row) : gmap string spec_float :=
  foldl (fun agg '(key, value) =>
           match toFloat64 value with Some num => plus_at agg key num | None => agg end) aggregated (range any r).

Definition outputKey (agg : Aggregation) : string :=
  if bool_decide (Agg_Alias agg = "") then toLower (aggTypeName (Agg_Type agg)) +:+ "_" +:+ Agg_Column agg
  else Agg_Alias agg.

Definition possibleKeys (agg : Aggregation) : list string :=
  [outputKey agg; toLower (aggTypeName (Agg_Type agg)); Agg_Alias agg].

(** The sum an aggregate of the query stands for: under one of its keys, or
    else under any key that contains its name. *)
Definition find_sum (aggregated : gmap string spec_float) (agg : Aggregation) : option (string * spec_float) :=
  match list_find (fun key => is_Some (aggregated !! key)) (possibleKeys agg) with
  | Some (_, key) => Some (key, default fzero (aggregated !! key))
  | None =>
      let aggTypeLower := toLower (aggTypeName (Agg_Type agg)) in
      List.find (fun '(key, _) => bool_decide (toLower key = aggTypeLower) || Contains (toLower key) aggTypeLower)
        (range spec_float aggregated)
  end.

Definition simple_row (aggregated : gmap string spec_float) (q : AnalyzedQuery) : row :=
  match Aggregations q with
  | [] => Float64 <$> aggregated
  | aggs => foldl (fun resultRow agg =>
      match find_sum aggregated agg with Some (key, val) => <[key := Float64 val]> resultRow | None => resultRow end)
      ∅ aggs
  end.

Definition SimpleAggregate_Reduce (results : list string) (q : AnalyzedQuery) : option string :=
  match results with
  | [] => Some "[]"
  | _ => Marshal [simple_row (foldl add_row ∅ (all_rows results)) q]
  end.

(** AVG(c) becomes a sum and a count. *)
Definition AvgDecompose_MapSQL (originalSQL : string) (q : AnalyzedQuery) : string :=
  foldl (fun sql agg =>
    if bool_decide (Agg_Type agg = AggAvg) then
      let c := Agg_Column agg in
      let avgExpr := "AVG(" +:+ c +:+ ")" in
      let sumExpr := "SUM(" +:+ c +:+ ") as _sum_" +:+ c +:+ ", COUNT(" +:+ c +:+ ") as _count_" +:+ c in
      ReplaceOnce (ReplaceOnce sql avgExpr sumExpr) (toLower avgExpr) sumExpr
    else sql) originalSQL (Aggregations q).

Definition add_avg (s : gmap string spec_float * gmap string spec_float) (entry : string * any) :
    gmap string spec_float * gmap string spec_float :=
  let '(sums, counts) := s in
  let '(key, value) := entry in
  match toFloat64 value with
  | None => s
  | Some num =>
      match cut_prefix "_sum_" key with
      | Some col => (plus_at sums col num, counts)
      | None =>
          match cut_prefix "_count_" key with
          | Some col => (sums, plus_at counts col num)
          | None => s
          end
      end
  end.

Definition avg_sums (rows : list row) : gmap string spec_float * gmap string spec_float :=
  foldl (fun s r => foldl add_avg s (range any r)) (∅, ∅) rows.

Definition avg_row (sums counts : gmap string spec_float) (q : AnalyzedQuery) : row :=
  foldl (fun resultRow agg =>
    if bool_decide (Agg_Type agg = AggAvg) then
      let sum := default fzero (sums !! Agg_Column agg) in
      let count := default fzero (counts !! Agg_Column agg) in
      let key := if bool_decide (Agg_Alias agg = "") then "avg_" +:+ Agg_Column agg else Agg_Alias agg in
      <[key := if fpositive count then Float64 (fdiv sum count) else Nil]> resultRow
    else resultRow) ∅ (Aggregations q).

Definition AvgDecompose_Reduce (results : list string) (q : AnalyzedQuery) : option string :=
  let '(sums, counts) := avg_sums (all_rows results) in Marshal [avg_row sums counts q].

Definition buildGroupKey (r : row) (groupByKeys : list string) : string :=
  Join "|" (map (fun key => match r !! key with Some val => Sprint val | None => "" end) groupByKeys).

(** The sums and the numbers of values of every column, group by group. *)
Record group := mkGroup { values : gmap string spec_float; counts : gmap string spec_float }.

Definition add_value (groupByKeys : list string) (g : group) (entry : string * any) : group :=
  let '(key, value) := entry in
  match toFloat64 value with
  | Some num =>
      if bool_decide (key ∈ groupByKeys) then g
      else mkGroup (plus_at (values g) key num) (plus_at (counts g) key (f64 1))
  | None => g
  end.

Definition add_to_groups (groupByKeys : list string) (groups : gmap string group) (r : row) : gmap string group :=
  let groupKey := buildGroupKey r groupByKeys in
  let g := default (mkGroup ∅ ∅) (groups !! groupKey) in
  <[groupKey := foldl (add_value groupByKeys) g (range any r)]> groups.

(** One row per group: its key taken apart again, and the sums or averages. *)
Definition key_row (groupByKeys parts : list string) : row :=
  foldl (fun r '(i, gk) => match parts !! i with Some p => <[gk := String_ p]> r | None => r end) ∅
    (imap pair groupByKeys).

Definition group_value (q : AnalyzedQuery) (g : group) (r : row) (entry : string * spec_float) : row :=
  let '(key, value) := entry in
  foldl (fun r agg =>
    if bool_decide (Agg_Type agg = AggAvg) then
      let count := default fzero (counts g !! key) in
      if fpositive count then <[key := Float64 (fdiv value count)]> r else r
    else <[key := Float64 value]> r) r (Aggregations q).

Definition group_row (q : AnalyzedQuery) (groupKey : string) (g : group) : row :=
  foldl (group_value q g) (key_row (GroupByKeys q) (Split "|" groupKey)) (range spec_float (values g)).

Definition GroupAggregate_Reduce (results : list string) (q : AnalyzedQuery) : option string :=
  let groups := foldl (add_to_groups (GroupByKeys q)) ∅ (all_rows results) in
  MarshalSlice (map (fun '(groupKey, g) => group_row q groupKey g) (range group groups)).

Definition merged_rows (results : list string) (q : AnalyzedQuery) : list row :=
  let allRows := all_rows results in
  let allRows := match OrderByKeys q with ob :: _ => sort (row_less ob) allRows | [] => allRows end in
  if (0 <? Limit q) && (Limit q <? Z.of_nat (length allRows)) then take (Z.to_nat (Limit q)) allRows else allRows.

Definition TopNMerge_Reduce (results : list string) (q : AnalyzedQuery) : option string :=
  MarshalSlice (merged_rows results q).

Definition Union_Reduce (results : list string) (q : AnalyzedQuery) : option string :=
  MarshalSlice (all_rows results).

(** The strategies by name; the map of the factory has all five. *)
Definition Reduce (name : strategy_name) (results : list string) (q : AnalyzedQuery) : option string :=
  match name with
  | simple_aggregate => SimpleAggregate_Reduce results q
  | avg_decompose => AvgDecompose_Reduce results q
  | group_aggregate => GroupAggregate_Reduce results q
  | topn_merge => TopNMerge_Reduce results q
  | union_ => Union_Reduce results q
  end.

Definition MapSQL (name : strategy_name) (originalSQL : string) (q : AnalyzedQuery) : string :=
  match name with
  | avg_decompose => AvgDecompose_MapSQL originalSQL q
  | _ => originalSQL
  end.

(** *** The heap of rows *)

Record rowHeapItem := mkRowHeapItem { item_row : row; orderKey : string }.

#[export] Instance rowHeapItem_inhabited : Inhabited rowHeapItem := populate (mkRowHeapItem ∅ "").

Definition Less (ascending : bool) (x y : rowHeapItem) : bool :=
  if ascending then bool_decide (String.compare (orderKey x) (orderKey y) = Lt)
  else bool_decide (String.compare (orderKey x) (orderKey y) = Gt).

Definition item_of (column : string) (r : row) : rowHeapItem :=
  mkRowHeapItem r (Sprint (default Nil (r !! column))).

(** Popping until the heap is empty or the limit is reached. *)
Fixpoint pop_rows (ascending : bool) (limit : nat) (h : list rowHeapItem) : list rowHeapItem :=
  match limit with
  | O => []
  | S limit =>
      match h with
      | [] => []
      | _ => let '(item, h) := Pop (Less ascending) h in item :: pop_rows ascending limit h
      end
  end.

Definition mergeTopNWithHeap (results : list (list row)) (ob : OrderBy) (limit : Z) : list row :=
  let ascending := match Ob_Direction ob with OrderAsc => true | OrderDesc => false end in
  let h := foldl (fun h r => Push (Less ascending) (item_of (Ob_Column ob) r) h) [] (concat results) in
  map item_row (pop_rows ascending (Z.to_nat limit) h).
End strategies.
