(* ===== verification/AggregationTheorems.v ===== *)
(** * What the combined answer is (internal/coordinator/aggregation_strategy.go)

    Merging the first rows of every node gives the first rows of all nodes;
    simple aggregates are the sums of the nodes' columns, groups the sums of
    their rows; and where the strategies go wrong. *)

From S2P Require Import Prelude GoStrings GoFloat GoHeap GoOrder GoRegexp FieldMapping SelectQuery TableExtractor Aggregation.
From Stdlib Require Import Ascii SpecFloat.
#[local] Open Scope Z_scope.

(** ** The order of rows *)

(** The rows' values of a column can be compared: numbers or texts, not both.
    Rows may lack it. *)
Definition number_column (col : string) (r : row) : Prop :=
  match r !! col with Some (Float64 f) => f <> S754_nan | None => True | _ => False end.
Definition text_column (col : string) (r : row) : Prop :=
  match r !! col with Some (String_ _) => True | None => True | _ => False end.
Definition comparable (col : string) (rows : list row) : Prop :=
  Forall (number_column col) rows \/ Forall (text_column col) rows.

(** Elements without a key come after those with one. *)
Definition missing_last {A K} (key : A -> option K) (less : K -> K -> bool) (x y : A) : bool :=
  match key x, key y with
  | Some a, Some b => less a b
  | Some _, None => true
  | None, _ => false
  end.

Lemma missing_last_order {A K} (key : A -> option K) (less : K -> K -> bool) :
  WeakOrder less -> WeakOrder (missing_last key less).
Proof.
  intros [Ha Ht]. unfold missing_last. split; intros x y.
  - destruct (key x), (key y); try done. apply Ha.
  - intros z. destruct (key x), (key y), (key z); try done. apply Ht.
Qed.

Definition directed {K} (d : OrderDirection) (cmp : K -> K -> Z) (a b : K) : bool :=
  match d with OrderDesc => 0 <? cmp a b | OrderAsc => cmp a b <? 0 end.

Lemma directed_order {K} d (cmp : K -> K -> Z) :
  comparison_laws cmp (fun _ => True) -> WeakOrder (directed d cmp).
Proof.
  intros H. pose proof (laws_order cmp H) as Hw. destruct d; [done|].
  destruct (order_flip _ Hw) as [H1 H2].
  assert (forall x y, directed OrderDesc cmp x y = (cmp y x <? 0)) as E.
  { intros x y. unfold directed. rewrite (laws_anti _ _ H x y) by done. destruct (cmp x y); done. }
  split; intros x y; rewrite !E; [apply H1|]. intros z. rewrite !E. apply H2.
Qed.

(** On comparable rows the code's comparison is an order. *)
Lemma row_less_order ob rows :
  comparable (Ob_Column ob) rows ->
  exists order, WeakOrder order /\ forall x y, x ∈ rows -> y ∈ rows -> row_less ob x y = order x y.
Proof.
  intros [H|H]; rewrite Forall_forall in H.
  - exists (missing_last (fun r : row => match r !! Ob_Column ob with Some (Float64 f) => Some (float_key f) | _ => None end)
              (directed (Ob_Direction ob) key_compare)).
    split; [apply missing_last_order, directed_order, key_laws|]. intros x y Hx%H Hy%H.
    unfold number_column, row_less, missing_last in *.
    destruct (x !! _) as [[]|], (y !! _) as [[]|]; try done.
    cbn [compareInterface]. by rewrite float_compare_key.
  - exists (missing_last (fun r : row => match r !! Ob_Column ob with Some (String_ s) => Some s | _ => None end)
              (directed (Ob_Direction ob) (fun a b => ord (String.compare a b)))).
    split; [apply missing_last_order, directed_order, string_laws|]. intros x y Hx%H Hy%H.
    unfold text_column, row_less, missing_last in *.
    by destruct (x !! _) as [[]|], (y !! _) as [[]|].
Qed.

(** Only the comparisons of the elements at hand count. *)
Lemma first_n_agree {A} (less order : A -> A -> bool) n all out :
  (forall x y, x ∈ all -> y ∈ all -> less x y = order x y) -> first_n less n all out -> first_n order n all out.
Proof.
  intros Heq (rest & Hp & Hl & Hr). exists rest. split_and!; [done..|]. intros x y Hx Hy. rewrite <- Heq; [by apply Hr|..];
    rewrite Hp, elem_of_app; auto.
Qed.

Lemma first_n_sub {A} (less : A -> A -> bool) n all out x : first_n less n all out -> x ∈ out -> x ∈ all.
Proof. intros (rest & Hp & _) Hx. rewrite Hp, elem_of_app. by left. Qed.

Lemma in_order_agree {A} (less order : A -> A -> bool) l :
  (forall x y, x ∈ l -> y ∈ l -> less x y = order x y) -> in_order order l -> in_order less l.
Proof.
  unfold in_order. intros Heq Hs. induction Hs as [|x l Hs IH Hf]; constructor.
  - apply IH. intros; apply Heq; by right.
  - rewrite Forall_forall in *. intros y Hy. rewrite Heq; [by apply Hf|by right|by left].
Qed.

Lemma in_order_take {A} (less : A -> A -> bool) n l : in_order less l -> in_order less (take n l).
Proof.
  unfold in_order. intros Hs. revert n. induction Hs as [|x l Hs IH Hf]; intros [|n]; cbn; try constructor; [done|].
  apply (incl_Forall (l1 := l)); [|done]. intros y Hy. rewrite <- (take_drop n l). apply in_or_app. by left.
Qed.

Section topn.
Context (Marshal : list row -> option string) (Unmarshal : string -> option (list row)) (plain : row -> Prop).
Context `{!JsonRows Marshal Unmarshal plain}.
Context (sort : (row -> row -> bool) -> list row -> list row) `{!SliceSort sort}.

Lemma MarshalSlice_reads rows :
  Forall plain rows -> exists s, MarshalSlice Marshal rows = Some s /\ Unmarshal s = Some rows.
Proof using JsonRows0.
  intros Hp. destruct rows as [|r rows]; [exists "null"; split; [done|exact (unmarshal_null (JsonRows := JsonRows0))]|].
  exact (marshal_plain (JsonRows := JsonRows0) _ Hp).
Qed.

Lemma all_rows_plain results : Forall plain (all_rows Unmarshal results).
Proof using JsonRows0.
  unfold all_rows. induction results as [|s results IH]; cbn; [constructor|]. apply Forall_app. split; [|done].
  destruct (Unmarshal s) eqn:E; cbn; [exact (unmarshal_plain (JsonRows := JsonRows0) _ _ E)|constructor].
Qed.

Lemma all_rows_answers results outs :
  Forall2 (fun s out => Unmarshal s = Some out) results outs -> all_rows Unmarshal results = concat outs.
Proof. unfold all_rows. induction 1 as [|s out results outs E _ IH]; cbn; [done|]. by rewrite E, IH. Qed.

Lemma limit_take (limit : Z) (l : list row) :
  0 < limit ->
  (if (0 <? limit) && (limit <? Z.of_nat (length l)) then take (Z.to_nat limit) l else l) = take (Z.to_nat limit) l.
Proof.
  intros Hl. destruct (Z.ltb_spec 0 limit); [|lia]. cbn [andb]. destruct (Z.ltb_spec limit (Z.of_nat (length l))); [done|].
  rewrite take_ge; [done|lia].
Qed.

(** If every node answers with the first n of its rows by the first ordering
    key, and the rows' values of that column are numbers or are texts (or are
    missing), the merged answer reads as the first n of the rows of all nodes,
    in order. *)
Lemma topn_merge_first (parts outs : list (list row)) results q ob obs :
  OrderByKeys q = ob :: obs -> 0 < Limit q ->
  comparable (Ob_Column ob) (concat parts) ->
  Forall2 (first_n (row_less ob) (Z.to_nat (Limit q))) parts outs ->
  Forall2 (fun s out => Unmarshal s = Some out) results outs ->
  exists answer rows, TopNMerge_Reduce Marshal Unmarshal sort results q = Some answer /\
    Unmarshal answer = Some rows /\
    in_order (row_less ob) rows /\ first_n (row_less ob) (Z.to_nat (Limit q)) (concat parts) rows.
Proof using JsonRows0 SliceSort0.
  intros Hob Hlim Hcmp Hparts Hres. unfold TopNMerge_Reduce, merged_rows. rewrite Hob, limit_take by done.
  pose proof (all_rows_plain results) as Hplain. rewrite (all_rows_answers _ _ Hres) in *.
  destruct (row_less_order ob _ Hcmp) as (order & Hord & Heq).
  assert (forall x, x ∈ concat outs -> x ∈ concat parts) as Hsub.
  { clear -Hparts. induction Hparts as [|part out parts outs H _ IH]; cbn; [done|]. intros x [Hx|Hx]%elem_of_app; apply elem_of_app;
      [left; by eapply first_n_sub|right; by apply IH]. }
  pose proof (sort_perm (row_less ob) (concat outs)) as Hperm.
  assert (in_order order (sort (row_less ob) (concat outs))) as Hsorted.
  { apply sort_order; [done|]. intros x y Hx Hy. apply Heq; by apply Hsub. }
  set (l := sort (row_less ob) (concat outs)) in *.
  assert (first_n order (Z.to_nat (Limit q)) (concat parts) (take (Z.to_nat (Limit q)) l)) as Hfirst.
  { eapply merge_first; [done| |exact Hperm|done]. clear -Hparts Heq.
    revert Heq. induction Hparts as [|part out parts outs H _ IH]; intros Heq; constructor.
    - eapply first_n_agree; [|done]. intros; apply Heq; cbn; rewrite elem_of_app; by left.
    - apply IH. intros; apply Heq; cbn; rewrite elem_of_app; by right. }
  destruct (MarshalSlice_reads (take (Z.to_nat (Limit q)) l)) as (s & Hs & Hu).
  { rewrite <- Hperm in Hplain. by apply Forall_take. }
  exists s, (take (Z.to_nat (Limit q)) l). split_and!; [done..| |].
  - apply (in_order_agree _ order); [|by apply in_order_take].
    intros x y Hx Hy. apply Heq; by eapply first_n_sub.
  - eapply first_n_agree; [|exact Hfirst]. intros; symmetry; by apply Heq.
Qed.
End topn.

(** ** Sums *)

(** The numbers of a column, and their sum in order. *)
Definition column (k : string) (rows : list row) : list spec_float := omap (fun r => r !! k ≫= toFloat64) rows.
Definition column_sum (k : string) (rows : list row) : option spec_float :=
  match column k rows with [] => None | l => Some (foldl fadd fzero l) end.

Lemma column_cons k r rows :
  column k (r :: rows) = match r !! k ≫= toFloat64 with Some n => n :: column k rows | None => column k rows end.
Proof. done. Qed.

Section sums.
Context (Marshal : list row -> option string) (Unmarshal : string -> option (list row)).
Context (range : forall A, gmap string A -> list (string * A)) `{!MapRange range}.
Context (Sprint : any -> string) (toLower : string -> string).

Lemma plus_at_lookup m k n j :
  plus_at m k n !! j = if decide (j = k) then Some (fadd (default fzero (m !! k)) n) else m !! j.
Proof. unfold plus_at. destruct (decide (j = k)) as [->|]; [by rewrite lookup_insert_eq|by rewrite lookup_insert_ne]. Qed.

Lemma add_row_lookup agg r k :
  add_row range agg r !! k =
  match r !! k ≫= toFloat64 with Some n => Some (fadd (default fzero (agg !! k)) n) | None => agg !! k end.
Proof using MapRange0.
  unfold add_row. rewrite (foldl_entries _ (fun _ v old =>
    match toFloat64 v with Some n => Some (fadd (default fzero old) n) | None => old end)).
  - rewrite (range_map range). by destruct (r !! k).
  - intros m j v i. destruct (toFloat64 v); [apply plus_at_lookup|]. by destruct (decide (i = j)) as [->|].
  - apply (range_NoDup range).
Qed.

Lemma aggregated_from rows agg k :
  foldl (add_row range) agg rows !! k =
  match column k rows with [] => agg !! k | l => Some (foldl fadd (default fzero (agg !! k)) l) end.
Proof using MapRange0.
  revert agg. induction rows as [|r rows IH]; intros agg; [done|]. cbn [foldl]. rewrite IH, add_row_lookup.
  rewrite column_cons. destruct (r !! k ≫= toFloat64); [|done]. by destruct (column k rows).
Qed.

Lemma aggregated_sum rows k : foldl (add_row range) ∅ rows !! k = column_sum k rows.
Proof using MapRange0. rewrite aggregated_from, lookup_empty. unfold column_sum. by destruct (column k rows). Qed.

(** What the first matching key of an aggregate yields is a sum of its. *)
Lemma find_sum_value aggregated agg k v :
  find_sum range toLower aggregated agg = Some (k, v) -> aggregated !! k = Some v.
Proof using MapRange0.
  unfold find_sum. destruct (list_find _ _) as [[i key]|] eqn:E.
  - intros [= <- <-]. apply list_find_Some in E as (_ & [x Hx] & _). by rewrite Hx.
  - intros [Hin _]%find_some. by apply (range_elem range), list_elem_of_In.
Qed.

Lemma find_sum_output aggregated agg v :
  aggregated !! outputKey toLower agg = Some v ->
  find_sum range toLower aggregated agg = Some (outputKey toLower agg, v).
Proof.
  intros H. unfold find_sum, possibleKeys. cbn [list_find]. rewrite decide_True by (by rewrite H). cbn. by rewrite H.
Qed.

(** Simple aggregates over several nodes. Every column of the combined row
    is the sum of that column over the rows of all readable answers, and every
    aggregate of the query that the answers name by its alias (or by its name
    and column) is in the row. *)
Theorem simple_reduce_sums results q :
  results <> [] ->
  exists r, SimpleAggregate_Reduce Marshal Unmarshal range toLower results q = Marshal [r] /\
    (forall k v, r !! k = Some v -> exists n, v = Float64 n /\ column_sum k (all_rows Unmarshal results) = Some n) /\
    (forall a n, a ∈ Aggregations q -> column_sum (outputKey toLower a) (all_rows Unmarshal results) = Some n ->
       r !! outputKey toLower a = Some (Float64 n)).
Proof using MapRange0.
  intros Hne. set (rows := all_rows Unmarshal results).
  exists (simple_row range toLower (foldl (add_row range) ∅ rows) q).
  split; [by destruct results|]. unfold simple_row. pose proof (aggregated_sum rows) as Hsum.
  set (aggregated := foldl (add_row range) ∅ rows) in *. set (stepf := fun resultRow agg => _).
  destruct (Aggregations q) as [|a0 aggs].
  { split; [|intros a n Ha; by apply elem_of_nil in Ha]. intros k v. rewrite lookup_fmap_Some.
    intros (n & <- & Hn). exists n. by rewrite <- Hsum. }
  assert (forall (l : list Aggregation) (r0 : row),
    (forall k v, r0 !! k = Some v -> exists n, v = Float64 n /\ aggregated !! k = Some n) ->
    (forall k v, foldl stepf r0 l !! k = Some v -> exists n, v = Float64 n /\ aggregated !! k = Some n) /\
    (forall a n, (a ∈ l \/ is_Some (r0 !! outputKey toLower a)) -> aggregated !! outputKey toLower a = Some n ->
       foldl stepf r0 l !! outputKey toLower a = Some (Float64 n))) as Hfold.
  { induction l as [|a l IH]; intros r0 Hr0.
    - cbn. split; [done|]. intros a n [Ha|[v Hv]] Hn; [by apply elem_of_nil in Ha|].
      rewrite Hv. destruct (Hr0 _ _ Hv) as (n' & -> & Hn'). congruence.
    - assert (forall k v, stepf r0 a !! k = Some v -> exists n, v = Float64 n /\ aggregated !! k = Some n) as Hr1.
      { intros k v. subst stepf. cbn. destruct (find_sum _ _ _ _) as [[k' v']|] eqn:E; [|apply Hr0].
        intros [[<- <-]|[Hk Hv]]%lookup_insert_Some; [|by apply Hr0]. exists v'. split; [done|]. by eapply find_sum_value. }
      cbn [foldl]. destruct (IH _ Hr1) as [IH1 IH2]. split; [done|]. intros b n Hb Hn. apply IH2; [|done].
      destruct Hb as [[->|Hb]%elem_of_cons|[v Hv]]; [|by left|]; right; subst stepf; cbn.
      + rewrite (find_sum_output _ _ _ Hn), lookup_insert_eq. done.
      + destruct (find_sum _ _ _ _) as [[k' v']|]; [|done]. rewrite lookup_insert_is_Some'. auto. }
  destruct (Hfold (a0 :: aggs) ∅) as [H1 H2]; [intros k v; by rewrite lookup_empty|].
  split; [intros k v Hk; rewrite <- Hsum; by apply H1|]. intros a n Ha Hn. apply H2; [by left|by rewrite Hsum].
Qed.

(** Averages, when no node sent sums and counts: nothing is known. *)
Lemma avg_sums_none rows :
  (forall r k, r ∈ rows -> is_Some (r !! k) -> cut_prefix "_sum_" k = None /\ cut_prefix "_count_" k = None) ->
  avg_sums range rows = (∅, ∅).
Proof using MapRange0.
  intros H. unfold avg_sums. induction rows as [|r rows IH]; [done|]. cbn [foldl].
  assert (foldl add_avg (∅, ∅) (range any r) = (∅, ∅)) as ->; [|by apply IH; intros ? ? ?; apply H; right].
  assert (forall k v, (k, v) ∈ range any r -> is_Some (r !! k)) as Hr by (intros k v ->%(range_elem range); done).
  induction (range any r) as [|[k v] l IHl]; [done|]. cbn [foldl].
  destruct (H r k) as [H1 H2]; [by left|apply (Hr k v); by left|]. unfold add_avg at 2. rewrite H1, H2.
  destruct (toFloat64 v); apply IHl; intros; eapply Hr; right; done.
Qed.

(** *** Groups *)

(** The columns of a row that are summed in its group. *)
Lemma add_value_lookup keys l g k :
  NoDup l.*1 ->
  values (foldl (add_value keys) g l) !! k =
  match (list_to_map l : row) !! k ≫= toFloat64 with
  | Some n => if decide (k ∈ keys) then values g !! k else Some (fadd (default fzero (values g !! k)) n)
  | None => values g !! k
  end.
Proof.
  revert g. induction l as [|[j v] l IH]; intros g Hnd; [done|]. cbn [foldl fmap list_fmap fst] in *.
  apply NoDup_cons in Hnd as [Hj Hnd]. rewrite IH by done. cbn [list_to_map foldr].
  assert (values (add_value keys g (j, v)) !! k =
    if decide (k = j) then match toFloat64 v with
      | Some n => if decide (j ∈ keys) then values g !! j else Some (fadd (default fzero (values g !! j)) n)
      | None => values g !! j end
    else values g !! k) as ->.
  { unfold add_value. destruct (toFloat64 v) as [n|]; [|by destruct (decide (k = j)) as [->|]].
    destruct (decide (j ∈ keys)); [rewrite bool_decide_eq_true_2 by done|rewrite bool_decide_eq_false_2 by done];
      [|cbn [values]; rewrite plus_at_lookup]; by destruct (decide (k = j)) as [->|]. }
  destruct (decide (k = j)) as [->|].
  - cbn. rewrite lookup_insert_eq, (not_elem_of_list_to_map_1 _ _ Hj). cbn. by destruct (toFloat64 v).
  - cbn. by rewrite lookup_insert_ne.
Qed.


Abbreviation group_rows keys gk rows := (base.filter (fun r => buildGroupKey Sprint r keys = gk) rows).

Lemma groups_from keys rows groups gk :
  match foldl (add_to_groups range Sprint keys) groups rows !! gk with
  | Some g => (is_Some (groups !! gk) \/ group_rows keys gk rows <> []) /\
      forall k, k ∉ keys -> let old := default (mkGroup ∅ ∅) (groups !! gk) in
        values g !! k = match column k (group_rows keys gk rows) with
                        | [] => values old !! k
                        | l => Some (foldl fadd (default fzero (values old !! k)) l)
                        end
  | None => groups !! gk = None /\ group_rows keys gk rows = []
  end.
Proof using MapRange0.
  revert groups. induction rows as [|r rows IH]; intros groups; cbn [foldl].
  { destruct (groups !! gk) as [g|] eqn:E; [|done]. split; [by left|]. done. }
  specialize (IH (add_to_groups range Sprint keys groups r)). revert IH.
  destruct (foldl _ _ rows !! gk) as [g|]; unfold add_to_groups; rewrite filter_cons.
  - destruct (decide (buildGroupKey Sprint r keys = gk)) as [<-|Hne].
    + rewrite lookup_insert_eq. intros [_ IH]. split; [by right|]. intros k Hk. rewrite (IH k Hk). cbv zeta. cbn [from_option id].
      rewrite add_value_lookup by apply (range_NoDup range). rewrite (range_map range), column_cons.
      destruct (r !! k ≫= toFloat64); [rewrite (decide_False (P := k ∈ keys)) by done|done]. by destruct (column k _).
    + by rewrite lookup_insert_ne.
  - destruct (decide (buildGroupKey Sprint r keys = gk)) as [<-|Hne].
    + rewrite lookup_insert_eq. by intros [? _].
    + by rewrite lookup_insert_ne.
Qed.

(** Plain sums: without an average every summed column is in the group's row. *)
Lemma group_row_value q gk g k :
  Aggregations q <> [] -> Forall (fun a => Agg_Type a <> AggAvg) (Aggregations q) -> k ∉ GroupByKeys q ->
  group_row range q gk g !! k = Float64 <$> values g !! k.
Proof using MapRange0.
  intros Hne Hall Hk. unfold group_row.
  rewrite (foldl_entries _ (fun _ v _ => Some (Float64 v))); [|clear k Hk|apply (range_NoDup range)].
  - rewrite (range_map range). destruct (values g !! k); [done|]. cbn. unfold key_row.
    assert (forall l (r : row), (forall i gk', (i, gk') ∈ l -> gk' <> k) -> r !! k = None ->
      foldl (fun r '(i, gk') => match Split "|" gk !! i with Some p => <[gk' := String_ p]> r | None => r end) r l !! k = None) as Hl.
    { induction l as [|[i gk'] l IH]; intros r Hl Hr; [done|]. cbn [foldl]. apply IH; [intros; eapply Hl; by right|].
      destruct (Split "|" gk !! i); [|done]. rewrite lookup_insert_ne; [done|]. eapply Hl. by left. }
    apply Hl; [|done]. intros i gk' Hi ->. apply elem_of_lookup_imap in Hi as (j & y & [= -> ->] & Hj).
    apply Hk. by eapply list_elem_of_lookup_2.
  - intros m k v j. unfold group_value. destruct (Aggregations q) as [|a l]; [done|]. clear Hne.
    apply Forall_cons in Hall as [Ha Hall]. cbn [foldl]. rewrite bool_decide_eq_false_2 by done.
    assert (forall r : row, r !! k = Some (Float64 v) -> (forall i, i <> k -> r !! i = m !! i) ->
      foldl (fun r agg => if bool_decide (Agg_Type agg = AggAvg) then
          let count := default fzero (counts g !! k) in
          if fpositive count then <[k := Float64 (fdiv v count)]> r else r
        else <[k := Float64 v]> r) r l !! j = if decide (j = k) then Some (Float64 v) else m !! j) as Hl.
    { induction Hall as [|b l Hb _ IH]; intros r Hr Ho; cbn [foldl].
      - destruct (decide (j = k)) as [->|]; auto.
      - rewrite bool_decide_eq_false_2 by done. apply IH; [by rewrite lookup_insert_eq|].
        intros i Hi. rewrite lookup_insert_ne by done. auto. }
    apply Hl; [by rewrite lookup_insert_eq|]. intros i Hi. by rewrite lookup_insert_ne.
Qed.

(** GROUP BY over several nodes, for a query whose aggregates have no
    average: the answer has one row per group key that occurs in the readable
    answers, and in it every column that is no grouping column is the sum of
    that column over the rows of the group. *)
Theorem group_reduce_sums results q :
  Aggregations q <> [] -> Forall (fun a => Agg_Type a <> AggAvg) (Aggregations q) ->
  let rows := all_rows Unmarshal results in
  exists (keys : list string) (row_of : string -> row),
    GroupAggregate_Reduce Marshal Unmarshal range Sprint results q = MarshalSlice Marshal (map row_of keys) /\
    NoDup keys /\
    (forall gk, gk ∈ keys <-> exists r, r ∈ rows /\ buildGroupKey Sprint r (GroupByKeys q) = gk) /\
    forall gk k, gk ∈ keys -> k ∉ GroupByKeys q ->
      row_of gk !! k = Float64 <$> column_sum k (group_rows (GroupByKeys q) gk rows).
Proof using MapRange0.
  intros Hne Hall rows. unfold GroupAggregate_Reduce.
  set (groups := foldl (add_to_groups range Sprint (GroupByKeys q)) ∅ (all_rows Unmarshal results)).
  exists (range group groups).*1, (fun gk => group_row range q gk (default (mkGroup ∅ ∅) (groups !! gk))).
  assert (forall gk, gk ∈ (range group groups).*1 <-> is_Some (groups !! gk)) as Hin.
  { intros gk. rewrite list_elem_of_fmap. split; [intros ([gk' g] & -> & Hg%(range_elem range)); cbn; by rewrite Hg|].
    intros [g Hg%(range_elem range)]. by exists (gk, g). }
  split_and!.
  - f_equal. change map with (@fmap list _); rewrite <- list_fmap_compose; apply list_fmap_ext. intros i [gk g] Hi. cbn.
    apply list_elem_of_lookup_2, (range_elem range) in Hi. by rewrite Hi.
  - apply (range_NoDup range).
  - intros gk. rewrite Hin. pose proof (groups_from (GroupByKeys q) rows ∅ gk) as H. fold rows in groups. fold groups in H.
    destruct (groups !! gk) as [g|]; rewrite lookup_empty in H.
    + split; [intros _|done]. destruct H as [[[? [=]]|Hf] _]. destruct (group_rows (GroupByKeys q) gk rows) as [|r l] eqn:E; [done|].
      assert (r ∈ group_rows (GroupByKeys q) gk rows) as Hr by (rewrite E; by left).
      apply list_elem_of_filter in Hr as [? ?]. by exists r.
    + destruct H as [_ Hf]. split; [intros [? [=]]|]. intros (r & Hr & Hgk).
      assert (r ∈ group_rows (GroupByKeys q) gk rows) as Hr' by (by apply list_elem_of_filter).
      rewrite Hf in Hr'. by apply elem_of_nil in Hr'.
  - intros gk k [g Hg]%Hin Hk. rewrite Hg. cbn [from_option id]. rewrite group_row_value by done. f_equal.
    pose proof (groups_from (GroupByKeys q) rows ∅ gk) as H. fold rows in groups. fold groups in H.
    rewrite Hg in H. destruct H as [_ H]. rewrite (H k Hk). rewrite lookup_empty. cbn. unfold column_sum.
    by destruct (column k _).
Qed.
End sums.

(** ** The heap of rows *)

Lemma Less_order ascending : WeakOrder (Less ascending).
Proof.
  pose proof (order_by orderKey _ (laws_order _ string_laws)) as H.
  assert (forall x y, Less true x y = (ord (String.compare (orderKey x) (orderKey y)) <? 0)) as Ht.
  { intros x y. unfold Less. by destruct (String.compare (orderKey x) (orderKey y)). }
  assert (forall x y, Less false x y = Less true y x) as Hf.
  { intros x y. unfold Less. rewrite (String.compare_antisym (orderKey y) (orderKey x)).
    by destruct (String.compare (orderKey x) (orderKey y)). }
  destruct H as [H1 H2], ascending; split; intros x y; rewrite ?Hf, ?Ht; try apply H1; intros z; rewrite ?Hf, ?Ht; intros; eapply H2; eassumption.
Qed.

(** Popping a heap gives the first elements in order. *)
Lemma pop_rows_first ascending n h :
  heap (Less ascending) (length h) h ->
  in_order (Less ascending) (pop_rows ascending n h) /\ first_n (Less ascending) n h (pop_rows ascending n h).
Proof.
  pose proof (Less_order ascending) as Hw. revert h. induction n as [|n IH]; intros h Hh; cbn [pop_rows].
  { split; [constructor|]. exists h. split_and!; [done|done|]. intros x y Hx. by apply elem_of_nil in Hx. }
  destruct (decide (h = [])) as [->|Hne].
  { split; [constructor|]. exists []. split_and!; [done|done|]. intros x y Hx. by apply elem_of_nil in Hx. }
  assert (match h with [] => [] | _ => let '(item, h') := Pop (Less ascending) h in item :: pop_rows ascending n h' end =
    let '(item, h') := Pop (Less ascending) h in item :: pop_rows ascending n h') as -> by (by destruct h).
  destruct (Pop (Less ascending) h) as [x h'] eqn:E. apply Pop_spec in E as (-> & Hp & Hh'); [|done..].
  destruct (IH h' Hh') as [Hs (rest & Hp' & Hl & Hr)].
  assert (forall y, y ∈ h' -> Less ascending y (h !!! 0%nat) = false) as Hmin.
  { intros y Hy. assert (y ∈ h) as (k & Hk)%list_elem_of_lookup by (rewrite Hp; by right).
    rewrite <- (list_lookup_total_correct _ _ _ Hk). eapply heap_root; [done..|]. by eapply lookup_lt_Some. }
  split.
  - constructor; [done|]. apply Forall_forall. intros y Hy. apply Hmin. rewrite Hp', elem_of_app. by left.
  - exists rest. split_and!; [by rewrite Hp, Hp' at 1|rewrite (Permutation_length Hp); cbn [length]; lia|].
    intros y z [->|Hy]%elem_of_cons Hz; [|by apply Hr]. apply Hmin. rewrite Hp', elem_of_app. by right.
Qed.

Lemma push_rows ascending items h :
  heap (Less ascending) (length h) h ->
  let h' := foldl (fun h item => Push (Less ascending) item h) h items in
  heap (Less ascending) (length h') h' /\ h' ≡ₚ items ++ h.
Proof.
  revert h. induction items as [|x items IH]; intros h Hh; [done|]. cbn [foldl].
  destruct (IH (Push (Less ascending) x h)) as [H1 H2]; [apply Push_heap; [apply Less_order|done]|].
  split; [done|]. rewrite H2, Push_perm. cbn. by rewrite Permutation_middle.
Qed.

(** Merging with a heap: the rows returned are, in order, the first
    [limit] of all rows by the text of the ordering column. *)
Theorem heap_merge_first Sprint results ob limit :
  exists items, mergeTopNWithHeap Sprint results ob limit = map item_row items /\
    let less := Less (match Ob_Direction ob with OrderAsc => true | OrderDesc => false end) in
    in_order less items /\ first_n less (Z.to_nat limit) (map (item_of Sprint (Ob_Column ob)) (concat results)) items.
Proof.
  unfold mergeTopNWithHeap. set (ascending := match Ob_Direction ob with OrderAsc => true | OrderDesc => false end).
  set (h := foldl _ _ _). eexists. split; [reflexivity|]. cbv zeta.
  destruct (push_rows ascending (map (item_of Sprint (Ob_Column ob)) (concat results)) []) as [Hh Hp].
  { intros k Hk. cbn in Hk. lia. }
  assert (foldl (fun h item => Push (Less ascending) item h) [] (map (item_of Sprint (Ob_Column ob)) (concat results)) = h) as E.
  { subst h. generalize (@nil rowHeapItem). clear. induction (concat results) as [|r rows IH]; intros h; [done|]. apply IH. }
  rewrite E, app_nil_r in *. destruct (pop_rows_first ascending (Z.to_nat limit) h Hh) as [Hs Hf].
  split; [done|]. eapply top_perm; [exact Hp|exact Hf].
Qed.

(** ** Concrete answers *)

#[export] Instance spec_float_eq_dec : EqDecision spec_float.
Proof. solve_decision. Defined.
#[export] Program Instance spec_float_countable : Countable spec_float :=
  inj_countable
    (fun f => match f with
              | S754_zero s => inl (inl s) | S754_infinity s => inl (inr s)
              | S754_nan => inr (inl tt) | S754_finite s m e => inr (inr (s, m, e)) end)
    (fun x => Some match x with
              | inl (inl s) => S754_zero s | inl (inr s) => S754_infinity s
              | inr (inl tt) => S754_nan | inr (inr (s, m, e)) => S754_finite s m e end) _.
Next Obligation. by intros []. Qed.

#[export] Instance any_eq_dec : EqDecision any.
Proof. solve_decision. Defined.
Definition any_code (v : any) : Z * ((bool + spec_float) + (Z + string)) :=
  match v with
  | Nil => (0, inl (inl false)) | Bool b => (1, inl (inl b))
  | Float64 f => (0, inl (inr f)) | Float32 f => (1, inl (inr f))
  | Int z => (0, inr (inl z)) | Int64 z => (1, inr (inl z)) | Int32 z => (2, inr (inl z))
  | String_ s => (0, inr (inr s)) | Nested s => (1, inr (inr s))
  end.
Definition code_any (x : Z * ((bool + spec_float) + (Z + string))) : option any :=
  Some match x with
  | (0, inl (inl _)) => Nil | (_, inl (inl b)) => Bool b
  | (0, inl (inr f)) => Float64 f | (_, inl (inr f)) => Float32 f
  | (0, inr (inl z)) => Int z | (1, inr (inl z)) => Int64 z | (_, inr (inl z)) => Int32 z
  | (0, inr (inr s)) => String_ s | (_, inr (inr s)) => Nested s
  end.
#[export] Instance any_countable : Countable any.
Proof. refine (inj_countable any_code code_any _). by intros []. Defined.

Module AggregationDemo.
(** A text of rows that can be read back. *)
Definition text_of (rows : list row) : option string := Some (encode_text rows).
Definition rows_of (s : string) : option (list row) := if bool_decide (s = "null") then Some [] else decode_text s.

Lemma bits_not_null p : pos_bits p <> "null".
Proof. destruct p; done. Qed.

Lemma rows_of_text rows : rows_of (encode_text rows) = Some rows.
Proof. unfold rows_of. rewrite bool_decide_eq_false_2; [apply decode_encode_text|apply bits_not_null]. Qed.

#[export] Instance text_json : JsonRows text_of rows_of (fun _ => True).
Proof.
  split.
  - intros s rows _. by apply Forall_true.
  - intros rows _. exists (encode_text rows). split; [done|apply rows_of_text].
  - done.
Qed.

Definition show (v : any) : string := match v with String_ s => s | Nested s => s | Nil => "<nil>" | _ => "?" end.

Definition top2 : AnalyzedQuery := Analyze ToLower "SELECT * FROM sales ORDER BY price DESC LIMIT 2".

Definition total : AnalyzedQuery := Analyze ToLower "SELECT SUM(price) AS total, region FROM sales".

Lemma simple_reduce_sums_witness :
  exists r, SimpleAggregate_Reduce text_of rows_of map_range ToLower
      [encode_text [{["total" := Float64 (f64 7)]} : row]; "garbage"; encode_text [{["total" := Float64 (f64 5)]} : row]] total
      = text_of [r] /\ r !! "total" = Some (Float64 (f64 12)).
Proof.
  destruct (simple_reduce_sums text_of rows_of map_range ToLower
    [encode_text [{["total" := Float64 (f64 7)]} : row]; "garbage"; encode_text [{["total" := Float64 (f64 5)]} : row]] total)
    as (r & Hr & _ & Ht); [done|].
  exists r. split; [exact Hr|]. apply (Ht (mkAggregation AggSum "price" "total") (f64 12)).
  - apply list_elem_of_lookup. exists 0%nat. vm_compute. reflexivity.
  - vm_compute. reflexivity.
Defined.

Definition sold (region : string) (n : Z) : row := {["region" := String_ region; "total" := Float64 (f64 n)]}.
Definition by_region : AnalyzedQuery := Analyze ToLower "SELECT region, SUM(price) AS total FROM sales GROUP BY region".

Lemma by_region_sums : Aggregations by_region = [mkAggregation AggSum "price" "total"].
Proof. vm_compute. reflexivity. Qed.

Lemma group_reduce_sums_witness :
  exists keys row_of,
    GroupAggregate_Reduce text_of rows_of map_range show [encode_text [sold "eu" 7; sold "us" 1]; encode_text [sold "eu" 5]] by_region
      = MarshalSlice text_of (map row_of keys) /\
    "eu" ∈ keys /\ (row_of "eu" : row) !! "total" = Some (Float64 (f64 12)).
Proof.
  destruct (group_reduce_sums text_of rows_of map_range show [encode_text [sold "eu" 7; sold "us" 1]; encode_text [sold "eu" 5]] by_region)
    as (keys & row_of & H & _ & Hk & Hv); [rewrite by_region_sums; discriminate|rewrite by_region_sums; repeat constructor; discriminate|].
  exists keys, row_of. assert ("eu" ∈ keys) as Hin.
  { apply Hk. exists (sold "eu" 7). split; [|vm_compute; reflexivity].
    apply list_elem_of_lookup. exists 0%nat. vm_compute. reflexivity. }
  split; [exact H|]. split; [exact Hin|]. rewrite (Hv "eu" "total" Hin).
  - vm_compute. reflexivity.
  - apply (bool_decide_unpack _). vm_compute. exact I.
Defined.

Definition ask (sql : string) (results : list (list row)) : option (list row) :=
  let q := Analyze ToLower sql in
  Reduce text_of rows_of map_range insertion_sort show ToLower (GetMapReduceStrategy q) (map encode_text results) q ≫= rows_of.

(** Where a combined answer is wrong. The least price of two nodes is the
    sum of their least prices. The average over two nodes is null, because the
    nodes are asked for the average and not for sums and counts; the query that
    asks for these gives one column two aliases if the average has one. The
    average per group is that of the nodes' averages. Two groups whose texts
    agree when joined are one. An empty union is null and not an empty list. *)
Theorem combined_answers_wrong :
  ask "SELECT MIN(price) AS low FROM sales" [[{["low" := Float64 (f64 3)]}]; [{["low" := Float64 (f64 5)]}]]
    = Some [{["low" := Float64 (f64 8)]}] /\
  ask "SELECT AVG(price) AS a FROM sales" [[{["a" := Float64 (f64 3)]}]; [{["a" := Float64 (f64 5)]}]]
    = Some [{["a" := Nil]}] /\
  AvgDecompose_MapSQL ToLower "SELECT AVG(price) AS a FROM sales" (Analyze ToLower "SELECT AVG(price) AS a FROM sales")
    = "SELECT SUM(price) as _sum_price, COUNT(price) as _count_price AS a FROM sales" /\
  ask "SELECT region, AVG(price) AS total FROM sales GROUP BY region" [[sold "eu" 10]; [sold "eu" 20]]
    = Some [sold "eu" 15] /\
  buildGroupKey show {["a" := String_ "x|y"; "b" := String_ "z"]} ["a"; "b"]
    = buildGroupKey show {["a" := String_ "x"; "b" := String_ "y|z"]} ["a"; "b"] /\
  Union_Reduce text_of rows_of [encode_text ([] : list row)] top2 = Some "null".
Proof. vm_compute. repeat split; reflexivity. Qed.
End AggregationDemo.
