(* ===== verification/IndexSystem.v ===== *)
(** * The index system (internal/storage/index_system.go)

    Bloom filters, minimum and maximum of a column, inverted indexes of words,
    and the registry of them. The Bloom filters and bitmaps themselves are
    libraries, behind classes of what they promise. *)

From S2P Require Import Prelude GoStrings GoTime GoFloat GoHeap GoOrder.
From Stdlib Require Import Ascii SpecFloat.
#[local] Open Scope Z_scope.

(** ** Libraries *)

(** github.com/bits-and-blooms/bloom *)
Class Bloom (F : Type) := {
  NewWithEstimates : Z -> spec_float -> F;
  AddString : string -> F -> F;
  TestString : string -> F -> bool;
}.
(** What was added is found, whatever is added after it. *)
Class BloomLaws (F : Type) `{!Bloom F} : Prop := {
  test_added s (f : F) : TestString s (AddString s f) = true;
  test_kept s t (f : F) : TestString s f = true -> TestString s (AddString t f) = true;
}.

(** github.com/RoaringBitmap/roaring: the operations change the first bitmap. *)
Class Roaring (B : Type) := {
  roaring_New : B;
  roaring_Add : Z -> B -> B;
  roaring_Remove : Z -> B -> B;
  roaring_Contains : Z -> B -> bool;
  roaring_And : B -> B -> B;
  roaring_Or : B -> B -> B;
  roaring_Xor : B -> B -> B;
  roaring_AndNot : B -> B -> B;
}.
Class RoaringLaws (B : Type) `{!Roaring B} : Prop := {
  contains_new x : roaring_Contains x (roaring_New : B) = false;
  contains_add x y (b : B) : roaring_Contains x (roaring_Add y b) = (x =? y) || roaring_Contains x b;
  contains_remove x y (b : B) : roaring_Contains x (roaring_Remove y b) = negb (x =? y) && roaring_Contains x b;
  contains_and x (a b : B) : roaring_Contains x (roaring_And a b) = roaring_Contains x a && roaring_Contains x b;
  contains_or x (a b : B) : roaring_Contains x (roaring_Or a b) = roaring_Contains x a || roaring_Contains x b;
  contains_xor x (a b : B) : roaring_Contains x (roaring_Xor a b) = xorb (roaring_Contains x a) (roaring_Contains x b);
  contains_andnot x (a b : B) : roaring_Contains x (roaring_AndNot a b) = roaring_Contains x a && negb (roaring_Contains x b);
}.

(** ** Bitmaps *)

Module RoaringBitmap.
Section bitmap.
Context {B : Type} `{!Roaring B}.

Record t := mkBitmap { bitmap : B; lastAccess : Z }.

Definition New (now : Z) : t := mkBitmap roaring_New now.
Definition Add (now v : Z) (rb : t) : t := mkBitmap (roaring_Add v (bitmap rb)) now.
Definition AddMany (now : Z) (vs : list Z) (rb : t) : t := mkBitmap (foldl (fun b v => roaring_Add v b) (bitmap rb) vs) now.
Definition Remove (now v : Z) (rb : t) : t := mkBitmap (roaring_Remove v (bitmap rb)) now.
Definition Contains (now v : Z) (rb : t) : bool * t := (roaring_Contains v (bitmap rb), mkBitmap (bitmap rb) now).
Definition Clear (now : Z) (rb : t) : t := mkBitmap roaring_New now.

(** The copy of the first bitmap that the operations work on. *)
Definition copy_of (rb : t) : B := roaring_Or roaring_New (bitmap rb).
Definition And (now : Z) (rb other : t) : t := mkBitmap (roaring_And (copy_of rb) (bitmap other)) now.
Definition Or (now : Z) (rb other : t) : t := mkBitmap (roaring_Or (copy_of rb) (bitmap other)) now.
Definition Xor (now : Z) (rb other : t) : t := mkBitmap (roaring_Xor (copy_of rb) (bitmap other)) now.
Definition AndNot (now : Z) (rb other : t) : t := mkBitmap (roaring_AndNot (copy_of rb) (bitmap other)) now.
End bitmap.
Arguments t B : clear implicits.
End RoaringBitmap.

(** ** Values *)

Inductive ivalue := INil | IInt (z : Z) | IInt64 (z : Z) | IFloat (f : spec_float) | IString (s : string) | ITime (t : Z) | IOther.

Definition compareValues (a b : ivalue) : Z :=
  match a, b with
  | IInt x, IInt y | IInt64 x, IInt64 y | ITime x, ITime y => ord (x ?= y)
  | IFloat x, IFloat y => float_compare x y
  | IString x, IString y => ord (String.compare x y)
  | _, _ => 0
  end.
Definition is_nil (v : ivalue) : bool := match v with INil => true | _ => false end.

(** ** Words *)

Record InvertedConfig := mkInverted { EnableStemming : bool; MinTokenLength : Z; MaxTokenLength : Z; CustomStopWords : list string }.
Record Tokenizer := mkTokenizer { stopWords : gset string; minLength : Z; maxLength : Z }.

Definition defaultStopWords : list string := ["the"; "a"; "an"; "and"; "or"; "but"; "in"; "on"; "at"; "to"; "for"; "of"; "with"; "by"].
Definition NewTokenizer (c : InvertedConfig) : Tokenizer :=
  mkTokenizer (list_to_set (defaultStopWords ++ CustomStopWords c)) (MinTokenLength c) (MaxTokenLength c).

Definition punctuation : string := ".,!?;:" +:+ String "034" "'()[]{}'-".
Fixpoint trim_start (cutset s : string) : string :=
  match s with "" => "" | String c s' => if has_char c cutset then trim_start cutset s' else s end.
(** [strings.Trim] *)
Definition Trim (s cutset : string) : string := string_rev (trim_start cutset (string_rev (trim_start cutset s) "")) "".

Definition Tokenize (t : Tokenizer) (text : string) : list string :=
  List.filter (fun word => let n := Z.of_nat (String.length word) in
      negb ((n <? minLength t) || (maxLength t <? n)) && negb (bool_decide (word ∈ stopWords t)))
    ((fun word => Trim word punctuation) <$> Fields (ToLower text)).

Definition suffixes : list string := ["ing"; "ed"; "er"; "est"; "ly"; "s"].
Definition stemWord (word : string) : string :=
  match List.find (fun suffix => HasSuffix word suffix && (String.length suffix + 2 <? String.length word)%nat) suffixes with
  | Some suffix => String.substring 0 (String.length word - String.length suffix) word
  | None => word
  end.
Definition StemTokens (enabled : bool) (tokens : list string) : list string := if enabled then stemWord <$> tokens else tokens.

(** ** Indexes *)

Record BloomFilterConfig := mkBloomConfig { FalsePositiveRate : spec_float; EstimatedElements : Z; HashFunctions : Z }.
Record BloomStats := mkBloomStats {
  TotalQueries : Z; TruePositives : Z; FalsePositives : Z; TrueNegatives : Z; ActualFPRate : spec_float; ElementCount : Z; LastReset : Z;
}.
Record BloomFilterIndex (F : Type) := mkBloom { bloomFilter : F; bloom_stats : BloomStats; elementCount : Z; bloom_update : Z }.
Arguments mkBloom {_}.
Arguments bloomFilter {_}.
Arguments bloom_stats {_}.
Arguments elementCount {_}.
Arguments bloom_update {_}.

Record MinMaxIndex := mkMinMax {
  mm_column : string; dataType : string; minValue : ivalue; maxValue : ivalue; totalCount : Z; DistinctCount : Z; Cardinality : spec_float; mm_update : Z;
}.

Record Posting := mkPosting { TermFreq : Z; Positions : list Z; Score : spec_float; LastAccessed : Z }.
Record PostingList := mkPostings { DocumentFreq : Z; TotalFreq : Z; Postings : gmap string Posting; pl_update : Z }.
Record InvertedIndex := mkInvertedIndex {
  iv_column : string; termIndex : gmap string PostingList; documentCount : Z; iv_config : InvertedConfig; TotalTerms : Z; iv_update : Z;
}.
Record BitmapIndex := mkBitmapIndex { bm_column : string; bm_update : Z }.
Record CompositeIndex := mkComposite { ci_columns : list string; ci_update : Z }.

Record IndexConfig := mkIndexConfig {
  BloomConfig : BloomFilterConfig; EnableStatistics : bool; Inverted : InvertedConfig; MaxColumns : Z;
}.
Definition NewDefaultIndexConfig : IndexConfig :=
  mkIndexConfig (mkBloomConfig (fdiv (f64 1) (f64 100)) 100000 4) true (mkInverted true 2 50 []) 5.

Record IndexSystem (F : Type) := mkSystem {
  bloomFilters : gmap string (BloomFilterIndex F); minMaxIndexes : gmap string MinMaxIndex; invertedIndexes : gmap string InvertedIndex;
  bitmapIndexes : gmap string BitmapIndex; compositeIndexes : gmap string CompositeIndex;
  indexConfig : IndexConfig; TotalIndexes : Z; IndexTypes : gmap string Z; LastMaintenance : option Z;
}.
Arguments mkSystem {_}.
Arguments bloomFilters {_}.
Arguments minMaxIndexes {_}.
Arguments invertedIndexes {_}.
Arguments bitmapIndexes {_}.
Arguments compositeIndexes {_}.
Arguments indexConfig {_}.
Arguments TotalIndexes {_}.
Arguments IndexTypes {_}.
Arguments LastMaintenance {_}.

Inductive index_error := IndexNotFound | TooManyColumns.

Section system.
Context {F : Type} {BF : Bloom F} (range : forall A, gmap string A -> list (string * A)) (Log : spec_float -> spec_float)
  (sort : forall A, (A -> A -> bool) -> list A -> list A).
Implicit Types (sys : IndexSystem F).

Definition NewIndexSystem : IndexSystem F := mkSystem ∅ ∅ ∅ ∅ ∅ NewDefaultIndexConfig 0 ∅ None.

Definition set_bloom (m : gmap string (BloomFilterIndex F)) sys : IndexSystem F :=
  mkSystem m (minMaxIndexes sys) (invertedIndexes sys) (bitmapIndexes sys) (compositeIndexes sys) (indexConfig sys) (TotalIndexes sys) (IndexTypes sys) (LastMaintenance sys).
Definition set_minmax (m : gmap string MinMaxIndex) sys : IndexSystem F :=
  mkSystem (bloomFilters sys) m (invertedIndexes sys) (bitmapIndexes sys) (compositeIndexes sys) (indexConfig sys) (TotalIndexes sys) (IndexTypes sys) (LastMaintenance sys).
Definition set_inverted (m : gmap string InvertedIndex) sys : IndexSystem F :=
  mkSystem (bloomFilters sys) (minMaxIndexes sys) m (bitmapIndexes sys) (compositeIndexes sys) (indexConfig sys) (TotalIndexes sys) (IndexTypes sys) (LastMaintenance sys).

Definition updateIndexStats (indexType : string) (delta : Z) sys : IndexSystem F :=
  mkSystem (bloomFilters sys) (minMaxIndexes sys) (invertedIndexes sys) (bitmapIndexes sys) (compositeIndexes sys) (indexConfig sys)
    (TotalIndexes sys + delta) (<[indexType := default 0 (IndexTypes sys !! indexType) + delta]> (IndexTypes sys)) (LastMaintenance sys).

Definition CreateBloomFilter (now : Z) (name columnName : string) sys : IndexSystem F :=
  let c := BloomConfig (indexConfig sys) in
  let index := mkBloom (NewWithEstimates (EstimatedElements c) (FalsePositiveRate c))
    (mkBloomStats 0 0 0 0 (S754_zero false) 0 now) 0 now in
  updateIndexStats "bloom_filter" 1 (set_bloom (<[name := index]> (bloomFilters sys)) sys).
Definition CreateMinMaxIndex (now : Z) (name columnName type : string) sys : IndexSystem F :=
  updateIndexStats "minmax" 1 (set_minmax (<[name := mkMinMax columnName type INil INil 0 0 (S754_zero false) now]> (minMaxIndexes sys)) sys).
Definition CreateInvertedIndex (now : Z) (name columnName : string) sys : IndexSystem F :=
  updateIndexStats "inverted" 1 (set_inverted (<[name := mkInvertedIndex columnName ∅ 0 (Inverted (indexConfig sys)) 0 now]> (invertedIndexes sys)) sys).
Definition CreateBitmapIndex (now : Z) (name columnName : string) sys : IndexSystem F :=
  updateIndexStats "bitmap" 1
    (mkSystem (bloomFilters sys) (minMaxIndexes sys) (invertedIndexes sys) (<[name := mkBitmapIndex columnName now]> (bitmapIndexes sys))
      (compositeIndexes sys) (indexConfig sys) (TotalIndexes sys) (IndexTypes sys) (LastMaintenance sys)).
Definition CreateCompositeIndex (now : Z) (name : string) (columns : list string) sys : result index_error (IndexSystem F) :=
  if MaxColumns (indexConfig sys) <? Zlength columns then Err TooManyColumns else
  Ok (updateIndexStats "composite" 1
    (mkSystem (bloomFilters sys) (minMaxIndexes sys) (invertedIndexes sys) (bitmapIndexes sys)
      (<[name := mkComposite columns now]> (compositeIndexes sys)) (indexConfig sys) (TotalIndexes sys) (IndexTypes sys) (LastMaintenance sys))).

(** ** Bloom filters *)

Definition AddToBloomFilter (now : Z) (name value : string) sys : result index_error (IndexSystem F) :=
  match bloomFilters sys !! name with
  | None => Err IndexNotFound
  | Some ix => Ok (set_bloom (<[name := mkBloom (AddString value (bloomFilter ix)) (bloom_stats ix) (elementCount ix + 1) now]> (bloomFilters sys)) sys)
  end.

Definition count_query (found : bool) (s : BloomStats) : BloomStats :=
  let total := TotalQueries s + 1 in
  mkBloomStats total (if found then TruePositives s + 1 else TruePositives s) (FalsePositives s)
    (if found then TrueNegatives s else TrueNegatives s + 1)
    (if 0 <? total then fdiv (f64 (FalsePositives s)) (f64 total) else ActualFPRate s) (ElementCount s) (LastReset s).
Definition TestBloomFilter (name value : string) sys : result index_error bool * IndexSystem F :=
  match bloomFilters sys !! name with
  | None => (Err IndexNotFound, sys)
  | Some ix =>
      let found := TestString value (bloomFilter ix) in
      (Ok found, set_bloom (<[name := mkBloom (bloomFilter ix) (count_query found (bloom_stats ix)) (elementCount ix) (bloom_update ix)]> (bloomFilters sys)) sys)
  end.

(** ** Minimum and maximum *)

Definition update_minmax (now : Z) (v : ivalue) (ix : MinMaxIndex) : MinMaxIndex :=
  mkMinMax (mm_column ix) (dataType ix)
    (if is_nil (minValue ix) || (compareValues v (minValue ix) <? 0) then v else minValue ix)
    (if is_nil (maxValue ix) || (0 <? compareValues v (maxValue ix)) then v else maxValue ix)
    (totalCount ix + 1) (DistinctCount ix) (Cardinality ix) now.
Definition UpdateMinMaxIndex (now : Z) (name : string) (v : ivalue) sys : result index_error (IndexSystem F) :=
  match minMaxIndexes sys !! name with
  | None => Err IndexNotFound
  | Some ix => Ok (set_minmax (<[name := update_minmax now v ix]> (minMaxIndexes sys)) sys)
  end.

Record QueryPredicate := mkPredicate { Operator : string; Value : ivalue }.
Definition may_match (p : QueryPredicate) (ix : MinMaxIndex) : bool :=
  let v := Value p in
  if bool_decide (Operator p = "=") then (0 <=? compareValues v (minValue ix)) && (compareValues v (maxValue ix) <=? 0)
  else if bool_decide (Operator p = "<") then compareValues (minValue ix) v <? 0
  else if bool_decide (Operator p = "<=") then compareValues (minValue ix) v <=? 0
  else if bool_decide (Operator p = ">") then 0 <? compareValues (maxValue ix) v
  else if bool_decide (Operator p = ">=") then 0 <=? compareValues (maxValue ix) v
  else true.
Definition QueryMinMaxIndex (name : string) (p : QueryPredicate) sys : result index_error bool :=
  match minMaxIndexes sys !! name with None => Err IndexNotFound | Some ix => Ok (may_match p ix) end.

(** ** Inverted indexes *)

Definition tokens_of (ix : InvertedIndex) (text : string) : list string :=
  StemTokens (EnableStemming (iv_config ix)) (Tokenize (NewTokenizer (iv_config ix)) text).

Definition add_token (now : Z) (doc : string) (terms : gmap string PostingList) (p : Z * string) : gmap string PostingList :=
  let '(position, token) := p in
  let pl := default (mkPostings 0 0 ∅ now) (terms !! token) in
  let found := bool_decide (is_Some (Postings pl !! doc)) in
  let posting := default (mkPosting 0 [] (S754_zero false) now) (Postings pl !! doc) in
  let posting := mkPosting (TermFreq posting + 1) (Positions posting ++ [position]) (Score posting) (LastAccessed posting) in
  <[token := mkPostings (if found then DocumentFreq pl else DocumentFreq pl + 1) (TotalFreq pl + 1) (<[doc := posting]> (Postings pl)) (pl_update pl)]> terms.

Definition numbered (tokens : list string) : list (Z * string) := zip (seqZ 0 (Zlength tokens)) tokens.

Definition add_document (now : Z) (doc text : string) (ix : InvertedIndex) : InvertedIndex :=
  mkInvertedIndex (iv_column ix) (foldl (add_token now doc) (termIndex ix) (numbered (tokens_of ix text))) (documentCount ix + 1)
    (iv_config ix) (TotalTerms ix) now.
Definition AddToInvertedIndex (now : Z) (name doc text : string) sys : result index_error (IndexSystem F) :=
  match invertedIndexes sys !! name with
  | None => Err IndexNotFound
  | Some ix => Ok (set_inverted (<[name := add_document now doc text ix]> (invertedIndexes sys)) sys)
  end.

Definition calculateTFIDF (p : Posting) (totalDocs : Z) : spec_float :=
  fmul (f64 (TermFreq p)) (Log (fdiv (f64 totalDocs) (fadd (f64 1) (f64 1)))).
Definition scored (totalDocs : Z) (p : Posting) : Posting := mkPosting (TermFreq p) (Positions p) (calculateTFIDF p totalDocs) (LastAccessed p).
Definition score_list (totalDocs : Z) (pl : PostingList) : PostingList :=
  mkPostings (DocumentFreq pl) (TotalFreq pl) (scored totalDocs <$> Postings pl) (pl_update pl).

(** The postings of every word of the query, with their documents; a word that
    occurs twice counts twice. *)
Definition matching (ix : InvertedIndex) (tokens : list string) : list (string * Posting) :=
  tokens ≫= fun token => match termIndex ix !! token with Some pl => range Posting (Postings pl) | None => [] end.
Definition more_relevant (a b : string * Posting) : bool := SFltb (Score b.2) (Score a.2).

(** The scores are written to the postings of the index. *)
Definition QueryInvertedIndex (name query : string) sys : result index_error (list (string * Posting)) * IndexSystem F :=
  match invertedIndexes sys !! name with
  | None => (Err IndexNotFound, sys)
  | Some ix =>
      let tokens := tokens_of ix query in
      let ix' := mkInvertedIndex (iv_column ix)
        (map_imap (fun t pl => Some (if bool_decide (t ∈ tokens) then score_list (documentCount ix) pl else pl)) (termIndex ix))
        (documentCount ix) (iv_config ix) (TotalTerms ix) (iv_update ix) in
      (Ok (sort _ more_relevant (matching ix' tokens)), set_inverted (<[name := ix']> (invertedIndexes sys)) sys)
  end.

(** ** Maintenance *)

Definition optimize_bloom (c : BloomFilterConfig) (now : Z) (ix : BloomFilterIndex F) : BloomFilterIndex F :=
  let s := bloom_stats ix in
  if SFltb (fmul (FalsePositiveRate c) (f64 2)) (ActualFPRate s)
  then mkBloom (NewWithEstimates (ElementCount s * 2) (FalsePositiveRate c))
    (mkBloomStats 0 (TruePositives s) 0 (TrueNegatives s) (ActualFPRate s) (ElementCount s) now) (elementCount ix) (bloom_update ix)
  else ix.
Definition optimize_minmax (stats : bool) (ix : MinMaxIndex) : MinMaxIndex :=
  if stats && (0 <? totalCount ix)
  then mkMinMax (mm_column ix) (dataType ix) (minValue ix) (maxValue ix) (totalCount ix) (totalCount ix)
    (fdiv (f64 (totalCount ix)) (f64 (totalCount ix))) (mm_update ix)
  else ix.
Definition day : Z := 24 * 3600 * second.
Definition prune_list (now : Z) (pl : PostingList) : option PostingList :=
  let ps := filter (fun p => now - LastAccessed p.2 < day) (Postings pl) in
  if bool_decide (size ps = 0%nat) then None else Some (mkPostings (Z.of_nat (size ps)) (TotalFreq pl) ps (pl_update pl)).
Definition optimize_inverted (now : Z) (ix : InvertedIndex) : InvertedIndex :=
  let terms := omap (prune_list now) (termIndex ix) in
  mkInvertedIndex (iv_column ix) terms (documentCount ix) (iv_config ix) (Z.of_nat (size terms)) (iv_update ix).
Definition OptimizeIndexes (now : Z) sys : IndexSystem F :=
  mkSystem (optimize_bloom (BloomConfig (indexConfig sys)) now <$> bloomFilters sys) (optimize_minmax (EnableStatistics (indexConfig sys)) <$> minMaxIndexes sys)
    (optimize_inverted now <$> invertedIndexes sys) (bitmapIndexes sys) (compositeIndexes sys) (indexConfig sys) (TotalIndexes sys) (IndexTypes sys) (Some now).
End system.
