(* ===== verification/IndexTheorems.v ===== *)
(** * What the indexes promise

    Over any run of operations: a Bloom filter forgets nothing, a minimum and
    maximum never exclude a matching value, and a search in an inverted index
    finds exactly the documents with one of its words. *)

From S2P Require Import Prelude GoStrings GoTime GoFloat GoHeap GoOrder IndexSystem.
From Stdlib Require Import Ascii SpecFloat.
#[local] Open Scope Z_scope.

(** ** Bitmaps *)

Section bitmaps.
Context {B : Type} `{!Roaring B} `{!RoaringLaws B}.
Abbreviation has x rb := (roaring_Contains x (RoaringBitmap.bitmap rb)).

(** The combinations of two bitmaps hold what they should, and the two are as
    they were. *)
Lemma bitmap_combinations now (a b : RoaringBitmap.t B) x :
  has x (RoaringBitmap.And now a b) = has x a && has x b /\ has x (RoaringBitmap.Or now a b) = has x a || has x b /\
  has x (RoaringBitmap.Xor now a b) = xorb (has x a) (has x b) /\ has x (RoaringBitmap.AndNot now a b) = has x a && negb (has x b).
Proof.
  unfold RoaringBitmap.And, RoaringBitmap.Or, RoaringBitmap.Xor, RoaringBitmap.AndNot, RoaringBitmap.copy_of. cbn.
  by rewrite contains_and, contains_or, contains_or, contains_xor, contains_andnot, contains_or, contains_new.
Qed.
Lemma bitmap_add_many now vs (a : RoaringBitmap.t B) x :
  has x (RoaringBitmap.AddMany now vs a) = bool_decide (x ∈ vs) || has x a.
Proof.
  unfold RoaringBitmap.AddMany. cbn. generalize (RoaringBitmap.bitmap a). induction vs as [|v vs IH]; intros b; cbn [foldl].
  - by rewrite bool_decide_eq_false_2 by apply not_elem_of_nil.
  - rewrite IH, contains_add. rewrite (bool_decide_ext (x ∈ v :: vs) (x = v \/ x ∈ vs)) by apply elem_of_cons.
    rewrite bool_decide_or. destruct (Z.eqb_spec x v); [rewrite (bool_decide_eq_true_2 (x = v)) by done|rewrite (bool_decide_eq_false_2 (x = v)) by done];
      by destruct (bool_decide (x ∈ vs)), (roaring_Contains x b).
Qed.
End bitmaps.

(** ** Runs *)

Inductive op :=
  | OCreateBloom (name column : string) | OCreateMinMax (name column type : string) | OCreateInverted (name column : string)
  | OCreateBitmap (name column : string) | OCreateComposite (name : string) (columns : list string)
  | OAddBloom (name v : string) | OTestBloom (name v : string) | OUpdateMinMax (name : string) (v : ivalue)
  | OAddInverted (name doc text : string) | OQueryInverted (name query : string) | OOptimize.

(** ** Kinds of values *)

Inductive kind := KInt | KInt64 | KFloat | KString | KTime.
Definition of_kind (k : kind) (v : ivalue) : bool :=
  match k, v with
  | KInt, IInt _ | KInt64, IInt64 _ | KString, IString _ | KTime, ITime _ => true
  | KFloat, IFloat f => match f with S754_nan => false | _ => true end
  | _, _ => false
  end.

(** Values of a kind, but for NaN, are ordered by their comparison. *)
Lemma value_laws k : comparison_laws compareValues (fun v => of_kind k v = true).
Proof.
  destruct Z_laws as [Za Zt], string_laws as [Sa St], float_laws as [Fa Ft]. split.
  - intros x y Hx Hy. destruct k, x, y; try done; cbn in *; [by apply Za..| |by apply Sa|by apply Za].
    apply Fa; [by destruct f|by destruct f0].
  - intros x y z Hx Hy Hz. destruct k, x, y, z; try done; cbn in *; [by apply Zt..| |by apply St|by apply Zt].
    apply Ft; [by destruct f|by destruct f0|by destruct f1].
Qed.

(** The rows that a predicate asks for; an operator that is none of the five
    asks for any. *)
Definition satisfies (p : QueryPredicate) (x : ivalue) : Prop :=
  if bool_decide (Operator p = "=") then compareValues (Value p) x = 0
  else if bool_decide (Operator p = "<") then compareValues x (Value p) < 0
  else if bool_decide (Operator p = "<=") then compareValues x (Value p) <= 0
  else if bool_decide (Operator p = ">") then 0 < compareValues x (Value p)
  else if bool_decide (Operator p = ">=") then 0 <= compareValues x (Value p)
  else True.

(** The bounds of values of one kind. *)
Definition bounds (ix : MinMaxIndex) (vs : list ivalue) : Prop :=
  totalCount ix = Zlength vs /\ (vs = [] -> minValue ix = INil /\ maxValue ix = INil) /\
  forall k, Forall (fun v => of_kind k v = true) vs -> vs <> [] ->
    of_kind k (minValue ix) = true /\ of_kind k (maxValue ix) = true /\
    forall v, v ∈ vs -> compareValues (minValue ix) v <= 0 /\ compareValues v (maxValue ix) <= 0.

Lemma kind_not_nil k v : of_kind k v = true -> is_nil v = false.
Proof. by destruct k, v. Qed.
Lemma compare_refl_kind k v : of_kind k v = true -> compareValues v v = 0.
Proof. intros Hv. pose proof (laws_anti _ _ (value_laws k) v v Hv Hv). lia. Qed.

Lemma update_bounds now v ix vs : bounds ix vs -> bounds (update_minmax now v ix) (vs ++ [v]).
Proof.
  intros (Ht & He & Hb). split; [cbn; rewrite length_app, Nat2Z.inj_add, Ht; done|]. split; [intros H; by apply app_nil in H as [_ ?]|].
  intros k [Hvs Hv]%Forall_app _. apply Forall_cons_1 in Hv as [Hv _]. cbv beta in Hv. unfold update_minmax. cbn [minValue maxValue].
  destruct (decide (vs = [])) as [->|Hne].
  - destruct (He eq_refl) as [-> ->]. cbn. split_and!; [done..|]. intros x ->%list_elem_of_singleton. rewrite (compare_refl_kind k) by done. lia.
  - destruct (Hb k Hvs Hne) as (Hmin & Hmax & Hin). rewrite !(kind_not_nil k) by done. cbn [orb].
    destruct (value_laws k) as [La Lt].
    assert (forall x, x ∈ vs -> of_kind k x = true) as Hk by (by apply Forall_forall).
    destruct (Z.ltb_spec (compareValues v (minValue ix)) 0) as [H1|H1], (Z.ltb_spec 0 (compareValues v (maxValue ix))) as [H2|H2];
      (split_and!; [done..|]); intros x [Hx| ->%list_elem_of_singleton]%elem_of_app;
      try (destruct (Hin x Hx) as [Hx1 Hx2]; pose proof (Hk x Hx)); rewrite ?(compare_refl_kind k) by done;
      pose proof (La v (minValue ix) Hv Hmin); pose proof (La v (maxValue ix) Hv Hmax);
      (split; [first [lia | apply (Lt v (minValue ix) x); (done || lia)] | first [lia | apply (Lt x (maxValue ix) v); (done || lia)]]).
Qed.

Lemma bounds_admit k p ix vs x : bounds ix vs -> Forall (fun v => of_kind k v = true) vs -> of_kind k (Value p) = true ->
  x ∈ vs -> satisfies p x -> may_match p ix = true.
Proof.
  intros (_ & _ & Hb) Hvs Hp Hx Hs. destruct (Hb k Hvs) as (Hmin & Hmax & Hin); [by intros ->; apply not_elem_of_nil in Hx|].
  destruct (Hin x Hx) as [H1 H2]. destruct (value_laws k) as [La Lt].
  assert (of_kind k x = true) as Hk by (rewrite Forall_forall in Hvs; by apply Hvs).
  pose proof (La x (Value p) Hk Hp). pose proof (La (minValue ix) (Value p) Hmin Hp). pose proof (La (maxValue ix) (Value p) Hmax Hp).
  pose proof (La x (maxValue ix) Hk Hmax).
  pose proof (Lt (minValue ix) x (Value p) Hmin Hk Hp H1) as T1. pose proof (Lt (Value p) x (maxValue ix) Hp Hk Hmax) as T2.
  unfold satisfies, may_match in *. repeat case_bool_decide; try done; rewrite ?andb_true_iff, ?Z.leb_le, ?Z.ltb_lt; lia.
Qed.

(** ** Words and where they occur *)

Fixpoint positions (t : string) (nts : list (Z * string)) : list Z :=
  match nts with [] => [] | (i, w) :: nts => if bool_decide (w = t) then i :: positions t nts else positions t nts end.

(** The postings of an index are the positions [occ] of each word in each
    document, [tot] of each word in all. *)
Definition holds (terms : gmap string PostingList) (occ : string -> string -> list Z) (tot : string -> Z) : Prop :=
  forall t, match terms !! t with
    | None => (forall d, occ t d = []) /\ tot t = 0
    | Some pl => DocumentFreq pl = Z.of_nat (size (Postings pl)) /\ TotalFreq pl = tot t /\
        forall d, match Postings pl !! d with
          | None => occ t d = []
          | Some p => occ t d <> [] /\ Positions p = occ t d /\ TermFreq p = Zlength (occ t d)
          end
    end.

Lemma holds_ext terms occ occ' tot tot' : (forall t d, occ t d = occ' t d) -> (forall t, tot t = tot' t) -> holds terms occ tot -> holds terms occ' tot'.
Proof.
  intros Ho Ht H t. specialize (H t). rewrite <- Ht. destruct (terms !! t) as [pl|].
  - destruct H as (H1 & H2 & H3). split_and!; [done..|]. intros d. rewrite <- Ho. apply H3.
  - destruct H as [H1 H2]. split; [|done]. intros d. by rewrite <- Ho.
Qed.

Definition then_at (doc t : string) (ps : list Z) (t' d : string) : list Z := if bool_decide (t' = t /\ d = doc) then ps else [].

Lemma add_token_holds now doc terms i t occ tot : holds terms occ tot ->
  holds (add_token now doc terms (i, t)) (fun t' d => occ t' d ++ then_at doc t [i] t' d) (fun t' => tot t' + if bool_decide (t' = t) then 1 else 0).
Proof.
  intros H t'. specialize (H t'). unfold add_token, then_at. destruct (decide (t' = t)) as [->|Hn].
  - rewrite lookup_insert_eq, (bool_decide_eq_true_2 (t = t)) by done. cbn [DocumentFreq TotalFreq Postings].
    set (pl := default (mkPostings 0 0 ∅ now) (terms !! t)).
    assert (DocumentFreq pl = Z.of_nat (size (Postings pl)) /\ TotalFreq pl = tot t /\
      forall d, match Postings pl !! d with None => occ t d = [] | Some p => occ t d <> [] /\ Positions p = occ t d /\ TermFreq p = Zlength (occ t d) end)
      as (H1 & H2 & H3).
    { subst pl. destruct (terms !! t) as [pl|]; [done|]. destruct H as [Ho Ht]. cbn. rewrite Ht. split_and!; [done..|].
      intros d. by rewrite lookup_empty. }
    clearbody pl. split_and!.
    + destruct (Postings pl !! doc) eqn:E; [rewrite bool_decide_eq_true_2 by (by eexists) | rewrite bool_decide_eq_false_2 by (by intros [? ?])].
      * by rewrite map_size_insert_Some.
      * rewrite map_size_insert_None by done. lia.
    + lia.
    + intros d. specialize (H3 d). destruct (decide (d = doc)) as [->|Hd].
      * rewrite lookup_insert_eq, bool_decide_eq_true_2 by done. cbn. split; [intros Hnil; by apply app_nil in Hnil as [_ ?]|].
        rewrite length_app. cbn. destruct (Postings pl !! doc) as [p|]; cbn.
        -- destruct H3 as (_ & -> & ->). split; [done|lia].
        -- rewrite H3. done.
      * rewrite lookup_insert_ne, bool_decide_eq_false_2, app_nil_r by (done || tauto). apply H3.
  - rewrite lookup_insert_ne, (bool_decide_eq_false_2 (t' = t)), Z.add_0_r by done.
    destruct (terms !! t') as [pl|].
    + destruct H as (H1 & H2 & H3). split_and!; [done..|]. intros d. rewrite bool_decide_eq_false_2, app_nil_r by tauto. apply H3.
    + destruct H as [H1 H2]. split; [|done]. intros d. rewrite bool_decide_eq_false_2, app_nil_r by tauto. apply H1.
Qed.

Lemma add_tokens_hold now doc nts terms occ tot : holds terms occ tot ->
  holds (foldl (add_token now doc) terms nts) (fun t d => occ t d ++ if bool_decide (d = doc) then positions t nts else [])
    (fun t => tot t + Zlength (positions t nts)).
Proof.
  revert terms occ tot. induction nts as [|[i w] nts IH]; intros terms occ tot H; cbn [foldl].
  - eapply holds_ext; [| |exact H]; [intros t d; case_bool_decide; by rewrite app_nil_r | intros t; cbn; lia].
  - eapply holds_ext; [| |apply IH, (add_token_holds now doc terms i w), H].
    + intros t d. cbv beta. rewrite <- app_assoc. f_equal. unfold then_at. cbn. destruct (decide (w = t)) as [->|Hn].
      * rewrite (bool_decide_eq_true_2 (t = t)) by done. repeat case_bool_decide; try tauto; done.
      * rewrite (bool_decide_eq_false_2 (w = t)) by done. rewrite bool_decide_eq_false_2 by (intros [E _]; by apply Hn). done.
    + intros t. cbv beta. cbn. destruct (decide (w = t)) as [->|Hn].
      * rewrite !(bool_decide_eq_true_2 (t = t)) by done. cbn. lia.
      * rewrite (bool_decide_eq_false_2 (w = t)), (bool_decide_eq_false_2 (t = w)) by congruence. lia.
Qed.

Section runs.
Context {F : Type} {BF : Bloom F} (range : forall A, gmap string A -> list (string * A)) (Log : spec_float -> spec_float)
  (sort : forall A, (A -> A -> bool) -> list A -> list A).
Implicit Types (sys : IndexSystem F).

Definition or_same (r : result index_error (IndexSystem F)) sys : IndexSystem F := match r with Ok sys => sys | Err _ => sys end.
Definition apply_op (now : Z) (o : op) sys : IndexSystem F :=
  match o with
  | OCreateBloom n c => CreateBloomFilter now n c sys
  | OCreateMinMax n c t => CreateMinMaxIndex now n c t sys
  | OCreateInverted n c => CreateInvertedIndex now n c sys
  | OCreateBitmap n c => CreateBitmapIndex now n c sys
  | OCreateComposite n cs => or_same (CreateCompositeIndex now n cs sys) sys
  | OAddBloom n v => or_same (AddToBloomFilter now n v sys) sys
  | OTestBloom n v => (TestBloomFilter n v sys).2
  | OUpdateMinMax n v => or_same (UpdateMinMaxIndex now n v sys) sys
  | OAddInverted n d t => or_same (AddToInvertedIndex now n d t sys) sys
  | OQueryInverted n q => (QueryInvertedIndex range Log sort n q sys).2
  | OOptimize => OptimizeIndexes now sys
  end.
Definition run (ops : list (Z * op)) : IndexSystem F := foldl (fun sys x => apply_op x.1 x.2 sys) NewIndexSystem ops.

(** What was put in each index since it was made. *)
Definition grow {A} (name : string) (a : A) (m : gmap string (list A)) : gmap string (list A) := alter (fun l => l ++ [a]) name m.
Definition bloom_log (m : gmap string (list string)) (x : Z * op) : gmap string (list string) :=
  match x.2 with OCreateBloom n _ => <[n := []]> m | OAddBloom n v => grow n v m | _ => m end.
Definition minmax_log (m : gmap string (list ivalue)) (x : Z * op) : gmap string (list ivalue) :=
  match x.2 with OCreateMinMax n _ _ => <[n := []]> m | OUpdateMinMax n v => grow n v m | _ => m end.
Definition text_log (m : gmap string (list (string * string))) (x : Z * op) : gmap string (list (string * string)) :=
  match x.2 with OCreateInverted n _ => <[n := []]> m | OAddInverted n d t => grow n (d, t) m | _ => m end.

(** A map and its log, related key by key. *)
Definition logged {I A} (R : I -> list A -> Prop) (m : gmap string I) (l : gmap string (list A)) : Prop :=
  forall n, match m !! n, l !! n with Some ix, Some as_ => R ix as_ | None, None => True | _, _ => False end.

Lemma logged_new {I A} (R : I -> list A -> Prop) m l n ix : R ix [] -> logged R m l -> logged R (<[n := ix]> m) (<[n := []]> l).
Proof.
  intros HR Hm k. specialize (Hm k). destruct (decide (k = n)) as [->|]; [by rewrite !lookup_insert_eq|]. by rewrite !lookup_insert_ne by done.
Qed.
Lemma logged_grow {I A} (R : I -> list A -> Prop) m l n ix ix' a : m !! n = Some ix -> (forall as_, R ix as_ -> R ix' (as_ ++ [a])) ->
  logged R m l -> logged R (<[n := ix']> m) (grow n a l).
Proof.
  intros Hn HR Hm k. specialize (Hm k) as Hk. unfold grow. destruct (decide (k = n)) as [->|].
  - rewrite lookup_insert_eq, lookup_alter_eq. rewrite Hn in Hk. destruct (l !! n); [|done]. by apply HR.
  - by rewrite lookup_insert_ne, lookup_alter_ne by done.
Qed.
Lemma logged_absent {I A} (R : I -> list A -> Prop) m l n a : m !! n = None -> logged R m l -> logged R m (grow n a l).
Proof.
  intros Hn Hm k. specialize (Hm k) as Hk. unfold grow. destruct (decide (k = n)) as [->|]; [|by rewrite lookup_alter_ne by done].
  rewrite lookup_alter_eq, Hn in *. by destruct (l !! n).
Qed.
Lemma logged_change {I A} (R : I -> list A -> Prop) m l n ix ix' : m !! n = Some ix -> (forall as_, R ix as_ -> R ix' as_) ->
  logged R m l -> logged R (<[n := ix']> m) l.
Proof.
  intros Hn HR Hm k. specialize (Hm k) as Hk. destruct (decide (k = n)) as [->|]; [|by rewrite lookup_insert_ne by done].
  rewrite lookup_insert_eq. rewrite Hn in Hk. destruct (l !! n); [by apply HR|done].
Qed.
Lemma logged_fmap {I A} (R : I -> list A -> Prop) (f : I -> I) m l : (forall ix as_, R ix as_ -> R (f ix) as_) ->
  logged R m l -> logged R (f <$> m) l.
Proof. intros HR Hm k. specialize (Hm k). rewrite lookup_fmap. destruct (m !! k), (l !! k); cbn; auto. Qed.

Lemma run_snoc ops x : run (ops ++ [x]) = apply_op x.1 x.2 (run ops).
Proof. unfold run. by rewrite foldl_app. Qed.

Lemma config_kept now o sys : indexConfig (apply_op now o sys) = indexConfig sys.
Proof.
  destruct o; cbn; try done; unfold or_same, CreateCompositeIndex, AddToBloomFilter, TestBloomFilter, UpdateMinMaxIndex, AddToInvertedIndex, QueryInvertedIndex;
    repeat case_match; simplify_eq; done.
Qed.
Lemma run_config ops : indexConfig (run ops) = NewDefaultIndexConfig.
Proof. induction ops as [|x ops IH] using rev_ind; [done|]. by rewrite run_snoc, config_kept. Qed.

(** ** Bloom filters *)

Definition rate_zero (f : spec_float) : Prop := (exists s, f = S754_zero s) \/ f = S754_nan.
Record remembers (ix : BloomFilterIndex F) (vs : list string) : Prop := {
  re_found v : v ∈ vs -> TestString v (bloomFilter ix) = true;
  re_positives : FalsePositives (bloom_stats ix) = 0;
  re_rate : rate_zero (ActualFPRate (bloom_stats ix));
}.

Lemma fdiv_zero x : rate_zero (fdiv (f64 0) x).
Proof. change (f64 0) with (S754_zero false). destruct x as [s| | |]; cbn; unfold rate_zero; eauto. Qed.

Lemma optimize_remembers now ix vs : remembers ix vs -> remembers (optimize_bloom (BloomConfig NewDefaultIndexConfig) now ix) vs.
Proof.
  intros Hr. unfold optimize_bloom. enough (SFltb (fmul (FalsePositiveRate (BloomConfig NewDefaultIndexConfig)) (f64 2)) (ActualFPRate (bloom_stats ix)) = false) as -> by done.
  set (c := fmul _ _). vm_compute in c. subst c. destruct (re_rate _ _ Hr) as [[s ->]| ->]; reflexivity.
Qed.

Context `{!BloomLaws F}.

Lemma bloom_step now o sys l : indexConfig sys = NewDefaultIndexConfig -> logged remembers (bloomFilters sys) l ->
  logged remembers (bloomFilters (apply_op now o sys)) (bloom_log l (now, o)).
Proof.
  intros Hc Hl. destruct o; cbn; try done.
  - apply logged_new; [|done]. split; cbn; [intros v Hv; by apply not_elem_of_nil in Hv|done|left; by eexists].
  - unfold or_same, CreateCompositeIndex. destruct (_ <? _); done.
  - unfold or_same, AddToBloomFilter. destruct (bloomFilters sys !! name) as [ix|] eqn:E; [|by apply logged_absent].
    cbn. eapply logged_grow; [done| |done]. intros vs [H1 H2 H3]. split; cbn; [|done..].
    intros x [Hx| ->%list_elem_of_singleton]%elem_of_app; [by apply test_kept, H1 | apply test_added].
  - unfold TestBloomFilter. destruct (bloomFilters sys !! name) as [ix|] eqn:E; [|done]. cbn. eapply logged_change; [done| |done].
    intros vs [H1 H2 H3]. split; cbn; [done..|]. rewrite H2. destruct (_ <? _); [apply fdiv_zero|done].
  - unfold or_same, UpdateMinMaxIndex. destruct (minMaxIndexes sys !! name); done.
  - unfold or_same, AddToInvertedIndex. destruct (invertedIndexes sys !! name); done.
  - unfold QueryInvertedIndex. destruct (invertedIndexes sys !! name); done.
  - rewrite Hc. apply logged_fmap; [|done]. intros. by apply optimize_remembers.
Qed.

(** Whatever is done, maintenance included, a value that was added to a filter
    since the filter was made is found. *)
Theorem bloom_never_forgets ops name vs v :
  foldl bloom_log ∅ ops !! name = Some vs -> v ∈ vs -> (TestBloomFilter name v (run ops)).1 = Ok true.
Proof.
  assert (logged remembers (bloomFilters (run ops)) (foldl bloom_log ∅ ops)) as H.
  { induction ops as [|[t o] ops IH] using rev_ind; [intros n; cbn; by rewrite !lookup_empty|].
    rewrite run_snoc, foldl_app. cbn [foldl fst snd]. apply bloom_step; [apply run_config|done]. }
  intros Hvs Hv. specialize (H name). rewrite Hvs in H. unfold TestBloomFilter.
  destruct (bloomFilters (run ops) !! name) as [ix|]; [|done]. cbn. f_equal. by apply (re_found _ _ H).
Qed.

(** ** Minimum and maximum *)

Lemma minmax_step now o sys l : logged bounds (minMaxIndexes sys) l -> logged bounds (minMaxIndexes (apply_op now o sys)) (minmax_log l (now, o)).
Proof.
  intros Hl. destruct o; cbn; try done.
  - apply logged_new; [|done]. split_and!; [done..|]. by intros k _ [].
  - unfold or_same, CreateCompositeIndex. destruct (_ <? _); done.
  - unfold or_same, AddToBloomFilter. destruct (bloomFilters sys !! name); done.
  - unfold TestBloomFilter. destruct (bloomFilters sys !! name); done.
  - unfold or_same, UpdateMinMaxIndex. destruct (minMaxIndexes sys !! name) as [ix|] eqn:E; [|by apply logged_absent].
    cbn. eapply logged_grow; [done| |done]. intros vs. apply update_bounds.
  - unfold or_same, AddToInvertedIndex. destruct (invertedIndexes sys !! name); done.
  - unfold QueryInvertedIndex. destruct (invertedIndexes sys !! name); done.
  - apply logged_fmap; [|done]. intros ix vs Hb. unfold optimize_minmax. by destruct (_ && _).
Qed.

(** Whatever is done, an index of values of one kind never excludes a predicate
    that one of its values satisfies. *)
Theorem minmax_never_excludes ops name vs k p x :
  foldl minmax_log ∅ ops !! name = Some vs -> Forall (fun v => of_kind k v = true) vs -> of_kind k (Value p) = true ->
  x ∈ vs -> satisfies p x -> QueryMinMaxIndex name p (run ops) = Ok true.
Proof.
  assert (logged bounds (minMaxIndexes (run ops)) (foldl minmax_log ∅ ops)) as H.
  { induction ops as [|[t o] ops IH] using rev_ind; [intros n; cbn; by rewrite !lookup_empty|].
    rewrite run_snoc, foldl_app. cbn [foldl fst snd]. by apply minmax_step. }
  intros Hvs Hk Hp Hx Hs. specialize (H name). rewrite Hvs in H. unfold QueryMinMaxIndex.
  destruct (minMaxIndexes (run ops) !! name) as [ix|]; [|done]. f_equal. by eapply bounds_admit.
Qed.

(** ** Inverted indexes *)

Definition default_tokens (text : string) : list string :=
  StemTokens true (Tokenize (NewTokenizer (Inverted NewDefaultIndexConfig)) text).
(** Where a word occurs in the texts of a document, and how often in all. *)
Definition occurrences (log : list (string * string)) (t doc : string) : list Z :=
  log ≫= fun p => if bool_decide (doc = p.1) then positions t (numbered (default_tokens p.2)) else [].
Definition total (log : list (string * string)) (t : string) : Z :=
  Zlength (log ≫= fun p => positions t (numbered (default_tokens p.2))).

Definition indexes (ix : InvertedIndex) (log : list (string * string)) : Prop :=
  iv_config ix = Inverted NewDefaultIndexConfig /\ documentCount ix = Zlength log /\ holds (termIndex ix) (occurrences log) (total log).

Lemma holds_scored terms occ tot (f : string -> PostingList -> PostingList) :
  (forall t pl, f t pl = pl \/ exists n, f t pl = score_list Log n pl) -> holds terms occ tot ->
  holds (map_imap (fun t pl => Some (f t pl)) terms) occ tot.
Proof.
  intros Hf H t. specialize (H t). rewrite map_lookup_imap. destruct (terms !! t) as [pl|]; cbn; [|done].
  destruct (Hf t pl) as [-> |[n ->]]; [done|]. cbn. destruct H as (H1 & H2 & H3). rewrite map_size_fmap. split_and!; [done..|].
  intros d. specialize (H3 d). rewrite lookup_fmap. by destruct (Postings pl !! d).
Qed.

Lemma search_state ix (tokens : list string) log : indexes ix log ->
  indexes (mkInvertedIndex (iv_column ix)
    (map_imap (fun t pl => Some (if bool_decide (t ∈ tokens) then score_list Log (documentCount ix) pl else pl)) (termIndex ix))
    (documentCount ix) (iv_config ix) (TotalTerms ix) (iv_update ix)) log.
Proof.
  intros (H1 & H2 & H3). split_and!; [done..|]. cbn [termIndex]. apply (holds_scored _ _ _ (fun t pl => if bool_decide (t ∈ tokens) then _ else pl)); [|done].
  intros t pl. case_bool_decide; eauto.
Qed.

Lemma text_step now o sys l : indexConfig sys = NewDefaultIndexConfig -> o <> OOptimize -> logged indexes (invertedIndexes sys) l ->
  logged indexes (invertedIndexes (apply_op now o sys)) (text_log l (now, o)).
Proof.
  intros Hc Ho Hl. destruct o; cbn; try done.
  - apply logged_new; [|done]. rewrite Hc. split_and!; [done..|]. intros t. cbn. by rewrite lookup_empty.
  - unfold or_same, CreateCompositeIndex. destruct (_ <? _); done.
  - unfold or_same, AddToBloomFilter. destruct (bloomFilters sys !! name); done.
  - unfold TestBloomFilter. destruct (bloomFilters sys !! name); done.
  - unfold or_same, UpdateMinMaxIndex. destruct (minMaxIndexes sys !! name); done.
  - unfold or_same, AddToInvertedIndex. destruct (invertedIndexes sys !! name) as [ix|] eqn:E; [|by apply logged_absent].
    cbn. eapply logged_grow; [done| |done]. intros log (H1 & H2 & H3). split_and!; cbn; [done|rewrite length_app; cbn; lia|].
    assert (tokens_of ix text = default_tokens text) as -> by (unfold tokens_of; by rewrite H1).
    eapply holds_ext; [| |apply (add_tokens_hold now doc), H3].
    + intros t d. unfold occurrences. rewrite bind_app. cbn. by rewrite app_nil_r.
    + intros t. unfold total. rewrite bind_app, length_app. cbn. rewrite app_nil_r. lia.
  - unfold QueryInvertedIndex. destruct (invertedIndexes sys !! name) as [ix|] eqn:E; [|done]. cbn [snd set_inverted invertedIndexes].
    eapply logged_change; [done| |done]. intros log Hi. by apply search_state.
Qed.

Context `{!MapRange range} `{!forall A, SliceSort (sort A)}.

(** Over any run without maintenance, a search finds exactly the documents with
    a word of the query in one of their texts, and gives for each such word
    where it occurs. *)
Theorem search_exact ops name log query :
  Forall (fun x => x.2 <> OOptimize) ops -> foldl text_log ∅ ops !! name = Some log ->
  exists found, (QueryInvertedIndex range Log sort name query (run ops)).1 = Ok found /\
    (forall doc p, (doc, p) ∈ found -> exists t, t ∈ default_tokens query /\ Positions p = occurrences log t doc /\
       Positions p <> [] /\ TermFreq p = Zlength (Positions p)) /\
    (forall doc t, t ∈ default_tokens query -> occurrences log t doc <> [] ->
       exists p, (doc, p) ∈ found /\ Positions p = occurrences log t doc).
Proof.
  intros Hops. assert (logged indexes (invertedIndexes (run ops)) (foldl text_log ∅ ops)) as Hi.
  { induction ops as [|[t o] ops IH] using rev_ind; [intros n; cbn; by rewrite !lookup_empty|].
    apply Forall_app in Hops as [Hops Ho%Forall_cons_1]. rewrite run_snoc, foldl_app. cbn [foldl fst snd].
    apply text_step; [apply run_config|apply Ho|by apply IH]. }
  intros Hlog. specialize (Hi name). rewrite Hlog in Hi. unfold QueryInvertedIndex.
  destruct (invertedIndexes (run ops) !! name) as [ix|]; [|done]. eexists. split; [done|].
  pose proof (search_state ix (tokens_of ix query) log Hi) as (_ & _ & Hs).
  assert (tokens_of ix query = default_tokens query) as E by (unfold tokens_of; by rewrite (proj1 Hi)). rewrite E in *.
  set (ix' := mkInvertedIndex _ _ _ _ _ _) in *. split.
  - intros doc p. rewrite (sort_perm more_relevant). unfold matching. intros (t & Hp & Ht)%list_elem_of_bind. exists t. split; [done|].
    specialize (Hs t). destruct (termIndex ix' !! t) as [pl|]; [|by apply not_elem_of_nil in Hp]. apply range_elem in Hp; [|done].
    destruct Hs as (_ & _ & Hs). specialize (Hs doc). rewrite Hp in Hs. destruct Hs as (H1 & H2 & H3). rewrite H2. done.
  - intros doc t Ht Hocc. specialize (Hs t). destruct (termIndex ix' !! t) as [pl|] eqn:Et; [|by destruct Hs as [Hs _]; rewrite Hs in Hocc].
    destruct Hs as (_ & _ & Hs). specialize (Hs doc). destruct (Postings pl !! doc) as [p|] eqn:Ep; [|done]. exists p.
    split; [|apply Hs]. rewrite (sort_perm more_relevant). unfold matching. apply list_elem_of_bind. exists t. rewrite Et. split; [|done].
    by apply range_elem.
Qed.
End runs.

(** ** Small runs *)

Module IndexDemo.

(** An exact filter. *)
#[export] Instance set_bloom_filter : Bloom (gset string) := {|
  NewWithEstimates _ _ := ∅; AddString s f := {[s]} ∪ f; TestString s f := bool_decide (s ∈ f);
|}.
#[export] Instance set_bloom_laws : BloomLaws (gset string).
Proof.
  split; cbn; intros s.
  - intros f. apply bool_decide_eq_true_2. set_solver.
  - intros t f H. apply bool_decide_eq_true_1 in H. apply bool_decide_eq_true_2. set_solver.
Qed.

Definition demo_run : list (Z * op) -> IndexSystem (gset string) := run map_range (fun f => f) (@insertion_sort).
Definition search (name q : string) (sys : IndexSystem (gset string)) : list (string * list Z) :=
  match (QueryInvertedIndex map_range (fun f => f) (@insertion_sort) name q sys).1 with Ok l => (fun p => (p.1, Positions p.2)) <$> l | Err _ => [] end.

Definition two_texts : list (Z * op) :=
  [(0, OCreateInverted "i" "c"); (0, OAddInverted "i" "d1" "The parsers walked, walking!"); (0, OAddInverted "i" "d2" "A walk.")].

Example searches :
  default_tokens "The parsers walked, walking!" = ["parser"; "walk"; "walk"] /\
  search "i" "walks" (demo_run two_texts) ≡ₚ [("d1", [1; 2]); ("d2", [0])] /\ search "i" "the" (demo_run two_texts) = [].
Proof.
  split; [vm_compute; reflexivity|]. split; [|vm_compute; reflexivity].
  apply (bool_decide_eq_true_1 (search "i" "walks" (demo_run two_texts) ≡ₚ [("d1", [1; 2]); ("d2", [0])])). vm_compute. reflexivity.
Qed.

Lemma bloom_never_forgets_witness : (TestBloomFilter "b" "x" (demo_run [(0, OCreateBloom "b" "c"); (1, OAddBloom "b" "x"); (2, OOptimize)])).1 = Ok true.
Proof. apply (bloom_never_forgets map_range (fun f => f) (@insertion_sort) _ "b" ["x"] "x"); [reflexivity|apply list_elem_of_here]. Defined.

Lemma minmax_never_excludes_witness :
  QueryMinMaxIndex "m" (mkPredicate "<" (IInt 5)) (demo_run [(0, OCreateMinMax "m" "c" "int"); (0, OUpdateMinMax "m" (IInt 9)); (0, OUpdateMinMax "m" (IInt 3))]) = Ok true.
Proof.
  apply (minmax_never_excludes map_range (fun f => f) (@insertion_sort) _ "m" [IInt 9; IInt 3] KInt _ (IInt 3)); try reflexivity.
  - repeat constructor.
  - right. left.
Defined.

Lemma search_exact_witness : exists found,
  (QueryInvertedIndex map_range (fun f => f) (@insertion_sort) "i" "walks" (demo_run two_texts)).1 = Ok found /\
  exists p, ("d2", p) ∈ found /\ Positions p = [0].
Proof.
  destruct (search_exact map_range (fun f => f) (@insertion_sort) two_texts "i"
    [("d1", "The parsers walked, walking!"); ("d2", "A walk.")] "walks") as (found & H1 & _ & H3).
  - repeat constructor; discriminate.
  - reflexivity.
  - exists found. split; [exact H1|]. destruct (H3 "d2" "walk") as (p & Hp & Hps); [vm_compute; left|vm_compute; discriminate|].
    exists p. split; [exact Hp|]. rewrite Hps. vm_compute. reflexivity.
Defined.

Definition one : spec_float := f64 1.
Definition below_five (v : ivalue) : QueryPredicate := mkPredicate "<" v.

(** A NaN that comes first stays the minimum, and a first value of another kind
    too; the index then excludes values that match. *)
Example minmax_flaws :
  (QueryMinMaxIndex "m" (below_five (IFloat (f64 5)))
    (demo_run [(0, OCreateMinMax "m" "c" "float"); (0, OUpdateMinMax "m" (IFloat S754_nan)); (0, OUpdateMinMax "m" (IFloat one))]) = Ok false /\
   satisfies (below_five (IFloat (f64 5))) (IFloat one)) /\
  (QueryMinMaxIndex "m" (below_five (IFloat (f64 5)))
    (demo_run [(0, OCreateMinMax "m" "c" "float"); (0, OUpdateMinMax "m" (IInt 9)); (0, OUpdateMinMax "m" (IFloat one))]) = Ok false).
Proof. vm_compute. done. Qed.

(** Maintenance removes a document a day after it was added, although it was
    found since: a search does not record the access. *)
Example maintenance_forgets :
  search "i" "walk" (demo_run (two_texts ++ [(23 * 3600 * second, OQueryInverted "i" "walk"); (day, OOptimize)])) = [].
Proof. vm_compute. reflexivity. Qed.

(** Creating an index again empties it and counts it twice. *)
Example created_twice :
  let sys := demo_run (two_texts ++ [(1, OCreateInverted "i" "c")]) in search "i" "walk" sys = [] /\ TotalIndexes sys = 2 /\ size (invertedIndexes sys) = 1%nat.
Proof. vm_compute. done. Qed.
End IndexDemo.
