(* ===== verification/Coordinator.v ===== *)
(** * Coordinating writes and queries (internal/coordinator/coordinator.go)

    The write coordinator sends a row to the node the hash ring has for its id;
    the query coordinator sends a query to the nodes that have the data, or to
    all, and combines their answers. Both go through a circuit breaker and
    retry. Also the choice of a node by load. *)

From S2P Require Import Prelude GoStrings GoTime GoFloat GoHeap GoOrder FieldMapping ConsistentHash Retry RedisLock Discovery TableExtractor Aggregation.
From Stdlib Require Import Ascii SpecFloat.
#[local] Open Scope Z_scope.

(** The part of the configuration the coordinators read. *)
Record CoordinatorConfig := mkCoordinatorConfig {
  HashRingReplicas : Z;
  LoadBalanceStrategy : string;
  MaxNodeLoad : spec_float;
  Redis_Enabled : bool;
}.

Definition DefaultLoadBalanceStrategy : string := "round_robin".
Definition DefaultMaxNodeLoad : spec_float := f64 90.
Definition MaxFloat64 : spec_float := S754_finite false 9007199254740991 971.

Definition fless (a b : spec_float) : bool := match SFcompare a b with Some Lt => true | _ => false end.

Definition fle (a b : spec_float) : bool := match SFcompare a b with Some Lt | Some Eq => true | _ => false end.

Record QueryPlan := mkQueryPlan {
  SQL : string; TargetNodes : list string; FileMapping : gmap string (list string); IsDistributed : bool }.
Record QueryResult := mkQueryResult { NodeID : string; Data : string; Error : string }.
Record NodeStatus := mkNodeStatus {
  st_ID : string; st_Address : string; st_Status : string; st_LastSeen : Z; st_ActiveQueries : Z; st_Load : spec_float }.

Definition node_addr (n : NodeInfo) : string := Address n +:+ ":" +:+ Port n.

(** ** Choosing a node *)

Record LoadBalancer := mkLoadBalancer { strategy : string; lb_cfg : option CoordinatorConfig; counter : Z }.

Definition NewLoadBalancer (cfg : option CoordinatorConfig) : LoadBalancer :=
  mkLoadBalancer
    (match cfg with
     | Some c => if bool_decide (LoadBalanceStrategy c = "") then DefaultLoadBalanceStrategy else LoadBalanceStrategy c
     | None => DefaultLoadBalanceStrategy
     end) cfg 0.

Definition filterHealthyNodes (lb : LoadBalancer) (nodes : list NodeInfo) (nodeStatus : gmap string NodeStatus) : list NodeInfo :=
  match lb_cfg lb with
  | None => nodes
  | Some cfg =>
      let maxLoad := if fle (MaxNodeLoad cfg) fzero then DefaultMaxNodeLoad else MaxNodeLoad cfg in
      List.filter (fun n => match nodeStatus !! ID n with Some st => fless (st_Load st) maxLoad | None => true end) nodes
  end.

(** The loop of the least load: the best node so far and its load. *)
Definition less_loaded (nodeStatus : gmap string NodeStatus) (best : option NodeInfo * spec_float) (n : NodeInfo) :
    option NodeInfo * spec_float :=
  let load := match nodeStatus !! ID n with Some st => st_Load st | None => fzero end in
  if fless load best.2 then (Some n, load) else best.

(** [random] is what [rand.Intn] returns. *)
Definition SelectNode (random : Z) (lb : LoadBalancer) (nodes : list NodeInfo) (nodeStatus : gmap string NodeStatus) :
    string * LoadBalancer :=
  match nodes with
  | [] => ("", lb)
  | _ =>
      let healthy := filterHealthyNodes lb nodes nodeStatus in
      let healthy := match healthy with [] => nodes | _ => healthy end in
      let first := match healthy with n :: _ => ID n | [] => "" end in
      if bool_decide (strategy lb = "least_load") then
        (match (foldl (less_loaded nodeStatus) (None, MaxFloat64) healthy).1 with Some n => ID n | None => first end, lb)
      else if bool_decide (strategy lb = "random") then
        (match healthy !! Z.to_nat random with Some n => ID n | None => "" end, lb)
      else
        let c := (counter lb + 1) mod 2 ^ 64 in
        (match healthy !! Z.to_nat (c mod Z.of_nat (length healthy)) with Some n => ID n | None => "" end,
         mkLoadBalancer (strategy lb) (lb_cfg lb) c)
  end.

(** [HealthChecker.IsNodeHealthy] *)
Definition NodeHealthy (cfg : option CoordinatorConfig) (id : string) (nodeStatus : gmap string NodeStatus) : bool :=
  match nodeStatus !! id with
  | None => false
  | Some st =>
      let maxLoad := match cfg with
        | Some c => if fless fzero (MaxNodeLoad c) then MaxNodeLoad c else DefaultMaxNodeLoad
        | None => DefaultMaxNodeLoad end in
      fless (st_Load st) maxLoad
  end.

(** ** The status of the nodes *)

Definition refresh_node (s : gmap string NodeStatus) (node : ServiceInfo) : gmap string NodeStatus :=
  let id := svc_NodeID node in
  let status := default (mkNodeStatus id (svc_Address node) (state_name (svc_State node)) zero_time 0 fzero) (s !! id) in
  <[id := match svc_Metrics node with
          | Some m => mkNodeStatus (st_ID status) (st_Address status) (st_Status status) (svc_LastSeen node)
                        (ActiveQueries m) (CPUPercent m)
          | None => mkNodeStatus (st_ID status) (st_Address status) (st_Status status) (svc_LastSeen node)
                      (st_ActiveQueries status) (st_Load status)
          end]> s.

(** [refreshNodeStatus], with what [DiscoverNodes] returned. *)
Definition refreshNodeStatus (nodes : result reg_error (list ServiceInfo)) (nodeStatus : gmap string NodeStatus) :
    gmap string NodeStatus :=
  match nodes with
  | Err _ => nodeStatus
  | Ok nodes =>
      base.filter (fun '(id, _) => id ∈ svc_NodeID <$> nodes) (foldl refresh_node nodeStatus nodes)
  end.

(** ** Writes *)

(** What [RouteWrite] returns: the node, or why not. *)
Inductive write_error := BreakerOpen | NodesUnknown | NoHealthyNodes | NoTarget | RemoteFailed (node : string) (e : Retry.do_error).

Record WriteCoordinator := mkWriteCoordinator {
  wc_cfg : option CoordinatorConfig; wc_ring : ConsistentHash.ConsistentHash; wc_breaker : Breaker.CircuitBreaker }.

Definition ring_replicas (cfg : option CoordinatorConfig) : Z :=
  match cfg with Some c => if 0 <? HashRingReplicas c then HashRingReplicas c else 150 | None => 150 end.

Definition NewWriteCoordinator (cfg : option CoordinatorConfig) : WriteCoordinator :=
  mkWriteCoordinator cfg (New (ring_replicas cfg)) (Breaker.NewCircuitBreaker Breaker.DefaultCircuitBreakerConfig).

Definition updateHashRing (nodes : list NodeInfo) (wc : WriteCoordinator) : WriteCoordinator :=
  mkWriteCoordinator (wc_cfg wc) (foldl (fun ring n => Add [node_addr n] ring) (New (ring_replicas (wc_cfg wc))) nodes) (wc_breaker wc).

(** The operation the breaker runs. *)
Definition choose_target (nodes : result reg_error (list NodeInfo)) (id : string) (wc : WriteCoordinator) :
    result write_error string * WriteCoordinator :=
  match nodes with
  | Err _ => (Err NodesUnknown, wc)
  | Ok [] => (Err NoHealthyNodes, wc)
  | Ok nodes =>
      let wc := updateHashRing nodes wc in
      let target := Get id (wc_ring wc) in
      (if bool_decide (target = "") then Err NoTarget else Ok target, wc)
  end.

Definition with_breaker (b : Breaker.CircuitBreaker) (wc : WriteCoordinator) : WriteCoordinator :=
  mkWriteCoordinator (wc_cfg wc) (wc_ring wc) b.

(** [nodes]: the answer of [GetHealthyNodes]; [self]: the registry's own node;
    [sends]: what becomes of the attempts to send the row to a node. *)
Definition RouteWrite (now now_fail : Z) (nodes : result reg_error (list NodeInfo)) (self : NodeInfo)
    (sends : string -> Z -> Retry.attempt) (id : string) (wc : WriteCoordinator) : result write_error string * WriteCoordinator :=
  match Breaker.admission now (wc_breaker wc) with
  | None => (Err BreakerOpen, wc)
  | Some b =>
      let '(chosen, wc) := choose_target nodes id wc in
      match chosen with
      | Err e => (Err e, with_breaker (Breaker.onFailure now_fail b) wc)
      | Ok target =>
          let wc := with_breaker (Breaker.onSuccess b) wc in
          if bool_decide (target = node_addr self) then (Ok "local", wc) else
          match Retry.res (Retry.Do Retry.DefaultConfig (sends target)) with
          | Ok _ => (Ok target, wc)
          | Err e => (Err (RemoteFailed target e), wc)
          end
      end
  end.

(** ** Queries *)

Inductive query_error := PlanFailed | QueryBreakerOpen | TimedOut | AllNodesFailed (errors : list string) | LocalFailed | MarshalRowsFailed.

(** Where the files of the tables are: [getDataDistribution]. [index]: the
    node and file of each key [file_index:table:*], or [None] if the scan fails;
    entries whose node or file cannot be read are left out by the code. *)
Definition add_file (d : gmap string (list string)) (entry : option string * option string) : gmap string (list string) :=
  match entry with
  | (Some node, Some file) => <[node := default [] (d !! node) ++ [file]]> d
  | _ => d
  end.

Fixpoint distribute (index : string -> option (list (option string * option string))) (tables : list string)
    (d : gmap string (list string)) : option (gmap string (list string)) :=
  match tables with
  | [] => Some d
  | table :: tables =>
      match index table with
      | None => None
      | Some entries => distribute index tables (foldl add_file d entries)
      end
  end.

Definition getDataDistribution (enabled : bool) (self : NodeInfo)
    (index : string -> option (list (option string * option string))) (tables : list string) : option (gmap string (list string)) :=
  if negb enabled then Some {[node_addr self := []]} else distribute index tables ∅.

Definition extractNodeIDFromAddr (addr : string) (nodes : list NodeInfo) : string :=
  match List.find (fun n => bool_decide (node_addr n = addr)) nodes with Some n => ID n | None => "" end.

Section query.
Context (Marshal : list row -> option string) (Unmarshal : string -> option (list row)).
Context (range : forall A, gmap string A -> list (string * A)).
Context (sort : (row -> row -> bool) -> list row -> list row).
Context (Sprint : any -> string) (toLower : string -> string).
(** The text of an error of [retry.Do]. *)
Context (err_text : Retry.do_error -> string).

Definition createQueryPlan (nodes : result reg_error (list NodeInfo)) (cfg : CoordinatorConfig) (self : NodeInfo)
    (index : string -> option (list (option string * option string))) (nodeStatus : gmap string NodeStatus) (sql : string) :
    result query_error QueryPlan :=
  match nodes with
  | Err _ => Err PlanFailed
  | Ok nodes =>
      if (length nodes <=? 1)%nat then Ok (mkQueryPlan sql [] ∅ false) else
      match getDataDistribution (Redis_Enabled cfg) self index (ExtractTableNames sql) with
      | None =>
          let healthy := map node_addr (List.filter (fun n => NodeHealthy (Some cfg) (ID n) nodeStatus) nodes) in
          Ok (mkQueryPlan sql (match healthy with [] => map node_addr nodes | _ => healthy end) ∅ true)
      | Some distribution =>
          let placed := List.filter (fun '(_, files) => negb (bool_decide (files = []))) (range (list string) distribution) in
          let targets := map fst placed in
          let healthy := List.filter (fun addr =>
            let id := extractNodeIDFromAddr addr nodes in
            negb (bool_decide (id = "")) && NodeHealthy (Some cfg) id nodeStatus) targets in
          Ok (mkQueryPlan sql (match healthy with [] => targets | _ => healthy end) (list_to_map placed)
            (1 <? length targets)%nat)
      end
  end.

(** What a node's attempts yield: the answer of the last one. *)
Definition node_result (attempts : string -> Z -> Retry.attempt) (answers : string -> Z -> string) (addr : string) : QueryResult :=
  let t := Retry.Do Retry.DefaultConfig (attempts addr) in
  match Retry.res t with
  | Ok _ => mkQueryResult addr (answers addr (Z.of_nat (length (Retry.calls t)))) ""
  | Err e => mkQueryResult addr "" (err_text e)
  end.

Definition succeeded (r : QueryResult) : bool := bool_decide (Error r = "").

Definition mergeResults (results : list string) (sql : string) : result query_error string :=
  let q := Analyze toLower sql in
  match Reduce Marshal Unmarshal range sort Sprint toLower (GetMapReduceStrategy q) results q with
  | Some s => Ok s
  | None => Err MarshalRowsFailed
  end.

Definition aggregateQueryResults (results : list QueryResult) (sql : string) : result query_error string :=
  let successResults := map Data (List.filter succeeded results) in
  let errors := map (fun r => "Node " +:+ NodeID r +:+ ": " +:+ Error r) (List.filter (fun r => negb (succeeded r)) results) in
  match successResults with
  | [] => Err (AllNodesFailed errors)
  | [s] => Ok s
  | _ => mergeResults successResults sql
  end.

(** [arrivals]: the nodes in the order their results arrive, up to the end of
    the context. *)
Definition executeDistributedPlan (now now_fail : Z) (arrivals : list string)
    (attempts : string -> Z -> Retry.attempt) (answers : string -> Z -> string) (plan : QueryPlan) (b : Breaker.CircuitBreaker) :
    result query_error string * Breaker.CircuitBreaker :=
  match Breaker.admission now b with
  | None => (Err QueryBreakerOpen, b)
  | Some b =>
      if (length arrivals <? length (TargetNodes plan))%nat then (Err TimedOut, Breaker.onFailure now_fail b)
      else (aggregateQueryResults (map (node_result attempts answers) arrivals) (SQL plan), Breaker.onSuccess b)
  end.

Definition ExecuteDistributedQuery (now now_fail : Z) (nodes : result reg_error (list NodeInfo)) (cfg : CoordinatorConfig) (self : NodeInfo)
    (index : string -> option (list (option string * option string))) (nodeStatus : gmap string NodeStatus)
    (local : string -> result query_error string) (arrivals : list string)
    (attempts : string -> Z -> Retry.attempt) (answers : string -> Z -> string) (sql : string) (b : Breaker.CircuitBreaker) :
    result query_error string * Breaker.CircuitBreaker :=
  match createQueryPlan nodes cfg self index nodeStatus sql with
  | Err e => (Err e, b)
  | Ok plan =>
      if negb (IsDistributed plan) then (local sql, b)
      else executeDistributedPlan now now_fail arrivals attempts answers plan b
  end.

(** *** The older ways of combining *)

Definition aggregateCountResults (results : list string) : option string :=
  let totalCount := foldl (fun total r => foldl (fun total '(_, value) =>
      match value with Float64 f => int64 (total + int_of_float f) | _ => total end) total (range any r))
    0 (all_rows Unmarshal results) in
  Marshal [{["count" := Int totalCount]}].

Definition aggregateSumResults (results : list string) : option string :=
  let totalSum := foldl (fun total r => foldl (fun total '(_, value) =>
      match value with Float64 f => fadd total f | _ => total end) total (range any r))
    fzero (all_rows Unmarshal results) in
  Marshal [{["sum" := Float64 totalSum]}].

Definition unionResults (results : list string) : option string := MarshalSlice Marshal (all_rows Unmarshal results).
End query.
