(* ===== verification/CoordinatorTheorems.v ===== *)
(** * What the coordinators guarantee (internal/coordinator/coordinator.go)

    Distributed top-n queries, from the plan to the answer; where a write goes;
    how nodes are chosen; and what the coordinators do not notice. *)

From S2P Require Import Prelude GoStrings GoTime GoFloat GoHeap GoOrder FieldMapping ConsistentHash Retry RedisLock Discovery TableExtractor Aggregation AggregationTheorems Coordinator.
From Stdlib Require Import Ascii SpecFloat.
#[local] Open Scope Z_scope.

(** ** Queries *)

Section query.
Context (Marshal : list row -> option string) (Unmarshal : string -> option (list row)) (plain : row -> Prop).
Context `{!JsonRows Marshal Unmarshal plain}.
Context (range : forall A, gmap string A -> list (string * A)).
Context (sort : (row -> row -> bool) -> list row -> list row) `{!SliceSort sort}.
Context (Sprint : any -> string) (toLower : string -> string) (err_text : Retry.do_error -> string).

Lemma topn_limit q : GetMapReduceStrategy q = topn_merge -> 0 < Limit q.
Proof.
  unfold GetMapReduceStrategy. destruct (_ <? length (GroupByKeys q))%nat; [done|]. destruct (existsb _ _); [done|].
  destruct (_ <? length (Aggregations q))%nat; [done|]. destruct ((_ <? length (OrderByKeys q))%nat && (0 <? Limit q)) eqn:E; [|done].
  intros _. apply andb_true_iff in E as [_ E%Z.ltb_lt]. done.
Qed.

(** When every node succeeds, the answers of all are merged. *)
Lemma aggregate_all results sql :
  forallb succeeded results = true -> (2 <= length results)%nat ->
  aggregateQueryResults Marshal Unmarshal range sort Sprint toLower results sql =
  mergeResults Marshal Unmarshal range sort Sprint toLower (map Data results) sql.
Proof.
  intros Hs Hl. unfold aggregateQueryResults. assert (List.filter succeeded results = results) as ->.
  { clear Hl. induction results as [|r results IH]; [done|]. cbn in *. apply andb_true_iff in Hs as [-> Hs]. by rewrite IH. }
  destruct results as [|a [|b l]]; cbn in Hl; [lia..|]. done.
Qed.

(** Nodes that failed leave no trace in the answer, if one succeeded. *)
Lemma failed_nodes_left_out results sql :
  List.filter succeeded results <> [] ->
  aggregateQueryResults Marshal Unmarshal range sort Sprint toLower results sql =
  aggregateQueryResults Marshal Unmarshal range sort Sprint toLower (List.filter succeeded results) sql.
Proof.
  intros Hne. unfold aggregateQueryResults.
  assert (forall l, List.filter succeeded (List.filter succeeded l) = List.filter succeeded l) as ->.
  { induction l as [|r l IH]; [done|]. cbn. destruct (succeeded r) eqn:E; cbn; [by rewrite E, IH|done]. }
  by destruct (List.filter succeeded results).
Qed.

(** C21: [executeDistributedPlan] of an ORDER BY ... LIMIT n statement over at
    least two target nodes, of which none fails and which the breaker
    admits. Let every target node answer with the first n of the rows it
    has, by the first ordering key, and let the values of that column be
    numbers or be texts (or be missing). Then, in whatever order the
    answers arrive, the query succeeds and its answer reads as rows in the
    order of the first key which are a first n of the rows of all target
    nodes, rows with equal keys being interchangeable. *)
Theorem distributed_topn_correct now now_fail arrivals attempts answers plan b ob obs
    (rows_at answer_of : string -> list row) :
  let q := Analyze toLower (SQL plan) in
  GetMapReduceStrategy q = topn_merge -> OrderByKeys q = ob :: obs ->
  is_Some (Breaker.admission now b) -> arrivals ≡ₚ TargetNodes plan -> (2 <= length (TargetNodes plan))%nat ->
  (forall addr, addr ∈ TargetNodes plan ->
     first_n (row_less ob) (Z.to_nat (Limit q)) (rows_at addr) (answer_of addr) /\
     Error (node_result err_text attempts answers addr) = "" /\
     Unmarshal (Data (node_result err_text attempts answers addr)) = Some (answer_of addr)) ->
  comparable (Ob_Column ob) (concat (map rows_at (TargetNodes plan))) ->
  exists answer rows,
    (executeDistributedPlan Marshal Unmarshal range sort Sprint toLower err_text now now_fail arrivals attempts answers plan b).1 = Ok answer /\
    Unmarshal answer = Some rows /\ in_order (row_less ob) rows /\
    first_n (row_less ob) (Z.to_nat (Limit q)) (concat (map rows_at (TargetNodes plan))) rows.
Proof using JsonRows0 SliceSort0.
  intros q Hq Hob [b' Hb] Hperm Hlen Hnodes Hcmp. unfold executeDistributedPlan. rewrite Hb.
  pose proof (Permutation_length Hperm) as Hl. destruct (Nat.ltb_spec (length arrivals) (length (TargetNodes plan))); [lia|]. cbn [fst].
  assert (concat (map rows_at arrivals) ≡ₚ concat (map rows_at (TargetNodes plan))) as Hrows.
  { clear -Hperm. induction Hperm; cbn; [done|by f_equiv| |by etransitivity].
    rewrite !app_assoc. apply Permutation_app_tail, Permutation_app_comm. }
  rewrite aggregate_all; [|apply forallb_forall; intros r Hr|rewrite length_map; lia].
  2: { apply in_map_iff in Hr as (addr & <- & Hin%list_elem_of_In). rewrite Hperm in Hin.
       apply bool_decide_eq_true_2. by apply Hnodes. }
  unfold mergeResults. fold q. rewrite Hq. cbn [Reduce].
  destruct (topn_merge_first Marshal Unmarshal plain sort (map rows_at arrivals) (map answer_of arrivals)
    (map Data (map (node_result err_text attempts answers) arrivals)) q ob obs) as (answer & rows & -> & Hu & Hs & Hf).
  - done.
  - by apply topn_limit.
  - destruct Hcmp as [Hc|Hc]; [left|right]; by rewrite Hrows.
  - apply Forall2_fmap_2, Forall_Forall2_diag, Forall_forall. intros addr Hin. rewrite Hperm in Hin. by apply Hnodes.
  - rewrite map_map. apply Forall2_fmap_2, Forall_Forall2_diag, Forall_forall. intros addr Hin. rewrite Hperm in Hin. by apply Hnodes.
  - exists answer, rows. split_and!; [done..|]. by eapply top_perm.
Qed.
End query.

(** ** Writes *)

Definition ring_of (n : Z) (addrs : list string) : ConsistentHash := foldl (fun ring a => Add [a] ring) (New n) addrs.

Lemma ring_of_spec n addrs :
  0 < n -> ring_ok (ring_of n addrs) /\ (addrs <> [] -> keys (ring_of n addrs) <> []) /\
  forall k a, hashMap (ring_of n addrs) !! k = Some a -> a ∈ addrs.
Proof.
  intros Hn. unfold ring_of. induction addrs as [|a addrs IH] using rev_ind.
  { split_and!; [apply ring_ok_new|done|]. intros k a. cbn. by rewrite lookup_empty. }
  rewrite foldl_app. cbn [foldl]. destruct IH as (Hok & _ & Hm).
  assert (replicas (foldl (fun ring a => Add [a] ring) (New n) addrs) = n) as Hr.
  { clear. induction addrs as [|x addrs IH] using rev_ind; [done|]. rewrite foldl_app. cbn [foldl].
    unfold Add. destruct (foldl (fun s node => add_node s _ node) _ _). cbn. exact IH. }
  set (c := foldl _ _ addrs) in *. destruct (Add_one a c) as (Hp & _ & Hm'). rewrite Hr in *. split_and!.
  - by apply Add_ok.
  - intros _ E. rewrite E in Hp. apply Permutation_length in Hp. cbn in Hp. rewrite length_app in Hp.
    unfold vnodes in Hp. rewrite length_fmap, length_seq in Hp. lia.
  - intros k x. rewrite Hm'. rewrite elem_of_app, list_elem_of_singleton. destruct (bool_decide _); [intros [= <-]; by right|].
    intros H. left. by eapply Hm.
Qed.

Lemma ring_get n addrs key : 0 < n -> addrs <> [] -> Get key (ring_of n addrs) ∈ addrs.
Proof.
  intros Hn Hne. destruct (ring_of_spec n addrs Hn) as ([Hs Ho] & Hk & Hm).
  destruct (Get_succ key _ Hs (Hk Hne)) as (k & [Hin _] & ->). destruct (Ho k Hin) as [a Ha]. rewrite Ha. cbn. by eapply Hm.
Qed.

Lemma ring_replicas_pos cfg : 0 < ring_replicas cfg.
Proof. unfold ring_replicas. destruct cfg as [c|]; [|lia]. destruct (Z.ltb_spec 0 (HashRingReplicas c)); lia. Qed.

Lemma addr_not_empty n : node_addr n <> "".
Proof. unfold node_addr. by destruct (Address n). Qed.

Lemma updated_ring nodes wc : wc_ring (updateHashRing nodes wc) = ring_of (ring_replicas (wc_cfg wc)) (map node_addr nodes).
Proof.
  unfold updateHashRing, ring_of. cbn. generalize (New (ring_replicas (wc_cfg wc))).
  induction nodes as [|n nodes IH]; intros c; [done|]. apply IH.
Qed.

(** Where a write goes. When the breaker lets it pass and there are healthy
    nodes, the target is one of them, chosen by the id alone among these nodes;
    the result is local if it is this node's address, and otherwise the target
    if one of the attempts to send succeeds, and an error naming it if not. *)
Theorem write_routed now now_fail nodes self sends id wc :
  is_Some (Breaker.admission now (wc_breaker wc)) -> nodes <> [] ->
  let target := Get id (ring_of (ring_replicas (wc_cfg wc)) (map node_addr nodes)) in
  target ∈ map node_addr nodes /\
  (RouteWrite now now_fail (Ok nodes) self sends id wc).1 =
    if decide (target = node_addr self) then Ok "local"
    else match Retry.res (Retry.Do Retry.DefaultConfig (sends target)) with
         | Ok _ => Ok target
         | Err e => Err (RemoteFailed target e)
         end.
Proof.
  intros [b Hb] Hne target. assert (target ∈ map node_addr nodes) as Hin.
  { apply ring_get; [apply ring_replicas_pos|]. by destruct nodes. }
  split; [done|]. unfold RouteWrite. rewrite Hb.
  assert (choose_target (Ok nodes) id wc = (Ok target, updateHashRing nodes wc)) as ->.
  { unfold choose_target. destruct nodes as [|n nodes]; [done|]. rewrite updated_ring. fold target.
    rewrite bool_decide_eq_false_2; [done|]. intros E. rewrite E in Hin.
    apply list_elem_of_In, in_map_iff in Hin as (m & Hm & _). by apply addr_not_empty in Hm. }
  destruct (decide (target = node_addr self)); [by rewrite bool_decide_eq_true_2|].
  rewrite bool_decide_eq_false_2 by done. by destruct (Retry.res _).
Qed.

(** A node on its own does not know itself. Without Redis the registry has
    one node, whose address already ends in the port; with the port added again
    it is never the address the coordinator takes for local, so a write is sent
    to an address that is none. *)
Theorem single_node_never_local {R} `{!RegistryCommands R} unmarshal range net (r : R) t0 id port now now_fail now' sends key wc nodes r' :
  let sr := NewServiceRegistry false id port t0 in
  GetHealthyNodes unmarshal range net now sr r = (Ok nodes, r') ->
  map node_addr nodes = ["localhost:" +:+ port +:+ ":" +:+ port] /\ node_addr (nodeInfo sr) = "localhost:" +:+ port /\
  (RouteWrite now' now_fail (Ok nodes) (nodeInfo sr) sends key wc).1 <> Ok "local".
Proof.
  intros sr [= <- <-]. cbn [map node_addr node_of Address Port nodeInfo sr NewServiceRegistry].
  assert ("localhost:" +:+ port +:+ ":" +:+ port <> "localhost:" +:+ port) as Hne.
  { intros E%(f_equal String.length). rewrite !string_length_app in E. cbn in E. lia. }
  split_and!; [done..|]. unfold RouteWrite. destruct (Breaker.admission now' (wc_breaker wc)) as [b|]; [|done].
  unfold choose_target. destruct (bool_decide (Get key _ = "")); [done|]. rewrite updated_ring.
  set (target := Get key _). assert (target = "localhost:" +:+ port +:+ ":" +:+ port) as Et.
  { apply list_elem_of_singleton. apply (ring_get (ring_replicas (wc_cfg wc)) [_] key); [apply ring_replicas_pos|done]. }
  rewrite bool_decide_eq_false_2 by (rewrite Et; exact Hne).
  destruct (Retry.res _); [|done]. intros [= E]. rewrite Et in E. clear -E.
  apply (f_equal String.length) in E. rewrite !string_length_app in E. cbn in E. lia.
Qed.

(** ** Choosing a node *)

(** The healthy nodes, or all if none is. *)
Definition candidates (lb : LoadBalancer) (nodes : list NodeInfo) (nodeStatus : gmap string NodeStatus) : list NodeInfo :=
  match filterHealthyNodes lb nodes nodeStatus with [] => nodes | h => h end.

Fixpoint selections (k : nat) (random : Z) (lb : LoadBalancer) (nodes : list NodeInfo) (nodeStatus : gmap string NodeStatus) : list string :=
  match k with
  | O => []
  | S k => let '(id, lb) := SelectNode random lb nodes nodeStatus in id :: selections k random lb nodes nodeStatus
  end.

Definition id_at (l : list NodeInfo) (i : Z) : string := match l !! Z.to_nat i with Some n => ID n | None => "" end.

Definition rotates (lb : LoadBalancer) : Prop := strategy lb <> "least_load" /\ strategy lb <> "random".

Lemma select_rotates random lb nodes nodeStatus :
  rotates lb -> nodes <> [] -> 0 <= counter lb -> counter lb + 1 < 2 ^ 64 ->
  SelectNode random lb nodes nodeStatus =
  (id_at (candidates lb nodes nodeStatus) ((counter lb + 1) mod Z.of_nat (length (candidates lb nodes nodeStatus))),
   mkLoadBalancer (strategy lb) (lb_cfg lb) (counter lb + 1)).
Proof.
  intros [H1 H2] Hne H0 H64. unfold SelectNode. destruct nodes as [|n nodes]; [done|].
  rewrite !bool_decide_eq_false_2 by done. rewrite (Z.mod_small (counter lb + 1)) by lia. unfold candidates, id_at.
  by destruct (filterHealthyNodes _ _ _).
Qed.

Lemma selections_rotate k random lb nodes nodeStatus :
  rotates lb -> nodes <> [] -> 0 <= counter lb -> counter lb + Z.of_nat k < 2 ^ 64 ->
  let c := candidates lb nodes nodeStatus in
  selections k random lb nodes nodeStatus =
  map (fun i => id_at c ((counter lb + 1 + Z.of_nat i) mod Z.of_nat (length c))) (seq 0 k).
Proof.
  intros Hr Hne. revert lb Hr. induction k as [|k IH]; intros lb Hr H0 Hk c; [done|]. cbn [selections].
  rewrite select_rotates by (done || lia). rewrite IH by (done || cbn; lia). cbn [seq map counter]. rewrite Z.add_0_r. f_equal.
  rewrite <- seq_shift, map_map. change (candidates (mkLoadBalancer (strategy lb) (lb_cfg lb) (counter lb + 1)) nodes nodeStatus) with c.
  apply map_ext. intros i. do 2 f_equal. lia.
Qed.

(** Consecutive numbers hit every residue. *)
Lemma residues_perm (n : nat) c :
  (0 < n)%nat -> map (fun i => Z.to_nat ((c + Z.of_nat i) mod Z.of_nat n)) (seq 0 n) ≡ₚ seq 0 n.
Proof.
  intros Hn. apply submseteq_length_Permutation; [|by rewrite length_map].
  apply NoDup_submseteq.
  - apply NoDup_fmap_2_strong; [|apply NoDup_ListNoDup, seq_NoDup]. intros i j Hi%elem_of_seq Hj%elem_of_seq E.
    apply Z2Nat.inj in E; [|apply Z.mod_pos_bound; lia..].
    assert ((Z.of_nat i - Z.of_nat j) mod Z.of_nat n = 0) as Hz.
    { replace (Z.of_nat i - Z.of_nat j) with ((c + Z.of_nat i) - (c + Z.of_nat j)) by lia.
      by rewrite Zminus_mod, E, Z.sub_diag, Z.mod_0_l by lia. }
    apply Z.mod_divide in Hz as [q Hq]; [|lia]. assert (q = 0) by nia. lia.
  - intros x (i & -> & _)%list_elem_of_fmap. apply elem_of_seq.
    pose proof (Z.mod_pos_bound (c + Z.of_nat i) (Z.of_nat n) ltac:(lia)). lia.
Qed.

Lemma ids_by_position (l : list NodeInfo) : map (fun i => id_at l (Z.of_nat i)) (seq 0 (length l)) = map ID l.
Proof.
  unfold id_at. induction l as [|n l IH]; [done|]. cbn [length seq map]. f_equal. rewrite <- seq_shift, map_map. rewrite <- IH.
  apply map_ext. intros i. by rewrite !Nat2Z.id.
Qed.

(** Round robin is fair. With n nodes to choose from (the healthy ones, or
    all if none is healthy) any n calls in a row choose each of them once, as
    long as the 64-bit counter does not wrap around in between. *)
Theorem round_robin_fair random lb nodes nodeStatus :
  strategy lb <> "least_load" -> strategy lb <> "random" -> nodes <> [] ->
  0 <= counter lb -> counter lb + Z.of_nat (length (candidates lb nodes nodeStatus)) < 2 ^ 64 ->
  selections (length (candidates lb nodes nodeStatus)) random lb nodes nodeStatus ≡ₚ map ID (candidates lb nodes nodeStatus).
Proof.
  intros H1 H2 Hne H0 Hlt. rewrite selections_rotate by done. cbv zeta. set (c := candidates lb nodes nodeStatus) in *.
  assert (0 < length c)%nat as Hc.
  { subst c. unfold candidates. destruct (filterHealthyNodes _ _ _); [|cbn; lia]. destruct nodes; [done|cbn; lia]. }
  rewrite <- (ids_by_position c).
  pose proof (residues_perm (length c) (counter lb + 1) Hc) as Hp.
  apply (Permutation_map (fun i => id_at c (Z.of_nat i))) in Hp. rewrite <- Hp, map_map. apply Permutation_refl'.
  apply map_ext. intros i. rewrite Z2Nat.id; [done|]. apply Z.mod_pos_bound. lia.
Qed.

(** ** The load of the nodes *)

(** The load of a node is never known. Discovery reads what nodes wrote when
    they registered, which has no metrics; so every status starts with load 0
    and keeps it, and the health check by load lets every node pass that is
    known at all (for the default limit and every positive one). *)
Theorem load_never_known nodes nodeStatus cfg id st :
  (forall v, v ∈ nodes -> svc_Metrics v = None) -> map_Forall (fun _ s => st_Load s = fzero) nodeStatus ->
  let nodeStatus' := refreshNodeStatus (Ok nodes) nodeStatus in
  map_Forall (fun _ s => st_Load s = fzero) nodeStatus' /\
  (nodeStatus' !! id = Some st -> NodeHealthy cfg id nodeStatus' = true).
Proof.
  intros Hm Hst nodeStatus'. assert (map_Forall (fun _ s => st_Load s = fzero) nodeStatus') as Hall.
  { subst nodeStatus'. cbn [refreshNodeStatus].
    assert (map_Forall (fun _ s => st_Load s = fzero) (foldl refresh_node nodeStatus nodes)) as Hf;
      [|intros i s [Hs _]%map_lookup_filter_Some; by apply (Hf i)].
    revert nodeStatus Hst. induction nodes as [|v nodes IH]; intros s Hs; [done|]. cbn [foldl].
    apply IH; [intros; apply Hm; by right|]. unfold refresh_node. rewrite Hm by (by left).
    apply map_Forall_insert_2; [|done]. cbn. destruct (s !! svc_NodeID v) eqn:E; [|done]. by apply (Hs _ _ E). }
  split; [done|]. intros E. unfold NodeHealthy. rewrite E, (Hall _ _ E). destruct cfg as [c|]; [|done].
  by destruct (fless fzero (MaxNodeLoad c)) eqn:Ef.
Qed.

(** ** A cluster of two *)

Module CoordinatorDemo.
Import AggregationDemo.

Definition price (n : Z) : row := {["price" := Float64 (f64 n)]}.
Definition by_price : OrderBy := mkOrderBy "price" OrderDesc.
Definition rows_at (addr : string) : list row :=
  if bool_decide (addr = "n1:7000") then [price 5; price 1; price 7] else [price 9; price 6].
Definition answer_of (addr : string) : list row :=
  if bool_decide (addr = "n1:7000") then [price 7; price 5] else [price 9; price 6].

(** Every first attempt succeeds. *)
Definition at_once (_ : string) (_ : Z) : Retry.attempt := Retry.mkAttempt None false false 0.
Definition answers (addr : string) (_ : Z) : string := encode_text (answer_of addr).
Definition failed (_ : Retry.do_error) : string := "failed".
Definition top_plan : QueryPlan := mkQueryPlan "SELECT * FROM sales ORDER BY price DESC LIMIT 2" ["n1:7000"; "n2:7000"] ∅ true.
Definition breaker : Breaker.CircuitBreaker := Breaker.NewCircuitBreaker Breaker.DefaultCircuitBreakerConfig.

Lemma top_plan_limit : Limit (Analyze ToLower (SQL top_plan)) = 2.
Proof. vm_compute. reflexivity. Qed.

(** Two nodes hold five rows; the answers arrive in the other order. *)
Lemma distributed_topn_correct_witness :
  exists answer rows,
    (executeDistributedPlan text_of rows_of map_range insertion_sort show ToLower failed 0 0 ["n2:7000"; "n1:7000"]
       at_once answers top_plan breaker).1 = Ok answer /\
    rows_of answer = Some rows /\ in_order (row_less by_price) rows /\
    first_n (row_less by_price) (Z.to_nat (Limit (Analyze ToLower (SQL top_plan))))
      (concat (map rows_at (TargetNodes top_plan))) rows.
Proof.
  apply (distributed_topn_correct text_of rows_of (fun _ => True) map_range insertion_sort show ToLower failed 0 0
    ["n2:7000"; "n1:7000"] at_once answers top_plan breaker by_price [] rows_at answer_of).
  - vm_compute. reflexivity.
  - vm_compute. reflexivity.
  - vm_compute. eauto.
  - apply perm_swap.
  - cbn. lia.
  - intros addr Haddr. split; [|split; [reflexivity|]].
    2: { change (rows_of (encode_text (answer_of addr)) = Some (answer_of addr)). apply rows_of_text. }
    rewrite top_plan_limit. cbn in Haddr. apply elem_of_cons in Haddr as [-> | ->%list_elem_of_singleton].
    + exists [price 1]. split_and!; [|reflexivity|].
      * change (rows_at "n1:7000") with ([price 5; price 1] ++ [price 7]). rewrite Permutation_app_comm. reflexivity.
      * intros x y Hx ->%list_elem_of_singleton. apply elem_of_cons in Hx as [-> | ->%list_elem_of_singleton]; reflexivity.
    + exists []. split_and!; [reflexivity|reflexivity|]. intros x y _ Hy. by apply elem_of_nil in Hy.
  - left. repeat constructor; vm_compute; discriminate.
Defined.

Definition n1 : NodeInfo := mkNodeInfo "n1" "10.0.0.1" "7000" StateOnline 0.
Definition n2 : NodeInfo := mkNodeInfo "n2" "10.0.0.2" "7000" StateOnline 0.
Definition writer : WriteCoordinator := NewWriteCoordinator (Some (mkCoordinatorConfig 1 "" fzero true)).

Lemma write_routed_witness :
  let target := Get "row-1" (ring_of (ring_replicas (wc_cfg writer)) (map node_addr [n1; n2])) in
  target ∈ map node_addr [n1; n2] /\
  (RouteWrite 0 0 (Ok [n1; n2]) (mkNodeInfo "n0" "localhost" "7000" StateOnline 0) at_once "row-1" writer).1 = Ok target.
Proof.
  destruct (write_routed 0 0 [n1; n2] (mkNodeInfo "n0" "localhost" "7000" StateOnline 0) at_once "row-1" writer) as [H1 H2];
    [vm_compute; eauto|discriminate|].
  cbv zeta in H1, H2 |- *. split; [exact H1|]. rewrite H2. vm_compute. reflexivity.
Defined.

Lemma single_node_never_local_witness :
  map node_addr (match (GetHealthyNodes (R := unit) (RegistryCommands0 := Build_RegistryCommands unit
    (fun _ _ => ∅) (fun _ _ _ r => r) (fun _ _ r => r) (fun _ _ _ => None) (fun _ _ _ _ r => r) (fun _ _ _ r => r) (fun _ _ r => r)
    (fun _ _ _ _ => []) (fun _ _ r => r) (fun _ _ _ r => r)) (fun _ => None) map_range (fun _ => Answered) 5
    (NewServiceRegistry false "n1" "7000" 0) tt).1 with Ok nodes => nodes | Err _ => [] end) = ["localhost:7000:7000"].
Proof.
  refine (proj1 (single_node_never_local (R := unit) (RegistryCommands0 := Build_RegistryCommands unit
    (fun _ _ => ∅) (fun _ _ _ r => r) (fun _ _ r => r) (fun _ _ _ => None) (fun _ _ _ _ r => r) (fun _ _ _ r => r) (fun _ _ r => r)
    (fun _ _ _ _ => []) (fun _ _ r => r) (fun _ _ _ r => r)) (fun _ => None) map_range (fun _ => Answered) tt 0 "n1" "7000" 5 0 5
    at_once "row-1" writer _ tt _)). reflexivity.
Defined.

Lemma round_robin_fair_witness :
  selections 2 0 (NewLoadBalancer None) [n1; n2] ∅ ≡ₚ ["n1"; "n2"].
Proof. apply (round_robin_fair 0 (NewLoadBalancer None) [n1; n2] ∅); [discriminate|discriminate|discriminate|discriminate|reflexivity]. Defined.

Definition service_1 : ServiceInfo := mkServiceInfo "n1" "10.0.0.1" "7000" StateOnline "online" 0 0 None ∅ None.

Lemma load_never_known_witness :
  NodeHealthy (Some (mkCoordinatorConfig 1 "least_load" (f64 50) true)) "n1" (refreshNodeStatus (Ok [service_1]) ∅) = true.
Proof.
  apply (load_never_known [service_1] ∅ (Some (mkCoordinatorConfig 1 "least_load" (f64 50) true)) "n1"
    (mkNodeStatus "n1" "10.0.0.1" "online" 0 0 fzero)).
  - intros v ->%list_elem_of_singleton. reflexivity.
  - apply map_Forall_empty.
  - vm_compute. reflexivity.
Defined.

(** One node of two answers: the query succeeds with its rows alone. *)
Definition only_n1 (addr : string) (_ : Z) : Retry.attempt :=
  Retry.mkAttempt (if bool_decide (addr = "n1:7000") then None else Some (Retry.mkError true 1)) false false 0.

Lemma half_an_answer :
  (executeDistributedPlan text_of rows_of map_range insertion_sort show ToLower failed 0 0 ["n2:7000"; "n1:7000"]
     only_n1 answers top_plan breaker).1 = Ok (encode_text [price 7; price 5]).
Proof. vm_compute. reflexivity. Qed.
End CoordinatorDemo.
