(* ===== verification/Pruning.v ===== *)
(** * File pruning (internal/query/file_pruning.go)

    Before a query runs, the files of its table are thinned out: by the day in
    their path against the time range the statement asks for, and by the
    minimum and maximum of their columns against the comparisons the statement
    makes. Both are read off the text of the statement with regular
    expressions. The statistics come from the Parquet footer
    (internal/storage/parquet_reader.go) and are converted when they are
    loaded (internal/query/query.go). *)

From S2P Require Import Prelude GoStrings GoTime GoHeap GoOrder FieldMapping.
From Stdlib Require Import Ascii SpecFloat.
#[local] Open Scope Z_scope.

(** ** Data *)

(** The dynamic types of a bound or a literal; [OtherV] stands for a value of
    any other type by the text the [%v] verb gives for it. *)
Inductive stat_value :=
  | IntV (z : Z)
  | FloatV (f : spec_float)
  | StringV (s : string)
  | TimeV (t : Z)
  | OtherV (text : string).

Inductive operator := OpGe | OpLe | OpGt | OpLt | OpEq.

Record Predicate := mkPredicate { Column : string; Operator : operator; Value : stat_value }.

(** What pruning reads of [storage.FileMetadata]. *)
Record FileMetadata := mkFileMetadata {
  FilePath : string;
  RowCount : Z;
  MinValues : gmap string stat_value;
  MaxValues : gmap string stat_value;
}.

Record TimeRange := mkTimeRange { MinTime : Z; MaxTime : Z; HasMin : bool; HasMax : bool }.

Record OptimizedQuery := mkOptimizedQuery {
  SelectedFiles : list FileMetadata;
  Predicates : list Predicate;
  FilesSkipped : Z;
  EstimatedRows : Z;
}.

(** ** Regular expressions

    The patterns have the shape: word or column name, blanks, operator,
    blanks, literal. The classes at each seam are disjoint, so the greedy
    match is the only one. *)

Definition not_quote (c : ascii) : bool := negb (N_of_ascii c =? 39)%N.

Definition op_text (op : operator) : string :=
  match op with OpGe => ">=" | OpLe => "<=" | OpGt => ">" | OpLt => "<" | OpEq => "=" end.

(** ['([^']* )'] or [(\d+)] *)
Definition match_literal (quoted : bool) (s : string) : option (string * string) :=
  if quoted then
    match s with
    | String "'" s' =>
        match span not_quote s' with (v, String _ r) => Some (v, r) | (_, "") => None end
    | _ => None
    end
  else match span is_digit s with ("", _) => None | (v, r) => Some (v, r) end.

(** Operator and literal, with blanks before each. *)
Definition match_comparison (op : operator) (quoted : bool) (s : string) : option (string * string) :=
  r ← cut_prefix (op_text op) (span is_blank s).2; match_literal quoted (span is_blank r).2.

(** The pattern of [comparisonPatterns] at the start of the text. *)
Definition match_predicate (op : operator) (quoted : bool) (s : string)
    : option (string * string * string) :=
  match span is_word s with
  | ("", _) => None
  | (w, r) => '(v, r) ← match_comparison op quoted r; Some (w, v, r)
  end.

(** [FindAllStringSubmatch]; every match consumes text. *)
Fixpoint find_all (fuel : nat) (op : operator) (quoted : bool) (s : string) : list (string * string) :=
  match fuel with
  | O => []
  | S fuel =>
      match match_predicate op quoted s with
      | Some (w, v, r) => (w, v) :: find_all fuel op quoted r
      | None => match s with "" => [] | String _ s' => find_all fuel op quoted s' end
      end
  end.

(** The pattern of [getTimeConditionPattern], anywhere in the text:
    [FindStringSubmatch], the group only. *)
Fixpoint find_condition (column : string) (op : operator) (s : string) : option string :=
  match (r ← cut_prefix column s; match_comparison op true r) with
  | Some (v, _) => Some v
  | None => match s with "" => None | String _ s' => find_condition column op s' end
  end.

(** ** Comparing values *)

Section pruning.
(** [strings.ToLower] on arbitrary text, [strconv.ParseFloat], and how the
    [%v] verb shows a float and a time. *)
Context (ToLower_ : string -> string) (ParseFloat : string -> option spec_float).
Context (show_float : spec_float -> string) (show_time : Z -> string).

Definition show (v : stat_value) : string :=
  match v with
  | IntV z => Itoa z
  | FloatV f => show_float f
  | StringV s => s
  | TimeV t => show_time t
  | OtherV s => s
  end.

Definition compareValues (a b : stat_value) : Z :=
  match a, b with
  | IntV x, IntV y => ord (x ?= y)
  | FloatV x, FloatV y => match SFcompare x y with Some c => ord c | None => 0 end
  | StringV x, StringV y => ord (String.compare x y)
  | TimeV x, TimeV y => ord (x ?= y)
  | _, _ => ord (String.compare (show a) (show b))
  end.

Definition rangeMatchesPredicate (minVal maxVal : stat_value) (pred : Predicate) : bool :=
  match Operator pred with
  | OpGt => 0 <? compareValues maxVal (Value pred)
  | OpGe => 0 <=? compareValues maxVal (Value pred)
  | OpLt => compareValues minVal (Value pred) <? 0
  | OpLe => compareValues minVal (Value pred) <=? 0
  | OpEq => (compareValues minVal (Value pred) <=? 0) && (0 <=? compareValues maxVal (Value pred))
  end.

Definition fileMatchesPredicates (file : FileMetadata) (predicates : list Predicate) : bool :=
  forallb (fun pred =>
    match MinValues file !! Column pred, MaxValues file !! Column pred with
    | Some minVal, Some maxVal => rangeMatchesPredicate minVal maxVal pred
    | _, _ => true
    end) predicates.

Definition PruneFiles (files : list FileMetadata) (predicates : list Predicate) : list FileMetadata :=
  match predicates with
  | [] => files
  | _ => List.filter (fun file => fileMatchesPredicates file predicates) files
  end.

(** ** Reading the statement *)

(** A number if it reads as one. *)
Definition typed_value (value : string) : stat_value :=
  match ParseInt64 value with
  | Some n => IntV n
  | None => match ParseFloat value with Some f => FloatV f | None => StringV value end
  end.

Definition comparisonPatterns : list (operator * bool) :=
  [(OpGe, true); (OpLe, true); (OpGt, true); (OpLt, true); (OpEq, true);
   (OpGe, false); (OpLe, false); (OpGt, false); (OpLt, false); (OpEq, false)].

Definition parseSimplePredicates (whereClause : string) : list Predicate :=
  mjoin ((fun '(op, quoted) =>
    (fun '(column, value) => mkPredicate column op (typed_value value))
      <$> find_all (S (String.length whereClause)) op quoted whereClause) <$> comparisonPatterns).

Definition endKeywords : list string := [" group "; " order "; " limit "; " having "].

(** The lower-cased text from behind [where] to the next clause. *)
Definition where_clause (sql : string) : option string :=
  '(_, clause) ← cut "where" (ToLower_ sql);
  Some (foldl (fun clause kw => match cut kw clause with Some (a, _) => a | None => clause end)
              clause endKeywords).

Definition ExtractPredicates (sql : string) : list Predicate :=
  match where_clause sql with None => [] | Some clause => parseSimplePredicates clause end.

(** ** Time partitions *)

Definition timeFormats : list layout :=
  [DateTime " " NoZone; DateTime "T" NoZone; DateTime "T" LiteralZ; DateTime "T" LiteralZ; DateOnly;
   DateTime "T" ZoneOffset; DateTime "T" ZoneOffset].

Fixpoint first_parse (formats : list layout) (value : string) : option Z :=
  match formats with
  | [] => None
  | l :: formats => match time_Parse l value with Some t => Some t | None => first_parse formats value end
  end.

Definition parseTime (value : string) : option Z := first_parse timeFormats (TrimSpace value).

(** The literal of a condition, with the time it stands for. *)
Definition time_condition (clause column : string) (op : operator) : option (string * Z) :=
  v ← find_condition column op clause; t ← parseTime v; Some (v, t).

Definition set_min (t : Z) (r : TimeRange) : TimeRange := mkTimeRange t (MaxTime r) true (HasMax r).
Definition set_max (t : Z) (r : TimeRange) : TimeRange := mkTimeRange (MinTime r) t (HasMin r) true.

Definition extractTimeConditions (clause column : string) (r : TimeRange) : TimeRange :=
  let r := match time_condition clause column OpGe with Some (_, t) => set_min t r | None => r end in
  let r := match time_condition clause column OpGt with Some (_, t) => set_min (t + 1) r | None => r end in
  let r := match time_condition clause column OpLe with Some (_, t) => set_max t r | None => r end in
  let r := match time_condition clause column OpLt with Some (_, t) => set_max (t - 1) r | None => r end in
  match time_condition clause column OpEq with
  | Some (v, t) =>
      if (String.length v <=? 10)%nat then mkTimeRange t (t + day_ns - second) true true
      else mkTimeRange t t true true
  | None => r
  end.

Definition timeColumns : list string :=
  ["timestamp"; "time"; "created_at"; "updated_at"; "date"; "datetime"; "event_time"; "occurred_at"].

(** The loop stops at the first column that gives a bound. *)
Fixpoint extract_loop (columns : list string) (clause : string) (r : TimeRange) : TimeRange :=
  match columns with
  | [] => r
  | col :: columns =>
      let r := extractTimeConditions clause col r in
      if HasMin r || HasMax r then r else extract_loop columns clause r
  end.

Definition no_range : TimeRange := mkTimeRange 0 0 false false.

Definition ExtractTimeRange (sql : string) : TimeRange :=
  match where_clause sql with
  | None => no_range
  | Some clause => extract_loop timeColumns clause no_range
  end.

Definition ShouldScanPartition (r : TimeRange) (partitionTime : Z) : bool :=
  if negb (HasMin r) && negb (HasMax r) then true
  else if HasMin r && (partitionTime <? MinTime r) && (end_of_day partitionTime <? MinTime r) then false
  else if HasMax r && (MaxTime r <? partitionTime) && (MaxTime r <? start_of_day partitionTime) then false
  else true.

(** [datePartitionPatterns] on one part of a path, with the layout's parse. *)
Definition shape (n : nat) (part : string) : bool :=
  (String.length part =? n)%nat &&
  if (n =? 8)%nat then all_chars is_digit part
  else match fixed_digits 4 0 part with
       | Some (_, s) =>
           match (s ← literal "-" s; '(_, s) ← fixed_digits 2 0 s; s ← literal "-" s; fixed_digits 2 0 s) with
           | Some (_, "") => true
           | _ => false
           end
       | None => false
       end.

Definition date_part (part : string) : option Z :=
  let try_ (n : nat) (l : layout) (s : option string) : option Z :=
    s ← s; if shape n s then time_Parse l s else None in
  match try_ 10%nat DateOnly (Some part), try_ 10%nat DateOnly (cut_prefix "date=" part),
        try_ 8%nat DateCompact (Some part), try_ 8%nat DateCompact (cut_prefix "date=" part) with
  | Some t, _, _, _ | _, Some t, _, _ | _, _, Some t, _ | _, _, _, Some t => Some t
  | _, _, _, _ => None
  end.

Fixpoint first_date (parts : list string) : option Z :=
  match parts with
  | [] => None
  | p :: parts => match date_part p with Some t => Some t | None => first_date parts end
  end.

Definition to_slash (c : ascii) : ascii := if bool_decide (N_of_ascii c = 92%N) then "/"%char else c.

Definition extractPartitionTimeFromPath (filePath : string) : option Z :=
  first_date (Split "/" (map_string to_slash filePath)).

Definition PruneFilesByTimePartition (r : TimeRange) (files : list FileMetadata) : list FileMetadata :=
  if negb (HasMin r) && negb (HasMax r) then files
  else List.filter (fun file =>
         match extractPartitionTimeFromPath (FilePath file) with
         | Some t => ShouldScanPartition r t
         | None => true
         end) files.

(** ** The optimizer *)

Definition estimateRows (files : list FileMetadata) : Z :=
  foldl (fun total f => int64 (total + RowCount f)) 0 files.

Definition OptimizeQuery (sql : string) (files : list FileMetadata) : OptimizedQuery :=
  let predicates := ExtractPredicates sql in
  let prunedByTime := PruneFilesByTimePartition (ExtractTimeRange sql) files in
  let prunedFiles := PruneFiles prunedByTime predicates in
  mkOptimizedQuery prunedFiles predicates (Zlength files - Zlength prunedFiles)
                   (estimateRows prunedFiles).

(** ** Where the statistics come from *)

(** A column chunk of the footer: its name and the raw bounds of its first row
    group. *)
Record column_stats := mkColumnStats { col_name : string; col_min : option string; col_max : option string }.

Definition collect_bounds (f : column_stats -> option string) (cols : list column_stats)
    : gmap string stat_value :=
  foldl (fun m c => match f c with Some v => <[col_name c := StringV v]> m | None => m end) ∅ cols.

(** [GetFileMetadata] of a file with these row groups: only the first counts,
    and the encoded bounds are kept as strings. *)
Definition GetFileMetadata (path : string) (rows : Z) (groups : list (list column_stats)) : FileMetadata :=
  let cols := match groups with g :: _ => g | [] => [] end in
  mkFileMetadata path rows (collect_bounds col_min cols) (collect_bounds col_max cols).

(** The float as an int64 when the conversion is exact. *)
Definition float_to_int (f : spec_float) : option Z :=
  let checked z := if decide (in_int64 z) then Some z else None in
  let sign (s : bool) z := if s then - z else z in
  match f with
  | S754_zero _ => Some 0
  | S754_finite s m e =>
      if 0 <=? e then checked (sign s (Z.pos m * 2 ^ e))
      else if Z.pos m mod 2 ^ (- e) =? 0 then checked (sign s (Z.pos m / 2 ^ (- e))) else None
  | _ => None
  end.

Definition convert_value (v : stat_value) : stat_value :=
  match v with
  | StringV s => typed_value s
  | FloatV f => match float_to_int f with Some z => IntV z | None => FloatV f end
  | _ => v
  end.

Definition convertMetadataValues (values : gmap string stat_value) : gmap string stat_value :=
  convert_value <$> values.

(** The metadata as a query sees it. *)
Definition loaded (m : FileMetadata) : FileMetadata :=
  mkFileMetadata (FilePath m) (RowCount m) (convertMetadataValues (MinValues m))
                 (convertMetadataValues (MaxValues m)).

End pruning.
