(* ===== verification/PruningTheorems.v ===== *)
(** * What file pruning keeps and what it drops

    On bounds and literals of the same type pruning is exact: a file is kept
    exactly when its ranges leave room for a row. It is therefore safe for a
    row that satisfies everything the optimizer extracted. What the optimizer
    extracts is not always what the statement says, and the recorded bounds
    are not always comparable; the last theorem has the cases. *)

From S2P Require Import Prelude GoStrings GoTime GoHeap GoOrder FieldMapping Pruning.
From Stdlib Require Import Ascii SpecFloat.
#[local] Open Scope Z_scope.

(** ** Values of the same type *)

Section values.
Context (show_float : spec_float -> string) (show_time : Z -> string).

Abbreviation compareValues := (compareValues show_float show_time).
Abbreviation rangeMatches := (rangeMatchesPredicate show_float show_time).
Abbreviation PruneFiles := (PruneFiles show_float show_time).

(** Values of the same type, and numbers. *)
Definition same_kind (a b : stat_value) : Prop :=
  match a, b with
  | IntV _, IntV _ | StringV _, StringV _ | TimeV _, TimeV _ => True
  | FloatV x, FloatV y => x <> S754_nan /\ y <> S754_nan
  | _, _ => False
  end.

Lemma same_kind_sym a b : same_kind a b -> same_kind b a.
Proof. destruct a, b; simpl; tauto. Qed.

Lemma same_kind_trans a b c : same_kind a b -> same_kind b c -> same_kind a c.
Proof. destruct a, b, c; simpl; tauto. Qed.

Lemma compare_anti a b : same_kind a b -> compareValues b a = - compareValues a b.
Proof.
  destruct a, b; simpl; intros Hk; try done.
  - by apply (laws_anti _ _ Z_laws).
  - destruct Hk. by apply (laws_anti _ _ float_laws).
  - by apply (laws_anti _ _ string_laws).
  - by apply (laws_anti _ _ Z_laws).
Qed.

Lemma compare_trans a b c :
  same_kind a b -> same_kind b c -> compareValues a b <= 0 -> compareValues b c <= 0 ->
  compareValues a c <= 0 /\ (compareValues a b < 0 \/ compareValues b c < 0 -> compareValues a c < 0).
Proof.
  destruct a, b, c; simpl; intros Hab Hbc; try done.
  - by apply (laws_trans _ _ Z_laws).
  - destruct Hab, Hbc. by apply (laws_trans _ _ float_laws).
  - by apply (laws_trans _ _ string_laws).
  - by apply (laws_trans _ _ Z_laws).
Qed.

Lemma compare_self a : same_kind a a -> compareValues a a = 0.
Proof. intros Hk. pose proof (compare_anti a a Hk). lia. Qed.

(** ** What a comparison means *)

(** A row's value satisfies the predicate. *)
Definition sat (v : stat_value) (pred : Predicate) : Prop :=
  let c := compareValues v (Value pred) in
  match Operator pred with
  | OpGt => 0 < c | OpGe => 0 <= c | OpLt => c < 0 | OpLe => c <= 0 | OpEq => c = 0
  end.

(** A value between the bounds, of their type. *)
Definition within (minv maxv v : stat_value) : Prop :=
  same_kind minv v /\ same_kind v maxv /\ compareValues minv v <= 0 /\ compareValues v maxv <= 0.

(** Bounds of one type in the right order, comparable with the literal. *)
Definition proper_bounds (minv maxv : stat_value) (pred : Predicate) : Prop :=
  within minv maxv minv /\ within minv maxv maxv /\ same_kind maxv (Value pred).

Lemma range_sound minv maxv v pred :
  within minv maxv v -> same_kind v (Value pred) -> sat v pred -> rangeMatches minv maxv pred = true.
Proof.
  intros (K1 & K2 & C1 & C2) K3 Hs. unfold rangeMatchesPredicate, sat in *.
  pose proof (compare_anti _ _ K2). pose proof (compare_anti _ _ K3). pose proof (same_kind_sym _ _ K3) as K4.
  pose proof (same_kind_trans _ _ _ K4 K2) as K5. pose proof (compare_anti _ _ K5) as A5.
  destruct (Operator pred).
  - destruct (compare_trans _ _ _ K4 K2) as [? ?]; [lia..|]. apply Z.leb_le. lia.
  - destruct (compare_trans _ _ _ K1 K3) as [? ?]; [lia..|]. apply Z.leb_le. lia.
  - destruct (compare_trans _ _ _ K4 K2) as [? ?]; [lia..|]. apply Z.ltb_lt. lia.
  - destruct (compare_trans _ _ _ K1 K3) as [? ?]; [lia..|]. apply Z.ltb_lt. lia.
  - destruct (compare_trans _ _ _ K1 K3) as [? ?]; [lia..|].
    destruct (compare_trans _ _ _ K4 K2) as [? ?]; [lia..|]. apply andb_true_iff.
    split; apply Z.leb_le; lia.
Qed.

Lemma range_tight minv maxv pred :
  proper_bounds minv maxv pred -> rangeMatches minv maxv pred = true ->
  exists v, within minv maxv v /\ same_kind v (Value pred) /\ sat v pred.
Proof.
  intros (Wmin & Wmax & K) Hr. unfold rangeMatchesPredicate, sat in *.
  assert (same_kind minv (Value pred)) as Kmin.
  { destruct Wmax as (K1 & _). by eapply same_kind_trans. }
  pose proof (same_kind_sym _ _ Kmin) as Kmin'. pose proof (same_kind_sym _ _ K) as K'.
  destruct (Operator pred) eqn:E; b2p.
  - by exists maxv.
  - by exists minv.
  - by exists maxv.
  - by exists minv.
  - exists (Value pred). pose proof (compare_anti _ _ K).
    assert (same_kind (Value pred) (Value pred)) as Kv by (by eapply same_kind_trans).
    split; [split_and!; [done|done|lia|lia]|]. split; [done|]. by apply compare_self.
Qed.

(** ** Files *)

Lemma matches_spec file preds :
  fileMatchesPredicates show_float show_time file preds = true <->
  forall pred minv maxv, pred ∈ preds -> MinValues file !! Column pred = Some minv ->
    MaxValues file !! Column pred = Some maxv -> rangeMatches minv maxv pred = true.
Proof.
  unfold fileMatchesPredicates. rewrite forallb_forall. split.
  - intros H pred minv maxv Hin%list_elem_of_In E1 E2. specialize (H pred Hin). by rewrite E1, E2 in H.
  - intros H pred Hin%list_elem_of_In.
    destruct (MinValues file !! Column pred) eqn:E1; [|done].
    destruct (MaxValues file !! Column pred) eqn:E2; [|done]. eauto.
Qed.

Lemma elem_of_PruneFiles files preds file :
  file ∈ PruneFiles files preds <->
  file ∈ files /\ fileMatchesPredicates show_float show_time file preds = true.
Proof.
  destruct preds as [|p ps]; [split; [by intros; split|by intros []]|].
  unfold Pruning.PruneFiles. by rewrite list_elem_of_In, filter_In, <- list_elem_of_In.
Qed.

(** Pruning by statistics is exact. When every predicate on a column
    with bounds compares values of one type, a file is kept exactly when for
    each such predicate some value between the file's bounds satisfies it: no
    file that may hold a matching value is dropped, and every kept file's
    ranges leave room for one. *)
Theorem pruning_exact files preds file :
  (forall pred minv maxv, pred ∈ preds -> MinValues file !! Column pred = Some minv ->
     MaxValues file !! Column pred = Some maxv -> proper_bounds minv maxv pred) ->
  file ∈ PruneFiles files preds <->
  file ∈ files /\
  forall pred minv maxv, pred ∈ preds -> MinValues file !! Column pred = Some minv ->
    MaxValues file !! Column pred = Some maxv ->
    exists v, within minv maxv v /\ same_kind v (Value pred) /\ sat v pred.
Proof.
  intros Hp. rewrite elem_of_PruneFiles, matches_spec. split; intros [Hin H]; split; try done.
  - intros pred minv maxv Hpred E1 E2. apply range_tight; eauto.
  - intros pred minv maxv Hpred E1 E2. destruct (H pred minv maxv) as (v & Hw & Hk & Hs); [done..|].
    by eapply range_sound.
Qed.

(** ** Time partitions *)

Lemma partition_sound r d ts :
  start_of_day d <= ts <= end_of_day d ->
  (HasMin r = true -> MinTime r <= ts) -> (HasMax r = true -> ts <= MaxTime r) ->
  ShouldScanPartition r d = true.
Proof.
  intros Hd Hmin Hmax. unfold ShouldScanPartition.
  destruct (HasMin r), (HasMax r); simpl; try done;
    repeat (case_match; b2p; try done); try (specialize (Hmin eq_refl)); try (specialize (Hmax eq_refl)); lia.
Qed.

Lemma time_pruning_sound r files file ts :
  file ∈ files ->
  (forall d, extractPartitionTimeFromPath (FilePath file) = Some d -> start_of_day d <= ts <= end_of_day d) ->
  (HasMin r = true -> MinTime r <= ts) -> (HasMax r = true -> ts <= MaxTime r) ->
  file ∈ PruneFilesByTimePartition r files.
Proof.
  intros Hin Hd Hmin Hmax. unfold PruneFilesByTimePartition. case_match; [done|].
  apply list_elem_of_In, filter_In. split; [by apply list_elem_of_In|].
  destruct (extractPartitionTimeFromPath (FilePath file)) eqn:E; [|done].
  eapply partition_sound; eauto.
Qed.

End values.

Section optimizer.
Context (ToLower_ : string -> string) (ParseFloat : string -> option spec_float).
Context (show_float : spec_float -> string) (show_time : Z -> string).

Abbreviation within := (within show_float show_time).
Abbreviation sat := (sat show_float show_time).
Abbreviation ExtractPredicates := (ExtractPredicates ToLower_ ParseFloat).
Abbreviation ExtractTimeRange := (ExtractTimeRange ToLower_).
Abbreviation OptimizeQuery := (OptimizeQuery ToLower_ ParseFloat show_float show_time).

(** A row that the statement can ask for, by what was read from the statement
    and by what is known of the file. *)
Definition may_match (sql : string) (file : FileMetadata) (ts : Z) (row : gmap string stat_value) : Prop :=
  (forall d, extractPartitionTimeFromPath (FilePath file) = Some d -> start_of_day d <= ts <= end_of_day d) /\
  (HasMin (ExtractTimeRange sql) = true -> MinTime (ExtractTimeRange sql) <= ts) /\
  (HasMax (ExtractTimeRange sql) = true -> ts <= MaxTime (ExtractTimeRange sql)) /\
  (forall pred minv maxv, pred ∈ ExtractPredicates sql -> MinValues file !! Column pred = Some minv ->
     MaxValues file !! Column pred = Some maxv ->
     exists v, row !! Column pred = Some v /\ within minv maxv v /\ same_kind v (Value pred) /\ sat v pred).

Lemma may_match_selected sql files file ts row :
  file ∈ files -> may_match sql file ts row -> file ∈ SelectedFiles (OptimizeQuery sql files).
Proof.
  intros Hin (Hd & Hmin & Hmax & Hrow). unfold Pruning.OptimizeQuery. cbn [SelectedFiles].
  apply elem_of_PruneFiles. split; [by eapply time_pruning_sound|].
  apply matches_spec. intros pred minv maxv Hp E1 E2.
  destruct (Hrow pred minv maxv Hp E1 E2) as (v & _ & Hw & Hk & Hs). by eapply range_sound.
Qed.

Lemma selected_sublist sql files : SelectedFiles (OptimizeQuery sql files) `sublist_of` files.
Proof.
  unfold Pruning.OptimizeQuery. cbn [SelectedFiles]. transitivity (PruneFilesByTimePartition (ExtractTimeRange sql) files).
  - unfold PruneFiles. destruct (ExtractPredicates sql); [done|]. apply filter_sublist.
  - unfold PruneFilesByTimePartition. destruct (_ && _); [done|]. apply filter_sublist.
Qed.

(** C20: a file with a matching row is kept, as far as the recorded bounds are
    right. If a file holds a row whose time lies in the day of the file's
    path and in the time range read from the statement, and whose values of
    the columns with bounds lie between the bounds recorded for the file,
    are of the kind of the literals they are compared with and satisfy
    every predicate read from the statement, then the file is selected.
    Only files of the list are selected, and the number of skipped files is
    the difference. *)
Theorem optimize_keeps_matching sql files file ts (row : gmap string stat_value) :
  file ∈ files ->
  (forall d, extractPartitionTimeFromPath (FilePath file) = Some d -> start_of_day d <= ts <= end_of_day d) ->
  (HasMin (ExtractTimeRange sql) = true -> MinTime (ExtractTimeRange sql) <= ts) ->
  (HasMax (ExtractTimeRange sql) = true -> ts <= MaxTime (ExtractTimeRange sql)) ->
  (forall pred minv maxv, pred ∈ ExtractPredicates sql -> MinValues file !! Column pred = Some minv ->
     MaxValues file !! Column pred = Some maxv ->
     exists v, row !! Column pred = Some v /\ within minv maxv v /\ same_kind v (Value pred) /\ sat v pred) ->
  file ∈ SelectedFiles (OptimizeQuery sql files) /\
  SelectedFiles (OptimizeQuery sql files) ⊆ files /\
  FilesSkipped (OptimizeQuery sql files) = Zlength files - Zlength (SelectedFiles (OptimizeQuery sql files)).
Proof.
  intros Hin Hd Hmin Hmax Hrow. split_and!; [by eapply may_match_selected| |done].
  intros f Hf. eapply elem_of_submseteq; [exact Hf|]. apply sublist_submseteq, selected_sublist.
Qed.

End optimizer.

(** ** Examples *)

Abbreviation demo_optimize :=
  (OptimizeQuery ToLower (fun _ => None) (fun _ => "") (fun _ => "")).

Definition file_with (path column : string) (minv maxv : stat_value) : FileMetadata :=
  mkFileMetadata path 1 {[ column := minv ]} {[ column := maxv ]}.

Definition demo_path : string := "t/_/2024-01-15/1.parquet".

Lemma pruning_exact_witness :
  file_with demo_path "age" (IntV 1) (IntV 10) ∈
    PruneFiles (fun _ => "") (fun _ => "") [file_with demo_path "age" (IntV 1) (IntV 10)]
      [mkPredicate "age" OpGt (IntV 5)].
Proof.
  apply (pruning_exact (fun _ => "") (fun _ => "")).
  - intros pred minv maxv ->%list_elem_of_singleton E1 E2. vm_compute in E1, E2. simplify_eq.
    vm_compute. repeat split; discriminate.
  - split; [by apply list_elem_of_singleton|].
    intros pred minv maxv ->%list_elem_of_singleton E1 E2. vm_compute in E1, E2. simplify_eq.
    exists (IntV 7). vm_compute. repeat split; discriminate.
Defined.

Definition demo_sql : string := "SELECT * FROM t WHERE timestamp >= '2024-01-15 08:00:00' AND age > 5 LIMIT 3".

Lemma optimize_keeps_matching_witness :
  let file := file_with demo_path "age" (IntV 1) (IntV 10) in
  let q := demo_optimize demo_sql [file] in
  file ∈ SelectedFiles q /\ SelectedFiles q ⊆ [file] /\ FilesSkipped q = 1 - Zlength (SelectedFiles q).
Proof.
  apply (optimize_keeps_matching ToLower (fun _ => None) (fun _ => "") (fun _ => "") demo_sql
           [file_with demo_path "age" (IntV 1) (IntV 10)] (file_with demo_path "age" (IntV 1) (IntV 10))
           (1705309200 * second) {[ "age" := IntV 7 ]}).
  - by apply list_elem_of_singleton.
  - intros d Hd. vm_compute in Hd. injection Hd as <-. vm_compute. split; discriminate.
  - intros _. vm_compute. discriminate.
  - intros H. vm_compute in H. discriminate.
  - intros pred minv maxv Hp E1 E2. exists (IntV 7).
    apply list_elem_of_In in Hp. vm_compute in Hp. destruct Hp as [<-|[<-|[]]].
    + vm_compute in E1. discriminate.
    + vm_compute in E1, E2. simplify_eq. vm_compute. repeat split; discriminate.
Defined.

(** What the optimizer gets wrong. In each case the file holds a matching
    row and is dropped: the statement is lower-cased with its literals, so
    [name = 'Bob'] looks for [bob]; the alternatives of an [OR] are all
    required; the bounds of an integer column are the raw bytes of the Parquet
    footer and are compared as text; only the first row group's bounds are
    recorded; an id of eight digits in the path is taken for the day. *)
Theorem pruning_drops_matching :
  (within (fun _ => "") (fun _ => "") (StringV "Alice") (StringV "Carl") (StringV "Bob") /\
   SelectedFiles (demo_optimize "SELECT * FROM t WHERE name = 'Bob'"
     [file_with demo_path "name" (StringV "Alice") (StringV "Carl")]) = []) /\
  SelectedFiles (demo_optimize "SELECT * FROM t WHERE age = 1 OR age = 9"
     [file_with demo_path "age" (IntV 1) (IntV 1)]) = [] /\
  (let ten := bytes [10; 0; 0; 0; 0; 0; 0; 0]%N in
   SelectedFiles (demo_optimize "SELECT * FROM t WHERE age > 5"
     [loaded (fun _ => None)
        (GetFileMetadata demo_path 1 [[mkColumnStats "age" (Some ten) (Some ten)]])]) = []) /\
  SelectedFiles (demo_optimize "SELECT * FROM t WHERE name = 'y'"
     [loaded (fun _ => None)
        (GetFileMetadata demo_path 2 [[mkColumnStats "name" (Some "a") (Some "c")];
                                      [mkColumnStats "name" (Some "x") (Some "z")]])]) = [] /\
  SelectedFiles (demo_optimize "SELECT * FROM t WHERE timestamp >= '2024-01-01'"
     [mkFileMetadata "t/20230101/2024-01-15/1.parquet" 1 ∅ ∅]) = [].
Proof. split_and!; first [vm_compute; reflexivity | vm_compute; repeat split; discriminate]. Qed.
