(* ===== verification/QueryFilesTheorems.v ===== *)
(** * What a deletion does to the files (internal/query/query.go)

    With every call answered and no stale local copy, deleting an id removes
    the rows of its literal from the objects its index names and no others. The
    last section shows what control characters and stale copies do. *)

From S2P Require Import Prelude GoStrings GoTime GoFloat GoHeap GoOrder FieldMapping ConsistentHash SqlSanitizer QueryCache FileCache Pruning.
From Stdlib Require Import Ascii.
#[local] Open Scope Z_scope.


(** * The files of a query (internal/query/query.go)

    Which objects hold the rows of a table, how they come to the local disk,
    and how a row is deleted from them. In a cluster the objects of a table are
    those that sets in Redis name; on a single node they are those the bucket
    lists. *)

(** [filepath.Base]. *)
Fixpoint trim_slashes (s : string) : string :=
  match s with
  | "" => ""
  | String c s => let t := trim_slashes s in if bool_decide (c = "/"%char) && bool_decide (t = "") then "" else String c t
  end.
Fixpoint last_element (s : string) : string :=
  match s with
  | "" => ""
  | String c s' => if bool_decide (c = "/"%char) && negb (has_char "/" s') then s' else if has_char "/" s then last_element s' else s
  end.
Definition Base (s : string) : string :=
  if bool_decide (s = "") then "." else
  let t := trim_slashes s in if bool_decide (t = "") then "/" else last_element t.

(** [strings.Trim] at quotes. *)
Definition quote : ascii := ascii_of_N 34.
Fixpoint drop_quotes (s : string) : string :=
  match s with String c s' => if bool_decide (c = quote) then drop_quotes s' else s | "" => "" end.
Definition trim_quotes (s : string) : string := string_rev (drop_quotes (string_rev (drop_quotes s) "")) "".

Record s3_object := mkS3 { s3_body : string; s3_ETag : string }.
Abbreviation objects := (gmap string s3_object).

Inductive file_error := ErrFileNotFound | ErrIntegrityCheckFailed | StatObjectFailed | GetObjectFailed | WriteFileFailed.

(** The calls for an object: whether the server answers, what arrives of the
    body, whether the local file is written, and what a failed write leaves. *)
Record s3_env := mkS3Env {
  stat_answered : string -> bool;
  get_answered : string -> bool;
  received : string -> string -> string;
  file_written : string -> bool;
  left_over : string -> option string;
  put_answered : string -> bool;
  removed : string -> bool;
}.

Section files.
Context (md5_hex : string -> string) (range : forall A, gmap string A -> list (string * A)).
Context (tempDir : string).

(** ** Downloads *)

Definition temp_path (objectName : string) : string :=
  tempDir +:+ "/" +:+ String.substring 0 8 (md5_hex objectName) +:+ "_" +:+ Base objectName.

(** MD5 is hexadecimal, so folding is that of ASCII letters. *)
Definition verifyFileIntegrity (content expectedETag : string) : bool :=
  let etag := trim_quotes expectedETag in
  has_char "-" etag || bool_decide (ToLower (md5_hex content) = ToLower etag).

Definition downloadToTemp (env : s3_env) (now : Z) (bucket : objects) (objectName : string) (fs : files) : result file_error string * files :=
  let localPath := temp_path objectName in
  match fs !! localPath with
  | Some _ => (Ok localPath, fs)
  | None =>
      if negb (stat_answered env objectName) then (Err StatObjectFailed, fs) else
      match bucket !! objectName with
      | None => (Err ErrFileNotFound, fs)
      | Some o =>
          if negb (get_answered env objectName) then (Err GetObjectFailed, fs) else
          let data := received env objectName (s3_body o) in
          if negb (file_written env objectName) then
            (Err WriteFileFailed, match left_over env objectName with Some s => <[localPath := mkFile s now]> fs | None => fs end)
          else
            let fs := <[localPath := mkFile data now]> fs in
            if verifyFileIntegrity data (s3_ETag o) then (Ok localPath, fs)
            else (Err ErrIntegrityCheckFailed, delete localPath fs)
      end
  end.

Definition getFileWithCache (os : os_env) (env : s3_env) (now : Z) (bucket : objects) (objectName : string) (fc : option FileCache) (fs : files) :
    result (cache_file_error file_error) string * option FileCache * files :=
  match fc with
  | Some fc =>
      let '(r, fc, fs) := FileCache.Get md5_hex range os now objectName (downloadToTemp env now bucket objectName) fc fs in (r, Some fc, fs)
  | None =>
      match downloadToTemp env now bucket objectName fs with
      | (Ok p, fs) => (Ok p, None, fs)
      | (Err e, fs) => (Err (DownloadFailed e), None, fs)
      end
  end.

(** [errors.Is(err, ErrFileNotFound)]. *)
Definition is_not_found (e : cache_file_error file_error) : bool :=
  match e with DownloadFailed ErrFileNotFound => true | _ => false end.

(** Clean-up of the directory, not of its subdirectories. *)
Definition cleanExpiredTempFiles (os : os_env) (now maxAge : Z) (names : list string) (fs : files) : files :=
  foldl (fun fs name =>
    let p := tempDir +:+ "/" +:+ name in
    match fs !! p with
    | Some f => if (mtime f <? now - maxAge) && remove_ok os p then delete p fs else fs
    | None => fs
    end) fs names.

(** ** The objects of a table *)

Context (ParseFloat : string -> option SpecFloat.spec_float).

Abbreviation index := (gmap string (gset string)).
Definition table_pattern (tableName : string) : string := "index:table:" +:+ tableName +:+ ":id:".
Definition id_pattern (tableName id : string) : string := "index:table:" +:+ tableName +:+ ":id:" +:+ id +:+ ":".

(** [SCAN] with a pattern that ends in a star: every key at least once. *)
Definition scan_ok (ix : index) (prefix : string) (keys : list string) : Prop :=
  forall k, k ∈ keys <-> String.prefix prefix k = true /\ is_Some (ix !! k).

(** Metadata as the hash of the object has it, or only its name. *)
Definition loadFileMetadataFromRedis (meta : gmap string FileMetadata) (objectName : string) : FileMetadata :=
  match meta !! ("metadata:file:" +:+ objectName) with
  | Some m => loaded ParseFloat (mkFileMetadata objectName (RowCount m) (MinValues m) (MaxValues m))
  | None => mkFileMetadata objectName 0 ∅ ∅
  end.

(** A set that cannot be read is skipped. *)
Definition indexed_objects (members_ok : string -> bool) (ix : index) (keys : list string) : list string :=
  keys ≫= fun k => if members_ok k then elements (default ∅ (ix !! k)) else [].

(** [storeMetadataToRedis] of the buffer, with its default prefix. *)
Definition storeMetadataToRedis (KeyPrefix objectName : string) (m : FileMetadata) (meta : gmap string FileMetadata) : gmap string FileMetadata :=
  <[(if bool_decide (KeyPrefix = "") then "file_meta:" else KeyPrefix) +:+ objectName := mkFileMetadata objectName (RowCount m) (MinValues m) (MaxValues m)]> meta.

Definition has_bounds (m : FileMetadata) : bool := negb (bool_decide (MinValues m = ∅) && bool_decide (MaxValues m = ∅)).

(** [sidecar]: the parsed object beside a file, if there is one. *)
Definition loadFileMetadataFromMinIOSidecar (sidecar : string -> option FileMetadata) (objectName : string) : option FileMetadata :=
  loaded ParseFloat <$> sidecar (objectName +:+ ".meta.json").

Definition getStorageFilesMetadataFromMinIO (sidecar : string -> option FileMetadata) (bucket : objects) (tableName : string) : list FileMetadata :=
  (fun x : string * s3_object =>
     match loadFileMetadataFromMinIOSidecar sidecar x.1 with
     | Some m => if has_bounds m then (if bool_decide (FilePath m = "") then mkFileMetadata x.1 (RowCount m) (MinValues m) (MaxValues m) else m)
                 else mkFileMetadata x.1 0 ∅ ∅
     | None => mkFileMetadata x.1 0 ∅ ∅
     end) <$>
  List.filter (fun x : string * s3_object => String.prefix (tableName +:+ "/") x.1 && bool_decide (Ext x.1 = ".parquet")) (range s3_object bucket).

(** With Redis; [None]: the scan fails. *)
Definition getStorageFilesMetadata (keys : option (list string)) (members_ok : string -> bool) (ix : index) (meta : gmap string FileMetadata) :
    option (list FileMetadata) :=
  (fun keys => loadFileMetadataFromRedis meta <$> indexed_objects members_ok ix keys) <$> keys.

(** ** Deleting *)

Inductive rewrite_error := DownloadForRewriteFailed (e : file_error) | QueryFailed | CopyToParquetFailed | UploadRewrittenFailed.

(** What DuckDB reads of a local file, and what COPY makes of rows; the column
    of the ids is required, so every row has one. *)
Context (row : Type) (row_id : row -> string) (read_parquet : string -> option (list row)) (write_parquet : list row -> string).

(** [strings.Split] at colons; the key of another id. *)
Definition key_of_other_id (tableName skipID key : string) : bool :=
  let parts := Split ":" key in
  negb ((6 <=? Z.of_nat (length parts)) && bool_decide (parts !! 0%nat = Some "index") && bool_decide (parts !! 2%nat = Some tableName) &&
        bool_decide (parts !! 4%nat = Some skipID)).

Definition removeObjectFromOtherIDIndexes (keys : option (list string)) (srem_ok : string -> bool) (tableName objectName skipID : string) (ix : index) : index :=
  match keys with
  | None => ix
  | Some keys =>
      foldl (fun ix key =>
        if key_of_other_id tableName skipID key && srem_ok key then
          match ix !! key with
          | Some s => let s := s ∖ {[objectName]} in if bool_decide (s = ∅) then delete key ix else <[key := s]> ix
          | None => ix
          end
        else ix) ix keys
  end.

(** The outcome of the statements on the temporary database. *)
Record duck_env := mkDuck { query_ok : bool; copy_ok_ : bool }.

(** What SQL reads where a statement has a quoted literal: the quoting drops
    most control characters. *)
Definition literal (s : string) : string :=
  match read_quoted squote (QuoteLiteral s) with Some (t, _) => t | None => "" end.

Definition rewrite_path (localPath : string) : string := localPath +:+ ".rewrite".

(** The paths and the id reach DuckDB as quoted literals, the calls on files
    get the paths as they are. The rewritten file is removed at the end. *)
Definition rewriteSingleParquet (env : s3_env) (duck : duck_env) (os : os_env) (now : Z) (scan : option (list string)) (srem_ok : string -> bool)
    (objectName tableName deleteID : string) (bucket : objects) (ix : index) (fs : files) :
    result rewrite_error Z * objects * index * files :=
  match downloadToTemp env now bucket objectName fs with
  | (Err e, fs) => (Err (DownloadForRewriteFailed e), bucket, ix, fs)
  | (Ok localPath, fs) =>
      match (if query_ok duck then (fs !! literal localPath) ≫= (fun f => read_parquet (content f)) else None) with
      | None => (Err QueryFailed, bucket, ix, fs)
      | Some rows =>
          let deleted := List.filter (fun r => bool_decide (row_id r = literal deleteID)) rows in
          let remaining := List.filter (fun r => negb (bool_decide (row_id r = literal deleteID))) rows in
          let deletedCount := Z.of_nat (length deleted) in
          if deletedCount =? 0 then (Ok 0, bucket, ix, fs) else
          if Z.of_nat (length rows) - deletedCount =? 0 then
            let bucket := if removed env objectName then delete objectName bucket else bucket in
            (Ok deletedCount, bucket, removeObjectFromOtherIDIndexes scan srem_ok tableName objectName deleteID ix, fs)
          else if negb (copy_ok_ duck) then (Err CopyToParquetFailed, bucket, ix, fs)
          else
            let newLocalPath := rewrite_path localPath in
            let fs := <[literal newLocalPath := mkFile (write_parquet remaining) now]> fs in
            let cleanup := fun fs : files => if remove_ok os newLocalPath then delete newLocalPath fs else fs in
            match (if put_answered env objectName then fs !! newLocalPath else None) with
            | None => (Err UploadRewrittenFailed, bucket, ix, cleanup fs)
            | Some f =>
                (Ok deletedCount, <[objectName := mkS3 (content f) (md5_hex (content f))]> bucket, ix,
                 cleanup (if remove_ok os localPath then delete localPath fs else fs))
            end
      end
  end.

(** The set of the objects, in the order of the map. *)
Definition object_name_set (members_ok : string -> bool) (ix : index) (keys : list string) : list string :=
  (range unit (list_to_map ((fun n => (n, tt)) <$> indexed_objects members_ok ix keys))).*1.

(** The number of rows, and whether the id has keys; [scan_id]: these keys.
    [redis] and [minio]: whether the node has a pool and a client. *)
Definition RewriteParquetForDelete (redis minio : bool) (env : s3_env) (duck : string -> duck_env) (os : os_env) (now : Z) (scan_id scan : option (list string))
    (members_ok srem_ok : string -> bool) (del_ok : bool) (tableName id : string) (bucket : objects) (ix : index) (fs : files) :
    option (Z * bool) * objects * index * files :=
  if negb redis || negb minio then (Some (0, false), bucket, ix, fs) else
  match scan_id with
  | None => (None, bucket, ix, fs)
  | Some [] => (Some (0, false), bucket, ix, fs)
  | Some keys =>
      let drop := fun ix : index => if del_ok then foldl (fun ix k => delete k ix) ix keys else ix in
      let names := object_name_set members_ok ix keys in
      if bool_decide (names = []) then (Some (0, true), bucket, drop ix, fs) else
      let '(total, bucket, ix, fs) := foldl (fun '(total, bucket, ix, fs) objectName =>
        match rewriteSingleParquet env (duck objectName) os now scan srem_ok objectName tableName id bucket ix fs with
        | (Ok n, bucket, ix, fs) => (total + n, bucket, ix, fs)
        | (Err _, bucket, ix, fs) => (total, bucket, ix, fs)
        end) (0, bucket, ix, fs) names in
      (Some (total, true), bucket, drop ix, fs)
  end.
End files.

(** * Theorems *)

Section delete.
Context (md5_hex : string -> string) (range : forall A, gmap string A -> list (string * A)) `{!MapRange range} (tempDir : string).
Context (row : Type) (row_id : row -> string) (read_parquet : string -> option (list row)) (write_parquet : list row -> string).

Abbreviation temp_path := (temp_path md5_hex tempDir).
Abbreviation downloadToTemp := (downloadToTemp md5_hex tempDir).
Abbreviation rewriteSingleParquet := (rewriteSingleParquet md5_hex tempDir row row_id read_parquet write_parquet).

(** What the rows of an object are. *)
Definition object_rows (b : objects) (k : string) : list row := default [] ((b !! k) ≫= fun o => read_parquet (s3_body o)).
Definition of_id (id : string) (r : row) : bool := bool_decide (row_id r = id).

(** A file that was downloaded now passed the comparison with the entity tag. *)
Lemma downloaded_intact env now b k fs fs' : fs !! temp_path k = None -> downloadToTemp env now b k fs = (Ok (temp_path k), fs') ->
  exists o f, b !! k = Some o /\ fs' = <[temp_path k := f]> fs /\ content f = received env k (s3_body o) /\
    verifyFileIntegrity md5_hex (content f) (s3_ETag o) = true.
Proof.
  intros Hf. unfold QueryFilesTheorems.downloadToTemp. rewrite Hf. destruct (stat_answered env k); [|done]. destruct (b !! k) as [o|]; [|done].
  destruct (get_answered env k); [|done]. destruct (file_written env k); [|done]. cbn [negb].
  destruct (verifyFileIntegrity _ _ _) eqn:E; [|done]. intros [= <-]. by eexists o, _.
Qed.

(** Every call is answered, and what arrives is what was sent. *)
Record all_answered (env : s3_env) : Prop := {
  an_stat : forall k, stat_answered env k = true;
  an_get : forall k, get_answered env k = true;
  an_received : forall k s, received env k s = s;
  an_written : forall k, file_written env k = true;
  an_put : forall k, put_answered env k = true;
  an_removed : forall k, removed env k = true;
}.

(** The literal of a string without such characters is the string. *)
Lemma literal_sanitized s : literal s = sanitizeControlChars s.
Proof.
  unfold literal. assert (QuoteLiteral s = Validator_QuoteLiteral s) as ->.
  { unfold QuoteLiteral, Validator_QuoteLiteral, sanitizeControlChars, SanitizeString. by rewrite strip_double. }
  unfold Validator_QuoteLiteral. rewrite <- (string_app_nil_r (enclose _ _)), read_quoted_enclose by done. done.
Qed.

(** An object that can be read, with no stale copy of it on the disk, and whose
    local names a quoted literal keeps. *)
Definition ready (b : objects) (fs : files) (k : string) : Prop :=
  fs !! temp_path k = None /\ literal (temp_path k) = temp_path k /\
  literal (rewrite_path (temp_path k)) = rewrite_path (temp_path k) /\ exists o rows, b !! k = Some o /\ verifyFileIntegrity md5_hex (s3_body o) (s3_ETag o) = true /\ read_parquet (s3_body o) = Some rows.

Lemma download_ready env now b k fs : all_answered env -> ready b fs k ->
  exists o rows, b !! k = Some o /\ read_parquet (s3_body o) = Some rows /\
    downloadToTemp env now b k fs = (Ok (temp_path k), <[temp_path k := mkFile (s3_body o) now]> fs).
Proof.
  intros [H1 H2 H3 H4 _ _] (Hf & _ & _ & o & rows & Ho & Hv & Hr). exists o, rows. split_and!; [done..|].
  unfold QueryFilesTheorems.downloadToTemp. rewrite Hf, H1, Ho, H2, H3, H4. cbn [negb]. by rewrite Hv.
Qed.

Lemma filter_two_parts {A} (P : A -> bool) l : (length (List.filter P l) + length (List.filter (fun x => negb (P x)) l) = length l)%nat.
Proof. induction l as [|x l IH]; [done|]. cbn [List.filter]. destruct (P x); cbn [negb length]; lia. Qed.

Lemma filter_all_out {A} (P : A -> bool) l : length (List.filter P l) = 0%nat -> List.filter (fun x => negb (P x)) l = l.
Proof.
  induction l as [|x l IH]; [done|]. cbn [List.filter]. destruct (P x) eqn:E; cbn [negb length]; [done|]. intros H. by rewrite IH.
Qed.

Lemma filter_all_in {A} (P : A -> bool) l : length (List.filter P l) = length l -> List.filter (fun x => negb (P x)) l = [].
Proof. intros H. pose proof (filter_two_parts P l). destruct (List.filter (fun x => negb (P x)) l); [done|]. cbn [length] in *. lia. Qed.

Lemma rows_same names b b1 : (forall j, j ∈ names -> b1 !! j = b !! j) -> names ≫= object_rows b1 = names ≫= object_rows b.
Proof.
  induction names as [|k names IH]; intros H; [done|]. cbn [mbind list_bind]. rewrite (IH (fun j Hj => H j (list_elem_of_further _ _ _ Hj))).
  unfold object_rows at 1 3. by rewrite (H k) by apply list_elem_of_here.
Qed.

Section run.
Context (codec : forall rows, read_parquet (write_parquet rows) = Some rows) (env : s3_env) (Henv : all_answered env).
Context (duck : string -> duck_env) (Hduck : forall k, duck k = mkDuck true true) (os : os_env) (Hos : forall p, remove_ok os p = true).
Context (now : Z) (scan : option (list string)) (srem_ok : string -> bool) (tableName id : string).

(** One object: its rows of the id are gone, the others stay; other objects and
    other local files are as they were. *)
Lemma rewrite_one b ix fs k : ready b fs k ->
  exists b' ix' fs', rewriteSingleParquet env (duck k) os now scan srem_ok k tableName id b ix fs =
      (Ok (Z.of_nat (length (List.filter (of_id (literal id)) (object_rows b k)))), b', ix', fs') /\
    object_rows b' k = List.filter (fun r => negb (of_id (literal id) r)) (object_rows b k) /\
    (forall j, j <> k -> b' !! j = b !! j) /\ (forall p, p <> temp_path k -> fs !! p = None -> fs' !! p = None).
Proof.
  intros Hr. pose proof Hr as (_ & Hl1 & Hl2 & _). destruct (download_ready env now b k fs Henv Hr) as (o & rows & Ho & Hrows & Hd).
  unfold QueryFilesTheorems.rewriteSingleParquet. rewrite Hd, Hduck. cbn [query_ok copy_ok_]. rewrite Hl1, lookup_insert_eq. cbn [mbind option_bind content].
  rewrite Hrows. assert (object_rows b k = rows) as Eb by (unfold object_rows; rewrite Ho; cbn; by rewrite Hrows). rewrite Eb.
  fold (of_id (literal id)). pose proof (filter_two_parts (of_id (literal id)) rows) as Hsplit.
  destruct (Z.eqb_spec (Z.of_nat (length (List.filter (of_id (literal id)) rows))) 0) as [E|E].
  { exists b, ix, (<[temp_path k := mkFile (s3_body o) now]> fs). split_and!; [by rewrite E| |done|intros p Hp Hn; by rewrite lookup_insert_ne].
    rewrite Eb. symmetry. apply filter_all_out. lia. }
  destruct (Z.eqb_spec (Z.of_nat (length rows) - Z.of_nat (length (List.filter (of_id (literal id)) rows))) 0) as [E2|E2].
  { rewrite (an_removed _ Henv). eexists _, _, _. split_and!; [done| |intros j Hj; by rewrite lookup_delete_ne|intros p Hp Hn; by rewrite lookup_insert_ne].
    unfold object_rows. rewrite lookup_delete_eq. cbn. symmetry. apply filter_all_in. lia. }
  cbn [negb]. rewrite (an_put _ Henv), !Hos, Hl2, lookup_insert_eq. eexists _, _, _. split_and!; [done| |intros j Hj; by rewrite lookup_insert_ne|].
  - unfold object_rows. rewrite lookup_insert_eq. cbn. by rewrite codec.
  - intros p Hp Hn. destruct (decide (p = rewrite_path (temp_path k))) as [->|Hne]; [apply lookup_delete_eq|].
    by rewrite lookup_delete_ne, lookup_delete_ne, !lookup_insert_ne.
Qed.

Lemma rewrite_all names total b ix fs : NoDup names -> (forall j k, j ∈ names -> k ∈ names -> temp_path j = temp_path k -> j = k) ->
  Forall (ready b fs) names ->
  exists b' ix' fs', foldl (fun '(total, bucket, ix, fs) objectName =>
      match rewriteSingleParquet env (duck objectName) os now scan srem_ok objectName tableName id bucket ix fs with
      | (Ok n, bucket, ix, fs) => (total + n, bucket, ix, fs)
      | (Err _, bucket, ix, fs) => (total, bucket, ix, fs)
      end) (total, b, ix, fs) names =
      (total + Z.of_nat (length (List.filter (of_id (literal id)) (names ≫= object_rows b))), b', ix', fs') /\
    (forall k, k ∈ names -> object_rows b' k = List.filter (fun r => negb (of_id (literal id) r)) (object_rows b k)) /\
    (forall k, k ∉ names -> b' !! k = b !! k).
Proof.
  revert total b ix fs. induction names as [|k names IH]; intros total b ix fs Hnd Hinj Hready.
  { exists b, ix, fs. cbn. rewrite Z.add_0_r. split_and!; [done| |done]. intros k Hk. by apply elem_of_nil in Hk. }
  apply NoDup_cons in Hnd as [Hk Hnd]. apply Forall_cons in Hready as [Hr Hready].
  destruct (rewrite_one b ix fs k Hr) as (b1 & ix1 & fs1 & E1 & Hrows1 & Hb1 & Hfs1). cbn [foldl]. rewrite E1.
  assert (forall j, j ∈ names -> b1 !! j = b !! j) as Hsame by (intros j Hj; apply Hb1; by intros ->).
  destruct (IH (total + Z.of_nat (length (List.filter (of_id (literal id)) (object_rows b k)))) b1 ix1 fs1) as (b' & ix' & fs' & E & Hin & Hout); [done| | |].
  - intros i j Hi Hj. apply Hinj; by apply list_elem_of_further.
  - rewrite Forall_forall in Hready |- *. intros j Hj. destruct (Hready j Hj) as (Hf & Hl1 & Hl2 & o & rows & Ho & H). split_and!; [|done..|].
    + apply Hfs1; [|done]. intros Hp. apply Hinj in Hp; [|by apply list_elem_of_further|apply list_elem_of_here]. by subst j.
    + exists o, rows. by rewrite Hsame.
  - exists b', ix', fs'. split_and!.
    + rewrite E, (rows_same names b b1 Hsame). cbn [mbind list_bind]. by rewrite List.filter_app, length_app, Nat2Z.inj_add, Z.add_assoc.
    + intros j [->|Hj]%elem_of_cons; [|unfold object_rows at 2; rewrite <- Hsame by done; by apply Hin].
      destruct (decide (k ∈ names)) as [|Hn]; [done|]. unfold object_rows at 1. rewrite Hout by done. exact Hrows1.
    + intros j [Hj1 Hj2]%not_elem_of_cons. by rewrite Hout, Hb1.
Qed.

Lemma dropped_keys keys (ix : gmap string (gset string)) k : k ∈ keys -> foldl (fun ix k => delete k ix) ix keys !! k = None.
Proof.
  assert (forall l (ix : gmap string (gset string)), ix !! k = None -> foldl (fun ix k => delete k ix) ix l !! k = None) as Hnone.
  { induction l as [|j l IH]; intros m Hm; [done|]. cbn [foldl]. apply IH. by apply lookup_delete_None; right. }
  revert ix. induction keys as [|j keys IH]; intros m Hk; [by apply elem_of_nil in Hk|]. cbn [foldl].
  apply elem_of_cons in Hk as [->|Hk]; [apply Hnone, lookup_delete_eq|by apply IH].
Qed.

Lemma object_name_set_elem members_ok ix keys k : k ∈ object_name_set range members_ok ix keys <-> k ∈ indexed_objects members_ok ix keys.
Proof.
  unfold object_name_set. rewrite (range_perm unit). split.
  - intros ([j []] & -> & Hj)%list_elem_of_fmap. apply elem_of_map_to_list, elem_of_list_to_map_2, list_elem_of_fmap in Hj as (i & [= ->] & Hi). done.
  - intros Hk. apply list_elem_of_fmap. exists (k, tt). split; [done|]. apply elem_of_map_to_list. apply elem_of_list_to_map_1'.
    + by intros [] _.
    + apply list_elem_of_fmap. by exists k.
Qed.

(** C15: deleting an id in the object store, on a node with Redis and MinIO. It
    removes the rows whose id is the literal of the id (the id itself, unless
    it has control characters) from the objects that the sets of the id name,
    keeps the other rows of these objects and all other objects, reports the
    number of rows, and drops the sets. If the sets name every object with such
    a row, none is left in the bucket. This assumes that every call of the
    servers, of DuckDB and of the file system succeeds, that the objects have
    distinct local names, and that no local copy of them exists beforehand. *)
Theorem delete_exact members_ok keys b ix fs :
  keys <> [] ->
  let names := object_name_set range members_ok ix keys in
  (forall j k, j ∈ names -> k ∈ names -> temp_path j = temp_path k -> j = k) -> Forall (ready b fs) names ->
  exists b' ix' fs', RewriteParquetForDelete md5_hex range tempDir row row_id read_parquet write_parquet
      true true env duck os now (Some keys) scan members_ok srem_ok true tableName id b ix fs =
      (Some (Z.of_nat (length (List.filter (of_id (literal id)) (names ≫= object_rows b))), true), b', ix', fs') /\
    (forall k, k ∈ names -> object_rows b' k = List.filter (fun r => negb (of_id (literal id) r)) (object_rows b k)) /\
    (forall k, k ∉ names -> b' !! k = b !! k) /\ (forall k, k ∈ keys -> ix' !! k = None) /\
    ((forall k r, r ∈ object_rows b k -> row_id r = literal id -> k ∈ indexed_objects members_ok ix keys) ->
      forall k r, r ∈ object_rows b' k -> row_id r <> literal id).
Proof.
  intros Hkeys names Hinj Hready. unfold RewriteParquetForDelete. destruct keys as [|key keys]; [done|]. fold names.
  assert (NoDup names) as Hnd by (unfold names, object_name_set; apply (range_NoDup range)).
  assert (exists b' ix' fs', (if bool_decide (names = []) then (Some (0, true), b, foldl (fun ix k => delete k ix) ix (key :: keys), fs)
      else let '(total, bucket, ix, fs) := foldl (fun '(total, bucket, ix, fs) objectName =>
        match rewriteSingleParquet env (duck objectName) os now scan srem_ok objectName tableName id bucket ix fs with
        | (Ok n, bucket, ix, fs) => (total + n, bucket, ix, fs)
        | (Err _, bucket, ix, fs) => (total, bucket, ix, fs)
        end) (0, b, ix, fs) names in (Some (total, true), bucket, foldl (fun ix k => delete k ix) ix (key :: keys), fs)) =
      (Some (Z.of_nat (length (List.filter (of_id (literal id)) (names ≫= object_rows b))), true), b', ix', fs') /\
    (forall k, k ∈ names -> object_rows b' k = List.filter (fun r => negb (of_id (literal id) r)) (object_rows b k)) /\
    (forall k, k ∉ names -> b' !! k = b !! k) /\ (forall k, k ∈ key :: keys -> ix' !! k = None)) as (b' & ix' & fs' & E & H1 & H2 & H3).
  { case_bool_decide as Hn.
    - rewrite Hn. eexists _, _, _. split_and!; [done|by intros k ?%elem_of_nil|done|apply dropped_keys].
    - destruct (rewrite_all names 0 b ix fs Hnd Hinj Hready) as (b' & ix' & fs' & E & H1 & H2). rewrite E, Z.add_0_l.
      eexists _, _, _. split_and!; [done|done|done|apply dropped_keys]. }
  exists b', ix', fs'. split_and!; [exact E|done..|].
  intros Hall k r Hr Hid. destruct (decide (k ∈ names)) as [Hk|Hk].
  - rewrite H1 in Hr by done. apply list_elem_of_In, filter_In in Hr as [_ Hr]. unfold of_id in Hr. by rewrite bool_decide_true in Hr.
  - assert (object_rows b' k = object_rows b k) as Eb by (unfold object_rows; by rewrite H2). rewrite Eb in Hr.
    apply Hk, object_name_set_elem. by eapply Hall.
Qed.
End run.
End delete.

(** ** Examples *)

Module DeleteDemo.

Abbreviation demo_row := (string * string)%type.
Definition read (s : string) : option (list demo_row) := decode_text s.
Definition write (rows : list demo_row) : string := encode_text rows.
Definition same_text (s : string) : string := s.
Definition calm : s3_env := mkS3Env (fun _ => true) (fun _ => true) (fun _ s => s) (fun _ => true) (fun _ => None) (fun _ => true) (fun _ => true).
Definition os : os_env := mkEnv (fun _ => true) true None true.
Definition duck (_ : string) : duck_env := mkDuck true true.
Definition object (rows : list demo_row) : s3_object := mkS3 (write rows) (write rows).

Definition b0 : objects := {[ "t/o1.parquet" := object [("x", "1"); ("y", "2")]; "t/o2.parquet" := object [("x", "3")] ]}.
Definition ix0 : gmap string (gset string) := {[ "index:table:t:id:x:2024-01-01" := {[ "t/o1.parquet"; "t/o2.parquet" ]} ]}.
Definition keys_x : list string := ["index:table:t:id:x:2024-01-01"].

Definition delete_ (id : string) (keys : list string) (b : objects) (ix : gmap string (gset string)) (fs : files) :=
  RewriteParquetForDelete same_text map_range "/tmp" demo_row fst read write true true calm duck os 5 (Some keys) (Some []) (fun _ => true) (fun _ => true) true "t" id b ix fs.

Lemma names0 : object_name_set map_range (fun _ => true) ix0 keys_x = ["t/o1.parquet"; "t/o2.parquet"].
Proof. vm_compute. reflexivity. Qed.

Lemma delete_exact_witness :
  exists b' ix' fs', delete_ "x" keys_x b0 ix0 ∅ = (Some (2, true), b', ix', fs') /\
    object_rows demo_row read b' "t/o1.parquet" = [("y", "2")] /\ ix' !! "index:table:t:id:x:2024-01-01" = None.
Proof.
  destruct (delete_exact same_text map_range "/tmp" demo_row fst read write (fun rows => decode_encode_text rows) calm
    ltac:(split; done) duck (fun _ => eq_refl) os (fun _ => eq_refl) 5 (Some []) (fun _ => true) "t" "x" (fun _ => true) keys_x b0 ix0 ∅)
    as (b' & ix' & fs' & E & H1 & _ & H3 & _).
  - discriminate.
  - rewrite names0.
    intros j k Hj Hk. set_unfold in Hj. set_unfold in Hk. destruct Hj as [->|[->|[]]], Hk as [->|[->|[]]]; done.
  - rewrite names0.
    apply Forall_forall. intros k Hk. set_unfold in Hk. destruct Hk as [->|[->|[]]]; split_and!; try (vm_compute; reflexivity); eexists _, _; split_and!; vm_compute; reflexivity.
  - exists b', ix', fs'. split_and!; [|rewrite H1|by apply H3; left].
    + unfold delete_. rewrite E. vm_compute. reflexivity.
    + vm_compute. reflexivity.
    + rewrite names0. by left.
Defined.

(** Node A has read the object of two rows through its cache of files. *)
Definition fc0 : FileCache := mkFileCache "/cache" 1000000 1000 0 ∅ ∅.
Definition read_at (now : Z) (b : objects) (k : string) (s : option FileCache * files) :=
  getFileWithCache same_text map_range "/tmp" os calm now b k s.1 s.2.
Definition rows_at (r : result (cache_file_error file_error) string * option FileCache * files) : option (list demo_row) :=
  match r.1.1 with Ok p => (r.2 !! p) ≫= (fun f => read (content f)) | Err _ => None end.
Definition a1 := read_at 1 b0 "t/o1.parquet" (Some fc0, ∅).

Definition half_written : s3_env :=
  mkS3Env (fun _ => true) (fun _ => true) (fun _ s => s) (fun _ => false) (fun _ => Some (write [("y", "2")])) (fun _ => true) (fun _ => true).

(** An id with a control character: the sets of [x] and a bell are found, but
    the statement deletes the rows of [x]. And a node without Redis deletes
    nothing and reports no error. *)
Definition id_bell : string := String "x" (String "007" "").

Theorem delete_by_literal :
  literal id_bell = "x" /\
  (let '(r, b', _, _) := delete_ id_bell keys_x b0 ix0 ∅ in
   r = Some (2, true) /\ object_rows demo_row read b' "t/o1.parquet" = [("y", "2")]) /\
  RewriteParquetForDelete same_text map_range "/tmp" demo_row fst read write false true calm duck os 5 (Some keys_x) (Some [])
    (fun _ => true) (fun _ => true) true "t" "x" b0 ix0 ∅ = (Some (0, false), b0, ix0, ∅).
Proof. split; [vm_compute; reflexivity|]. split; [|reflexivity]. vm_compute. split; reflexivity. Qed.

(** Stale local copies. After an id was deleted, a query still gets its rows
    from the cache of files, which the deletion does not clear. A node that has
    a copy from before another node's deletion rewrites that copy: its own
    deletion brings the deleted row back. And a write that fails halfway leaves
    a file that the next download takes for the object, unchecked. *)
Theorem stale_copies :
  (let '(_, b', _, fs') := delete_ "x" keys_x b0 ix0 a1.2 in
   object_rows demo_row read b' "t/o1.parquet" = [("y", "2")] /\
   rows_at (read_at 6 b' "t/o1.parquet" (a1.1.2, fs')) = Some [("x", "1"); ("y", "2")]) /\
  (let '(_, by_other, _, _) := delete_ "x" keys_x b0 ix0 ∅ in
   let '(_, b', _, _) := delete_ "y" ["index:table:t:id:y:2024-01-01"] by_other {[ "index:table:t:id:y:2024-01-01" := {[ "t/o1.parquet" ]} ]} a1.2 in
   object_rows demo_row read by_other "t/o1.parquet" = [("y", "2")] /\ object_rows demo_row read b' "t/o1.parquet" = [("x", "1")]) /\
  (let '(r, fs) := downloadToTemp same_text "/tmp" half_written 1 b0 "t/o1.parquet" ∅ in
   r = Err WriteFileFailed /\ rows_at (read_at 2 b0 "t/o1.parquet" (None, fs)) = Some [("y", "2")]).
Proof. vm_compute. split_and!; reflexivity. Qed.
End DeleteDemo.
