(* ===== verification/QueryEngine.v ===== *)
(** * The query engine (internal/query/query.go)

    A query is checked, looked up in the cache, and otherwise run by DuckDB on
    views of the tables it names: one view per table, over the temporary files
    of the buffered rows and the local copies of the objects that the optimizer
    selects. DuckDB itself is a parameter: what it answers for a statement, a
    set of views and a file system. Every statement it is given is logged. *)

From S2P Require Import Prelude GoStrings GoTime GoFloat GoHeap GoOrder FieldMapping ConcurrentBuffer ConsistentHash SqlSanitizer SelectQuery TableExtractor QueryCache FileCache Pruning QueryFilesTheorems.
From Stdlib Require Import Ascii SpecFloat.
#[local] Open Scope Z_scope.

(** ** Counters *)

Record QueryStats := mkQueryStats {
  TotalQueries : Z; CacheHits : Z; CacheMisses : Z; AvgQueryTime : Z; TotalQueryTime : Z; FastestQuery : Z; SlowestQuery : Z;
  ErrorCount : Z; FileDownloads : Z; TablesQueried : gmap string Z; QueryTypes : gmap string Z;
}.
Definition NewQueryStats : QueryStats := mkQueryStats 0 0 0 0 0 (3600 * second) 0 0 0 ∅ ∅.

Definition bump (k : string) (m : gmap string Z) : gmap string Z := <[k := int64 (default 0 (m !! k) + 1)]> m.

Definition updateQueryStats (tables : list string) (queryTime : Z) (queryType : string) (s : QueryStats) : QueryStats :=
  let n := int64 (TotalQueries s + 1) in
  let t := int64 (TotalQueryTime s + queryTime) in
  mkQueryStats n (CacheHits s) (CacheMisses s) (int64 (Z.quot t n)) t
    (if queryTime <? FastestQuery s then queryTime else FastestQuery s) (if SlowestQuery s <? queryTime then queryTime else SlowestQuery s)
    (ErrorCount s) (FileDownloads s) (foldl (fun m k => bump k m) (TablesQueried s) tables) (bump queryType (QueryTypes s)).

Definition updateCacheHitStats (tables : list string) (s : QueryStats) : QueryStats :=
  mkQueryStats (int64 (TotalQueries s + 1)) (int64 (CacheHits s + 1)) (CacheMisses s) (AvgQueryTime s) (TotalQueryTime s) (FastestQuery s)
    (SlowestQuery s) (ErrorCount s) (FileDownloads s) (foldl (fun m k => bump k m) (TablesQueried s) tables) (QueryTypes s).

Definition updateCacheMissStats (s : QueryStats) : QueryStats :=
  mkQueryStats (TotalQueries s) (CacheHits s) (int64 (CacheMisses s + 1)) (AvgQueryTime s) (TotalQueryTime s) (FastestQuery s)
    (SlowestQuery s) (ErrorCount s) (FileDownloads s) (TablesQueried s) (QueryTypes s).

Definition updateErrorStats (s : QueryStats) : QueryStats :=
  mkQueryStats (TotalQueries s) (CacheHits s) (CacheMisses s) (AvgQueryTime s) (TotalQueryTime s) (FastestQuery s)
    (SlowestQuery s) (int64 (ErrorCount s + 1)) (FileDownloads s) (TablesQueried s) (QueryTypes s).

(** ** The connection pool *)

Record DuckDBPool := mkPool { connections : list nat; maxConns : Z; created : Z; next_conn : nat }.

Definition NewDuckDBPool (open_ok : bool) (max : Z) : option DuckDBPool := if open_ok then Some (mkPool [0%nat] max 1 1) else None.

Inductive pool_outcome := Got (db : nat) | OpenFailed | WouldWait.

(** [Get] up to the point where it waits for a connection to be returned. *)
Definition pool_Get (open_ok : bool) (p : DuckDBPool) : pool_outcome * DuckDBPool :=
  match connections p with
  | db :: rest => (Got db, mkPool rest (maxConns p) (created p) (next_conn p))
  | [] =>
      if created p <? maxConns p then
        if open_ok then (Got (next_conn p), mkPool [] (maxConns p) (created p + 1) (S (next_conn p))) else (OpenFailed, p)
      else (WouldWait, p)
  end.

(** A full channel closes the connection. *)
Definition pool_Put (db : nat) (p : DuckDBPool) : DuckDBPool :=
  if Z.of_nat (length (connections p)) <? maxConns p then mkPool (connections p ++ [db]) (maxConns p) (created p) (next_conn p)
  else mkPool (connections p) (maxConns p) (created p - 1) (next_conn p).

(** ** Prepared statements *)

(** Most recently used first; the map of the code finds the same elements. *)
Record stmtCache := mkStmtCache { lru : list string; maxSize : Z }.
Definition newStmtCache (max : Z) : stmtCache := mkStmtCache [] max.
Definition to_front (k : string) (l : list string) : list string := k :: List.filter (fun j => negb (j =? k)%string) l.
Definition stmt_Get (k : string) (c : stmtCache) : bool * stmtCache :=
  if existsb (String.eqb k) (lru c) then (true, mkStmtCache (to_front k (lru c)) (maxSize c)) else (false, c).
Definition stmt_Put (k : string) (c : stmtCache) : stmtCache :=
  if existsb (String.eqb k) (lru c) then mkStmtCache (to_front k (lru c)) (maxSize c) else
  let l := if maxSize c <=? Z.of_nat (length (lru c)) then removelast (lru c) else lru c in
  mkStmtCache (k :: l) (maxSize c).

Definition canUsePreparedStatement (toLower : string -> string) (sqlQuery : string) : bool :=
  let q := toLower (TrimSpace sqlQuery) in
  GoStrings.Contains q "count(" || GoStrings.Contains q "sum(" || GoStrings.Contains q "avg(" || GoStrings.Contains q "group by".

(** ** The engine *)

Inductive prepare_error := ErrNoDataFiles | ErrStorageUnavailable | BadTable (e : build_error) | CreateViewFailed | VerifyViewFailed | ScanFailed.
Inductive execute_error := ValidationFailed (e : query_error) | NoTables | NoValidTables | NoConnection | Unavailable | PrepareFailed (t : string) (e : prepare_error) | ExecFailed.

(** What a query works on; the views are those of its connection. *)
Record engine := mkEngine {
  fileCache : option FileCache; local : files; pruner : ColumnPruner; views : gmap string string; statements : list string;
  viewCache : gmap string string; stmts : stmtCache; queryStats : QueryStats;
}.

(** The environment of a query. *)
Record query_env := mkQueryEnv {
  calls : s3_env; os : os_env; now : Z; bucket : objects; temp_ok : string -> bool;
  scanned : string -> option (list string); members_answered : string -> bool; sets : gmap string (gset string); metadata : gmap string FileMetadata;
  sidecars : string -> option FileMetadata; redis : bool; memory_of : memory; exec_ok : string -> bool; query_time : Z;
}.

Section engine.
Context (md5_hex : string -> string) (range : forall A, gmap string A -> list (string * A)) (tempDir : string) (Clean : string -> string).
Context (toLower toUpper : string -> string) (EqualFold : string -> string -> bool) (ParseFloat : string -> option spec_float)
  (show_float : spec_float -> string) (show_time : Z -> string) (upper_trim : string -> string).
Context (encode_rows : list DataRow -> string).
(** The answer of DuckDB to a query, and the JSON text of its rows. *)
Context (qrow : Type) (duckdb : gmap string string -> files -> string -> option (list qrow)) (marshal_rows : list qrow -> option string).
(** The encryption manager, if it is enabled. *)
Context (decrypt : option (qrow -> option qrow)).

Definition set_files (fc : option FileCache) (fs : files) (e : engine) : engine :=
  mkEngine fc fs (pruner e) (views e) (statements e) (viewCache e) (stmts e) (queryStats e).
Definition run_statement (sql : string) (e : engine) : engine :=
  mkEngine (fileCache e) (local e) (pruner e) (views e) (statements e ++ [sql]) (viewCache e) (stmts e) (queryStats e).
Definition set_views (v : gmap string string) (e : engine) : engine :=
  mkEngine (fileCache e) (local e) (pruner e) v (statements e) (viewCache e) (stmts e) (queryStats e).
Definition set_pruner (p : ColumnPruner) (e : engine) : engine :=
  mkEngine (fileCache e) (local e) p (views e) (statements e) (viewCache e) (stmts e) (queryStats e).
Definition set_viewCache (c : gmap string string) (e : engine) : engine :=
  mkEngine (fileCache e) (local e) (pruner e) (views e) (statements e) c (stmts e) (queryStats e).
Definition set_stmts (c : stmtCache) (e : engine) : engine :=
  mkEngine (fileCache e) (local e) (pruner e) (views e) (statements e) (viewCache e) c (queryStats e).
Definition count (f : QueryStats -> QueryStats) (e : engine) : engine :=
  mkEngine (fileCache e) (local e) (pruner e) (views e) (statements e) (viewCache e) (stmts e) (f (queryStats e)).

(** *** Files *)

Definition createTempFilePath (bufferKey : string) : string := tempDir +:+ "/buffer_" +:+ Clean bufferKey +:+ ".parquet".

Definition getBufferFilesForTable (env : query_env) (tableName : string) (fs : files) : list string * files :=
  foldl (fun '(paths, fs) key =>
    let rows := ConcurrentBuffer.Get key (memory_of env) in
    let p := createTempFilePath key in
    if bool_decide (rows = []) || negb (temp_ok env p) then (paths, fs)
    else (paths ++ [p], <[p := mkFile (encode_rows rows) (now env)]> fs)) ([], fs) (GetTableKeys tableName (memory_of env)).

(** Paths, then the numbers of files not found and of other errors. *)
Definition fetch (env : query_env) (acc : list string * (Z * Z) * (option FileCache * files)) (m : FileMetadata) :
    list string * (Z * Z) * (option FileCache * files) :=
  let '(paths, (nf, other), (fc, fs)) := acc in
  match getFileWithCache md5_hex range tempDir (os env) (calls env) (now env) (bucket env) (FilePath m) fc fs with
  | (Ok p, fc, fs) => (paths ++ [p], (nf, other), (fc, fs))
  | (Err e, fc, fs) => (paths, (if is_not_found e then (nf + 1, other) else (nf, other + 1)), (fc, fs))
  end.

Definition storage_metadata (env : query_env) (tableName : string) : option (list FileMetadata) :=
  if redis env then getStorageFilesMetadata ParseFloat (scanned env (table_pattern tableName)) (members_answered env) (sets env) (metadata env)
  else Some (getStorageFilesMetadataFromMinIO range ParseFloat (sidecars env) (bucket env) tableName).

(** *** Views *)

Definition hex8 (files : list string) : string :=
  String.substring 0 16 (sha256_hex (Join "|" (SortStrings files))).

(** [filesHash] sorts a copy and hashes it; a connection has one view cache here. *)
Definition filesHash := hex8.

Definition updateViewCache (tableName : string) (files : list string) (e : engine) : engine :=
  let c := if 10000 <=? Z.of_nat (base.size (viewCache e)) then ∅ else viewCache e in
  set_viewCache (<[tableName := filesHash files]> c) e.

Definition exec_drop (env : query_env) (tableName sql : string) (e : engine) : engine :=
  let e := run_statement sql e in if exec_ok env sql then set_views (delete tableName (views e)) e else e.

Definition createTableViewWithDB (env : query_env) (tableName : string) (files : list string) (e : engine) : result prepare_error unit * engine :=
  if bool_decide (files = []) then (Ok tt, e) else
  if bool_decide (viewCache e !! tableName = Some (filesHash files)) then (Ok tt, e) else
  match BuildSafeDropViewSQL tableName with
  | Err err => (Err (BadTable err), e)
  | Ok dropViewSQL =>
      let e := exec_drop env tableName dropViewSQL e in
      match BuildSafeCreateViewSQL tableName files with
      | Err err => (Err (BadTable err), e)
      | Ok createViewSQL =>
          let e := run_statement createViewSQL e in
          if negb (exec_ok env createViewSQL) then (Err CreateViewFailed, e) else
          let e := set_views (<[tableName := createViewSQL]> (views e)) e in
          match BuildSafeSelectSQL upper_trim tableName [] "" "" with
          | Err err => (Err (BadTable err), e)
          | Ok testSQL =>
              let testSQL := testSQL +:+ " LIMIT 0" in
              let e := run_statement testSQL e in
              if exec_ok env testSQL then (Ok tt, updateViewCache tableName files e) else (Err VerifyViewFailed, e)
          end
      end
  end.

Definition createTableViewWithDBWithColumnPruning (env : query_env) (tableName : string) (files : list string) (sqlQuery : string) (e : engine) :
    result prepare_error unit * engine :=
  if bool_decide (files = []) then (Ok tt, e) else
  let '(requiredColumns, cp) := ExtractRequiredColumns toUpper EqualFold (pruner e) sqlQuery in
  let e := set_pruner cp e in
  let createViewSQL := BuildOptimizedViewSQL (pruner e) tableName files requiredColumns in
  match BuildSafeDropViewSQL tableName with
  | Err err => (Err (BadTable err), e)
  | Ok dropViewSQL =>
      let e := exec_drop env tableName dropViewSQL e in
      let e := run_statement createViewSQL e in
      if negb (exec_ok env createViewSQL) then (Err CreateViewFailed, e) else
      let e := set_views (<[tableName := createViewSQL]> (views e)) e in
      match BuildSafeSelectSQL upper_trim tableName requiredColumns "" "LIMIT 0" with
      | Err err => (Err (BadTable err), e)
      | Ok testSQL =>
          let e := run_statement testSQL e in
          if exec_ok env testSQL then (Ok tt, e) else (Err VerifyViewFailed, e)
      end
  end.

(** [prepareTableDataWithCacheAndDB], after a scan that failed; it scans again. *)
Definition prepareTableDataWithCacheAndDB (env : query_env) (tableName : string) (e : engine) : result prepare_error unit * engine :=
  let '(bufferFiles, fs) := getBufferFilesForTable env tableName (local e) in
  match scanned env (table_pattern tableName) with
  | None => (Err ScanFailed, set_files (fileCache e) fs e)
  | Some keys =>
      let names := indexed_objects (members_answered env) (sets env) keys in
      let '(storageFiles, _, (fc, fs)) := foldl (fetch env) ([], (0, 0), (fileCache e, fs)) ((fun n => mkFileMetadata n 0 ∅ ∅) <$> names) in
      createTableViewWithDB env tableName (bufferFiles ++ storageFiles) (set_files fc fs e)
  end.

Definition selected (sqlQuery : string) (metas : list FileMetadata) : list FileMetadata :=
  match metas with
  | [] => []
  | _ => SelectedFiles (OptimizeQuery toLower ParseFloat show_float show_time sqlQuery metas)
  end.

Definition prepareTableDataWithPruning (env : query_env) (tableName sqlQuery : string) (e : engine) : result prepare_error unit * engine :=
  let '(bufferFiles, fs) := getBufferFilesForTable env tableName (local e) in
  match storage_metadata env tableName with
  | None => prepareTableDataWithCacheAndDB env tableName (set_files (fileCache e) fs e)
  | Some metas =>
      let '(storageFiles, (nf, other), (fc, fs)) := foldl (fetch env) ([], (0, 0), (fileCache e, fs)) (selected sqlQuery metas) in
      let e := set_files fc fs e in
      match bufferFiles ++ storageFiles with
      | [] => if (0 <? Z.of_nat (length metas)) && (0 <? other) then (Err ErrStorageUnavailable, e) else (Err ErrNoDataFiles, e)
      | allFiles => createTableViewWithDBWithColumnPruning env tableName allFiles sqlQuery e
      end
  end.

(** *** Results *)

Definition formatResults (rows : list qrow) : string := match rows with [] => "[]" | _ => default "[]" (marshal_rows rows) end.
Definition processQueryResults (rows : list qrow) : string :=
  formatResults (match decrypt with Some d => (fun r => default r (d r)) <$> rows | None => rows end).

Definition db_query (sqlQuery : string) (e : engine) : result execute_error string * engine :=
  let e := run_statement sqlQuery e in
  match duckdb (views e) (local e) sqlQuery with
  | Some rows => (Ok (processQueryResults rows), e)
  | None => (Err ExecFailed, e)
  end.

(** A statement that is prepared already runs on the views of now. *)
Definition executeWithPreparedStatement (prepare_ok : bool) (sqlQuery : string) (e : engine) : result execute_error string * engine :=
  let '(exists_, c) := stmt_Get sqlQuery (stmts e) in
  let e := set_stmts c e in
  if exists_ then db_query sqlQuery e
  else if prepare_ok then db_query sqlQuery (set_stmts (stmt_Put sqlQuery (stmts e)) e) else db_query sqlQuery e.

Definition executeQueryWithOptimization (prepare_ok : bool) (sqlQuery : string) (e : engine) : result execute_error string * engine :=
  match ValidateSelectQuery toLower sqlQuery with
  | Err err => (Err (ValidationFailed err), e)
  | Ok _ => if canUsePreparedStatement toLower sqlQuery then executeWithPreparedStatement prepare_ok sqlQuery e else db_query sqlQuery e
  end.

(** *** A query *)

Fixpoint prepare_tables (env : query_env) (tables : list string) (sqlQuery : string) (e : engine) : result execute_error bool * engine :=
  match tables with
  | [] => (Ok true, e)
  | t :: tables =>
      match prepareTableDataWithPruning env t sqlQuery e with
      | (Ok _, e) => prepare_tables env tables sqlQuery e
      | (Err ErrNoDataFiles, e) => (Ok false, e)
      | (Err ErrStorageUnavailable, e) => (Err Unavailable, count updateErrorStats e)
      | (Err err, e) => (Err (PrepareFailed t err), count updateErrorStats e)
      end
  end.

(** Steps 3 to 8; [conn]: there is a connection. With the answer comes whether
    DuckDB gave it; the empty answer for a table without files is not cached
    and not counted. *)
Definition run_query (env : query_env) (conn prepare_ok : bool) (tables : list string) (sqlQuery : string) (e : engine) :
    result execute_error (string * bool) * engine :=
  let e := count updateCacheMissStats e in
  if negb conn then (Err NoConnection, count updateErrorStats e) else
  match prepare_tables env tables sqlQuery e with
  | (Err err, e) => (Err err, e)
  | (Ok false, e) => (Ok ("[]", false), e)
  | (Ok true, e) =>
      match executeQueryWithOptimization prepare_ok sqlQuery e with
      | (Err err, e) => (Err err, count updateErrorStats e)
      | (Ok r, e) => (Ok (r, true), count (updateQueryStats tables (query_time env) (GetQueryType toLower sqlQuery)) e)
      end
  end.

Definition checked_tables (sqlQuery : string) : result execute_error (list string) :=
  match ValidateSelectQuery toLower sqlQuery with
  | Err err => Err (ValidationFailed err)
  | Ok _ =>
      let tables := ExtractTableNames sqlQuery in
      match tables, ValidateTableNames tables with
      | [], _ => Err NoTables
      | _, [] => Err NoValidTables
      | _, valid => Ok valid
      end
  end.

Section cached.
Context {R} `{!CacheCommands R} (marshal : CacheEntry -> string) (unmarshal : string -> option CacheEntry) (ok : cache_command -> bool).

Definition ExecuteQuery (env : query_env) (conn prepare_ok : bool) (sqlQuery : string) (qc : option QueryCache) (r : R) (e : engine) :
    result execute_error string * option QueryCache * R * engine :=
  match checked_tables sqlQuery with
  | Err err => (Err err, qc, r, count updateErrorStats e)
  | Ok tables =>
      let '(hit, qc) := match qc with
                        | Some c => let '(h, c) := QueryCache.Get unmarshal ok (now env) sqlQuery tables c r in (h, Some c)
                        | None => (None, None)
                        end in
      match hit with
      | Some entry => (Ok (Result entry), qc, r, count (updateCacheHitStats tables) e)
      | None =>
          match run_query env conn prepare_ok tables sqlQuery e, qc with
          | (Ok (res, true), e), Some c =>
              let '(_, c, r) := Set_ marshal toLower ok (now env) sqlQuery res tables c r in (Ok res, Some c, r, e)
          | (Ok (res, _), e), qc => (Ok res, qc, r, e)
          | (Err err, e), qc => (Err err, qc, r, e)
          end
      end
  end.
End cached.
End engine.
