(* ===== verification/QueryEngineTheorems.v ===== *)
(** * What the query engine guarantees (internal/query/query.go)

    Only checked statements reach DuckDB; connections of the pool are never
    shared; and on a single node the view of a table covers every buffered row
    and every stored file with a row that the statement asks for. *)

From S2P Require Import Prelude GoStrings GoTime GoFloat GoHeap GoOrder FieldMapping ConcurrentBuffer ConsistentHash SqlSanitizer SelectQuery TableExtractor QueryCache FileCache Pruning PruningTheorems QueryFilesTheorems QueryEngine.
From Stdlib Require Import Ascii SpecFloat.
#[local] Open Scope Z_scope.

(** ** The pool *)

(** [Get] and [Put] by the holders of connections. *)
Inductive pool_step : DuckDBPool * list nat -> DuckDBPool * list nat -> Prop :=
| pool_take ok p held db p' : pool_Get ok p = (Got db, p') -> pool_step (p, held) (p', db :: held)
| pool_give p l db r : pool_step (p, l ++ db :: r) (pool_Put db p, l ++ r).

Record pool_ok (s : DuckDBPool * list nat) : Prop := {
  po_distinct : NoDup (connections s.1 ++ s.2);
  po_fresh : Forall (fun c => (c < next_conn s.1)%nat) (connections s.1 ++ s.2);
  po_created : created s.1 = Z.of_nat (length (connections s.1) + length s.2);
  po_max : created s.1 <= maxConns s.1;
}.

Lemma pool_ok_step s s' : pool_step s s' -> pool_ok s -> pool_ok s'.
Proof.
  intros Hs [Hd Hf Hc Hm]. destruct Hs as [ok p held db p' E|p l db r]; cbn [fst snd] in *.
  - unfold pool_Get in E. destruct (connections p) as [|c rest] eqn:Ec.
    + destruct (Z.ltb_spec (created p) (maxConns p)); [|done]. destruct ok; [|done]. injection E as <- <-.
      split; cbn [fst snd connections created maxConns next_conn app length] in *; [| |lia..].
      * constructor; [|done]. intros Hin. rewrite Forall_forall in Hf. apply Hf in Hin. lia.
      * constructor; [lia|]. eapply Forall_impl; [exact Hf|]. cbn. lia.
    + injection E as <- <-. split; cbn [fst snd connections created maxConns next_conn app length] in *; [| |lia..].
      * by rewrite <- Permutation_middle.
      * rewrite <- Permutation_middle. done.
  - assert (connections p ++ l ++ db :: r ≡ₚ (connections p ++ [db]) ++ l ++ r) as Hp.
    { rewrite <- app_assoc. cbn [app]. apply Permutation_app; [done|]. symmetry. apply Permutation_middle. }
    rewrite length_app in Hc. cbn [length] in Hc.
    unfold pool_Put. destruct (Z.ltb_spec (Z.of_nat (length (connections p))) (maxConns p)); split;
      cbn [fst snd connections created maxConns next_conn] in *; rewrite ?length_app; cbn [length]; try lia.
    + by rewrite <- Hp.
    + by rewrite <- Hp.
Qed.

(** However clients take connections from the pool and give them back, no two
    of them hold the same connection at a time, none that is held is in the
    pool, and there are never more than the configured number. *)
Theorem pool_exclusive max p0 p held : 1 <= max -> NewDuckDBPool true max = Some p0 -> rtc pool_step (p0, []) (p, held) ->
  NoDup held /\ (forall c, c ∈ held -> c ∉ connections p) /\ Z.of_nat (length held) <= max.
Proof.
  intros Hmax [= <-] Hr. assert (pool_ok (p, held) /\ maxConns (p, held).1 = max) as [[Hd _ Hc Hm] Hmx].
  { revert Hr. apply (rtc_ind_r (fun s => pool_ok s /\ maxConns s.1 = max)).
    - split; [|done]. split; cbn; [repeat constructor; by intros ?%elem_of_nil|repeat constructor|done|lia].
    - intros s s' _ Hs [Hok Hmx]. split; [by eapply pool_ok_step|]. rewrite <- Hmx. clear - Hs.
      destruct Hs as [ok q h db q' E|q l db r]; cbn [fst].
      + unfold pool_Get in E. destruct (connections q); [|by injection E as <- <-]. destruct (_ <? _); [|done]. destruct ok; [|done]. by injection E as <- <-.
      + unfold pool_Put. by destruct (_ <? _). }
  cbn [fst snd] in *. apply NoDup_app in Hd as (_ & Hd & Hheld). split_and!; [done| |lia]. intros c Hc1 Hc2. by apply (Hd c).
Qed.

(** ** Statements *)

Section engine.
Context (md5_hex : string -> string) (range : forall A, gmap string A -> list (string * A)) (tempDir : string) (Clean : string -> string).
Context (toLower toUpper : string -> string) (EqualFold : string -> string -> bool) (ParseFloat : string -> option spec_float)
  (show_float : spec_float -> string) (show_time : Z -> string) (upper_trim : string -> string).
Context (encode_rows : list DataRow -> string).
Context (qrow : Type) (duckdb : gmap string string -> files -> string -> option (list qrow)) (marshal_rows : list qrow -> option string).
Context (decrypt : option (qrow -> option qrow)).

Abbreviation prepareTableDataWithPruning := (prepareTableDataWithPruning md5_hex range tempDir Clean toLower toUpper EqualFold ParseFloat show_float show_time upper_trim encode_rows).
Abbreviation prepare_tables := (prepare_tables md5_hex range tempDir Clean toLower toUpper EqualFold ParseFloat show_float show_time upper_trim encode_rows).
Abbreviation run_query := (run_query md5_hex range tempDir Clean toLower toUpper EqualFold ParseFloat show_float show_time upper_trim encode_rows qrow duckdb marshal_rows decrypt).
Abbreviation createPruned := (createTableViewWithDBWithColumnPruning toUpper EqualFold upper_trim).
Abbreviation createPlain := (createTableViewWithDB upper_trim).
Abbreviation executeQuery := (executeQueryWithOptimization toLower qrow duckdb marshal_rows decrypt).

(** The statements the engine makes for the view of a table with a checked name. *)
Definition view_statement (t s : string) : Prop :=
  ValidateTableName t = Ok tt /\
  (BuildSafeDropViewSQL t = Ok s \/ (exists cp files cols, s = BuildOptimizedViewSQL cp t files cols) \/
   (exists files, BuildSafeCreateViewSQL t files = Ok s) \/
   (exists cols suffix s', BuildSafeSelectSQL upper_trim t cols "" suffix = Ok s' /\ (s = s' \/ s = s' +:+ " LIMIT 0"))).

(** What is appended to the log. *)
Definition adds (P : string -> Prop) (e e' : engine) : Prop := exists l, statements e' = statements e ++ l /\ Forall P l.

Lemma adds_same P e e' : statements e' = statements e -> adds P e e'.
Proof. intros H. exists []. by rewrite app_nil_r. Qed.

Lemma adds_trans P e1 e2 e3 : adds P e1 e2 -> adds P e2 e3 -> adds P e1 e3.
Proof. intros (l1 & H1 & F1) (l2 & H2 & F2). exists (l1 ++ l2). rewrite H2, H1, app_assoc. split; [done|]. by apply Forall_app. Qed.

Lemma adds_one (P : string -> Prop) s e e' : P s -> adds P (run_statement s e) e' -> adds P e e'.
Proof. intros Hs. apply adds_trans. exists [s]. split; [done|]. by constructor. Qed.

Lemma adds_impl (P Q : string -> Prop) e e' : (forall s, P s -> Q s) -> adds P e e' -> adds Q e e'.
Proof. intros H (l & E & F). exists l. split; [done|]. by eapply Forall_impl. Qed.

Lemma drop_valid t s : BuildSafeDropViewSQL t = Ok s -> ValidateTableName t = Ok tt.
Proof. unfold BuildSafeDropViewSQL. by destruct (ValidateTableName t) as [[]|]. Qed.

Lemma exec_drop_adds env t s e : BuildSafeDropViewSQL t = Ok s -> adds (view_statement t) e (exec_drop env t s e).
Proof.
  intros H. apply (adds_one _ s); [split; [by eapply drop_valid|by left]|]. unfold exec_drop. destruct (exec_ok env s); by apply adds_same.
Qed.

Lemma createPruned_adds env t files sql e : adds (view_statement t) e (createPruned env t files sql e).2.
Proof.
  unfold createTableViewWithDBWithColumnPruning. destruct (bool_decide (files = [])); [by apply adds_same|].
  destruct (ExtractRequiredColumns _ _ _ _) as [cols cp]. destruct (BuildSafeDropViewSQL t) as [d|err] eqn:Ed; [|by apply adds_same].
  apply drop_valid in Ed as Hv. cbn [pruner set_pruner].
  eapply adds_trans; [apply (adds_same _ e (set_pruner cp e)); done|]. eapply adds_trans; [by apply (exec_drop_adds env)|].
  eapply adds_one; [split; [exact Hv|right; left; by eexists _, _, _]|].
  destruct (exec_ok env _); cbn [negb]; [|by apply adds_same]. destruct (BuildSafeSelectSQL _ _ _ _ _) as [s|err] eqn:Es; [|by apply adds_same].
  eapply adds_trans; [by apply adds_same|]. eapply (adds_one _ s); [split; [exact Hv|right; right; right; eexists _, _, _; split; [exact Es|by left]]|].
  destruct (exec_ok env s); by apply adds_same.
Qed.

Lemma createPlain_adds env t files e : adds (view_statement t) e (createPlain env t files e).2.
Proof.
  unfold createTableViewWithDB. destruct (bool_decide (files = [])); [by apply adds_same|]. destruct (bool_decide _); [by apply adds_same|].
  destruct (BuildSafeDropViewSQL t) as [d|err] eqn:Ed; [|by apply adds_same]. apply drop_valid in Ed as Hv.
  eapply adds_trans; [by apply (exec_drop_adds env)|].
  destruct (BuildSafeCreateViewSQL t files) as [c|err] eqn:Ec; [|by apply adds_same].
  eapply (adds_one _ c); [split; [exact Hv|right; right; left; by eexists]|]. destruct (exec_ok env _); cbn [negb]; [|by apply adds_same].
  destruct (BuildSafeSelectSQL _ _ _ _ _) as [s|err] eqn:Es; [|by apply adds_same].
  eapply adds_trans; [by apply adds_same|].
  eapply (adds_one _ (s +:+ " LIMIT 0")); [split; [exact Hv|right; right; right; eexists _, _, _; split; [exact Es|by right]]|].
  destruct (exec_ok env _); by apply adds_same.
Qed.

Lemma prepare_adds env t sql e : adds (view_statement t) e (prepareTableDataWithPruning env t sql e).2.
Proof.
  unfold QueryEngine.prepareTableDataWithPruning. destruct (getBufferFilesForTable _ _ _ _ _ _) as [bf fs]. destruct (storage_metadata _ _ _ _) as [metas|].
  - destruct (foldl _ _ _) as [[sf [nf other]] [fc fs']]. destruct (bf ++ sf) as [|x l].
    + destruct (_ && _); by apply adds_same.
    + eapply adds_trans; [|apply createPruned_adds]. by apply adds_same.
  - unfold prepareTableDataWithCacheAndDB. destruct (getBufferFilesForTable _ _ _ _ _ _) as [bf' fs'']. destruct (scanned env _) as [keys|]; [|by apply adds_same].
    destruct (foldl _ _ _) as [[sf cnt] [fc fs']]. eapply adds_trans; [|apply createPlain_adds]. by apply adds_same.
Qed.

Lemma prepare_tables_adds env tables sql e :
  adds (fun s => exists t, t ∈ tables /\ view_statement t s) e (prepare_tables env tables sql e).2.
Proof.
  revert e. induction tables as [|t tables IH]; intros e; cbn [QueryEngine.prepare_tables]; [by apply adds_same|].
  pose proof (prepare_adds env t sql e) as H. destruct (prepareTableDataWithPruning env t sql e) as [r e1] eqn:E. cbn [snd] in H.
  assert (adds (fun s => exists u, u ∈ t :: tables /\ view_statement u s) e e1) as H1.
  { eapply adds_impl; [|exact H]. intros s Hs. exists t. split; [apply list_elem_of_here|done]. }
  destruct r as [[]|err].
  - eapply adds_trans; [exact H1|]. eapply adds_impl; [|apply IH]. intros s (u & Hu & Hs). exists u. split; [by apply list_elem_of_further|done].
  - eapply adds_trans; [exact H1|]. destruct err; by apply adds_same.
Qed.

Lemma execute_adds ok sql e : adds (fun s => s = sql /\ ValidateSelectQuery toLower s = Ok tt) e (executeQuery ok sql e).2.
Proof.
  unfold executeQueryWithOptimization. destruct (ValidateSelectQuery toLower sql) as [[]|err] eqn:Ev; [|by apply adds_same].
  assert (forall e, adds (fun s => s = sql /\ ValidateSelectQuery toLower s = Ok tt) e (db_query qrow duckdb marshal_rows decrypt sql e).2) as Hq.
  { intros e0. unfold db_query. eapply (adds_one _ sql); [done|]. destruct (duckdb _ _ _); by apply adds_same. }
  destruct (canUsePreparedStatement toLower sql); [|apply Hq]. unfold executeWithPreparedStatement. destruct (stmt_Get sql (stmts e)) as [b c].
  destruct b; [|destruct ok]; (eapply adds_trans; [|apply Hq]); by apply adds_same.
Qed.

(** A query that passed the check, or a statement for one of these tables. *)
Definition allowed (sql : string) (tables : list string) (s : string) : Prop :=
  (s = sql /\ ValidateSelectQuery toLower s = Ok tt) \/ exists t, t ∈ tables /\ view_statement t s.

Lemma run_query_adds env conn ok tables sql e :
  adds (allowed sql tables) e (run_query env conn ok tables sql e).2.
Proof.
  unfold QueryEngine.run_query. destruct conn; cbn [negb]; [|by apply adds_same].
  pose proof (prepare_tables_adds env tables sql (count updateCacheMissStats e)) as H.
  destruct (prepare_tables env tables sql (count updateCacheMissStats e)) as [r e1]. cbn [snd] in H.
  assert (adds (allowed sql tables) e e1) as H1.
  { eapply adds_trans; [apply (adds_same _ e (count updateCacheMissStats e)); done|]. eapply adds_impl; [|exact H]. by right. }
  destruct r as [[]|err]; [|done..]. pose proof (execute_adds ok sql e1) as H2.
  destruct (executeQuery ok sql e1) as [r2 e2]. cbn [snd] in H2. eapply adds_trans; [exact H1|].
  apply (adds_impl _ (allowed sql tables)) in H2; [|by left]. destruct r2; (eapply adds_trans; [exact H2|by apply adds_same]).
Qed.

(** Whatever is asked, and whatever fails, every statement that a query sends
    to DuckDB is either the query itself, and then it passed the check of the
    sanitizer, or a statement on the view of a table that the query names,
    whose name passed the check. A query that fails the check changes nothing
    but the counter of errors. *)
Theorem only_checked_statements_run {R} `{!CacheCommands R} marshal unmarshal ok env conn prepare_ok sql qc (r : R) e :
  let '(res, qc', r', e') := ExecuteQuery md5_hex range tempDir Clean toLower toUpper EqualFold ParseFloat show_float show_time upper_trim
    encode_rows qrow duckdb marshal_rows decrypt marshal unmarshal ok env conn prepare_ok sql qc r e in
  (exists new, statements e' = statements e ++ new /\
    Forall (allowed sql (ExtractTableNames sql)) new) /\
  (forall err, ValidateSelectQuery toLower sql = Err err ->
    res = Err (ValidationFailed err) /\ qc' = qc /\ r' = r /\ e' = count updateErrorStats e).
Proof.
  unfold ExecuteQuery, checked_tables.
  destruct (ValidateSelectQuery toLower sql) as [[]|err] eqn:Ev.
  2: { split; [exists []; by rewrite app_nil_r|]. by intros ? [= ->]. }
  destruct (ExtractTableNames sql) as [|t0 ts] eqn:Et; [split; [exists []; by rewrite app_nil_r|done]|].
  destruct (ValidateTableNames (t0 :: ts)) as [|v vs] eqn:Evt; [split; [exists []; by rewrite app_nil_r|done]|].
  assert (forall t, t ∈ v :: vs -> t ∈ t0 :: ts) as Hsub.
  { intros t Ht. rewrite <- Evt in Ht. unfold ValidateTableNames in Ht. by apply list_elem_of_In, filter_In in Ht as [Ht%list_elem_of_In _]. }
  destruct (match qc with Some c => _ | None => _ end) as [hit qc1]. destruct hit as [entry|]; [split; [exists []; by rewrite app_nil_r|done]|].
  pose proof (run_query_adds env conn prepare_ok (v :: vs) sql e) as (new & Hn & HF).
  destruct (run_query env conn prepare_ok (v :: vs) sql e) as [res e1]. cbn [snd] in Hn.
  assert (exists new, statements e1 = statements e ++ new /\ Forall (allowed sql (t0 :: ts)) new) as Hfinal.
  { exists new. split; [done|]. eapply Forall_impl; [exact HF|]. intros s [Hs|(t & Ht & Hs)]; [by left|right; exists t; split; [by apply Hsub|done]]. }
  destruct res as [[res []]|err], qc1 as [c|]; try (split; [exact Hfinal|done]).
  destruct (Set_ _ _ _ _ _ _ _ _ _) as [[x c'] r']. split; [exact Hfinal|done].
Qed.

(** ** What a view covers *)

Abbreviation temp_path := (temp_path md5_hex tempDir).
Abbreviation fetch := (fetch md5_hex range tempDir).
Abbreviation buffer_path := (createTempFilePath tempDir Clean).
Abbreviation getBufferFilesForTable := (getBufferFilesForTable tempDir Clean encode_rows).

Definition readable (b : objects) (fs : files) (k : string) : Prop :=
  fs !! temp_path k = None /\ exists o, b !! k = Some o /\ verifyFileIntegrity md5_hex (s3_body o) (s3_ETag o) = true.

Lemma fetch_readable env m paths n fs : all_answered (calls env) -> readable (bucket env) fs (FilePath m) ->
  exists o, bucket env !! FilePath m = Some o /\
    fetch env (paths, n, (None, fs)) m = (paths ++ [temp_path (FilePath m)], n, (None, <[temp_path (FilePath m) := mkFile (s3_body o) (now env)]> fs)).
Proof.
  intros [H1 H2 H3 H4 _ _] (Hf & o & Ho & Hv). exists o. split; [done|]. unfold QueryEngine.fetch. destruct n as [nf other].
  unfold getFileWithCache, QueryFilesTheorems.downloadToTemp. rewrite Hf, H1, Ho, H2, H3, H4. cbn [negb]. by rewrite Hv.
Qed.

Lemma fetch_all env l paths n fs : all_answered (calls env) -> NoDup (FilePath <$> l) ->
  (forall a b, a ∈ FilePath <$> l -> b ∈ FilePath <$> l -> temp_path a = temp_path b -> a = b) ->
  Forall (fun m => readable (bucket env) fs (FilePath m)) l ->
  exists fs', foldl (fetch env) (paths, n, (None, fs)) l = (paths ++ (temp_path <$> (FilePath <$> l)), n, (None, fs')) /\
    (forall k, k ∈ FilePath <$> l -> exists o, bucket env !! k = Some o /\ fs' !! temp_path k = Some (mkFile (s3_body o) (now env))) /\
    (forall p, p ∉ temp_path <$> (FilePath <$> l) -> fs' !! p = fs !! p).
Proof.
  intros Henv. revert paths fs. induction l as [|m l IH]; intros paths fs Hnd Hinj Hr.
  { exists fs. cbn. rewrite app_nil_r. split_and!; [done| |done]. intros k Hk. by apply elem_of_nil in Hk. }
  rewrite fmap_cons in Hnd, Hinj. apply NoDup_cons in Hnd as [Hm Hnd]. apply Forall_cons in Hr as [Hrm Hr].
  destruct (fetch_readable env m paths n fs Henv Hrm) as (o & Ho & E). cbn [foldl]. rewrite E.
  assert (temp_path (FilePath m) ∉ temp_path <$> (FilePath <$> l)) as Hfresh.
  { intros (k & Hk & Hin)%list_elem_of_fmap. apply Hm. apply Hinj in Hk; [by subst|apply list_elem_of_here|by apply list_elem_of_further]. }
  destruct (IH (paths ++ [temp_path (FilePath m)]) (<[temp_path (FilePath m) := mkFile (s3_body o) (now env)]> fs)) as (fs' & E' & Hin & Hout); [done| | |].
  - intros a b Ha Hb. apply Hinj; by apply list_elem_of_further.
  - rewrite Forall_forall in Hr |- *. intros x Hx. destruct (Hr x Hx) as [Hf Hrest]. split; [|done].
    rewrite lookup_insert_ne; [done|]. intros Heq. apply Hfresh. rewrite Heq. by do 2 apply list_elem_of_fmap_2.
  - exists fs'. split_and!.
    + rewrite E'. rewrite !fmap_cons. by rewrite <- app_assoc.
    + intros k. rewrite fmap_cons. intros [->|Hk]%elem_of_cons; [|by apply Hin]. exists o. split; [done|]. rewrite Hout by done. apply lookup_insert_eq.
    + intros p Hp. rewrite !fmap_cons, not_elem_of_cons in Hp. destruct Hp as [Hp1 Hp2]. rewrite Hout by done. by apply lookup_insert_ne.
Qed.

(** The temporary files of the buffer. *)
Lemma buffer_files env t fs : (forall p, temp_ok env p = true) ->
  (forall j k, j ∈ GetTableKeys t (memory_of env) -> k ∈ GetTableKeys t (memory_of env) -> buffer_path j = buffer_path k -> j = k) ->
  exists paths fs', getBufferFilesForTable env t fs = (paths, fs') /\
    (forall k, k ∈ GetTableKeys t (memory_of env) -> ConcurrentBuffer.Get k (memory_of env) <> [] ->
       buffer_path k ∈ paths /\ fs' !! buffer_path k = Some (mkFile (encode_rows (ConcurrentBuffer.Get k (memory_of env))) (now env))) /\
    (forall p, p ∉ buffer_path <$> GetTableKeys t (memory_of env) -> fs' !! p = fs !! p).
Proof.
  intros Hok. unfold QueryEngine.getBufferFilesForTable. generalize (GetTableKeys t (memory_of env)). intros keys.
  induction keys as [|k keys IH] using rev_ind; intros Hinj.
  { exists [], fs. split_and!; [done| |done]. intros k Hk. by apply elem_of_nil in Hk. }
  destruct IH as (paths & fs' & E & Hin & Hout); [intros a b Ha Hb; apply Hinj; apply elem_of_app; by left|].
  rewrite foldl_app, E. cbn [foldl]. rewrite Hok, orb_false_r.
  destruct (bool_decide_reflect (ConcurrentBuffer.Get k (memory_of env) = [])) as [Hnil|Hne].
  - exists paths, fs'. split_and!; [done| |].
    + intros j [Hj|Hj%list_elem_of_singleton]%elem_of_app; [by apply Hin|by subst].
    + intros p Hp. apply Hout. rewrite fmap_app in Hp. set_solver.
  - exists (paths ++ [buffer_path k]), (<[buffer_path k := mkFile (encode_rows (ConcurrentBuffer.Get k (memory_of env))) (now env)]> fs').
    split_and!; [done| |].
    + intros j Hj Hrows. destruct (decide (j = k)) as [->|Hjk].
      { split; [apply elem_of_app; right; apply list_elem_of_here|apply lookup_insert_eq]. }
      assert (j ∈ keys) as Hj' by (apply elem_of_app in Hj as [Hj|Hj%list_elem_of_singleton]; [done|by subst]).
      destruct (Hin j Hj' Hrows) as [H1 H2]. split; [apply elem_of_app; by left|]. rewrite lookup_insert_ne; [done|].
      intros Heq. apply Hjk. symmetry. apply Hinj; [apply elem_of_app; right; apply list_elem_of_here|apply elem_of_app; by left|done].
    + intros p Hp. rewrite fmap_app in Hp. rewrite lookup_insert_ne by set_solver. apply Hout. set_solver.
Qed.

Lemma createPruned_view env t files sql e e' : files <> [] -> createPruned env t files sql e = (Ok tt, e') ->
  local e' = local e /\ exists cp cols, views e' !! t = Some (BuildOptimizedViewSQL cp t files cols).
Proof.
  intros Hne. unfold createTableViewWithDBWithColumnPruning. rewrite bool_decide_false by done.
  destruct (ExtractRequiredColumns _ _ _ _) as [cols cp]. destruct (BuildSafeDropViewSQL t) as [d|]; [|done].
  destruct (exec_ok env (BuildOptimizedViewSQL _ t files cols)); cbn [negb]; [|done]. destruct (BuildSafeSelectSQL _ _ _ _ _) as [s|]; [|done].
  destruct (exec_ok env s); [|done]. intros [= <-]. split.
  - unfold exec_drop. by destruct (exec_ok env d).
  - eexists _, _. cbn [views run_statement set_views]. apply lookup_insert_eq.
Qed.

(** The files of a table on a single node, by name. *)
Definition table_objects (env : query_env) (t : string) : list string :=
  (List.filter (fun x : string * s3_object => String.prefix (t +:+ "/") x.1 && bool_decide (Ext x.1 = ".parquet")) (range s3_object (bucket env))).*1.

Definition sidecars_named (env : query_env) : Prop :=
  forall k m, sidecars env (k +:+ ".meta.json") = Some m -> FilePath m = k \/ FilePath m = "".

Lemma metas_named env t : sidecars_named env ->
  FilePath <$> getStorageFilesMetadataFromMinIO range ParseFloat (sidecars env) (bucket env) t = table_objects env t.
Proof.
  intros Hs. unfold getStorageFilesMetadataFromMinIO, table_objects. rewrite <- list_fmap_compose. apply list_fmap_ext. intros i [k o] _. cbn [compose fst].
  unfold loadFileMetadataFromMinIOSidecar. destruct (sidecars env (k +:+ ".meta.json")) as [m|] eqn:E; [|done]. cbn [fmap option_fmap option_map].
  destruct (has_bounds (loaded ParseFloat m)); [|done]. cbn [loaded FilePath]. 
  destruct (Hs _ _ E) as [H|H]; rewrite H; [destruct (bool_decide (k = "")); cbn [FilePath loaded]; congruence|by rewrite bool_decide_true].
Qed.

(** C18: a query on a single node, without Redis and without a file cache,
    misses no row that may match. If the view of a table is prepared, it
    covers the file of every buffer of the table, with all its rows, and,
    for every object of the table in which a row may match the statement by
    the rules of the pruning, a local file with the bytes of the object; an
    object whose recorded bounds or day exclude every match may be left
    out. This assumes that every call is answered, that the objects can be
    read and no local file is in the way, and that the local names are
    distinct. *)
Theorem single_node_view_complete `{!MapRange range} env t sql e e' :
  redis env = false -> fileCache e = None -> all_answered (calls env) -> (forall p, temp_ok env p = true) -> sidecars_named env ->
  (forall a b, a ∈ table_objects env t -> b ∈ table_objects env t -> temp_path a = temp_path b -> a = b) ->
  (forall j k, j ∈ GetTableKeys t (memory_of env) -> k ∈ GetTableKeys t (memory_of env) -> buffer_path j = buffer_path k -> j = k) ->
  (forall a k, a ∈ table_objects env t -> k ∈ GetTableKeys t (memory_of env) -> temp_path a <> buffer_path k) ->
  Forall (readable (bucket env) (local e)) (table_objects env t) ->
  prepareTableDataWithPruning env t sql e = (Ok tt, e') ->
  exists cp files cols, views e' !! t = Some (BuildOptimizedViewSQL cp t files cols) /\
    (forall k, k ∈ GetTableKeys t (memory_of env) -> ConcurrentBuffer.Get k (memory_of env) <> [] ->
       buffer_path k ∈ files /\ local e' !! buffer_path k = Some (mkFile (encode_rows (ConcurrentBuffer.Get k (memory_of env))) (now env))) /\
    (forall m ts row, m ∈ getStorageFilesMetadataFromMinIO range ParseFloat (sidecars env) (bucket env) t ->
       may_match toLower ParseFloat show_float show_time sql m ts row ->
       temp_path (FilePath m) ∈ files /\ exists o, bucket env !! FilePath m = Some o /\ local e' !! temp_path (FilePath m) = Some (mkFile (s3_body o) (now env))).
Proof.
  intros Hredis Hfc Henv Htemp Hside Hinj Hbinj Hdisj Hread E.
  unfold QueryEngine.prepareTableDataWithPruning, storage_metadata in E. rewrite Hredis in E.
  destruct (buffer_files env t (local e) Htemp Hbinj) as (bpaths & fs1 & Eb & Hbin & Hbout). rewrite Eb, Hfc in E.
  pose proof (metas_named env t Hside) as Hnames. set (metas := getStorageFilesMetadataFromMinIO _ _ _ _ _) in *.
  assert (selected toLower ParseFloat show_float show_time sql metas `sublist_of` metas) as Hsub.
  { unfold selected. destruct metas; [done|]. apply selected_sublist. }
  set (sel := selected _ _ _ _ sql metas) in *.
  assert (forall a, a ∈ FilePath <$> sel -> a ∈ table_objects env t) as Hselin.
  { intros a Ha. rewrite <- Hnames. eapply elem_of_submseteq; [exact Ha|]. apply fmap_submseteq, sublist_submseteq, Hsub. }
  destruct (fetch_all env sel [] (0, 0) fs1 Henv) as (fs2 & Ef & Hfin & Hfout).
  - eapply NoDup_part; [apply fmap_submseteq, sublist_submseteq, Hsub|]. rewrite Hnames. unfold table_objects.
    eapply sublist_NoDup; [apply (range_NoDup range)|]. apply fmap_sublist, filter_sublist.
  - intros a b Ha Hb. apply Hinj; by apply Hselin.
  - apply Forall_forall. intros m Hm. assert (FilePath m ∈ table_objects env t) as Hin by (apply Hselin; by apply list_elem_of_fmap_2).
    rewrite Forall_forall in Hread. destruct (Hread _ Hin) as [Hf Hrest]. split; [|done]. rewrite Hbout; [done|].
    intros (k & Hk & Hin2)%list_elem_of_fmap. by apply (Hdisj _ _ Hin Hin2).
  - rewrite Ef in E. cbn [app] in E. destruct (bpaths ++ _) as [|x l] eqn:El; [by destruct (_ && _)|].
    apply createPruned_view in E as (Hlocal & cp & cols & Hview); [|done]. rewrite <- El in Hview.
    exists cp, (bpaths ++ (temp_path <$> (FilePath <$> sel))), cols. split_and!; [done| |].
    + intros k Hk Hrows. destruct (Hbin k Hk Hrows) as [H1 H2]. split; [apply elem_of_app; by left|]. rewrite Hlocal. cbn [local set_files].
      rewrite Hfout; [done|]. intros (a & Ha & Hin)%list_elem_of_fmap. apply (Hdisj a k); [by apply Hselin|done|done].
    + intros m ts row Hm Hmatch. assert (m ∈ sel) as Hsel.
      { unfold sel, selected. destruct metas as [|m0 ms] eqn:Em; [by apply elem_of_nil in Hm|]. by eapply may_match_selected. }
      split; [apply elem_of_app; right; by do 2 apply list_elem_of_fmap_2|]. rewrite Hlocal. cbn [local set_files].
      apply Hfin. by apply list_elem_of_fmap_2.
Qed.
End engine.

(** ** Examples *)

Module EngineDemo.

Lemma pool_exclusive_witness :
  let p0 := mkPool [0%nat] 2 1 1 in NoDup [1%nat; 0%nat] /\ rtc pool_step (p0, []) (mkPool [] 2 2 2, [1%nat; 0%nat]).
Proof.
  assert (rtc pool_step (mkPool [0%nat] 2 1 1, []) (mkPool [] 2 2 2, [1%nat; 0%nat])) as Hr.
  { eapply rtc_l; [eapply (pool_take true); reflexivity|]. eapply rtc_l; [eapply (pool_take true); reflexivity|]. apply rtc_refl. }
  split; [|exact Hr]. apply (pool_exclusive 2 (mkPool [0%nat] 2 1 1) (mkPool [] 2 2 2) [1%nat; 0%nat]); [lia|reflexivity|exact Hr].
Defined.

Definition same_text (s : string) : string := s.
Definition calm : s3_env := mkS3Env (fun _ => true) (fun _ => true) (fun _ s => s) (fun _ => true) (fun _ => None) (fun _ => true) (fun _ => true).
Definition os0 : os_env := mkEnv (fun _ => true) true None true.
Definition object (body : string) : s3_object := mkS3 body body.
Definition b0 : objects := {[ "t/a/2024-01-01/1.parquet" := object "ROWA"; "t/b/2024-01-01/2.parquet" := object "ROWB" ]}.
Definition a_row : DataRow := mkRow "c" 1 "t" ∅.
Definition mem0 : memory := mkMem {[ "t/c/2024-01-01" := [a_row] ]} 1 1.
Definition ids (rows : list DataRow) : string := Join "," (row_ID <$> rows).

Definition env0 (calls : s3_env) (redis : bool) (keys : list string) : query_env :=
  mkQueryEnv calls os0 5 b0 (fun _ => true) (fun _ => Some keys) (fun _ => true)
    {[ "index:table:t:id:a:2024-01-01" := {[ "t/a/2024-01-01/1.parquet" ]} ]} ∅ (fun _ => None) redis mem0 (fun _ => true) 1.
Definition e0 (pruning : bool) : engine := mkEngine None ∅ (NewColumnPruner pruning) ∅ [] ∅ (newStmtCache 1000) NewQueryStats.

Definition no_float (s : string) : option spec_float := None.
Definition show (f : spec_float) : string := "".
Abbreviation prepare := (prepareTableDataWithPruning same_text map_range "/tmp" id ToLower ToUpper String.eqb no_float show Itoa ToUpper ids).

(** DuckDB that answers with the text of the view. *)
Definition duck (v : gmap string string) (fs : files) (sql : string) : option (list string) := (fun s => [s]) <$> v !! "t".
Definition first_row (rows : list string) : option string := head rows.
Abbreviation execute := (executeQueryWithOptimization ToLower string duck first_row None true).

Lemma table_objects_b0 : table_objects map_range (env0 calm false []) "t" = ["t/a/2024-01-01/1.parquet"; "t/b/2024-01-01/2.parquet"].
Proof. vm_compute. reflexivity. Qed.

Lemma keys_mem0 : GetTableKeys "t" mem0 = ["t/c/2024-01-01"].
Proof. vm_compute. reflexivity. Qed.

Definition e1 : engine := Eval vm_compute in (prepare (env0 calm false []) "t" "SELECT * FROM t" (e0 false)).2.

Lemma single_node_view_complete_witness :
  exists cp files cols, views e1 !! "t" = Some (BuildOptimizedViewSQL cp "t" files cols) /\
    createTempFilePath "/tmp" id "t/c/2024-01-01" ∈ files /\ temp_path same_text "/tmp" "t/b/2024-01-01/2.parquet" ∈ files.
Proof.
  destruct (single_node_view_complete same_text map_range "/tmp" id ToLower ToUpper String.eqb no_float show Itoa ToUpper ids
    (env0 calm false []) "t" "SELECT * FROM t" (e0 false) e1) as (cp & files & cols & H1 & H2 & H3).
  - reflexivity.
  - reflexivity.
  - split; done.
  - done.
  - intros k m H; discriminate H.
  - rewrite table_objects_b0. intros a b Ha Hb. set_unfold in Ha. set_unfold in Hb. destruct Ha as [->|[->|[]]], Hb as [->|[->|[]]]; done.
  - cbn [memory_of env0]. rewrite keys_mem0. intros j k Hj Hk. set_unfold in Hj. set_unfold in Hk. destruct Hj as [->|[]], Hk as [->|[]]. done.
  - cbn [memory_of env0]. rewrite table_objects_b0, keys_mem0. intros a k Ha Hk. set_unfold in Ha. set_unfold in Hk. destruct Ha as [->|[->|[]]], Hk as [->|[]]; done.
  - rewrite table_objects_b0. apply Forall_forall. intros k Hk. set_unfold in Hk. destruct Hk as [->|[->|[]]]; (split; [reflexivity|eexists; split; reflexivity]).
  - vm_compute. reflexivity.
  - exists cp, files, cols. split_and!; [exact H1| |].
    + apply H2; [cbn [memory_of env0]; rewrite keys_mem0; by left|vm_compute; discriminate].
    + assert (mkFileMetadata "t/b/2024-01-01/2.parquet" 0 ∅ ∅ ∈ getStorageFilesMetadataFromMinIO map_range no_float (fun _ => None) b0 "t") as Hm.
      { vm_compute. right. left. }
      apply (H3 _ 1704067200000000000 ∅ Hm). split_and!; [|vm_compute; done..|].
      * intros d Hd. vm_compute in Hd. injection Hd as <-. vm_compute. split; discriminate.
      * intros pred minv maxv Hp H. discriminate H.
Defined.

Definition one_fails : s3_env :=
  mkS3Env (fun _ => true) (fun k => bool_decide (k <> "t/b/2024-01-01/2.parquet")) (fun _ s => s) (fun _ => true) (fun _ => None) (fun _ => true) (fun _ => true).
Definition files_of (e : engine) : list string := (map_to_list (local e)).*1.

(** What a query can get wrong without an error. A file that cannot be read is
    left out as long as another one can. A key that SCAN returns twice, as it
    may, puts a file into the view twice, so its rows count twice. Two queries
    on one connection share its views: the first runs on the view of the
    second. And a plain view that was replaced by a pruned one is taken for
    current the next time. *)
Theorem query_gaps :
  (let '(r, e) := prepare (env0 one_fails false []) "t" "SELECT * FROM t" (e0 false) in
   r = Ok tt /\ views e !! "t" = Some (buildStandardViewSQL "t" ["/tmp/buffer_t/c/2024-01-01.parquet"; "/tmp/t/a/2024_1.parquet"])) /\
  (let key := "index:table:t:id:a:2024-01-01" in
   let '(r, e) := prepare (env0 calm true [key; key]) "t" "SELECT * FROM t" (e0 false) in
   r = Ok tt /\ views e !! "t" = Some (buildStandardViewSQL "t"
     ["/tmp/buffer_t/c/2024-01-01.parquet"; "/tmp/t/a/2024_1.parquet"; "/tmp/t/a/2024_1.parquet"])) /\
  (let ea := (prepare (env0 calm false []) "t" "SELECT a FROM t" (e0 true)).2 in
   let eb := (prepare (env0 calm false []) "t" "SELECT b FROM t" ea).2 in
   views ea !! "t" <> views eb !! "t" /\ (execute "SELECT a FROM t" eb).1 = Ok (default "" (views eb !! "t"))) /\
  (let env := env0 calm false [] in
   let plain := (createTableViewWithDB ToUpper env "t" ["f"] (e0 true)).2 in
   let pruned := (createTableViewWithDBWithColumnPruning ToUpper String.eqb ToUpper env "t" ["f"] "SELECT a FROM t" plain).2 in
   let '(r, again) := createTableViewWithDB ToUpper env "t" ["f"] pruned in
   r = Ok tt /\ views again !! "t" = views pruned !! "t" /\ views again !! "t" <> views plain !! "t").
Proof. split_and!; vm_compute; try reflexivity; split_and?; try reflexivity; discriminate. Qed.
End EngineDemo.
