(* ===== verification/RedisStore.v ===== *)
(** * Calls that may fail, and the Redis server

    The manager of the tables and the service keep their state in a Redis
    server and in buckets, so every step of theirs is a call that may fail. A
    computation is a function from the state to an outcome and the new state;
    each call takes the next answer of a script that the theorems quantify
    over. A call whose reply is lost has been carried out. *)

From S2P Require Import Prelude GoStrings FieldMapping.
From Stdlib Require Import Ascii.
#[local] Open Scope Z_scope.

(** ** Computations *)

Definition M (W Er A : Type) : Type := W -> result Er A * W.

#[global] Instance M_ret W Er : MRet (M W Er) := fun A a w => (Ok a, w).
#[global] Instance M_bind W Er : MBind (M W Er) := fun A B f m w =>
  match m w with (Ok a, w) => f a w | (Err e, w) => (Err e, w) end.

Definition throw {W Er A} (e : Er) : M W Er A := fun w => (Err e, w).
(** The outcome as a value, for the calls whose error is only logged. *)
Definition attempt {W E1 E2 A} (m : M W E1 A) : M W E2 (result E1 A) := fun w => let '(r, w) := m w in (Ok r, w).
Definition on_error {W E1 E2 A} (f : E1 -> E2) (m : M W E1 A) : M W E2 A := fun w =>
  match m w with (Ok a, w) => (Ok a, w) | (Err e, w) => (Err (f e), w) end.
Definition asks {W Er A} (f : W -> A) : M W Er A := fun w => (Ok (f w), w).
Definition modifies {W Er} (f : W -> W) : M W Er unit := fun w => (Ok tt, f w).
(** A computation on a part of the state. *)
Definition zoom {W V Er A} (get : W -> V) (put : V -> W -> W) (m : M V Er A) : M W Er A := fun w =>
  let '(r, v) := m (get w) in (r, put v w).
(** One call after the other, whatever the outcomes. *)
Fixpoint each {W Er A} (f : A -> M W Er unit) (l : list A) : M W Er unit :=
  match l with [] => mret tt | a :: l => f a ;; each f l end.

(** What holds of the final state of every run from a state. *)
Definition ends {W Er A} (m : M W Er A) (w : W) (Q : result Er A -> W -> Prop) : Prop := Q (m w).1 (m w).2.
(** A relation between the states that every run respects. *)
Definition keeps {W Er A} (R : W -> W -> Prop) (m : M W Er A) : Prop := forall w, R w (m w).2.

Lemma bind_ok {W Er A B} (m : M W Er A) (f : A -> M W Er B) w a w' : m w = (Ok a, w') -> (m ≫= f) w = f a w'.
Proof. intros H. unfold mbind, M_bind. by rewrite H. Qed.

Section keeps.
Context {W : Type} (R : W -> W -> Prop) `{!PreOrder R}.

Lemma keeps_ret {Er A} (a : A) : keeps R (mret a : M W Er A).
Proof. intros w. reflexivity. Qed.
Lemma keeps_throw {Er A} (e : Er) : keeps R (throw e : M W Er A).
Proof. intros w. reflexivity. Qed.
Lemma keeps_asks {Er A} (f : W -> A) : keeps R (asks f : M W Er A).
Proof. intros w. reflexivity. Qed.
Lemma keeps_bind {Er A B} (m : M W Er A) (f : A -> M W Er B) :
  keeps R m -> (forall a, keeps R (f a)) -> keeps R (m ≫= f).
Proof.
  intros Hm Hf w. unfold mbind, M_bind. specialize (Hm w). destruct (m w) as [[a|e] w1]; cbn in *; [|done].
  etrans; [exact Hm | apply Hf].
Qed.
Lemma keeps_attempt {E1 E2 A} (m : M W E1 A) : keeps R m -> keeps R (attempt m : M W E2 _).
Proof. intros Hm w. specialize (Hm w). unfold attempt. by destruct (m w). Qed.
Lemma keeps_on_error {E1 E2 A} (f : E1 -> E2) (m : M W E1 A) : keeps R m -> keeps R (on_error f m).
Proof. intros Hm w. specialize (Hm w). unfold on_error. by destruct (m w) as [[]]. Qed.
Lemma keeps_each {Er A} (f : A -> M W Er unit) l : (forall a, a ∈ l -> keeps R (f a)) -> keeps R (each f l).
Proof.
  induction l as [|a l IH]; intros Hf; [apply keeps_ret|]. cbn [each].
  apply keeps_bind; [apply Hf, list_elem_of_here | intros []; apply IH; intros b Hb; apply Hf; by apply list_elem_of_further].
Qed.
End keeps.

Lemma keeps_zoom {W V Er A} (R : W -> W -> Prop) (S : V -> V -> Prop) get put (m : M V Er A) :
  keeps S m -> (forall w v, S (get w) v -> R w (put v w)) -> keeps R (zoom get put m).
Proof. intros Hm HR w. specialize (Hm (get w)). unfold zoom. destruct (m (get w)) as [r v]. by apply HR. Qed.

(** ** Answers *)

Inductive answer := Answered | ReplyLost | NotSent.

Definition next_answer (script : list answer) : answer * list answer :=
  match script with [] => (Answered, []) | a :: s => (a, s) end.

(** ** Redis *)

Inductive rvalue := RString (s : string) | RHash (h : gmap string string) | RSet (s : gset string).
Abbreviation keyspace := (gmap string rvalue).

Inductive redis_error := Unanswered | WrongType | NotAnInteger.

Record redis_server := mkRedis { keys : keyspace; script : list answer }.

Definition command {A} (f : keyspace -> result redis_error A * keyspace) : M redis_server redis_error A := fun r =>
  let '(a, s) := next_answer (script r) in
  match a with
  | Answered => let '(x, k) := f (keys r) in (x, mkRedis k s)
  | ReplyLost => (Err Unanswered, mkRedis (f (keys r)).2 s)
  | NotSent => (Err Unanswered, mkRedis (keys r) s)
  end.

Definition set_at (k : keyspace) (key : string) : result redis_error (gset string) :=
  match k !! key with Some (RSet s) => Ok s | None => Ok ∅ | Some _ => Err WrongType end.
Definition hash_at (k : keyspace) (key : string) : result redis_error (gmap string string) :=
  match k !! key with Some (RHash h) => Ok h | None => Ok ∅ | Some _ => Err WrongType end.

(** A set without members has no key. *)
Definition put_set (key : string) (s : gset string) (k : keyspace) : keyspace :=
  if bool_decide (s = ∅) then delete key k else <[key := RSet s]> k.

Definition SAdd (key member : string) : M redis_server redis_error unit :=
  command (fun k => match set_at k key with Ok s => (Ok tt, put_set key ({[member]} ∪ s) k) | Err e => (Err e, k) end).
Definition SRem (key member : string) : M redis_server redis_error unit :=
  command (fun k => match set_at k key with Ok s => (Ok tt, put_set key (s ∖ {[member]}) k) | Err e => (Err e, k) end).
Definition SIsMember (key member : string) : M redis_server redis_error bool :=
  command (fun k => (match set_at k key with Ok s => Ok (bool_decide (member ∈ s)) | Err e => Err e end, k)).
Definition SCard (key : string) : M redis_server redis_error Z :=
  command (fun k => (match set_at k key with Ok s => Ok (Z.of_nat (size s)) | Err e => Err e end, k)).
Definition SMembers (key : string) : M redis_server redis_error (list string) :=
  command (fun k => (match set_at k key with Ok s => Ok (elements s) | Err e => Err e end, k)).
(** [HMSET] of at least one field. *)
Definition HMSet (key : string) (fields : gmap string string) : M redis_server redis_error unit :=
  command (fun k => match hash_at k key with Ok h => (Ok tt, <[key := RHash (fields ∪ h)]> k) | Err e => (Err e, k) end).
Definition HGetAll (key : string) : M redis_server redis_error (gmap string string) :=
  command (fun k => (hash_at k key, k)).
Definition SetKey (key value : string) : M redis_server redis_error unit :=
  command (fun k => (Ok tt, <[key := RString value]> k)).
(** [None]: [redis.Nil]. *)
Definition GetKey (key : string) : M redis_server redis_error (option string) :=
  command (fun k => (match k !! key with Some (RString s) => Ok (Some s) | None => Ok None | Some _ => Err WrongType end, k)).
Definition Exists (key : string) : M redis_server redis_error bool :=
  command (fun k => (Ok (bool_decide (is_Some (k !! key))), k)).
Definition Del (ks : list string) : M redis_server redis_error unit :=
  command (fun k => (Ok tt, foldl (fun k key => delete key k) k ks)).
Definition Decr (key : string) : M redis_server redis_error Z :=
  command (fun k =>
    match k !! key with
    | None => (Ok (-1), <[key := RString "-1"]> k)
    | Some (RString s) =>
        match ParseInt64 s with
        | Some n => if n =? min_int64 then (Err NotAnInteger, k) else (Ok (n - 1), <[key := RString (Itoa (n - 1))]> k)
        | None => (Err NotAnInteger, k)
        end
    | Some _ => (Err WrongType, k)
    end).
(** *** Patterns of keys

    The glob patterns of Redis: a star, a question mark, classes in brackets
    with ranges and negation, and escaping by a backslash. *)

Definition is_char (a b : ascii) : bool := bool_decide (a = b).

(** The class behind the bracket: whether it has the character, and the rest
    of the pattern. *)
Fixpoint glob_class (fuel : nat) (c : ascii) (hit : bool) (p : string) : bool * string :=
  match fuel with
  | O => (hit, p)
  | S fuel =>
      match p with
      | "" => (hit, "")
      | String a p1 =>
          let one := glob_class fuel c (hit || is_char a c) p1 in
          if is_char a "\" then
            match p1 with String b p2 => glob_class fuel c (hit || is_char b c) p2 | "" => one end
          else if is_char a "]" then (hit, p1)
          else match p1 with
               | String m (String b p3) =>
                   if is_char m "-" then
                     let lo := N.min (N_of_ascii a) (N_of_ascii b) in
                     let hi := N.max (N_of_ascii a) (N_of_ascii b) in
                     glob_class fuel c (hit || ((lo <=? N_of_ascii c) && (N_of_ascii c <=? hi))%N) p3
                   else one
               | _ => one
               end
      end
  end.

(** Whether some end of the text has the property. *)
Fixpoint some_end (f : string -> bool) (s : string) : bool :=
  f s || match s with "" => false | String _ s' => some_end f s' end.

Fixpoint glob (fuel : nat) (p s : string) : bool :=
  match fuel with
  | O => false
  | S fuel =>
      match p with
      | "" => bool_decide (s = "")
      | String a p1 =>
          if is_char a "*" then some_end (glob fuel p1) s else
          match s with
          | "" => false
          | String c s1 =>
              if is_char a "?" then glob fuel p1 s1
              else if is_char a "[" then
                let '(negated, q) := match p1 with String b q => if is_char b "^" then (true, q) else (false, p1) | "" => (false, "") end in
                let '(hit, rest) := glob_class (String.length q) c false q in
                xorb negated hit && glob fuel rest s1
              else if is_char a "\" then
                match p1 with String b p2 => is_char b c && glob fuel p2 s1 | "" => is_char a c && glob fuel p1 s1 end
              else is_char a c && glob fuel p1 s1
          end
      end
  end.

Definition MatchGlob (p s : string) : bool := glob (S (String.length p)) p s.

Example glob_examples :
  MatchGlob "h?llo" "hello" = true /\ MatchGlob "h*llo" "heeeello" = true /\ MatchGlob "h[ae]llo" "hillo" = false /\
  MatchGlob "h[^e]llo" "hallo" = true /\ MatchGlob "h[a-b]llo" "hbllo" = true /\ MatchGlob "h\*llo" "hello" = false.
Proof. by vm_compute. Qed.

(** Text that a pattern takes as it is. *)
Definition literal_text : string -> bool :=
  all_chars (fun c => negb (is_char c "*" || is_char c "?" || is_char c "[" || is_char c "\")).

Lemma string_prefix_cons c p x s : String.prefix (String c p) (String x s) = true <-> c = x /\ String.prefix p s = true.
Proof. cbn. destruct (ascii_dec c x) as [->|Hn]; split; [by intros|by intros [_ ?]|done|by intros [? _]]. Qed.

Lemma prefix_iff p s : String.prefix p s = true <-> exists r, s = p +:+ r.
Proof.
  split.
  - revert s. induction p as [|c p IH]; intros s Hp; [by exists s|]. destruct s as [|x s]; [done|].
    apply string_prefix_cons in Hp as [-> Hp]. destruct (IH s Hp) as [r ->]. by exists r.
  - intros [r ->]. induction p as [|c p IH]; [by destruct r|]. rewrite string_cons_app. by apply string_prefix_cons.
Qed.

Lemma glob_literal p q s :
  literal_text p = true -> MatchGlob (p +:+ q) s = true <-> exists r, s = p +:+ r /\ MatchGlob q r = true.
Proof.
  unfold MatchGlob. revert s. induction p as [|a p IH]; intros s Hp.
  { split; [intros H; by exists s|]. by intros (r & -> & H). }
  unfold literal_text in Hp. cbn [all_chars] in Hp. apply andb_true_iff in Hp as [Ha Hp].
  rewrite negb_true_iff, !orb_false_iff in Ha. destruct Ha as [[[H1 H2] H3] H4].
  rewrite string_cons_app. cbn [String.length]. set (n := S (String.length (p +:+ q))) in *. cbn [glob].
  rewrite H1, H2, H3, H4. destruct s as [|c s].
  { split; [done|]. intros (r & E & _). by destruct p. }
  rewrite andb_true_iff, IH by exact Hp. unfold is_char. rewrite bool_decide_eq_true. split.
  - intros (-> & r & -> & H). by exists r.
  - intros (r & E & H). rewrite string_cons_app in E. injection E as -> ->. eauto.
Qed.

(** A pattern of literal text and a star is a prefix, and one that starts with
    literal text matches only what does. *)
Lemma MatchGlob_prefix p s : literal_text p = true -> MatchGlob (p +:+ "*") s = String.prefix p s.
Proof.
  intros Hp. apply eq_bool_prop_intro. rewrite !Is_true_true, glob_literal, prefix_iff by done.
  split; [intros (r & -> & _); by exists r|]. intros (r & ->). exists r. split; [done|].
  unfold MatchGlob. cbn. induction r as [|c r IH]; [done|]. cbn. exact IH.
Qed.

Lemma MatchGlob_start p q s : literal_text p = true -> MatchGlob (p +:+ q) s = true -> String.prefix p s = true.
Proof. intros Hp (r & -> & _)%(glob_literal p q s Hp). apply prefix_iff. by exists r. Qed.

(** [ScanKeys] of [pkg/pool/scan.go]: the keys that match the pattern, each
    once. SCAN may return a key again, which makes no difference here: the keys
    are only deleted, and their number is only logged. *)
Definition ScanKeys (pattern : string) : M redis_server redis_error (list string) :=
  command (fun k => (Ok (List.filter (MatchGlob pattern) (map_to_list k).*1), k)).

(** ** What commands leave alone *)

(** The keys outside [P] hold what they held. *)
Definition frame (P : string -> Prop) (r r' : redis_server) : Prop := forall key, ~ P key -> keys r' !! key = keys r !! key.

#[global] Instance frame_preorder P : PreOrder (frame P).
Proof. split; [by intros r key | intros r1 r2 r3 H1 H2 key Hk; by rewrite H2, H1]. Qed.

Lemma frame_weaken (P Q : string -> Prop) r r' : (forall key, P key -> Q key) -> frame P r r' -> frame Q r r'.
Proof. intros HPQ HF key Hk. apply HF. auto. Qed.

Lemma keeps_command (P : string -> Prop) {A} (f : keyspace -> result redis_error A * keyspace) :
  (forall k key, ~ P key -> (f k).2 !! key = k !! key) -> keeps (frame P) (command f).
Proof.
  intros Hf r key Hk. unfold command. destruct (next_answer (script r)) as [[] s]; cbn; [|by apply Hf|done].
  specialize (Hf (keys r) key Hk). by destruct (f (keys r)).
Qed.

Lemma lookup_put_set key s k key' : key' <> key -> put_set key s k !! key' = k !! key'.
Proof. intros Hn. unfold put_set. case_bool_decide; [by rewrite lookup_delete_ne | by rewrite lookup_insert_ne]. Qed.

Lemma lookup_del_all ks (k : keyspace) key :
  foldl (fun k key => delete key k) k ks !! key = if bool_decide (key ∈ ks) then None else k !! key.
Proof.
  revert k. induction ks as [|k0 ks IH]; intros k; cbn [foldl]; [by case_bool_decide as E; [apply not_elem_of_nil in E|]|].
  rewrite IH. repeat case_bool_decide; try done.
  - exfalso. set_solver.
  - assert (key = k0) as -> by set_solver. apply lookup_delete_eq.
  - apply lookup_delete_ne. set_solver.
Qed.

(** The frame of each command. *)
Section frames.
Context (P : string -> Prop).

Lemma SAdd_frame key m : P key -> keeps (frame P) (SAdd key m).
Proof.
  intros HP. apply keeps_command. intros k key' Hk. destruct (set_at k key); [|done]. apply lookup_put_set. by intros ->.
Qed.
Lemma SRem_frame key m : P key -> keeps (frame P) (SRem key m).
Proof.
  intros HP. apply keeps_command. intros k key' Hk. destruct (set_at k key); [|done]. apply lookup_put_set. by intros ->.
Qed.
Lemma HMSet_frame key h : P key -> keeps (frame P) (HMSet key h).
Proof.
  intros HP. apply keeps_command. intros k key' Hk. destruct (hash_at k key); [|done].
  apply lookup_insert_ne. by intros ->.
Qed.
Lemma SetKey_frame key v : P key -> keeps (frame P) (SetKey key v).
Proof. intros HP. apply keeps_command. intros k key' Hk. apply lookup_insert_ne. by intros ->. Qed.
Lemma Del_frame ks : Forall P ks -> keeps (frame P) (Del ks).
Proof.
  intros HP. apply keeps_command. intros k key' Hk. cbn. rewrite lookup_del_all. case_bool_decide as Hin; [|done].
  by rewrite Forall_forall in HP; apply HP in Hin.
Qed.
Lemma Decr_frame key : P key -> keeps (frame P) (Decr key).
Proof.
  intros HP. apply keeps_command. intros k key' Hk. destruct (k !! key) as [[s|h|s]|] eqn:E; try done.
  - destruct (ParseInt64 s) as [n|]; [|done]. destruct (n =? min_int64); [done|]. apply lookup_insert_ne. by intros ->.
  - apply lookup_insert_ne. by intros ->.
Qed.

(** A command that only reads. *)
Lemma reads_frame {A} (f : keyspace -> result redis_error A) : keeps (frame P) (command (fun k => (f k, k))).
Proof. by apply keeps_command. Qed.
Lemma SIsMember_frame key m : keeps (frame P) (SIsMember key m).
Proof. apply reads_frame. Qed.
Lemma SCard_frame key : keeps (frame P) (SCard key).
Proof. apply reads_frame. Qed.
Lemma SMembers_frame key : keeps (frame P) (SMembers key).
Proof. apply reads_frame. Qed.
Lemma HGetAll_frame key : keeps (frame P) (HGetAll key).
Proof. apply reads_frame. Qed.
Lemma GetKey_frame key : keeps (frame P) (GetKey key).
Proof. apply reads_frame. Qed.
Lemma Exists_frame key : keeps (frame P) (Exists key).
Proof. apply keeps_command. done. Qed.
Lemma ScanKeys_frame p : keeps (frame P) (ScanKeys p).
Proof. apply keeps_command. done. Qed.
End frames.

Create HintDb redis.
#[export] Hint Resolve keeps_ret keeps_throw keeps_asks keeps_attempt keeps_on_error SAdd_frame SRem_frame HMSet_frame
  SetKey_frame Del_frame Decr_frame SIsMember_frame SCard_frame SMembers_frame HGetAll_frame GetKey_frame Exists_frame
  ScanKeys_frame : redis.

(** [strconv.Atoi] on a 64-bit machine reads what [Itoa] writes. *)
Abbreviation Atoi := ParseInt64.

Lemma pretty_char_digit x : (x < 10)%N -> is_digit (pretty_N_char x) = true /\ Z.of_N (N_of_ascii (pretty_N_char x)) - 48 = Z.of_N x.
Proof.
  intros Hx. assert (x = 0 \/ x = 1 \/ x = 2 \/ x = 3 \/ x = 4 \/ x = 5 \/ x = 6 \/ x = 7 \/ x = 8 \/ x = 9)%N as Hc by lia.
  repeat destruct Hc as [->|Hc]; try (split; reflexivity). subst x. split; reflexivity.
Qed.
Lemma digits_of_pretty x s : digits_value 0 (pretty_N_go x s) = digits_value (Z.of_N x) s.
Proof.
  revert s. induction (N.lt_wf_0 x) as [x _ IH]; intros s.
  destruct (decide (x = 0)%N) as [->|Hx]; [by rewrite pretty_N_go_0|].
  rewrite pretty_N_go_step by lia. rewrite IH by (apply N.div_lt; lia). cbn [digits_value].
  destruct (pretty_char_digit (x `mod` 10)%N) as [-> ->]; [by apply N.mod_lt|]. f_equal.
  rewrite (N.div_mod x 10) at 3 by lia. lia.
Qed.
Lemma Itoa_pos_digits p : digits_value 0 (Itoa (Z.pos p)) = Some (Z.pos p).
Proof. unfold Itoa. rewrite pretty_Z_go by done. apply (digits_of_pretty (N.pos p) ""). Qed.
Lemma Itoa_pos_first p : exists c s, Itoa (Z.pos p) = String c s /\ is_digit c = true.
Proof.
  pose proof (Itoa_digits (Z.pos p) eq_refl) as H. pose proof (Itoa_pos_digits p) as Hd.
  destruct (Itoa (Z.pos p)) as [|c s]; [done|]. exists c, s. split; [done|]. cbn in H. by destruct (is_digit c).
Qed.
Lemma ParseInt64_Itoa z : in_int64 z -> ParseInt64 (Itoa z) = Some z.
Proof.
  unfold in_int64, min_int64, max_int64. intros Hz. destruct z as [|p|p]; [done| |].
  - pose proof (Itoa_pos_digits p) as Hd. destruct (Itoa_pos_first p) as (c & s & HI & Hc). rewrite HI in *.
    unfold ParseInt64. assert (c <> "-"%char /\ c <> "+"%char) as [H1 H2] by (split; intros ->; done).
    destruct c as [[] [] [] [] [] [] [] []]; try done; unfold parse_digits; rewrite Hd; 
    (destruct (Z.leb_spec (Z.pos p) max_int64); [done | unfold max_int64 in *; lia]).
  - change (Itoa (Z.neg p)) with (String "-" (Itoa (Z.pos p))). unfold ParseInt64, parse_digits.
    pose proof (Itoa_pos_digits p) as Hd. destruct (Itoa_pos_first p) as (c & s & HI & Hc). rewrite HI in *. rewrite Hd.
    destruct (Z.leb_spec (Z.pos p) (2^63)); [done | lia].
Qed.
