(* ===== verification/TableConfig.v ===== *)
(** * Table configurations and where they are kept
    (config/config.go, config/table_id_normalize.go,
    internal/service/minio_config_store.go, internal/service/table_config_manager.go,
    internal/metadata/table_config.go)

    A configuration is kept in a hash of Redis, in an object of the bucket when
    there is no Redis, as a document of the metadata manager, and in the cache
    of the configuration manager. The map of properties of the default
    configuration is one object that copies of the configuration share. *)

From S2P Require Import Prelude GoStrings GoTime GoRegexp FieldMapping RedisStore.
From Stdlib Require Import Ascii.
#[local] Open Scope Z_scope.

Record FieldEncryptionConfig := mkEncryption {
  fe_Enabled : bool; KeyEnvVar : string; KeyFile : string; EncryptedFields : list string; KeyID : string;
}.
Record IDValidationRules := mkRules { MaxLength : Z; Pattern : string; AllowedChars : string }.

(** A Go map: nil, the map of the default configuration, or one of its own. *)
Inductive properties := NilMap | DefaultMap | OwnMap (m : gmap string string).

Record TableConfig := mkTableConfig {
  BufferSize : Z; FlushInterval : Z; RetentionDays : Z; BackupEnabled : option bool; Properties : properties;
  IDStrategy : string; IDPrefix : string; AutoGenerateID : bool; IDValidation : IDValidationRules;
  FieldEncryption : option FieldEncryptionConfig;
}.

Definition set_auto (b : bool) (c : TableConfig) : TableConfig :=
  mkTableConfig (BufferSize c) (FlushInterval c) (RetentionDays c) (BackupEnabled c) (Properties c) (IDStrategy c) (IDPrefix c)
    b (IDValidation c) (FieldEncryption c).
Definition set_properties (p : properties) (c : TableConfig) : TableConfig :=
  mkTableConfig (BufferSize c) (FlushInterval c) (RetentionDays c) (BackupEnabled c) p (IDStrategy c) (IDPrefix c)
    (AutoGenerateID c) (IDValidation c) (FieldEncryption c).
Definition set_strategy (s : string) (c : TableConfig) : TableConfig :=
  mkTableConfig (BufferSize c) (FlushInterval c) (RetentionDays c) (BackupEnabled c) (Properties c) s (IDPrefix c)
    (AutoGenerateID c) (IDValidation c) (FieldEncryption c).

Definition NormalizeAutoGenerateIDFromStrategy (c : TableConfig) : TableConfig :=
  set_auto (negb (bool_decide (ToLower (TrimSpace (IDStrategy c)) = "user_provided"))) c.

(** ** The part of the configuration that the managers read *)

Record TableManagementConfig := mkManagement {
  AutoCreateTables : bool; DefaultTable : string; MaxTables : Z; TableNamePattern : string;
}.
Record Config := mkConfig {
  TableManagement : TableManagementConfig; DefaultConfig : TableConfig;
  MinioBucket : string; BackupBucket : string; Backup_Enabled : bool; MetadataBucket : string; NodeID : string;
}.

(** At most [n] times. *)
Fixpoint upto (n : nat) (r : regex) : regex := match n with O => Empty | S n => opt (Cat r (upto n r)) end.
Definition is_letter (c : ascii) : bool := is_word c && negb (is_digit c) && negb (bool_decide (c = "_"%char)).
Definition default_name_regex : regex := seq [Begin; Cls is_letter; upto 63 word; End_].

Section config.
(** The regexp package: [None] for a pattern that does not compile. *)
Context (Compile : string -> option regex).

Definition IsValidTableName (cfg : Config) (tableName : string) : bool :=
  MatchString (default default_name_regex (Compile (TableNamePattern (TableManagement cfg)))) tableName.
End config.

(** ** The state *)

Abbreviation objects := (gmap string string).

Record world := mkWorld {
  redis : redis_server;
  primary : gmap string objects;
  backup : gmap string objects;
  s3_script : list answer;
  default_props : gmap string string;
}.

Definition set_redis (r : redis_server) (w : world) : world :=
  mkWorld r (primary w) (backup w) (s3_script w) (default_props w).
Definition set_default_props (p : gmap string string) (w : world) : world :=
  mkWorld (redis w) (primary w) (backup w) (s3_script w) p.

Definition bucket_of (m : gmap string objects) (bucket : string) : objects := default ∅ (m !! bucket).

(** The contents of a map. *)
Definition contents (w : world) (p : properties) : gmap string string :=
  match p with NilMap => ∅ | DefaultMap => default_props w | OwnMap m => m end.
(** The configuration with the contents of its map, as an encoder sees it. *)
Definition plain (w : world) (c : TableConfig) : TableConfig :=
  match Properties c with NilMap => c | p => set_properties (OwnMap (contents w p)) c end.

Definition on_redis {A} (m : M redis_server redis_error A) : M world redis_error A := zoom redis set_redis m.

(** ** Calls of the object servers *)

Inductive s3_error := S3Unanswered | S3NotFound.

Definition s3_call {A} (f : world -> result s3_error A * world) : M world s3_error A := fun w =>
  let '(a, s) := next_answer (s3_script w) in
  let w := mkWorld (redis w) (primary w) (backup w) s (default_props w) in
  match a with
  | Answered => f w
  | ReplyLost => (Err S3Unanswered, (f w).2)
  | NotSent => (Err S3Unanswered, w)
  end.

Definition put_primary (bucket : string) (o : objects) (w : world) : world :=
  mkWorld (redis w) (<[bucket := o]> (primary w)) (backup w) (s3_script w) (default_props w).
Definition put_backup (bucket : string) (o : objects) (w : world) : world :=
  mkWorld (redis w) (primary w) (<[bucket := o]> (backup w)) (s3_script w) (default_props w).

Definition GetObject (bucket key : string) : M world s3_error string :=
  s3_call (fun w => (match bucket_of (primary w) bucket !! key with Some d => Ok d | None => Err S3NotFound end, w)).
Definition PutObject (bucket key data : string) : M world s3_error unit :=
  s3_call (fun w => (Ok tt, put_primary bucket (<[key := data]> (bucket_of (primary w) bucket)) w)).
Definition RemoveObject (bucket key : string) : M world s3_error unit :=
  s3_call (fun w => (Ok tt, put_primary bucket (delete key (bucket_of (primary w) bucket)) w)).
Definition RemoveBackupObject (bucket key : string) : M world s3_error unit :=
  s3_call (fun w => (Ok tt, put_backup bucket (delete key (bucket_of (backup w) bucket)) w)).
(** The objects below a prefix. *)
Definition ListObjects (bucket prefix : string) : M world s3_error (list string) :=
  s3_call (fun w => (Ok (List.filter (String.prefix prefix) (map_to_list (bucket_of (primary w) bucket)).*1), w)).

(** ** Documents *)

(** Times of Go as nanoseconds; [None] is the zero time. *)
Record minioTableConfigEntry := mkEntry {
  entry_TableName : string; entry_Config : TableConfig; entry_CreatedAt : option Z; entry_UpdatedAt : Z;
}.
Record TableConfigMetadata := mkMetadata {
  md_TableName : string; md_Config : TableConfig; md_CreatedAt : string; md_UpdatedAt : string;
}.

Definition no_alias (c : TableConfig) : Prop := Properties c <> DefaultMap.

(** encoding/json, for configurations of UTF-8 text. *)
Class ConfigJSON := {
  marshal_entry : minioTableConfigEntry -> string;
  unmarshal_entry : string -> option minioTableConfigEntry;
  marshal_metadata : TableConfigMetadata -> string;
  unmarshal_metadata : string -> option TableConfigMetadata;
  unmarshal_marshal_entry e : no_alias (entry_Config e) -> unmarshal_entry (marshal_entry e) = Some e;
  unmarshal_marshal_metadata d : no_alias (md_Config d) -> unmarshal_metadata (marshal_metadata d) = Some d;
}.

Definition minioConfigPrefix : string := "_system/table_configs/".

(** The name of a table from that of its object. *)
Definition table_of_object (name : string) : string :=
  let name := match cut_prefix minioConfigPrefix name with Some r => r | None => name end in
  match cut_prefix (string_rev ".json" "") (string_rev name "") with Some r => string_rev r "" | None => name end.

(** ** MinioConfigStore *)

Module MinioConfigStore.
Section store.
Context {JC : ConfigJSON} (bucket : string).

Inductive error := CallFailed | Corrupt.

Definition objectKey (tableName : string) : string := minioConfigPrefix +:+ tableName +:+ ".json".

Definition load (tableName : string) : M world error (option minioTableConfigEntry) :=
  r ← attempt (GetObject bucket (objectKey tableName));
  match r with
  | Ok data => match unmarshal_entry data with Some e => mret (Some e) | None => throw Corrupt end
  | Err S3NotFound => mret None
  | Err S3Unanswered => throw CallFailed
  end.

Definition Save (now : Z) (tableName : string) (c : TableConfig) : M world error unit :=
  existing ← attempt (E1 := error) (load tableName);
  let createdAt := match existing with Ok (Some e) => default now (entry_CreatedAt e) | _ => now end in
  c ← asks (fun w => plain w c);
  on_error (fun _ => CallFailed)
    (PutObject bucket (objectKey tableName) (marshal_entry (mkEntry tableName c (Some createdAt) now))).

Definition Get (tableName : string) : M world error (option TableConfig) :=
  e ← load tableName; mret (entry_Config <$> e).

Definition Delete (tableName : string) : M world error unit :=
  on_error (fun _ => CallFailed) (RemoveObject bucket (objectKey tableName)).

Definition ListTableNames : M world error (list string) :=
  names ← on_error (fun _ => CallFailed) (ListObjects bucket minioConfigPrefix);
  mret (List.filter (fun n => negb (bool_decide (n = ""))) (table_of_object <$> names)).
End store.
End MinioConfigStore.

(** ** The documents of the metadata manager *)

Module MetadataConfigs.
Section configs.
Context {JC : ConfigJSON} (RFC3339 : Z -> string).
(** Whether the manager has a Redis client and a storage. *)
Context (has_redis has_storage : bool) (bucket : string).

Inductive error := RedisFailed (e : redis_error) | StorageFailed | NotConfigured | BadDocument.

Definition config_key (tableName : string) : string := "metadata:table_config:" +:+ tableName.
Definition minioTableConfigKey (tableName : string) : string := minioConfigPrefix +:+ tableName +:+ ".json".
Definition usable : bool := has_storage && negb (bool_decide (bucket = "")).

Definition loadTableConfigEntryFromMinio (tableName : string) : M world error (option TableConfigMetadata) :=
  if negb usable then mret None else
  r ← attempt (GetObject bucket (minioTableConfigKey tableName));
  match r with
  | Ok data => match unmarshal_metadata data with Some d => mret (Some d) | None => throw BadDocument end
  | Err S3NotFound => mret None
  | Err S3Unanswered => throw StorageFailed
  end.

Definition saveTableConfigToMinio (now : Z) (tableName : string) (c : TableConfig) : M world error unit :=
  if negb usable then throw NotConfigured else
  existing ← attempt (E1 := error) (loadTableConfigEntryFromMinio tableName);
  let createdAt := match existing with Ok (Some d) => md_CreatedAt d | _ => RFC3339 now end in
  c ← asks (fun w => plain w c);
  on_error (fun _ => StorageFailed)
    (PutObject bucket (minioTableConfigKey tableName) (marshal_metadata (mkMetadata tableName c createdAt (RFC3339 now)))).

Definition getTableConfigFromMinio (tableName : string) : M world error (option TableConfig) :=
  d ← loadTableConfigEntryFromMinio tableName; mret (md_Config <$> d).

Definition deleteTableConfigFromMinio (tableName : string) : M world error unit :=
  if negb usable then throw NotConfigured else
  on_error (fun _ => StorageFailed) (RemoveObject bucket (minioTableConfigKey tableName)).

Definition listTableConfigsFromMinio : M world error (list string) :=
  if negb usable then mret [] else
  names ← on_error (fun _ => StorageFailed) (ListObjects bucket minioConfigPrefix);
  mret (List.filter (fun n => negb (bool_decide (n = ""))) (table_of_object <$> names)).

Definition redis_call {A} (m : M redis_server redis_error A) : M world error A := on_error RedisFailed (on_redis m).

Definition SaveTableConfig (now : Z) (tableName : string) (c : TableConfig) : M world error unit :=
  if negb has_redis then saveTableConfigToMinio now tableName c else
  let key := config_key tableName in
  ex ← redis_call (Exists key);
  createdAt ← (if negb ex then mret (RFC3339 now) else
    old ← attempt (E1 := error) (redis_call (GetKey key));
    mret (match old with
          | Ok (Some s) => match unmarshal_metadata s with Some d => md_CreatedAt d | None => "" end
          | _ => ""
          end));
  c ← asks (fun w => plain w c);
  redis_call (SetKey key (marshal_metadata (mkMetadata tableName c createdAt (RFC3339 now)))) ;;
  attempt (E1 := error) (redis_call (SAdd "metadata:table_configs" tableName)) ;;
  mret tt.

Definition GetTableConfigMetadata (tableName : string) : M world error (option TableConfigMetadata) :=
  if negb has_redis then loadTableConfigEntryFromMinio tableName else
  r ← redis_call (GetKey (config_key tableName));
  match r with
  | None => mret None
  | Some s => match unmarshal_metadata s with Some d => mret (Some d) | None => throw BadDocument end
  end.

Definition GetTableConfig (tableName : string) : M world error (option TableConfig) :=
  if negb has_redis then getTableConfigFromMinio tableName else
  d ← GetTableConfigMetadata tableName; mret (md_Config <$> d).

Definition ListTableConfigs : M world error (list string) :=
  if negb has_redis then listTableConfigsFromMinio else redis_call (SMembers "metadata:table_configs").

Definition DeleteTableConfig (tableName : string) : M world error unit :=
  if negb has_redis then deleteTableConfigFromMinio tableName else
  redis_call (Del [config_key tableName]) ;;
  attempt (E1 := error) (redis_call (SRem "metadata:table_configs" tableName)) ;;
  mret tt.
End configs.
End MetadataConfigs.
