(* ===== verification/FieldEncryption.v ===== *)
(** * Encryption of fields (internal/security/field_encryption.go)

    [FieldEncryptor] encrypts one text with AES-GCM; [FieldEncryptionManager]
    replaces the configured fields of a row by their encryptions and back. A
    nonce is what the random source returned, [None] when it failed. *)

From S2P Require Import Prelude GoStrings WalCodec ConsistentHash FieldMapping GoRegexp RedisStore TableConfig GoCrypto.
From Stdlib Require Import Ascii.
#[local] Open Scope Z_scope.

Inductive cipher_error := ErrInvalidKey | ErrInvalidCiphertext | ErrEncryptionFailed | ErrDecryptionFailed.

(** ** One text *)

(** [gcm] is a function of the key; the two are always set together. *)
Record FieldEncryptor := mkEncryptor { key : list Z }.

Definition key_length_ok (k : list Z) : bool := bool_decide (length k ∈ [16; 24; 32]%nat).

Definition NewFieldEncryptor (k : list Z) : result cipher_error FieldEncryptor :=
  if key_length_ok k then Ok (mkEncryptor k) else Err ErrInvalidKey.

Definition block_of (e : FieldEncryptor) : list Z -> list Z := Aes.encrypt_block (key e).

Definition Encrypt (e : FieldEncryptor) (nonce : option (list Z)) (plaintext : string) : result cipher_error string :=
  if bool_decide (plaintext = "") then Ok "" else
  match nonce with
  | None => Err ErrEncryptionFailed
  | Some n => Ok (b64_encode (n ++ Gcm.Seal (block_of e) n (string_bytes plaintext)))
  end.

Definition Decrypt (e : FieldEncryptor) (ciphertext : string) : result cipher_error string :=
  if bool_decide (ciphertext = "") then Ok "" else
  match b64_decode ciphertext with
  | None => Err ErrDecryptionFailed
  | Some data =>
      if (length data <? Gcm.NonceSize)%nat then Err ErrInvalidCiphertext else
      match Gcm.Open (block_of e) (take Gcm.NonceSize data) (drop Gcm.NonceSize data) with
      | Some p => Ok (bytes_string p)
      | None => Err ErrDecryptionFailed
      end
  end.

Definition RotateKey (e : FieldEncryptor) (newKey : list Z) : result cipher_error FieldEncryptor :=
  if key_length_ok newKey then Ok (mkEncryptor newKey) else Err ErrInvalidKey.

(** ** Rows *)

Record FieldEncryptionManager := mkManager {
  encryptor : option FieldEncryptor;
  config : option FieldEncryptionConfig;
  encryptedField : gset string;
}.

Inductive manager_error :=
  | KeyNotSet (var : string) | KeyFileUnreadable (file : string) | NoKeyConfigured
  | BadEncryptor (e : cipher_error) | FieldNotEncrypted (field : string) (e : cipher_error) | NilConfig.

(** The environment and the files as the operating system gives them. *)
Definition getEncryptionKey (Getenv : string -> string) (ReadFile : string -> option string) (cfg : FieldEncryptionConfig)
    : result manager_error (list Z) :=
  if negb (bool_decide (KeyEnvVar cfg = "")) then
    let keyStr := Getenv (KeyEnvVar cfg) in
    if bool_decide (keyStr = "") then Err (KeyNotSet (KeyEnvVar cfg)) else Ok (string_bytes keyStr)
  else if negb (bool_decide (KeyFile cfg = "")) then
    match ReadFile (KeyFile cfg) with
    | None => Err (KeyFileUnreadable (KeyFile cfg))
    | Some k => Ok (string_bytes (TrimSpace k))
    end
  else Err NoKeyConfigured.

Definition NewFieldEncryptionManager (Getenv : string -> string) (ReadFile : string -> option string)
    (cfg : option FieldEncryptionConfig) : result manager_error FieldEncryptionManager :=
  match cfg with
  | Some c =>
      if negb (fe_Enabled c) then Ok (mkManager None cfg ∅) else
      match getEncryptionKey Getenv ReadFile c with
      | Err e => Err e
      | Ok k =>
          match NewFieldEncryptor k with
          | Err e => Err (BadEncryptor e)
          | Ok e => Ok (mkManager (Some e) cfg (list_to_set (EncryptedFields c)))
          end
      end
  | None => Ok (mkManager None None ∅)
  end.

(** The encryptor of an enabled manager: [IsEnabled] with what it guards. *)
Definition enabled_encryptor (m : FieldEncryptionManager) : option FieldEncryptor :=
  c ← config m; if fe_Enabled c then encryptor m else None.
Definition IsEnabled (m : FieldEncryptionManager) : bool := bool_decide (is_Some (enabled_encryptor m)).

Definition IsFieldEncrypted (m : FieldEncryptionManager) (f : string) : bool := bool_decide (f ∈ encryptedField m).

Definition GetEncryptedFields (m : FieldEncryptionManager) : list string :=
  match config m with Some c => EncryptedFields c | None => [] end.

(** The encryptor stays the one the manager was made with. *)
Definition UpdateConfig (cfg : option FieldEncryptionConfig) (m : FieldEncryptionManager)
    : result manager_error FieldEncryptionManager :=
  match cfg with
  | None => Err NilConfig
  | Some c => Ok (mkManager (encryptor m) cfg (list_to_set (EncryptedFields c)))
  end.

Section fields.
(** [fmt.Sprintf("%v", v)] of floats, and of null, maps and slices. *)
Context (SprintFloat : Z -> string) (SprintOther : string -> string).

Definition Sprint (v : value) : string :=
  match v with
  | VBool b => if b then "true" else "false"
  | VInt z => Itoa z
  | VNumber s | VString s => s
  | VFloat bits => SprintFloat bits
  | VOther json => SprintOther json
  end.

(** The fields are walked in any order; each draws a nonce of its own. *)
Fixpoint encrypt_walk (m : FieldEncryptionManager) (e : FieldEncryptor) (draw : string -> option (list Z))
    (order : list (string * value)) (acc : gmap string value) : result manager_error (gmap string value) :=
  match order with
  | [] => Ok acc
  | (k, v) :: order =>
      if IsFieldEncrypted m k then
        match Encrypt e (draw k) (Sprint v) with
        | Err err => Err (FieldNotEncrypted k err)
        | Ok c => encrypt_walk m e draw order (<[k := VString c]> acc)
        end
      else encrypt_walk m e draw order (<[k := v]> acc)
  end.

Definition EncryptFields (m : FieldEncryptionManager) (draw : string -> option (list Z)) (order : list (string * value))
    (payload : gmap string value) : result manager_error (gmap string value) :=
  match enabled_encryptor m with None => Ok payload | Some e => encrypt_walk m e draw order ∅ end.

Definition decrypt_value (m : FieldEncryptionManager) (e : FieldEncryptor) (k : string) (v : value) : value :=
  if IsFieldEncrypted m k then
    match v with
    | VString s => match Decrypt e s with Ok p => VString p | Err _ => v end
    | _ => v
    end
  else v.

Definition DecryptFields (m : FieldEncryptionManager) (payload : gmap string value) : result manager_error (gmap string value) :=
  match enabled_encryptor m with
  | None => Ok payload
  | Some e => Ok (map_imap (fun k v => Some (decrypt_value m e k v)) payload)
  end.

(** ** Texts *)

Definition good_nonce (n : list Z) : Prop := byte_block Gcm.NonceSize n.
Definition good_encryptor (e : FieldEncryptor) : Prop := valid_key (key e).

Lemma new_encryptor_good k e : Forall is_byte k -> NewFieldEncryptor k = Ok e -> good_encryptor e.
Proof. unfold NewFieldEncryptor, key_length_ok. case_bool_decide; [|done]. by intros Hk [= <-]. Qed.

Lemma b64_encode_empty l : b64_encode l = "" -> l = [].
Proof. by destruct l as [|a [|b [|c l]]]. Qed.

Lemma decrypt_encrypt e n p c : good_encryptor e -> (forall x, n = Some x -> good_nonce x) ->
  Encrypt e n p = Ok c -> Decrypt e c = Ok p.
Proof.
  unfold Encrypt, Decrypt. intros He Hn. case_bool_decide as Hp; [intros [= <-]; by rewrite Hp|].
  destruct n as [n|]; [|done]. intros [= <-]. destruct (Hn n eq_refl) as [Hl Hb].
  assert (forall b, byte_block 16 (block_of e b)) as HE by (intros; by apply encrypt_block_block).
  case_bool_decide as Hc. { by apply b64_encode_empty, app_eq_nil in Hc as [-> _]. }
  rewrite b64_roundtrip by (apply Forall_app; split; [done | apply seal_bytes, string_bytes_bytes; done]).
  rewrite length_app, Hl. case_match eqn:Hlt; [apply Nat.ltb_lt in Hlt; unfold Gcm.NonceSize in Hlt; lia|].
  rewrite (proj1 (take_drop_app n _ _ (eq_sym Hl))), (proj2 (take_drop_app n _ _ (eq_sym Hl))).
  by rewrite open_seal, bytes_string_bytes.
Qed.

(** ** Rows *)

Lemma encrypt_walk_spec m e draw order acc out : NoDup order.*1 ->
  encrypt_walk m e draw order acc = Ok out ->
  (forall k v, (k, v) ∈ order ->
     if IsFieldEncrypted m k then exists c, Encrypt e (draw k) (Sprint v) = Ok c /\ out !! k = Some (VString c)
     else out !! k = Some v) /\
  (forall k, k ∉ order.*1 -> out !! k = acc !! k).
Proof.
  revert acc. induction order as [|[k0 v0] order IH]; intros acc Hnd Hw.
  { injection Hw as <-. split; [intros k v H; by apply not_elem_of_nil in H | done]. }
  apply NoDup_cons in Hnd as [Hk0 Hnd]. cbn [encrypt_walk] in Hw.
  assert (exists w, encrypt_walk m e draw order (<[k0 := w]> acc) = Ok out /\
    if IsFieldEncrypted m k0 then exists c, Encrypt e (draw k0) (Sprint v0) = Ok c /\ w = VString c else w = v0) as (w & Hw' & Hv).
  { destruct (IsFieldEncrypted m k0); [|by eauto]. destruct (Encrypt e (draw k0) (Sprint v0)) as [c|]; [|done]. eauto. }
  destruct (IH _ Hnd Hw') as [H1 H2]. split.
  - intros k v [[= -> ->]|Hin]%elem_of_cons; [|by apply H1].
    rewrite (H2 k0 Hk0), lookup_insert_eq. destruct (IsFieldEncrypted m k0); [|by rewrite Hv].
    destruct Hv as (c & Hc & ->). eauto.
  - intros k Hk. cbn in Hk. apply not_elem_of_cons in Hk as [Hne Hk]. by rewrite H2, lookup_insert_ne.
Qed.

Lemma encrypt_walk_total m e draw order acc :
  (forall k v, (k, v) ∈ order -> IsFieldEncrypted m k = true -> is_Some (draw k)) ->
  exists out, encrypt_walk m e draw order acc = Ok out.
Proof.
  revert acc. induction order as [|[k v] order IH]; intros acc Hd; cbn [encrypt_walk]; [by eexists|].
  assert (forall k' v', (k', v') ∈ order -> IsFieldEncrypted m k' = true -> is_Some (draw k')) as Hd'.
  { intros k' v' Hin. apply (Hd k' v'). by apply list_elem_of_further. }
  destruct (IsFieldEncrypted m k) eqn:Ek; [|by apply IH].
  destruct (Hd k v (list_elem_of_here _ _) Ek) as [n Hn]. unfold Encrypt. rewrite Hn.
  case_bool_decide; by apply IH.
Qed.

(** What a value is after it was encrypted and decrypted. *)
Definition as_text (m : FieldEncryptionManager) (k : string) (v : value) : value :=
  if IsFieldEncrypted m k then VString (Sprint v) else v.

(** The row with its fields encrypted, and that it decrypts to the texts. *)
Lemma fields_roundtrip m e draw order payload :
  enabled_encryptor m = Some e -> good_encryptor e -> order ≡ₚ map_to_list payload ->
  (forall k, exists n, draw k = Some n /\ good_nonce n) ->
  exists stored, EncryptFields m draw order payload = Ok stored /\
    DecryptFields m stored = Ok (map_imap (fun k v => Some (as_text m k v)) payload) /\
    (forall k, stored !! k = match payload !! k with
      | Some v => if IsFieldEncrypted m k then
          match Encrypt e (draw k) (Sprint v) with Ok c => Some (VString c) | Err _ => None end else Some v
      | None => None end).
Proof.
  intros He Hg Ho Hd. unfold EncryptFields, DecryptFields. rewrite He.
  destruct (encrypt_walk_total m e draw order ∅) as [out Hout].
  { intros k v _ _. destruct (Hd k) as (n & -> & _). by eexists. }
  assert (NoDup order.*1) as Hnd by (rewrite Ho; apply NoDup_fst_map_to_list).
  destruct (encrypt_walk_spec _ _ _ _ _ _ Hnd Hout) as [H1 H2]. exists out. split; [done|].
  assert (forall k v, payload !! k = Some v -> (k, v) ∈ order) as Hin.
  { intros k v Hk. rewrite Ho. by apply elem_of_map_to_list. }
  assert (forall k, payload !! k = None -> out !! k = None) as Hnone.
  { intros k Hk. rewrite H2; [apply lookup_empty|]. rewrite Ho. intros ((k' & v) & -> & Hv)%list_elem_of_fmap.
    apply elem_of_map_to_list in Hv. cbn in Hk. by rewrite Hv in Hk. }
  split.
  - f_equal. apply map_eq. intros k. rewrite !map_lookup_imap. destruct (payload !! k) as [v|] eqn:Hk; cbn; [|by rewrite Hnone].
    specialize (H1 k v (Hin k v Hk)). unfold as_text, decrypt_value. destruct (IsFieldEncrypted m k); [|by rewrite H1].
    destruct H1 as (c & Hc & ->). cbn. rewrite (decrypt_encrypt e (draw k) (Sprint v) c Hg); [done| |done].
    intros x Hx. destruct (Hd k) as (n & Hn & Hgn). congruence.
  - intros k. destruct (payload !! k) as [v|] eqn:Hk; [|by apply Hnone].
    specialize (H1 k v (Hin k v Hk)). destruct (IsFieldEncrypted m k); [|done]. by destruct H1 as (c & -> & ->).
Qed.
End fields.

Section theorems.
Context (SprintFloat : Z -> string) (SprintOther : string -> string).
#[local] Abbreviation EncryptFields := (EncryptFields SprintFloat SprintOther).
#[local] Abbreviation Sprint := (Sprint SprintFloat SprintOther).

(** The encrypted fields of a row come back. With a working random source
    an enabled manager encrypts every row, whatever the order of its fields;
    the stored row has the same fields, those that are not configured keep
    their values, and decrypting it gives every configured field back as the
    text of its value, so a row whose configured fields are texts is restored. *)
Theorem encrypted_fields_come_back m e draw order payload :
  enabled_encryptor m = Some e -> good_encryptor e -> order ≡ₚ map_to_list payload ->
  (forall k, exists n, draw k = Some n /\ good_nonce n) ->
  exists stored restored, EncryptFields m draw order payload = Ok stored /\ DecryptFields m stored = Ok restored /\
    dom stored = dom payload /\ dom restored = dom payload /\
    (forall k v, payload !! k = Some v -> IsFieldEncrypted m k = false -> stored !! k = Some v /\ restored !! k = Some v) /\
    (forall k v, payload !! k = Some v -> IsFieldEncrypted m k = true -> restored !! k = Some (VString (Sprint v))) /\
    ((forall k v, payload !! k = Some v -> IsFieldEncrypted m k = true -> exists s, v = VString s) -> restored = payload).
Proof.
  intros He Hg Ho Hd. destruct (fields_roundtrip SprintFloat SprintOther m e draw order payload He Hg Ho Hd) as (stored & H1 & H2 & H3).
  exists stored. eexists. split; [done|]. split; [exact H2|].
  assert (forall k, (map_imap (fun k v => Some (as_text SprintFloat SprintOther m k v)) payload) !! k
    = (fun v => as_text SprintFloat SprintOther m k v) <$> payload !! k) as Hr.
  { intros k. rewrite map_lookup_imap. by destruct (payload !! k). }
  split_and!.
  - apply set_eq. intros k. rewrite !elem_of_dom, H3. destruct (payload !! k) as [v|]; [|done].
    destruct (IsFieldEncrypted m k); [|done]. destruct (Hd k) as (n & -> & _). unfold Encrypt. by case_bool_decide.
  - apply set_eq. intros k. rewrite !elem_of_dom, Hr. by rewrite fmap_is_Some.
  - intros k v Hk Hf. rewrite H3, Hr, Hk. cbn. unfold as_text. by rewrite Hf.
  - intros k v Hk Hf. rewrite Hr, Hk. cbn. unfold as_text. by rewrite Hf.
  - intros Ht. apply map_eq. intros k. rewrite Hr. destruct (payload !! k) as [v|] eqn:Hk; [|done]. cbn. unfold as_text.
    destruct (IsFieldEncrypted m k) eqn:Hf; [|done]. by destruct (Ht k v Hk Hf) as [s ->].
Qed.

(** Only what the key sealed is taken for an encryption. A text that
    decrypts is the encoding of a nonce and of exactly what sealing the
    plaintext under that nonce and the key gives. *)
Theorem only_sealed_decrypts e c p : good_encryptor e -> c <> "" -> Decrypt e c = Ok p ->
  exists n ct, b64_decode c = Some (n ++ ct) /\ length n = Gcm.NonceSize /\ ct = Gcm.Seal (block_of e) n (string_bytes p).
Proof.
  unfold Decrypt. intros He Hc. rewrite bool_decide_eq_false_2 by done.
  destruct (b64_decode c) as [data|] eqn:Ed; [|done]. case_match eqn:Hl; [done|]. apply Nat.ltb_ge in Hl.
  destruct (Gcm.Open (block_of e) (take Gcm.NonceSize data) (drop Gcm.NonceSize data)) as [pt|] eqn:Eo; [|done].
  intros [= <-]. exists (take Gcm.NonceSize data), (drop Gcm.NonceSize data). rewrite take_drop, length_take.
  split_and!; [done|lia|]. assert (forall b, byte_block 16 (block_of e b)) as HE by (intros; by apply encrypt_block_block).
  apply (open_seals _ HE) in Eo; [|by apply Forall_drop, (b64_decode_bytes c)]. destruct Eo as [-> Hb].
  by rewrite string_bytes_string.
Qed.
End theorems.

(** ** Through the Parquet columns *)

(** A row of the batch is the given row with its fields encrypted. *)
Definition encrypted_row SprintFloat SprintOther (m : FieldEncryptionManager) (raw row : DataRow) : Prop :=
  exists draw order, order ≡ₚ map_to_list (row_Fields raw) /\ (forall k, exists n, draw k = Some n /\ good_nonce n) /\
    EncryptFields SprintFloat SprintOther m draw order (row_Fields raw) = Ok (row_Fields row) /\
    row_ID row = row_ID raw /\ row_Timestamp row = row_Timestamp raw /\ row_Table row = row_Table raw.

(** C24: encrypted rows survive the files. When the fields of a batch do not
    clash and a field is configured just when its column's name is, what a
    query decrypts from the column of a field is the text of the value that
    was ingested, and every other column is what was ingested. *)
Theorem encrypted_rows_read_back SprintFloat SprintOther m e raws rows schema objs i raw obj k v :
  enabled_encryptor m = Some e -> good_encryptor e ->
  Forall2 (encrypted_row SprintFloat SprintOther m) raws rows ->
  no_clash (allFieldKeys rows) -> writeParquetFile rows = Some (schema, objs) ->
  let mapping := buildGlobalFieldMapping (allFieldKeys rows) in
  (forall f col, mapping !! f = Some col -> IsFieldEncrypted m col = IsFieldEncrypted m f) ->
  raws !! i = Some raw -> objs !! i = Some obj -> row_Fields raw !! k = Some v ->
  exists col out, mapping !! k = Some col /\ DecryptFields m obj = Ok out /\
    out !! col = Some (as_text SprintFloat SprintOther m k v).
Proof.
  intros He Hg Hrows Hc Hw mapping Hnames Hraw Hobj Hk.
  destruct (Forall2_lookup_l _ _ _ _ _ Hrows Hraw) as (row & Hrow & draw & order & Ho & Hd & Henc & _).
  destruct (fields_roundtrip SprintFloat SprintOther m e draw order (row_Fields raw) He Hg Ho Hd) as (st & Henc' & Hdec & Hst).
  rewrite Henc in Henc'. injection Henc' as <-.
  destruct (parquet_rows_lemma rows schema objs row obj i Hc Hw Hrow Hobj) as (_ & _ & _ & Hcols & _).
  assert (exists v', row_Fields row !! k = Some v' /\ decrypt_value m e k v' = as_text SprintFloat SprintOther m k v) as (v' & Hv' & Hdv).
  { unfold DecryptFields in Hdec. rewrite He in Hdec. injection Hdec as Hdec.
    apply (f_equal (lookup k)) in Hdec. rewrite !map_lookup_imap, Hk in Hdec. cbn in Hdec.
    destruct (row_Fields row !! k) as [v'|]; [|done]. cbn in Hdec. injection Hdec as Hdec. eauto. }
  destruct (Hcols k v' Hv') as (col & Hcol & Hoc). exists col. eexists. split; [done|].
  unfold DecryptFields. rewrite He. split; [done|]. rewrite map_lookup_imap, Hoc. cbn. f_equal.
  rewrite <- Hdv. unfold decrypt_value. by rewrite (Hnames k col Hcol).
Qed.

(** ** Runs *)

Module EncryptionDemo.

Definition Getenv (v : string) : string := if bool_decide (v = "FIELD_KEY") then "0123456789abcdef" else "".
Definition ReadFile (f : string) : option string := None.
Definition cfg (fields : list string) : FieldEncryptionConfig := mkEncryption true "FIELD_KEY" "" fields "k1".
Definition manager (fields : list string) : FieldEncryptionManager :=
  mkManager (Some (mkEncryptor (string_bytes "0123456789abcdef"))) (Some (cfg fields)) (list_to_set fields).

Lemma manager_made fields : NewFieldEncryptionManager Getenv ReadFile (Some (cfg fields)) = Ok (manager fields).
Proof. done. Qed.

Definition draw (k : string) : option (list Z) := Some (seqZ 1 12).
Lemma draw_good k : exists n, draw k = Some n /\ good_nonce n.
Proof.
  exists (seqZ 1 12). split; [done|]. split; [done|]. apply Forall_forall. intros x Hx%elem_of_seqZ.
  unfold is_byte, in_uint. change (2 ^ 8) with 256. lia.
Qed.

Lemma key_good : good_encryptor (mkEncryptor (string_bytes "0123456789abcdef")).
Proof. split; [by apply list_elem_of_here | apply string_bytes_bytes]. Qed.

Definition payload (card : string) : gmap string value := {[ card := VString "4111"; "n" := VInt 7 ]}.

Lemma encrypted_fields_come_back_witness :
  exists stored restored, EncryptFields (fun _ => "0") (fun s => s) (manager ["card"]) draw (map_to_list (payload "card")) (payload "card") = Ok stored /\
    DecryptFields (manager ["card"]) stored = Ok restored /\ restored = payload "card".
Proof.
  destruct (encrypted_fields_come_back (fun _ => "0") (fun s => s) (manager ["card"]) (mkEncryptor (string_bytes "0123456789abcdef"))
    draw (map_to_list (payload "card")) (payload "card")) as (st & re & H1 & H2 & _ & _ & _ & _ & H3);
    [done | apply key_good | done | apply draw_good |].
  exists st, re. split; [done|]. split; [done|]. apply H3. intros k v Hk Hf.
  unfold payload in Hk. apply lookup_insert_Some in Hk as [[<- <-]|[_ Hk]]; [by eexists|].
  apply lookup_singleton_Some in Hk as [<- <-]. by vm_compute in Hf.
Defined.

Definition card_text : string := "AQIDBAUGBwgJCgsM9KEX/vSZlkhXOCIAa2IF397oenw=".

Lemma only_sealed_decrypts_witness :
  exists n ct, b64_decode card_text = Some (n ++ ct) /\ length n = Gcm.NonceSize /\
    ct = Gcm.Seal (block_of (mkEncryptor (string_bytes "0123456789abcdef"))) n (string_bytes "4111").
Proof.
  apply (only_sealed_decrypts (mkEncryptor (string_bytes "0123456789abcdef"))); [apply key_good | done |].
  vm_compute. reflexivity.
Defined.

(** A batch of one row, as the buffer gets it. *)
Definition raw (card : string) : DataRow := mkRow "r1" 1700000000000000 "t" (payload card).
Definition stored (card : string) : DataRow := mkRow "r1" 1700000000000000 "t" {[ card := VString card_text; "n" := VInt 7 ]}.

Lemma stored_encrypted : encrypted_row (fun _ => "0") (fun s => s) (manager ["card"]) (raw "card") (stored "card").
Proof. exists draw, (map_to_list (payload "card")). split_and!; [done | apply draw_good | by vm_compute | done..]. Qed.

Lemma stored_no_clash : no_clash (allFieldKeys [stored "card"]).
Proof.
  intros k k' n Hk Hk' Hn E.
  assert (forall k, k ∈ dom (allFieldKeys [stored "card"]) -> has_char "_" (sanitizeColumnName k) = false) as H.
  { intros q Hq. cbn in Hq. rewrite map_empty_union, dom_insert_L, dom_singleton_L in Hq.
    assert (q = "card" \/ q = "n") as [-> | ->] by set_solver; done. }
  pose proof (H k Hk) as F. rewrite E, has_char_app in F. simpl in F. by rewrite orb_true_r in F.
Qed.

Lemma encrypted_rows_read_back_witness :
  exists objs (col : string) out, snd <$> writeParquetFile [stored "card"] = Some objs /\
    DecryptFields (manager ["card"]) (default ∅ (objs !! 0%nat)) = Ok out /\ out !! col = Some (VString "4111").
Proof.
  set (rows := [stored "card"]).
  set (obj := row_object (stored "card") (map_to_list (row_Fields (stored "card"))) (buildGlobalFieldMapping (allFieldKeys rows))).
  destruct (encrypted_rows_read_back (fun _ => "0") (fun s => s) (manager ["card"])
    (mkEncryptor (string_bytes "0123456789abcdef")) [raw "card"] rows
    (buildParquetSchemaJSONFromMapping (buildGlobalFieldMapping (allFieldKeys rows)) (allFieldKeys rows)) [obj] 0 (raw "card") obj "card" (VString "4111"))
    as (col & out & _ & H1 & H2); [done | apply key_good | | apply stored_no_clash | done | | done | done | done |].
  - repeat constructor. apply stored_encrypted.
  - assert (buildGlobalFieldMapping (allFieldKeys rows) = {[ "card" := "card"; "n" := "n" ]}) as -> by (by vm_compute).
    intros f col Hf. apply lookup_insert_Some in Hf as [[<- <-]|[_ Hf]]; [done|]. by apply lookup_singleton_Some in Hf as [<- <-].
  - exists [obj], col, out. split; [done|]. split; [exact H1|exact H2].
Defined.

(** What a query gets from a column. *)
Lemma decrypt_column m e obj col : enabled_encryptor m = Some e ->
  exists out, DecryptFields m obj = Ok out /\ out !! col = decrypt_value m e col <$> obj !! col.
Proof.
  intros He. unfold DecryptFields. rewrite He. eexists. split; [done|]. rewrite map_lookup_imap. by destruct (obj !! col).
Qed.

Definition cardNo_object : gmap string value :=
  row_object (stored "cardNo") (map_to_list (row_Fields (stored "cardNo"))) (buildGlobalFieldMapping (row_Fields (stored "cardNo"))).

Lemma cardNo_encrypted : EncryptFields (fun _ => "0") (fun s => s) (manager ["cardNo"]) draw (map_to_list (payload "cardNo")) (payload "cardNo")
  = Ok (row_Fields (stored "cardNo")).
Proof. vm_compute. reflexivity. Qed.

Lemma cardNo_column : cardNo_object !! "cardno" = Some (VString card_text).
Proof. vm_compute. reflexivity. Qed.

(** Where encryption is not what it seems. The names of the configuration
    are compared with the fields' names when a row is written and with the
    columns' names, in lower case, when it is read: the field [cardNo] is
    encrypted, and a query returns the encryption. A manager that was made
    disabled stays disabled after [UpdateConfig] enables it, and writes fields
    in the clear. After the key was rotated the old encryptions are returned as
    values, without an error. A number comes back as a text. *)
Theorem encryption_flaws :
  (EncryptFields (fun _ => "0") (fun s => s) (manager ["cardNo"]) draw (map_to_list (payload "cardNo")) (payload "cardNo")
     = Ok (row_Fields (stored "cardNo")) /\
   snd <$> writeParquetFile [stored "cardNo"] = Some [cardNo_object] /\
   exists out, DecryptFields (manager ["cardNo"]) cardNo_object = Ok out /\ out !! "cardno" = Some (VString card_text)) /\
  (exists m0 m1, NewFieldEncryptionManager Getenv ReadFile (Some (mkEncryption false "FIELD_KEY" "" ["card"] "k1")) = Ok m0 /\
     UpdateConfig (Some (cfg ["card"])) m0 = Ok m1 /\ IsFieldEncrypted m1 "card" = true /\ IsEnabled m1 = false /\
     EncryptFields (fun _ => "0") (fun s => s) m1 draw (map_to_list (payload "card")) (payload "card") = Ok (payload "card")) /\
  (exists e, RotateKey (mkEncryptor (string_bytes "0123456789abcdef")) (string_bytes "fedcba9876543210") = Ok e /\
     decrypt_value (manager ["card"]) e "card" (VString card_text) = VString card_text) /\
  as_text (fun _ => "0") (fun s => s) (manager ["n"]) "n" (VInt 7) = VString "7".
Proof.
  split_and!.
  - exact cardNo_encrypted.
  - unfold cardNo_object, writeParquetFile. cbn [allFieldKeys foldl]. by rewrite map_empty_union.
  - destruct (decrypt_column (manager ["cardNo"]) (mkEncryptor (string_bytes "0123456789abcdef")) cardNo_object "cardno" eq_refl) as (out & H1 & H2).
    exists out. split; [done|]. by rewrite H2, cardNo_column.
  - exists (mkManager None (Some (mkEncryption false "FIELD_KEY" "" ["card"] "k1")) ∅),
      (mkManager None (Some (cfg ["card"])) (list_to_set ["card"])). split_and!; done.
  - exists (mkEncryptor (string_bytes "fedcba9876543210")). split; [done | vm_compute; reflexivity].
  - done.
Qed.

End EncryptionDemo.
