(* ===== verification/TableManager.v ===== *)
(** * The table manager (internal/service/table_manager.go) and the
    configuration manager (internal/service/table_config_manager.go)

    With Redis a table is a member of the set of tables, a hash with its
    configuration, the time of its creation and of its last write, and a hash
    of statistics. Without Redis it is an object of the bucket. *)

From S2P Require Import Prelude GoStrings GoTime GoRegexp FieldMapping RedisStore TableConfig.
From Stdlib Require Import Ascii.
#[local] Open Scope Z_scope.

(** ** The hash of a configuration *)

Definition b2s (b : bool) : string := if b then "true" else "false".
Definition truthy (s : string) : bool := bool_decide (s = "true") || bool_decide (s = "1").

(** [int64(d.Seconds())]. The float has the whole seconds exactly; a fraction
    is cut off (below 2^24 seconds no fraction rounds up to a whole second). *)
Definition whole_seconds (d : Z) : Z := Z.quot d second.

Definition prop_key (k : string) : string := "prop_" +:+ k.
#[global] Instance prop_key_inj : Inj (=) (=) prop_key.
Proof. intros a b. unfold prop_key. intros H. by simplify_eq/=. Qed.

Definition fixed_fields (c : TableConfig) : gmap string string := list_to_map [
  ("buffer_size", Itoa (BufferSize c)); ("flush_interval", Itoa (whole_seconds (FlushInterval c)));
  ("retention_days", Itoa (RetentionDays c)); ("backup_enabled", b2s (default false (BackupEnabled c)));
  ("id_strategy", IDStrategy c); ("id_prefix", IDPrefix c); ("auto_generate_id", b2s (AutoGenerateID c));
  ("id_validation_max_length", Itoa (MaxLength (IDValidation c))); ("id_validation_pattern", Pattern (IDValidation c));
  ("id_validation_allowed_chars", AllowedChars (IDValidation c))].

(** [configData] of a configuration whose properties are [props]. *)
Definition config_data (c : TableConfig) (props : gmap string string) : gmap string string :=
  kmap prop_key props ∪ fixed_fields c.

(** Fields that start with [prop_]. *)
Definition properties_of (h : gmap string string) : gmap string string :=
  list_to_map (omap (fun '(k, v) => (fun r => (r, v)) <$> cut_prefix "prop_" k) (map_to_list h)).

Definition atoi_field (h : gmap string string) (k : string) : Z := default 0 ((h !! k) ≫= Atoi).
Definition string_field (h : gmap string string) (k : string) : string := default "" (h !! k).

Definition config_of_hash (h : gmap string string) : TableConfig :=
  NormalizeAutoGenerateIDFromStrategy
    (mkTableConfig (atoi_field h "buffer_size") (int64 (atoi_field h "flush_interval" * second)) (atoi_field h "retention_days")
       (truthy <$> (h !! "backup_enabled")) (OwnMap (properties_of h)) (string_field h "id_strategy") (string_field h "id_prefix")
       (truthy (string_field h "auto_generate_id"))
       (mkRules (atoi_field h "id_validation_max_length") (string_field h "id_validation_pattern")
          (string_field h "id_validation_allowed_chars")) None).

(** ** Keys *)

Definition tables_list : string := "tables:list".
Definition configKey (t : string) : string := "table:" +:+ t +:+ ":config".
Definition createdAtKey (t : string) : string := "table:" +:+ t +:+ ":created_at".
Definition lastWriteKey (t : string) : string := "table:" +:+ t +:+ ":last_write".
Definition statsKey (t : string) : string := "table:" +:+ t +:+ ":stats".
Definition indexPrefix (t : string) : string := "index:table:" +:+ t +:+ ":id:".
Definition fileMetaPrefix (t : string) : string := "file_meta:" +:+ t +:+ "/".
Definition metadataFilePrefix (t : string) : string := "metadata:file:" +:+ t +:+ "/".

(** ** The manager *)

Inductive table_error :=
  | InvalidTableName | TableAlreadyExists | TableDoesNotExist | AutoCreationDisabled | MaxTablesReached
  | ImmutableIDStrategy | ImmutableIDPrefix | RedisCallFailed (e : redis_error) | SaveToMinioFailed.

Record TableManagerInfo := mkInfo {
  info_Name : string; info_Config : TableConfig; info_CreatedAt : string; info_LastWrite : string; info_Status : string;
}.
Record TableManagerStats := mkStats {
  RecordCount : Z; FileCount : Z; SizeBytes : Z; OldestRecord : string; NewestRecord : string;
}.

Record TableManager := mkManager { redisPool : bool; primaryMinio : bool; backupMinio : bool; tm_cfg : Config }.

(** [NewTableManager] makes a store of configurations without Redis. *)
Definition minioConfigStore (tm : TableManager) : bool :=
  negb (redisPool tm) && primaryMinio tm && negb (bool_decide (MinioBucket (tm_cfg tm) = "")).

Section manager.
Context {JC : ConfigJSON} (Compile : string -> option regex) (RFC3339 : Z -> string).
Context (tm : TableManager).

Let cfg := tm_cfg tm.
Let bucket := MinioBucket (tm_cfg tm).

Definition call {A} (m : M redis_server redis_error A) : M world table_error A := on_error RedisCallFailed (on_redis m).
(** A call whose failure is only logged. *)
Definition try_call {A} (m : M redis_server redis_error A) : M world table_error (result redis_error A) := attempt (on_redis m).
Definition try_store {A} (m : M world MinioConfigStore.error A) : M world table_error (result MinioConfigStore.error A) := attempt m.

Definition TableExists (tableName : string) : M world table_error bool :=
  if negb (redisPool tm) then
    if negb (minioConfigStore tm) then mret false else
    r ← try_store (MinioConfigStore.Get bucket tableName);
    mret (match r with Ok (Some _) => true | _ => false end)
  else call (SIsMember tables_list tableName).

Definition getTotalTableCount : M world table_error Z :=
  if negb (redisPool tm) then mret 0 else call (SCard tables_list).

(** Unset fields take the values of the default configuration. *)
Definition fill_defaults (d c : TableConfig) : TableConfig :=
  mkTableConfig
    (if BufferSize c <=? 0 then BufferSize d else BufferSize c)
    (if FlushInterval c <=? 0 then FlushInterval d else FlushInterval c)
    (if RetentionDays c <=? 0 then RetentionDays d else RetentionDays c)
    (BackupEnabled c) (match Properties c with NilMap => OwnMap ∅ | p => p end)
    (if bool_decide (IDStrategy c = "") then IDStrategy d else IDStrategy c) (IDPrefix c) (AutoGenerateID c)
    (mkRules (if MaxLength (IDValidation c) <=? 0 then MaxLength (IDValidation d) else MaxLength (IDValidation c))
       (if bool_decide (Pattern (IDValidation c) = "") then Pattern (IDValidation d) else Pattern (IDValidation c))
       (AllowedChars (IDValidation c)))
    (FieldEncryption c).

Definition new_config (tableConfig : option TableConfig) : TableConfig :=
  NormalizeAutoGenerateIDFromStrategy
    (match tableConfig with None => DefaultConfig cfg | Some c => fill_defaults (DefaultConfig cfg) c end).

Definition empty_stats : gmap string string :=
  list_to_map [("record_count", "0"); ("file_count", "0"); ("size_bytes", "0"); ("oldest_record", ""); ("newest_record", "")].

Definition write_config (tableName : string) (c : TableConfig) : M world table_error unit :=
  props ← asks (fun w => contents w (Properties c));
  call (HMSet (configKey tableName) (config_data c props)).

(** The keys of a new table. *)
Definition register (now : Z) (tableName : string) (c : TableConfig) : M world table_error unit :=
  call (SAdd tables_list tableName) ;;
  write_config tableName c ;;
  call (SetKey (createdAtKey tableName) (RFC3339 now)) ;;
  call (HMSet (statsKey tableName) empty_stats).

(** The result is what the configuration of the caller holds afterwards: the
    manager fills in its unset fields. *)
Definition CreateTable (now : Z) (tableName : string) (tableConfig : option TableConfig) (ifNotExists : bool) :
    M world table_error (option TableConfig) :=
  if negb (IsValidTableName Compile cfg tableName) then throw InvalidTableName else
  ex ← TableExists tableName;
  if (ex : bool) then (if ifNotExists then mret tableConfig else throw TableAlreadyExists) else
  totalTables ← getTotalTableCount;
  if MaxTables (TableManagement cfg) <=? totalTables then throw MaxTablesReached else
  let c := new_config tableConfig in
  let filled := (fun _ => c) <$> tableConfig in
  if negb (redisPool tm) then
    (if minioConfigStore tm then try_store (MinioConfigStore.Save bucket now tableName c) ;; mret tt else mret tt) ;;
    mret filled
  else register now tableName c ;; mret filled.

(** The objects of the table here and on the backup server. *)
Definition remove_object (key : string) : M world table_error Z :=
  r ← attempt (RemoveObject bucket key);
  (if backupMinio tm && Backup_Enabled cfg then attempt (E1 := s3_error) (RemoveBackupObject (BackupBucket cfg) key) ;; mret tt else mret tt) ;;
  mret (if is_ok r then 1 else 0).

Fixpoint remove_objects (l : list string) : M world table_error Z :=
  match l with
  | [] => mret 0
  | key :: l => n ← remove_object key; m ← remove_objects l; mret (n + m)
  end.

Definition delete_keys (pattern : string) : M world table_error unit :=
  r ← try_call (ScanKeys pattern);
  match r with
  | Err _ => mret tt
  | Ok ks => each (fun k => try_call (Del [k]) ;; mret tt) ks
  end.

(** A listing that breaks off yields the error and is skipped. *)
Definition deleteTableData (tableName : string) : M world table_error Z :=
  deleted ← (if primaryMinio tm then
    r ← attempt (ListObjects bucket (tableName +:+ "/"));
    match r with Ok l => remove_objects l | Err _ => mret 0 end else mret 0);
  if negb (redisPool tm) then mret deleted else
  delete_keys (indexPrefix tableName +:+ "*") ;;
  delete_keys (fileMetaPrefix tableName +:+ "*") ;;
  delete_keys (metadataFilePrefix tableName +:+ "*") ;;
  mret deleted.

Definition DropTable (tableName : string) (ifExists : bool) : M world table_error Z :=
  ex ← TableExists tableName;
  if negb ex then (if ifExists then mret 0 else throw TableDoesNotExist) else
  filesDeleted ← deleteTableData tableName;
  if negb (redisPool tm) then
    (if minioConfigStore tm then try_store (MinioConfigStore.Delete bucket tableName) ;; mret tt else mret tt) ;;
    mret filesDeleted
  else
    call (SRem tables_list tableName) ;;
    try_call (Del [configKey tableName]) ;;
    try_call (Del [createdAtKey tableName]) ;;
    try_call (Del [lastWriteKey tableName]) ;;
    try_call (Del [statsKey tableName]) ;;
    mret filesDeleted.

Definition EnsureTableExists (now : Z) (tableName : string) : M world table_error unit :=
  ex ← TableExists tableName;
  if (ex : bool) then mret tt else
  if negb (AutoCreateTables (TableManagement cfg)) then throw AutoCreationDisabled else
  CreateTable now tableName None true ;; mret tt.

Definition UpdateLastWrite (now : Z) (tableName : string) : M world table_error unit :=
  if negb (redisPool tm) then mret tt else call (SetKey (lastWriteKey tableName) (RFC3339 now)).

Definition getTableConfigFromRedis (tableName : string) : M world table_error TableConfig :=
  let dc := NormalizeAutoGenerateIDFromStrategy (DefaultConfig cfg) in
  if negb (redisPool tm) then
    if negb (minioConfigStore tm) then mret dc else
    r ← try_store (MinioConfigStore.Get bucket tableName);
    mret (match r with Ok (Some c) => NormalizeAutoGenerateIDFromStrategy c | _ => dc end)
  else
    h ← call (HGetAll (configKey tableName));
    mret (if bool_decide (h = ∅) then dc else config_of_hash h).

Definition getTableInfo (tableName : string) : M world table_error TableManagerInfo :=
  c ← getTableConfigFromRedis tableName;
  if negb (redisPool tm) then mret (mkInfo tableName c "" "" "active") else
  createdAt ← call (GetKey (createdAtKey tableName));
  lastWrite ← try_call (GetKey (lastWriteKey tableName));
  mret (mkInfo tableName c (default "" createdAt) (match lastWrite with Ok (Some s) => s | _ => "" end) "active").

Definition getTableStats (tableName : string) : M world table_error TableManagerStats :=
  if negb (redisPool tm) then mret (mkStats 0 0 0 "" "") else
  h ← call (HGetAll (statsKey tableName));
  mret (mkStats (atoi_field h "record_count") (atoi_field h "file_count") (atoi_field h "size_bytes")
          (string_field h "oldest_record") (string_field h "newest_record")).

Definition DescribeTable (tableName : string) : M world table_error (TableManagerInfo * TableManagerStats) :=
  ex ← TableExists tableName;
  if negb ex then throw TableDoesNotExist else
  i ← getTableInfo tableName; s ← getTableStats tableName; mret (i, s).

Definition matchPattern (str pattern : string) : bool :=
  if bool_decide (pattern = "") || bool_decide (pattern = "*") then true
  else if HasSuffix pattern "*" then HasPrefix str (String.substring 0 (String.length pattern - 1) pattern)
  else if HasPrefix pattern "*" then HasSuffix str (String.substring 1 (String.length pattern - 1) pattern)
  else bool_decide (str = pattern).

Definition selects (pattern name : string) : bool := bool_decide (pattern = "") || matchPattern name pattern.

Fixpoint infos (get : string -> M world table_error (option TableManagerInfo)) (names : list string) :
    M world table_error (list TableManagerInfo) :=
  match names with
  | [] => mret []
  | n :: names => i ← get n; l ← infos get names; mret (match i with Some i => i :: l | None => l end)
  end.

Definition listTablesFromMinio (pattern : string) : M world table_error (list TableManagerInfo) :=
  if negb (minioConfigStore tm) then mret [] else
  r ← try_store (MinioConfigStore.ListTableNames bucket);
  match r with
  | Err _ => mret []
  | Ok names =>
      infos (fun name =>
        c ← try_store (MinioConfigStore.Get bucket name);
        mret (Some (mkInfo name (match c with Ok (Some c) => c | _ => DefaultConfig cfg end) "" "" "active")))
        (List.filter (selects pattern) names)
  end.

(** A table whose description cannot be read is left out. *)
Definition ListTables (pattern : string) : M world table_error (list TableManagerInfo) :=
  if negb (redisPool tm) then listTablesFromMinio pattern else
  names ← call (SMembers tables_list);
  infos (fun name => r ← attempt (E1 := table_error) (getTableInfo name); mret (match r with Ok i => Some i | Err _ => None end))
    (List.filter (selects pattern) names).

(** The properties of [new] are written into the map of [c]. *)
Definition merge_properties (new c : properties) : M world table_error properties :=
  match new with
  | NilMap => mret c
  | _ =>
      n ← asks (fun w => contents w new);
      match c with
      | NilMap => mret (OwnMap n)
      | DefaultMap => modifies (fun w => set_default_props (n ∪ default_props w) w) ;; mret DefaultMap
      | OwnMap m => mret (OwnMap (n ∪ m))
      end
  end.

Definition UpdateTableConfig (now : Z) (tableName : string) (newConfig : TableConfig) : M world table_error unit :=
  ex ← TableExists tableName;
  if negb ex then throw TableDoesNotExist else
  cur ← getTableConfigFromRedis tableName;
  if negb (bool_decide (IDStrategy newConfig = "")) && negb (bool_decide (IDStrategy newConfig = IDStrategy cur))
  then throw ImmutableIDStrategy else
  if negb (bool_decide (IDPrefix newConfig = "")) && negb (bool_decide (IDPrefix newConfig = IDPrefix cur))
  then throw ImmutableIDPrefix else
  props ← merge_properties (Properties newConfig) (Properties cur);
  let updated := NormalizeAutoGenerateIDFromStrategy (mkTableConfig
    (if 0 <? BufferSize newConfig then BufferSize newConfig else BufferSize cur)
    (if 0 <? FlushInterval newConfig then FlushInterval newConfig else FlushInterval cur)
    (if 0 <? RetentionDays newConfig then RetentionDays newConfig else RetentionDays cur)
    (match BackupEnabled newConfig with Some b => Some b | None => BackupEnabled cur end) props
    (IDStrategy cur) (IDPrefix cur) (AutoGenerateID cur) (IDValidation cur) (FieldEncryption cur)) in
  if negb (redisPool tm) then
    if minioConfigStore tm then on_error (fun _ => SaveToMinioFailed) (MinioConfigStore.Save bucket now tableName updated) else mret tt
  else write_config tableName updated.
End manager.

(** * The configuration manager (internal/service/table_config_manager.go)

    Configurations of tables from the hashes of Redis, kept for five minutes. *)

Module ConfigManager.

(** [configCache] and [lastUpdateTime], which have the same keys. *)
Abbreviation cache := (gmap string (TableConfig * Z)).
Definition cacheTTL : Z := 300 * second.

Section manager.
Context (has_redis : bool) (defaultConfig : TableConfig).

(** [fmt.Sscanf(s, "%d")]: what follows the number is left unread. *)
Definition parseInt (s : string) : option Z :=
  let s := (span (fun c => is_blank c && negb (N_of_ascii c =? 10)%N && negb (N_of_ascii c =? 13)%N) s).2 in
  let '(sign, s) := match s with
                    | String c r => if bool_decide (c = "-"%char) || bool_decide (c = "+"%char) then (String c "", r) else ("", s)
                    | "" => ("", "")
                    end in
  ParseInt64 (sign +:+ (span is_digit s).1).

Definition of_hash (h : gmap string string) : TableConfig :=
  let d := defaultConfig in
  NormalizeAutoGenerateIDFromStrategy
    (mkTableConfig (BufferSize d) (FlushInterval d) (RetentionDays d) (BackupEnabled d) (Properties d)
       (default (IDStrategy d) (h !! "id_strategy")) (default (IDPrefix d) (h !! "id_prefix"))
       (default (AutoGenerateID d) ((fun v => bool_decide (v = "true")) <$> (h !! "auto_generate_id")))
       (mkRules (match (h !! "id_validation_max_length") ≫= parseInt with
                 | Some n => if 0 <? n then n else MaxLength (IDValidation d)
                 | None => MaxLength (IDValidation d)
                 end)
          (default (Pattern (IDValidation d)) (h !! "id_validation_pattern")) (AllowedChars (IDValidation d)))
       (FieldEncryption d)).

Inductive error := NoRedis | CallFailed (e : redis_error).

Definition loadFromRedis (tableName : string) : M world error (option TableConfig) :=
  if negb has_redis then throw NoRedis else
  h ← on_error CallFailed (on_redis (HGetAll (configKey tableName)));
  mret (if bool_decide (h = ∅) then None else Some (of_hash h)).

Definition hash_of (c : TableConfig) : gmap string string := list_to_map [
  ("id_strategy", IDStrategy c); ("id_prefix", IDPrefix c); ("auto_generate_id", b2s (AutoGenerateID c));
  ("id_validation_max_length", Itoa (MaxLength (IDValidation c))); ("id_validation_pattern", Pattern (IDValidation c));
  ("id_validation_allowed_chars", AllowedChars (IDValidation c))].

Definition saveToRedis (tableName : string) (c : TableConfig) : M world error unit :=
  if negb has_redis then throw NoRedis else
  on_error CallFailed (on_redis (HMSet (configKey tableName) (hash_of (NormalizeAutoGenerateIDFromStrategy c)))).

Definition updateLocalCache (now : Z) (tableName : string) (c : TableConfig) (m : cache) : cache := <[tableName := (c, now)]> m.
Definition InvalidateCache (tableName : string) (m : cache) : cache := delete tableName m.
Definition ClearCache (m : cache) : cache := ∅.
Definition GetCachedTableNames (m : cache) : list string := (map_to_list m).*1.

Definition GetTableConfig (now : Z) (tableName : string) (m : cache) : M world error (TableConfig * cache) :=
  match m !! tableName with
  | Some (c, at_) => if now - at_ <? cacheTTL then mret (Some c) else mret None
  | None => mret None
  end ≫= fun hit =>
  match hit with
  | Some c => mret (c, m)
  | None =>
      r ← attempt (E1 := error) (loadFromRedis tableName);
      mret (match r with
            | Ok (Some c) => (c, updateLocalCache now tableName c m)
            | _ => (defaultConfig, m)
            end)
  end.

Definition SetTableConfig (now : Z) (tableName : string) (c : TableConfig) (m : cache) : M world error cache :=
  saveToRedis tableName c ;; mret (updateLocalCache now tableName (NormalizeAutoGenerateIDFromStrategy c) m).
End manager.

End ConfigManager.
