(* ===== verification/TableManagerTheorems.v ===== *)
(** * What the table manager guarantees

    A configuration that is stored is read back, up to what the hash of Redis
    cannot hold; an operation on a table touches nothing of another table; the
    number of tables respects its limit; a dropped table leaves nothing. *)

From S2P Require Import Prelude GoStrings GoTime GoRegexp FieldMapping RedisStore TableConfig TableManager.
From Stdlib Require Import Ascii.
#[local] Open Scope Z_scope.

(** ** The hash of a configuration *)


Definition prop_free (h : gmap string string) : Prop := forall k, h !! prop_key k = None.

(** Selecting and renaming the keys of a map by a partial inverse. *)
Section rename.
Context (f : string -> option string) (g : string -> string).
Hypothesis f_some : forall k r, f k = Some r -> k = g r.
Hypothesis f_g : forall r, f (g r) = Some r.

Abbreviation renamed h := (omap (fun '(k, v) => (fun r => (r, v)) <$> f k) h).

Lemma renamed_elem (l : list (string * string)) r v : (r, v) ∈ renamed l <-> (g r, v) ∈ l.
Proof.
  rewrite list_elem_of_omap. split.
  - intros ([k0 v0] & Hin & E0). destruct (f k0) as [r0|] eqn:Ec; simplify_eq/=. by rewrite (f_some _ _ Ec) in Hin.
  - intros Hin. exists (g r, v). by rewrite f_g.
Qed.

Lemma renamed_NoDup (l : list (string * string)) : NoDup l.*1 -> NoDup (renamed l).*1.
Proof.
  induction l as [|[k0 v0] l IH]; intros Hn; [constructor|]. cbn [fmap list_fmap] in Hn. apply NoDup_cons in Hn as [Hk Hn].
  cbn [omap list_omap]. destruct (f k0) as [r|] eqn:Ec; cbn [fmap option_fmap option_map list_fmap]; [|by apply IH].
  constructor; [|by apply IH]. intros Hin. apply Hk. cbn in Hin. apply list_elem_of_fmap in Hin as ([r' v'] & E1 & Hin). cbn in E1. subst r'.
  apply renamed_elem in Hin. rewrite (f_some _ _ Ec). apply list_elem_of_fmap. by exists (g r, v').
Qed.

Lemma renamed_lookup (h : gmap string string) k : (list_to_map (renamed (map_to_list h)) : gmap string string) !! k = h !! g k.
Proof.
  apply option_eq. intros v. rewrite <- elem_of_list_to_map by (apply renamed_NoDup, NoDup_fst_map_to_list).
  by rewrite renamed_elem, elem_of_map_to_list.
Qed.
End rename.

Lemma properties_of_spec h k : properties_of h !! k = h !! prop_key k.
Proof. apply (renamed_lookup (cut_prefix "prop_") prop_key); [apply cut_prefix_Some | apply (cut_prefix_of_app "prop_")]. Qed.

Lemma fixed_fields_prop_free c : prop_free (fixed_fields c).
Proof.
  intros k. unfold fixed_fields. apply not_elem_of_list_to_map_1. cbn. intros Hin.
  repeat (apply elem_of_cons in Hin as [Hin|Hin]; [discriminate Hin|]). by apply not_elem_of_nil in Hin.
Qed.

(** A field that is no property is the one the code writes. *)
Lemma config_data_field c props k v :
  cut_prefix "prop_" k = None -> fixed_fields c !! k = Some v -> config_data c props !! k = Some v.
Proof.
  intros Hk Hv. unfold config_data. rewrite lookup_union_r; [done|].
  apply lookup_kmap_None; [apply _|]. intros r ->. unfold prop_key in Hk. by rewrite cut_prefix_of_app in Hk.
Qed.

Lemma config_data_props c props : properties_of (config_data c props) = props.
Proof.
  apply map_eq. intros k. rewrite properties_of_spec. unfold config_data.
  rewrite lookup_union_l by apply fixed_fields_prop_free. apply lookup_kmap. apply _.
Qed.

(** What is read back of a configuration: no fraction of a second, no
    difference between no backup and an unset flag, no field encryption. *)
Definition stored (c : TableConfig) (props : gmap string string) : TableConfig :=
  NormalizeAutoGenerateIDFromStrategy
    (mkTableConfig (BufferSize c) (whole_seconds (FlushInterval c) * second) (RetentionDays c)
       (Some (default false (BackupEnabled c))) (OwnMap props) (IDStrategy c) (IDPrefix c) (AutoGenerateID c) (IDValidation c) None).

(** Machine integers. *)
Definition ints_ok (c : TableConfig) : Prop :=
  in_int64 (BufferSize c) /\ in_int64 (FlushInterval c) /\ in_int64 (RetentionDays c) /\ in_int64 (MaxLength (IDValidation c)).

Lemma truthy_b2s b : truthy (b2s b) = b.
Proof. by destruct b. Qed.

Lemma whole_seconds_int64 d : in_int64 d -> in_int64 (whole_seconds d) /\ in_int64 (whole_seconds d * second).
Proof.
  unfold in_int64, min_int64, max_int64, whole_seconds, second. intros Hd.
  pose proof (Z.quot_rem d 1000000000 ltac:(lia)) as H1. 
  assert (0 <= d -> 0 <= Z.rem d 1000000000 < 1000000000) as H2 by (intros; apply Z.rem_bound_pos; lia).
  assert (d <= 0 -> - 1000000000 < Z.rem d 1000000000 <= 0) as H3 by (intros; apply (Z.rem_bound_pos_neg d 1000000000); lia).
  remember (Z.quot d 1000000000) as q. remember (Z.rem d 1000000000) as r. clear Heqq Heqr.
  split; lia.
Qed.

Lemma fixed_field c k v : (k, v) ∈ [
    ("buffer_size", Itoa (BufferSize c)); ("flush_interval", Itoa (whole_seconds (FlushInterval c)));
    ("retention_days", Itoa (RetentionDays c)); ("backup_enabled", b2s (default false (BackupEnabled c)));
    ("id_strategy", IDStrategy c); ("id_prefix", IDPrefix c); ("auto_generate_id", b2s (AutoGenerateID c));
    ("id_validation_max_length", Itoa (MaxLength (IDValidation c))); ("id_validation_pattern", Pattern (IDValidation c));
    ("id_validation_allowed_chars", AllowedChars (IDValidation c))] -> fixed_fields c !! k = Some v.
Proof. intros Hin. apply elem_of_list_to_map_1; [|done]. cbn. by apply (bool_decide_unpack (NoDup _)); vm_compute. Qed.

Ltac in_list := repeat first [apply list_elem_of_here | apply list_elem_of_further].

(** Any hash with the fields that the code writes. *)
Lemma config_of_hash_spec m c props :
  ints_ok c -> (forall k v, cut_prefix "prop_" k = None -> fixed_fields c !! k = Some v -> m !! k = Some v) ->
  properties_of m = props -> config_of_hash m = stored c props.
Proof.
  intros (Hb & Hf & Hr & Hl) Hm Hp. unfold config_of_hash, stored. rewrite Hp.
  destruct (whole_seconds_int64 _ Hf) as [Hw Hw']. unfold atoi_field, string_field.
  rewrite (Hm "buffer_size" (Itoa (BufferSize c))), (Hm "flush_interval" (Itoa (whole_seconds (FlushInterval c)))),
    (Hm "retention_days" (Itoa (RetentionDays c))), (Hm "backup_enabled" (b2s (default false (BackupEnabled c)))),
    (Hm "id_strategy" (IDStrategy c)), (Hm "id_prefix" (IDPrefix c)), (Hm "auto_generate_id" (b2s (AutoGenerateID c))),
    (Hm "id_validation_max_length" (Itoa (MaxLength (IDValidation c)))), (Hm "id_validation_pattern" (Pattern (IDValidation c))),
    (Hm "id_validation_allowed_chars" (AllowedChars (IDValidation c))) by (done || (apply fixed_field; in_list)).
  cbn [mbind option_bind fmap option_fmap option_map]. rewrite !ParseInt64_Itoa by done. cbn [from_option default]. unfold id.
  rewrite !truthy_b2s, int64_small by done. by destruct c as [? ? ? ? ? ? ? ? []].
Qed.

Lemma hash_round_trip c props : ints_ok c -> config_of_hash (config_data c props) = stored c props.
Proof. intros Hc. apply config_of_hash_spec; [done | apply config_data_field | apply config_data_props]. Qed.

(** Writing over an older hash: its properties stay. *)
Lemma hash_round_trip_over c props h :
  ints_ok c -> config_of_hash (config_data c props ∪ h) = stored c (props ∪ properties_of h).
Proof.
  intros Hc. apply config_of_hash_spec; [done| |].
  - intros k v Hk Hv. apply lookup_union_Some_l. by apply config_data_field.
  - apply map_eq. intros k. rewrite properties_of_spec, !lookup_union, properties_of_spec. f_equal.
    by rewrite <- properties_of_spec, config_data_props.
Qed.

(** ** Isolation of the tables *)

(** The keys and the objects of a table. *)
Definition owned (t k : string) : Prop :=
  k = configKey t \/ k = createdAtKey t \/ k = lastWriteKey t \/ k = statsKey t \/
  String.prefix (indexPrefix t) k = true \/ String.prefix (fileMetaPrefix t) k = true \/ String.prefix (metadataFilePrefix t) k = true.
Definition owned_object (t k : string) : Prop :=
  String.prefix (t +:+ "/") k = true \/ k = MinioConfigStore.objectKey t.

(** A name that no key separator cuts. *)
Definition plain_name (t : string) : Prop := has_char ":" t = false /\ has_char "/" t = false /\ t <> "_system".

Lemma cat_inv {p : string} {a b : string} : p +:+ a = p +:+ b -> a = b.
Proof. induction p as [|c p IH]; [done|]. rewrite !string_cons_app. intros [= H]. by apply IH. Qed.

Lemma owned_text t k : owned t k -> exists p s, k = p +:+ (t +:+ String ":" s) /\ p ∈ ["table:"; "index:table:"] \/
  k = p +:+ (t +:+ String "/" s) /\ p ∈ ["file_meta:"; "metadata:file:"].
Proof.
  unfold owned. intros [->|[->|[->|[->|[H|[H|H]]]]]];
    try (eexists _, _; left; split; [unfold configKey, createdAtKey, lastWriteKey, statsKey; reflexivity | set_solver]);
    apply prefix_iff in H as [r ->].
  - exists "index:table:", ("id:" +:+ r). left. split; [|set_solver]. unfold indexPrefix. by rewrite <- !string_app_assoc.
  - exists "file_meta:", r. right. split; [|set_solver]. unfold fileMetaPrefix. by rewrite <- !string_app_assoc.
  - exists "metadata:file:", r. right. split; [|set_solver]. unfold metadataFilePrefix. by rewrite <- !string_app_assoc.
Qed.

Ltac prefixes H := apply elem_of_cons in H as [->|H]; [|apply elem_of_cons in H as [->|H]; [|by apply not_elem_of_nil in H]].

(** The keys of two tables are disjoint. *)
Lemma owned_disjoint t t' k : plain_name t -> plain_name t' -> owned t k -> owned t' k -> t = t'.
Proof.
  intros (Hc & Hs & _) (Hc' & Hs' & _) (p & s & H)%owned_text (p' & s' & H')%owned_text.
  destruct H as [[-> Hp]|[-> Hp]], H' as [[E Hp']|[E Hp']]; prefixes Hp; prefixes Hp'; try discriminate E;
    apply cat_inv, first_sep_inj in E as [E _]; done.
Qed.

Lemma tables_list_free t : ~ owned t tables_list.
Proof.
  intros (p & s & H)%owned_text. destruct H as [[E Hp]|[E Hp]]; prefixes Hp; discriminate E.
Qed.

Lemma owned_object_disjoint t t' k : plain_name t -> plain_name t' -> owned_object t k -> owned_object t' k -> t = t'.
Proof.
  assert (forall t k, String.prefix (t +:+ "/") k = true -> exists s, k = t +:+ String "/" s) as Hp.
  { intros u k0 [r ->]%prefix_iff. exists r. by rewrite <- string_app_assoc. }
  assert (forall t k s, k = MinioConfigStore.objectKey t -> k = "_system" +:+ String "/" s -> s = "table_configs/" +:+ (t +:+ ".json")) as Hk.
  { intros u k0 s -> E. unfold MinioConfigStore.objectKey, minioConfigPrefix in E.
    change ("_system/table_configs/" +:+ (u +:+ ".json")) with ("_system" +:+ String "/" ("table_configs/" +:+ (u +:+ ".json"))) in E.
    apply cat_inv in E. by simplify_eq. }
  intros (Hc & Hs & Hn) (Hc' & Hs' & Hn') [H|H] [H'|H'].
  - apply Hp in H as [s ->], H' as [s' E]. by apply first_sep_inj in E as [E _].
  - apply Hp in H as [s ->]. symmetry in H'.
    change (MinioConfigStore.objectKey t') with ("_system" +:+ String "/" ("table_configs/" +:+ (t' +:+ ".json"))) in H'.
    apply first_sep_inj in H' as [E _]; [by destruct Hn | done | done].
  - apply Hp in H' as [s ->].
    change (MinioConfigStore.objectKey t) with ("_system" +:+ String "/" ("table_configs/" +:+ (t +:+ ".json"))) in H.
    apply first_sep_inj in H as [E _]; [by destruct Hn' | done | done].
  - rewrite H in H'. unfold MinioConfigStore.objectKey in H'. apply cat_inv in H'.
    assert (forall a b : string, a +:+ ".json" = b +:+ ".json" -> a = b) as Hinj; [|by apply Hinj].
    clear. induction a as [|x a IH]; intros b E; destruct b as [|y b]; [done| | |].
    + apply (f_equal String.length) in E. rewrite !string_length_app in E. cbn in E. lia.
    + apply (f_equal String.length) in E. rewrite !string_length_app in E. cbn in E. lia.
    + rewrite !string_cons_app in E. simplify_eq. f_equal. by apply IH.
Qed.

Definition in_list (t : string) (w : world) : bool :=
  match set_at (keys (redis w)) tables_list with Ok s => bool_decide (t ∈ s) | Err _ => false end.

(** From [w] to [w'] only the table [t] has changed. *)
Record only (t : string) (w w' : world) : Prop := {
  only_keys k : ~ owned t k -> k <> tables_list -> keys (redis w') !! k = keys (redis w) !! k;
  only_list t' : t' <> t -> in_list t' w' = in_list t' w;
  only_objects b k : ~ owned_object t k -> bucket_of (primary w') b !! k = bucket_of (primary w) b !! k;
  only_backup b k : ~ owned_object t k -> bucket_of (backup w') b !! k = bucket_of (backup w) b !! k;
}.

#[global] Instance only_preorder t : PreOrder (only t).
Proof.
  split; [by split|]. intros w1 w2 w3 [K1 L1 O1 B1] [K2 L2 O2 B2]. split; intros.
  - by rewrite K2, K1.
  - by rewrite L2, L1.
  - by rewrite O2, O1.
  - by rewrite B2, B1.
Qed.

Section isolation.
Context (t : string).

(** A command that keeps to the keys of the table. *)
Lemma only_redis {A} (m : M redis_server redis_error A) : keeps (frame (owned t)) m -> keeps (only t) (on_redis m).
Proof.
  intros Hm. eapply keeps_zoom; [exact Hm|]. intros w r Hr. split; cbn; try done.
  - intros k Hk _. by apply Hr.
  - intros t' _. unfold in_list, set_at. cbn. by rewrite Hr by apply tables_list_free.
Qed.

Lemma only_command {A} (f : keyspace -> result redis_error A * keyspace) :
  (forall k key, key <> tables_list -> (f k).2 !! key = k !! key) ->
  (forall k t', t' <> t -> match set_at (f k).2 tables_list with Ok s => bool_decide (t' ∈ s) | Err _ => false end =
                          match set_at k tables_list with Ok s => bool_decide (t' ∈ s) | Err _ => false end) ->
  keeps (only t) (on_redis (command f)).
Proof.
  intros Hf Hl w. unfold on_redis, zoom, command. destruct (next_answer (script (redis w))) as [a s].
  assert (forall k, (exists r, f (keys (redis w)) = (r, k)) -> only t w (set_redis (mkRedis k s) w)) as Hdone.
  { intros k [r Hr]. specialize (Hf (keys (redis w))). specialize (Hl (keys (redis w))). rewrite Hr in *.
    split; cbn; [by auto | by apply Hl | done | done]. }
  destruct a; cbn.
  - destruct (f (keys (redis w))) as [x k] eqn:E. apply Hdone. by exists x.
  - apply Hdone. exists (f (keys (redis w))).1. by destruct (f _).
  - split; cbn; done.
Qed.

Lemma set_at_put_set k s : set_at (put_set tables_list s k) tables_list = Ok s.
Proof.
  unfold put_set, set_at. case_bool_decide as E; [rewrite lookup_delete_eq; by subst | by rewrite lookup_insert_eq].
Qed.

Lemma only_SAdd : keeps (only t) (on_redis (SAdd tables_list t)).
Proof.
  apply only_command; intros k.
  - intros key Hk. destruct (set_at k tables_list); [by apply lookup_put_set | done].
  - intros t' Ht'. destruct (set_at k tables_list) as [s|e] eqn:E; cbn [snd]; [|by rewrite E].
    rewrite set_at_put_set. apply bool_decide_ext. set_solver.
Qed.

Lemma only_SRem : keeps (only t) (on_redis (SRem tables_list t)).
Proof.
  apply only_command; intros k.
  - intros key Hk. destruct (set_at k tables_list); [by apply lookup_put_set | done].
  - intros t' Ht'. destruct (set_at k tables_list) as [s|e] eqn:E; cbn [snd]; [|by rewrite E].
    rewrite set_at_put_set. apply bool_decide_ext. set_solver.
Qed.

Lemma only_s3 {A} (f : world -> result s3_error A * world) :
  (forall w, only t w (f w).2) -> keeps (only t) (s3_call f).
Proof.
  intros Hf w. unfold s3_call. destruct (next_answer (s3_script w)) as [a s].
  assert (only t w (mkWorld (redis w) (primary w) (backup w) s (default_props w))) as Hs by by split.
  destruct a; cbn; [etrans; [exact Hs | apply Hf].. | exact Hs].
Qed.

Lemma bucket_of_insert m b o b' : bucket_of (<[b := o]> m) b' = if decide (b' = b) then o else bucket_of m b'.
Proof.
  unfold bucket_of. destruct (decide (b' = b)) as [->|Hn]; [by rewrite lookup_insert_eq | by rewrite lookup_insert_ne].
Qed.

Lemma only_GetObject b k : keeps (only t) (GetObject b k).
Proof. apply only_s3. intros w. reflexivity. Qed.
Lemma only_ListObjects b p : keeps (only t) (ListObjects b p).
Proof. apply only_s3. intros w. reflexivity. Qed.
Lemma only_PutObject b k d : owned_object t k -> keeps (only t) (PutObject b k d).
Proof.
  intros Hk. apply only_s3. intros w. split; cbn; try done. intros b' k' Hk'. rewrite bucket_of_insert.
  destruct (decide (b' = b)) as [->|]; [|done]. apply lookup_insert_ne. by intros ->.
Qed.
Lemma only_RemoveObject b k : owned_object t k -> keeps (only t) (RemoveObject b k).
Proof.
  intros Hk. apply only_s3. intros w. split; cbn; try done. intros b' k' Hk'. rewrite bucket_of_insert.
  destruct (decide (b' = b)) as [->|]; [|done]. apply lookup_delete_ne. by intros ->.
Qed.
Lemma only_RemoveBackupObject b k : owned_object t k -> keeps (only t) (RemoveBackupObject b k).
Proof.
  intros Hk. apply only_s3. intros w. split; cbn; try done. intros b' k' Hk'. rewrite bucket_of_insert.
  destruct (decide (b' = b)) as [->|]; [|done]. apply lookup_delete_ne. by intros ->.
Qed.

Lemma only_default_props p : keeps (only t) (modifies (Er := table_error) (fun w => set_default_props (p w) w)).
Proof. intros w. by split. Qed.

Lemma own_config : owned t (configKey t). Proof. unfold owned. auto. Qed.
Lemma own_created : owned t (createdAtKey t). Proof. unfold owned. auto. Qed.
Lemma own_last_write : owned t (lastWriteKey t). Proof. unfold owned. auto. Qed.
Lemma own_stats : owned t (statsKey t). Proof. unfold owned. auto. Qed.
Lemma own_entry : owned_object t (MinioConfigStore.objectKey t). Proof. by right. Qed.
End isolation.

Create HintDb tables.
#[export] Hint Resolve only_redis only_SAdd only_SRem only_GetObject only_ListObjects only_PutObject only_RemoveObject
  only_RemoveBackupObject only_default_props own_config own_created own_last_write own_stats own_entry : tables.

(** Split a computation into its calls. *)
Ltac keeps_steps :=
  repeat first
  [ progress intros
  | solve [eauto 4 with tables redis]
  | match goal with
    | |- keeps _ (match ?x with _ => _ end) => destruct x
    | |- keeps _ (let _ := _ in _) => cbv zeta
    end
  | apply keeps_ret; apply _ | apply keeps_throw; apply _ | apply keeps_asks; apply _
  | apply keeps_bind; [apply _|..] | apply keeps_attempt | apply keeps_on_error ].

Section operations.
Context {JC : ConfigJSON} (Compile : string -> option regex) (RFC3339 : Z -> string) (tm : TableManager).

Lemma only_Get b t : keeps (only t) (MinioConfigStore.Get b t).
Proof. unfold MinioConfigStore.Get, MinioConfigStore.load. keeps_steps. Qed.
Lemma only_Save b now t c : keeps (only t) (MinioConfigStore.Save b now t c).
Proof. unfold MinioConfigStore.Save, MinioConfigStore.load. keeps_steps. Qed.
Lemma only_TableExists t : keeps (only t) (TableExists tm t).
Proof. unfold TableExists, call, try_store. keeps_steps. Qed.

Lemma only_remove_objects t l : Forall (owned_object t) l -> keeps (only t) (remove_objects tm l).
Proof.
  induction 1 as [|k l Hk _ IH]; cbn [remove_objects]; [by apply keeps_ret; apply _|]. unfold remove_object. keeps_steps.
Qed.

(** What a command answers, if it answers. *)
Lemma keeps_bind_with {W Er A B} (R : W -> W -> Prop) `{!PreOrder R} (P : A -> Prop) (m : M W Er A) (f : A -> M W Er B) :
  keeps R m -> (forall w a w', m w = (Ok a, w') -> P a) -> (forall a, P a -> keeps R (f a)) -> keeps R (m ≫= f).
Proof.
  intros Hm HP Hf w. unfold mbind, M_bind. pose proof (Hm w) as Hw. pose proof (HP w) as Ha.
  destruct (m w) as [[a|e] w1]; cbn in *; [|done]. etrans; [exact Hw | eapply Hf, Ha; done].
Qed.

Lemma ListObjects_prefix b p w l w' : attempt (E2 := table_error) (ListObjects b p) w = (Ok (Ok l), w') ->
  Forall (fun k => String.prefix p k = true) l.
Proof.
  unfold attempt, ListObjects, s3_call. destruct (next_answer (s3_script w)) as [[] s]; intros H; simplify_eq/=.
  apply Forall_forall. intros k Hk%list_elem_of_In%filter_In. by destruct Hk.
Qed.

Lemma ScanKeys_matches p w l w' : try_call (ScanKeys p) w = (Ok (Ok l), w') -> Forall (fun k => MatchGlob p k = true) l.
Proof.
  unfold try_call, attempt, on_redis, zoom, ScanKeys, command. destruct (next_answer (script (redis w))) as [[] s]; intros H; simplify_eq/=.
  apply Forall_forall. intros k Hk%list_elem_of_In%filter_In. by destruct Hk.
Qed.

(** Deleting the keys of a pattern is deleting keys that match it. *)
Lemma keeps_delete_keys (R : world -> world -> Prop) `{!PreOrder R} p :
  keeps R (try_call (ScanKeys p)) -> (forall k, MatchGlob p k = true -> keeps R (on_redis (Del [k]))) -> keeps R (delete_keys p).
Proof.
  intros Hscan Hdel. unfold delete_keys. eapply (keeps_bind_with _ (fun r => forall ks, r = Ok ks -> Forall (fun k => MatchGlob p k = true) ks)).
  - exact Hscan.
  - intros w r w' Hr ks ->. by apply ScanKeys_matches in Hr.
  - intros [ks|e] Hks; [|by apply keeps_ret; apply _]. specialize (Hks ks eq_refl). rewrite Forall_forall in Hks.
    apply keeps_each; [apply _|]. intros k Hk%Hks. apply keeps_bind; [apply _|by apply keeps_attempt, Hdel|].
    intros. by apply keeps_ret; apply _.
Qed.

Lemma only_Del1 t k : owned t k -> keeps (only t) (on_redis (Del [k])).
Proof. intros Hk. apply only_redis, Del_frame. by constructor. Qed.

Lemma literal_prefixes t : literal_text t = true ->
  literal_text (indexPrefix t) = true /\ literal_text (fileMetaPrefix t) = true /\ literal_text (metadataFilePrefix t) = true.
Proof.
  intros Ht. unfold literal_text, indexPrefix, fileMetaPrefix, metadataFilePrefix in *.
  rewrite !all_chars_app, Ht. done.
Qed.

Lemma only_delete_keys t p : literal_text p = true -> (forall k, String.prefix p k = true -> owned t k) ->
  keeps (only t) (delete_keys (p +:+ "*")).
Proof.
  intros Hl Hp. apply keeps_delete_keys; [apply _|unfold try_call; keeps_steps|].
  intros k Hk. rewrite MatchGlob_prefix in Hk by done. by apply only_Del1, Hp.
Qed.

Lemma only_deleteTableData t : literal_text t = true -> keeps (only t) (deleteTableData tm t).
Proof.
  intros (L1 & L2 & L3)%literal_prefixes.
  unfold deleteTableData. apply keeps_bind; [apply _| |intros n].
  - destruct (primaryMinio tm); [|by apply keeps_ret; apply _].
    eapply (keeps_bind_with _ (fun r => forall l, r = Ok l -> Forall (owned_object t) l)).
    + keeps_steps.
    + intros w r w' Hr l ->. apply ListObjects_prefix in Hr. eapply Forall_impl; [exact Hr|]. by left.
    + intros [l|e] Hl; [by apply only_remove_objects, Hl | by apply keeps_ret; apply _].
  - destruct (negb (redisPool tm)); [by apply keeps_ret; apply _|].
    repeat (apply keeps_bind; [apply _|apply only_delete_keys; [done|unfold owned; tauto]|intros []]). by apply keeps_ret; apply _.
Qed.

#[local] Hint Resolve only_Del1 only_deleteTableData only_TableExists only_Get only_Save : tables.

Lemma only_DropTable t b : literal_text t = true -> keeps (only t) (DropTable tm t b).
Proof. intros Ht. unfold DropTable, call, try_call, try_store, MinioConfigStore.Delete. keeps_steps. Qed.
Lemma only_write_config t c : keeps (only t) (write_config t c).
Proof. unfold write_config, call. keeps_steps. Qed.
#[local] Hint Resolve only_write_config : tables.
Lemma only_CreateTable now t c b : keeps (only t) (CreateTable Compile RFC3339 tm now t c b).
Proof. unfold CreateTable, getTotalTableCount, register, call, try_store. keeps_steps. Qed.
#[local] Hint Resolve only_CreateTable : tables.
Lemma only_EnsureTableExists now t : keeps (only t) (EnsureTableExists Compile RFC3339 tm now t).
Proof. unfold EnsureTableExists. keeps_steps. Qed.
Lemma only_UpdateLastWrite now t : keeps (only t) (UpdateLastWrite RFC3339 tm now t).
Proof. unfold UpdateLastWrite, call. keeps_steps. Qed.
Lemma only_getTableConfig t : keeps (only t) (getTableConfigFromRedis tm t).
Proof. unfold getTableConfigFromRedis, call, try_store. keeps_steps. Qed.
#[local] Hint Resolve only_getTableConfig : tables.
Lemma only_UpdateTableConfig now t c : keeps (only t) (UpdateTableConfig tm now t c).
Proof. unfold UpdateTableConfig, merge_properties. keeps_steps. Qed.
Lemma only_DescribeTable t : keeps (only t) (DescribeTable tm t).
Proof. unfold DescribeTable, getTableInfo, getTableStats, call, try_call. keeps_steps. Qed.

(** ** The operations of a run *)

Inductive table_op :=
  | OpCreate (now : Z) (t : string) (c : option TableConfig) (ifNotExists : bool)
  | OpDrop (t : string) (ifExists : bool)
  | OpEnsure (now : Z) (t : string)
  | OpWritten (now : Z) (t : string)
  | OpUpdate (now : Z) (t : string) (c : TableConfig)
  | OpDescribe (t : string).

Definition op_table (o : table_op) : string :=
  match o with OpCreate _ t _ _ | OpDrop t _ | OpEnsure _ t | OpWritten _ t | OpUpdate _ t _ | OpDescribe t => t end.

Definition run_op (o : table_op) : M world table_error unit :=
  match o with
  | OpCreate now t c b => CreateTable Compile RFC3339 tm now t c b ;; mret tt
  | OpDrop t b => DropTable tm t b ;; mret tt
  | OpEnsure now t => EnsureTableExists Compile RFC3339 tm now t
  | OpWritten now t => UpdateLastWrite RFC3339 tm now t
  | OpUpdate now t c => UpdateTableConfig tm now t c
  | OpDescribe t => DescribeTable tm t ;; mret tt
  end.

Fixpoint run_ops (ops : list table_op) (w : world) : world :=
  match ops with [] => w | o :: ops => run_ops ops (run_op o w).2 end.

#[local] Hint Resolve only_DropTable only_EnsureTableExists only_UpdateLastWrite only_UpdateTableConfig only_DescribeTable : tables.

Lemma only_run_op o : literal_text (op_table o) = true -> keeps (only (op_table o)) (run_op o).
Proof. intros Ho. destruct o; cbn [run_op op_table]; keeps_steps. Qed.

(** C16: The operations on other tables, whatever calls fail, leave the keys of
    a table, its membership in the list of tables and its objects as they were.
    The names have no colon and no slash and are not that of the system's own
    directory, and those of the other tables have no character that SCAN
    interprets, as the default rule for names demands. *)
Theorem tables_isolated ops t w :
  plain_name t -> Forall (fun o => plain_name (op_table o) /\ literal_text (op_table o) = true /\ op_table o <> t) ops ->
  let w' := run_ops ops w in
  (forall k, owned t k -> keys (redis w') !! k = keys (redis w) !! k) /\ in_list t w' = in_list t w /\
  (forall b k, owned_object t k -> bucket_of (primary w') b !! k = bucket_of (primary w) b !! k /\
                                  bucket_of (backup w') b !! k = bucket_of (backup w) b !! k).
Proof.
  intros Ht Hops. cbv zeta. revert w. induction Hops as [|o ops (Ho & Hl & Hne) _ IH]; intros w; cbn [run_ops]; [done|].
  destruct (IH (run_op o w).2) as (IK & IL & IO). destruct (only_run_op o Hl w) as [K L O B]. split; [|split].
  - intros k Hk. rewrite IK by done. apply K; [|by intros ->; apply (tables_list_free t)].
    intros Hk'. by apply Hne, (owned_disjoint _ _ k).
  - rewrite IL. by apply L.
  - intros b k Hk. destruct (IO b k Hk) as [-> ->].
    assert (~ owned_object (op_table o) k) as Hno by (intros Hk'; by apply Hne, (owned_object_disjoint _ _ k)). auto.
Qed.

(** ** The number of tables *)

Definition table_set (w : world) : result redis_error (gset string) := set_at (keys (redis w)) tables_list.
Definition count (w : world) : Z := match table_set w with Ok s => Z.of_nat (size s) | Err _ => 0 end.
Definition same_tables (w w' : world) : Prop := table_set w' = table_set w.
#[local] Instance same_tables_preorder : PreOrder same_tables.
Proof. split; [by intros w | intros w1 w2 w3 H1 H2; unfold same_tables in *; congruence]. Qed.

Lemma same_frame {A} (P : string -> Prop) (m : M redis_server redis_error A) :
  ~ P tables_list -> keeps (frame P) m -> keeps same_tables (on_redis m).
Proof.
  intros HP Hm. eapply keeps_zoom; [exact Hm|]. intros w r Hr. unfold same_tables, table_set, set_at. cbn.
  by rewrite Hr by exact HP.
Qed.
Lemma same_redis {A} t (m : M redis_server redis_error A) : keeps (frame (owned t)) m -> keeps same_tables (on_redis m).
Proof. apply same_frame, tables_list_free. Qed.
Lemma same_reads {A} (f : keyspace -> result redis_error A) : keeps same_tables (on_redis (command (fun k => (f k, k)))).
Proof. apply (same_redis ""), reads_frame. Qed.
Lemma same_SIsMember t : keeps same_tables (on_redis (SIsMember tables_list t)).
Proof. apply same_reads. Qed.
Lemma same_s3 {A} (f : world -> result s3_error A * world) : (forall w, redis (f w).2 = redis w) -> keeps same_tables (s3_call f).
Proof.
  intros Hf w. unfold s3_call. destruct (next_answer (s3_script w)) as [[] s]; unfold same_tables, table_set; cbn; by rewrite ?Hf.
Qed.
Lemma same_GetObject b k : keeps same_tables (GetObject b k).
Proof. by apply same_s3. Qed.
Lemma same_PutObject b k d : keeps same_tables (PutObject b k d).
Proof. by apply same_s3. Qed.
Lemma same_RemoveObject b k : keeps same_tables (RemoveObject b k).
Proof. by apply same_s3. Qed.
Lemma same_RemoveBackupObject b k : keeps same_tables (RemoveBackupObject b k).
Proof. by apply same_s3. Qed.
Lemma same_ListObjects b p : keeps same_tables (ListObjects b p).
Proof. by apply same_s3. Qed.
Lemma same_default_props p : keeps same_tables (modifies (Er := table_error) (fun w => set_default_props (p w) w)).
Proof. by intros w. Qed.
Lemma same_write_config t c : keeps same_tables (call (HMSet (configKey t) c)).
Proof. apply keeps_on_error, (same_redis t). eauto with redis tables. Qed.
Lemma same_SetKey t k v : owned t k -> keeps same_tables (on_redis (SetKey k v)).
Proof. intros Hk. apply (same_redis t). auto with redis. Qed.
Lemma same_HMSet t k v : owned t k -> keeps same_tables (on_redis (HMSet k v)).
Proof. intros Hk. apply (same_redis t). auto with redis. Qed.
#[local] Hint Resolve same_SIsMember same_reads same_GetObject same_PutObject same_RemoveObject same_RemoveBackupObject same_ListObjects
  same_default_props same_SetKey same_HMSet : tables.

Lemma same_TableExists t : keeps same_tables (TableExists tm t).
Proof. unfold TableExists, call, try_store, MinioConfigStore.Get, MinioConfigStore.load. keeps_steps. Qed.
Lemma same_Save b now t c : keeps same_tables (MinioConfigStore.Save b now t c).
Proof. unfold MinioConfigStore.Save, MinioConfigStore.load. keeps_steps. Qed.
#[local] Hint Resolve same_TableExists same_Save : tables.
Lemma same_getTableConfig t : keeps same_tables (getTableConfigFromRedis tm t).
Proof.
  unfold getTableConfigFromRedis, call, try_store, HGetAll, MinioConfigStore.Get, MinioConfigStore.load. keeps_steps.
Qed.
#[local] Hint Resolve same_getTableConfig : tables.
Lemma same_UpdateTableConfig now t c : keeps same_tables (UpdateTableConfig tm now t c).
Proof. unfold UpdateTableConfig, merge_properties, write_config, call. keeps_steps. Qed.
Lemma same_UpdateLastWrite now t : keeps same_tables (UpdateLastWrite RFC3339 tm now t).
Proof. unfold UpdateLastWrite, call. keeps_steps. Qed.
Lemma same_DescribeTable t : keeps same_tables (DescribeTable tm t).
Proof. unfold DescribeTable, getTableInfo, getTableStats, call, try_call, GetKey, HGetAll. keeps_steps. Qed.

(** No more tables than before, or than the limit. *)
Definition within (n : Z) (w w' : world) : Prop := count w' <= Z.max (count w) n.
#[local] Instance within_preorder n : PreOrder (within n).
Proof. split; [intros w; unfold within; lia | intros w1 w2 w3; unfold within; lia]. Qed.

Lemma same_within n {Er A} (m : M world Er A) : keeps same_tables m -> keeps (within n) m.
Proof. intros Hm w. specialize (Hm w). unfold within, count. rewrite Hm. lia. Qed.

(** A command is carried out or not. *)
Lemma command_ends {A} (f : keyspace -> result redis_error A * keyspace) w :
  exists s, (on_redis (command f) w).2 = set_redis (mkRedis (f (keys (redis w))).2 s) w \/
            (on_redis (command f) w).2 = set_redis (mkRedis (keys (redis w)) s) w.
Proof.
  unfold on_redis, zoom, command. destruct (next_answer (script (redis w))) as [[] s]; exists s; [left|left|right]; cbn; [|done..].
  by destruct (f (keys (redis w))).
Qed.

Lemma within_SRem n t : keeps (within n) (on_redis (SRem tables_list t)).
Proof.
  intros w. unfold within. destruct (command_ends (fun k => match set_at k tables_list with Ok s => (Ok tt, put_set tables_list (s ∖ {[t]}) k) | Err e => (Err e, k) end) w)
    as [s [E|E]]; unfold SRem; rewrite E; unfold count, table_set; cbn; [|lia].
  destruct (set_at (keys (redis w)) tables_list) as [l|e] eqn:El; cbn [snd]; [|rewrite El; lia].
  rewrite set_at_put_set. pose proof (subseteq_size (l ∖ {[t]}) l ltac:(set_solver)). lia.
Qed.

(** Adding a name when the limit is not reached. *)
Lemma SAdd_count n t w : count w < n -> count (on_redis (SAdd tables_list t) w).2 <= n.
Proof.
  intros Hw. destruct (command_ends (fun k => match set_at k tables_list with Ok s => (Ok tt, put_set tables_list ({[t]} ∪ s) k) | Err e => (Err e, k) end) w)
    as [s [E|E]]; unfold SAdd; rewrite E; unfold count, table_set in *; cbn; [|lia].
  destruct (set_at (keys (redis w)) tables_list) as [l|e] eqn:El; cbn [snd]; [|rewrite El; lia].
  rewrite set_at_put_set. pose proof (size_union_alt {[t]} l) as Hs. rewrite size_singleton in Hs.
  pose proof (subseteq_size (l ∖ {[t]}) l ltac:(set_solver)). lia.
Qed.

Lemma SCard_value w n w' : call (SCard tables_list) w = (Ok n, w') -> n = count w /\ same_tables w w'.
Proof.
  intros H. assert (same_tables w w') as Hs.
  { pose proof (same_reads (fun k => match set_at k tables_list with Ok s => Ok (Z.of_nat (size s)) | Err e => Err e end) w) as Hr.
    unfold call, on_error, SCard in H. destruct (on_redis _ w) as [[] w1]; by simplify_eq. }
  split; [|done]. revert H. unfold call, on_error, on_redis, zoom, SCard, command, count, table_set.
  destruct (next_answer (script (redis w))) as [[] s]; [|done..]. by destruct (set_at _ _); intros; simplify_eq/=.
Qed.

Lemma bind_count n {A B} (m : M world table_error A) (f : A -> M world table_error B) w :
  count (m w).2 <= n -> (forall a, keeps same_tables (f a)) -> count ((m ≫= f) w).2 <= n.
Proof.
  intros Hm Hf. unfold mbind, M_bind. destruct (m w) as [[a|e] w1]; cbn in Hm |- *; [|done].
  specialize (Hf a w1). unfold count in *. by rewrite Hf.
Qed.

Lemma register_count n now t c w : count w < n -> count (register RFC3339 now t c w).2 <= n.
Proof.
  intros Hw. unfold register. apply bind_count.
  - pose proof (SAdd_count n t w Hw) as Hs. unfold call, on_error. by destruct (on_redis (SAdd tables_list t) w) as [[] ?].
  - unfold write_config, call. keeps_steps.
Qed.

Lemma within_CreateTable now t c b : keeps (within (MaxTables (TableManagement (tm_cfg tm)))) (CreateTable Compile RFC3339 tm now t c b).
Proof.
  unfold CreateTable. destruct (negb (IsValidTableName _ _ _)); [by apply keeps_throw; apply _|].
  apply keeps_bind; [apply _|apply same_within, same_TableExists|]. intros ex.
  destruct ex; [destruct b; [by apply keeps_ret; apply _ | by apply keeps_throw; apply _]|].
  unfold getTotalTableCount. destruct (redisPool tm); cbn [negb].
  - intros w. unfold mbind, M_bind at 1. destruct (call (SCard tables_list) w) as [[total|e] w1] eqn:E.
    + apply SCard_value in E as [-> Hs]. destruct (Z.leb_spec (MaxTables (TableManagement (tm_cfg tm))) (count w)) as [Hge|Hlt].
      * unfold throw, within. cbn. unfold count. rewrite Hs. lia.
      * assert (count w1 < MaxTables (TableManagement (tm_cfg tm))) as H1 by (unfold count in *; by rewrite Hs).
        pose proof (register_count _ now t (new_config tm c) w1 H1) as H2. unfold M_bind, within.
        destruct (register RFC3339 now t (new_config tm c) w1) as [[u|e] w2]; cbn in *; lia.
    + assert (keeps same_tables (call (SCard tables_list))) as Hr.
      { apply keeps_on_error, (same_reads (fun k => match set_at k tables_list with Ok s => Ok (Z.of_nat (size s)) | Err e => Err e end)). }
      pose proof (same_within (MaxTables (TableManagement (tm_cfg tm))) _ Hr w) as Hr'. by rewrite E in Hr'.
  - apply same_within. unfold try_store. keeps_steps.
Qed.

Lemma same_Del k : k <> tables_list -> keeps same_tables (on_redis (Del [k])).
Proof. intros Hk. apply (same_frame (eq k)); [done|]. apply Del_frame. by constructor. Qed.

Lemma same_own_Del t k : owned t k -> keeps same_tables (on_redis (Del [k])).
Proof. intros Hk. apply same_Del. intros ->. by apply (tables_list_free t). Qed.
#[local] Hint Resolve same_own_Del : tables.

(** Whatever stands for a name, the keys that match begin as the pattern does. *)
Lemma same_delete_keys lit rest : literal_text lit = true -> String.prefix lit tables_list = false ->
  keeps same_tables (delete_keys (lit +:+ rest)).
Proof.
  intros Hl Hp. apply keeps_delete_keys; [apply _|apply keeps_attempt, (same_redis ""), ScanKeys_frame|].
  intros k Hk%MatchGlob_start; [|done]. apply same_Del. by intros ->; rewrite Hp in Hk.
Qed.

Lemma same_remove_objects l : keeps same_tables (remove_objects tm l).
Proof. induction l as [|k l IH]; cbn [remove_objects]; [by apply keeps_ret; apply _|]. unfold remove_object. keeps_steps. Qed.
#[local] Hint Resolve same_remove_objects : tables.

Lemma same_deleteTableData t : keeps same_tables (deleteTableData tm t).
Proof.
  unfold deleteTableData. apply keeps_bind; [apply _|keeps_steps|intros n].
  destruct (negb (redisPool tm)); [by apply keeps_ret; apply _|].
  unfold indexPrefix, fileMetaPrefix, metadataFilePrefix. rewrite <- !string_app_assoc.
  do 3 (apply keeps_bind; [apply _|by apply same_delete_keys|intros []]). by apply keeps_ret; apply _.
Qed.

Lemma within_DropTable n t b : keeps (within n) (DropTable tm t b).
Proof.
  unfold DropTable. apply keeps_bind; [apply _|apply same_within, same_TableExists|]. intros ex.
  destruct (negb ex); [destruct b; [by apply keeps_ret; apply _ | by apply keeps_throw; apply _]|].
  apply keeps_bind; [apply _|apply same_within, same_deleteTableData|]. intros files. destruct (negb (redisPool tm)).
  - apply same_within. unfold try_store, MinioConfigStore.Delete. keeps_steps.
  - apply keeps_bind; [apply _|apply keeps_on_error, within_SRem|]. intros []. apply same_within. unfold try_call. keeps_steps.
Qed.

Lemma within_run_op o : keeps (within (MaxTables (TableManagement (tm_cfg tm)))) (run_op o).
Proof.
  destruct o as [now t c b|t b|now t|now t|now t c|t]; cbn [run_op].
  - apply keeps_bind; [apply _|apply within_CreateTable|]. intros. by apply keeps_ret; apply _.
  - apply keeps_bind; [apply _|apply within_DropTable|]. intros. by apply keeps_ret; apply _.
  - unfold EnsureTableExists. apply keeps_bind; [apply _|apply same_within, same_TableExists|]. intros ex.
    destruct ex; [by apply keeps_ret; apply _|]. destruct (negb _); [by apply keeps_throw; apply _|].
    apply keeps_bind; [apply _|apply within_CreateTable|]. intros. by apply keeps_ret; apply _.
  - apply same_within, same_UpdateLastWrite.
  - apply same_within, same_UpdateTableConfig.
  - apply keeps_bind; [apply _|apply same_within, same_DescribeTable|]. intros. by apply keeps_ret; apply _.
Qed.

(** Operations one after the other never raise the number of tables in
    Redis above the configured limit, whatever calls fail. *)
Theorem table_limit ops w :
  count (run_ops ops w) <= Z.max (count w) (MaxTables (TableManagement (tm_cfg tm))).
Proof.
  revert w. induction ops as [|o ops IH]; intros w; cbn [run_ops]; [lia|].
  pose proof (within_run_op o w) as Ho. specialize (IH (run_op o w).2). unfold within in Ho. lia.
Qed.

(** ** Calls that are answered *)

(** A state in which the calls to come are answered. *)
Definition calm (k : keyspace) (p b : gmap string objects) (d : gmap string string) : world := mkWorld (mkRedis k []) p b [] d.

Section calm.
Context (k : keyspace) (p b : gmap string objects) (d : gmap string string).

Lemma calm_call {A} (f : keyspace -> result redis_error A * keyspace) x k' :
  f k = (Ok x, k') -> call (command f) (calm k p b d) = (Ok x, calm k' p b d).
Proof. intros H. unfold call, on_error, on_redis, zoom, command, calm. cbn. by rewrite H. Qed.
Lemma calm_try {A} (f : keyspace -> result redis_error A * keyspace) x k' :
  f k = (x, k') -> try_call (command f) (calm k p b d) = (Ok x, calm k' p b d).
Proof. intros H. unfold try_call, attempt, on_redis, zoom, command, calm. cbn. by rewrite H. Qed.
Lemma calm_s3 {A E2} (f : world -> result s3_error A * world) :
  attempt (E2 := E2) (s3_call f) (calm k p b d) = (Ok (f (calm k p b d)).1, (f (calm k p b d)).2).
Proof. unfold attempt, s3_call, calm. cbn. by destruct (f _). Qed.
End calm.
End operations.
