(* ===== verification/TableLifecycle.v ===== *)
(** * From the creation of a table to its removal *)

From S2P Require Import Prelude GoStrings GoTime GoRegexp FieldMapping RedisStore TableConfig TableManager TableManagerTheorems.
From Stdlib Require Import Ascii.
#[local] Open Scope Z_scope.

Section lifecycle.
Context {JC : ConfigJSON} (Compile : string -> option regex) (RFC3339 : Z -> string) (tm : TableManager).
Context (with_redis : redisPool tm = true).
Context (p b : gmap string objects) (d : gmap string string).

(** ** Creating and reading back *)

Lemma calm_exists k s t : set_at k tables_list = Ok s -> TableExists tm t (calm k p b d) = (Ok (bool_decide (t ∈ s)), calm k p b d).
Proof. intros Hs. unfold TableExists. rewrite with_redis. cbn [negb]. apply calm_call. by rewrite Hs. Qed.

(** The keys after the registration of a table. *)
Definition registered (now : Z) (t : string) (c : TableConfig) (s : gset string) (k : keyspace) : keyspace :=
  <[statsKey t := RHash empty_stats]> (<[createdAtKey t := RString (RFC3339 now)]>
    (<[configKey t := RHash (config_data c (contents (calm k p b d) (Properties c)))]> (put_set tables_list ({[t]} ∪ s) k))).

Lemma calm_register now t c s k :
  set_at k tables_list = Ok s -> k !! configKey t = None -> k !! statsKey t = None ->
  register RFC3339 now t c (calm k p b d) = (Ok tt, calm (registered now t c s k) p b d).
Proof.
  intros Hs Hc Hst. unfold register.
  erewrite bind_ok by (apply calm_call; rewrite Hs; done).
  assert (forall key, key <> tables_list -> put_set tables_list ({[t]} ∪ s) k !! key = k !! key) as Hput by (intros; by apply lookup_put_set).
  erewrite bind_ok by (unfold write_config; erewrite bind_ok by done; apply calm_call; unfold hash_at; rewrite Hput, Hc by done; done).
  erewrite bind_ok by (by apply calm_call).
  apply calm_call. unfold hash_at. rewrite lookup_insert_ne by (intros E; apply (cat_inv (p := "table:")), cat_inv in E; discriminate E).
  rewrite lookup_insert_ne by (intros E; apply (cat_inv (p := "table:")), cat_inv in E; discriminate E).
  rewrite Hput, Hst by done. by rewrite !map_union_empty.
Qed.

Lemma registered_config now t c s k :
  registered now t c s k !! configKey t = Some (RHash (config_data c (contents (calm k p b d) (Properties c)))).
Proof.
  unfold registered. rewrite !lookup_insert_ne by (intros E; apply (cat_inv (p := "table:")), cat_inv in E; discriminate E).
  apply lookup_insert_eq.
Qed.

Lemma registered_list now t c s k : set_at (registered now t c s k) tables_list = Ok ({[t]} ∪ s).
Proof.
  unfold registered, set_at. rewrite !lookup_insert_ne by (intros E; discriminate E). apply (set_at_put_set k).
Qed.

(** C17: on a node with Redis, when the calls work, the limit of tables is not
    reached and no key of the name is left over, a new table with a valid
    name exists after its creation, and its configuration reads back as the
    requested one with the defaults filled in, up to what [stored] says is
    lost: the fraction of a second of its flush interval, the field
    encryption, and whether BackupEnabled was nil or false. *)
Theorem created_table_reads_back k s now t c ifne :
  IsValidTableName Compile (tm_cfg tm) t = true -> set_at k tables_list = Ok s -> t ∉ s ->
  Z.of_nat (size s) < MaxTables (TableManagement (tm_cfg tm)) -> k !! configKey t = None -> k !! statsKey t = None ->
  ints_ok (new_config tm c) ->
  exists k', CreateTable Compile RFC3339 tm now t c ifne (calm k p b d) = (Ok ((fun _ => new_config tm c) <$> c), calm k' p b d) /\
  TableExists tm t (calm k' p b d) = (Ok true, calm k' p b d) /\
  getTableConfigFromRedis tm t (calm k' p b d) =
    (Ok (stored (new_config tm c) (contents (calm k p b d) (Properties (new_config tm c)))), calm k' p b d).
Proof.
  intros Hv Hs Ht Hn Hc Hst Hi. exists (registered now t (new_config tm c) s k). split; [|split].
  - unfold CreateTable. rewrite Hv. cbn [negb]. erewrite bind_ok by by apply calm_exists. rewrite bool_decide_false by done.
    erewrite bind_ok by (unfold getTotalTableCount; rewrite with_redis; apply calm_call; by rewrite Hs).
    destruct (Z.leb_spec (MaxTables (TableManagement (tm_cfg tm))) (Z.of_nat (size s))) as [Hge|_]; [lia|]. rewrite with_redis. cbn [negb].
    by erewrite bind_ok by by apply calm_register.
  - erewrite calm_exists by apply registered_list. by rewrite bool_decide_true by set_solver.
  - unfold getTableConfigFromRedis. rewrite with_redis. cbn [negb].
    erewrite bind_ok by (apply calm_call; unfold hash_at; by rewrite registered_config).
    rewrite bool_decide_false; [by rewrite hash_round_trip|].
    intros E. assert (config_data (new_config tm c) (contents (calm k p b d) (Properties (new_config tm c))) !! "id_prefix" = None) as Hnone by by rewrite E.
    by rewrite (config_data_field _ _ "id_prefix" (IDPrefix (new_config tm c))) in Hnone by (done || (apply fixed_field; in_list)).
Qed.

(** ** Changing the configuration *)

(** The configuration after a change: the identifiers stay as they are. *)
Definition changed (cur new : TableConfig) : TableConfig :=
  NormalizeAutoGenerateIDFromStrategy (mkTableConfig
    (if 0 <? BufferSize new then BufferSize new else BufferSize cur)
    (if 0 <? FlushInterval new then FlushInterval new else FlushInterval cur)
    (if 0 <? RetentionDays new then RetentionDays new else RetentionDays cur)
    (match BackupEnabled new with Some x => Some x | None => BackupEnabled cur end) (Properties cur)
    (IDStrategy cur) (IDPrefix cur) (AutoGenerateID cur) (IDValidation cur) (FieldEncryption cur)).

Definition keeps_identifiers (cur new : TableConfig) : Prop :=
  (IDStrategy new = "" \/ IDStrategy new = IDStrategy cur) /\ (IDPrefix new = "" \/ IDPrefix new = IDPrefix cur).

Lemma merge_own w n m : merge_properties n (OwnMap m) w = (Ok (OwnMap (contents w n ∪ m)), w).
Proof. destruct n; cbn; [by rewrite map_empty_union | done | done]. Qed.

(** A change of the configuration of a stored table is refused without
    effect if it names another strategy or prefix of the identifiers;
    otherwise the fields that it sets and the properties that it names are
    what is read afterwards, and the rules for identifiers are the old ones. *)
Theorem config_change_rules k s h now t new :
  set_at k tables_list = Ok s -> t ∈ s -> k !! configKey t = Some (RHash h) -> h <> ∅ ->
  ints_ok (changed (config_of_hash h) new) ->
  let cur := config_of_hash h in
  let w := calm k p b d in
  (~ keeps_identifiers cur new -> exists e, UpdateTableConfig tm now t new w = (Err e, w)) /\
  (keeps_identifiers cur new -> exists k', UpdateTableConfig tm now t new w = (Ok tt, calm k' p b d) /\
     let c := stored (changed cur new) (contents w (Properties new) ∪ properties_of h) in
     getTableConfigFromRedis tm t (calm k' p b d) = (Ok c, calm k' p b d) /\
     IDStrategy c = IDStrategy cur /\ IDPrefix c = IDPrefix cur /\ IDValidation c = IDValidation cur).
Proof.
  intros Hs Ht Hc Hne Hi. cbv zeta. set (cur := config_of_hash h) in *. set (w := calm k p b d).
  assert (getTableConfigFromRedis tm t w = (Ok cur, w)) as Hcur.
  { unfold getTableConfigFromRedis. rewrite with_redis. cbn [negb]. erewrite bind_ok by (apply calm_call; unfold hash_at; by rewrite Hc).
    by rewrite bool_decide_false. }
  assert (Properties cur = OwnMap (properties_of h)) as Hp by done.
  unfold UpdateTableConfig. erewrite bind_ok by by apply calm_exists. rewrite bool_decide_true by done. cbn [negb].
  erewrite bind_ok by exact Hcur. split.
  - intros Hk. unfold keeps_identifiers in Hk. repeat case_bool_decide; cbn [negb andb]; try (by eexists); exfalso; tauto.
  - intros [Hst Hpre]. repeat case_bool_decide; cbn [negb andb]; try (exfalso; naive_solver).
    all: erewrite bind_ok by (rewrite Hp; apply merge_own); rewrite with_redis; cbn [negb].
    all: set (u := NormalizeAutoGenerateIDFromStrategy _).
    all: exists (<[configKey t := RHash (config_data u (contents w (Properties new) ∪ properties_of h) ∪ h)]> k).
    all: split; [unfold write_config; erewrite bind_ok by done; apply calm_call; unfold hash_at; by rewrite Hc|].
    all: split; [|done]; unfold getTableConfigFromRedis; rewrite with_redis; cbn [negb].
    all: erewrite bind_ok by (apply calm_call; unfold hash_at; by rewrite lookup_insert_eq).
    all: rewrite bool_decide_false by (intros E; apply (f_equal (lookup "id_prefix")) in E;
      rewrite lookup_empty, (lookup_union_Some_l _ _ _ (IDPrefix u)) in E by (apply config_data_field; [done | apply fixed_field; in_list]); done).
    all: rewrite hash_round_trip_over by exact Hi; unfold mret, M_ret; do 2 f_equal.
    all: unfold stored; do 2 f_equal; rewrite <- map_union_assoc; by rewrite (map_union_idemp (properties_of h)).
Qed.

(** ** Dropping *)

Lemma calm_each_Del ks k :
  each (fun key => try_call (Del [key]) ;; mret tt) ks (calm k p b d) = (Ok tt, calm (foldl (fun k key => delete key k) k ks) p b d).
Proof.
  revert k. induction ks as [|key ks IH]; intros k; [done|]. cbn [each foldl].
  erewrite bind_ok; [apply IH|]. by erewrite bind_ok by by apply calm_try.
Qed.

Lemma calm_delete_keys pre k : literal_text pre = true -> exists k', delete_keys (pre +:+ "*") (calm k p b d) = (Ok tt, calm k' p b d) /\
  forall key, k' !! key = if String.prefix pre key then None else k !! key.
Proof.
  intros Hp. unfold delete_keys. erewrite bind_ok by by apply calm_try. eexists. split; [apply calm_each_Del|].
  intros key. rewrite lookup_del_all, <- MatchGlob_prefix by done. case_bool_decide as Hin.
  - apply list_elem_of_In, filter_In in Hin as [_ ->]. done.
  - destruct (MatchGlob _ key) eqn:E; [|done]. apply eq_None_not_Some. intros [v Hv]. apply Hin.
    apply list_elem_of_In, filter_In. split; [|done]. apply list_elem_of_In, list_elem_of_fmap. exists (key, v). split; [done|].
    by apply elem_of_map_to_list.
Qed.
End lifecycle.

Section dropping.
Context {JC : ConfigJSON} (tm : TableManager) (with_redis : redisPool tm = true).

Abbreviation bucket_objects p := (bucket_of p (MinioBucket (tm_cfg tm))).

Lemma calm_remove_objects k p b d l : exists p' b',
  remove_objects tm l (calm k p b d) = (Ok (Zlength l), calm k p' b' d) /\
  forall key, bucket_objects p' !! key = if bool_decide (key ∈ l) then None else bucket_objects p !! key.
Proof.
  revert p b. induction l as [|o l IH]; intros p b.
  { exists p, b. split; [done|]. intros key. by rewrite bool_decide_false by apply not_elem_of_nil. }
  cbn [remove_objects]. set (p1 := <[MinioBucket (tm_cfg tm) := delete o (bucket_objects p)]> p).
  assert (exists b1, remove_object tm o (calm k p b d) = (Ok 1, calm k p1 b1 d)) as [b1 H1].
  { unfold remove_object. erewrite bind_ok by apply calm_s3. cbn [fst snd is_ok].
    destruct (backupMinio tm && Backup_Enabled (tm_cfg tm)); [|by exists b].
    eexists. erewrite bind_ok; [done|]. erewrite bind_ok by apply (calm_s3 k p1 b d). done. }
  destruct (IH p1 b1) as (p' & b' & H2 & Hl). exists p', b'. split.
  - erewrite bind_ok by exact H1. erewrite bind_ok by exact H2. cbn [length]. unfold mret, M_ret. do 2 f_equal. lia.
  - intros key. rewrite Hl. unfold p1. rewrite bucket_of_insert, decide_True by done.
    repeat case_bool_decide; try done; [set_solver | assert (key = o) as -> by set_solver; apply lookup_delete_eq | apply lookup_delete_ne; set_solver].
Qed.

(** With working calls, dropping an existing table removes its name, all
    its keys of Redis and all its objects, and reports how many these were. *)
Theorem dropped_table_leaves_nothing k p b d s t ifex :
  primaryMinio tm = true -> literal_text t = true -> set_at k tables_list = Ok s -> t ∈ s ->
  exists k' p' b', DropTable tm t ifex (calm k p b d) =
    (Ok (Zlength (List.filter (String.prefix (t +:+ "/")) (map_to_list (bucket_objects p)).*1)), calm k' p' b' d) /\
  (forall key, owned t key -> k' !! key = None) /\ set_at k' tables_list = Ok (s ∖ {[t]}) /\
  (forall key, String.prefix (t +:+ "/") key = true -> bucket_objects p' !! key = None).
Proof.
  intros Hm (P1 & P2 & P3)%literal_prefixes Hs Ht. set (l := List.filter _ _).
  destruct (calm_remove_objects k p b d l) as (p' & b' & Hr & Hl).
  destruct (calm_delete_keys p' b' d (indexPrefix t) k P1) as (k1 & H1 & L1).
  destruct (calm_delete_keys p' b' d (fileMetaPrefix t) k1 P2) as (k2 & H2 & L2).
  destruct (calm_delete_keys p' b' d (metadataFilePrefix t) k2 P3) as (k3 & H3 & L3).
  assert (k3 !! tables_list = k !! tables_list) as Hlist by (rewrite L3, L2, L1; done).
  assert (set_at k3 tables_list = Ok s) as Hs3 by (unfold set_at in *; by rewrite Hlist).
  set (k4 := put_set tables_list (s ∖ {[t]}) k3).
  exists (delete (statsKey t) (delete (lastWriteKey t) (delete (createdAtKey t) (delete (configKey t) k4)))), p', b'. split; [|split; [|split]].
  - unfold DropTable. erewrite bind_ok by by apply (calm_exists tm with_redis). rewrite bool_decide_true by done. cbn [negb].
    erewrite bind_ok; cycle 1.
    { unfold deleteTableData. rewrite Hm, with_redis. cbn [negb].
      erewrite bind_ok; cycle 1. { erewrite bind_ok by apply calm_s3. cbn [fst snd calm primary]. exact Hr. }
      erewrite bind_ok by exact H1. erewrite bind_ok by exact H2. erewrite bind_ok by exact H3. done. }
    rewrite with_redis. cbn [negb]. erewrite bind_ok by (apply calm_call; rewrite Hs3; done).
    repeat (erewrite bind_ok by by apply calm_try). done.
  - intros key Hk. destruct (decide (key = statsKey t)) as [->|N1]; [apply lookup_delete_eq|]. rewrite lookup_delete_ne by done.
    destruct (decide (key = lastWriteKey t)) as [->|N2]; [apply lookup_delete_eq|]. rewrite lookup_delete_ne by done.
    destruct (decide (key = createdAtKey t)) as [->|N3]; [apply lookup_delete_eq|]. rewrite lookup_delete_ne by done.
    destruct (decide (key = configKey t)) as [->|N4]; [apply lookup_delete_eq|]. rewrite lookup_delete_ne by done.
    unfold k4. rewrite lookup_put_set by (intros ->; by apply (tables_list_free t)). rewrite L3, L2, L1.
    destruct Hk as [?|[?|[?|[?|[Hk|[Hk|Hk]]]]]]; try done; rewrite Hk; by repeat case_match.
  - unfold set_at. rewrite !lookup_delete_ne by (intros E; discriminate E). apply (set_at_put_set k3).
  - intros key Hk. rewrite Hl. case_bool_decide as Hin; [done|]. apply eq_None_not_Some. intros [v Hv]. apply Hin.
    apply list_elem_of_In, filter_In. split; [|done]. apply list_elem_of_In, list_elem_of_fmap. exists (key, v). split; [done|].
    by apply elem_of_map_to_list.
Qed.
End dropping.

(** ** Instances *)

Module TableDemo.

#[export] Instance encryption_eq : EqDecision FieldEncryptionConfig. Proof. solve_decision. Defined.
#[export] Instance encryption_countable : Countable FieldEncryptionConfig.
Proof.
  refine (inj_countable' (fun c => (fe_Enabled c, KeyEnvVar c, KeyFile c, EncryptedFields c, KeyID c))
    (fun '(a, b, c, d, e) => mkEncryption a b c d e) _). by intros [].
Defined.
#[export] Instance rules_eq : EqDecision IDValidationRules. Proof. solve_decision. Defined.
#[export] Instance rules_countable : Countable IDValidationRules.
Proof. refine (inj_countable' (fun c => (MaxLength c, Pattern c, AllowedChars c)) (fun '(a, b, c) => mkRules a b c) _). by intros []. Defined.
#[export] Instance properties_eq : EqDecision properties. Proof. solve_decision. Defined.
#[export] Instance properties_countable : Countable properties.
Proof.
  refine (inj_countable' (fun q => match q with NilMap => inl true | DefaultMap => inl false | OwnMap m => inr (map_to_list m) end)
    (fun x => match x with inl true => NilMap | inl false => DefaultMap | inr l => OwnMap (list_to_map l) end) _).
  intros [| |m]; [done..|]. by rewrite list_to_map_to_list.
Defined.
#[export] Instance config_eq : EqDecision TableConfig. Proof. solve_decision. Defined.
#[export] Instance config_countable : Countable TableConfig.
Proof.
  refine (inj_countable' (fun c => (BufferSize c, FlushInterval c, RetentionDays c, BackupEnabled c, Properties c, IDStrategy c, IDPrefix c,
      AutoGenerateID c, IDValidation c, FieldEncryption c))
    (fun '(a, b, c, d, e, f, g, h, i, j) => mkTableConfig a b c d e f g h i j) _). by intros [].
Defined.
#[export] Instance entry_eq : EqDecision minioTableConfigEntry. Proof. solve_decision. Defined.
#[export] Instance entry_countable : Countable minioTableConfigEntry.
Proof.
  refine (inj_countable' (fun c => (entry_TableName c, entry_Config c, entry_CreatedAt c, entry_UpdatedAt c))
    (fun '(a, b, c, d) => mkEntry a b c d) _). by intros [].
Defined.
#[export] Instance metadata_eq : EqDecision TableConfigMetadata. Proof. solve_decision. Defined.
#[export] Instance metadata_countable : Countable TableConfigMetadata.
Proof.
  refine (inj_countable' (fun c => (md_TableName c, md_Config c, md_CreatedAt c, md_UpdatedAt c))
    (fun '(a, b, c, d) => mkMetadata a b c d) _). by intros [].
Defined.

#[export] Instance demo_json : ConfigJSON :=
  Build_ConfigJSON encode_text decode_text encode_text decode_text
    (fun e _ => decode_encode_text e) (fun d _ => decode_encode_text d).

Definition compile (pattern : string) : option regex := None.
Definition rfc (now : Z) : string := Itoa now.

Definition rules : IDValidationRules := mkRules 255 "^[a-zA-Z0-9_-]+$" "".
Definition default_config : TableConfig :=
  mkTableConfig 1000 (30 * second) 365 (Some true) DefaultMap "snowflake" "" true rules None.
Definition cfg (max : Z) : Config := mkConfig (mkManagement true "default" max "") default_config "data" "backup" true "meta" "node-1".
Definition cluster (max : Z) : TableManager := mkManager true true true (cfg max).
Definition single (max : Z) : TableManager := mkManager false true false (cfg max).

Definition by_client : TableConfig :=
  mkTableConfig 0 (second + second / 2) 0 None NilMap "user_provided" "" false (mkRules 0 "" "") None.
Definition start (redis_answers s3_answers : list answer) : world := mkWorld (mkRedis ∅ redis_answers) ∅ ∅ s3_answers ∅.

Definition created : world := (CreateTable compile rfc (cluster 5) 1 "orders" (Some by_client) false (start [] [])).2.

(** What a table says of itself. *)
Definition strategy_of (tm : TableManager) (t : string) (w : world) : option string :=
  match (getTableConfigFromRedis tm t w).1 with Ok c => Some (IDStrategy c) | Err _ => None end.

(** Witness of [tables_isolated]: dropping one table and failing to create
    another leaves the first. *)
Lemma tables_isolated_witness : in_list "orders" (run_ops compile rfc (cluster 5) [OpCreate 2 "items" None true; OpDrop "items" true] created) = true.
Proof.
  destruct (tables_isolated compile rfc (cluster 5) [OpCreate 2 "items" None true; OpDrop "items" true] "orders" created) as (_ & H & _).
  - by vm_compute.
  - repeat constructor; by vm_compute.
  - rewrite H. by vm_compute.
Defined.

Lemma created_table_reads_back_witness : exists k',
  getTableConfigFromRedis (cluster 5) "orders" (calm k' ∅ ∅ ∅) =
    (Ok (stored (new_config (cluster 5) (Some by_client)) ∅), calm k' ∅ ∅ ∅).
Proof.
  destruct (created_table_reads_back compile rfc (cluster 5) eq_refl ∅ ∅ ∅ ∅ ∅ 1 "orders" (Some by_client) false) as (k' & _ & _ & H);
    [by vm_compute..| |by exists k'].
  repeat split; vm_compute; congruence.
Defined.

Definition longer : TableConfig := mkTableConfig 0 0 90 None (OwnMap {["owner" := "ops"]}) "" "" false (mkRules 0 "" "") None.

(** The state in which the table exists. *)
Lemma created_state : exists k h, created = calm k ∅ ∅ ∅ /\ set_at k tables_list = Ok {["orders"]} /\ k !! configKey "orders" = Some (RHash h) /\
  h <> ∅ /\ ints_ok (changed (config_of_hash h) longer).
Proof.
  exists (keys (redis created)), (config_data (new_config (cluster 5) (Some by_client)) ∅). split; [by vm_compute|]. split; [by vm_compute|].
  split; [by vm_compute|]. split; [apply (bool_decide_eq_false_1 (_ = ∅)); by vm_compute|].
  rewrite hash_round_trip by (repeat split; vm_compute; congruence). repeat split; vm_compute; congruence.
Qed.

Lemma config_change_rules_witness : exists k',
  UpdateTableConfig (cluster 5) 2 "orders" longer created = (Ok tt, calm k' ∅ ∅ ∅).
Proof.
  destruct created_state as (k & h & -> & Hs & Hh & Hne & Hi).
  destruct (config_change_rules compile rfc (cluster 5) eq_refl ∅ ∅ ∅ k {["orders"]} h 2 "orders" longer Hs) as [_ H];
    [by apply elem_of_singleton|exact Hh|exact Hne|exact Hi|].
  destruct H as (k' & H & _); [split; by left|]. exists k'. exact H.
Defined.

Definition stored_objects : gmap string objects := {["data" := {["orders/f1.parquet" := "x"; "orders/f2.parquet" := "y"; "items/f1.parquet" := "z"]}]}.
Lemma dropped_table_leaves_nothing_witness : exists k k' p' b',
  DropTable (cluster 5) "orders" false (calm k stored_objects ∅ ∅) = (Ok 2, calm k' p' b' ∅).
Proof.
  destruct created_state as (k & h & _ & Hs & _). exists k.
  destruct (dropped_table_leaves_nothing (cluster 5) eq_refl k stored_objects ∅ ∅ {["orders"]} "orders" false eq_refl eq_refl Hs)
    as (k' & p' & b' & H & _); [by apply elem_of_singleton|]. exists k', p', b'. exact H.
Defined.

(** A table kept in the bucket, and a request whose first two readings fail. *)
Definition kept : world := (CreateTable compile rfc (single 5) 1 "orders" (Some by_client) false (start [] [])).2.
Definition kept_unlucky : world := mkWorld (redis kept) (primary kept) (backup kept) [NotSent; NotSent] (default_props kept).
Definition ensured : world := (EnsureTableExists compile rfc (single 5) 2 "orders" kept_unlucky).2.

(** A creation whose second command fails, and the same request again. *)
Definition half : world :=
  (CreateTable compile rfc (cluster 5) 1 "orders" (Some by_client) true (start [Answered; Answered; Answered; NotSent] [])).2.
Definition half_again : result table_error (option TableConfig) * world :=
  CreateTable compile rfc (cluster 5) 2 "orders" (Some by_client) true half.
(** A change of that table. *)
Definition half_changed : world := (UpdateTableConfig (cluster 5) 3 "orders" longer half_again.2).2.

(** Two requests that both check before either writes. *)
Definition both_pass (w : world) : result table_error (bool * Z * bool * Z) * world :=
  (a ← TableExists (cluster 1) "a"; n ← getTotalTableCount (cluster 1);
   b ← TableExists (cluster 1) "b"; m ← getTotalTableCount (cluster 1); mret (a, n, b, m)) w.
Definition both : world :=
  ((register rfc 1 "a" default_config ;; register rfc 1 "b" default_config) (both_pass (start [] [])).2).2.

(** A single node whose reading of a table fails twice writes the default
    configuration over the table's own. A creation that fails after its first
    command leaves a table with the default configuration, and the repeated
    request changes nothing; changing that table then writes the properties
    into the default configuration of all tables. Without Redis the limit on
    the tables is not enforced, and two requests at once exceed it with Redis.
    An interval below a second is read back as zero. *)
Theorem table_manager_flaws :
  (strategy_of (single 5) "orders" kept = Some "user_provided" /\ strategy_of (single 5) "orders" ensured = Some "snowflake") /\
  (in_list "orders" half = true /\ half_again.1 = Ok (Some by_client) /\ strategy_of (cluster 5) "orders" half_again.2 = Some "snowflake" /\
   default_props half_changed = {["owner" := "ops"]}) /\
  (is_ok (CreateTable compile rfc (single 1) 2 "items" None false kept).1 = true) /\
  ((both_pass (start [] [])).1 = Ok (false, 0, false, 0) /\ count both = 2) /\
  FlushInterval (stored (mkTableConfig 1 (second / 2) 1 None NilMap "" "" true rules None) ∅) = 0.
Proof. split_and!; by vm_compute. Qed.
End TableDemo.
