(* ===== verification/MetadataStore.v ===== *)
(** * The servers under the metadata manager

    A Redis server whose keys carry a deadline and the time of their last
    access, buckets of objects, and a clock. Each call takes the next answer of
    a script and the time until the server acts on it. *)

From S2P Require Import Prelude GoStrings GoTime FieldMapping RedisStore.
From Stdlib Require Import Ascii.
#[local] Open Scope Z_scope.

Inductive meta_error :=
  | CallLost | BadType | NotInteger | NoClient | NotCmdable | NoStorage | NoSuchObject
  | BadKeyLength | NoNonce | CiphertextTooShort | WrongTag | BadSnapshot | NotMarshalled
  | PipeAborted | NoPreviousBackup | BadTime | NoBackupFound | StatusChanged | BackupTooOld | EmptyName
  | MissingNodeID | MissingTimestamp | NoEntries | BadEntry (i : nat) | RecoveryErrors | BadObjectName.

(** ** The state *)

Record cell := mkCell { held : rvalue; deadline : option Z; touched : Z }.
Record object := mkObject { obj_data : list Z; LastModified : Z }.

(** Objects by bucket and name; [mode] and [stats] are the fields of the
    [BackupManager] that change. *)
Record IncrementalBackup := mkIncremental {
  inc_LastBackupTime : option Z; LastFullVersion : string; IncrementalCount : Z; inc_Enabled : bool;
}.
Record BackupStats := mkStats {
  TotalBackups : Z; LastBackupTime : option Z; FailedBackups : Z; LastFullBackupTime : option Z; IncrementalBackupCfg : IncrementalBackup;
}.
Record world := mkWorld {
  db : gmap string cell; objects : gmap (string * string) object; now : Z; net : list (answer * Z); mode : Z; stats : BackupStats;
}.

Definition set_db (d : gmap string cell) (w : world) : world := mkWorld d (objects w) (now w) (net w) (mode w) (stats w).
Definition set_objects (o : gmap (string * string) object) (w : world) : world := mkWorld (db w) o (now w) (net w) (mode w) (stats w).
Definition set_mode (m : Z) (w : world) : world := mkWorld (db w) (objects w) (now w) (net w) m (stats w).
Definition set_stats (s : BackupStats) (w : world) : world := mkWorld (db w) (objects w) (now w) (net w) (mode w) s.

Abbreviation MW := (M world meta_error).

(** ** Calls *)

Definition next_call (l : list (answer * Z)) : answer * Z * list (answer * Z) :=
  match l with [] => (Answered, 0, []) | (a, d) :: l => (a, d, l) end.

Definition call {A} (f : world -> result meta_error A * world) : MW A := fun w =>
  let '(a, d, l) := next_call (net w) in
  let w := mkWorld (db w) (objects w) (now w + d) l (mode w) (stats w) in
  match a with
  | Answered => f w
  | ReplyLost => (Err CallLost, (f w).2)
  | NotSent => (Err CallLost, w)
  end.

(** ** Redis *)

Definition alive (t : Z) (c : cell) : bool := match deadline c with None => true | Some d => t <=? d end.
Definition live (w : world) (key : string) : option cell :=
  c ← db w !! key; if alive (now w) c then Some c else None.

(** go-redis sends a time to live in whole milliseconds, at least one; [Expire]
    in whole seconds, at least one. *)
Definition redis_ttl (unit ttl : Z) : Z := Z.max unit (Z.quot ttl unit * unit).
Definition ms : Z := 1000000.

Definition touch (key : string) (w : world) : world :=
  match live w key with Some c => set_db (<[key := mkCell (held c) (deadline c) (now w)]> (db w)) w | None => w end.

Module Server.

Definition Keys (prefix : string) : MW (list string) :=
  call (fun w => (Ok (List.filter (String.prefix prefix) (map_to_list (filter (fun p => alive (now w) p.2 = true) (db w))).*1), w)).

Definition type_name (v : rvalue) : string := match v with RString _ => "string" | RHash _ => "hash" | RSet _ => "set" end.
Definition Type_ (key : string) : MW string :=
  call (fun w => (Ok (match live w key with Some c => type_name (held c) | None => "none" end), w)).

(** Seconds, rounded, as a duration; -2 without the key, -1 without a deadline. *)
Definition TTL (key : string) : MW Z :=
  call (fun w => (Ok (match live w key with
    | None => -2
    | Some c => match deadline c with None => -1 | Some d => ((d - now w) / ms + 500) / 1000 * second end
    end), w)).

(** Whole seconds since the last access, as a duration; [None]: no such key. *)
Definition ObjectIdleTime (key : string) : MW (option Z) :=
  call (fun w => (Ok ((fun c => (now w - touched c) / second * second) <$> live w key), w)).

Definition Get (key : string) : MW (option string) :=
  call (fun w => (match live w key with
    | None => Ok None
    | Some c => match held c with RString s => Ok (Some s) | _ => Err BadType end
    end, touch key w)).
Definition HGetAll (key : string) : MW (gmap string string) :=
  call (fun w => (match live w key with
    | None => Ok ∅
    | Some c => match held c with RHash h => Ok h | _ => Err BadType end
    end, touch key w)).
Definition SMembers (key : string) : MW (list string) :=
  call (fun w => (match live w key with
    | None => Ok []
    | Some c => match held c with RSet s => Ok (elements s) | _ => Err BadType end
    end, touch key w)).
Definition Exists (key : string) : MW bool :=
  call (fun w => (Ok (bool_decide (is_Some (live w key))), w)).

Definition write (key : string) (v : rvalue) (d : option Z) (w : world) : world := set_db (<[key := mkCell v d (now w)]> (db w)) w.

(** A negative time to live that is not [KeepTTL] sets none. *)
Definition set_deadline (w : world) (key : string) (ttl : Z) : option Z :=
  if 0 <? ttl then Some (now w + redis_ttl ms ttl)
  else if ttl =? -1 then live w key ≫= deadline else None.
Definition Set_ (key value : string) (ttl : Z) : MW unit :=
  call (fun w => (Ok tt, write key (RString value) (set_deadline w key ttl) w)).
Definition SetNX (key value : string) (ttl : Z) : MW bool :=
  call (fun w => match live w key with
    | Some _ => (Ok false, w)
    | None => (Ok true, write key (RString value) (set_deadline w key ttl) w)
    end).
Definition Incr (key : string) : MW Z :=
  call (fun w => match live w key with
    | None => (Ok 1, write key (RString "1") None w)
    | Some c =>
        match held c with
        | RString s =>
            match ParseInt64 s with
            | Some n => if n =? max_int64 then (Err NotInteger, touch key w) else (Ok (n + 1), write key (RString (Itoa (n + 1))) (deadline c) w)
            | None => (Err NotInteger, touch key w)
            end
        | _ => (Err BadType, touch key w)
        end
    end).
(** The script that deletes a key that holds a value. *)
Definition DelIfEqual (key value : string) : MW Z :=
  call (fun w => match live w key with
    | None => (Ok 0, w)
    | Some c =>
        match held c with
        | RString s => if bool_decide (s = value) then (Ok 1, set_db (delete key (db w)) w) else (Ok 0, touch key w)
        | _ => (Err BadType, touch key w)
        end
    end).

(** ** Transactions *)

(** An argument of a command: a text, a number, boolean or null of a document
    with the texts it is sent and printed as, or one that cannot be sent. *)
Inductive arg := AText (s : string) | AScalar (sent printed : string) | ANested (printed : string).

Definition sent (a : arg) : option string := match a with AText s => Some s | AScalar s _ => Some s | ANested _ => None end.
Definition printed (a : arg) : string := match a with AText s => s | AScalar _ p => p | ANested p => p end.

Inductive pcmd :=
  | PSet (key value : string) (ttl : Z)
  | PHMSet (key : string) (fields : list (string * arg))
  | PSAdd (key : string) (members : list arg)
  | PExpire (key : string) (ttl : Z).

Definition sendable (c : pcmd) : bool :=
  match c with
  | PHMSet _ fs => forallb (fun f => bool_decide (is_Some (sent f.2))) fs
  | PSAdd _ l => forallb (fun a => bool_decide (is_Some (sent a))) l
  | _ => true
  end.
(** A command that the server refuses to queue. *)
Definition malformed (c : pcmd) : bool := match c with PHMSet _ [] => true | PSAdd _ [] => true | _ => false end.

Definition fields_of (fs : list (string * arg)) : gmap string string :=
  list_to_map (rev ((fun f => (f.1, default "" (sent f.2))) <$> fs)).
Definition members_of (l : list arg) : gset string := list_to_set ((fun a => default "" (sent a)) <$> l).

(** One command of a transaction; an error of its own stops only itself. *)
Definition run1 (c : pcmd) (w : world) : bool * world :=
  match c with
  | PSet key v ttl => (true, write key (RString v) (set_deadline w key ttl) w)
  | PHMSet key fs =>
      match live w key with
      | None => (true, write key (RHash (fields_of fs)) None w)
      | Some c => match held c with RHash h => (true, write key (RHash (fields_of fs ∪ h)) (deadline c) w) | _ => (false, touch key w) end
      end
  | PSAdd key l =>
      match live w key with
      | None => (true, write key (RSet (members_of l)) None w)
      | Some c => match held c with RSet s => (true, write key (RSet (members_of l ∪ s)) (deadline c) w) | _ => (false, touch key w) end
      end
  | PExpire key ttl =>
      match live w key with
      | None => (true, w)
      | Some c => (true, write key (held c) (Some (now w + redis_ttl second ttl)) w)
      end
  end.
Fixpoint run_all (cs : list pcmd) (w : world) : bool * world :=
  match cs with
  | [] => (true, w)
  | c :: cs => let '(ok1, w) := run1 c w in let '(ok2, w) := run_all cs w in (ok1 && ok2, w)
  end.

Definition Exec (cs : list pcmd) : MW unit :=
  match cs with
  | [] => mret tt
  | _ =>
      if negb (forallb sendable cs) then throw PipeAborted else
      call (fun w =>
        if existsb malformed cs then (Err PipeAborted, w) else
        let '(ok, w) := run_all cs w in (if ok then Ok tt else Err BadType, w))
  end.

(** ** Objects *)

Definition PutObject (bucket name : string) (data : list Z) : MW unit :=
  call (fun w => (Ok tt, set_objects (<[(bucket, name) := mkObject data (now w)]> (objects w)) w)).
Definition GetObjectBytes (bucket name : string) : MW (list Z) :=
  call (fun w => (match objects w !! (bucket, name) with Some o => Ok (obj_data o) | None => Err NoSuchObject end, w)).
Definition DeleteObject (bucket name : string) : MW unit :=
  call (fun w => (Ok tt, set_objects (delete (bucket, name) (objects w)) w)).

Record ObjectInfo := mkInfo { Name : string; Size : Z; Modified : Z }.
Definition below (bucket prefix : string) (p : string * string * object) : option ObjectInfo :=
  if bool_decide (p.1.1 = bucket) && String.prefix prefix p.1.2
  then Some (mkInfo p.1.2 (Zlength (obj_data p.2)) (LastModified p.2)) else None.
(** The objects below a prefix, in the order of their names. *)
Definition ListObjectsSimple (bucket prefix : string) : MW (list ObjectInfo) :=
  call (fun w => (Ok (merge_sort (fun a b => String.le (Name a) (Name b)) (omap (below bucket prefix) (map_to_list (objects w)))), w)).

End Server.
