(* ===== verification/MetadataBackup.v ===== *)
(** * Backups of the metadata (internal/metadata/backup.go)

    The backup manager reads the keys of the services, the data index, the
    schemas and the cluster from Redis, writes them as one document to a bucket
    and keeps the version number and the state of the backups in Redis. *)

From S2P Require Import Prelude GoStrings GoTime GoFloat FieldMapping GoCrypto RedisStore MetadataStore.
From Stdlib Require Import Ascii.
#[local] Open Scope Z_scope.

(** ** Data *)

Definition MetadataTypeServiceRegistry : string := "service_registry".
Definition MetadataTypeDataIndex : string := "data_index".
Definition MetadataTypeTableSchema : string := "table_schema".
Definition MetadataTypeClusterInfo : string := "cluster_info".

Definition BackupModeFull : Z := 0.
Definition BackupModeIncremental : Z := 1.
Definition BackupMode_String (bm : Z) : string :=
  if bm =? BackupModeFull then "full" else if bm =? BackupModeIncremental then "incremental" else "unknown".

(** What an [interface{}] of an entry holds: a text, a map, a slice, nil, or
    another value of a document, with its encoding and how [%v] prints it. *)
Inductive evalue :=
  | VText (s : string)
  | VHash (h : gmap string Server.arg)
  | VSet (l : list Server.arg)
  | VNil
  | VScalar (encoded printed : string).

Record MetadataEntry := mkEntry { e_Type : string; e_Key : string; e_Value : evalue; e_Timestamp : Z; e_TTL : Z }.

Record BackupSnapshot := mkSnapshot {
  s_NodeID : string; s_Timestamp : option Z; s_Version : string; s_Entries : list MetadataEntry; s_BackupMode : Z; s_BaseVersion : string;
}.

Record BackupConfig := mkBackupConfig {
  RetentionDays : Z; Bucket : string; EncryptionEnabled : bool; EncryptionKey : list Z;
}.

(** ** Documents *)

Definition continuation (c : ascii) : bool := let n := N_of_ascii c in ((128 <=? n) && (n <=? 191))%N.
(** The ranges of the second byte after a first byte of a longer sequence. *)
Definition second_ok (a b : ascii) : bool :=
  let x := N_of_ascii a in let y := N_of_ascii b in
  (if x =? 224 then (160 <=? y) && (y <=? 191) else if x =? 237 then (128 <=? y) && (y <=? 159)
   else if x =? 240 then (144 <=? y) && (y <=? 191) else if x =? 244 then (128 <=? y) && (y <=? 143)
   else (128 <=? y) && (y <=? 191))%N.
Fixpoint utf8_ok (s : string) : bool :=
  match s with
  | "" => true
  | String a s =>
      let x := N_of_ascii a in
      if (x <? 128)%N then utf8_ok s else
      match s with
      | "" => false
      | String b s =>
          if ((194 <=? x) && (x <=? 223))%N then second_ok a b && utf8_ok s else
          match s with
          | "" => false
          | String c s =>
              if ((224 <=? x) && (x <=? 239))%N then second_ok a b && continuation c && utf8_ok s else
              match s with
              | "" => false
              | String d s => ((240 <=? x) && (x <=? 244))%N && second_ok a b && continuation c && continuation d && utf8_ok s
              end
          end
      end
  end.

Definition text_arg (a : Server.arg) : bool := match a with Server.AText s => utf8_ok s | _ => false end.
Definition plain_value (v : evalue) : bool :=
  match v with
  | VText s => utf8_ok s
  | VHash h => forallb (fun p => utf8_ok p.1 && text_arg p.2) (map_to_list h)
  | VSet l => forallb text_arg l
  | _ => false
  end.
Definition year_ok (t : Z) : bool := (days 0 1 1 * day_ns <=? t) && (t <? days 10000 1 1 * day_ns).
Definition plain_entry (e : MetadataEntry) : bool :=
  utf8_ok (e_Type e) && utf8_ok (e_Key e) && plain_value (e_Value e) && year_ok (e_Timestamp e) && bool_decide (in_int64 (e_TTL e)).
(** The documents of UTF-8 text and four-digit years. *)
Definition plain_snapshot (s : BackupSnapshot) : bool :=
  utf8_ok (s_NodeID s) && match s_Timestamp s with Some t => year_ok t | None => true end && utf8_ok (s_Version s) &&
  utf8_ok (s_BaseVersion s) && forallb plain_entry (s_Entries s).

(** encoding/json of a snapshot. *)
Class SnapshotJSON := {
  marshal_snapshot : BackupSnapshot -> option (list Z);
  unmarshal_snapshot : list Z -> option BackupSnapshot;
  snapshot_roundtrip s : plain_snapshot s = true ->
    exists data, marshal_snapshot s = Some data /\ Forall is_byte data /\ unmarshal_snapshot data = Some s;
}.

(** ** Clients *)

Inductive client := NilClient | OtherClient | RedisClient.
Inductive pools := NilPoolManager | NilRedisPool | RedisPool (c : client).
(** A [storage.Storage] as a cache and through its pools. *)
Record unified := mkUnified { as_cache : client; as_pools : pools }.
Record storages := mkStorages { cacheStorage : option client; objectStorage : bool; storage : option unified }.

Definition NewBackupManagerWithStorages (u : option unified) (cache : option client) (object : bool) : storages :=
  mkStorages (match cache with Some c => Some c | None => as_cache <$> u end) (object || bool_decide (is_Some u)) u.
Definition NewBackupManager (u : option unified) : storages := NewBackupManagerWithStorages u None false.

Definition of_client (c : client) : result meta_error unit :=
  match c with NilClient => Err NoClient | OtherClient => Err NotCmdable | RedisClient => Ok tt end.
Definition getRedisClient (s : storages) : MW unit := fun w =>
  (match cacheStorage s with
   | Some c => of_client c
   | None =>
       match storage s with
       | Some u => match as_pools u with NilPoolManager => Err NoClient | NilRedisPool => Err NoClient | RedisPool c => of_client c end
       | None => Err NoClient
       end
   end, w).
Definition object_store (s : storages) : MW unit := fun w =>
  (if objectStorage s || bool_decide (is_Some (storage s)) then Ok tt else Err NoStorage, w).

Definition keyLength : nat := 32.
Definition backupStateKey : string := "metadata:backup:state".
Definition backupLastFullTimeKey : string := "metadata:backup:last_full_time".
Definition backupLastFullVersion : string := "metadata:backup:last_full_version".
Definition backupIncrementalCount : string := "metadata:backup:incremental_count".

Definition encrypt (enabled : bool) (key : list Z) (nonce : option (list Z)) (plaintext : list Z) : result meta_error (list Z) :=
  if negb enabled || (length key =? 0)%nat then Ok plaintext else
  if negb (length key =? keyLength)%nat then Err BadKeyLength else
  match nonce with None => Err NoNonce | Some n => Ok (n ++ Gcm.Seal (Aes.encrypt_block key) n plaintext) end.

Definition decrypt (enabled : bool) (key : list Z) (ciphertext : list Z) : result meta_error (list Z) :=
  if negb enabled || (length key =? 0)%nat then Ok ciphertext else
  if negb (length key =? keyLength)%nat then Err BadKeyLength else
  if (length ciphertext <? Gcm.NonceSize)%nat then Err CiphertextTooShort else
  match Gcm.Open (Aes.encrypt_block key) (take Gcm.NonceSize ciphertext) (drop Gcm.NonceSize ciphertext) with
  | Some p => Ok p
  | None => Err WrongTag
  end.

(** ** Versions *)

Definition version_parts (v : string) : list string :=
  let parts := Split "." v in parts ++ replicate (3 - length parts) "0".

Definition incrementVersion (version : string) : string :=
  let parts := version_parts version in
  let patch := match Atoi (nth 2 parts "") with Some n => Itoa (int64 (n + 1)) | None => "1" end in
  Join "." (<[2%nat := patch]> parts).

Section backup.
Context {J : SnapshotJSON} (st : storages) (nodeID : string) (config : BackupConfig) (zone : Z).

Definition getCurrentAndIncrementVersion : MW string :=
  getRedisClient st ;;
  v ← Server.Get "metadata:version";
  let newVersion := incrementVersion (default "1.0.0" v) in
  Server.Set_ "metadata:version" newVersion 0 ;;
  mret newVersion.

(** ** Collecting *)

(** One key after the other, with the entries of those that have one. *)
Fixpoint gather (f : string -> MW (option MetadataEntry)) (ks : list string) : MW (list MetadataEntry) :=
  match ks with
  | [] => mret []
  | key :: ks => e ← f key; es ← gather f ks; mret (match e with Some e => e :: es | None => es end)
  end.
(** A pattern whose keys cannot be listed is passed over. *)
Fixpoint gather_patterns (f : string -> MW (option MetadataEntry)) (ps : list string) : MW (list MetadataEntry) :=
  match ps with
  | [] => mret []
  | p :: ps =>
      ks ← attempt (Server.Keys p);
      es ← (match ks with Ok ks => gather f ks | Err _ => mret [] end);
      es' ← gather_patterns f ps;
      mret (es ++ es')
  end.

Definition hash_value (h : gmap string string) : evalue := VHash (Server.AText <$> h).
Definition set_value (l : list string) : evalue := VSet (Server.AText <$> l).

Definition ttl_of (key : string) : MW Z :=
  r ← attempt (Server.TTL key); mret (match r with Ok t => if 0 <? t then t else 0 | Err _ => 0 end).

(** The value of a key by its type; sets only of the services. *)
Definition value_of (sets : bool) (keyType key : string) : MW (option evalue) :=
  if bool_decide (keyType = "string") then
    r ← attempt (Server.Get key); mret (match r with Ok (Some s) => Some (VText s) | _ => None end)
  else if bool_decide (keyType = "hash") then
    r ← attempt (Server.HGetAll key); mret (match r with Ok h => Some (hash_value h) | _ => None end)
  else if sets && bool_decide (keyType = "set") then
    r ← attempt (Server.SMembers key); mret (match r with Ok l => Some (set_value l) | _ => None end)
  else mret None.

Definition typed_entry (type : string) (sets : bool) (with_ttl : bool) (key : string) : MW (option MetadataEntry) :=
  t ← attempt (Server.Type_ key);
  match t with
  | Err _ => mret None
  | Ok keyType =>
      ttl ← (if with_ttl then ttl_of key else mret 0);
      v ← value_of sets keyType key;
      t ← asks now;
      mret ((fun v => mkEntry type key v t ttl) <$> v)
  end.
Definition service_entry : string -> MW (option MetadataEntry) := typed_entry MetadataTypeServiceRegistry true true.
Definition cluster_entry : string -> MW (option MetadataEntry) := typed_entry MetadataTypeClusterInfo false false.
Definition index_entry (key : string) : MW (option MetadataEntry) :=
  r ← attempt (Server.Get key);
  t ← asks now;
  mret (match r with Ok (Some s) => Some (mkEntry MetadataTypeDataIndex key (VText s) t 0) | _ => None end).
Definition schema_entry (key : string) : MW (option MetadataEntry) :=
  r ← attempt (Server.HGetAll key);
  t ← asks now;
  mret (match r with Ok h => Some (mkEntry MetadataTypeTableSchema key (hash_value h) t 0) | _ => None end).

Definition index_patterns : list string := ["index:"; "table:"; "partition:"].
Definition cluster_patterns : list string := ["cluster:"; "node:"; "shard:"].

Definition collectServiceRegistry : MW (list MetadataEntry) := ks ← Server.Keys "service:"; gather service_entry ks.
Definition collectDataIndex : MW (list MetadataEntry) := gather_patterns index_entry index_patterns.
Definition collectTableSchema : MW (list MetadataEntry) := ks ← Server.Keys "schema:"; gather schema_entry ks.
Definition collectClusterInfo : MW (list MetadataEntry) := gather_patterns cluster_entry cluster_patterns.

(** A part that fails is left out. *)
Fixpoint collect_parts (parts : list (MW (list MetadataEntry))) : MW (list MetadataEntry) :=
  match parts with
  | [] => mret []
  | m :: parts => r ← attempt m; es ← collect_parts parts; mret (match r with Ok l => l ++ es | Err _ => es end)
  end.

Definition collectMetadata : MW (list MetadataEntry) :=
  getRedisClient st ;;
  collect_parts [collectServiceRegistry; collectDataIndex; collectTableSchema; collectClusterInfo].

(** ** Changed keys *)

(** [time.Duration(idleTime) * time.Second] of a duration already in
    nanoseconds. *)
Definition timeSinceModification (idleTime : Z) : Z := int64 (idleTime * second).

Definition if_changed (since : Z) (f : string -> MW (option MetadataEntry)) (key : string) : MW (option MetadataEntry) :=
  idle ← attempt (Server.ObjectIdleTime key);
  t ← asks now;
  match idle with
  | Ok (Some d) => if t - since <? timeSinceModification d then mret None else f key
  | _ => f key
  end.

Definition collectServiceRegistryIncremental (since : Z) : MW (list MetadataEntry) :=
  ks ← Server.Keys "service:"; gather (if_changed since service_entry) ks.
Definition collectDataIndexIncremental (since : Z) : MW (list MetadataEntry) :=
  gather_patterns (if_changed since index_entry) index_patterns.
Definition collectTableSchemaIncremental (since : Z) : MW (list MetadataEntry) :=
  ks ← Server.Keys "schema:"; gather (if_changed since schema_entry) ks.
Definition collectClusterInfoIncremental (since : Z) : MW (list MetadataEntry) :=
  gather_patterns (if_changed since cluster_entry) cluster_patterns.

Definition collectMetadataIncremental (since : Z) : MW (list MetadataEntry) :=
  getRedisClient st ;;
  collect_parts [collectServiceRegistryIncremental since; collectDataIndexIncremental since;
                 collectTableSchemaIncremental since; collectClusterInfoIncremental since].

(** ** The state of the backups *)

Definition RFC3339 : layout := DateTime "T" ZoneOffset.

Definition getLastBackupTime : MW Z :=
  getRedisClient st ;;
  r ← Server.Get backupStateKey;
  match r with
  | None => throw NoPreviousBackup
  | Some s => match time_Parse RFC3339 s with Some t => mret t | None => throw BadTime end
  end.
Definition getLastFullBackupTime : MW Z :=
  getRedisClient st ;;
  r ← Server.Get backupLastFullTimeKey;
  match r with
  | None => mret zero_time
  | Some s => match time_Parse RFC3339 s with Some t => mret t | None => throw BadTime end
  end.
Definition getLastFullBackupVersion : MW string :=
  getRedisClient st ;; r ← Server.Get backupLastFullVersion; mret (default "" r).

Definition determineBackupMode : MW Z :=
  m ← asks mode;
  if m =? BackupModeIncremental then
    r ← attempt getLastFullBackupTime;
    mret (match r with Ok t => if t =? zero_time then BackupModeFull else BackupModeIncremental | Err _ => BackupModeFull end)
  else mret BackupModeFull.

Definition updateBackupState (backupMode backupTime : Z) (version : string) : MW unit :=
  getRedisClient st ;;
  Server.Set_ backupStateKey (Format_RFC3339 zone backupTime) 0 ;;
  if backupMode =? BackupModeFull then
    Server.Set_ backupLastFullTimeKey (Format_RFC3339 zone backupTime) 0 ;;
    Server.Set_ backupLastFullVersion version 0 ;;
    attempt (E1 := meta_error) (Server.Set_ backupIncrementalCount "0" 0) ;; mret tt
  else attempt (E1 := meta_error) (Server.Incr backupIncrementalCount) ;; mret tt.

Definition updateStatsWithMode (backupTime backupMode : Z) (w : world) : world :=
  let s := stats w in
  let c := IncrementalBackupCfg s in
  let enabled := mode w =? BackupModeIncremental in
  set_stats
    (if backupMode =? BackupModeFull
     then mkStats (TotalBackups s + 1) (Some backupTime) (FailedBackups s) (Some backupTime) (mkIncremental (Some backupTime) "" 0 enabled)
     else mkStats (TotalBackups s + 1) (Some backupTime) (FailedBackups s) (LastFullBackupTime s)
            (mkIncremental (Some backupTime) (LastFullVersion c) (IncrementalCount c + 1) enabled)) w.
Definition incrementErrorCount (w : world) : world :=
  let s := stats w in
  set_stats (mkStats (TotalBackups s) (LastBackupTime s) (FailedBackups s + 1) (LastFullBackupTime s) (IncrementalBackupCfg s)) w.

(** ** A backup *)

Definition own_prefix : string := "metadata-backup/" +:+ nodeID +:+ "/".
Definition backup_object (backupMode startTime : Z) : string :=
  own_prefix +:+ Format_day zone startTime +:+ "/" +:+
  (if backupMode =? BackupModeIncremental then "incremental_" else "backup_") +:+ Format_stamp zone startTime +:+ ".json".

Definition lift {A} (r : result meta_error A) : MW A := fun w => (r, w).

(** The mode that is used and the entries that changed, if any were asked for. *)
Definition changed_entries : MW (Z * list MetadataEntry) :=
  backupMode ← determineBackupMode;
  if backupMode =? BackupModeIncremental then
    last ← attempt getLastBackupTime;
    match last with
    | Err _ => mret (BackupModeFull, [])
    | Ok since => es ← collectMetadataIncremental since; mret (backupMode, es)
    end
  else mret (backupMode, []).

Definition performBackup (nonce : option (list Z)) : MW unit :=
  startTime ← asks now;
  '(backupMode, changed) ← changed_entries;
  entries ← (if (backupMode =? BackupModeFull) || bool_decide (changed = []) then collectMetadata else mret changed);
  v ← attempt getCurrentAndIncrementVersion;
  let currentVersion := match v with Ok v => v | Err _ => "1.0.0" end in
  baseVersion ← (if backupMode =? BackupModeIncremental
                 then r ← attempt getLastFullBackupVersion; mret (match r with Ok v => v | Err _ => "" end) else mret "");
  let snapshot := mkSnapshot nodeID (Some startTime) currentVersion entries backupMode baseVersion in
  data ← lift (match marshal_snapshot snapshot with Some d => Ok d | None => Err NotMarshalled end);
  data ← (if EncryptionEnabled config then lift (encrypt (EncryptionEnabled config) (EncryptionKey config) nonce data) else mret data);
  object_store st ;;
  Server.PutObject (Bucket config) (backup_object backupMode startTime) data ;;
  attempt (E1 := meta_error) (updateBackupState backupMode startTime currentVersion) ;;
  modifies (updateStatsWithMode startTime backupMode).

(** A tick of [backupLoop]. *)
Definition backup_tick (nonce : option (list Z)) : MW unit :=
  r ← attempt (performBackup nonce);
  match r with Ok _ => mret tt | Err _ => modifies incrementErrorCount end.

Definition SetBackupMode (m : Z) : MW unit := modifies (set_mode m).
Definition ForceFullBackup (nonce : option (list Z)) : MW unit :=
  originalMode ← asks mode;
  modifies (set_mode BackupModeFull) ;;
  r ← attempt (performBackup nonce);
  modifies (set_mode originalMode) ;;
  lift r.

(** ** Old backups *)

(** [AddDate(0, 0, -days)] in a zone without daylight saving. *)
Definition cutoff (days now : Z) : Z := now - days * day_ns.

Definition cleanupOldBackups : MW unit :=
  cutoffTime ← (t ← asks now; mret (cutoff (RetentionDays config) t));
  object_store st ;;
  objs ← Server.ListObjectsSimple (Bucket config) own_prefix;
  each (fun o =>
    if Server.Modified o <? cutoffTime
    then attempt (E1 := meta_error) (Server.DeleteObject (Bucket config) (Server.Name o)) ;; mret tt else mret tt) objs.
End backup.

(** * Recovery of the metadata (internal/metadata/recovery.go)

    The recovery manager lists the backups of its node, reads one and writes its
    entries back to Redis in transactions of a hundred entries. *)

(** ** Data *)

Inductive RecoveryMode := RecoveryModeComplete | RecoveryModePartial | RecoveryModeDryRun | OtherRecoveryMode.

(** [Validate], [DryRun], [Filters] and [Parallel] are never read. *)
Record RecoveryOptions := mkOptions {
  FromTime : option Z; ToTime : option Z; MetadataTypes : list string; KeyPatterns : list string;
  Mode : RecoveryMode; Overwrite : bool; Validate : bool; DryRun : bool;
}.

Inductive recovery_error := DownloadFailed (e : meta_error) | ClientFailed (e : meta_error) | EntryFailed (key : string) (e : meta_error).

Record RecoveryResult := mkResult {
  BackupFile : string; StartTime : Z; EndTime : option Z; EntriesTotal : Z; EntriesOK : Z; EntriesSkipped : Z; EntriesError : Z;
  Success : bool; Errors : list recovery_error; entries_after_filter : option Z;
}.

Record BackupInfo := mkBackupInfo {
  ObjectName : string; bi_NodeID : string; bi_Size : Z; bi_LastModified : Z; bi_Timestamp : Z;
}.

Definition newer_first (a b : BackupInfo) : Prop := bi_Timestamp b <= bi_Timestamp a.
#[export] Instance newer_first_dec a b : Decision (newer_first a b) := Z_le_dec _ _.

(** ** Names *)

Definition parseBackupTimestamp (objectName : string) : option Z :=
  let parts := Split "/" objectName in
  if (length parts <? 4)%nat then None else
  let filename := List.last parts "" in
  if negb (HasPrefix filename "backup_") || negb (HasSuffix filename ".json") then None else
  parse_stamp (TrimSuffix (TrimPrefix filename "backup_") ".json").

(** ** Filters *)

Definition entry_passes (o : RecoveryOptions) (e : MetadataEntry) : bool :=
  negb (match FromTime o with Some t => e_Timestamp e <? t | None => false end) &&
  negb (match ToTime o with Some t => t <? e_Timestamp e | None => false end) &&
  (bool_decide (MetadataTypes o = []) || existsb (fun t => bool_decide (e_Type e = t)) (MetadataTypes o)) &&
  (bool_decide (KeyPatterns o = []) || existsb (fun p => Contains (e_Key e) p) (KeyPatterns o)).
Definition filterEntries (entries : list MetadataEntry) (o : RecoveryOptions) : list MetadataEntry := List.filter (entry_passes o) entries.

(** ** Entries *)

Definition with_expiry (key : string) (ttl : Z) (c : Server.pcmd) : list Server.pcmd :=
  c :: if 0 <? ttl then [Server.PExpire key ttl] else [].

Definition entry_commands (e : MetadataEntry) : list Server.pcmd :=
  match e_Value e with
  | VText s => [Server.PSet (e_Key e) s (e_TTL e)]
  | VHash h => with_expiry (e_Key e) (e_TTL e) (Server.PHMSet (e_Key e) (map_to_list h))
  | VSet l => with_expiry (e_Key e) (e_TTL e) (Server.PSAdd (e_Key e) l)
  | VNil => [Server.PSet (e_Key e) "null" (e_TTL e)]
  | VScalar s _ => [Server.PSet (e_Key e) s (e_TTL e)]
  end.

(** The commands that the pipeline gets; none for a key to be kept. *)
Definition recoverEntry (o : RecoveryOptions) (e : MetadataEntry) : MW (list Server.pcmd) :=
  if Overwrite o then mret (entry_commands e) else
  ex ← Server.Exists (e_Key e);
  mret (if ex : bool then [] else entry_commands e).

Definition batch_size : nat := 100.

Record progress := mkProgress { pipe : list Server.pcmd; pipeCommands : nat; ok_count : Z; error_count : Z; failures : list recovery_error }.

Definition flush_pipe (cs : list Server.pcmd) : MW unit := attempt (E1 := meta_error) (Server.Exec cs) ;; mret tt.

Fixpoint recover_loop (o : RecoveryOptions) (es : list MetadataEntry) (p : progress) : MW progress :=
  match es with
  | [] => mret p
  | e :: es =>
      r ← attempt (recoverEntry o e);
      match r with
      | Err x => recover_loop o es (mkProgress (pipe p) (pipeCommands p) (ok_count p) (error_count p + 1) (failures p ++ [EntryFailed (e_Key e) x]))
      | Ok cs =>
          if (batch_size <=? S (pipeCommands p))%nat
          then flush_pipe (pipe p ++ cs) ;; recover_loop o es (mkProgress [] 0 (ok_count p + 1) (error_count p) (failures p))
          else recover_loop o es (mkProgress (pipe p ++ cs) (S (pipeCommands p)) (ok_count p + 1) (error_count p) (failures p))
      end
  end.

Section recovery.
Context {J : SnapshotJSON} (st : storages) (nodeID bucket : string) (encryptionEnabled : bool) (encryptionKey : list Z).

(** ** Backups *)

Definition info_of (since : Z) (o : Server.ObjectInfo) : option BackupInfo :=
  if Server.Modified o <? since then None else
  (fun t => mkBackupInfo (Server.Name o) nodeID (Server.Size o) (Server.Modified o) t) <$> parseBackupTimestamp (Server.Name o).

Definition ListBackups (days : Z) : MW (list BackupInfo) :=
  object_store st ;;
  objs ← Server.ListObjectsSimple bucket (own_prefix nodeID);
  t ← asks now;
  mret (merge_sort newer_first (omap (info_of (cutoff days t)) objs)).

Definition GetLatestBackup : MW BackupInfo :=
  bs ← ListBackups 30;
  match bs with [] => throw NoBackupFound | b :: _ => mret b end.

(** Data that does not decrypt is read as it is. *)
Definition downloadBackup (objectName : string) : MW BackupSnapshot :=
  object_store st ;;
  data ← Server.GetObjectBytes bucket objectName;
  let data :=
    if encryptionEnabled && negb (length encryptionKey =? 0)%nat
    then match decrypt encryptionEnabled encryptionKey data with Ok d => d | Err _ => data end else data in
  lift (match unmarshal_snapshot data with Some s => Ok s | None => Err BadSnapshot end).

Definition ValidateBackup (objectName : string) : MW unit :=
  s ← downloadBackup objectName;
  if bool_decide (s_NodeID s = "") then throw MissingNodeID else
  if bool_decide (s_Timestamp s = None) then throw MissingTimestamp else
  if bool_decide (s_Entries s = []) then throw NoEntries else
  match list_find (fun e => e_Key e = "" \/ e_Type e = "" \/ (match e_Value e with VNil => true | _ => false end) = true) (s_Entries s) with
  | Some (i, _) => throw (BadEntry i)
  | None => mret tt
  end.

(** ** Recovery *)

Definition failed (objectName : string) (start total : Z) (after : option Z) (e : recovery_error) : RecoveryResult :=
  mkResult objectName start None total 0 0 0 false [e] after.

Definition recover_all (o : RecoveryOptions) (es : list MetadataEntry) : MW progress :=
  p ← recover_loop o es (mkProgress [] 0 0 0 []);
  (if (0 <? pipeCommands p)%nat then flush_pipe (pipe p) else mret tt) ;;
  mret p.

Definition recover_snapshot (objectName : string) (startTime : Z) (s : BackupSnapshot) (o : RecoveryOptions) :
    MW (RecoveryResult * option meta_error) :=
  let total := Zlength (s_Entries s) in
  let es := filterEntries (s_Entries s) o in
  match Mode o with
  | RecoveryModeDryRun =>
      t ← asks now;
      mret (mkResult objectName startTime (Some t) total (Zlength es) 0 0 true [] (Some (Zlength es)), None)
  | _ =>
      c ← attempt (getRedisClient st);
      match c with
      | Err e => mret (failed objectName startTime total (Some (Zlength es)) (ClientFailed e), Some e)
      | Ok _ =>
          p ← recover_all o es;
          t ← asks now;
          mret (mkResult objectName startTime (Some t) total (ok_count p) 0 (error_count p) (error_count p =? 0) (failures p) (Some (Zlength es)), None)
      end
  end.

(** A result comes with every outcome. *)
Definition RecoverFromBackup (objectName : string) (o : RecoveryOptions) : MW (RecoveryResult * option meta_error) :=
  startTime ← asks now;
  s ← attempt (downloadBackup objectName);
  match s with
  | Err e => mret (failed objectName startTime 0 None (DownloadFailed e), Some e)
  | Ok s => recover_snapshot objectName startTime s o
  end.

Definition RecoverFromLatest (o : RecoveryOptions) : MW (RecoveryResult * option meta_error) :=
  b ← GetLatestBackup; RecoverFromBackup (ObjectName b) o.
End recovery.
