(* ===== verification/MetadataSync.v ===== *)
(** * The metadata manager (internal/metadata/manager.go)

    At its start the manager takes a lock in Redis, compares the version in
    Redis with that of the newest backup of its node, and backs up, recovers,
    compares or only reports. *)

From S2P Require Import Prelude GoStrings GoTime GoFloat FieldMapping GoCrypto RedisStore MetadataStore MetadataBackup.
From Stdlib Require Import Ascii.
#[local] Open Scope Z_scope.

(** ** Versions *)

Definition compare_parts (p1 p2 : string) : comparison :=
  match Atoi p1, Atoi p2 with
  | Some n1, Some n2 => n1 ?= n2
  | _, _ => String.compare p1 p2
  end.
Fixpoint compare_first (n : nat) (l1 l2 : list string) : Z :=
  match n, l1, l2 with
  | S n, p1 :: l1, p2 :: l2 =>
      match compare_parts p1 p2 with Gt => 1 | Lt => -1 | Eq => compare_first n l1 l2 end
  | _, _, _ => 0
  end.
Definition compareVersions (v1 v2 : string) : Z := compare_first 3 (version_parts v1) (version_parts v2).

(** ** What is known of the versions *)

Inductive version_status := redis_newer | backup_newer | versions_equal | version_conflict | redis_version_lost.
#[export] Instance version_status_eq : EqDecision version_status.
Proof. solve_decision. Defined.

(** The confidence in tenths. *)
Record VersionInfo := mkVersionInfo {
  RedisVersion : string; BackupVersion : string; RedisTimestamp : Z; BackupTimestamp : Z;
  Status : version_status; BackupObjectName : string; Confidence : Z;
}.

Definition duration_Abs (d : Z) : Z := if 0 <=? d then d else if d =? min_int64 then max_int64 else - d.
Definition one_hour : Z := 3600 * second.

(** The status and the confidence. *)
Definition analyzeVersionStatus (rv bv : string) (rt bt : Z) (redisVersionExists : bool) : version_status * Z :=
  if negb redisVersionExists then (if bool_decide (bv = "") then redis_newer else redis_version_lost, 10)
  else if bool_decide (bv = "") then (redis_newer, 10)
  else
    let c := compareVersions rv bv in
    let timeDiff := time_Sub rt bt in
    if c =? 1 then (if timeDiff <? - one_hour then (version_conflict, 5) else (redis_newer, 10))
    else if c =? -1 then (backup_newer, if timeDiff <? 0 then 10 else 7)
    else if c =? 0 then (versions_equal, 10)
    else (version_conflict, 10).

(** ** Differences *)

#[export] Instance pair_le_dec : RelDecision (fun a b : string * string => String.le a.1 b.1).
Proof. intros a b. apply String.le_dec. Defined.
(** [fmt.Sprintf] with [%v]: maps by their keys in order. *)
Definition sprint (v : evalue) : string :=
  match v with
  | VText s => s
  | VHash h => "map[" +:+ Join " " ((fun p => p.1 +:+ ":" +:+ p.2) <$>
      merge_sort (fun a b : string * string => String.le a.1 b.1) ((fun p => (p.1, Server.printed p.2)) <$> map_to_list h)) +:+ "]"
  | VSet l => "[" +:+ Join " " (Server.printed <$> l) +:+ "]"
  | VNil => "<nil>"
  | VScalar _ p => p
  end.
Definition compareValues (v1 v2 : evalue) : bool := bool_decide (sprint v1 = sprint v2).

Inductive inconsistency := MissingKey (key : string) | ValueMismatch (key : string) | ExtraKey (key : string).

(** The last entry of a key counts. *)
Definition by_key (es : list MetadataEntry) : gmap string MetadataEntry := list_to_map (rev ((fun e => (e_Key e, e)) <$> es)).

Definition compareMetadata (current backup : list MetadataEntry) : list inconsistency :=
  let c := by_key current in
  let b := by_key backup in
  omap (fun '(key, be) =>
    match c !! key with
    | None => Some (MissingKey key)
    | Some ce => if compareValues (e_Value ce) (e_Value be) then None else Some (ValueMismatch key)
    end) (map_to_list b) ++
  omap (fun '(key, _) => match b !! key with None => Some (ExtraKey key) | Some _ => None end) (map_to_list c).

Record SyncCheckResult := mkSyncCheck { TotalEntries : Z; InconsistenciesFound : Z; AutoRecovery : bool }.
Record DeepValidationResult := mkDeep { IssuesFound : Z; CheckedEntries : Z; IssueDetails : list string }.
Inductive overall_status := healthy | degraded | inconsistent.
Record ConsistencyReport := mkReport {
  BasicCheck : SyncCheckResult; DeepValidation : DeepValidationResult; TimestampConsistent : bool; OverallStatus : overall_status;
}.

Record Config := mkConfig { AutoRepair : bool; Backup : BackupConfig; Recovery_Bucket : string }.

(** [fmt.Sprintf("node-%x", md5.Sum(...))[:12]] of the host and the time, with
    [md5] the digest in hexadecimal. *)
Definition generateNodeID (md5 : string -> string) (hostname : option string) (t : Z) : string :=
  String.substring 0 12 ("node-" +:+ md5 (default "unknown" hostname +:+ "-" +:+ Itoa t)).

Section manager.
Context {J : SnapshotJSON} (u : option unified) (cache : option client) (nodeID : string) (config : Config) (zone : Z).

Definition own_storages : storages := mkStorages cache false u.
Definition backup_storages : storages := NewBackupManager u.
Definition m_getRedisClient : MW unit := getRedisClient own_storages.
Definition m_storage : MW unit := fun w => (if bool_decide (is_Some u) then Ok tt else Err NoStorage, w).

Definition bm_performBackup (nonce : option (list Z)) : MW unit := performBackup backup_storages nodeID (Backup config) zone nonce.
Definition getCurrentMetadata : MW (list MetadataEntry) := collectMetadata backup_storages.
Definition rm_ListBackups (days : Z) : MW (list BackupInfo) := ListBackups backup_storages nodeID (Recovery_Bucket config) days.
Definition rm_RecoverFromBackup (name : string) (o : RecoveryOptions) : MW (RecoveryResult * option meta_error) :=
  RecoverFromBackup backup_storages (Recovery_Bucket config) (EncryptionEnabled (Backup config)) (EncryptionKey (Backup config)) name o.
Definition rm_ValidateBackup (name : string) : MW unit :=
  ValidateBackup backup_storages (Recovery_Bucket config) (EncryptionEnabled (Backup config)) (EncryptionKey (Backup config)) name.

(** ** The lock *)

Definition sync_lock : string := "metadata:sync:lock".
Definition acquireDistributedLock (key : string) (expiration : Z) : MW bool :=
  m_getRedisClient ;; Server.SetNX key nodeID expiration.
Definition releaseDistributedLock (key : string) : MW unit :=
  m_getRedisClient ;; Server.DelIfEqual key nodeID ;; mret tt.

(** ** The version in Redis *)

Definition version_key : string := "metadata:version".
Definition timestamp_key : string := "metadata:version:timestamp".

Definition getCurrentVersion : MW string :=
  m_getRedisClient ;;
  v ← Server.Get version_key;
  match v with Some v => mret v | None => Server.Set_ version_key "1.0.0" 0 ;; mret "1.0.0" end.

Definition setCurrentVersion (version : string) : MW unit :=
  m_getRedisClient ;;
  t ← asks now;
  Server.Exec [Server.PSet version_key version 0; Server.PSet timestamp_key (Format_RFC3339 zone t) 0].

(** The version, its time and whether there is one. *)
Definition getRedisVersionWithTimestamp : MW (string * Z * bool) :=
  c ← attempt (E1 := meta_error) m_getRedisClient;
  match c with
  | Err _ => t ← asks now; mret ("1.0.0", t, false)
  | Ok _ =>
      v ← attempt (Server.Get version_key);
      match v with
      | Err _ => t ← asks now; mret ("1.0.0", t, false)
      | Ok v =>
          ts ← attempt (Server.Get timestamp_key);
          t ← asks now;
          match ts with
          | Ok (Some s) => mret (default "1.0.0" v, default t (time_Parse RFC3339 s), bool_decide (is_Some v))
          | _ =>
              (if bool_decide (is_Some v) then attempt (E1 := meta_error) (Server.Set_ timestamp_key (Format_RFC3339 zone t) 0) ;; mret tt else mret tt) ;;
              mret (default "1.0.0" v, t, bool_decide (is_Some v))
          end
      end
  end.

(** ** The version of a backup *)

(** The document is read as it is, whether or not backups are encrypted. *)
Definition read_snapshot (name : string) : MW BackupSnapshot :=
  m_storage ;;
  data ← Server.GetObjectBytes (Bucket (Backup config)) name;
  lift (match unmarshal_snapshot data with Some s => Ok s | None => Err BadSnapshot end).
Definition getBackupVersion (name : string) : MW string := s ← read_snapshot name; mret (s_Version s).

(** Version, time and name of the newest backup; an empty version without one. *)
Definition getLatestBackupVersionInfo : MW (string * Z * string) :=
  bs ← rm_ListBackups 30;
  match bs with
  | [] => mret ("", zero_time, "")
  | b :: _ => v ← getBackupVersion (ObjectName b); mret (v, bi_Timestamp b, ObjectName b)
  end.

(** Every error comes with an empty version. *)
Definition getEnhancedVersionInfo : MW VersionInfo :=
  '(rv, rt, ex) ← getRedisVersionWithTimestamp;
  b ← attempt getLatestBackupVersionInfo;
  match b with
  | Err _ => mret (mkVersionInfo rv "" rt zero_time redis_newer "" 10)
  | Ok (bv, bt, name) =>
      let '(st, conf) := analyzeVersionStatus rv bv rt bt ex in
      mret (mkVersionInfo rv bv rt bt st name conf)
  end.

(** ** Backup and recovery *)

Definition validateBackupSuccess : MW unit :=
  bs ← rm_ListBackups 1;
  t ← asks now;
  match bs with
  | [] => throw NoBackupFound
  | b :: _ => if 5 * 60 * second <? time_Sub t (bi_Timestamp b) then throw BackupTooOld else mret tt
  end.

Definition performSafeBackup (nonce : option (list Z)) (vi : VersionInfo) : MW unit :=
  current ← getEnhancedVersionInfo;
  if bool_decide (Status current <> Status vi) then throw StatusChanged else
  bm_performBackup nonce ;;
  validateBackupSuccess.

Definition validateBackupIntegrity (name : string) : MW unit :=
  if bool_decide (name = "") then throw EmptyName else getBackupVersion name ;; mret tt.

(** The snapshot of the data is only a name. *)
Definition createDataSnapshot : MW string := t ← asks now; mret ("snapshot-" +:+ Itoa (t / second)).
Definition rollbackToSnapshot (snapshotName : string) : MW unit := mret tt.
Definition cleanupSnapshot (snapshotName : string) : MW unit := mret tt.
Definition updateVersionAfterRecovery : string -> MW unit := setCurrentVersion.

Definition safe_options : RecoveryOptions := mkOptions None None [] [] RecoveryModeComplete true true false.

Definition performSafeRecovery (vi : VersionInfo) : MW unit :=
  validateBackupIntegrity (BackupObjectName vi) ;;
  snapshotName ← createDataSnapshot;
  r ← rm_RecoverFromBackup (BackupObjectName vi) safe_options;
  match r.2 with
  | Some e => (if bool_decide (snapshotName <> "") then rollbackToSnapshot snapshotName else mret tt) ;; throw e
  | None =>
      if negb (Success r.1) || (0 <? EntriesError r.1) then throw RecoveryErrors else
      attempt (E1 := meta_error) (updateVersionAfterRecovery (BackupVersion vi)) ;;
      cleanupSnapshot snapshotName
  end.

(** ** Consistency *)

Definition performSyncCheck (name : string) : MW SyncCheckResult :=
  current ← getCurrentMetadata;
  s ← read_snapshot name;
  mret (mkSyncCheck (Zlength current) (Zlength (compareMetadata current (s_Entries s))) false).

Definition performDeepDataValidation (name : string) : DeepValidationResult := mkDeep 0 0 [].
Definition validateTimestampConsistency (vi : VersionInfo) : bool :=
  duration_Abs (time_Sub (RedisTimestamp vi) (BackupTimestamp vi)) <=? one_hour.

Definition consistency_report (basic : SyncCheckResult) (deep : DeepValidationResult) (vi : VersionInfo) : ConsistencyReport :=
  mkReport basic deep (validateTimestampConsistency vi)
    (if 0 <? IssuesFound deep then degraded else if 0 <? InconsistenciesFound basic then inconsistent else healthy).

Definition performAutoRepair (vi : VersionInfo) (r : ConsistencyReport) : MW unit :=
  if 0 <? InconsistenciesFound (BasicCheck r) then performSafeRecovery vi else mret tt.

Definition performEnhancedConsistencyCheck (vi : VersionInfo) : MW ConsistencyReport :=
  basic ← performSyncCheck (BackupObjectName vi);
  let report := consistency_report basic (performDeepDataValidation (BackupObjectName vi)) vi in
  (match OverallStatus report with
   | inconsistent => if AutoRepair config then performAutoRepair vi report else mret tt
   | _ => mret tt
   end) ;;
  mret report.

Definition performConsistencyCheck (name : string) : MW (list inconsistency) :=
  rm_ValidateBackup name ;;
  current ← getCurrentMetadata;
  s ← read_snapshot name;
  mret (compareMetadata current (s_Entries s)).

(** ** Conflicts *)

Definition resolveHighConfidenceConflict (nonce : option (list Z)) (vi : VersionInfo) : MW unit :=
  if RedisTimestamp vi <? BackupTimestamp vi then performSafeRecovery vi else performSafeBackup nonce vi.

Definition handleVersionConflict (nonce : option (list Z)) (vi : VersionInfo) : MW unit :=
  if 7 <=? Confidence vi then attempt (E1 := meta_error) (resolveHighConfidenceConflict nonce vi) ;; mret tt else mret tt.

(** The time of a backup is one of UTC. *)
Definition recoverVersionFromBackup (vi : VersionInfo) : MW unit :=
  if bool_decide (BackupVersion vi = "") then setCurrentVersion "1.0.0" else
  setCurrentVersion (BackupVersion vi) ;;
  m_getRedisClient ;;
  attempt (E1 := meta_error) (Server.Set_ timestamp_key (Format_RFC3339 0 (BackupTimestamp vi)) 0) ;;
  mret tt.

(** ** The start *)

(** What is done for a status; the errors are logged. *)
Definition sync_action (nonce : option (list Z)) (vi : VersionInfo) : MW unit :=
  match Status vi with
  | redis_newer => attempt (E1 := meta_error) (performSafeBackup nonce vi) ;; mret tt
  | backup_newer => attempt (E1 := meta_error) (performSafeRecovery vi) ;; mret tt
  | versions_equal => attempt (E1 := meta_error) (performEnhancedConsistencyCheck vi) ;; mret tt
  | version_conflict => handleVersionConflict nonce vi
  | redis_version_lost => attempt (E1 := meta_error) (recoverVersionFromBackup vi) ;; mret tt
  end.

Definition performStartupSync (nonce : option (list Z)) : MW unit :=
  lock ← attempt (acquireDistributedLock sync_lock (30 * second));
  match lock with
  | Ok true =>
      vi ← attempt getEnhancedVersionInfo;
      (match vi with Ok vi => sync_action nonce vi | Err _ => mret tt end) ;;
      attempt (E1 := meta_error) (releaseDistributedLock sync_lock) ;;
      mret tt
  | _ => mret tt
  end.
End manager.
