(* ===== verification/MetadataFrames.v ===== *)
(** * What the metadata manager may change

    The order of the versions, and for any answers of the servers: which keys
    and objects each operation can change, that a recovery which does not
    overwrite keeps every key that is there, and that the cleanup removes only
    old backups of its own node. *)

From S2P Require Import Prelude GoStrings GoTime GoFloat FieldMapping GoCrypto RedisStore MetadataStore MetadataBackup MetadataSync.
From Stdlib Require Import Ascii.
#[local] Open Scope Z_scope.

(** ** Versions *)

Definition version (a b c : Z) : string := Itoa a +:+ "." +:+ Itoa b +:+ "." +:+ Itoa c.

Lemma Itoa_no_dot z : has_char "." (Itoa z) = false.
Proof.
  assert (forall p, has_char "." (Itoa (Z.pos p)) = false) as H by (intros p; apply (all_chars_has is_digit); [done|by apply Itoa_digits]).
  destruct z as [|p|p]; [done|apply H|]. change (Itoa (Z.neg p)) with (String "-" (Itoa (Z.pos p))).
  change (has_char "." (String "-" (Itoa (Z.pos p)))) with (has_char "." (Itoa (Z.pos p))). apply H.
Qed.

Lemma string_app_nil_l s : "" +:+ s = s.
Proof. done. Qed.

Lemma version_parts_version a b c : version_parts (version a b c) = [Itoa a; Itoa b; Itoa c].
Proof.
  unfold version_parts, version. rewrite !(string_cons_app "."), !string_app_nil_l.
  rewrite (Split_app "."), (Split_app "."), (Split_none ".") by apply Itoa_no_dot. done.
Qed.

(** The order of the numbers, the first that differ deciding. *)
Definition compare3 (a b c a' b' c' : Z) : comparison :=
  match a ?= a' with Eq => match b ?= b' with Eq => c ?= c' | o => o end | o => o end.
Definition sign_of (o : comparison) : Z := match o with Lt => -1 | Eq => 0 | Gt => 1 end.

Lemma compareVersions_numbers a b c a' b' c' :
  in_int64 a -> in_int64 b -> in_int64 c -> in_int64 a' -> in_int64 b' -> in_int64 c' ->
  compareVersions (version a b c) (version a' b' c') = sign_of (compare3 a b c a' b' c').
Proof.
  intros Ha Hb Hc Ha' Hb' Hc'. unfold compareVersions. rewrite !version_parts_version. cbn [compare_first].
  unfold compare_parts, compare3. rewrite !ParseInt64_Itoa by done.
  destruct (a ?= a'); [|done..]. destruct (b ?= b'); [|done..]. by destruct (c ?= c').
Qed.

Lemma incrementVersion_version a b c : in_int64 c -> incrementVersion (version a b c) = version a b (int64 (c + 1)).
Proof.
  intros Hc. unfold incrementVersion. rewrite version_parts_version. cbn [nth]. rewrite ParseInt64_Itoa by done. done.
Qed.

(** Versions of three numbers are compared number by number and not as texts,
    and the version of the next backup is newer than the one before, as long
    as the last number does not overflow. *)
Theorem next_version_newer (a b c a' b' c' : Z) :
  in_int64 a -> in_int64 b -> in_int64 c -> in_int64 a' -> in_int64 b' -> in_int64 c' ->
  compareVersions (version a b c) (version a' b' c') = sign_of (compare3 a b c a' b' c') /\
  (c < max_int64 -> compareVersions (incrementVersion (version a b c)) (version a b c) = 1).
Proof.
  intros. split; [by apply compareVersions_numbers|]. intros Hc.
  assert (in_int64 (c + 1)) by (unfold in_int64, min_int64, max_int64 in *; lia).
  rewrite incrementVersion_version, int64_small, compareVersions_numbers by done. unfold compare3.
  rewrite !Z.compare_refl. destruct (Z.compare_spec (c + 1) c); [lia|lia|done].
Qed.

(** The number after the largest is the smallest. *)
Example version_overflows :
  incrementVersion (version 1 0 max_int64) = version 1 0 min_int64 /\
  compareVersions (incrementVersion (version 1 0 max_int64)) (version 1 0 max_int64) = -1.
Proof. vm_compute. done. Qed.

(** ** Frames *)

(** What a key holds and until when. *)
Definition contents (w : world) (key : string) : option (rvalue * option Z) := (fun c => (held c, deadline c)) <$> db w !! key.

(** The keys outside [P] hold what they held. *)
Definition kept (P : string -> Prop) (w w' : world) : Prop := forall key, ~ P key -> contents w' key = contents w key.
(** And the objects are the same. *)
Definition read_only (P : string -> Prop) (w w' : world) : Prop := kept P w w' /\ objects w' = objects w.

#[export] Instance kept_preorder P : PreOrder (kept P).
Proof. split; [by intros w key | intros w1 w2 w3 H1 H2 key Hk; by rewrite H2, H1]. Qed.
#[export] Instance read_only_preorder P : PreOrder (read_only P).
Proof. split; [by intros w; split | intros w1 w2 w3 [H1 E1] [H2 E2]; split; [by etrans | congruence]]. Qed.

Lemma read_only_kept P w w' : read_only P w w' -> kept P w w'.
Proof. by intros []. Qed.

(** A relation that does not mention the clock, the script or the counters. *)
Class Untimed (R : world -> world -> Prop) : Prop := {
  untimed_pre :: PreOrder R;
  untimed w w' : db w' = db w -> objects w' = objects w -> R w w';
}.
#[export] Instance kept_untimed P : Untimed (kept P).
Proof. split; [apply _|]. intros w w' Hd Ho key Hk. unfold contents. by rewrite Hd. Qed.
#[export] Instance read_only_untimed P : Untimed (read_only P).
Proof. split; [apply _|]. intros w w' Hd Ho. split; [by apply untimed | done]. Qed.

Section calls.
Context (R : world -> world -> Prop) `{!Untimed R}.

Lemma keeps_call {A} (f : world -> result meta_error A * world) : (forall w, R w (f w).2) -> keeps R (call f).
Proof.
  intros Hf w. unfold call. destruct (next_call (net w)) as [[a d] l].
  set (w1 := mkWorld _ _ _ _ _ _). assert (R w w1) as H1 by (by apply untimed).
  destruct a; cbn [fst snd]; [etrans; [exact H1 | apply Hf]..|done].
Qed.
Lemma keeps_pure {A} (f : world -> result meta_error A) : keeps R (fun w => (f w, w)).
Proof. intros w. reflexivity. Qed.
Lemma keeps_modifies {E} (f : world -> world) : (forall w, R w (f w)) -> keeps R (modifies f : M world E unit).
Proof. intros Hf w. apply Hf. Qed.
Lemma keeps_const {A} (f : world -> A) : keeps R (call (fun w => (Ok (f w), w))).
Proof. apply keeps_call. intros w. reflexivity. Qed.
End calls.

Lemma contents_touch key w k : contents (touch key w) k = contents w k.
Proof.
  unfold touch, live, contents. destruct (db w !! key) as [c|] eqn:E; cbn; [|done]. destruct (alive (now w) c); [|done].
  cbn. destruct (decide (k = key)) as [->|Hn]; [by rewrite lookup_insert_eq, E | by rewrite lookup_insert_ne].
Qed.
Lemma read_only_touch P key w : read_only P w (touch key w).
Proof. split; [intros k _; apply contents_touch|]. unfold touch. by destruct (live w key). Qed.

Lemma contents_write key v d w k : k <> key -> contents (Server.write key v d w) k = contents w k.
Proof. intros Hn. unfold contents, Server.write. cbn. by rewrite lookup_insert_ne. Qed.
Lemma contents_write_eq key v d w : contents (Server.write key v d w) key = Some (v, d).
Proof. unfold contents, Server.write. cbn. by rewrite lookup_insert_eq. Qed.
Lemma read_only_write (P : string -> Prop) key v d w : P key -> read_only P w (Server.write key v d w).
Proof. intros HP. split; [|done]. intros k Hk. apply contents_write. by intros ->. Qed.

(** ** Commands *)

Section commands.
Context (P : string -> Prop).
Abbreviation RO := (read_only P).

Lemma Keys_ro p : keeps RO (Server.Keys p).
Proof. apply (keeps_const RO). Qed.
Lemma Type_ro key : keeps RO (Server.Type_ key).
Proof. apply (keeps_const RO). Qed.
Lemma TTL_ro key : keeps RO (Server.TTL key).
Proof. apply (keeps_const RO). Qed.
Lemma ObjectIdleTime_ro key : keeps RO (Server.ObjectIdleTime key).
Proof. apply (keeps_const RO). Qed.
Lemma Exists_ro key : keeps RO (Server.Exists key).
Proof. apply (keeps_const RO). Qed.
Lemma ListObjects_ro b p : keeps RO (Server.ListObjectsSimple b p).
Proof. apply (keeps_const RO). Qed.
Lemma Get_ro key : keeps RO (Server.Get key).
Proof. apply (keeps_call RO). intros w. apply read_only_touch. Qed.
Lemma HGetAll_ro key : keeps RO (Server.HGetAll key).
Proof. apply (keeps_call RO). intros w. apply read_only_touch. Qed.
Lemma SMembers_ro key : keeps RO (Server.SMembers key).
Proof. apply (keeps_call RO). intros w. apply read_only_touch. Qed.
Lemma GetObjectBytes_ro b n : keeps RO (Server.GetObjectBytes b n).
Proof. apply (keeps_call RO). intros w. reflexivity. Qed.

Lemma Set_ro key v ttl : P key -> keeps RO (Server.Set_ key v ttl).
Proof. intros HP. apply (keeps_call RO). intros w. by apply read_only_write. Qed.
Lemma SetNX_ro key v ttl : P key -> keeps RO (Server.SetNX key v ttl).
Proof. intros HP. apply (keeps_call RO). intros w. destruct (live w key); [reflexivity | by apply read_only_write]. Qed.
Lemma Incr_ro key : P key -> keeps RO (Server.Incr key).
Proof.
  intros HP. apply (keeps_call RO). intros w. destruct (live w key) as [c|]; [|by apply read_only_write].
  destruct (held c); [|apply read_only_touch..]. destruct (ParseInt64 s) as [n|]; [|apply read_only_touch].
  destruct (n =? max_int64); [apply read_only_touch | by apply read_only_write].
Qed.
Lemma DelIfEqual_ro key v : P key -> keeps RO (Server.DelIfEqual key v).
Proof.
  intros HP. apply (keeps_call RO). intros w. destruct (live w key) as [c|]; [|reflexivity].
  destruct (held c); [|apply read_only_touch..]. case_bool_decide; [|apply read_only_touch].
  split; [|done]. intros k Hk. unfold contents. cbn. rewrite lookup_delete_ne; [done|]. by intros ->.
Qed.

(** The key a command of a transaction names. *)
Definition cmd_key (c : Server.pcmd) : string :=
  match c with Server.PSet k _ _ => k | Server.PHMSet k _ => k | Server.PSAdd k _ => k | Server.PExpire k _ => k end.

Lemma run1_ro c w : P (cmd_key c) -> RO w (Server.run1 c w).2.
Proof.
  intros HP. destruct c as [k v t|k fs|k l|k t]; cbn in *; [by apply read_only_write|..];
    (destruct (live w k) as [c|]; [|first [by apply read_only_write | reflexivity]]);
    [destruct (held c)..|by apply read_only_write]; first [apply read_only_touch | by apply read_only_write].
Qed.
Lemma run_all_ro cs w : Forall (fun c => P (cmd_key c)) cs -> RO w (Server.run_all cs w).2.
Proof.
  revert w. induction cs as [|c cs IH]; intros w Hc; [reflexivity|]. apply Forall_cons in Hc as [H1 H2]. cbn [Server.run_all].
  pose proof (run1_ro c w H1) as H. destruct (Server.run1 c w) as [o1 w1]. specialize (IH w1 H2).
  destruct (Server.run_all cs w1). cbn in *. by etrans.
Qed.
Lemma Exec_ro cs : Forall (fun c => P (cmd_key c)) cs -> keeps RO (Server.Exec cs).
Proof.
  intros Hc. unfold Server.Exec. destruct cs as [|c cs]; [apply (keeps_ret RO)|].
  destruct (negb _); [apply (keeps_throw RO)|]. apply (keeps_call RO). intros w. destruct (existsb _ _); [reflexivity|].
  pose proof (run_all_ro (c :: cs) w Hc) as H. by destruct (Server.run_all (c :: cs) w) as [[] w1].
Qed.
Lemma lift_ro {A} (r : result meta_error A) : keeps RO (lift r).
Proof. intros w. reflexivity. Qed.
Lemma client_ro st : keeps RO (getRedisClient st).
Proof. intros w. reflexivity. Qed.
Lemma store_ro st : keeps RO (object_store st).
Proof. intros w. reflexivity. Qed.

Lemma keeps_kept {E A} (m : M world E A) : keeps RO m -> keeps (kept P) m.
Proof. intros Hm w. apply Hm. Qed.
Lemma PutObject_kept b n d : keeps (kept P) (Server.PutObject b n d).
Proof. apply (keeps_call (kept P)). intros w key _. done. Qed.
Lemma DeleteObject_kept b n : keeps (kept P) (Server.DeleteObject b n).
Proof. apply (keeps_call (kept P)). intros w key _. done. Qed.
End commands.

Create HintDb meta.
#[export] Hint Resolve keeps_ret keeps_throw keeps_asks keeps_attempt keeps_on_error Keys_ro Type_ro TTL_ro ObjectIdleTime_ro
  Exists_ro ListObjects_ro Get_ro HGetAll_ro SMembers_ro GetObjectBytes_ro Set_ro SetNX_ro Incr_ro DelIfEqual_ro Exec_ro
  lift_ro client_ro store_ro PutObject_kept DeleteObject_kept : meta.

#[export] Hint Extern 0 (PreOrder _) => typeclasses eauto : meta.

(** Steps through a computation, one case at a time. *)
Ltac frames := repeat (first
  [ solve [eauto with meta]
  | solve [apply keeps_kept; eauto with meta]
  | apply keeps_bind; [apply _| |intros]
  | apply keeps_attempt
  | match goal with |- keeps _ (match ?x with _ => _ end) => destruct x end ]).

(** ** Operations *)

(** The keys that the check at the start and the backups write themselves. *)
Definition own_keys : list string :=
  [sync_lock; version_key; timestamp_key; backupStateKey; backupLastFullTimeKey; backupLastFullVersion; backupIncrementalCount].
Definition own_key (key : string) : Prop := key ∈ own_keys.

Lemma gather_ro P f ks : (forall k, keeps (read_only P) (f k)) -> keeps (read_only P) (gather f ks).
Proof. intros Hf. induction ks as [|k ks IH]; cbn [gather]; frames. Qed.
Lemma gather_patterns_ro P f ps : (forall k, keeps (read_only P) (f k)) -> keeps (read_only P) (gather_patterns f ps).
Proof. intros Hf. induction ps as [|p ps IH]; cbn [gather_patterns]; frames. by apply gather_ro. Qed.
Lemma collect_parts_ro P ms : Forall (keeps (read_only P)) ms -> keeps (read_only P) (collect_parts ms).
Proof. induction 1 as [|m ms Hm Hms IH]; cbn [collect_parts]; frames. Qed.

Lemma typed_entry_ro P t s b key : keeps (read_only P) (typed_entry t s b key).
Proof. unfold typed_entry, ttl_of, value_of. frames. Qed.
Lemma index_entry_ro P key : keeps (read_only P) (index_entry key).
Proof. unfold index_entry. frames. Qed.
Lemma schema_entry_ro P key : keeps (read_only P) (schema_entry key).
Proof. unfold schema_entry. frames. Qed.
Lemma if_changed_ro P since f key : keeps (read_only P) (f key) -> keeps (read_only P) (if_changed since f key).
Proof. intros Hf. unfold if_changed. frames. Qed.
#[export] Hint Resolve gather_ro gather_patterns_ro collect_parts_ro typed_entry_ro index_entry_ro schema_entry_ro if_changed_ro : meta.

Lemma collectMetadata_ro P st : keeps (read_only P) (collectMetadata st).
Proof.
  unfold collectMetadata, collectServiceRegistry, collectDataIndex, collectTableSchema, collectClusterInfo, service_entry, cluster_entry.
  frames.
Qed.
Lemma collectIncremental_ro P st since : keeps (read_only P) (collectMetadataIncremental st since).
Proof.
  unfold collectMetadataIncremental, collectServiceRegistryIncremental, collectDataIndexIncremental,
    collectTableSchemaIncremental, collectClusterInfoIncremental, service_entry, cluster_entry.
  frames.
Qed.
#[export] Hint Resolve collectMetadata_ro collectIncremental_ro : meta.
#[export] Hint Extern 1 (own_key _) => (apply (bool_decide_unpack _); vm_compute; exact I) : meta.

Section operations.
Context {J : SnapshotJSON}.

Lemma ListBackups_ro P st n b d : keeps (read_only P) (ListBackups st n b d).
Proof. unfold ListBackups. frames. Qed.
Lemma changed_entries_ro P st : keeps (read_only P) (changed_entries st).
Proof. unfold changed_entries, determineBackupMode, getLastFullBackupTime, getLastBackupTime. frames. Qed.
Hint Resolve ListBackups_ro changed_entries_ro : meta.

Lemma updateBackupState_ro st zone m t v : keeps (read_only own_key) (updateBackupState st zone m t v).
Proof. unfold updateBackupState. frames. Qed.
Lemma getCurrentAndIncrementVersion_ro st : keeps (read_only own_key) (getCurrentAndIncrementVersion st).
Proof. unfold getCurrentAndIncrementVersion. frames. Qed.
Hint Resolve updateBackupState_ro getCurrentAndIncrementVersion_ro : meta.

(** A backup changes no metadata but its own keys. *)
Lemma performBackup_kept st n c zone nonce : keeps (kept own_key) (performBackup st n c zone nonce).
Proof.
  unfold performBackup, getLastFullBackupVersion. frames; apply keeps_kept; by frames.
Qed.
End operations.
#[export] Hint Resolve ListBackups_ro performBackup_kept : meta.

(** ** What a returned value says of the state *)

Lemma bind_run {A B} (m : MW A) (f : A -> MW B) w :
  (m ≫= f) w = match m w with (Ok a, w1) => f a w1 | (Err e, w1) => (Err e, w1) end.
Proof. done. Qed.
Lemma bind_ok_inv {A B} (m : MW A) (f : A -> MW B) w b w' :
  (m ≫= f) w = (Ok b, w') -> exists a w1, m w = (Ok a, w1) /\ f a w1 = (Ok b, w').
Proof. unfold mbind, M_bind. destruct (m w) as [[a|e] w1]; [|done]. intros H. by exists a, w1. Qed.
Lemma attempt_ok_inv {A} (m : MW A) w r w' : (attempt m : MW _) w = (Ok r, w') -> m w = (r, w').
Proof. unfold attempt. destruct (m w) as [r1 w1]. by intros [= -> ->]. Qed.
Lemma call_inv {A} (f : world -> result meta_error A * world) w a w' : call f w = (Ok a, w') ->
  exists d l, f (mkWorld (db w) (objects w) (now w + d) l (mode w) (stats w)) = (Ok a, w').
Proof. unfold call. destruct (next_call (net w)) as [[[] d] l]; [|done..]. intros H. by exists d, l. Qed.

Lemma Get_inv key w v w' : Server.Get key w = (Ok (Some v), w') -> exists d, contents w key = Some (RString v, d).
Proof.
  intros (d & l & H)%call_inv. cbv beta in H. apply (f_equal fst) in H. cbn [fst] in H.
  unfold live in H. cbn [db now] in H. unfold contents. destruct (db w !! key) as [c|]; cbn in *; [|done].
  destruct (alive _ c); cbn in *; [|done]. exists (deadline c). destruct (held c); [by injection H as ->|done..].
Qed.
Lemma GetObjectBytes_inv b n w data w' : Server.GetObjectBytes b n w = (Ok data, w') ->
  exists o, objects w !! (b, n) = Some o /\ obj_data o = data.
Proof.
  intros (d & l & H)%call_inv. cbn in H. destruct (objects w !! (b, n)) as [o|]; [|done]. injection H as <- _. by exists o.
Qed.
Lemma ListObjects_inv b p w os w' : Server.ListObjectsSimple b p w = (Ok os, w') ->
  forall o, o ∈ os -> String.prefix p (Server.Name o) = true /\
    exists x, objects w !! (b, Server.Name o) = Some x /\ Server.Modified o = LastModified x.
Proof.
  intros (d & l & H)%call_inv o Ho. cbn in H. injection H as <- _. rewrite merge_sort_Permutation in Ho.
  apply list_elem_of_omap in Ho as ([[b' n'] x] & Hx%elem_of_map_to_list & Hb). unfold Server.below in Hb. cbn in Hb.
  case_bool_decide; [|done]. subst b'. destruct (String.prefix p n') eqn:Hp; [|done]. injection Hb as <-. cbn. eauto.
Qed.

Section newest.
Context {J : SnapshotJSON}.

Lemma ListBackups_inv st n b d w bs w' : ListBackups st n b d w = (Ok bs, w') ->
  forall x, x ∈ bs -> String.prefix (own_prefix n) (ObjectName x) = true /\ parseBackupTimestamp (ObjectName x) = Some (bi_Timestamp x).
Proof.
  intros ([] & w1 & _ & H)%bind_ok_inv x Hx. apply bind_ok_inv in H as (os & w2 & Hl & H). apply bind_ok_inv in H as (t & w3 & _ & H).
  injection H as <- _. rewrite merge_sort_Permutation in Hx. apply list_elem_of_omap in Hx as (o & Ho & Hi).
  unfold info_of in Hi. destruct (_ <? _); [done|]. destruct (parseBackupTimestamp (Server.Name o)) eqn:Hp; [|done].
  injection Hi as <-. cbn. split; [|done]. by destruct (ListObjects_inv _ _ _ _ _ Hl o Ho).
Qed.

Context (u : option unified) (cache : option client) (nodeID : string) (config : Config) (zone : Z).

Definition is_version (w : world) (v : string) : Prop := exists d, contents w version_key = Some (RString v, d).
(** A backup of the node with a version. *)
Definition has_backup (w : world) (v : string) : Prop := exists name o s,
  String.prefix (own_prefix nodeID) name = true /\ objects w !! (Bucket (Backup config), name) = Some o /\
  unmarshal_snapshot (obj_data o) = Some s /\ s_Version s = v.

Lemma getRedisVersion_inv w rv rt w' :
  getRedisVersionWithTimestamp u cache zone w = (Ok (rv, rt, true), w') -> is_version w rv.
Proof.
  unfold getRedisVersionWithTimestamp. intros (c & w1 & Hc%attempt_ok_inv & H)%bind_ok_inv.
  assert (w1 = w) as -> by (by injection Hc as _ <-).
  destruct c as [[]|]; [|apply bind_ok_inv in H as (t & w2 & _ & H); done].
  apply bind_ok_inv in H as (v & w2 & Hv%attempt_ok_inv & H).
  destruct v as [v|]; [|apply bind_ok_inv in H as (t & w3 & _ & H); done].
  destruct v as [v|]; [apply Get_inv in Hv|].
  - cbn [default] in H. apply bind_ok_inv in H as (ts & w3 & _ & H). apply bind_ok_inv in H as (t & w4 & _ & H).
    destruct ts as [[s|]|]; [|apply bind_ok_inv in H as ([] & w5 & _ & H)..]; by injection H as -> _ _.
  - cbn [default] in H. apply bind_ok_inv in H as (ts & w3 & _ & H). apply bind_ok_inv in H as (t & w4 & _ & H).
    destruct ts as [[s|]|]; [|apply bind_ok_inv in H as ([] & w5 & _ & H)..]; done.
Qed.

Lemma getLatest_inv w bv bt name w' : getLatestBackupVersionInfo u nodeID config w = (Ok (bv, bt, name), w') -> bv <> "" -> has_backup w bv.
Proof.
  unfold getLatestBackupVersionInfo. intros (bs & w1 & Hl & H)%bind_ok_inv Hv. destruct bs as [|b bs]; [by injection H as <-|].
  apply bind_ok_inv in H as (v & w2 & Hb & H). injection H as <- <- <- _.
  unfold rm_ListBackups in Hl. pose proof (ListBackups_inv _ _ _ _ _ _ _ Hl b ltac:(set_solver)) as [Hp _].
  assert (objects w1 = objects w) as Ho.
  { pose proof (ListBackups_ro (fun _ => False) (backup_storages u) nodeID (Recovery_Bucket config) 30 w) as [_ Hr]. by rewrite Hl in Hr. }
  apply bind_ok_inv in Hb as (s & w3 & Hs & Hb). injection Hb as Hb _. apply bind_ok_inv in Hs as ([] & w4 & H4 & Hs).
  assert (w4 = w1) as -> by (by injection H4 as _ <-). apply bind_ok_inv in Hs as (data & w5 & Hd & Hs).
  apply GetObjectBytes_inv in Hd as (o & Ho' & <-). unfold lift in Hs.
  destruct (unmarshal_snapshot (obj_data o)) eqn:Hu; [|done]. injection Hs as -> _. rewrite Ho in Ho'. by exists (ObjectName b), o, s.
Qed.

Lemma backup_newer_inv w vi w' : getEnhancedVersionInfo u cache nodeID config zone w = (Ok vi, w') ->
  (Status vi = backup_newer -> exists v bv, is_version w v /\ has_backup w bv /\ compareVersions v bv = -1) /\
  (Status vi = version_conflict -> Confidence vi = 5).
Proof.
  unfold getEnhancedVersionInfo. intros ([[rv rt] ex] & w1 & Hr & H)%bind_ok_inv. apply bind_ok_inv in H as (b & w2 & Hb%attempt_ok_inv & H).
  destruct b as [[[bv bt] name]|]; [|by injection H as <- _].
  destruct (analyzeVersionStatus rv bv rt bt ex) as [st conf] eqn:Ha. injection H as <- _. cbn.
  unfold analyzeVersionStatus in Ha. destruct ex; [|cbn in Ha; case_bool_decide; by injection Ha as <- <-]. cbn [negb] in Ha.
  case_bool_decide as Hv; [by injection Ha as <- <-|].
  assert (has_backup w bv) as Hbk.
  { destruct (getLatest_inv _ _ _ _ _ Hb Hv) as (nm & o & s & H1 & H2 & H3 & H4). exists nm, o, s. split_and!; try done.
    enough (objects w1 = objects w) as <- by done.
    assert (keeps (read_only own_key) (getRedisVersionWithTimestamp u cache zone)) as Hk
      by (unfold getRedisVersionWithTimestamp, m_getRedisClient; frames).
    destruct (Hk w) as [_ E]. by rewrite Hr in E. }
  destruct (Z.eqb_spec (compareVersions rv bv) 1); [destruct (time_Sub rt bt <? - one_hour); by injection Ha as <- <-|].
  destruct (Z.eqb_spec (compareVersions rv bv) (-1)) as [Hc|]; [|].
  - injection Ha as <- <-. split; [|done]. intros _. exists rv, bv. split_and!; [by eapply getRedisVersion_inv|done..].
  - assert (compareVersions rv bv = 1 \/ compareVersions rv bv = -1 \/ compareVersions rv bv = 0) as Hcases.
    { unfold compareVersions. generalize (version_parts rv), (version_parts bv). generalize 3%nat as k.
      induction k as [|k IH]; intros [|p l] [|q l']; cbn; auto. destruct (compare_parts p q); auto. }
    destruct (Z.eqb_spec (compareVersions rv bv) 0); [by injection Ha as <- <-|].
    lia.
Qed.

Lemma setCurrentVersion_ro v : keeps (read_only own_key) (setCurrentVersion u cache zone v).
Proof. unfold setCurrentVersion, m_getRedisClient. frames. Qed.
Hint Resolve setCurrentVersion_ro : meta.

Lemma getEnhancedVersionInfo_ro : keeps (read_only own_key) (getEnhancedVersionInfo u cache nodeID config zone).
Proof.
  unfold getEnhancedVersionInfo, getRedisVersionWithTimestamp, m_getRedisClient, getLatestBackupVersionInfo, rm_ListBackups,
    getBackupVersion, read_snapshot, m_storage. frames; apply (keeps_pure (read_only own_key)).
Qed.
Hint Resolve getEnhancedVersionInfo_ro : meta.

Lemma performSafeBackup_kept nonce vi : keeps (kept own_key) (performSafeBackup u cache nodeID config zone nonce vi).
Proof.
  unfold performSafeBackup, bm_performBackup, validateBackupSuccess, rm_ListBackups.
  frames; apply keeps_kept; frames.
Qed.
Lemma consistency_ro vi : AutoRepair config = false ->
  keeps (read_only own_key) (performEnhancedConsistencyCheck u cache config zone vi).
Proof.
  intros Ha. unfold performEnhancedConsistencyCheck, performSyncCheck, getCurrentMetadata, read_snapshot, m_storage. rewrite Ha.
  frames; apply (keeps_pure (read_only own_key)).
Qed.
Lemma recoverVersion_ro vi : keeps (read_only own_key) (recoverVersionFromBackup u cache zone vi).
Proof. unfold recoverVersionFromBackup, m_getRedisClient. frames. Qed.

Hint Resolve performSafeBackup_kept consistency_ro recoverVersion_ro : meta.

Lemma sync_action_kept nonce vi : AutoRepair config = false -> Status vi <> backup_newer ->
  (Status vi = version_conflict -> Confidence vi = 5) -> keeps (kept own_key) (sync_action u cache nodeID config zone nonce vi).
Proof.
  intros Ha Hs Hc. unfold sync_action. destruct (Status vi); [|done|..].
  - frames.
  - frames.
  - unfold handleVersionConflict. rewrite Hc by done. change (7 <=? 5) with false. frames.
  - frames.
Qed.
End newest.

(** C29: Whatever the servers answer, the check at the start of a node with
    automatic repair switched off changes no key of Redis but the seven of its
    own (its lock, the version with its time, and the state of the backups),
    unless Redis holds a version older than that of one of the node's backups:
    tables, services, indexes and cluster keys are as they were. *)
Theorem startup_keeps_newer_metadata {J : SnapshotJSON} (u : option unified) (cache : option client) (nodeID : string)
    (config : Config) (zone : Z) (nonce : option (list Z)) (w : world) :
  AutoRepair config = false ->
  (forall v bv, is_version w v -> has_backup nodeID config w bv -> compareVersions v bv <> -1) ->
  kept own_key w (performStartupSync u cache nodeID config zone nonce w).2.
Proof.
  intros Ha Hold. unfold performStartupSync.
  assert (keeps (read_only (eq sync_lock)) (acquireDistributedLock u cache nodeID sync_lock (30 * second))) as Hl
    by (unfold acquireDistributedLock, m_getRedisClient; frames).
  specialize (Hl w). unfold mbind at 1, M_bind at 1, attempt at 1.
  destruct (acquireDistributedLock _ _ _ _ _ w) as [lock w1]. cbn in Hl. destruct Hl as [Hk Ho].
  assert (kept own_key w w1) as H1 by (intros k Hn; apply Hk; intros <-; apply Hn; apply (bool_decide_unpack _); vm_compute; exact I).
  destruct lock as [[]|]; [|done..]. etrans; [exact H1|].
  pose proof (getEnhancedVersionInfo_ro u cache nodeID config zone w1) as [H2 _].
  pose proof (backup_newer_inv u cache nodeID config zone w1) as Hinv.
  unfold mbind at 1, M_bind at 1, attempt at 1. destruct (getEnhancedVersionInfo _ _ _ _ _ w1) as [vi w2]. cbn in H2.
  etrans; [exact H2|].
  assert (keeps (kept own_key) (attempt (E2 := meta_error) (releaseDistributedLock u cache nodeID sync_lock) ;; mret tt)) as H3
    by (unfold releaseDistributedLock, m_getRedisClient; frames; apply keeps_kept; frames).
  apply (keeps_bind (kept own_key) (match vi with Ok vi => sync_action u cache nodeID config zone nonce vi | Err _ => mret tt end));
    [|intros []; exact H3].
  destruct vi as [vi|]; [|frames]. destruct (Hinv vi w2 eq_refl) as [Hn Hc]. apply sync_action_kept; [done| |done].
  intros Hs. destruct (Hn Hs) as (v & bv & [d Hv] & (name & o & s & Hb1 & Hb2 & Hb3 & Hb4) & Hlt). apply (Hold v bv); [|by exists name, o, s; rewrite <- Ho|done].
  exists d. rewrite <- Hk; [done|by intros [=]].
Qed.

(** * Recovery and cleanup *)


(** ** Time passes *)

Definition patient (w : world) : Prop := Forall (fun x => 0 <= x.2) (net w).
Definition later (w w' : world) : Prop := patient w -> now w <= now w' /\ patient w'.

#[export] Instance later_preorder : PreOrder later.
Proof.
  split; [by intros w H; split|]. intros w1 w2 w3 H12 H23 H1. destruct (H12 H1) as [? H2]. destruct (H23 H2). split; [lia|done].
Qed.

Lemma later_call {A} (f : world -> result meta_error A * world) :
  (forall w, now (f w).2 = now w /\ net (f w).2 = net w) -> keeps later (call f).
Proof.
  intros Hf w Hw. unfold call, patient in *. destruct (net w) as [|[a d] l] eqn:En; cbn [next_call].
  - set (w1 := mkWorld _ _ _ _ _ _). destruct (Hf w1) as [H1 H2]. rewrite H1, H2. cbn. split; [lia|done].
  - apply Forall_cons in Hw as [Hd Hw]. cbn in Hd. set (w1 := mkWorld _ _ _ _ _ _). destruct (Hf w1) as [H1 H2].
    destruct a; cbn; rewrite ?H1, ?H2; cbn; (split; [lia|done]).
Qed.

Lemma touch_clock key w : now (touch key w) = now w /\ net (touch key w) = net w.
Proof. unfold touch. by destruct (live w key). Qed.
Lemma run1_clock c w : now (Server.run1 c w).2 = now w /\ net (Server.run1 c w).2 = net w.
Proof.
  destruct c as [k v t|k fs|k l|k t]; cbn; [done|..]; (destruct (live w k) as [c|]; [|done]); [destruct (held c)..|done];
    cbn; first [done | apply touch_clock].
Qed.
Lemma run_all_clock cs w : now (Server.run_all cs w).2 = now w /\ net (Server.run_all cs w).2 = net w.
Proof.
  revert w. induction cs as [|c cs IH]; intros w; [done|]. cbn. pose proof (run1_clock c w) as [H1 H2].
  destruct (Server.run1 c w) as [o1 w1]. specialize (IH w1). destruct (Server.run_all cs w1). cbn in *. by rewrite <- H1, <- H2.
Qed.

Lemma Exec_later cs : keeps later (Server.Exec cs).
Proof.
  unfold Server.Exec. destruct cs as [|c cs]; [apply (keeps_ret later)|]. destruct (negb _); [apply (keeps_throw later)|].
  apply later_call. intros w. destruct (existsb _ _); [done|]. pose proof (run_all_clock (c :: cs) w).
  by destruct (Server.run_all (c :: cs) w) as [[] w1].
Qed.
Lemma Exists_later key : keeps later (Server.Exists key).
Proof. by apply later_call. Qed.
Lemma flush_later cs : keeps later (flush_pipe cs).
Proof. apply keeps_bind; [apply _|apply keeps_attempt, Exec_later|intros; apply (keeps_ret later)]. Qed.
Lemma recoverEntry_later o e : keeps later (recoverEntry o e).
Proof.
  unfold recoverEntry. destruct (Overwrite o); [apply (keeps_ret later)|].
  apply keeps_bind; [apply _|apply Exists_later|intros; apply (keeps_ret later)].
Qed.
Lemma recover_loop_later o es p : keeps later (recover_loop o es p).
Proof.
  revert p. induction es as [|e es IH]; intros p; cbn [recover_loop]; [apply (keeps_ret later)|].
  apply keeps_bind; [apply _|apply keeps_attempt, recoverEntry_later|]. intros [cs|x]; [|apply IH].
  case_match; [|apply IH]. apply keeps_bind; [apply _|apply flush_later|intros; apply IH].
Qed.

(** ** Keys that are there *)

Definition alive_at (t : Z) (d : option Z) : Prop := match d with None => True | Some d => t <= d end.

Lemma alive_earlier t t' d : t <= t' -> alive_at t' d -> alive_at t d.
Proof. destruct d; cbn; lia. Qed.
Lemma contents_live w key v d : contents w key = Some (v, d) -> alive_at (now w) d -> is_Some (live w key).
Proof.
  unfold contents, live. destruct (db w !! key) as [c|]; [|done]. cbn. intros [= <- <-] Ha. unfold alive.
  destruct (deadline c) as [d|]; cbn in *; [|by eexists]. rewrite (proj2 (Z.leb_le _ _)) by done. by eexists.
Qed.

Definition other (key : string) (c : Server.pcmd) : Prop := cmd_key c <> key.

Lemma entry_commands_key e : Forall (fun c => cmd_key c = e_Key e) (entry_commands e).
Proof. unfold entry_commands, with_expiry. destruct (e_Value e); repeat constructor; case_match; repeat constructor. Qed.

Lemma recoverEntry_existing o e w key v d : Overwrite o = false -> contents w key = Some (v, d) ->
  let '(r, w1) := recoverEntry o e w in
  contents w1 key = Some (v, d) /\ (alive_at (now w1) d -> match r with Ok cs => Forall (other key) cs | Err _ => True end).
Proof.
  intros Ho Hc. unfold recoverEntry. rewrite Ho.
  pose proof (Exists_ro (fun _ => False) (e_Key e) w) as [Hk _].
  assert (forall ex w1, Server.Exists (e_Key e) w = (Ok ex, w1) -> ex = bool_decide (is_Some (live w1 (e_Key e)))) as Hex.
  { intros ex w1 (x & l & H)%call_inv. by injection H as <- <-. }
  unfold mbind, M_bind. destruct (Server.Exists (e_Key e) w) as [[ex|x] w1]; cbn in *; [|split; [by rewrite Hk by tauto|done]].
  assert (contents w1 key = Some (v, d)) as Hc1 by (by rewrite Hk by tauto). split; [done|]. intros Ha.
  specialize (Hex ex w1 eq_refl). destruct (decide (e_Key e = key)) as [He|Hn].
  - rewrite He, bool_decide_eq_true_2 in Hex by (by eapply contents_live). subst ex. constructor.
  - destruct ex; [constructor|]. eapply Forall_impl; [apply entry_commands_key|]. intros c Hck. unfold other. by rewrite Hck.
Qed.

Lemma flush_other key cs w : Forall (other key) cs -> contents (flush_pipe cs w).2 key = contents w key.
Proof.
  intros Hc. assert (keeps (read_only (fun k => k <> key)) (flush_pipe cs)) as Hk.
  { apply keeps_bind; [apply _|apply keeps_attempt, Exec_ro, Hc|intros; frames]. }
  destruct (Hk w) as [H _]. by apply H; intros H0; apply H0.
Qed.

Lemma recover_loop_existing o es p w key v d :
  Overwrite o = false -> patient w -> contents w key = Some (v, d) -> Forall (other key) (pipe p) ->
  let '(r, w') := recover_loop o es p w in
  alive_at (now w') d -> contents w' key = Some (v, d) /\ match r with Ok p => Forall (other key) (pipe p) | Err _ => True end.
Proof.
  intros Ho. revert p w. induction es as [|e es IH]; intros p w Hw Hc Hp; cbn [recover_loop]; [done|].
  pose proof (recoverEntry_existing o e w key v d Ho Hc) as He. pose proof (recoverEntry_later o e w Hw) as [_ Hw1].
  unfold mbind, M_bind, attempt at 1. destruct (recoverEntry o e w) as [r w1]. cbn in Hw1. destruct He as [Hc1 He].
  destruct r as [cs|x]; [|by apply IH]. destruct (batch_size <=? S (pipeCommands p))%nat.
  - pose proof (flush_later (pipe p ++ cs) w1 Hw1) as [Ht2 Hw2]. pose proof (flush_other key (pipe p ++ cs) w1) as Hf.
    assert (exists w2, flush_pipe (pipe p ++ cs) w1 = (Ok tt, w2)) as [w2 Hfl].
    { unfold flush_pipe, mbind, M_bind, attempt. destruct (Server.Exec (pipe p ++ cs) w1) as [q w2]. by exists w2. }
    rewrite Hfl in *. cbn in Ht2, Hw2, Hf. set (p1 := mkProgress _ _ _ _ _).
    pose proof (recover_loop_later o es p1 w2 Hw2) as [Ht3 _]. specialize (IH p1 w2 Hw2).
    destruct (recover_loop o es p1 w2) as [r w']. cbn in Ht3. intros Ha.
    apply IH; [|constructor|done]. rewrite Hf; [done|]. apply Forall_app. split; [done|]. apply He.
    eapply alive_earlier; [|done]. lia.
  - set (p1 := mkProgress _ _ _ _ _). pose proof (recover_loop_later o es p1 w1 Hw1) as [Ht3 _]. specialize (IH p1 w1 Hw1 Hc1).
    destruct (recover_loop o es p1 w1) as [r w']. cbn in Ht3. intros Ha. apply IH; [|done].
    apply Forall_app. split; [done|]. apply He. by eapply alive_earlier.
Qed.

Lemma flush_pipe_ok cs w : exists w', flush_pipe cs w = (Ok tt, w').
Proof. unfold flush_pipe, mbind, M_bind, attempt. destruct (Server.Exec cs w) as [q w2]. by exists w2. Qed.

Lemma recover_all_existing o es w key v d :
  Overwrite o = false -> patient w -> contents w key = Some (v, d) -> alive_at (now (recover_all o es w).2) d ->
  contents (recover_all o es w).2 key = Some (v, d).
Proof.
  intros Ho Hw Hc. unfold recover_all.
  pose proof (recover_loop_existing o es (mkProgress [] 0 0 0 []) w key v d Ho Hw Hc ltac:(constructor)) as H.
  pose proof (recover_loop_later o es (mkProgress [] 0 0 0 []) w Hw) as [_ Hw3].
  rewrite bind_run. destruct (recover_loop o es _ w) as [[p|x] w3]; cbn [fst snd] in *; [|by intros Ha; apply H].
  destruct (0 <? pipeCommands p)%nat; [|by intros Ha; apply H].
  pose proof (flush_later (pipe p) w3 Hw3) as [Ht _]. pose proof (flush_other key (pipe p) w3) as Hf.
  destruct (flush_pipe_ok (pipe p) w3) as [w4 Hfl]. rewrite (bind_ok _ _ _ _ _ Hfl). rewrite Hfl in *. cbn [fst snd] in *. cbn. intros Ha. destruct H as [H1 H2]; [by eapply alive_earlier|]. by rewrite Hf.
Qed.

Lemma recover_snapshot_existing {J : SnapshotJSON} st name t s o w key v d :
  Overwrite o = false -> patient w -> contents w key = Some (v, d) -> alive_at (now (recover_snapshot st name t s o w).2) d ->
  contents (recover_snapshot st name t s o w).2 key = Some (v, d).
Proof.
  intros Ho Hw Hc. unfold recover_snapshot. set (es := filterEntries (s_Entries s) o).
  pose proof (recover_all_existing o es w key v d Ho Hw Hc) as H.
  destruct (Mode o); [..|done|]; unfold mbind, M_bind, attempt;
    (destruct (getRedisClient st w) as [[[]|e] w2] eqn:Hcl; assert (w2 = w) as -> by (by injection Hcl as _ <-); [|done]);
    by destruct (recover_all o es w) as [[p|x] w3].
Qed.

(** A recovery that is not told to overwrite leaves every key that is there
    until its end with the value and the deadline it had, whatever the backup
    holds and whatever the servers answer. *)
Theorem recovery_keeps_existing {J : SnapshotJSON} (st : storages) (bucket : string) (enc : bool) (ekey : list Z)
    (name : string) (o : RecoveryOptions) (w : world) (key : string) (v : rvalue) (d : option Z) :
  Overwrite o = false -> patient w -> contents w key = Some (v, d) ->
  alive_at (now (RecoverFromBackup st bucket enc ekey name o w).2) d ->
  contents (RecoverFromBackup st bucket enc ekey name o w).2 key = Some (v, d).
Proof.
  intros Ho Hw Hc. unfold RecoverFromBackup.
  assert (keeps (read_only (fun _ => False)) (downloadBackup st bucket enc ekey name)) as Hd by (unfold downloadBackup; frames).
  assert (keeps later (downloadBackup st bucket enc ekey name)) as Hl.
  { unfold downloadBackup. apply keeps_bind; [apply _|intros ? ?; by split|]. intros _.
    apply keeps_bind; [apply _|by apply later_call|]. intros data. intros ? ?. by split. }
  specialize (Hd w). specialize (Hl w Hw). destruct Hd as [Hd _]. destruct Hl as [_ Hw1].
  rewrite (bind_ok (asks now) _ w (now w) w) by done. unfold mbind, M_bind, attempt.
  destruct (downloadBackup st bucket enc ekey name w) as [[s|e] w1]; cbn [fst snd] in *; [|intros _; cbn; by rewrite Hd by tauto].
  apply recover_snapshot_existing; [done..|by rewrite Hd by tauto].
Qed.

(** ** Old backups *)

(** The cleanup of old backups removes only objects of the node's own
    backups that were last changed before the time the configuration keeps
    them for, whatever the store answers. *)
Theorem cleanup_removes_own_old {J : SnapshotJSON} (st : storages) (nodeID : string) (config : BackupConfig) (w : world) (b n : string) (x : object) :
  objects w !! (b, n) = Some x -> objects (cleanupOldBackups st nodeID config w).2 !! (b, n) = None ->
  b = Bucket config /\ String.prefix (own_prefix nodeID) n = true /\ LastModified x < cutoff (RetentionDays config) (now w).
Proof.
  intros Hx. unfold cleanupOldBackups. unfold mbind at 1 2, M_bind at 1 2, asks, mret at 1, M_ret at 1.
  unfold mbind at 1, M_bind at 1. destruct (object_store st w) as [[[]|e] w1] eqn:Hs; assert (w1 = w) as -> by (by injection Hs as _ <-);
    [|cbn; congruence].
  unfold mbind at 1, M_bind at 1. pose proof (ListObjects_ro (fun _ => False) (Bucket config) (own_prefix nodeID) w) as [_ Ho].
  destruct (Server.ListObjectsSimple _ _ w) as [[os|e] w1] eqn:Hl; cbn [fst snd] in *; [|congruence].
  pose proof (ListObjects_inv _ _ _ _ _ Hl) as Hin. clear Hl. intros Hgone. rewrite <- Ho in Hin, Hx. clear Ho Hs.
  set (t := cutoff (RetentionDays config) (now w)) in *. clearbody t.
  assert (exists o, o ∈ os /\ (Server.Modified o <? t) = true /\ (b, n) = (Bucket config, Server.Name o)) as (o & Hoin & Hm & [= -> ->]).
  { clear Hin. revert w1 Hx Hgone. induction os as [|o os IH]; intros w1 Hx Hgone; cbn [each] in Hgone; [cbn in Hgone; congruence|].
    unfold mbind at 1, M_bind at 1 in Hgone. destruct (Server.Modified o <? t) eqn:Hm.
    - destruct (decide ((b, n) = (Bucket config, Server.Name o))) as [E|Hn]; [exists o; split_and!; [set_solver|done..]|].
      assert (objects (Server.DeleteObject (Bucket config) (Server.Name o) w1).2 !! (b, n) = Some x) as Hx1.
      { unfold Server.DeleteObject, call. destruct (next_call (net w1)) as [[[] d] l]; cbn; [rewrite lookup_delete_ne by congruence..|]; done. }
      unfold mbind at 1, M_bind at 1, attempt in Hgone. destruct (Server.DeleteObject _ _ w1) as [q w2]. cbn in Hx1, Hgone.
      destruct (IH w2 Hx1 Hgone) as (o' & H1 & H2 & H3). exists o'. split_and!; [set_solver|done..].
    - cbn in Hgone. destruct (IH w1 Hx Hgone) as (o' & H1 & H2 & H3). exists o'. split_and!; [set_solver|done..]. }
  destruct (Hin o Hoin) as (Hp & x' & Hx' & HM). rewrite Hx in Hx'. injection Hx' as <-. split_and!; [done..|].
  apply Z.ltb_lt in Hm. lia.
Qed.
