(* ===== verification/MetadataRoundtrip.v ===== *)
(** * A backup is restored

    While the servers answer and no key expires, a backup collects every key it
    covers, with its value, and each once. A full backup in quiet times writes an object from which a recovery into an
    empty Redis brings back every covered key with its value, encrypted or not. *)

From S2P Require Import Prelude GoStrings GoTime FieldMapping GoCrypto RedisStore MetadataStore MetadataBackup MetadataSync MetadataFrames.
From Stdlib Require Import Ascii.
#[local] Open Scope Z_scope.

(** * What a backup collects *)


(** ** Quiet times *)

Definition delays (l : list (answer * Z)) : Z := foldr (fun x s => x.2 + s) 0 l.

(** Every call is answered, and the last before [b]. *)
Definition calm (b : Z) (w : world) : Prop :=
  Forall (fun x => x.1 = Answered /\ 0 <= x.2) (net w) /\ now w + delays (net w) <= b.

Lemma sum_delays l : Forall (fun x : answer * Z => x.1 = Answered /\ 0 <= x.2) l -> 0 <= delays l.
Proof. induction 1 as [|x l [_ Hx] Hl IH]; cbn in *; [done|]. fold (delays l). lia. Qed.
Lemma calm_now b w : calm b w -> now w <= b.
Proof. intros [Hl Hb]. pose proof (sum_delays _ Hl). lia. Qed.

Lemma call_answered {A} (f : world -> result meta_error A * world) b w : calm b w -> exists t l,
  let w1 := mkWorld (db w) (objects w) t l (mode w) (stats w) in call f w = f w1 /\ calm b w1 /\ now w <= t.
Proof.
  unfold call, calm. intros [Hl Hb]. revert Hl Hb. generalize (net w) as n.
  intros n Hl Hb. destruct n as [|[a d] l]; cbn [next_call].
  - exists (now w + 0), []. split; [done|]. cbn in *. split; [split; [done|lia]|lia].
  - apply Forall_cons in Hl as [[Ha Hd] Hl]. cbn in Ha, Hd. subst a. exists (now w + d), l. split; [done|].
    cbn in *. fold (delays l) in *. split; [split; [done|lia]|lia].
Qed.

(** The keys that are there. *)
Definition present (w : world) (key : string) : option (rvalue * option Z) := (fun c => (held c, deadline c)) <$> live w key.
(** A key that is gone at the start is gone, one that is there stays until [b]. *)
Definition settled (b : Z) (w : world) : Prop :=
  forall key v d, contents w key = Some (v, Some d) -> d < now w \/ b <= d.

Section quiet.
Context (b : Z) (w0 : world).

(** Only the clock and the times of access have moved since [w0]. *)
Record steady (w : world) : Prop := {
  st_calm : calm b w;
  st_time : now w0 <= now w;
  st_contents key : contents w key = contents w0 key;
  st_objects : objects w = objects w0;
  st_mode : mode w = mode w0;
  st_stats : stats w = stats w0;
}.

Lemma present_contents w key : present w key =
  match contents w key with Some (v, d) => if match d with None => true | Some d => now w <=? d end then Some (v, d) else None | None => None end.
Proof.
  unfold present, contents, live, alive. destruct (db w !! key) as [[v [d|] t]|]; cbn; [|done..].
  by destruct (now w <=? d).
Qed.
Lemma present_steady w key : settled b w0 -> steady w -> present w key = present w0 key.
Proof.
  intros Hs Hw. rewrite !present_contents, (st_contents w Hw). destruct (contents w0 key) as [[v [d|]]|] eqn:E; [|done..].
  pose proof (calm_now _ _ (st_calm w Hw)) as Hb. pose proof (st_time w Hw) as Ht. specialize (Hs _ _ _ E).
  destruct (Z.leb_spec (now w) d), (Z.leb_spec (now w0) d); try done; lia.
Qed.

Lemma steady_touch key w : steady w -> steady (touch key w).
Proof.
  intros Hw. assert (now (touch key w) = now w /\ net (touch key w) = net w /\ objects (touch key w) = objects w /\
    mode (touch key w) = mode w /\ stats (touch key w) = stats w) as (H1 & H2 & H3 & H4 & H5) by (unfold touch; by destruct (live w key)).
  destruct Hw as [Hc Ht Hk Ho Hm Hs]. split; rewrite ?H1, ?H3, ?H4, ?H5; try done; [|intros k; by rewrite contents_touch].
  unfold calm in *. by rewrite H1, H2.
Qed.

(** Weakest preconditions of reading. *)
Definition wp {E A} (m : M world E A) (Q : result E A -> Prop) : Prop :=
  forall w, steady w -> steady (m w).2 /\ Q (m w).1.

Lemma wp_mono {E A} (m : M world E A) (Q Q' : result E A -> Prop) : wp m Q -> (forall r, Q r -> Q' r) -> wp m Q'.
Proof. intros Hm HQ w Hw. destruct (Hm w Hw). auto. Qed.
Lemma wp_ret {E A} (a : A) (Q : result E A -> Prop) : Q (Ok a) -> wp (mret a) Q.
Proof. intros HQ w Hw. by split. Qed.
Lemma wp_bind {A B} (m : MW A) (f : A -> MW B) Q :
  wp m (fun r => match r with Ok a => wp (f a) Q | Err e => Q (Err e) end) -> wp (m ≫= f) Q.
Proof.
  intros Hm w Hw. destruct (Hm w Hw) as [H1 H2]. rewrite bind_run. destruct (m w) as [[a|e] w1]; cbn in *; [by apply H2|done].
Qed.
Lemma wp_attempt {A} (m : MW A) (Q : result meta_error (result meta_error A) -> Prop) : wp m (fun r => Q (Ok r)) -> wp (attempt m) Q.
Proof. intros Hm w Hw. destruct (Hm w Hw) as [H1 H2]. unfold attempt. by destruct (m w). Qed.
Lemma wp_now (Q : result meta_error Z -> Prop) : (forall t, now w0 <= t <= b -> Q (Ok t)) -> wp (asks now) Q.
Proof.
  intros HQ w Hw. split; [done|]. apply HQ. pose proof (calm_now _ _ (st_calm w Hw)). pose proof (st_time w Hw). lia.
Qed.
Lemma wp_pure {A} (r : result meta_error A) (Q : result meta_error A -> Prop) : Q r -> wp (fun w => (r, w)) Q.
Proof. intros HQ w Hw. by split. Qed.

Lemma wp_call {A} (f : world -> result meta_error A * world) Q :
  (forall w, steady w -> steady (f w).2 /\ Q (f w).1) -> wp (call f) Q.
Proof.
  intros Hf w Hw. destruct (call_answered f b w (st_calm w Hw)) as (t & l & Hc & Hcalm & Ht). rewrite Hc. apply Hf.
  destruct Hw as [_ Ht0 Hk Ho Hm Hs]. split; try done. cbn. lia.
Qed.

Context (Hset : settled b w0).

Lemma wp_Keys p (Q : result meta_error (list string) -> Prop) :
  (forall ks, NoDup ks -> (forall k, k ∈ ks <-> String.prefix p k = true /\ is_Some (present w0 k)) -> Q (Ok ks)) -> wp (Server.Keys p) Q.
Proof.
  intros HQ. apply wp_call. intros w Hw. split; [done|]. apply HQ.
  - apply NoDup_ListNoDup, List.NoDup_filter, NoDup_ListNoDup, NoDup_fst_map_to_list.
  - intros k. rewrite list_elem_of_In, filter_In, <- list_elem_of_In, list_elem_of_fmap.
    rewrite <- (present_steady w k Hset Hw). unfold present, live. rewrite fmap_is_Some. split.
    + intros [([k' c] & -> & [Hc Hl]%elem_of_map_to_list%map_lookup_filter_Some) Hp]. cbn in *. split; [done|]. rewrite Hc. cbn. rewrite Hl. by eexists.
    + intros [Hp [c Hc]]. split; [|done]. destruct (db w !! k) as [c'|] eqn:E; cbn in Hc; [|done]. destruct (alive (now w) c') eqn:Ea; [|done].
      injection Hc as ->. exists (k, c). split; [done|]. by apply elem_of_map_to_list, map_lookup_filter_Some.
Qed.

Ltac look w Hw key := let E := fresh "E" in
  rewrite <- (present_steady w key Hset Hw); unfold present; destruct (live w key) as [[[] ? ?]|] eqn:E; cbn.

Lemma wp_Type key (Q : result meta_error string -> Prop) :
  Q (Ok (match present w0 key with Some (v, _) => Server.type_name v | None => "none" end)) -> wp (Server.Type_ key) Q.
Proof. intros HQ. apply wp_call. intros w Hw. split; [done|]. revert HQ. look w Hw key; done. Qed.
Lemma wp_Get key (Q : result meta_error (option string) -> Prop) :
  Q (match present w0 key with Some (RString s, _) => Ok (Some s) | None => Ok None | _ => Err BadType end) -> wp (Server.Get key) Q.
Proof. intros HQ. apply wp_call. intros w Hw. split; [by apply steady_touch|]. revert HQ. look w Hw key; done. Qed.
Lemma wp_HGetAll key (Q : result meta_error (gmap string string) -> Prop) :
  Q (match present w0 key with Some (RHash h, _) => Ok h | None => Ok ∅ | _ => Err BadType end) -> wp (Server.HGetAll key) Q.
Proof. intros HQ. apply wp_call. intros w Hw. split; [by apply steady_touch|]. revert HQ. look w Hw key; done. Qed.
Lemma wp_SMembers key (Q : result meta_error (list string) -> Prop) :
  Q (match present w0 key with Some (RSet s, _) => Ok (elements s) | None => Ok [] | _ => Err BadType end) -> wp (Server.SMembers key) Q.
Proof. intros HQ. apply wp_call. intros w Hw. split; [by apply steady_touch|]. revert HQ. look w Hw key; done. Qed.
(** A time to live is at most that at the start, to the second. *)
Lemma wp_TTL key (Q : result meta_error Z -> Prop) :
  (forall t, match present w0 key with Some (_, Some d) => t <= d - now w0 + second | _ => t < 0 end -> Q (Ok t)) -> wp (Server.TTL key) Q.
Proof.
  intros HQ. apply wp_call. intros w Hw. split; [done|]. apply HQ. rewrite <- (present_steady w key Hset Hw). unfold present.
  destruct (live w key) as [[v [d|] ?]|]; cbn; [|lia..]. pose proof (st_time w Hw). unfold second, ms. Z.div_mod_to_equations. lia.
Qed.
End quiet.

(** ** What is covered *)

Definition is_text (v : rvalue) : bool := match v with RString _ => true | _ => false end.
Definition is_hash (v : rvalue) : bool := match v with RHash _ => true | _ => false end.

(** The services with every type, the index with texts, the schemas with
    hashes and the cluster with both. *)
Definition covers (key : string) (v : rvalue) : bool :=
  if String.prefix "service:" key then true
  else if existsb (fun p => String.prefix p key) index_patterns then is_text v
  else if String.prefix "schema:" key then is_hash v
  else existsb (fun p => String.prefix p key) cluster_patterns && (is_text v || is_hash v).

Definition evalue_of (v : rvalue) : evalue :=
  match v with RString s => VText s | RHash h => hash_value h | RSet s => set_value (elements s) end.

(** Two prefixes of a text: one is a prefix of the other. *)
Lemma prefix_exclusive p q k : String.prefix p q = false -> String.prefix q p = false -> String.prefix p k = true -> String.prefix q k = false.
Proof.
  revert q k. induction p as [|x p IH]; intros [|y q] [|z k]; cbn; try done.
  repeat (destruct (ascii_dec _ _)); subst; try done. apply IH.
Qed.

Section collect.
Context (b : Z) (w0 : world) (Hset : settled b w0).

Record entry_for (e : MetadataEntry) (v : rvalue) (d : option Z) : Prop := {
  ef_value : e_Value e = evalue_of v;
  ef_time : now w0 <= e_Timestamp e <= b;
  ef_type : utf8_ok (e_Type e) = true;
  ef_ttl : 0 <= e_TTL e <= match d with Some d => Z.max 0 (d - now w0 + second) | None => 0 end;
}.

(** The entries of the covered keys below [P], each once. *)
Record collected (P : string -> Prop) (es : list MetadataEntry) : Prop := {
  co_once : NoDup (e_Key <$> es);
  co_sound e : e ∈ es -> P (e_Key e) /\ exists v d, present w0 (e_Key e) = Some (v, d) /\ covers (e_Key e) v = true /\ entry_for e v d;
  co_complete key v d : P key -> present w0 key = Some (v, d) -> covers key v = true -> exists e, e ∈ es /\ e_Key e = key;
}.

Lemma collected_nil : collected (fun _ => False) [].
Proof. split; [constructor | intros e He; by apply not_elem_of_nil in He | done]. Qed.
Lemma collected_iff (P P' : string -> Prop) es : (forall k, P k <-> P' k) -> collected P es -> collected P' es.
Proof.
  intros HP [H1 H2 H3]. split; [done| |].
  - intros e He. destruct (H2 e He) as [Hp Hr]. split; [by apply HP|done].
  - intros key v d Hk. apply H3. by apply HP.
Qed.
Lemma collected_app (P1 P2 : string -> Prop) es1 es2 : (forall k, P1 k -> P2 k -> False) ->
  collected P1 es1 -> collected P2 es2 -> collected (fun k => P1 k \/ P2 k) (es1 ++ es2).
Proof.
  intros Hd [A1 A2 A3] [B1 B2 B3]. split.
  - rewrite fmap_app. apply NoDup_app. split_and!; [done| |done]. intros k (e1 & -> & H1)%list_elem_of_fmap (e2 & He & H2)%list_elem_of_fmap.
    destruct (A2 e1 H1) as [Hp1 _]. destruct (B2 e2 H2) as [Hp2 _]. rewrite <- He in Hp2. by apply (Hd (e_Key e1)).
  - intros e [He|He]%elem_of_app; [destruct (A2 e He) | destruct (B2 e He)]; split; auto.
  - intros key v d [Hk|Hk] Hp Hc; [destruct (A3 _ _ _ Hk Hp Hc) as (e & He & Hke) | destruct (B3 _ _ _ Hk Hp Hc) as (e & He & Hke)];
      exists e; (split; [set_solver|done]).
Qed.

(** One key. *)
Definition gathers (cov : rvalue -> bool) (f : string -> MW (option MetadataEntry)) : Prop := forall key v d,
  present w0 key = Some (v, d) ->
  wp b w0 (f key) (fun r => exists o, r = Ok o /\ if cov v then exists e, o = Some e /\ e_Key e = key /\ entry_for e v d else o = None).

Ltac read := repeat (first
  [ apply wp_bind | apply wp_attempt | apply wp_now; intros ? ? | apply wp_ret | apply (wp_Get b w0 Hset) | apply (wp_HGetAll b w0 Hset)
  | apply (wp_SMembers b w0 Hset) | apply (wp_Type b w0 Hset) | apply (wp_TTL b w0 Hset); intros ? ? ]).

Lemma index_gathers : gathers is_text index_entry.
Proof.
  intros key v d Hp. unfold index_entry. read. rewrite Hp. destruct v; cbn; read; (eexists; split; [done|]); [|done..].
  eexists. split; [done|]. split; [done|]. split; cbn; try done. destruct d; lia.
Qed.
Lemma schema_gathers : gathers is_hash schema_entry.
Proof.
  intros key v d Hp. unfold schema_entry. read. rewrite Hp. destruct v; cbn; read; (eexists; split; [done|]); [done| |done].
  eexists. split; [done|]. split; [done|]. split; cbn; try done. destruct d; lia.
Qed.

Lemma value_of_spec (sets : bool) key v d : present w0 key = Some (v, d) ->
  wp b w0 (value_of sets (Server.type_name v) key)
    (fun r => r = Ok (if is_text v || is_hash v || sets then Some (evalue_of v) else None)).
Proof. intros Hp. unfold value_of. destruct v; cbn; [read; by rewrite Hp..|]. destruct sets; cbn; read; by rewrite ?Hp. Qed.

Lemma typed_gathers type sets with_ttl : utf8_ok type = true ->
  gathers (fun v => is_text v || is_hash v || sets) (typed_entry type sets with_ttl).
Proof.
  intros Ht key v d Hp. unfold typed_entry. apply wp_bind, wp_attempt, (wp_Type b w0 Hset). rewrite Hp. cbn. apply wp_bind.
  assert (wp b w0 (if with_ttl then ttl_of key else mret 0)
    (fun r => exists t, r = Ok t /\ 0 <= t <= match d with Some d => Z.max 0 (d - now w0 + second) | None => 0 end)) as Httl.
  { destruct with_ttl; [|read; exists 0; split; [done|destruct d; lia]]. unfold ttl_of. read. rewrite Hp in *.
    eexists. split; [done|]. destruct (Z.ltb_spec 0 t); destruct d; lia. }
  eapply wp_mono; [exact Httl|]. intros r (t & -> & Hr). apply wp_bind. eapply wp_mono; [by apply (value_of_spec sets key v d)|]. intros r ->.
  read. destruct (is_text v || is_hash v || sets); cbn; (eexists; split; [done|]); [|done].
  eexists. split; [done|]. by split.
Qed.

Lemma gather_collects cov f ks : gathers cov f -> NoDup ks -> (forall k, k ∈ ks -> is_Some (present w0 k) /\ forall v, covers k v = cov v) ->
  wp b w0 (gather f ks) (fun r => exists es, r = Ok es /\ collected (fun k => k ∈ ks) es).
Proof.
  intros Hf Hn Hk. induction ks as [|key ks IH]; cbn [gather].
  - read. exists []. split; [done|]. eapply collected_iff; [|apply collected_nil]. intros k. split; [done|]. by intros ?%not_elem_of_nil.
  - apply NoDup_cons in Hn as [Hnin Hn]. destruct (Hk key) as [[[v d] Hp] Hcov]; [set_solver|]. apply wp_bind.
    eapply wp_mono; [by apply (Hf key v d)|]. intros r (o & -> & Ho). apply wp_bind.
    eapply wp_mono; [apply IH; [done|]; intros k Hin; apply Hk; set_solver|]. intros r (es & -> & Hes). read.
    eexists. split; [done|]. rewrite <- Hcov in Ho. destruct (covers key v) eqn:Hc.
    + destruct Ho as (e & -> & <- & He). apply (collected_iff (fun k => k = e_Key e \/ k ∈ ks)); [intros k; set_solver|].
      apply (collected_app (fun k => k = e_Key e) (fun k => k ∈ ks) [e]); [by intros k -> | |done].
      split; [apply NoDup_singleton | | intros k v' d' -> _ _; exists e; set_solver].
      intros e' ->%list_elem_of_singleton. split; [done|]. by exists v, d.
    + subst o. split; [apply Hes| |].
      * intros e He. destruct (co_sound _ _ Hes e He). split; [set_solver|done].
      * intros k v' d' [->|Hin]%elem_of_cons Hp' Hc'; [|by apply (co_complete _ _ Hes k v' d')].
        rewrite Hp in Hp'. injection Hp' as <- <-. congruence.
Qed.

(** ** The whole collection *)

Definition below (ps : list string) (k : string) : Prop := existsb (fun p => String.prefix p k) ps = true.
Definition apart (p q : string) : Prop := String.prefix p q = false /\ String.prefix q p = false.

Lemma below_cons p ps k : below (p :: ps) k <-> String.prefix p k = true \/ below ps k.
Proof. unfold below. cbn. by rewrite orb_true_iff. Qed.
Lemma apart_disjoint p ps k : Forall (apart p) ps -> String.prefix p k = true -> below ps k -> False.
Proof.
  induction 1 as [|q ps [H1 H2] Hps IH]; intros Hp; [done|]. rewrite below_cons. intros [Hq|Hq]; [|by apply IH].
  by rewrite (prefix_exclusive p q k) in Hq.
Qed.

Lemma pattern_collects cov f p : gathers cov f -> (forall k v, String.prefix p k = true -> covers k v = cov v) ->
  wp b w0 (ks ← Server.Keys p; gather f ks) (fun r => exists es, r = Ok es /\ collected (fun k => String.prefix p k = true) es).
Proof.
  intros Hf Hc. apply wp_bind, (wp_Keys b w0 Hset). intros ks Hn Hks.
  eapply wp_mono; [apply (gather_collects cov); [done..|]|].
  - intros k [H1 H2]%Hks. auto.
  - intros r (es & -> & Hes). exists es. split; [done|]. destruct Hes as [H1 H2 H3]. split; [done| |].
    + intros e He. destruct (H2 e He) as [Hp Hr]. split; [by apply Hks|done].
    + intros key v d Hk Hp. apply (H3 key v d); [|done]. apply Hks. split; [done|by eexists].
Qed.

Lemma patterns_collect cov f ps : gathers cov f -> ForallOrdPairs apart ps ->
  (forall k v, below ps k -> covers k v = cov v) ->
  wp b w0 (gather_patterns f ps) (fun r => exists es, r = Ok es /\ collected (below ps) es).
Proof.
  intros Hf Hap. induction Hap as [|p ps Hp Hps IH]; intros Hc; cbn [gather_patterns].
  - apply wp_ret. exists []. split; [done|]. by eapply collected_iff; [|apply collected_nil].
  - assert (wp b w0 (ks ← Server.Keys p; gather f ks) (fun r => exists es, r = Ok es /\ collected (fun k => String.prefix p k = true) es)) as H1.
    { apply (pattern_collects cov); [done|]. intros k v Hk. apply Hc, below_cons. by left. }
    intros w Hw. destruct (H1 w Hw) as [Hw2 (es1 & He1 & Hes1)]. rewrite bind_run in Hw2, He1. rewrite bind_run. unfold attempt.
    destruct (Server.Keys p w) as [[ks|x] w1]; [|done]. rewrite bind_run. destruct (gather f ks w1) as [g w2]. cbn in He1, Hw2. subst g.
    specialize (IH ltac:(intros k v Hk; apply Hc, below_cons; by right) w2 Hw2). destruct IH as [Hw3 (es2 & He2 & Hes2)].
    rewrite bind_run. destruct (gather_patterns f ps w2) as [g w3]. cbn in He2, Hw3. subst g. split; [done|]. eexists. split; [done|].
    eapply collected_iff; [|apply (collected_app (fun k => String.prefix p k = true) (below ps)); [|done..]].
    + intros k. by rewrite below_cons.
    + intros k. by apply apart_disjoint.
Qed.

Ltac no_prefix k := repeat match goal with
  | H : String.prefix ?p k = true |- context [String.prefix ?q k] => rewrite (prefix_exclusive p q k) by done
  | H : String.prefix ?p k = true |- context [String.prefix ?p k] => rewrite H
  end.
Lemma covers_service k v : String.prefix "service:" k = true -> covers k v = is_text v || is_hash v || true.
Proof. intros H. unfold covers. rewrite H. by rewrite orb_true_r. Qed.
Lemma covers_index k v : below index_patterns k -> covers k v = is_text v.
Proof.
  intros H. unfold covers. pose proof H as Hb. unfold below in H. rewrite H. unfold index_patterns in Hb. rewrite !below_cons in Hb.
  destruct Hb as [Hp|[Hp|[Hp|Hp]]]; [no_prefix k..|]; done.
Qed.
Lemma covers_schema k v : String.prefix "schema:" k = true -> covers k v = is_hash v.
Proof. intros H. unfold covers. cbn [existsb index_patterns]. no_prefix k. done. Qed.
Lemma covers_cluster k v : below cluster_patterns k -> covers k v = is_text v || is_hash v || false.
Proof.
  intros H. unfold covers. pose proof H as Hb. unfold below in H. rewrite H, orb_false_r. unfold cluster_patterns in Hb. rewrite !below_cons in Hb.
  destruct Hb as [Hp|[Hp|[Hp|Hp]]]; [cbn [existsb index_patterns]; no_prefix k..|]; done.
Qed.
Lemma covers_below k v : covers k v = true ->
  String.prefix "service:" k = true \/ below index_patterns k \/ String.prefix "schema:" k = true \/ below cluster_patterns k.
Proof.
  unfold covers, below. destruct (String.prefix "service:" k); [auto|]. destruct (existsb _ index_patterns); [auto|].
  destruct (String.prefix "schema:" k); [auto|]. destruct (existsb _ cluster_patterns); auto.
Qed.

Lemma collect_part (m : MW (list MetadataEntry)) ms (P P' : string -> Prop) :
  wp b w0 m (fun r => exists es, r = Ok es /\ collected P es) ->
  wp b w0 (collect_parts ms) (fun r => exists es, r = Ok es /\ collected P' es) -> (forall k, P k -> P' k -> False) ->
  wp b w0 (collect_parts (m :: ms)) (fun r => exists es, r = Ok es /\ collected (fun k => P k \/ P' k) es).
Proof.
  intros Hm Hms Hd. cbn [collect_parts]. apply wp_bind, wp_attempt. eapply wp_mono; [exact Hm|]. intros r (es & -> & Hes).
  apply wp_bind. eapply wp_mono; [exact Hms|]. intros r (es' & -> & Hes'). apply wp_ret. eexists. split; [done|]. by apply collected_app.
Qed.

Definition has_client (st : storages) : Prop := forall w, getRedisClient st w = (Ok tt, w).

(** Every covered key, with its value, and each once. *)
Lemma collectMetadata_collects st : has_client st ->
  wp b w0 (collectMetadata st) (fun r => exists es, r = Ok es /\ collected (fun _ => True) es).
Proof.
  intros Hst. unfold collectMetadata. apply wp_bind. intros w Hw. rewrite Hst. cbn [fst snd]. split; [done|]. clear w Hw.
  eapply wp_mono; [eapply (collect_part _ _ (fun k => String.prefix "service:" k = true)); [|eapply (collect_part _ _ (below index_patterns));
    [|eapply (collect_part _ _ (fun k => String.prefix "schema:" k = true)); [|eapply (collect_part _ [] (below cluster_patterns) (fun _ => False))|]|]|]|].
  - apply (pattern_collects _ _ _ (typed_gathers MetadataTypeServiceRegistry true true eq_refl)). apply covers_service.
  - apply (patterns_collect _ _ _ index_gathers); [repeat constructor|apply covers_index].
  - apply (pattern_collects _ _ _ schema_gathers). apply covers_schema.
  - apply (patterns_collect _ _ _ (typed_gathers MetadataTypeClusterInfo false false eq_refl)); [repeat constructor|apply covers_cluster].
  - apply wp_ret. exists []. split; [done|apply collected_nil].
  - done.
  - intros k Hs [Hc|[]]. apply (apart_disjoint "schema:" cluster_patterns k); [by repeat constructor|done..].
  - intros k Hi [Hs|[Hc|[]]].
    + apply (apart_disjoint "schema:" index_patterns k); [by repeat constructor|done..].
    + unfold below, cluster_patterns in Hc. pose proof (covers_index k (RHash ∅) Hi) as E. rewrite (covers_cluster k) in E; done.
  - intros k Hs Hr. destruct Hr as [Hi|[Hc|[Hc|[]]]].
    + apply (apart_disjoint "service:" index_patterns k); [by repeat constructor|done..].
    + by rewrite (prefix_exclusive "service:" "schema:" k) in Hc.
    + apply (apart_disjoint "service:" cluster_patterns k); [by repeat constructor|done..].
  - intros r (es & -> & Hes). exists es. split; [done|]. destruct Hes as [H1 H2 H3]. split; [done| |].
    + intros e He. destruct (H2 e He) as [_ Hr]. by split.
    + intros key v d _ Hp Hc. apply (H3 key v d); [|done..]. destruct (covers_below key v Hc) as [|[|[|]]]; tauto.
Qed.
End collect.

(** * Round trip *)


(** ** Encryption *)

Definition key_ok (enabled : bool) (key : list Z) (nonce : option (list Z)) : Prop :=
  enabled = true -> key <> [] -> byte_block keyLength key /\ exists n, nonce = Some n /\ length n = Gcm.NonceSize.

Definition opened (enabled : bool) (key data : list Z) : list Z :=
  if enabled && negb (length key =? 0)%nat then match decrypt enabled key data with Ok d => d | Err _ => data end else data.

Lemma opened_encrypt enabled key nonce data : key_ok enabled key nonce ->
  exists c, encrypt enabled key nonce data = Ok c /\ opened enabled key c = data.
Proof.
  intros Hk. unfold encrypt, opened, decrypt. destruct enabled; cbn [negb orb andb]; [|by exists data].
  destruct key as [|k key]; [by exists data|]. destruct (Hk eq_refl ltac:(done)) as [[Hl Hb] (n & -> & Hn)].
  set (ks := k :: key) in *. rewrite Hl. cbn. eexists. split; [done|]. rewrite length_app, Hn.
  destruct (Nat.ltb_spec (Gcm.NonceSize + length (Gcm.Seal (Aes.encrypt_block ks) n data)) Gcm.NonceSize); [lia|].
  rewrite take_app_length', drop_app_length' by done. rewrite open_seal; [done|]. intros bl. apply encrypt_block_block.
  split; [rewrite Hl; set_solver|done].
Qed.

(** ** Versions are text *)

Definition ascii7 (c : ascii) : bool := (N_of_ascii c <? 128)%N.
Lemma utf8_ascii s : all_chars ascii7 s = true -> utf8_ok s = true.
Proof. induction s as [|c s IH]; cbn; [done|]. intros [Hc Hs]%andb_true_iff. unfold ascii7 in Hc. rewrite Hc. auto. Qed.
Lemma digit_ascii c : is_digit c = true -> ascii7 c = true.
Proof. unfold is_digit, ascii7. rewrite andb_true_iff, N.leb_le, N.leb_le, N.ltb_lt. lia. Qed.
Lemma Itoa_ascii z : all_chars ascii7 (Itoa z) = true.
Proof.
  assert (forall p, all_chars ascii7 (Itoa (Z.pos p)) = true) as H
    by (intros p; eapply all_chars_impl; [apply digit_ascii|]; by apply Itoa_digits).
  destruct z as [|p|p]; [done|apply H|]. change (Itoa (Z.neg p)) with (String "-" (Itoa (Z.pos p))).
  change (all_chars ascii7 (Itoa (Z.pos p)) = true). apply H.
Qed.
Lemma version_utf8 a b c : utf8_ok (version a b c) = true.
Proof. apply utf8_ascii. unfold version. by rewrite !all_chars_app, !Itoa_ascii. Qed.

(** ** When a backup succeeds *)

Definition nonempty (v : rvalue) : Prop := match v with RHash h => h <> ∅ | RSet s => s <> ∅ | RString _ => True end.

(** Quiet until [b]; the covered keys hold UTF-8 text, and the version, if there
    is one, is three numbers. *)
Record ready (b : Z) (w : world) : Prop := {
  rd_calm : calm b w;
  rd_settled : settled b w;
  rd_years : 0 <= now w /\ b < days 10000 1 1 * day_ns;
  rd_version : match present w version_key with
    | None => True
    | Some (v, _) => exists x y z, in_int64 z /\ v = RString (version x y z)
    end;
  rd_readable key v d : present w key = Some (v, d) -> covers key v = true ->
    utf8_ok key = true /\ plain_value (evalue_of v) = true /\ nonempty v /\
    match d with Some d => d - now w + second <= max_int64 | None => True end;
}.

Section backup.
Context {J : SnapshotJSON} (st : storages) (nodeID : string) (config : BackupConfig) (zone : Z).
Context (Hst : has_client st) (Hstore : forall w, object_store st w = (Ok tt, w)).
Context (b : Z) (w0 : world) (Hready : ready b w0).

Lemma steady_start : steady b w0 w0.
Proof. split; try done. apply Hready. Qed.

Lemma version_step w : steady b w0 w -> exists v w', getCurrentAndIncrementVersion st w = (Ok v, w') /\
  utf8_ok v = true /\ calm b w' /\ objects w' = objects w0.
Proof.
  intros Hw. unfold getCurrentAndIncrementVersion. rewrite bind_run, Hst, bind_run. change "metadata:version" with version_key.
  destruct (wp_Get b w0 (rd_settled _ _ Hready) version_key (fun r => exists o, r = Ok o /\ utf8_ok (incrementVersion (default "1.0.0" o)) = true)) with w as [Hw1 (o & Ho & Hu)]; [|done|].
  { pose proof (rd_version _ _ Hready) as Hv. destruct (present w0 version_key) as [[v d]|]; [|by exists None].
    destruct Hv as (x & y & z & Hz & ->). eexists. split; [done|]. change (utf8_ok (incrementVersion (version x y z)) = true). rewrite incrementVersion_version by done. apply version_utf8. }
  destruct (Server.Get version_key w) as [r w1]. cbn in Ho, Hw1. subst r. cbv beta iota. rewrite bind_run.
  unfold Server.Set_. destruct (call_answered (fun w => (Ok tt, Server.write version_key (RString (incrementVersion (default "1.0.0" o)))
    (Server.set_deadline w version_key 0) w)) b w1 (st_calm _ _ _ Hw1)) as (t & l & -> & Hc & _).
  eexists _, _. split; [done|]. split; [done|]. split; [exact Hc|]. apply Hw1.
Qed.

Lemma collected_plain es : collected b w0 (fun _ => True) es -> Forall (fun e => plain_entry e = true) es.
Proof.
  intros Hes. apply Forall_forall. intros e He. destruct (co_sound _ _ _ _ Hes e He) as (_ & v & d & Hp & Hc & [Hv Ht Hty Httl]).
  destruct (rd_readable _ _ Hready _ _ _ Hp Hc) as (Hk & Hpv & _ & Hd). pose proof (rd_years _ _ Hready) as [Hy1 Hy2].
  unfold plain_entry. rewrite Hty, Hk, Hv, Hpv. cbn [andb]. apply andb_true_iff. split.
  - unfold year_ok. apply andb_true_iff. rewrite Z.leb_le, Z.ltb_lt. assert (days 0 1 1 * day_ns <= 0) by done. lia.
  - apply bool_decide_eq_true_2. unfold in_int64, min_int64, max_int64 in *. destruct d; lia.
Qed.

(** The object that a full backup writes. *)
Lemma full_backup nonce : mode w0 <> BackupModeIncremental -> utf8_ok nodeID = true ->
  key_ok (EncryptionEnabled config) (EncryptionKey config) nonce ->
  exists w' o s, performBackup st nodeID config zone nonce w0 = (Ok tt, w') /\
    objects w' !! (Bucket config, backup_object nodeID zone BackupModeFull (now w0)) = Some o /\
    unmarshal_snapshot (opened (EncryptionEnabled config) (EncryptionKey config) (obj_data o)) = Some s /\
    s_NodeID s = nodeID /\ collected b w0 (fun _ => True) (s_Entries s).
Proof.
  intros Hm Hn Hk. unfold performBackup. rewrite (bind_ok (asks now) _ w0 (now w0) w0) by done.
  assert (changed_entries st w0 = (Ok (BackupModeFull, []), w0)) as Hce.
  { unfold changed_entries, determineBackupMode. rewrite bind_run. rewrite (bind_ok (asks mode) _ w0 (mode w0) w0) by done.
    rewrite (proj2 (Z.eqb_neq _ _)) by done. done. }
  rewrite (bind_ok _ _ _ _ _ Hce). cbn [Z.eqb orb BackupModeFull BackupModeIncremental].
  destruct (collectMetadata_collects b w0 (rd_settled _ _ Hready) st Hst w0 steady_start) as [Hw1 (es & He & Hes)].
  destruct (collectMetadata st w0) as [r w1] eqn:Ec. cbn in He, Hw1. subst r. rewrite (bind_ok _ _ _ _ _ Ec).
  destruct (version_step w1 Hw1) as (v & w2 & Hv & Hvu & Hc2 & Ho2).
  rewrite (bind_ok (attempt _) _ w1 (Ok v) w2) by (unfold attempt; by rewrite Hv).
  rewrite (bind_ok (mret "") _ w2 "" w2) by done.
  cbv beta iota zeta. set (snap := mkSnapshot nodeID (Some (now w0)) v es _ "").
  assert (plain_snapshot snap = true) as Hplain.
  { unfold plain_snapshot. cbn. rewrite Hn, Hvu. cbn. pose proof (rd_years _ _ Hready) as [Hy1 Hy2]. pose proof (calm_now _ _ (rd_calm _ _ Hready)).
    apply andb_true_iff. split; [|apply forallb_forall; intros e He; apply list_elem_of_In in He;
      pose proof (collected_plain es Hes) as Hp; rewrite Forall_forall in Hp; auto].
    rewrite !andb_true_r. unfold year_ok. apply andb_true_iff. rewrite Z.leb_le, Z.ltb_lt. assert (days 0 1 1 * day_ns <= 0) by done. lia. }
  destruct (snapshot_roundtrip snap Hplain) as (data & Hdata & Hbytes & Hun). rewrite Hdata.
  rewrite (bind_ok (lift (Ok data)) _ w2 data w2) by done.
  destruct (opened_encrypt (EncryptionEnabled config) (EncryptionKey config) nonce data Hk) as (c & Hc & Hop).
  assert ((if EncryptionEnabled config then lift (encrypt (EncryptionEnabled config) (EncryptionKey config) nonce data) else mret data) w2 = (Ok c, w2)) as Henc.
  { destruct (EncryptionEnabled config); [by rewrite Hc|]. injection Hc as <-. done. }
  rewrite (bind_ok _ _ _ _ _ Henc), (bind_ok _ _ _ _ _ (Hstore w2)). clear Henc.
  change (backup_object nodeID zone 0 (now w0)) with (backup_object nodeID zone BackupModeFull (now w0)).
  set (name := backup_object nodeID zone BackupModeFull (now w0)).
  destruct (call_answered (fun w => (Ok tt, set_objects (<[(Bucket config, name) := mkObject c (now w)]> (objects w)) w)) b w2 Hc2) as (t & l & Hput & _ & _).
  rewrite (bind_ok (Server.PutObject (Bucket config) name c) _ _ _ _ Hput). cbv zeta in Hput. set (w3 := set_objects _ _).
  pose proof (updateBackupState_ro st zone BackupModeFull (now w0) v w3) as [_ Hup]. rewrite bind_run. unfold attempt.
  destruct (updateBackupState st zone BackupModeFull (now w0) v w3) as [r w4]. cbn in Hup.
  eexists _, (mkObject c t), snap. split; [done|]. split; [|split; [by rewrite <- Hun, <- Hop|done]].
  unfold updateStatsWithMode. cbn. rewrite Hup. cbn. by rewrite lookup_insert_eq.
Qed.
End backup.

(** ** Restoring entries *)

Definition vals (w : world) : gmap string rvalue := held <$> db w.
(** The value that an entry restores. *)
Definition entry_value (e : MetadataEntry) : rvalue :=
  match e_Value e with
  | VText s => RString s
  | VHash h => RHash (Server.fields_of (map_to_list h))
  | VSet l => RSet (Server.members_of l)
  | VNil => RString "null"
  | VScalar s _ => RString s
  end.
Definition restore_all (es : list MetadataEntry) (m : gmap string rvalue) : gmap string rvalue :=
  foldl (fun m e => <[e_Key e := entry_value e]> m) m es.

Lemma fields_of_texts (h : gmap string string) : Server.fields_of (map_to_list (Server.AText <$> h)) = h.
Proof.
  unfold Server.fields_of. rewrite map_to_list_fmap, <- list_fmap_compose.
  assert (((fun f : string * Server.arg => (f.1, default "" (Server.sent f.2))) ∘ prod_map id Server.AText) <$> map_to_list h = map_to_list h) as E.
  { transitivity (id <$> map_to_list h); [|apply list_fmap_id]. apply list_fmap_ext. by intros ? [k x] _. }
  rewrite E. rewrite <- (list_to_map_to_list h) at 2. apply list_to_map_proper; [|symmetry; apply Permutation_rev].
  rewrite <- Permutation_rev. apply NoDup_fst_map_to_list.
Qed.
Lemma members_of_texts (s : gset string) : Server.members_of (Server.AText <$> elements s) = s.
Proof.
  unfold Server.members_of. rewrite <- list_fmap_compose.
  replace (((fun a => default "" (Server.sent a)) ∘ Server.AText) <$> elements s) with (elements s); [apply list_to_set_elements_L|].
  symmetry. transitivity (id <$> elements s); [by apply list_fmap_ext; intros ? ? _|apply list_fmap_id].
Qed.
Lemma entry_value_of e v : e_Value e = evalue_of v -> entry_value e = v.
Proof.
  unfold entry_value. intros ->. destruct v; cbn; [done|by rewrite fields_of_texts|by rewrite members_of_texts].
Qed.

(** An entry whose commands the server takes. *)
Definition good (e : MetadataEntry) : Prop :=
  forallb Server.sendable (entry_commands e) = true /\ existsb Server.malformed (entry_commands e) = false.

Lemma good_entry e v : e_Value e = evalue_of v -> nonempty v -> good e.
Proof.
  intros Hv Hn. unfold good, entry_commands, with_expiry. rewrite Hv.
  destruct v as [s|h|s]; cbn -[map_to_list elements]; [done|..].
  - split.
    + apply andb_true_iff. split; [|by destruct (0 <? e_TTL e)]. apply forallb_forall. intros [k a] Hin.
      apply list_elem_of_In, elem_of_map_to_list in Hin. rewrite lookup_fmap in Hin. cbn. apply bool_decide_eq_true_2.
      destruct (h !! k); [|done]. injection Hin as <-. by eexists.
    + destruct (map_to_list (Server.AText <$> h)) eqn:E; [|by destruct (0 <? e_TTL e)].
      apply map_to_list_empty_iff, fmap_empty_inv in E. by destruct Hn.
  - split.
    + apply andb_true_iff. split; [|by destruct (0 <? e_TTL e)]. apply forallb_forall. intros a Hin.
      apply list_elem_of_In, list_elem_of_fmap in Hin as (x & -> & _). apply bool_decide_eq_true_2. by eexists.
    + destruct (elements s) eqn:E; cbn; [|by destruct (0 <? e_TTL e)]. apply elements_empty_iff, leibniz_equiv in E. by destruct Hn.
Qed.

Lemma run_all_app cs1 cs2 w : Server.run_all (cs1 ++ cs2) w =
  let '(o1, w1) := Server.run_all cs1 w in let '(o2, w2) := Server.run_all cs2 w1 in (o1 && o2, w2).
Proof.
  revert w. induction cs1 as [|c cs1 IH]; intros w; cbn [app Server.run_all]; [by destruct (Server.run_all cs2 w)|].
  destruct (Server.run1 c w) as [o w1]. rewrite IH. destruct (Server.run_all cs1 w1) as [o1 w2], (Server.run_all cs2 w2) as [o2 w3].
  by rewrite andb_assoc.
Qed.

Lemma vals_write key v d w : vals (Server.write key v d w) = <[key := v]> (vals w).
Proof. unfold vals, Server.write. cbn. by rewrite fmap_insert. Qed.
Lemma live_write key v w : live (Server.write key v None w) key = Some (mkCell v None (now w)).
Proof. unfold live, Server.write. cbn. by rewrite lookup_insert_eq. Qed.
Lemma live_absent w key : vals w !! key = None -> live w key = None.
Proof. unfold vals, live. rewrite lookup_fmap. by destruct (db w !! key). Qed.

(** The world but for its keys. *)
Definition same_but_db (w w' : world) : Prop := exists d, w' = set_db d w.
#[local] Instance same_but_db_pre : PreOrder same_but_db.
Proof. split; [intros []; by eexists | intros w1 w2 w3 [d ->] [d' ->]; by exists d']. Qed.
Lemma same_write key v d w : same_but_db w (Server.write key v d w).
Proof. by eexists. Qed.

Lemma run_expiring key ttl c v w : vals w !! key = None ->
  (forall w, live w key = None -> Server.run1 c w = (true, Server.write key v None w)) ->
  exists w', Server.run_all (with_expiry key ttl c) w = (true, w') /\ vals w' = <[key := v]> (vals w) /\ same_but_db w w'.
Proof.
  intros Hn Hc. unfold with_expiry. cbn [Server.run_all]. rewrite Hc by (by apply live_absent).
  destruct (0 <? ttl); cbn [Server.run_all Server.run1]; [rewrite live_write|]; (eexists; split; [done|]); rewrite !vals_write; cbn [held].
  - split; [by rewrite insert_insert_eq|]. by eexists.
  - split; [done|]. by eexists.
Qed.
Lemma run_entry e w : vals w !! e_Key e = None -> exists w',
  Server.run_all (entry_commands e) w = (true, w') /\ vals w' = <[e_Key e := entry_value e]> (vals w) /\ same_but_db w w'.
Proof.
  intros Hn. unfold entry_commands, entry_value.
  destruct (e_Value e) as [s|h|l| |s p]; [cbn; eexists; split; [done|]; rewrite vals_write; split; [done|apply same_write]|..].
  - apply run_expiring; [done|]. intros w1 Hl. cbn. by rewrite Hl.
  - apply run_expiring; [done|]. intros w1 Hl. cbn. by rewrite Hl.
  - cbn. eexists; split; [done|]. rewrite vals_write. split; [done|apply same_write].
  - cbn. eexists; split; [done|]. rewrite vals_write. split; [done|apply same_write].
Qed.

Fixpoint commands (es : list MetadataEntry) : list Server.pcmd :=
  match es with [] => [] | e :: es => entry_commands e ++ commands es end.
(** Keys of entries, each once and none of them there. *)
Definition fresh (es : list MetadataEntry) (m : gmap string rvalue) : Prop :=
  NoDup (e_Key <$> es) /\ forall e, e ∈ es -> m !! e_Key e = None.

Lemma fresh_cons e es m : fresh (e :: es) m <-> m !! e_Key e = None /\ fresh es (<[e_Key e := entry_value e]> m).
Proof.
  unfold fresh. rewrite fmap_cons, NoDup_cons. split.
  - intros [[Hn Hd] Hm]. split; [apply Hm; set_solver|]. split; [done|]. intros e' He'.
    rewrite lookup_insert_ne; [apply Hm; set_solver|]. intros Hk. apply Hn. rewrite Hk. by apply list_elem_of_fmap_2.
  - intros [Hm [Hd Hf]]. split; [split; [|done]|].
    + intros (e' & Hk & He')%list_elem_of_fmap. specialize (Hf e' He'). by rewrite <- Hk, lookup_insert_eq in Hf.
    + intros e' [->|He']%elem_of_cons; [done|]. specialize (Hf e' He'). by apply lookup_insert_None in Hf as [Hf _].
Qed.

Lemma run_entries es w : fresh es (vals w) -> exists w',
  Server.run_all (commands es) w = (true, w') /\ vals w' = restore_all es (vals w) /\ same_but_db w w'.
Proof.
  revert w. induction es as [|e es IH]; intros w Hf; [by exists w|]. apply fresh_cons in Hf as [Hn Hf].
  destruct (run_entry e w Hn) as (w1 & H1 & Hv1 & Hs1). rewrite <- Hv1 in Hf. destruct (IH w1 Hf) as (w2 & H2 & Hv2 & Hs2).
  exists w2. cbn [commands]. rewrite run_all_app, H1, H2. split; [done|]. split; [|by etrans].
  unfold restore_all. cbn [foldl]. rewrite <- Hv1. apply Hv2.
Qed.

(** ** The recovery *)

Lemma commands_app es es' : commands (es ++ es') = commands es ++ commands es'.
Proof. induction es as [|e es IH]; cbn; [done|]. by rewrite IH, app_assoc. Qed.
Lemma commands_good es : Forall good es -> forallb Server.sendable (commands es) = true /\ existsb Server.malformed (commands es) = false.
Proof.
  induction 1 as [|e es [H1 H2] Hes [IH1 IH2]]; cbn; [done|]. rewrite forallb_app, existsb_app, H1, H2, IH1, IH2. done.
Qed.

Lemma calm_same b w w' : same_but_db w w' -> calm b w -> calm b w'.
Proof. by intros [d ->]. Qed.

Lemma flush_entries b es w : calm b w -> Forall good es -> fresh es (vals w) -> exists w',
  flush_pipe (commands es) w = (Ok tt, w') /\ vals w' = restore_all es (vals w) /\ calm b w'.
Proof.
  intros Hc Hg Hf. destruct (commands_good es Hg) as [H1 H2]. unfold flush_pipe. rewrite bind_run. unfold attempt, Server.Exec.
  destruct (commands es) as [|c cs] eqn:E.
  - exists w. split; [done|]. split; [|done]. destruct es as [|e es]; [done|]. exfalso. cbn in E. unfold entry_commands, with_expiry in E.
    by destruct (e_Value e).
  - rewrite H1. cbn [negb]. set (f := fun w => if existsb Server.malformed (c :: cs) then _ else _).
    destruct (call_answered f b w Hc) as (t & l & -> & Hc1 & _). set (w1 := mkWorld _ _ _ _ _ _) in *. unfold f. rewrite H2.
    destruct (run_entries es w1 Hf) as (w2 & H & Hv & Hs). rewrite <- E, H. exists w2. split; [done|]. split; [done|]. by eapply calm_same.
Qed.

Lemma recoverEntry_absent b o e w : calm b w -> vals w !! e_Key e = None -> exists w',
  recoverEntry o e w = (Ok (entry_commands e), w') /\ vals w' = vals w /\ calm b w'.
Proof.
  intros Hc Hn. unfold recoverEntry. destruct (Overwrite o); [by exists w|]. rewrite bind_run. unfold Server.Exists.
  destruct (call_answered (fun w => (Ok (bool_decide (is_Some (live w (e_Key e)))), w)) b w Hc) as (t & l & -> & Hc1 & _).
  cbv zeta in *. set (w1 := mkWorld _ _ _ _ _ _) in *. exists w1. rewrite bool_decide_eq_false_2; [done|].
  rewrite live_absent by done. by intros [? ?].
Qed.

Lemma restore_all_app es es' m : restore_all (es ++ es') m = restore_all es' (restore_all es m).
Proof. apply foldl_app. Qed.

Lemma fresh_restored es es' m : fresh (es ++ es') m -> fresh es m /\ fresh es' (restore_all es m).
Proof.
  revert m. induction es as [|e es IH]; intros m Hf; [split; [split; [constructor|]|done]; intros e He; by apply not_elem_of_nil in He|].
  cbn [app] in Hf. rewrite fresh_cons in *. destruct Hf as [Hn Hf]. destruct (IH _ Hf). done.
Qed.
Lemma restore_all_other es m key : (forall e, e ∈ es -> e_Key e <> key) -> restore_all es m !! key = m !! key.
Proof.
  revert m. induction es as [|e es IH]; intros m Hk; [done|]. unfold restore_all in *. cbn [foldl]. rewrite IH by (intros; apply Hk; set_solver).
  apply lookup_insert_ne. apply Hk. set_solver.
Qed.
Lemma restore_all_lookup es m e : NoDup (e_Key <$> es) -> e ∈ es -> restore_all es m !! e_Key e = Some (entry_value e).
Proof.
  revert m. induction es as [|e' es IH]; intros m Hd He; [by apply not_elem_of_nil in He|]. rewrite fmap_cons in Hd. apply NoDup_cons in Hd as [Hn Hd].
  apply elem_of_cons in He as [->|He]; [|by apply IH]. unfold restore_all. cbn [foldl]. fold (restore_all es (<[e_Key e' := entry_value e']> m)).
  rewrite restore_all_other, lookup_insert_eq; [done|]. intros e He Hk. apply Hn. rewrite <- Hk. by apply list_elem_of_fmap_2.
Qed.

(** The loop: what waits in the pipeline and what is still to come. *)
Lemma recover_loop_restores b o es pend p w : calm b w -> Forall good (pend ++ es) -> fresh (pend ++ es) (vals w) ->
  pipe p = commands pend -> pipeCommands p = length pend ->
  exists p' w' pend', recover_loop o es p w = (Ok p', w') /\ error_count p' = error_count p /\ calm b w' /\
    pipe p' = commands pend' /\ pipeCommands p' = length pend' /\ Forall good pend' /\ fresh pend' (vals w') /\
    restore_all pend' (vals w') = restore_all (pend ++ es) (vals w).
Proof.
  revert pend p w. induction es as [|e es IH]; intros pend p w Hc Hg Hf Hp Hl; cbn [recover_loop].
  - rewrite app_nil_r in *. by exists p, w, pend.
  - pose proof (cons_middle e pend es) as Hmid. rewrite Hmid in Hg, Hf |- *. rewrite app_assoc in Hg, Hf |- *.
    destruct (fresh_restored _ _ _ Hf) as [Hf1 Hf2]. apply Forall_app in Hg as Hg2. destruct Hg2 as [Hg1 Hg2].
    assert (vals w !! e_Key e = None) as Hn by (apply Hf; set_solver).
    destruct (recoverEntry_absent b o e w Hc Hn) as (w1 & He & Hv1 & Hc1). rewrite bind_run. unfold attempt. rewrite He.
    assert (pipe p ++ entry_commands e = commands (pend ++ [e])) as Hpipe by (rewrite commands_app, Hp; cbn; by rewrite app_nil_r).
    rewrite Hpipe. rewrite <- Hv1 in Hf, Hf1, Hf2 |- *. destruct (batch_size <=? S (pipeCommands p))%nat.
    + destruct (flush_entries b (pend ++ [e]) w1 Hc1 Hg1 Hf1) as (w2 & Hfl & Hv2 & Hc2). rewrite bind_run, Hfl. rewrite <- Hv2 in Hf2.
      destruct (IH [] (mkProgress [] 0 (ok_count p + 1) (error_count p) (failures p)) w2 Hc2 Hg2 Hf2 eq_refl eq_refl)
        as (p' & w' & pend' & H1 & H2 & H3 & H4 & H5 & H6 & H7 & H8).
      exists p', w', pend'. split_and!; try done. rewrite restore_all_app, <- Hv2. exact H8.
    + destruct (IH (pend ++ [e]) (mkProgress (commands (pend ++ [e])) (S (pipeCommands p)) (ok_count p + 1) (error_count p) (failures p)) w1 Hc1 Hg Hf eq_refl)
        as (p' & w' & pend' & H1 & H2 & H3 & H4 & H5 & H6 & H7 & H8); [cbn; rewrite length_app, Hl; cbn; lia|].
      by exists p', w', pend'.
Qed.

Lemma recover_all_restores b o es w : calm b w -> Forall good es -> fresh es (vals w) ->
  exists p w', recover_all o es w = (Ok p, w') /\ error_count p = 0 /\ vals w' = restore_all es (vals w).
Proof.
  intros Hc Hg Hf. unfold recover_all.
  destruct (recover_loop_restores b o es [] (mkProgress [] 0 0 0 []) w Hc Hg Hf eq_refl eq_refl) as (p & w1 & pend & H1 & H2 & H3 & H4 & H5 & H6 & H7 & H8).
  rewrite (bind_ok _ _ _ _ _ H1), H4, H5. destruct pend as [|e pend]; cbn [length Nat.ltb Nat.leb].
  - rewrite bind_run. by exists p, w1.
  - destruct (flush_entries b (e :: pend) w1 H3 H6 H7) as (w2 & Hfl & Hv & _). rewrite (bind_ok _ _ _ _ _ Hfl).
    exists p, w2. split_and!; [done..|]. by rewrite Hv.
Qed.

(** Nothing is filtered out. *)
Definition unfiltered (o : RecoveryOptions) : Prop :=
  FromTime o = None /\ ToTime o = None /\ MetadataTypes o = [] /\ KeyPatterns o = [] /\ Mode o = RecoveryModeComplete.

Lemma filterEntries_all o es : unfiltered o -> filterEntries es o = es.
Proof.
  intros (H1 & H2 & H3 & H4 & _). unfold filterEntries. induction es as [|e es IH]; [done|]. cbn.
  unfold entry_passes at 1. rewrite H1, H2, H3, H4. cbn. by rewrite IH.
Qed.

(** The value of a covered key. *)
Definition backed_up (w : world) (key : string) : option rvalue :=
  match present w key with Some (v, _) => if covers key v then Some v else None | None => None end.

Lemma restored_values b w es : collected b w (fun _ => True) es -> forall key, restore_all es ∅ !! key = backed_up w key.
Proof.
  intros Hes key. unfold backed_up. destruct (decide (key ∈ e_Key <$> es)) as [Hin|Hout].
  - apply list_elem_of_fmap in Hin as (e & -> & He). rewrite restore_all_lookup by (done || apply Hes).
    destruct (co_sound _ _ _ _ Hes e He) as (_ & v & d & Hp & Hc & [Hv _ _ _]). rewrite Hp, Hc. f_equal. by apply entry_value_of.
  - rewrite restore_all_other, lookup_empty.
    + destruct (present w key) as [[v d]|] eqn:Hp; [|done]. destruct (covers key v) eqn:Hc; [|done].
      destruct (co_complete _ _ _ _ Hes key v d I Hp Hc) as (e & He & <-). destruct Hout. by apply list_elem_of_fmap_2.
    + intros e He <-. by apply Hout, list_elem_of_fmap_2.
Qed.

(** C28: A full backup taken in quiet times (the servers answer in time and
    nobody else writes) succeeds, and recovering the object it wrote into
    an empty Redis, encrypted or not, with or without overwriting and
    without filters, succeeds and leaves exactly the keys that the backup
    covers, each with the value it had. *)
Theorem backup_restores {J : SnapshotJSON} (st : storages) (nodeID : string) (config : BackupConfig) (zone b : Z)
    (nonce : option (list Z)) (w : world) :
  has_client st -> (forall w, object_store st w = (Ok tt, w)) -> ready b w -> mode w <> BackupModeIncremental ->
  utf8_ok nodeID = true -> key_ok (EncryptionEnabled config) (EncryptionKey config) nonce ->
  exists w1, performBackup st nodeID config zone nonce w = (Ok tt, w1) /\
    forall b2 w2 o, calm b2 w2 -> db w2 = ∅ -> objects w2 = objects w1 -> unfiltered o ->
      exists r w3,
        RecoverFromBackup st (Bucket config) (EncryptionEnabled config) (EncryptionKey config)
          (backup_object nodeID zone BackupModeFull (now w)) o w2 = (Ok (r, None), w3) /\
        Success r = true /\ EntriesError r = 0 /\ forall key, vals w3 !! key = backed_up w key.
Proof.
  intros Hst Hstore Hr Hm Hn Hk.
  destruct (full_backup st nodeID config zone Hst Hstore b w Hr nonce Hm Hn Hk) as (w1 & o1 & s & H1 & H2 & H3 & _ & Hes).
  exists w1. split; [done|]. intros b2 w2 o Hc Hdb Hobj Ho. unfold RecoverFromBackup.
  rewrite (bind_ok (asks now) _ w2 (now w2) w2) by done.
  assert (exists w3, downloadBackup st (Bucket config) (EncryptionEnabled config) (EncryptionKey config)
    (backup_object nodeID zone BackupModeFull (now w)) w2 = (Ok s, w3) /\ db w3 = ∅ /\ calm b2 w3) as (w3 & Hd & Hdb3 & Hc3).
  { unfold downloadBackup. rewrite (bind_ok _ _ _ _ _ (Hstore w2)). set (name := backup_object _ _ _ _) in *. unfold Server.GetObjectBytes.
    destruct (call_answered (fun w => (match objects w !! (Bucket config, name) with Some o => Ok (obj_data o) | None => Err NoSuchObject end, w)) b2 w2 Hc)
      as (t & l & Hg & Hc1 & _). cbv zeta in Hg, Hc1. cbn [objects] in Hg. rewrite Hobj, H2 in Hg. rewrite (bind_ok _ _ _ _ _ Hg).
    eexists. fold (opened (EncryptionEnabled config) (EncryptionKey config) (obj_data o1)). rewrite H3. by split. }
  rewrite (bind_ok (attempt _) _ w2 (Ok s) w3) by (unfold attempt; by rewrite Hd). unfold recover_snapshot.
  destruct (Ho) as (_ & _ & _ & _ & ->). rewrite (bind_ok (attempt _) _ w3 (Ok tt) w3) by (unfold attempt; by rewrite Hst).
  rewrite filterEntries_all by done.
  assert (vals w3 = ∅) as Hv3 by (unfold vals; by rewrite Hdb3, fmap_empty).
  destruct (recover_all_restores b2 o (s_Entries s) w3) as (p & w4 & Hp & He & Hv); [done| | |].
  - apply Forall_forall. intros e Hin. destruct (co_sound _ _ _ _ Hes e Hin) as (_ & v & d & Hpr & Hcv & [Hv _ _ _]).
    destruct (rd_readable _ _ Hr _ _ _ Hpr Hcv) as (_ & _ & Hne & _). by eapply good_entry.
  - rewrite Hv3. split; [apply Hes|]. intros e _. apply lookup_empty.
  - rewrite (bind_ok _ _ _ _ _ Hp). eexists _, w4. split; [done|]. cbn. rewrite He. split_and!; [done..|].
    intros key. rewrite Hv, Hv3. by apply (restored_values b).
Qed.
