(* ===== verification/MetadataDemo.v ===== *)
(** * The metadata manager at work

    Instances of the theorems on concrete worlds, and behaviours that are not
    what the manager means to do. *)

From S2P Require Import Prelude GoStrings GoTime FieldMapping WalCodec ConsistentHash GoCrypto RedisStore MetadataStore MetadataBackup MetadataSync MetadataFrames MetadataRoundtrip.
From Stdlib Require Import Ascii.
#[local] Open Scope Z_scope.

(** ** A codec *)

(** Documents as trees of texts and numbers. *)
Abbreviation tree := (gen_tree (string + Z)).
Definition leaf (s : string) : tree := GenLeaf (inl s).
Definition num (z : Z) : tree := GenLeaf (inr z).
Definition of_leaf (t : tree) : string := match t with GenLeaf (inl s) => s | _ => "" end.
Definition of_num (t : tree) : Z := match t with GenLeaf (inr z) => z | _ => 0 end.

Definition arg_tree (a : Server.arg) : tree :=
  match a with
  | Server.AText s => leaf s
  | Server.AScalar s p => GenNode 0 [leaf s; leaf p]
  | Server.ANested p => GenNode 1 [leaf p]
  end.
Definition tree_arg (t : tree) : Server.arg :=
  match t with GenNode 0 [s; p] => Server.AScalar (of_leaf s) (of_leaf p) | GenNode _ [p] => Server.ANested (of_leaf p) | t => Server.AText (of_leaf t) end.
Lemma tree_arg_tree a : tree_arg (arg_tree a) = a.
Proof. by destruct a. Qed.

Definition field_tree (p : string * Server.arg) : tree := GenNode 0 [leaf p.1; arg_tree p.2].
Definition tree_field (t : tree) : string * Server.arg := match t with GenNode _ [k; a] => (of_leaf k, tree_arg a) | _ => ("", Server.AText "") end.
Lemma tree_field_tree p : tree_field (field_tree p) = p.
Proof. destruct p. cbn. by rewrite tree_arg_tree. Qed.

Definition value_tree (v : evalue) : tree :=
  match v with
  | VText s => leaf s
  | VHash h => GenNode 1 (field_tree <$> map_to_list h)
  | VSet l => GenNode 2 (arg_tree <$> l)
  | VNil => GenNode 3 []
  | VScalar s p => GenNode 4 [leaf s; leaf p]
  end.
Definition tree_value (t : tree) : evalue :=
  match t with
  | GenNode 1 l => VHash (list_to_map (tree_field <$> l))
  | GenNode 2 l => VSet (tree_arg <$> l)
  | GenNode 4 [s; p] => VScalar (of_leaf s) (of_leaf p)
  | GenNode _ _ => VNil
  | t => VText (of_leaf t)
  end.
Lemma map_inverse {A B} (f : A -> B) (g : B -> A) (l : list A) : (forall a, g (f a) = a) -> g <$> (f <$> l) = l.
Proof. intros H. rewrite <- list_fmap_compose. transitivity (id <$> l); [by apply list_fmap_ext; intros; apply H | apply list_fmap_id]. Qed.
Lemma tree_value_tree v : tree_value (value_tree v) = v.
Proof.
  destruct v as [s|h|l| |s p]; try done; cbn.
  - by rewrite (map_inverse _ _ _ tree_field_tree), list_to_map_to_list.
  - by rewrite (map_inverse _ _ _ tree_arg_tree).
Qed.

Definition entry_tree (e : MetadataEntry) : tree := GenNode 0 [leaf (e_Type e); leaf (e_Key e); value_tree (e_Value e); num (e_Timestamp e); num (e_TTL e)].
Definition tree_entry (t : tree) : MetadataEntry :=
  match t with GenNode _ [a; b; c; d; e] => mkEntry (of_leaf a) (of_leaf b) (tree_value c) (of_num d) (of_num e) | _ => mkEntry "" "" VNil 0 0 end.
Lemma tree_entry_tree e : tree_entry (entry_tree e) = e.
Proof. destruct e. cbn. by rewrite tree_value_tree. Qed.

Definition snapshot_tree (s : BackupSnapshot) : tree :=
  GenNode 0 [leaf (s_NodeID s); GenNode 0 (num <$> option_list (s_Timestamp s)); leaf (s_Version s); GenNode 0 (entry_tree <$> s_Entries s);
    num (s_BackupMode s); leaf (s_BaseVersion s)].
Definition tree_snapshot (t : tree) : BackupSnapshot :=
  match t with
  | GenNode _ [n; GenNode _ ts; v; GenNode _ es; m; b] =>
      mkSnapshot (of_leaf n) (head (of_num <$> ts)) (of_leaf v) (tree_entry <$> es) (of_num m) (of_leaf b)
  | _ => mkSnapshot "" None "" [] 0 ""
  end.
Lemma tree_snapshot_tree s : tree_snapshot (snapshot_tree s) = s.
Proof. destruct s as [n [t|] v es m b]; cbn; by rewrite (map_inverse _ _ _ tree_entry_tree). Qed.

#[export] Instance snapshot_tree_inj : Inj (=) (=) snapshot_tree.
Proof. intros a b H. by rewrite <- (tree_snapshot_tree a), H, tree_snapshot_tree. Qed.
#[export] Instance snapshot_eq : EqDecision BackupSnapshot := inj_eq_dec snapshot_tree.
#[export] Instance snapshot_countable : Countable BackupSnapshot := inj_countable' snapshot_tree tree_snapshot tree_snapshot_tree.

Module MetadataDemo.

Lemma codec_roundtrip (s : BackupSnapshot) : plain_snapshot s = true ->
  exists data, Some (string_bytes (encode_text s)) = Some data /\ Forall is_byte data /\ decode_text (bytes_string data) = Some s.
Proof. intros _. eexists. split; [done|]. split; [apply string_bytes_bytes|]. by rewrite bytes_string_bytes, decode_encode_text. Qed.
#[export] Instance codec : SnapshotJSON := {|
  marshal_snapshot s := Some (string_bytes (encode_text s)); unmarshal_snapshot data := decode_text (bytes_string data);
  snapshot_roundtrip := codec_roundtrip;
|}.

(** ** A node *)

Definition noon : Z := 1709208000 * second.
Definition minutes (n : Z) : Z := n * 60 * second.
Definition pooled : option unified := Some (mkUnified RedisClient (RedisPool RedisClient)).
Definition st : storages := NewBackupManager pooled.
Definition secret : list Z := seqZ 1 32.
Definition cfg (enc : bool) : BackupConfig := mkBackupConfig 7 "meta" enc (if enc then secret else []).
Definition no_stats : BackupStats := mkStats 0 None 0 None (mkIncremental None "" 0 false).
Definition text (s : string) : cell := mkCell (RString s) None (noon - minutes 60).
Definition hash_cell (h : gmap string string) : cell := mkCell (RHash h) None (noon - minutes 60).
Definition start (d : gmap string cell) : world := mkWorld d ∅ noon [] BackupModeFull no_stats.
Definition orders : gmap string cell :=
  {[ "service:a" := mkCell (RSet {[ "x" ]}) None 0; "index:1" := text "f1"; "schema:t" := hash_cell {[ "id" := "int" ]};
     "table:t:config" := hash_cell {[ "ttl" := "9" ]}; "metadata:version" := text "1.0.4" ]}.
Definition object_of (m t : Z) : string := backup_object "n1" 0 m t.
Definition restore_opts (ow : bool) : RecoveryOptions := mkOptions None None [] [] RecoveryModeComplete ow false false.

Definition w1 : world := (performBackup st "n1" (cfg false) 0 None (start orders)).2.
Definition empty_redis (w : world) : world := set_db ∅ w.

(** Every covered key comes back; the configuration of the table, a hash, is
    not covered. *)
Example restored :
  map_to_list (vals (RecoverFromBackup st "meta" false [] (object_of 0 noon) (restore_opts true) (empty_redis w1)).2)
  = map_to_list {[ "service:a" := RSet {[ "x" ]}; "index:1" := RString "f1"; "schema:t" := RHash {[ "id" := "int" ]} ]} /\
  bool_decide (is_Some (objects w1 !! ("meta", "metadata-backup/n1/2024/02/29/backup_20240229_120000.json"))) = true.
Proof. split; vm_compute; reflexivity. Qed.

(** ** Incremental backups *)

Definition at_time (t : Z) (w : world) : world := mkWorld (db w) (objects w) t (net w) (mode w) (stats w).
Definition later_backup (d : gmap string cell) : world :=
  (performBackup st "n1" (cfg false) 0 None (at_time (noon + minutes 5) (set_mode BackupModeIncremental (set_db d w1)))).2.
Definition entries_of (w : world) (name : string) : option (list (string * evalue)) :=
  o ← objects w !! ("meta", name); s ← unmarshal_snapshot (obj_data o); Some ((fun e => (e_Key e, e_Value e)) <$> s_Entries s).
Definition state_keys (w : world) : gmap string cell := filter (fun p => String.prefix "metadata:" p.1 = true) (db w).

(** A key written one second before an incremental backup counts as unchanged
    for years and is left out; a key left alone for ten minutes is saved. *)
Definition changed_db : gmap string cell :=
  <["index:1" := mkCell (RString "f2") None (noon + minutes 5 - second)]> (<["index:2" := mkCell (RString "f3") None (noon - minutes 5)]> (state_keys w1)).
Example changed_key_skipped :
  timeSinceModification second = 10 ^ 18 /\ timeSinceModification (600 * second) < 0 /\
  entries_of (later_backup changed_db) (object_of BackupModeIncremental (noon + minutes 5)) = Some [("index:2", VText "f3")].
Proof. split_and!; vm_compute; reflexivity. Qed.

(** An incremental backup is not listed, so it is never recovered. *)
Example incremental_not_listed :
  match (ListBackups st "n1" "meta" 30 (later_backup changed_db)).1 with Ok l => ObjectName <$> l | Err _ => [] end = [object_of BackupModeFull noon] /\
  parseBackupTimestamp (object_of BackupModeIncremental (noon + minutes 5)) = None.
Proof. split; vm_compute; reflexivity. Qed.

(** ** The start of a node *)

Definition manager (enc : bool) : Config := mkConfig false (cfg enc) "meta".
Definition nonce : option (list Z) := Some (seqZ 0 12).
Definition started (enc : bool) (w : world) : world := (performStartupSync pooled None "n1" (manager enc) 0 nonce w).2.
Definition texts (w : world) : list (string * rvalue) := map_to_list (vals w).
Definition status_of (enc : bool) (w : world) : option version_status :=
  match (getEnhancedVersionInfo pooled None "n1" (manager enc) 0 w).1 with Ok vi => Some (Status vi) | Err _ => None end.

(** An empty Redis gets back the number of the version and nothing else. *)
Example lost_redis_stays_empty :
  status_of false (empty_redis w1) = Some redis_version_lost /\
  texts (started false (empty_redis w1)) =
    map_to_list {[ "metadata:version" := RString "1.0.5"; "metadata:version:timestamp" := RString "2024-02-29T12:00:00Z" ]}.
Proof. split_and!; vm_compute; reflexivity. Qed.

(** The version of an encrypted backup cannot be read, so an empty Redis counts
    as newer than it and is backed up over it. *)
Definition w1_encrypted : world := (performBackup st "n1" (cfg true) 0 nonce (start {[ "index:1" := text "f1" ]})).2.
Example encrypted_backup_ignored :
  status_of true (empty_redis w1_encrypted) = Some redis_newer /\
  (fst <$> texts (started true (at_time (noon + minutes 1) (empty_redis w1_encrypted)))) ≡ₚ
    [backupStateKey; backupLastFullTimeKey; backupLastFullVersion; backupIncrementalCount; "metadata:version"].
Proof. split; [vm_compute; reflexivity|]. apply (bool_decide_eq_true_1 _). vm_compute. reflexivity. Qed.

(** When one answer is lost, the version is taken for lost and set back to that
    of the backup. *)
Example lost_answer_sets_version_back :
  let ahead := set_db (<["metadata:version" := text "1.0.9"]> (db w1)) w1 in
  let w := started false (mkWorld (db ahead) (objects ahead) noon [(Answered, 0); (NotSent, second)] 0 no_stats) in
  held <$> db ahead !! "metadata:version" = Some (RString "1.0.9") /\ held <$> db w !! "metadata:version" = Some (RString "1.0.5").
Proof. split; vm_compute; reflexivity. Qed.

(** The stamp in the name is local time read as UTC: eight hours east of UTC a
    newer Redis is a conflict, eight hours west of it every backup is too old. *)
Definition zoned (zone : Z) : world := (performBackup st "n1" (cfg false) zone None (start orders)).2.
Definition next_version (w : world) : world := set_db (<["metadata:version" := text "1.0.6"]> (db w)) w.
Example zones_confuse_backups :
  let east := 8 * 3600 * second in
  match (getEnhancedVersionInfo pooled None "n1" (manager false) east (next_version (zoned east))).1 with Ok vi => Some (Status vi) | _ => None end = Some version_conflict /\
  (validateBackupSuccess pooled "n1" (manager false) (zoned (- east))).1 = Err BackupTooOld /\
  (validateBackupSuccess pooled "n1" (manager false) (zoned 0)).1 = Ok tt.
Proof. split_and!; vm_compute; reflexivity. Qed.

(** ** Recoveries *)

Definition holding (es : list MetadataEntry) (d : gmap string cell) : world :=
  mkWorld d {[ ("meta", object_of 0 noon) := mkObject (string_bytes (encode_text (mkSnapshot "n1" (Some noon) "1.0.3" es 0 ""))) noon ]} noon [] 0 no_stats.
Definition recovered (ow : bool) (w : world) : result meta_error (RecoveryResult * option meta_error) * world :=
  RecoverFromBackup st "meta" false [] (object_of 0 noon) (restore_opts ow) w.
Definition text_entry (k s : string) : MetadataEntry := mkEntry MetadataTypeDataIndex k (VText s) noon 0.
Definition hash_entry (k : string) (h : gmap string string) : MetadataEntry := mkEntry MetadataTypeTableSchema k (hash_value h) noon 0.
Definition outcome (r : result meta_error (RecoveryResult * option meta_error)) : option (bool * Z) :=
  match r with Ok (r, None) => Some (Success r, EntriesOK r) | _ => None end.

(** A transaction that fails is only logged: the recovery succeeds with nothing
    restored. *)
Example failed_batch_reported_ok :
  let w := holding [text_entry "index:1" "f1"] ∅ in
  let r := recovered true (mkWorld (db w) (objects w) noon [(Answered, 0); (NotSent, 0)] 0 no_stats) in
  outcome r.1 = Some (true, 1) /\ texts r.2 = [].
Proof. split; vm_compute; reflexivity. Qed.

(** One empty hash, as the collection makes of a schema that expired, aborts the
    transaction of all its neighbours. *)
Example empty_hash_drops_batch :
  let r := recovered true (holding [text_entry "index:1" "f1"; hash_entry "schema:gone" ∅] ∅) in outcome r.1 = Some (true, 2) /\ texts r.2 = [].
Proof. split; vm_compute; reflexivity. Qed.

(** Overwriting a hash keeps the fields that the backup does not have. *)
Example overwrite_merges_hashes :
  let w := (recovered true (holding [hash_entry "schema:t" {[ "id" := "int" ]}] {[ "schema:t" := hash_cell {[ "id" := "text"; "new" := "bool" ]} ]})).2 in
  held <$> db w !! "schema:t" = Some (RHash {[ "id" := "int"; "new" := "bool" ]}).
Proof. vm_compute. reflexivity. Qed.

(** The option [DryRun] does not keep the recovery from writing. *)
Example dry_run_option_writes :
  let o := mkOptions None None [] [] RecoveryModeComplete true false true in
  texts (RecoverFromBackup st "meta" false [] (object_of 0 noon) o (holding [text_entry "index:1" "f1"] ∅)).2 = [("index:1", RString "f1")].
Proof. vm_compute. reflexivity. Qed.

(** Different maps that print alike count as equal. *)
Example printed_alike :
  compareValues (hash_value {[ "a" := "1 b:2" ]}) (hash_value {[ "a" := "1"; "b" := "2" ]}) = true.
Proof. vm_compute. reflexivity. Qed.

(** ** Instances *)

Definition filled (v : rvalue) : bool := match v with RHash h => negb (bool_decide (h = ∅)) | RSet s => negb (bool_decide (s = ∅)) | _ => true end.
Definition lasting (p : string * cell) : bool :=
  bool_decide (deadline p.2 = None) && (negb (covers p.1 (held p.2)) || (utf8_ok p.1 && plain_value (evalue_of (held p.2)) && filled (held p.2))).

Lemma lasting_all d key c : forallb lasting (map_to_list d) = true -> d !! key = Some c -> lasting (key, c) = true.
Proof. intros H Hc. apply (proj1 (forallb_forall _ _) H), list_elem_of_In. by apply elem_of_map_to_list. Qed.
Lemma lasting_ready d b v : forallb lasting (map_to_list d) = true -> noon <= b < days 10000 1 1 * day_ns ->
  d !! version_key = Some (text v) -> (exists x y z, in_int64 z /\ v = version x y z) -> ready b (start d).
Proof.
  intros Hl Hb Hv Hver. split.
  - split; [constructor|cbn; lia].
  - intros key x dl Hc. unfold contents in Hc. cbn in Hc. destruct (d !! key) as [c|] eqn:E; [|done]. injection Hc as _ Hd.
    pose proof (lasting_all d key c Hl E) as H. apply andb_true_iff in H as [H _]. apply bool_decide_eq_true_1 in H. cbn in H. congruence.
  - split; [done|lia].
  - unfold present, live. cbn [db start]. rewrite Hv. cbn. destruct Hver as (x & y & z & Hz & ->). by exists x, y, z.
  - intros key x dl Hp Hc. unfold present, live in Hp. cbn [db start] in Hp. destruct (d !! key) as [c|] eqn:E; [|done]. cbn in Hp.
    pose proof (lasting_all d key c Hl E) as H. apply andb_true_iff in H as [H1 H2]. apply bool_decide_eq_true_1 in H1. cbn [fst snd] in *.
    destruct (alive _ c); [|done]. injection Hp as <- <-. rewrite Hc in H2. cbn in H2.
    apply andb_true_iff in H2 as [H2 H4]. apply andb_true_iff in H2 as [H2 H3]. split_and!; [done..| |by rewrite H1].
    destruct (held c); [done|..]; intros E'; cbn in H4; rewrite bool_decide_eq_true_2 in H4 by done; done.
Qed.

Lemma backup_restores_witness :
  exists w1, performBackup st "n1" (cfg true) 0 nonce (start orders) = (Ok tt, w1) /\
    forall b2 w2 o, calm b2 w2 -> db w2 = ∅ -> objects w2 = objects w1 -> unfiltered o ->
      exists r w3,
        RecoverFromBackup st "meta" true secret (backup_object "n1" 0 BackupModeFull noon) o w2 = (Ok (r, None), w3) /\
        Success r = true /\ EntriesError r = 0 /\ forall key, vals w3 !! key = backed_up (start orders) key.
Proof.
  apply (backup_restores st "n1" (cfg true) 0 (noon + minutes 10) nonce (start orders)).
  - intros w. reflexivity.
  - intros w. reflexivity.
  - apply (lasting_ready orders (noon + minutes 10) "1.0.4"); [vm_compute; reflexivity|split; vm_compute; done|reflexivity|].
    exists 1, 0, 4. split; [vm_compute; done|reflexivity].
  - done.
  - reflexivity.
  - intros _ _. split; [split; [reflexivity|]|by exists (seqZ 0 12)].
    apply (bool_decide_eq_true_1 (Forall (fun z => 0 <= z < 2 ^ 8) secret)). vm_compute. reflexivity.
Defined.

Definition behind : world := holding [text_entry "index:1" "old"] {[ "index:1" := text "new"; "metadata:version" := text "1.0.4" ]}.

Lemma startup_keeps_newer_metadata_witness : kept own_key behind (performStartupSync pooled None "n1" (manager false) 0 nonce behind).2.
Proof.
  apply (startup_keeps_newer_metadata pooled None "n1" (manager false) 0 nonce behind); [reflexivity|].
  intros v bv [d Hv] (name & o & s & _ & Ho & Hs & Hb). cbn [behind holding objects Bucket Backup manager cfg] in Ho.
  apply lookup_singleton_Some in Ho as [_ <-]. cbn [obj_data] in Hs. unfold unmarshal_snapshot, codec in Hs.
  rewrite bytes_string_bytes, decode_encode_text in Hs. injection Hs as <-. subst bv. cbn [s_Version].
  vm_compute in Hv. injection Hv as <- <-. vm_compute. done.
Defined.

Lemma recovery_keeps_existing_witness : contents (recovered false behind).2 "index:1" = Some (RString "new", None).
Proof.
  apply (recovery_keeps_existing st "meta" false [] (object_of 0 noon) (restore_opts false) behind "index:1" (RString "new") None);
    [reflexivity | constructor | reflexivity | exact I].
Defined.

Definition month_old : world := at_time (noon + 30 * day_ns) behind.
Lemma cleanup_removes_own_old_witness :
  "meta" = Bucket (cfg false) /\ String.prefix (own_prefix "n1") (object_of 0 noon) = true /\ noon < cutoff 7 (noon + 30 * day_ns).
Proof.
  apply (cleanup_removes_own_old st "n1" (cfg false) month_old "meta" (object_of 0 noon)
    (mkObject (string_bytes (encode_text (mkSnapshot "n1" (Some noon) "1.0.3" [text_entry "index:1" "old"] 0 ""))) noon)).
  - cbn [month_old at_time behind holding objects]. apply lookup_singleton_eq.
  - vm_compute. reflexivity.
Defined.

Lemma next_version_newer_witness :
  compareVersions (version 1 0 9) (version 1 0 10) = -1 /\ compareVersions (incrementVersion (version 1 0 9)) (version 1 0 9) = 1.
Proof.
  destruct (next_version_newer 1 0 9 1 0 10) as [H1 H2]; [vm_compute; done..|]. split; [exact H1 | apply H2; vm_compute; reflexivity].
Defined.
End MetadataDemo.
