(* ===== verification/BackupStore.v ===== *)
(** * The servers of the backups and the store of the plans
    (internal/backup/store.go, the calls of internal/storage/minio.go)

    Two object servers, the Redis keys of the plans and their executions, the
    maps that replace them while Redis does not answer, and the servers of the
    metadata manager, which share the clock and the script of answers. *)

From S2P Require Import Prelude GoStrings GoTime GoRegexp FieldMapping RedisStore MetadataStore MetadataBackup.
From Stdlib Require Import Ascii.
#[local] Open Scope Z_scope.

(** ** Data *)

(** [config.BackupSchedule] without its unexported field. *)
Record BackupSchedule := mkPlan {
  p_ID : string; p_Name : string; Enabled : bool; Interval : Z; CronExpr : string; BackupType : string; Tables : list string;
  p_RetentionDays : Z; System : bool; p_CreatedAt : Z; p_UpdatedAt : Z;
}.

Inductive ExecutionStatus := ExecutionStatusPending | ExecutionStatusRunning | ExecutionStatusCompleted | ExecutionStatusFailed.

Record BackupExecution := mkExecution {
  x_ID : string; x_PlanID : string; x_Status : ExecutionStatus; StartTime : Z; EndTime : option Z; x_Error : string; x_Manifest : string;
  x_CreatedAt : Z; x_UpdatedAt : Z;
}.

Inductive backup_error :=
  | Meta (e : meta_error) | NoSuchBucket | BucketTaken | EmptyPlanID | PlanIDTooLong | PlanIDChars | NilPlan | NilExecution | NoExecutionID | PlanNotFound
  | NotEncoded | NotDecoded | NoTarget | NoTableName | NoBackupID | NoMetadataManager | NoPrimaryUploader | NoRedisPool
  | MetadataBackupFailed (e : backup_error) | MetadataRestoreFailed (e : meta_error) | TableFailed (table : string) (e : backup_error)
  | BadCron | NoCronNorInterval | AlreadyRunning | PlanExists | SystemPlan | NoTablesGiven | SomeTablesFailed (l : list backup_error)
  | UnknownType | NoExecutor | NilPointer.

(** ** The state *)

Inductive site := PrimaryServer | BackupServer.
#[global] Instance site_eq_dec : EqDecision site.
Proof. solve_decision. Defined.
#[global] Program Instance site_countable : Countable site :=
  inj_countable (fun s => match s with PrimaryServer => true | BackupServer => false end)
    (fun b : bool => Some (if b then PrimaryServer else BackupServer)) _.
Next Obligation. by intros []. Qed.

(** The object server, the Redis keys and the clock of the metadata manager
    are in [base]; its object server is the primary one. The lists of the
    executions in memory hold pointers into [heap]. *)
Record bworld := mkB {
  base : world;
  remote : gmap (string * string) object;
  buckets : gset (site * string);
  plan_values : gmap string string;
  plan_lists : gmap string (list string);
  fb_plans : gmap string BackupSchedule;
  fb_executions : gmap string (list nat);
  heap : list BackupExecution;
}.

Definition set_base (b : world) (w : bworld) : bworld :=
  mkB b (remote w) (buckets w) (plan_values w) (plan_lists w) (fb_plans w) (fb_executions w) (heap w).
Definition set_buckets (b : gset (site * string)) (w : bworld) : bworld :=
  mkB (base w) (remote w) b (plan_values w) (plan_lists w) (fb_plans w) (fb_executions w) (heap w).
Definition set_plans (v : gmap string string) (l : gmap string (list string)) (w : bworld) : bworld :=
  mkB (base w) (remote w) (buckets w) v l (fb_plans w) (fb_executions w) (heap w).
Definition set_fallback (p : gmap string BackupSchedule) (x : gmap string (list nat)) (w : bworld) : bworld :=
  mkB (base w) (remote w) (buckets w) (plan_values w) (plan_lists w) p x (heap w).
Definition set_heap (h : list BackupExecution) (w : bworld) : bworld :=
  mkB (base w) (remote w) (buckets w) (plan_values w) (plan_lists w) (fb_plans w) (fb_executions w) h.

Definition held_objects (s : site) (w : bworld) : gmap (string * string) object :=
  match s with PrimaryServer => objects (base w) | BackupServer => remote w end.
Definition put_objects (s : site) (o : gmap (string * string) object) (w : bworld) : bworld :=
  match s with
  | PrimaryServer => set_base (set_objects o (base w)) w
  | BackupServer => mkB (base w) o (buckets w) (plan_values w) (plan_lists w) (fb_plans w) (fb_executions w) (heap w)
  end.

Abbreviation MB := (M bworld backup_error).

Definition bcall {A} (f : bworld -> result backup_error A * bworld) : MB A := fun w =>
  let '(a, d, l) := next_call (net (base w)) in
  let b := base w in
  let w := set_base (mkWorld (db b) (objects b) (now b + d) l (mode b) (stats b)) w in
  match a with
  | Answered => f w
  | ReplyLost => (Err (Meta CallLost), (f w).2)
  | NotSent => (Err (Meta CallLost), w)
  end.
Definition on_base {A} (m : MW A) : MB A := on_error Meta (zoom base set_base m).
Definition time_Now : MB Z := asks (fun w => now (base w)).

(** ** The object servers (minio.go) *)

Module Uploader.

Definition in_bucket {A} (s : site) (bucket : string) (f : bworld -> result backup_error A * bworld) : MB A :=
  bcall (fun w => if bool_decide ((s, bucket) ∈ buckets w) then f w else (Err NoSuchBucket, w)).

Definition BucketExists (s : site) (bucket : string) : MB bool :=
  bcall (fun w => (Ok (bool_decide ((s, bucket) ∈ buckets w)), w)).
(** A bucket that the caller already owns is an error too. *)
Definition MakeBucket (s : site) (bucket : string) : MB unit :=
  bcall (fun w => if bool_decide ((s, bucket) ∈ buckets w) then (Err BucketTaken, w)
                  else (Ok tt, set_buckets ({[(s, bucket)]} ∪ buckets w) w)).

Definition PutObject (s : site) (bucket name : string) (data : list Z) : MB unit :=
  in_bucket s bucket (fun w => (Ok tt, put_objects s (<[(bucket, name) := mkObject data (now (base w))]> (held_objects s w)) w)).
Definition GetObject (s : site) (bucket name : string) : MB (list Z) :=
  in_bucket s bucket (fun w =>
    (match held_objects s w !! (bucket, name) with Some o => Ok (obj_data o) | None => Err (Meta NoSuchObject) end, w)).
Definition RemoveObject (s : site) (bucket name : string) : MB unit :=
  in_bucket s bucket (fun w => (Ok tt, put_objects s (delete (bucket, name) (held_objects s w)) w)).

(** A copy within one server. *)
Definition CopyObject (s : site) (dst_bucket dst src_bucket src : string) : MB unit :=
  in_bucket s dst_bucket (fun w =>
    match held_objects s w !! (src_bucket, src) with
    | Some o => (Ok tt, put_objects s (<[(dst_bucket, dst) := mkObject (obj_data o) (now (base w))]> (held_objects s w)) w)
    | None => (Err (Meta NoSuchObject), w)
    end).

(** The part of a name up to its next slash. *)
Fixpoint to_slash (s : string) : option string :=
  match s with
  | "" => None
  | String c s => if bool_decide (c = "/"%char) then Some "/" else String c <$> to_slash s
  end.
(** What a listing that is not recursive makes of a name below the prefix. *)
Definition common_prefix (prefix : string) (o : Server.ObjectInfo) : option string :=
  (fun p => prefix +:+ p) <$> (cut_prefix prefix (Server.Name o) ≫= to_slash).

Definition by_name (a b : Server.ObjectInfo) : Prop := String.le (Server.Name a) (Server.Name b).
#[global] Instance by_name_dec a b : Decision (by_name a b).
Proof. unfold by_name. apply _. Defined.

(** The objects whose names start with the prefix; without recursion those
    below a further slash are replaced by their common prefixes, which have
    neither size nor time. *)
Definition listed (recursive : bool) (prefix : string) (l : list Server.ObjectInfo) : list Server.ObjectInfo :=
  if recursive then l
  else List.filter (fun o => negb (bool_decide (is_Some (common_prefix prefix o)))) l
       ++ ((fun p => Server.mkInfo p 0 GoFloat.zero_time) <$> remove_dups (omap (common_prefix prefix) l)).
Definition ListObjectsSimple (s : site) (bucket prefix : string) (recursive : bool) : MB (list Server.ObjectInfo) :=
  in_bucket s bucket (fun w =>
    (Ok (listed recursive prefix (merge_sort by_name (omap (Server.below bucket prefix) (map_to_list (held_objects s w))))), w)).

End Uploader.

(** ** Documents of plans and executions *)

Definition plain_plan (p : BackupSchedule) : bool :=
  forallb utf8_ok [p_ID p; p_Name p; CronExpr p; BackupType p] && forallb utf8_ok (Tables p) &&
  bool_decide (in_int64 (Interval p)) && bool_decide (in_int64 (p_RetentionDays p)) && year_ok (p_CreatedAt p) && year_ok (p_UpdatedAt p).
Definition plain_execution (x : BackupExecution) : bool :=
  forallb utf8_ok [x_ID x; x_PlanID x; x_Error x; x_Manifest x] && year_ok (StartTime x) &&
  match EndTime x with Some t => year_ok t | None => true end && year_ok (x_CreatedAt x) && year_ok (x_UpdatedAt x).

(** encoding/json of plans and executions of UTF-8 text. *)
Class PlanJSON := {
  marshal_plan : BackupSchedule -> option string;
  unmarshal_plan : string -> option BackupSchedule;
  marshal_execution : BackupExecution -> option string;
  unmarshal_execution : string -> option BackupExecution;
  plan_roundtrip p : plain_plan p = true -> exists d, marshal_plan p = Some d /\ unmarshal_plan d = Some p;
  execution_roundtrip x : plain_execution x = true -> exists d, marshal_execution x = Some d /\ unmarshal_execution d = Some x;
}.

(** ** RedisPlanStore *)

Definition alnum (c : ascii) : bool := is_word c && negb (bool_decide (c = "_"%char)).
Definition planIDRegex : regex :=
  Alt (seq [Begin; Cls alnum; star (Cls (fun c => alnum c || bool_decide (c = "-"%char))); Cls alnum; End_]) (seq [Begin; Cls alnum; End_]).

Definition validatePlanID (id : string) : option backup_error :=
  if bool_decide (id = "") then Some EmptyPlanID
  else if (64 <? String.length id)%nat then Some PlanIDTooLong
  else if negb (MatchString planIDRegex id) then Some PlanIDChars
  else None.
Definition valid_plan (id : string) : MB unit := match validatePlanID id with Some e => throw e | None => mret tt end.

Definition keyPrefix : string := "miniodb:backup".
Definition planKey (id : string) : string := keyPrefix +:+ ":plan:" +:+ id.
Definition plansListKey : string := keyPrefix +:+ ":plans".
Definition executionsKey (planID : string) : string := keyPrefix +:+ ":executions:" +:+ planID.

(** LREM with count 0, LPUSH and LTRIM of a list; an empty one is no key. *)
Definition list_at (key : string) (w : bworld) : list string := default [] (plan_lists w !! key).
Definition put_list (key : string) (l : list string) (m : gmap string (list string)) : gmap string (list string) :=
  match l with [] => delete key m | _ => <[key := l]> m end.
Definition LRem (key v : string) (w : bworld) : bworld :=
  set_plans (plan_values w) (put_list key (List.filter (fun x => negb (bool_decide (x = v))) (list_at key w)) (plan_lists w)) w.
Definition LPush (key v : string) (w : bworld) : bworld :=
  set_plans (plan_values w) (<[key := v :: list_at key w]> (plan_lists w)) w.
Definition LTrim (key : string) (n : nat) (w : bworld) : bworld :=
  set_plans (plan_values w) (put_list key (take n (list_at key w)) (plan_lists w)) w.
Definition Set_ (key v : string) (w : bworld) : bworld := set_plans (<[key := v]> (plan_values w)) (plan_lists w) w.
Definition Del (key : string) (w : bworld) : bworld := set_plans (delete key (plan_values w)) (delete key (plan_lists w)) w.

Section store.
(** [redis]: no pool, a pool without a client, or one with it. *)
Context {J : PlanJSON} (redis : option bool).

Definition isRedisAvailable : MB bool :=
  match redis with
  | Some true => r ← attempt (E1 := backup_error) (bcall (fun w => (Ok tt, w))); mret (is_ok r)
  | _ => mret false
  end.

(** In the order of the map, which Go leaves open. *)
Definition listPlansFallback : MB (list BackupSchedule) := asks (fun w => (map_to_list (fb_plans w)).*2).
Definition getPlanByIDFallback (id : string) : MB BackupSchedule := fun w =>
  match fb_plans w !! id with Some p => (Ok p, w) | None => (Err PlanNotFound, w) end.
Definition savePlanFallback (plan : BackupSchedule) : MB unit :=
  modifies (fun w => set_fallback (<[p_ID plan := plan]> (fb_plans w)) (fb_executions w) w).
Definition deletePlanFallback (id : string) : MB unit :=
  modifies (fun w => set_fallback (delete id (fb_plans w)) (delete id (fb_executions w)) w).

Definition getPlanByID (id : string) : MB BackupSchedule :=
  valid_plan id ;;
  available ← isRedisAvailable;
  if negb available then getPlanByIDFallback id else
  data ← bcall (fun w => (Ok (plan_values w !! planKey id), w));
  match data with
  | None => throw PlanNotFound
  | Some d => match unmarshal_plan d with Some p => mret p | None => throw NotDecoded end
  end.

(** The plans of the ids that can be read. *)
Fixpoint get_plans (ids : list string) : MB (list BackupSchedule) :=
  match ids with
  | [] => mret []
  | id :: ids => r ← attempt (getPlanByID id); ps ← get_plans ids; mret (match r with Ok p => p :: ps | Err _ => ps end)
  end.

Definition ListPlans : MB (list BackupSchedule) :=
  available ← isRedisAvailable;
  if negb available then listPlansFallback else
  r ← attempt (E1 := backup_error) (bcall (fun w => (Ok (list_at plansListKey w), w)));
  match r with Ok planIDs => get_plans planIDs | Err _ => listPlansFallback end.

(** The caller's plan is stamped as well. *)
Definition stamp_plan (now : Z) (p : BackupSchedule) : BackupSchedule :=
  mkPlan (p_ID p) (p_Name p) (Enabled p) (Interval p) (CronExpr p) (BackupType p) (Tables p) (p_RetentionDays p) (System p)
    (if p_CreatedAt p =? GoFloat.zero_time then now else p_CreatedAt p) now.

Definition save_plan_tx (id data : string) (w : bworld) : bworld :=
  LPush plansListKey id (LRem plansListKey id (Set_ (planKey id) data w)).
Definition SavePlan (plan : option BackupSchedule) : MB unit :=
  match plan with
  | None => throw NilPlan
  | Some plan =>
      valid_plan (p_ID plan) ;;
      now ← time_Now;
      let plan := stamp_plan now plan in
      available ← isRedisAvailable;
      if negb available then savePlanFallback plan else
      match marshal_plan plan with
      | None => throw NotEncoded
      | Some data =>
          r ← attempt (E1 := backup_error) (bcall (fun w => (Ok tt, save_plan_tx (p_ID plan) data w)));
          match r with Ok _ => mret tt | Err _ => savePlanFallback plan end
      end
  end.

Definition delete_plan_tx (id : string) (w : bworld) : bworld :=
  Del (executionsKey id) (LRem plansListKey id (Del (planKey id) w)).
Definition DeletePlan (id : string) : MB unit :=
  valid_plan id ;;
  available ← isRedisAvailable;
  if negb available then deletePlanFallback id else
  r ← attempt (E1 := backup_error) (bcall (fun w => (Ok tt, delete_plan_tx id w)));
  match r with Ok _ => mret tt | Err _ => deletePlanFallback id end.

Definition listExecutionsFallback (planID : string) (limit : nat) : MB (list BackupExecution) :=
  asks (fun w => omap (fun r => heap w !! r) (take limit (default [] (fb_executions w !! planID)))).

Definition ListExecutions (planID : string) (limit : Z) : MB (list BackupExecution) :=
  valid_plan planID ;;
  let limit := Z.to_nat (if limit <=? 0 then 100 else limit) in
  available ← isRedisAvailable;
  if negb available then listExecutionsFallback planID limit else
  r ← attempt (E1 := backup_error) (bcall (fun w => (Ok (take limit (list_at (executionsKey planID) w)), w)));
  match r with
  | Ok results => mret (omap unmarshal_execution results)
  | Err _ => listExecutionsFallback planID limit
  end.

Definition keep_executions : nat := 1000.

Definition prependExecution {A} (slice : list A) (item : A) : list A := item :: slice.
Definition saveExecutionFallback (planID : string) (exec : nat) : MB unit :=
  modifies (fun w => set_fallback (fb_plans w)
    (<[planID := take keep_executions (prependExecution (default [] (fb_executions w !! planID)) exec)]> (fb_executions w)) w).

Definition stamp_execution (now : Z) (x : BackupExecution) : BackupExecution :=
  mkExecution (x_ID x) (x_PlanID x) (x_Status x) (StartTime x) (EndTime x) (x_Error x) (x_Manifest x)
    (if x_CreatedAt x =? GoFloat.zero_time then now else x_CreatedAt x) now.

(** The commands of the pipeline are carried out one by one. *)
Definition push_and_trim (key data : string) : MB unit :=
  r1 ← attempt (E1 := backup_error) (bcall (fun w => (Ok tt, LPush key data w)));
  r2 ← attempt (E1 := backup_error) (bcall (fun w => (Ok tt, LTrim key keep_executions w)));
  match r1 with Err e => throw e | Ok _ => match r2 with Err e => throw e | Ok _ => mret tt end end.

(** [exec] is a pointer; no pointer is nil. *)
Definition SaveExecution (exec : nat) : MB unit :=
  x ← asks (fun w => heap w !! exec);
  match x with
  | None => throw NilExecution
  | Some x =>
      if bool_decide (x_ID x = "") then throw NoExecutionID else
      valid_plan (x_PlanID x) ;;
      now ← time_Now;
      let x := stamp_execution now x in
      modifies (fun w => set_heap (<[exec := x]> (heap w)) w) ;;
      available ← isRedisAvailable;
      if negb available then saveExecutionFallback (x_PlanID x) exec else
      match marshal_execution x with
      | None => throw NotEncoded
      | Some data =>
          r ← attempt (E1 := backup_error) (push_and_trim (executionsKey (x_PlanID x)) data);
          match r with Ok _ => mret tt | Err _ => saveExecutionFallback (x_PlanID x) exec end
      end
  end.

(** A new execution and later changes of it. *)
Definition new_execution (x : BackupExecution) : MB nat := fun w => (Ok (length (heap w)), set_heap (heap w ++ [x]) w).
Definition change_execution (r : nat) (f : BackupExecution -> BackupExecution) : MB unit :=
  modifies (fun w => set_heap (alter f r (heap w)) w).
End store.
