(* ===== verification/BackupExecutor.v ===== *)
(** * Backups of the data (internal/backup/executor.go, target.go)

    A full backup copies the objects of every table below
    [backups/<id>/data/] of the target bucket, one goroutine per table, and
    writes a manifest; a restore copies them back. Old backups are removed. *)

From S2P Require Import Prelude GoStrings GoTime GoFloat FieldMapping GoCrypto RedisStore TableConfig MetadataStore MetadataBackup MetadataSync BackupStore.
From Stdlib Require Import Ascii.
#[local] Open Scope Z_scope.

(** ** Goroutines *)

(** A goroutine in small steps; the last one changes what they share under
    the mutex. A schedule says which goroutine runs next; those it leaves
    unfinished run one after the other. *)
Section goroutines.
Context {W Er T Sh : Type} (step : T -> M W Er (T + (Sh -> Sh))) (size : T -> nat).

Fixpoint run_on (fuel : nat) (t : T) : M W Er (Sh -> Sh) :=
  match fuel with
  | O => mret (fun sh => sh)
  | S n => r ← step t; match r with inl t => run_on n t | inr f => mret f end
  end.
(** The size is known after the first step. *)
Definition complete (t : T) : M W Er (Sh -> Sh) :=
  r ← step t; match r with inl t => run_on (size t) t | inr f => mret f end.
Fixpoint finish (ts : list T) (sh : Sh) : M W Er Sh :=
  match ts with [] => mret sh | t :: ts => f ← complete t; finish ts (f sh) end.
Fixpoint interleave (sched : list nat) (ts : list T) (sh : Sh) : M W Er Sh :=
  match sched with
  | [] => finish ts sh
  | k :: sched =>
      let k := (k mod length ts)%nat in
      match ts !! k with
      | None => mret sh
      | Some t =>
          r ← step t;
          match r with inl t => interleave sched (<[k := t]> ts) sh | inr f => interleave sched (delete k ts) (f sh) end
      end
  end.
End goroutines.

(** ** Data *)

Definition BackupTypeFull : string := "full".
Definition BackupTypeTable : string := "table".
Definition BackupTypeMetadata : string := "metadata".

Record TableManifest := mkTableManifest { TableName : string; ObjectCount : Z; TotalSize : Z; tm_Status : string; FailedCount : Z }.
Record FullBackupManifest := mkFull {
  f_BackupID : string; f_Type : string; f_NodeID : string; f_Timestamp : Z; f_Tables : list TableManifest; f_MetadataBackup : string;
  f_Status : string; f_FailedCount : Z; f_Degraded : bool; f_Errors : list string;
}.
Record TableBackupManifest := mkTable {
  t_BackupID : string; t_Type : string; t_TableName : string; t_NodeID : string; t_Timestamp : Z; t_ObjectCount : Z; t_TotalSize : Z;
  t_MetadataBackup : string; t_Status : string; t_FailedCount : Z; t_Degraded : bool; t_Errors : list string;
}.
(** The durations are kept as numbers. *)
Record BackupResult := mkBackupResult {
  BackupID : string; Type_ : string; Status : string; r_ObjectCount : Z; r_TotalSize : Z; r_FailedCount : Z; Duration : Z; Degraded : bool;
  Errors : list backup_error; MetadataFile : string;
}.
Record RestoreResult := mkRestoreResult {
  rr_BackupID : string; rr_Status : string; rr_ObjectCount : Z; rr_Duration : Z; rr_Errors : list backup_error;
}.

Definition plain_manifest (m : FullBackupManifest) : bool :=
  forallb utf8_ok [f_BackupID m; f_Type m; f_NodeID m; f_MetadataBackup m; f_Status m] && year_ok (f_Timestamp m) &&
  forallb (fun t => utf8_ok (TableName t) && utf8_ok (tm_Status t)) (f_Tables m) && forallb utf8_ok (f_Errors m).
(** What the decoder of a full manifest finds in the document of a table: the
    other fields are ignored. *)
Definition as_full (m : TableBackupManifest) : FullBackupManifest :=
  mkFull (t_BackupID m) (t_Type m) (t_NodeID m) (t_Timestamp m) [] (t_MetadataBackup m) (t_Status m) (t_FailedCount m) (t_Degraded m) (t_Errors m).

(** encoding/json of manifests, configurations and maps. *)
Class ManifestJSON := {
  marshal_full : FullBackupManifest -> option (list Z);
  marshal_table : TableBackupManifest -> option (list Z);
  marshal_config : TableConfig.TableConfig -> option (list Z);
  marshal_map : gmap string string -> option (list Z);
  unmarshal_full : list Z -> option FullBackupManifest;
  full_roundtrip m : plain_manifest m = true -> exists d, marshal_full m = Some d /\ unmarshal_full d = Some m;
  table_roundtrip m : plain_manifest (as_full m) = true -> exists d, marshal_table m = Some d /\ unmarshal_full d = Some (as_full m);
}.

(** ** The target *)

Definition ModeBackupMinIO : string := "backup_minio".
Definition ModePrimaryMinIOIsolated : string := "primary_minio_isolated".

Record BackupTarget := mkTarget { Uploader_ : site; t_Bucket : string; t_IsDegraded : bool; Mode : string }.

#[global] Instance target_eq_dec : EqDecision BackupTarget.
Proof. solve_decision. Defined.

(** A pool: whether it has a client. *)
Definition ResolveBackupTarget (backup_endpoint backup_bucket primary_bucket : string) (backupPool primaryPool : option bool) : option BackupTarget :=
  match backupPool, bool_decide (backup_endpoint <> "") with
  | Some client, true => if client then Some (mkTarget BackupServer backup_bucket false ModeBackupMinIO) else None
  | _, _ =>
      match primaryPool with
      | None => None
      | Some client => if client then Some (mkTarget PrimaryServer (primary_bucket +:+ "-backups") true ModePrimaryMinIOIsolated) else None
      end
  end.

Definition EnsureBucket (t : BackupTarget) : MB unit :=
  exists_ ← Uploader.BucketExists (Uploader_ t) (t_Bucket t);
  if (exists_ : bool) then mret tt else Uploader.MakeBucket (Uploader_ t) (t_Bucket t).

(** ** The executor *)

(** The metadata manager, with what its managers were made from. *)
Record manager := mkManager { mm_storage : option unified; mm_cache : option client; mm_nodeID : string; mm_config : MetadataSync.Config; mm_zone : Z }.

(** The configuration is never nil. [planStore] has its own Redis pool. *)
Record Executor := mkExecutor {
  primaryUploader : bool; backupTarget : option BackupTarget; metadataMgr : option manager; redisPool : option bool;
  planStore : option (option bool); primaryBucket : string; cfg_RetentionDays : Z; nodeID : string;
}.
Definition NewExecutor (primary : bool) (target : option BackupTarget) (m : option manager) (redis : option bool) (store : option (option bool))
    (bucket : string) (retention : Z) : Executor :=
  mkExecutor primary target m redis store bucket retention (match m with Some m => mm_nodeID m | None => "unknown" end).
Definition IsDegraded (e : Executor) : bool := match backupTarget e with Some t => t_IsDegraded t | None => false end.

Section executor.
Context {J : SnapshotJSON} {JP : PlanJSON} {JM : ManifestJSON} {JC : ConfigJSON} (error_text : backup_error -> string).
(** SCAN hands the matching keys out in batches. *)
Context (batches : list string -> list (list string)).
Context (e : Executor).

Definition backups_dir (backupID : string) : string := "backups/" +:+ backupID +:+ "/".
Definition data_dir (backupID : string) : string := backups_dir backupID +:+ "data/".
Definition manifest_key (backupID : string) : string := backups_dir backupID +:+ "manifest.json".

(** *** One table *)

Inductive phase := Start | Copying (todo : list Server.ObjectInfo) | ListFailed (err : backup_error).
Record copier := mkCopier { g_table : string; g_phase : phase; g_copied : Z; g_failed : Z; g_size : Z }.
Definition new_copier (table : string) : copier := mkCopier table Start 0 0 0.
Definition copier_size (g : copier) : nat := match g_phase g with Copying l => S (length l) | _ => 1 end.

Definition table_objects (tableName : string) : MB (list Server.ObjectInfo) :=
  if negb (primaryUploader e) then throw NoPrimaryUploader else
  Uploader.ListObjectsSimple PrimaryServer (primaryBucket e) (tableName +:+ "/") true.

Definition copy_object (t : BackupTarget) (backupID : string) (o : Server.ObjectInfo) (g : copier) (todo : list Server.ObjectInfo) : MB copier :=
  r ← attempt (E1 := backup_error)
        (Uploader.CopyObject (Uploader_ t) (t_Bucket t) (data_dir backupID +:+ Server.Name o) (primaryBucket e) (Server.Name o));
  mret (match r with
        | Ok _ => mkCopier (g_table g) (Copying todo) (g_copied g + 1) (g_failed g) (int64 (g_size g + Server.Size o))
        | Err _ => mkCopier (g_table g) (Copying todo) (g_copied g) (g_failed g + 1) (g_size g)
        end).

Definition table_manifest (g : copier) : TableManifest :=
  if 0 <? g_failed g then mkTableManifest (g_table g) (g_copied g) (g_size g) "partial" (g_failed g)
  else mkTableManifest (g_table g) (g_copied g) (g_size g) "completed" 0.

(** What the goroutines of a full backup share. *)
Record shared := mkShared { sh_errors : list backup_error; sh_tables : list TableManifest; totalObjects : Z; totalSize : Z; totalFailed : Z }.
Definition add_failed (table : string) (err : backup_error) (s : shared) : shared :=
  mkShared (sh_errors s ++ [TableFailed table err]) (sh_tables s ++ [mkTableManifest table 0 0 "failed" 0])
    (totalObjects s) (totalSize s) (totalFailed s).
Definition add_table (tm : TableManifest) (s : shared) : shared :=
  mkShared (sh_errors s) (sh_tables s ++ [tm]) (totalObjects s + ObjectCount tm) (int64 (totalSize s + TotalSize tm)) (totalFailed s + FailedCount tm).

(** One step of [backupTable] in its goroutine. *)
Definition backup_step (t : BackupTarget) (backupID : string) (g : copier) : MB (copier + (shared -> shared)) :=
  match g_phase g with
  | Start =>
      r ← attempt (table_objects (g_table g));
      mret (inl (mkCopier (g_table g) (match r with Ok l => Copying l | Err err => ListFailed err end) 0 0 0))
  | ListFailed err => mret (inr (add_failed (g_table g) err))
  | Copying [] => mret (inr (add_table (table_manifest g)))
  | Copying (o :: l) => g ← copy_object t backupID o g l; mret (inl g)
  end.

(** [backupTable] on its own. *)
Fixpoint copy_objects (t : BackupTarget) (backupID : string) (l : list Server.ObjectInfo) (g : copier) : MB copier :=
  match l with [] => mret g | o :: l => g ← copy_object t backupID o g l; copy_objects t backupID l g end.
Definition backupTable (t : BackupTarget) (tableName backupID : string) : MB TableManifest :=
  objs ← table_objects tableName;
  g ← copy_objects t backupID objs (new_copier tableName);
  mret (table_manifest g).

(** The part of a name before its first slash. *)
Definition table_of (name : string) : option string :=
  let '(table, rest) := span (fun c => negb (bool_decide (c = "/"%char))) name in if bool_decide (rest = "") then None else Some table.
Definition listTables : MB (list string) :=
  if negb (primaryUploader e) then throw NoPrimaryUploader else
  objs ← Uploader.ListObjectsSimple PrimaryServer (primaryBucket e) "" false;
  mret (remove_dups (omap (fun o => table_of (Server.Name o)) objs)).

(** *** Old backups *)

Definition backup_directory (name : string) : option string :=
  match Split "/" name with a :: b :: _ => Some (a +:+ "/" +:+ b) | _ => None end.
(** The directories with the time of their newest object. *)
Definition newest (dirs : gmap string Z) (o : Server.ObjectInfo) : gmap string Z :=
  match backup_directory (Server.Name o) with
  | None => dirs
  | Some d =>
      match dirs !! d with
      | Some t => if t <? Server.Modified o then <[d := Server.Modified o]> dirs else dirs
      | None => <[d := Server.Modified o]> dirs
      end
  end.

Definition removeBackupDirectory (t : BackupTarget) (backupPrefix : string) : MB unit :=
  objs ← Uploader.ListObjectsSimple (Uploader_ t) (t_Bucket t) backupPrefix true;
  each (fun o => attempt (E1 := backup_error) (Uploader.RemoveObject (Uploader_ t) (t_Bucket t) (Server.Name o)) ;; mret tt) objs.
Definition try_remove (t : BackupTarget) (backupPrefix : string) : MB unit :=
  attempt (E1 := backup_error) (removeBackupDirectory t backupPrefix) ;; mret tt.

(** [AddDate(0, 0, -days)] in a zone without daylight saving. *)
Definition cutoff_time (retentionDays : Z) : MB Z := t ← time_Now; mret (cutoff retentionDays t).

Definition cleanupExpiredBackups (t : BackupTarget) (retentionDays : Z) : MB unit :=
  if retentionDays <=? 0 then mret tt else
  cut ← cutoff_time retentionDays;
  objs ← Uploader.ListObjectsSimple (Uploader_ t) (t_Bucket t) "backups/" true;
  each (fun d => if d.2 <? cut then try_remove t (d.1 +:+ "/") else mret tt) (map_to_list (foldl newest ∅ objs)).

Definition cleanupExpiredTableBackups (t : BackupTarget) (tableName : string) (retentionDays : Z) : MB unit :=
  if retentionDays <=? 0 then mret tt else
  cut ← cutoff_time retentionDays;
  objs ← Uploader.ListObjectsSimple (Uploader_ t) (t_Bucket t) ("backups/table-" +:+ tableName +:+ "-") false;
  each (fun o => if Server.Modified o <? cut then try_remove t (Server.Name o) else mret tt) objs.

Definition CleanupByPlan (t : BackupTarget) (backupType : string) (tables : list string) (retentionDays : Z) : MB unit :=
  if retentionDays <=? 0 then mret tt
  else if bool_decide (backupType = BackupTypeFull) then attempt (E1 := backup_error) (cleanupExpiredBackups t retentionDays) ;; mret tt
  else if bool_decide (backupType = BackupTypeTable) then
    each (fun tableName => attempt (E1 := backup_error) (cleanupExpiredTableBackups t tableName retentionDays) ;; mret tt) tables
  else if bool_decide (backupType = BackupTypeMetadata) then attempt (E1 := backup_error) (cleanupExpiredBackups t retentionDays) ;; mret tt
  else mret tt.

(** *** Records of the executions *)

Definition recorded (planID : string) : bool := negb (bool_decide (planID = "")) && bool_decide (is_Some (planStore e)).
Definition save_execution (x : nat) : MB unit :=
  match planStore e with Some redis => attempt (E1 := backup_error) (SaveExecution redis x) ;; mret tt | None => mret tt end.
Definition ended (s : ExecutionStatus) (t : Z) (manifest : string) (err : string) (x : BackupExecution) : BackupExecution :=
  mkExecution (x_ID x) (x_PlanID x) s (StartTime x) (Some t) err manifest (x_CreatedAt x) (x_UpdatedAt x).
Definition start_execution (backupID planID : string) (startTime : Z) : MB nat :=
  x ← new_execution (mkExecution ("exec-" +:+ backupID +:+ "-" +:+ Itoa startTime) planID ExecutionStatusRunning startTime None "" "" zero_time zero_time);
  (if recorded planID then save_execution x else mret tt) ;;
  mret x.

(** *** A full backup *)

Definition ManualBackup (m : manager) (nonce : option (list Z)) : MB unit :=
  on_base (bm_performBackup (mm_storage m) (mm_nodeID m) (mm_config m) (mm_zone m) nonce).

(** The name that the manifest gives to the backup of the metadata, and the
    errors. *)
Definition full_metadata (nonce : option (list Z)) (startTime : Z) : MB (string * list backup_error) :=
  match metadataMgr e with
  | None => mret ("", [])
  | Some m =>
      r ← attempt (ManualBackup m nonce);
      mret (match r with
            | Ok _ => ("metadata-" +:+ nodeID e +:+ "-" +:+ Itoa (startTime / second), [])
            | Err err => ("", [MetadataBackupFailed err])
            end)
  end.

Definition encoded (d : option (list Z)) : MB (list Z) := match d with Some d => mret d | None => throw NotEncoded end.
Definition upload (t : BackupTarget) (key : string) (d : option (list Z)) : MB unit :=
  d ← encoded d; Uploader.PutObject (Uploader_ t) (t_Bucket t) key d.

Definition first_error (l : list backup_error) : string := match l with [] => "" | err :: _ => error_text err end.

Definition FullBackup (nonce : option (list Z)) (sched : list nat) (backupID planID : string) : MB BackupResult :=
  startTime ← time_Now;
  match backupTarget e with
  | None => throw NoTarget
  | Some t =>
      let backupID := if bool_decide (backupID = "") then "full-" +:+ nodeID e +:+ "-" +:+ Itoa (startTime / second) else backupID in
      EnsureBucket t ;;
      x ← start_execution backupID planID startTime;
      '(metadataBackupID, errs) ← full_metadata nonce startTime;
      tables ← listTables;
      sh ← interleave (backup_step t backupID) copier_size sched (new_copier <$> tables) (mkShared errs [] 0 0 0);
      let status := if negb (bool_decide (sh_errors sh = [])) || (0 <? totalFailed sh) then "partial" else "completed" in
      let manifest := mkFull backupID BackupTypeFull (nodeID e) startTime (sh_tables sh) metadataBackupID status (totalFailed sh) (t_IsDegraded t) [] in
      upload t (manifest_key backupID) (marshal_full manifest) ;;
      endTime ← time_Now;
      (if recorded planID then
         change_execution x (ended (if bool_decide (status = "partial") then ExecutionStatusFailed else ExecutionStatusCompleted) endTime
           (manifest_key backupID) (first_error (sh_errors sh))) ;;
         save_execution x
       else mret tt) ;;
      (if 0 <? cfg_RetentionDays e
       then attempt (E1 := backup_error) (cleanupExpiredBackups t (cfg_RetentionDays e)) ;; mret tt else mret tt) ;;
      mret (mkBackupResult backupID BackupTypeFull status (totalObjects sh) (totalSize sh) (totalFailed sh) (endTime - startTime) (t_IsDegraded t)
              (sh_errors sh) (manifest_key backupID))
  end.

(** *** The backup of one table *)

(** [GetTableConfig] of the metadata manager. *)
Definition decoded_config (s : string) : MB (option TableConfig.TableConfig) :=
  match unmarshal_metadata s with Some d => mret (Some (md_Config d)) | None => throw NotDecoded end.
Definition getTableConfigFromMinio (m : manager) (tableName : string) : MB (option TableConfig.TableConfig) :=
  let bucket := MetadataBackup.Bucket (Backup (mm_config m)) in
  if bool_decide (mm_storage m = None) || bool_decide (bucket = "") then mret None else
  r ← attempt (on_base (Server.GetObjectBytes bucket ("_system/table_configs/" +:+ tableName +:+ ".json")));
  match r with
  | Ok d => decoded_config (bytes_string d)
  | Err (Meta NoSuchObject) => mret None
  | Err err => throw err
  end.
Definition GetTableConfig (m : manager) (tableName : string) : MB (option TableConfig.TableConfig) :=
  c ← attempt (on_base (m_getRedisClient (mm_storage m) (mm_cache m)));
  match c with
  | Err _ => getTableConfigFromMinio m tableName
  | Ok _ =>
      r ← on_base (Server.Get ("metadata:table_config:" +:+ tableName));
      match r with None => mret None | Some s => decoded_config s end
  end.
Definition table_config (tableName : string) : MB (option TableConfig.TableConfig) :=
  match metadataMgr e with
  | None => mret None
  | Some m => r ← attempt (E1 := backup_error) (GetTableConfig m tableName); mret (match r with Ok c => c | Err _ => None end)
  end.

(** The values of the string keys of a batch. *)
Fixpoint read_keys (keys : list string) (acc : gmap string string) : MB (gmap string string) :=
  match keys with
  | [] => mret acc
  | key :: keys =>
      r ← attempt (on_base (Server.Get key));
      read_keys keys (match r with Ok (Some v) => <[key := v]> acc | _ => acc end)
  end.
(** The SCAN of a later batch. *)
Definition next_batch : MB unit := bcall (fun w => (Ok tt, w)).
Fixpoint read_batches (bs : list (list string)) (acc : gmap string string) : MB (gmap string string) :=
  match bs with
  | [] => mret acc
  | b :: bs => acc ← read_keys b acc; (match bs with [] => mret tt | _ => next_batch end) ;; read_batches bs acc
  end.
Definition collectTableRedisMetadata (tableName : string) : MB (gmap string string) :=
  match redisPool e with
  | Some true => keys ← on_base (Server.Keys ("table:" +:+ tableName +:+ ":")); read_batches (batches keys) ∅
  | _ => throw NoRedisPool
  end.

Definition errors_of {A} (r : result backup_error A) : list backup_error := match r with Ok _ => [] | Err err => [err] end.

Definition upload_config (t : BackupTarget) (backupID : string) (c : option TableConfig.TableConfig) : MB (list backup_error) :=
  match c with
  | None => mret []
  | Some c => r ← attempt (E1 := backup_error) (upload t (backups_dir backupID +:+ "table-config.json") (marshal_config c)); mret (errors_of r)
  end.
Definition upload_redis (t : BackupTarget) (backupID tableName : string) : MB (list backup_error) :=
  if bool_decide (redisPool e = None) then mret [] else
  r ← attempt (E1 := backup_error) (collectTableRedisMetadata tableName);
  match r with
  | Err err => mret [err]
  | Ok m =>
      if bool_decide (m = ∅) then mret [] else
      r ← attempt (E1 := backup_error) (upload t (backups_dir backupID +:+ "redis-metadata.json") (marshal_map m)); mret (errors_of r)
  end.

Definition table_retention (c : option TableConfig.TableConfig) : Z :=
  match c with
  | Some c => if 0 <? TableConfig.RetentionDays c then TableConfig.RetentionDays c else Z.max 0 (cfg_RetentionDays e)
  | None => Z.max 0 (cfg_RetentionDays e)
  end.

Definition TableBackup (tableName planID : string) : MB BackupResult :=
  startTime ← time_Now;
  match backupTarget e with
  | None => throw NoTarget
  | Some t =>
      if bool_decide (tableName = "") then throw NoTableName else
      let backupID := "table-" +:+ tableName +:+ "-" +:+ nodeID e +:+ "-" +:+ Itoa (startTime / second) in
      EnsureBucket t ;;
      x ← start_execution backupID planID startTime;
      c ← table_config tableName;
      tm ← backupTable t tableName backupID;
      let manifest := mkTable backupID BackupTypeTable tableName (nodeID e) startTime (ObjectCount tm) (TotalSize tm) "" (tm_Status tm)
                        (FailedCount tm) (t_IsDegraded t) [] in
      errs ← upload_config t backupID c;
      errs' ← upload_redis t backupID tableName;
      upload t (manifest_key backupID) (marshal_table manifest) ;;
      endTime ← time_Now;
      (if recorded planID then
         change_execution x (ended (if bool_decide (tm_Status tm = "partial") then ExecutionStatusFailed else ExecutionStatusCompleted) endTime
           (manifest_key backupID) "") ;;
         save_execution x
       else mret tt) ;;
      (if 0 <? table_retention c
       then attempt (E1 := backup_error) (cleanupExpiredTableBackups t tableName (table_retention c)) ;; mret tt else mret tt) ;;
      mret (mkBackupResult backupID BackupTypeTable (tm_Status tm) (ObjectCount tm) (TotalSize tm) (FailedCount tm) (endTime - startTime)
              (t_IsDegraded t) (errs ++ errs') (manifest_key backupID))
  end.

(** *** The backup of the metadata *)

(** A nil target panics here. *)
Definition MetadataBackup_ (nonce : option (list Z)) (planID : string) : MB BackupResult :=
  startTime ← time_Now;
  let backupID := "metadata-" +:+ nodeID e +:+ "-" +:+ Itoa (startTime / second) in
  match metadataMgr e, backupTarget e with
  | None, _ => throw NoMetadataManager
  | Some _, None => throw NilPointer
  | Some m, Some t =>
      EnsureBucket t ;;
      x ← start_execution backupID planID startTime;
      r ← attempt (ManualBackup m nonce);
      endTime ← time_Now;
      let '(status, err) := match r with Ok _ => (ExecutionStatusCompleted, "") | Err err => (ExecutionStatusFailed, error_text err) end in
      (if recorded planID then change_execution x (ended status endTime "" err) ;; save_execution x else mret tt) ;;
      match r with
      | Ok _ => mret (mkBackupResult backupID BackupTypeMetadata "completed" 0 0 0 (endTime - startTime) (t_IsDegraded t) [] "")
      | Err err => throw (MetadataBackupFailed err)
      end
  end.

(** *** A restore *)

Record restorer := mkRestorer { rs_table : string; rs_phase : phase; rs_count : Z }.
Definition restorer_size (g : restorer) : nat := match rs_phase g with Copying l => S (length l) | _ => 1 end.

Record restored := mkRestored { rd_errors : list backup_error; rd_objects : Z }.
Definition restore_failed (table : string) (err : backup_error) (s : restored) : restored :=
  mkRestored (rd_errors s ++ [TableFailed table err]) (rd_objects s).
Definition restore_done (count : Z) (s : restored) : restored := mkRestored (rd_errors s) (rd_objects s + count).

Definition backup_objects (t : BackupTarget) (tableName backupID : string) : MB (list Server.ObjectInfo) :=
  if negb (primaryUploader e) then throw NoPrimaryUploader else
  Uploader.ListObjectsSimple (Uploader_ t) (t_Bucket t) (data_dir backupID +:+ tableName +:+ "/") true.

Fixpoint string_drop (n : nat) (s : string) : string :=
  match n, s with O, _ => s | S n, String _ s => string_drop n s | S _, "" => "" end.

(** One step of [restoreTable] in its goroutine. *)
Definition restore_step (t : BackupTarget) (backupID : string) (g : restorer) : MB (restorer + (restored -> restored)) :=
  match rs_phase g with
  | Start =>
      r ← attempt (backup_objects t (rs_table g) backupID);
      mret (inl (mkRestorer (rs_table g) (match r with Ok l => Copying l | Err err => ListFailed err end) 0))
  | ListFailed err => mret (inr (restore_failed (rs_table g) err))
  | Copying [] => mret (inr (restore_done (rs_count g)))
  | Copying (o :: l) =>
      let originalKey := string_drop (String.length (data_dir backupID)) (Server.Name o) in
      r ← attempt (E1 := backup_error) (Uploader.CopyObject PrimaryServer (primaryBucket e) originalKey (t_Bucket t) (Server.Name o));
      mret (inl (mkRestorer (rs_table g) (Copying l) (rs_count g + (if is_ok r then 1 else 0))))
  end.

Definition restore_options : RecoveryOptions := mkOptions None None [] [] RecoveryModeComplete true true false.
Definition restore_metadata (name : string) : MB (list backup_error) :=
  match metadataMgr e with
  | Some m =>
      if bool_decide (name = "") then mret [] else
      r ← attempt (on_base (rm_RecoverFromBackup (mm_storage m) (mm_config m) name restore_options));
      mret (match r with Ok (_, None) => [] | Ok (_, Some err) => [MetadataRestoreFailed err] | Err err => [err] end)
  | None => mret []
  end.

Definition Restore (sched : list nat) (backupID : string) : MB RestoreResult :=
  startTime ← time_Now;
  match backupTarget e with
  | None => throw NoTarget
  | Some t =>
      if bool_decide (backupID = "") then throw NoBackupID else
      d ← Uploader.GetObject (Uploader_ t) (t_Bucket t) (manifest_key backupID);
      match unmarshal_full d with
      | None => throw NotDecoded
      | Some manifest =>
          errs ← restore_metadata (f_MetadataBackup manifest);
          let tables := List.filter (fun tm => negb (bool_decide (tm_Status tm = "failed"))) (f_Tables manifest) in
          sh ← interleave (restore_step t backupID) restorer_size sched ((fun tm => mkRestorer (TableName tm) Start 0) <$> tables) (mkRestored errs 0);
          endTime ← time_Now;
          mret (mkRestoreResult backupID (if bool_decide (rd_errors sh = []) then "completed" else "partial") (rd_objects sh)
                  (endTime - startTime) (rd_errors sh))
      end
  end.
End executor.
