(* ===== verification/BackupTheorems.v ===== *)
(** * Backups that say they are complete can be restored

    For any answers of the servers and any interleaving of the goroutines: what
    a completed full backup holds, what the removal of old backups leaves, and
    that a restore brings the objects of the tables back. *)

From S2P Require Import Prelude GoStrings GoTime GoFloat FieldMapping RedisStore TableConfig MetadataStore MetadataBackup MetadataSync MetadataFrames MetadataRoundtrip BackupStore BackupExecutor.
From Stdlib Require Import Ascii.
#[local] Open Scope Z_scope.

(** ** Time *)

(** The answers that were taken, and the time they took. *)
Definition total (l : list (answer * Z)) : Z := foldr (fun p n => p.2 + n) 0 l.
Definition on_time (w w' : world) : Prop := exists l, net w = l ++ net w' /\ now w' = now w + total l.

Lemma delays_app l l' : total (l ++ l') = total l + total l'.
Proof. induction l as [|p l IH]; cbn [total foldr app] in *; [done|]. fold (total (l ++ l')) (total l). lia. Qed.

#[export] Instance on_time_preorder : PreOrder on_time.
Proof.
  split; [intros w; exists []; cbn; split; [done|lia]|]. intros w1 w2 w3 (l & N1 & E1) (l' & N2 & E2).
  exists (l ++ l'). rewrite delays_app, N1, N2, app_assoc. split; [done|lia].
Qed.
Lemma on_time_same w w' : net w' = net w -> now w' = now w -> on_time w w'.
Proof. intros Hn Ht. exists []. rewrite Hn, Ht. cbn. split; [done|lia]. Qed.

Lemma call_time {A} (f : world -> result meta_error A * world) : (forall w, net (f w).2 = net w /\ now (f w).2 = now w) -> keeps on_time (call f).
Proof.
  intros Hf w. unfold call. destruct (next_call (net w)) as [[a d] l] eqn:En.
  set (w1 := mkWorld _ _ _ _ _ _). assert (on_time w w1) as H1.
  { destruct (net w) as [|[a' d'] l'] eqn:E; injection En as <- <- <-; [exists []|exists [(a', d')]]; cbn; rewrite E; split; try done; lia. }
  assert (on_time w1 (f w1).2) as H2 by (apply on_time_same; apply Hf). destruct a; cbn [fst snd]; [by etrans..|done].
Qed.
Lemma pure_time {A} (f : world -> result meta_error A) : keeps on_time (fun w => (f w, w)).
Proof. intros w. apply on_time_same; done. Qed.
Lemma modifies_time {E} (f : world -> world) : (forall w, net (f w) = net w /\ now (f w) = now w) -> keeps on_time (modifies f : M world E unit).
Proof. intros Hf w. apply on_time_same; apply Hf. Qed.

Lemma touch_time key w : net (touch key w) = net w /\ now (touch key w) = now w.
Proof. unfold touch. by destruct (live w key). Qed.
Lemma run1_time c w : net (Server.run1 c w).2 = net w /\ now (Server.run1 c w).2 = now w.
Proof.
  pose proof (touch_time (cmd_key c) w). destruct c as [k v t|k fs|k l|k t]; cbn in *; [done|destruct (live w k) as [c|]; [|done]..];
    [destruct (held c); done..|done].
Qed.
Lemma run_all_time cs w : net (Server.run_all cs w).2 = net w /\ now (Server.run_all cs w).2 = now w.
Proof.
  revert w. induction cs as [|c cs IH]; intros w; [done|]. cbn [Server.run_all]. pose proof (run1_time c w) as H.
  destruct (Server.run1 c w) as [o1 w1]. specialize (IH w1). destruct (Server.run_all cs w1). cbn in *. intuition congruence.
Qed.

Create HintDb timed.
Ltac one_call := apply call_time; intros ?; cbn; try done; repeat (case_match; cbn); try done; apply touch_time.
Lemma Keys_time p : keeps on_time (Server.Keys p).
Proof. one_call. Qed.
Lemma Type_time key : keeps on_time (Server.Type_ key).
Proof. one_call. Qed.
Lemma TTL_time key : keeps on_time (Server.TTL key).
Proof. one_call. Qed.
Lemma ObjectIdleTime_time key : keeps on_time (Server.ObjectIdleTime key).
Proof. one_call. Qed.
Lemma Get_time key : keeps on_time (Server.Get key).
Proof. one_call. Qed.
Lemma HGetAll_time key : keeps on_time (Server.HGetAll key).
Proof. one_call. Qed.
Lemma SMembers_time key : keeps on_time (Server.SMembers key).
Proof. one_call. Qed.
Lemma Exists_time key : keeps on_time (Server.Exists key).
Proof. one_call. Qed.
Lemma Set_time key v ttl : keeps on_time (Server.Set_ key v ttl).
Proof. one_call. Qed.
Lemma Incr_time key : keeps on_time (Server.Incr key).
Proof. one_call. Qed.
Lemma PutObject_time b n d : keeps on_time (Server.PutObject b n d).
Proof. one_call. Qed.
Lemma GetObjectBytes_time b n : keeps on_time (Server.GetObjectBytes b n).
Proof. one_call. Qed.
Lemma Exec_time cs : keeps on_time (Server.Exec cs).
Proof.
  unfold Server.Exec. destruct cs as [|c cs]; [apply (keeps_ret on_time)|]. destruct (negb _); [apply (keeps_throw on_time)|].
  apply call_time. intros w. destruct (existsb _ _); [done|]. pose proof (run_all_time (c :: cs) w) as H.
  by destruct (Server.run_all (c :: cs) w) as [[] w1].
Qed.
Lemma lift_time {A} (r : result meta_error A) : keeps on_time (lift r).
Proof. apply pure_time. Qed.
Lemma client_time st : keeps on_time (getRedisClient st).
Proof. apply pure_time. Qed.
Lemma store_time st : keeps on_time (object_store st).
Proof. apply pure_time. Qed.
#[export] Hint Resolve keeps_ret keeps_throw keeps_asks keeps_attempt keeps_on_error Keys_time Type_time TTL_time ObjectIdleTime_time Get_time
  HGetAll_time SMembers_time Exists_time Set_time Incr_time PutObject_time GetObjectBytes_time Exec_time lift_time client_time store_time : timed.
#[export] Hint Extern 0 (PreOrder _) => typeclasses eauto : timed.

Ltac steps db := repeat (first
  [ solve [eauto with db]
  | apply keeps_bind; [apply _| |intros]
  | apply keeps_attempt
  | match goal with |- keeps _ (match ?x with _ => _ end) => destruct x end ]).

Lemma gather_time f ks : (forall k, keeps on_time (f k)) -> keeps on_time (gather f ks).
Proof. intros Hf. induction ks as [|k ks IH]; cbn [gather]; steps timed. Qed.
Lemma gather_patterns_time f ps : (forall k, keeps on_time (f k)) -> keeps on_time (gather_patterns f ps).
Proof. intros Hf. induction ps as [|p ps IH]; cbn [gather_patterns]; steps timed. by apply gather_time. Qed.
Lemma collect_parts_time ms : Forall (keeps on_time) ms -> keeps on_time (collect_parts ms).
Proof. induction 1 as [|m ms Hm Hms IH]; cbn [collect_parts]; steps timed. Qed.
Lemma typed_entry_time t s b key : keeps on_time (typed_entry t s b key).
Proof. unfold typed_entry, ttl_of, value_of. steps timed. Qed.
Lemma index_entry_time key : keeps on_time (index_entry key).
Proof. unfold index_entry. steps timed. Qed.
Lemma schema_entry_time key : keeps on_time (schema_entry key).
Proof. unfold schema_entry. steps timed. Qed.
Lemma if_changed_time since f key : keeps on_time (f key) -> keeps on_time (if_changed since f key).
Proof. intros Hf. unfold if_changed. steps timed. Qed.
#[export] Hint Resolve gather_time gather_patterns_time collect_parts_time typed_entry_time index_entry_time schema_entry_time if_changed_time : timed.

Lemma collectMetadata_time st : keeps on_time (collectMetadata st).
Proof.
  unfold collectMetadata, collectServiceRegistry, collectDataIndex, collectTableSchema, collectClusterInfo, service_entry, cluster_entry.
  steps timed.
Qed.
Lemma collectIncremental_time st since : keeps on_time (collectMetadataIncremental st since).
Proof.
  unfold collectMetadataIncremental, collectServiceRegistryIncremental, collectDataIndexIncremental, collectTableSchemaIncremental,
    collectClusterInfoIncremental, service_entry, cluster_entry.
  steps timed.
Qed.
#[export] Hint Resolve collectMetadata_time collectIncremental_time : timed.
Lemma updateStats_time E t m : keeps on_time (modifies (updateStatsWithMode t m) : M world E unit).
Proof. by apply modifies_time. Qed.
#[export] Hint Resolve updateStats_time : timed.

Lemma performBackup_time `{SnapshotJSON} st n c zone nonce : keeps on_time (performBackup st n c zone nonce).
Proof.
  unfold performBackup, changed_entries, determineBackupMode, getLastFullBackupTime, getLastBackupTime, getCurrentAndIncrementVersion,
    getLastFullBackupVersion, updateBackupState.
  steps timed.
Qed.

Lemma recover_loop_time o es p : keeps on_time (recover_loop o es p).
Proof. revert p. induction es as [|e es IH]; intros p; cbn [recover_loop]; unfold recoverEntry, flush_pipe; steps timed. Qed.
#[export] Hint Resolve recover_loop_time : timed.
Lemma RecoverFromBackup_time `{SnapshotJSON} st b en k n o : keeps on_time (RecoverFromBackup st b en k n o).
Proof. unfold RecoverFromBackup, downloadBackup, recover_snapshot, recover_all, flush_pipe. steps timed. Qed.

(** A recovery writes no object. *)
Abbreviation no_objects := (read_only (fun _ => True)).
Lemma Exec_any cs : keeps no_objects (Server.Exec cs).
Proof. apply Exec_ro. by apply Forall_true. Qed.
#[local] Hint Resolve Exec_any : meta.
Lemma recover_loop_objects o es p : keeps no_objects (recover_loop o es p).
Proof. revert p. induction es as [|e es IH]; intros p; cbn [recover_loop]; unfold recoverEntry, flush_pipe; frames. Qed.
#[local] Hint Resolve recover_loop_objects : meta.
Lemma RecoverFromBackup_objects `{SnapshotJSON} st b en k n o : keeps no_objects (RecoverFromBackup st b en k n o).
Proof. unfold RecoverFromBackup, downloadBackup, recover_snapshot, recover_all, flush_pipe. frames. Qed.

(** ** Computations of the backups *)

Lemma run_bind {W Er A B} (m : M W Er A) (f : A -> M W Er B) w b w' :
  (m ≫= f) w = (Ok b, w') -> exists a w1, m w = (Ok a, w1) /\ f a w1 = (Ok b, w').
Proof. unfold mbind, M_bind. destruct (m w) as [[a|x] w1]; [|done]. intros H. by exists a, w1. Qed.
Lemma run_attempt {W E1 E2 A} (m : M W E1 A) w r w' : (attempt m : M W E2 _) w = (Ok r, w') -> m w = (r, w').
Proof. unfold attempt. destruct (m w) as [r1 w1]. by intros [= -> ->]. Qed.
Lemma run_keeps {W Er A} R (m : M W Er A) w r w' : keeps R m -> m w = (r, w') -> R w w'.
Proof. intros Hk E. specialize (Hk w). by rewrite E in Hk. Qed.

Definition timely (w w' : bworld) : Prop := on_time (base w) (base w').
#[export] Instance timely_preorder : PreOrder timely.
Proof. split; [by intros w; apply on_time_same | intros w1 w2 w3; apply on_time_preorder]. Qed.
(** Also the same objects and buckets. *)
Definition same_objects (w w' : bworld) : Prop :=
  timely w w' /\ objects (base w') = objects (base w) /\ remote w' = remote w /\ buckets w' = buckets w.
#[export] Instance same_objects_preorder : PreOrder same_objects.
Proof.
  split; [by intros w; split; [reflexivity|]|]. intros w1 w2 w3 (T1 & O1 & R1 & B1) (T2 & O2 & R2 & B2).
  split; [by etrans | split_and!; congruence].
Qed.

(** The world when the server acts on a call. *)
Definition reached (w w1 : bworld) : Prop := same_objects w w1 /\ plan_values w1 = plan_values w /\ plan_lists w1 = plan_lists w /\
  fb_plans w1 = fb_plans w /\ fb_executions w1 = fb_executions w /\ heap w1 = heap w /\ db (base w1) = db (base w) /\ (net (base w) = [] -> now (base w1) = now (base w)).
Lemma bcall_run {A} (f : bworld -> result backup_error A * bworld) w : exists w1, reached w w1 /\
  ((bcall f w = f w1 /\ (net (base w) = [] -> net (base w1) = [])) \/ net (base w) <> [] /\ (bcall f w = (Err (Meta CallLost), (f w1).2) \/ bcall f w = (Err (Meta CallLost), w1))).
Proof.
  unfold bcall. destruct (next_call (net (base w))) as [[a d] l] eqn:En. set (b1 := mkWorld _ _ _ _ _ _). exists (set_base b1 w).
  assert (on_time (base w) b1) as H1.
  { destruct (net (base w)) as [|[a' d'] l'] eqn:E; injection En as <- <- <-; [exists []|exists [(a', d')]]; cbn; rewrite E; split; try done; lia. }
  assert (net (base w) = [] -> a = Answered /\ d = 0 /\ l = []) as H2 by (intros E; rewrite E in En; by injection En as <- <- <-).
  split; [|destruct a; [left; split; [done|]; intros E; cbn; by apply H2|right..]].
  - split_and!; try done. intros E. cbn. destruct (H2 E) as (_ & -> & _). lia.
  - split; [intros E; by destruct (H2 E)|by left].
  - split; [intros E; by destruct (H2 E)|by right].
Qed.
Lemma reached_same w w1 : reached w w1 -> same_objects w w1.
Proof. by intros []. Qed.
Lemma bcall_keeps {A} R `{!PreOrder R} (f : bworld -> result backup_error A * bworld) :
  (forall w w1, same_objects w w1 -> R w w1) -> (forall w, R w (f w).2) -> keeps R (bcall f).
Proof.
  intros Hs Hf w. destruct (bcall_run f w) as (w1 & H1%reached_same%Hs & [[-> _]|[_ [->| ->]]]); [|cbn; by etrans|done].
  etrans; [exact H1|apply Hf].
Qed.

Lemma on_base_keeps {A} (R : bworld -> bworld -> Prop) (m : MW A) S :
  keeps S m -> (forall w b, S (base w) b -> R w (set_base b w)) -> keeps R (on_base m).
Proof.
  intros Hm HR w. unfold on_base, on_error. pose proof (keeps_zoom R S base set_base m Hm HR w) as H.
  by destruct (zoom base set_base m w) as [[] w1].
Qed.

Create HintDb bframes.
#[export] Hint Resolve keeps_ret keeps_throw keeps_asks keeps_attempt keeps_on_error : bframes.
#[export] Hint Extern 0 (PreOrder _) => typeclasses eauto : bframes.

Lemma call_same {A} (f : bworld -> result backup_error A * bworld) : (forall w, same_objects w (f w).2) -> keeps same_objects (bcall f).
Proof. by apply bcall_keeps; [apply _|]. Qed.
Lemma modifies_same {E} (f : bworld -> bworld) : (forall w, same_objects w (f w)) -> keeps same_objects (modifies f : M bworld E unit).
Proof. intros Hf w. apply Hf. Qed.
Lemma same_plain w w' : base w' = base w -> remote w' = remote w -> buckets w' = buckets w -> same_objects w w'.
Proof. intros Hb Hr Hk. unfold same_objects, timely. rewrite Hb. split; [reflexivity|done]. Qed.

Lemma SaveExecution_same `{PlanJSON} redis x : keeps same_objects (SaveExecution redis x).
Proof.
  unfold SaveExecution, saveExecutionFallback, push_and_trim, isRedisAvailable, valid_plan, time_Now.
  steps bframes; try (apply modifies_same; intros w; by apply same_plain); apply call_same; intros w; by apply same_plain.
Qed.

(** ** Interleavings *)

(** An invariant of the goroutines, what they share and the state holds when
    all of them are done; [P]: a goroutine after its first step. *)
Section interleavings.
Context {W Er T Sh : Type} (step : T -> M W Er (T + (Sh -> Sh))) (size : T -> nat) (P : T -> Prop) (I : list T -> Sh -> W -> Prop).
Hypothesis step_size : forall t w t' w', step t w = (Ok (inl t'), w') -> P t' /\ (P t -> (size t' < size t)%nat).
Hypothesis size_pos : forall t, P t -> (0 < size t)%nat.
Hypothesis step_inl : forall ts k t sh w t' w', I ts sh w -> ts !! k = Some t -> step t w = (Ok (inl t'), w') -> I (<[k := t']> ts) sh w'.
Hypothesis step_inr : forall ts k t sh w f w', I ts sh w -> ts !! k = Some t -> step t w = (Ok (inr f), w') -> I (delete k ts) (f sh) w'.

Lemma run_on_inv n t ts sh w f w' : P t -> (size t <= n)%nat -> I (t :: ts) sh w -> run_on step n t w = (Ok f, w') -> I ts (f sh) w'.
Proof.
  revert t w. induction n as [|n IH]; intros t w Ht Hn HI Hr; [pose proof (size_pos t Ht); lia|]. cbn [run_on] in Hr.
  apply run_bind in Hr as ([t'|g] & w1 & Hs & Hr).
  - destruct (step_size _ _ _ _ Hs) as [Ht' Hlt]. specialize (Hlt Ht).
    apply (IH t' w1); [done|lia|exact (step_inl (t :: ts) 0 t sh w t' w1 HI eq_refl Hs)|done].
  - injection Hr as <- <-. exact (step_inr (t :: ts) 0 t sh w g w1 HI eq_refl Hs).
Qed.
Lemma finish_inv ts sh w sh' w' : I ts sh w -> finish step size ts sh w = (Ok sh', w') -> I [] sh' w'.
Proof.
  revert sh w. induction ts as [|t ts IH]; intros sh w HI Hr; cbn [finish] in Hr; [by injection Hr as <- <-|].
  apply run_bind in Hr as (f & w1 & Hc & Hr). refine (IH (f sh) w1 _ Hr). unfold complete in Hc.
  apply run_bind in Hc as ([t'|g] & w2 & Hs & Hc).
  - eapply (run_on_inv (size t') t'); [by eapply step_size|done|exact (step_inl (t :: ts) 0 t sh w t' w2 HI eq_refl Hs)|done].
  - injection Hc as <- <-. exact (step_inr (t :: ts) 0 t sh w g w2 HI eq_refl Hs).
Qed.
Lemma interleave_inv sched ts sh w sh' w' : I ts sh w -> interleave step size sched ts sh w = (Ok sh', w') -> I [] sh' w'.
Proof.
  revert ts sh w. induction sched as [|k sched IH]; intros ts sh w HI Hr; cbn [interleave] in Hr; [by eapply finish_inv|].
  destruct (ts !! _) as [t|] eqn:Ht.
  - apply run_bind in Hr as ([t'|g] & w1 & Hs & Hr); eapply IH; [by eapply step_inl|done|by eapply step_inr|done].
  - injection Hr as <- <-. destruct ts as [|t ts]; [done|]. apply lookup_ge_None in Ht.
    pose proof (Nat.mod_upper_bound k (length (t :: ts)) ltac:(done)). lia.
Qed.
End interleavings.

Lemma interleave_ok {W Er T Sh} (step : T -> M W Er (T + (Sh -> Sh))) size :
  (forall t w, is_ok (step t w).1 = true) -> forall sched ts sh w, is_ok (interleave step size sched ts sh w).1 = true.
Proof.
  intros Hs.
  assert (forall n t w, is_ok (run_on step n t w).1 = true) as Hr.
  { induction n as [|n IH]; intros t w; [done|]. cbn [run_on]. unfold mbind, M_bind. specialize (Hs t w).
    destruct (step t w) as [[[t'|g]|]]; [apply IH|done|done]. }
  assert (forall ts sh w, is_ok (finish step size ts sh w).1 = true) as Hf.
  { induction ts as [|t ts IH]; intros sh w; [done|]. cbn [finish]. unfold mbind, M_bind, complete. specialize (Hs t w). unfold mbind, M_bind.
    destruct (step t w) as [[[t'|g]|] w1]; [|apply IH|done]. specialize (Hr (size t') t' w1). destruct (run_on _ _ _ _) as [[]]; [apply IH|done]. }
  induction sched as [|k sched IH]; intros ts sh w; [apply Hf|]. cbn [interleave]. destruct (ts !! _) as [t|]; [|done].
  unfold mbind, M_bind. specialize (Hs t w). destruct (step t w) as [[[t'|g]|]]; [apply IH|apply IH|done].
Qed.

(** ** Names and listings *)

Lemma span_no_slash s a r : span (fun c => negb (bool_decide (c = "/"%char))) s = (a, r) -> r <> "" -> exists r', s = a +:+ "/" +:+ r'.
Proof.
  revert a. induction s as [|c s IH]; intros a H Hr; cbn in H; [by injection H as <- <-|].
  case_bool_decide as Hc; cbn in H.
  - injection H as <- <-. exists s. by subst.
  - destruct (span _ s) as [a' r''] eqn:E. injection H as <- <-. destruct (IH a' eq_refl Hr) as [r' ->]. by exists r'.
Qed.
Lemma table_of_some name T : table_of name = Some T -> exists rest, name = T +:+ "/" +:+ rest /\ has_char "/" T = false.
Proof.
  unfold table_of. destruct (span _ name) as [a r] eqn:E. case_bool_decide as Hr; [done|]. intros [= ->].
  destruct (span_no_slash _ _ _ E Hr) as [r' ->]. exists r'. split; [done|].
  clear Hr. revert r r' E. induction T as [|c T IH]; intros r r' E; [done|].
  change (String c T +:+ "/" +:+ r') with (String c (T +:+ "/" +:+ r')) in E. cbn [span] in E.
  case_bool_decide as Hc; cbn [negb] in E; [by injection E|]. destruct (span _ (T +:+ "/" +:+ r')) as [a' r''] eqn:E'. injection E as -> _.
  cbn [has_char]. rewrite (bool_decide_eq_false_2 (c = "/"%char)) by done. by eapply IH.
Qed.

Lemma held_same s w w' : same_objects w w' -> held_objects s w' = held_objects s w.
Proof. intros (_ & Ho & Hr & _). by destruct s. Qed.

Lemma bcall_read {A} (f : bworld -> result backup_error A) w r w' :
  bcall (fun w => (f w, w)) w = (r, w') -> same_objects w w' /\ (forall a, r = Ok a -> f w' = Ok a).
Proof.
  destruct (bcall_run (fun w => (f w, w)) w) as (w1 & H1%reached_same & [[-> _]|[_ [->| ->]]]); intros [= <- <-]; (split; [done|]); by intros a.
Qed.

Lemma list_run s b p rec w r w' : Uploader.ListObjectsSimple s b p rec w = (r, w') -> same_objects w w' /\
  forall l, r = Ok l -> exists l0, l = Uploader.listed rec p l0 /\
    forall i, i ∈ l0 <-> exists o, held_objects s w !! (b, Server.Name i) = Some o /\ String.prefix p (Server.Name i) = true /\
      i = Server.mkInfo (Server.Name i) (Zlength (obj_data o)) (LastModified o).
Proof.
  unfold Uploader.ListObjectsSimple, Uploader.in_bucket. intros H.
  set (lst := fun w => Uploader.listed rec p (merge_sort Uploader.by_name (omap (Server.below b p) (map_to_list (held_objects s w))))).
  pose proof (bcall_read (fun w => if bool_decide ((s, b) ∈ buckets w) then Ok (lst w) else Err NoSuchBucket) w r w') as Hr.
  assert (bcall (fun w => (if bool_decide ((s, b) ∈ buckets w) then Ok (lst w) else Err NoSuchBucket, w)) w = (r, w')) as H'.
  { rewrite <- H. unfold bcall. destruct (next_call (net (base w))) as [[[] d] l0]; try done; case_bool_decide; done. }
  destruct (Hr H') as [Hs Hl]. split; [done|]. intros l E. specialize (Hl l E). rewrite <- (held_same s _ _ Hs).
  case_bool_decide; [|done]. injection Hl as <-. eexists. split; [done|]. intros i. rewrite merge_sort_Permutation, list_elem_of_omap. split.
  - intros ([[b' n] o] & Ho%elem_of_map_to_list & Hb). unfold Server.below in Hb. cbn in Hb. case_bool_decide; [|done]. subst b'.
    destruct (String.prefix p n) eqn:Hp; [|done]. injection Hb as <-. cbn. eauto.
  - intros (o & Ho & Hp & Hi). exists (b, Server.Name i, o). rewrite elem_of_map_to_list. split; [done|]. unfold Server.below. cbn.
    rewrite bool_decide_eq_true_2, Hp by done. cbn. by rewrite <- Hi.
Qed.

Lemma to_slash_some T rest : has_char "/" T = false -> Uploader.to_slash (T +:+ "/" +:+ rest) = Some (T +:+ "/").
Proof.
  induction T as [|c T IH]; intros H; [done|]. cbn [has_char] in H. apply orb_false_iff in H as [Hc%bool_decide_eq_false H].
  change (String c T +:+ "/" +:+ rest) with (String c (T +:+ "/" +:+ rest)). cbn [Uploader.to_slash].
  rewrite bool_decide_eq_false_2, (IH H) by done. done.
Qed.
Lemma table_of_slash T rest : has_char "/" T = false -> table_of (T +:+ "/" +:+ rest) = Some T.
Proof.
  intros H. unfold table_of.
  assert (span (fun c => negb (bool_decide (c = "/"%char))) (T +:+ "/" +:+ rest) = (T, "/" +:+ rest)) as ->; [|done].
  induction T as [|c T IH]; [done|]. cbn [has_char] in H. apply orb_false_iff in H as [Hc%bool_decide_eq_false H].
  change (String c T +:+ "/" +:+ rest) with (String c (T +:+ "/" +:+ rest)). cbn [span].
  rewrite bool_decide_eq_false_2, (IH H) by done. done.
Qed.

Lemma to_slash_inv s p : Uploader.to_slash s = Some p -> exists T rest, has_char "/" T = false /\ s = T +:+ "/" +:+ rest /\ p = T +:+ "/".
Proof.
  revert p. induction s as [|c s IH]; intros p H; [done|]. cbn [Uploader.to_slash] in H. case_bool_decide as Hc.
  - injection H as <-. exists "", s. by subst.
  - destruct (Uploader.to_slash s) as [q|]; [|done]. injection H as <-. destruct (IH q eq_refl) as (T & rest & HT & -> & ->).
    exists (String c T), rest. cbn [has_char]. by rewrite bool_decide_eq_false_2, HT.
Qed.

Lemma listTables_run e w tables w' : listTables e w = (Ok tables, w') -> same_objects w w' /\
  forall T, T ∈ tables <-> exists name o, objects (base w) !! (primaryBucket e, name) = Some o /\ table_of name = Some T.
Proof.
  unfold listTables. destruct (primaryUploader e); [|done]. cbn [negb]. intros (l & w1 & Hl & H)%run_bind. injection H as <- <-.
  apply list_run in Hl as [Hs Hl]. split; [done|]. destruct (Hl l eq_refl) as (l0 & -> & Hin). clear Hl. intros T.
  rewrite elem_of_remove_dups, list_elem_of_omap. unfold Uploader.listed, Uploader.common_prefix. cbn [held_objects] in Hin. split.
  - intros (i & [Hi|Hi]%elem_of_app & HT).
    + apply list_elem_of_In, filter_In in Hi as [Hi%list_elem_of_In Hn]. apply negb_true_iff, bool_decide_eq_false in Hn.
      apply Hin in Hi as (o & Ho & _). exists (Server.Name i), o. done.
    + apply list_elem_of_fmap in Hi as (p & -> & Hp). rewrite elem_of_remove_dups, list_elem_of_omap in Hp. destruct Hp as (i & Hi & Hc).
      cbn [cut_prefix fmap option_fmap option_map mbind option_bind] in Hc.
      destruct (Uploader.to_slash (Server.Name i)) as [q|] eqn:Hq; [|done]. injection Hc as <-.
      apply to_slash_inv in Hq as (T' & rest & Hn & HN & ->). apply Hin in Hi as (o & Ho & _). exists (Server.Name i), o. split; [done|].
      rewrite HN, table_of_slash by done. cbn [Server.Name] in HT. change ("" +:+ T' +:+ "/") with (T' +:+ "/" +:+ "") in HT.
      by rewrite table_of_slash in HT.
  - intros (name & o & Ho & HT). destruct (table_of_some _ _ HT) as (rest & -> & Hn).
    exists (Server.mkInfo (T +:+ "/") 0 zero_time). split.
    + apply elem_of_app. right. apply list_elem_of_fmap. exists (T +:+ "/"). split; [done|]. rewrite elem_of_remove_dups, list_elem_of_omap.
      exists (Server.mkInfo (T +:+ "/" +:+ rest) (Zlength (obj_data o)) (LastModified o)).
      split; [apply Hin; cbn [Server.Name]; exists o; split; [exact Ho|split; [by destruct T|reflexivity]]|].
      cbn [cut_prefix Server.Name fmap option_fmap option_map mbind option_bind]. by rewrite to_slash_some.
    + cbn [Server.Name]. change (T +:+ "/") with (T +:+ "/" +:+ ""). by rewrite table_of_slash.
Qed.

(** ** The copies of a full backup *)

Lemma string_cancel_l a x y : a +:+ x = a +:+ y -> x = y.
Proof. induction a as [|c a IH]; [done|]. intros H. injection H as H. auto. Qed.

Lemma elem_of_deleted {A} (l : list A) k x y : l !! k = Some y -> x ∈ l -> x = y \/ x ∈ delete k l.
Proof.
  intros Hk Hx. rewrite <- (take_drop_middle l k y Hk) in Hx. rewrite delete_take_drop.
  apply elem_of_app in Hx as [Hx|[->|Hx]%elem_of_cons]; [right; set_solver|by left|right; set_solver].
Qed.

Section full.
Context (e : Executor) (t : BackupTarget) (backupID : string).
Hypothesis same_server : Uploader_ t = PrimaryServer.
Hypothesis other_bucket : t_Bucket t <> primaryBucket e.
(** The objects when the goroutines start. *)
Context (O0 : gmap (string * string) object).
Abbreviation pb := (primaryBucket e).
Abbreviation tb := (t_Bucket t).
Abbreviation dd := (data_dir backupID).

Definition primary_kept (w : bworld) : Prop := forall name, objects (base w) !! (pb, name) = O0 !! (pb, name).
Definition copied (w : bworld) (name : string) : Prop := forall o, O0 !! (pb, name) = Some o ->
  exists o', objects (base w) !! (tb, dd +:+ name) = Some o' /\ obj_data o' = obj_data o.
Definition of_table (T name : string) : Prop := is_Some (O0 !! (pb, name)) /\ String.prefix (T +:+ "/") name = true.
Definition table_copied (w : bworld) (T : string) : Prop := forall name, of_table T name -> copied w name.
(** Nothing is lost from a state to a later one. *)
Definition later_copies (w w' : bworld) : Prop := primary_kept w -> primary_kept w' /\ forall name, copied w name -> copied w' name.

Lemma same_later w w' : same_objects w w' -> later_copies w w'.
Proof. intros (_ & Ho & _) Hp. unfold primary_kept, copied. by rewrite Ho. Qed.

Lemma copy_run n w r w' : Uploader.CopyObject PrimaryServer tb (dd +:+ n) pb n w = (r, w') -> primary_kept w ->
  later_copies w w' /\ (is_ok r = true -> copied w' n).
Proof.
  unfold Uploader.CopyObject, Uploader.in_bucket. set (f := fun w => if bool_decide _ then _ else _). intros H Hp.
  assert (forall w, primary_kept w -> later_copies w (f w).2 /\ (is_ok (f w).1 = true -> copied (f w).2 n)) as Hf.
  { clear w w' r H Hp. intros w Hp. unfold f. case_bool_decide; [|split; [by apply same_later; reflexivity|done]]. cbn [held_objects put_objects].
    destruct (objects (base w) !! (pb, n)) as [o|] eqn:Ho; [|split; [by apply same_later; reflexivity|done]].
    cbn. unfold copied. split; [intros _; split|]; cbn.
    - intros name. cbn. rewrite lookup_insert_ne by (intros [= Hb _]; by apply other_bucket). apply Hp.
    - intros name Hc o1 Ho1. cbn. destruct (decide (name = n)) as [->|Hn].
      + rewrite lookup_insert_eq. eexists. split; [done|]. cbn. rewrite <- Hp, Ho in Ho1. by injection Ho1 as ->.
      + rewrite lookup_insert_ne; [by apply Hc|]. intros Hx%(f_equal snd). cbn [snd] in Hx. apply Hn. symmetry. by apply (string_cancel_l dd).
    - intros _ o1 Ho1. rewrite lookup_insert_eq. eexists. split; [done|]. cbn. rewrite <- Hp, Ho in Ho1. by injection Ho1 as ->. }
  destruct (bcall_run f w) as (w1 & H1%reached_same%same_later & Hr). destruct (H1 Hp) as [Hp1 Hc1]. destruct (Hf w1 Hp1) as [Hl Ho].
  rewrite H in Hr. destruct Hr as [[Hr _]|[_ [Hr|Hr]]].
  - rewrite <- Hr in Hl, Ho. split; [intros _; split; [by apply Hl|intros name Hn; by apply Hl, Hc1]|done].
  - injection Hr as -> ->. split; [intros _; split; [by apply Hl|intros name Hn; by apply Hl, Hc1]|done].
  - by injection Hr as -> ->.
Qed.

(** What a goroutine has done. *)
Definition progress_ok (w : bworld) (g : copier) : Prop := 0 <= g_failed g /\
  match g_phase g with
  | Copying l => g_failed g = 0 -> forall name, of_table (g_table g) name -> name ∈ (Server.Name <$> l) \/ copied w name
  | _ => True
  end.
Definition clean (sh : shared) : Prop := sh_errors sh = [] /\ totalFailed sh = 0.
Definition done_table (w : bworld) (sh : shared) (T : string) : Prop :=
  table_copied w T /\ exists tm, tm ∈ sh_tables sh /\ TableName tm = T /\ tm_Status tm = "completed".
Definition backup_inv (tables : list string) (ts : list copier) (sh : shared) (w : bworld) : Prop :=
  primary_kept w /\ 0 <= totalFailed sh /\ Forall (progress_ok w) ts /\
  (forall tm, tm ∈ sh_tables sh -> TableName tm ∈ tables /\ utf8_ok (tm_Status tm) = true) /\ Forall (fun g => g_table g ∈ tables) ts /\
  (clean sh -> forall T, T ∈ tables -> T ∈ (g_table <$> ts) \/ done_table w sh T).

Lemma progress_later w w' g : primary_kept w -> later_copies w w' -> progress_ok w g -> progress_ok w' g.
Proof.
  intros Hp Hl [H0 H]. split; [done|]. destruct (g_phase g); try done. intros Hf name Hn. destruct (H Hf name Hn); [by left|right].
  by apply (Hl Hp).
Qed.

Lemma step_progress w g g' w' : primary_kept w -> progress_ok w g -> backup_step e t backupID g w = (Ok (inl g'), w') ->
  later_copies w w' /\ progress_ok w' g' /\ g_table g' = g_table g.
Proof.
  intros Hp [H0 Hg] Hs. unfold backup_step in Hs. destruct (g_phase g) as [|[|o l]|err] eqn:Hph; [|done| |done].
  - apply run_bind in Hs as (r & w1 & Hr%run_attempt & Hs). injection Hs as <- <-. unfold table_objects in Hr.
    destruct (primaryUploader e); cbn [negb] in Hr; [|injection Hr as <- <-; split; [by apply same_later; reflexivity|done]].
    apply list_run in Hr as [Hsame Hl]. pose proof (same_later _ _ Hsame) as Hlater. split; [done|]. split; [|done].
    split; [done|]. cbn. destruct r as [l|err]; [|done]. intros _ name [[o Ho] Hpre]. left. destruct (Hl l eq_refl) as (l0 & -> & Hin).
    cbn [Uploader.listed]. apply list_elem_of_fmap. exists (Server.mkInfo name (Zlength (obj_data o)) (LastModified o)). split; [done|].
    apply Hin. exists o. cbn. by rewrite Hp.
  - apply run_bind in Hs as (g1 & w1 & Hr & Hs). injection Hs as <- <-. unfold copy_object in Hr.
    apply run_bind in Hr as (r & w2 & Hc%run_attempt & Hr). rewrite same_server in Hc.
    destruct (copy_run _ _ _ _ Hc Hp) as [Hlater Hok]. destruct r as [[]|err]; injection Hr as <- <-; (split; [done|]; split; [|done]).
    + split; [done|]. cbn. intros Hf name Hn. destruct (Hg Hf name Hn) as [Hin|Hcp]; [|right; by apply (Hlater Hp)].
      apply list_elem_of_fmap in Hin as (i & -> & [->|Hi]%elem_of_cons); [right; by apply Hok|left; by apply list_elem_of_fmap_2].
    + split; [cbn; lia|]. cbn. lia.
Qed.

Lemma table_manifest_ok w g : progress_ok w g -> g_phase g = Copying [] ->
  0 <= FailedCount (table_manifest g) /\ TableName (table_manifest g) = g_table g /\
  (FailedCount (table_manifest g) = 0 -> table_copied w (g_table g) /\ tm_Status (table_manifest g) = "completed").
Proof.
  intros [H0 Hg] Hph. rewrite Hph in Hg. unfold table_manifest. destruct (Z.ltb_spec 0 (g_failed g)); cbn; [split_and!; [lia|done|lia]|].
  split_and!; [lia|done|]. intros _. split; [|done]. intros name Hn. destruct (Hg ltac:(lia) name Hn) as [Hx|]; [by apply elem_of_nil in Hx|done].
Qed.

Lemma done_later w w' sh T : primary_kept w -> later_copies w w' -> done_table w sh T -> done_table w' sh T.
Proof. intros Hp Hl [Hc Ht]. split; [|done]. intros name Hn. apply (Hl Hp). by apply Hc. Qed.

Lemma inv_inl tables ts k g sh w g' w' : backup_inv tables ts sh w -> ts !! k = Some g -> backup_step e t backupID g w = (Ok (inl g'), w') ->
  backup_inv tables (<[k := g']> ts) sh w'.
Proof.
  intros (Hp & H0 & Hf & Htm & Hts & Hc) Hk Hs.
  destruct (step_progress w g g' w' Hp (Forall_lookup_1 _ _ _ _ Hf Hk) Hs) as (Hl & Hg' & Ht).
  split_and!; [by apply Hl|done| |done| |].
  - apply Forall_insert; [|done]. eapply Forall_impl; [exact Hf|]. intros x. by apply progress_later.
  - apply Forall_insert; [done|]. rewrite Ht. by apply (Forall_lookup_1 _ _ _ _ Hts Hk).
  - intros Hcl T HT. rewrite list_fmap_insert, Ht, list_insert_id by (by rewrite list_lookup_fmap, Hk).
    destruct (Hc Hcl T HT) as [|Hd]; [by left|right]. by eapply done_later.
Qed.

Lemma inv_inr tables ts k g sh w f w' : backup_inv tables ts sh w -> ts !! k = Some g -> backup_step e t backupID g w = (Ok (inr f), w') ->
  backup_inv tables (delete k ts) (f sh) w'.
Proof.
  intros (Hp & H0 & Hf & Htm & Hts & Hc) Hk Hs. pose proof (Forall_lookup_1 _ _ _ _ Hf Hk) as Hg.
  pose proof (Forall_lookup_1 _ _ _ _ Hts Hk) as Hgt. unfold backup_step in Hs. destruct (g_phase g) as [|[|o l]|err] eqn:Hph.
  - apply run_bind in Hs as (r & w1 & _ & Hs). done.
  - injection Hs as <- <-. destruct (table_manifest_ok w g Hg Hph) as (F0 & Hn & Hok).
    split_and!; [done|cbn; lia|by apply Forall_delete| |by apply Forall_delete|].
    + intros tm [Hx|Hx]%elem_of_app; [by apply Htm|]. apply list_elem_of_singleton in Hx as ->. rewrite Hn. split; [done|].
      unfold table_manifest. by destruct (_ <? _).
    + intros [He Ht] T HT. cbn in He, Ht. assert (clean sh) as Hcl by (split; [done|lia]). destruct (Hok ltac:(lia)) as [Hcp Hst].
      destruct (Hc Hcl T HT) as [Hin|[Hd (tm & Htm' & HT')]].
      * apply (elem_of_deleted _ k _ (g_table g)) in Hin as [->|Hin]; [|left; by rewrite list_fmap_delete|by rewrite list_lookup_fmap, Hk].
        right. split; [done|]. exists (table_manifest g). split; [|done]. cbn. set_solver.
      * right. split; [done|]. exists tm. split; [|done]. cbn. set_solver.
  - apply run_bind in Hs as (r & w1 & _ & Hs). done.
  - injection Hs as <- <-. split_and!; [done|done|by apply Forall_delete| |by apply Forall_delete|].
    + intros tm [Hx|Hx]%elem_of_app; [by apply Htm|]. by apply list_elem_of_singleton in Hx as ->.
    + intros [He _]. cbn in He. by destruct (sh_errors sh).
Qed.

Definition started (g : copier) : Prop := g_phase g <> Start.
Lemma backup_step_size g w g' w' : backup_step e t backupID g w = (Ok (inl g'), w') ->
  started g' /\ (started g -> (copier_size g' < copier_size g)%nat).
Proof.
  unfold backup_step, copy_object, started, copier_size. destruct (g_phase g) as [|[|o l]|err]; intros H; try done.
  - apply run_bind in H as (r & w1 & _ & H). injection H as <- <-. cbn. by destruct r.
  - apply run_bind in H as (g1 & w1 & H1 & H). injection H as <- <-. apply run_bind in H1 as (r & w2 & _ & H1).
    destruct r; injection H1 as <- <-; cbn; (split; [done|lia]).
Qed.
Lemma backup_size_pos g : started g -> (0 < copier_size g)%nat.
Proof. intros _. unfold copier_size. destruct (g_phase g); lia. Qed.

(** When the goroutines are done without an error, every table is copied. *)
Lemma copies_complete sched tables errs sh w w' : primary_kept w ->
  interleave (backup_step e t backupID) copier_size sched (new_copier <$> tables) (mkShared errs [] 0 0 0) w = (Ok sh, w') ->
  primary_kept w' /\ 0 <= totalFailed sh /\
  (forall tm, tm ∈ sh_tables sh -> TableName tm ∈ tables /\ utf8_ok (tm_Status tm) = true) /\ (clean sh -> forall T, T ∈ tables -> done_table w' sh T).
Proof.
  intros Hp Hr. assert (backup_inv tables (new_copier <$> tables) (mkShared errs [] 0 0 0) w) as H0.
  { split_and!; [done|done| |by intros tm Hx%elem_of_nil| |].
    - apply Forall_fmap, Forall_forall. by intros T _.
    - apply Forall_fmap, Forall_forall. by intros T HT.
    - intros _ T HT. left. rewrite <- list_fmap_compose. apply list_elem_of_fmap. by exists T. }
  pose proof (interleave_inv _ _ started (backup_inv tables) backup_step_size backup_size_pos (inv_inl tables) (inv_inr tables) _ _ _ _ _ _ H0 Hr)
    as (H1 & H2 & _ & H3 & _ & H4).
  split_and!; try done. intros Hc T HT. by destruct (H4 Hc T HT) as [Hx%elem_of_nil|].
Qed.
End full.

(** ** Old backups *)

Lemma newest_grows m o d t0 : m !! d = Some t0 -> exists t1, newest m o !! d = Some t1 /\ t0 <= t1.
Proof.
  intros Hm. unfold newest. destruct (backup_directory (Server.Name o)) as [d'|]; [|exists t0; split; [done|lia]].
  destruct (decide (d' = d)) as [->|Hn].
  - rewrite Hm. destruct (Z.ltb_spec t0 (Server.Modified o)); [rewrite lookup_insert_eq; eexists; split; [done|lia]|exists t0; split; [done|lia]].
  - exists t0. split; [|lia]. destruct (m !! d') as [t'|]; [destruct (t' <? Server.Modified o)|]; by rewrite ?lookup_insert_ne by done.
Qed.
Lemma newest_fold_grows l m d t0 : m !! d = Some t0 -> exists t1, foldl newest m l !! d = Some t1 /\ t0 <= t1.
Proof.
  revert m t0. induction l as [|o l IH]; intros m t0 Hm; cbn [foldl]; [exists t0; split; [done|lia]|].
  destruct (newest_grows m o d t0 Hm) as (t1 & H1 & Hle). destruct (IH _ _ H1) as (t2 & H2 & Hle'). exists t2. split; [done|lia].
Qed.
Lemma newest_fold_in l m o d : o ∈ l -> backup_directory (Server.Name o) = Some d ->
  exists t1, foldl newest m l !! d = Some t1 /\ Server.Modified o <= t1.
Proof.
  intros Ho Hd. revert m. induction l as [|x l IH]; intros m; [by apply elem_of_nil in Ho|]. cbn [foldl].
  apply elem_of_cons in Ho as [<-|Ho]; [|by apply IH].
  assert (exists t0, newest m o !! d = Some t0 /\ Server.Modified o <= t0) as (t0 & H0 & Hle).
  { unfold newest. rewrite Hd. destruct (m !! d) as [t0|] eqn:Hm; [|rewrite lookup_insert_eq; eexists; split; [done|lia]].
    destruct (Z.ltb_spec t0 (Server.Modified o)); [rewrite lookup_insert_eq|]; eexists; split; try done; lia. }
  destruct (newest_fold_grows l _ _ _ H0) as (t1 & H1 & Hle'). exists t1. split; [done|lia].
Qed.
Lemma newest_fold_from l m d t0 : foldl newest m l !! d = Some t0 -> is_Some (m !! d) \/ exists name, backup_directory name = Some d.
Proof.
  revert m. induction l as [|o l IH]; intros m H; cbn [foldl] in H; [left; by eexists|].
  destruct (IH _ H) as [[t1 H1]|]; [|by right]. unfold newest in H1. destruct (backup_directory (Server.Name o)) as [d'|] eqn:Hd; [|left; by eexists].
  destruct (decide (d' = d)) as [->|Hn]; [right; by exists (Server.Name o)|].
  destruct (m !! d') as [t'|]; [destruct (t' <? Server.Modified o)|]; rewrite ?lookup_insert_ne in H1 by done; left; by eexists.
Qed.

Lemma Split_no_char c s x : x ∈ Split c s -> has_char c x = false.
Proof.
  revert x. induction s as [|a s IH]; intros x; cbn [Split]; [by intros ->%list_elem_of_singleton|].
  case_bool_decide as Ha; [intros [->|Hx]%elem_of_cons; [done|auto]|].
  destruct (Split c s) as [|y l] eqn:E; [intros ->%list_elem_of_singleton; cbn [has_char]; by rewrite bool_decide_eq_false_2|].
  intros [->|Hx]%elem_of_cons; [|apply IH; set_solver]. cbn [has_char]. rewrite bool_decide_eq_false_2 by done. apply IH. set_solver.
Qed.
Lemma directory_parts name d : backup_directory name = Some d ->
  exists a b, d = a +:+ "/" +:+ b /\ has_char "/" a = false /\ has_char "/" b = false.
Proof.
  unfold backup_directory. intros H. destruct (Split "/" name) as [|a [|b l]] eqn:E; [done..|]. injection H as <-. exists a, b.
  split; [done|]. split; apply (Split_no_char _ name); rewrite E; set_solver.
Qed.
(** The directory of what is below a directory. *)
Lemma directory_below name d n : backup_directory name = Some d -> String.prefix (d +:+ "/") n = true -> backup_directory n = Some d.
Proof.
  intros (a & b & -> & Ha & Hb)%directory_parts [r ->]%prefix_split. unfold backup_directory.
  assert (((a +:+ "/" +:+ b) +:+ "/") +:+ r = a +:+ String "/" (b +:+ String "/" r)) as ->
    by (rewrite <- !string_app_assoc; done).
  by rewrite !Split_app by done.
Qed.

Section cleanup.
Context (t : BackupTarget).
Abbreviation s := (Uploader_ t).
Abbreviation b := (t_Bucket t).

(** Only objects of the target bucket that satisfy [P] may go. *)
Definition removes (P : string -> Prop) (w w' : bworld) : Prop :=
  (forall s', s' <> s -> held_objects s' w' = held_objects s' w) /\ timely w w' /\
  forall k, ~ (k.1 = b /\ P k.2) -> held_objects s w' !! k = held_objects s w !! k.
#[export] Instance removes_preorder P : PreOrder (removes P).
Proof.
  split; [by intros w; split; [|split; [reflexivity|]]|]. intros w1 w2 w3 (S1 & T1 & K1) (S2 & T2 & K2). split_and!; [|by etrans|].
  - intros s' Hs. by rewrite S2, S1.
  - intros k Hk. by rewrite K2, K1.
Qed.
Lemma same_removes P w w' : same_objects w w' -> removes P w w'.
Proof. intros H. split_and!; [intros s' _; by apply held_same|by destruct H|intros k _; by rewrite (held_same s _ _ H)]. Qed.

Lemma held_put s' o w : held_objects s' (put_objects s o w) = if decide (s' = s) then o else held_objects s' w.
Proof. destruct s, s'; done. Qed.

Lemma Remove_removes (P : string -> Prop) n : P n -> keeps (removes P) (Uploader.RemoveObject s b n).
Proof.
  intros Hn. apply bcall_keeps; [apply _|apply same_removes|]. intros w. case_bool_decide; [|reflexivity]. cbn [snd].
  split_and!.
  - intros s' Hs. rewrite held_put, decide_False by done. done.
  - unfold timely. destruct s; apply on_time_same; done.
  - intros k Hk. rewrite held_put, decide_True by done. apply lookup_delete_ne. intros <-. by apply Hk.
Qed.
Lemma removeDirectory_removes p : keeps (removes (fun n => String.prefix p n = true)) (removeBackupDirectory t p).
Proof.
  intros w. unfold removeBackupDirectory, mbind, M_bind. destruct (Uploader.ListObjectsSimple s b p true w) as [r w1] eqn:Hl.
  apply list_run in Hl as [Hs Hl]. apply (same_removes (fun n => String.prefix p n = true)) in Hs. destruct r as [l|]; [|done].
  destruct (Hl l eq_refl) as (l0 & -> & Hin). etrans; [exact Hs|]. cbn [Uploader.listed].
  apply keeps_each; [apply _|]. intros o (x & _ & Hp & _)%Hin. steps bframes. by apply Remove_removes.
Qed.

(** The removal of old backups keeps every directory that has an object newer
    than the cutoff, whatever fails. *)
Lemma cleanup_keeps_recent days w n1 o1 d n :
  held_objects s w !! (b, n1) = Some o1 -> String.prefix "backups/" n1 = true -> backup_directory n1 = Some d ->
  cutoff days (now (base w)) <= LastModified o1 -> backup_directory n = Some d ->
  let w' := (cleanupExpiredBackups t days w).2 in
  held_objects s w' !! (b, n) = held_objects s w !! (b, n) /\ forall k, k.1 <> b -> held_objects s w' !! k = held_objects s w !! k.
Proof.
  intros Ho Hp Hd Hcut Hn w'. assert (removes (fun x => backup_directory x <> Some d) w w') as (_ & _ & Hk);
    [|split; [apply Hk; cbn; tauto|intros k Hb; apply Hk; tauto]].
  unfold w', cleanupExpiredBackups. destruct (days <=? 0); [cbn; reflexivity|]. unfold cutoff_time, mbind, M_bind, mret, M_ret. cbn [time_Now asks].
  destruct (Uploader.ListObjectsSimple s b "backups/" true w) as [r w1] eqn:Hl. apply list_run in Hl as [Hs Hl].
  pose proof (same_removes (fun x => backup_directory x <> Some d) _ _ Hs) as H1. destruct r as [l|]; [|done].
  destruct (Hl l eq_refl) as (l0 & -> & Hin). etrans; [exact H1|]. clear w' Hn n Hl. cbn [Uploader.listed].
  destruct (newest_fold_in l0 ∅ (Server.mkInfo n1 (Zlength (obj_data o1)) (LastModified o1)) d) as (t1 & Ht1 & Hle); [apply Hin; by exists o1|done|].
  cbn [Server.Modified] in Hle. apply keeps_each; [apply _|]. intros [d' t'] Hd'%elem_of_map_to_list. cbn [fst snd].
  destruct (Z.ltb_spec t' (cutoff days (now (base w)))) as [Hlt|]; [|apply keeps_ret; apply _].
  destruct (newest_fold_from _ _ _ _ Hd') as [[? Hx]|[name Hname]]; [by rewrite lookup_empty in Hx|].
  assert (d' <> d) as Hne by (intros ->; rewrite Ht1 in Hd'; injection Hd' as ->; lia).
  unfold try_remove. apply keeps_bind; [apply _| |intros; apply keeps_ret; apply _]. apply keeps_attempt. intros w2.
  destruct (removeDirectory_removes (d' +:+ "/") w2) as (R1 & R2 & R3). split_and!; [done..|]. intros k Hkk. apply R3. intros [Hb Hpre].
  apply Hkk. split; [done|]. rewrite (directory_below name d' k.2 Hname Hpre). congruence.
Qed.
Lemma cleanup_time days : keeps timely (cleanupExpiredBackups t days).
Proof.
  intros w. unfold cleanupExpiredBackups. destruct (days <=? 0); [reflexivity|].
  unfold cutoff_time, mbind, M_bind, mret, M_ret. cbn [time_Now asks].
  destruct (Uploader.ListObjectsSimple s b "backups/" true w) as [r w1] eqn:Hl. apply list_run in Hl as [[Hs _] _]. destruct r as [l|]; [|done].
  etrans; [exact Hs|]. apply keeps_each; [apply _|]. intros d _. destruct (d.2 <? _); [|apply keeps_ret; apply _].
  unfold try_remove. apply keeps_bind; [apply _| |intros; apply keeps_ret; apply _]. apply keeps_attempt. intros w2.
  by destruct (removeDirectory_removes (d.1 +:+ "/") w2) as (_ & ? & _).
Qed.
End cleanup.

(** ** A completed full backup *)

Lemma interleave_keeps {W Er T Sh} (step : T -> M W Er (T + (Sh -> Sh))) size R `{!PreOrder R} :
  (forall t, keeps R (step t)) -> forall sched ts sh, keeps R (interleave step size sched ts sh).
Proof.
  intros Hs.
  assert (forall n t, keeps R (run_on step n t)) as Hr.
  { induction n as [|n IH]; intros t; cbn [run_on]; [apply keeps_ret; apply _|]. apply keeps_bind; [apply _|apply Hs|].
    intros [t'|g]; [apply IH|apply keeps_ret; apply _]. }
  assert (forall ts sh, keeps R (finish step size ts sh)) as Hf.
  { induction ts as [|t ts IH]; intros sh; cbn [finish]; [apply keeps_ret; apply _|]. apply keeps_bind; [apply _| |intros f; apply IH].
    unfold complete. apply keeps_bind; [apply _|apply Hs|]. intros [t'|g]; [apply Hr|apply keeps_ret; apply _]. }
  induction sched as [|k sched IH]; intros ts sh; [apply Hf|]. cbn [interleave]. destruct (ts !! _) as [t|]; [|apply keeps_ret; apply _].
  apply keeps_bind; [apply _|apply Hs|]. intros [t'|g]; apply IH.
Qed.

Lemma same_timely {E A} (m : M bworld E A) : keeps same_objects m -> keeps timely m.
Proof. intros Hm w. by destruct (Hm w). Qed.
Lemma bcall_timely {A} (f : bworld -> result backup_error A * bworld) : (forall w, timely w (f w).2) -> keeps timely (bcall f).
Proof. apply bcall_keeps; [apply _|]. by intros w w1 []. Qed.
Lemma put_timely s o w : timely w (put_objects s o w).
Proof. destruct s; apply on_time_same; done. Qed.
Lemma list_timely s b p r : keeps timely (Uploader.ListObjectsSimple s b p r).
Proof. intros w. destruct (Uploader.ListObjectsSimple s b p r w) as [x w1] eqn:H. by destruct (list_run _ _ _ _ _ _ _ H) as [[] _]. Qed.
Lemma Copy_timely s b n b' n' : keeps timely (Uploader.CopyObject s b n b' n').
Proof.
  apply bcall_timely. intros w. case_bool_decide; [|reflexivity]. destruct (held_objects s w !! _); [apply put_timely|reflexivity].
Qed.
Lemma Put_timely s b n d : keeps timely (Uploader.PutObject s b n d).
Proof. apply bcall_timely. intros w. case_bool_decide; [apply put_timely|reflexivity]. Qed.
Lemma Exists_timely s b : keeps timely (Uploader.BucketExists s b).
Proof. apply bcall_timely. intros w. reflexivity. Qed.
Lemma Make_timely s b : keeps timely (Uploader.MakeBucket s b).
Proof. apply bcall_timely. intros w. case_bool_decide; by apply on_time_same. Qed.
Lemma SaveExecution_timely `{PlanJSON} redis x : keeps timely (SaveExecution redis x).
Proof. apply same_timely, SaveExecution_same. Qed.
#[export] Hint Resolve list_timely Copy_timely Put_timely Exists_timely Make_timely SaveExecution_timely SaveExecution_same : bframes.

Lemma new_execution_same x : keeps same_objects (new_execution x).
Proof. intros w. by apply same_plain. Qed.
Lemma change_execution_same r f : keeps same_objects (change_execution r f).
Proof. intros w. by apply same_plain. Qed.

Section phases.
Context {J : SnapshotJSON} {JP : PlanJSON} {JM : ManifestJSON} (e : Executor).

Lemma save_execution_same x : keeps same_objects (save_execution e x).
Proof. unfold save_execution. steps bframes. Qed.
Lemma start_execution_timely b p t : keeps timely (start_execution e b p t).
Proof.
  unfold start_execution, save_execution. steps bframes. apply same_timely, new_execution_same.
Qed.
Lemma ManualBackup_timely m nonce : keeps timely (ManualBackup m nonce).
Proof. apply (on_base_keeps timely _ on_time); [apply performBackup_time|done]. Qed.
Lemma full_metadata_timely nonce t : keeps timely (full_metadata e nonce t).
Proof. unfold full_metadata. steps bframes. apply ManualBackup_timely. Qed.
Lemma EnsureBucket_timely t : keeps timely (EnsureBucket t).
Proof. unfold EnsureBucket. steps bframes. Qed.
Lemma listTables_timely : keeps timely (listTables e).
Proof. unfold listTables. steps bframes. Qed.
Lemma backup_step_timely t id g : keeps timely (backup_step e t id g).
Proof. unfold backup_step, table_objects, copy_object. steps bframes. Qed.
End phases.

Lemma upload_run t key d w w' : upload t key d w = (Ok tt, w') -> exists data w1, d = Some data /\ same_objects w w1 /\
  w' = put_objects (Uploader_ t) (<[(t_Bucket t, key) := mkObject data (now (base w1))]> (held_objects (Uploader_ t) w1)) w1.
Proof.
  unfold upload, encoded. intros (data & w0 & Hd & H)%run_bind. destruct d as [d|]; [|done]. injection Hd as <- <-.
  unfold Uploader.PutObject, Uploader.in_bucket in H. set (f := fun w => if bool_decide _ then _ else _) in H.
  destruct (bcall_run f w) as (w1 & H1%reached_same & [[Hr _]|[_ [Hr|Hr]]]); rewrite H in Hr; [|done..].
  unfold f in Hr. case_bool_decide; [|done]. injection Hr as ->. by exists d, w1.
Qed.

Lemma Split_head c a x y : exists h l l', Split c (a +:+ String c x) = h :: l /\ Split c (a +:+ String c y) = h :: l'.
Proof.
  induction a as [|k a IH].
  - rewrite !string_app_nil_l. cbn [Split]. rewrite !bool_decide_eq_true_2 by done. by eexists _, _, _.
  - change (String k a +:+ String c x) with (String k (a +:+ String c x)). change (String k a +:+ String c y) with (String k (a +:+ String c y)).
    cbn [Split]. destruct IH as (h & l & l' & -> & ->). case_bool_decide; by eexists _, _, _.
Qed.
Lemma directory_of id x y : backup_directory (backups_dir id +:+ x) = backup_directory (backups_dir id +:+ y) /\
  is_Some (backup_directory (backups_dir id +:+ x)).
Proof.
  assert (forall z, backups_dir id +:+ z = "backups" +:+ String "/" (id +:+ String "/" z)) as E
    by (intros z; unfold backups_dir; rewrite <- !string_app_assoc; done).
  unfold backup_directory. rewrite !E, (Split_app "/" "backups" (id +:+ String "/" x)), (Split_app "/" "backups" (id +:+ String "/" y)) by done.
  destruct (Split_head "/" id x y) as (h & l & l' & -> & ->). done.
Qed.

(** The calls take less than a day in all. *)
Definition timely_calls (w : bworld) : Prop := Forall (fun p => 0 <= p.2) (net (base w)) /\ total (net (base w)) < day_ns.
Lemma delays_nonneg l : Forall (fun p : answer * Z => 0 <= p.2) l -> 0 <= total l.
Proof. induction 1 as [|p l Hp Hl IH]; cbn [total foldr] in *; [done|]. fold (total l) in *. lia. Qed.
Lemma timely_bound w w1 : timely_calls w -> timely w w1 -> now (base w) <= now (base w1) < now (base w) + day_ns.
Proof.
  intros [H0 H1] (l & Hl & ->). rewrite Hl in H0, H1. rewrite delays_app in H1. apply Forall_app in H0 as [Ha%delays_nonneg Hb%delays_nonneg]. lia.
Qed.

Section completed.
Context {J : SnapshotJSON} {JP : PlanJSON} {JM : ManifestJSON} (error_text : backup_error -> string) (e : Executor) (t : BackupTarget).
Hypothesis target : backupTarget e = Some t.
Hypothesis same_server : Uploader_ t = PrimaryServer.
Hypothesis other_bucket : t_Bucket t <> primaryBucket e.
Abbreviation pb := (primaryBucket e).
Abbreviation tb := (t_Bucket t).
Abbreviation objs w := (objects (base w)).

Definition covers (m : FullBackupManifest) (w : bworld) : Prop := forall name o T, objs w !! (pb, name) = Some o -> table_of name = Some T ->
  (exists tm, tm ∈ f_Tables m /\ TableName tm = T /\ tm_Status tm = "completed") /\
  exists o', objs w !! (tb, data_dir (f_BackupID m) +:+ name) = Some o' /\ obj_data o' = obj_data o.
(** The manifest and the copies of a backup. *)
Definition holds_backup (m : FullBackupManifest) (w : bworld) : Prop :=
  (exists o, objs w !! (tb, manifest_key (f_BackupID m)) = Some o /\ marshal_full m = Some (obj_data o)) /\ covers m w.
(** Its names come from the objects. *)
Definition names_known (m : FullBackupManifest) (w : bworld) : Prop := forall tm, tm ∈ f_Tables m ->
  utf8_ok (tm_Status tm) = true /\ exists name o, objs w !! (pb, name) = Some o /\ table_of name = Some (TableName tm).

Lemma holds_same m w w' : objs w' = objs w -> holds_backup m w -> holds_backup m w'.
Proof. intros E. unfold holds_backup, covers. by rewrite E. Qed.

(** The clean-up that follows keeps the new backup. *)
Lemma holds_cleaned m w days : 0 < days ->
  (exists o, objs w !! (tb, manifest_key (f_BackupID m)) = Some o /\ now (base w) - day_ns <= LastModified o) ->
  holds_backup m w -> holds_backup m (cleanupExpiredBackups t days w).2 /\
  (forall name, objs (cleanupExpiredBackups t days w).2 !! (pb, name) = objs w !! (pb, name)).
Proof.
  intros Hd (o & Ho & Ht) Hh. set (id := f_BackupID m) in *.
  destruct (directory_of id "manifest.json" "manifest.json") as [_ [d Hdir]].
  assert (forall n, backup_directory n = Some d -> let w' := (cleanupExpiredBackups t days w).2 in
    objs w' !! (tb, n) = objs w !! (tb, n) /\ forall k, k.1 <> tb -> objs w' !! k = objs w !! k) as Hk.
  { intros n Hn. pose proof (cleanup_keeps_recent t days w (manifest_key id) o d n) as Hc. rewrite same_server in Hc. cbn [held_objects] in Hc.
    apply Hc; try done; [unfold manifest_key, backups_dir; rewrite <- string_app_assoc; apply prefix_app_true|]. unfold cutoff. assert (1 * day_ns <= days * day_ns) by (apply Z.mul_le_mono_nonneg_r; [done|lia]). lia. }
  assert (forall x, backup_directory (backups_dir id +:+ x) = Some d) as Hall.
  { intros x. rewrite <- Hdir. apply directory_of. }
  set (w' := (cleanupExpiredBackups t days w).2) in *.
  assert (forall name, objs w' !! (pb, name) = objs w !! (pb, name)) as Hp.
  { intros name. apply (Hk (manifest_key id) (Hall _)). cbn. congruence. }
  split; [|done]. destruct Hh as [(o1 & Ho1 & Hm) Hc]. split.
  - exists o1. split; [|done]. rewrite <- Ho1. apply Hk, Hall.
  - intros name o2 T Ho2 HT. rewrite Hp in Ho2. destruct (Hc name o2 T Ho2 HT) as [Htm (o' & Ho' & E)]. split; [done|]. exists o'. split; [|done].
    rewrite <- Ho'. apply Hk. unfold data_dir. rewrite <- string_app_assoc. apply Hall.
Qed.

(** The manifest is written after the copies. *)
Lemma uploaded_holds bid tables sched errs sh startTime mid status w4 w5 w6 :
  let m := mkFull bid BackupTypeFull (nodeID e) startTime (sh_tables sh) mid status (totalFailed sh) (t_IsDegraded t) [] in
  (forall T, T ∈ tables <-> exists name o, objs w4 !! (pb, name) = Some o /\ table_of name = Some T) ->
  interleave (backup_step e t bid) copier_size sched (new_copier <$> tables) (mkShared errs [] 0 0 0) w4 = (Ok sh, w5) ->
  upload t (manifest_key bid) (marshal_full m) w5 = (Ok tt, w6) -> clean sh -> timely_calls w4 ->
  holds_backup m w6 /\ names_known m w6 /\ timely w4 w6 /\
  exists o, objs w6 !! (tb, manifest_key bid) = Some o /\ now (base w4) <= LastModified o.
Proof.
  intros m Htables H5 H6 Hclean Htime. pose proof H5 as H5t.
  apply (run_keeps timely) in H5t; [|apply interleave_keeps; [apply _|apply backup_step_timely]].
  destruct (copies_complete e t bid same_server other_bucket (objs w4) sched tables errs sh w4 w5 ltac:(by intros name) H5)
    as (Hprim & _ & Hnames & Hdone). specialize (Hdone Hclean).
  apply upload_run in H6 as (data & wp & Hdata & (Htp & Hop & _) & ->). rewrite same_server. cbn [held_objects put_objects].
  set (o := mkObject data (now (base wp))). assert (timely w4 wp) as Hwp by (by etrans).
  assert (forall name, <[(tb, manifest_key bid) := o]> (objs wp) !! (pb, name) = objs w4 !! (pb, name)) as Hp.
  { intros name. rewrite lookup_insert_ne by congruence. rewrite Hop. apply Hprim. }
  split_and!.
  - split; [exists o; split; [apply lookup_insert_eq|done]|]. intros name o1 T Ho HT. cbn in Ho. rewrite Hp in Ho.
    destruct (Hdone T) as [Hcp Htm]; [apply Htables; eauto|]. split; [done|].
    destruct (table_of_some _ _ HT) as (rest & Hname & _).
    destruct (Hcp name) with (o := o1) as (o' & Ho' & E); [split; [by rewrite Ho|]; rewrite Hname, string_app_assoc; apply prefix_app_true|done|].
    exists o'. split; [|done]. cbn. rewrite lookup_insert_ne; [by rewrite Hop|]. intros Hx%(f_equal snd). cbn [snd] in Hx.
    unfold manifest_key, data_dir in Hx. rewrite <- string_app_assoc in Hx. by apply string_cancel_l in Hx.
  - intros tm Htm. apply Hnames in Htm as [Htm Hst]. apply Htables in Htm as (name & o1 & Ho & HT).
    split; [done|]. exists name, o1. cbn. by rewrite Hp.
  - etrans; [exact Hwp|]. apply on_time_same; done.
  - exists o. split; [apply lookup_insert_eq|]. cbn. by apply timely_bound.
Qed.

Lemma full_metadata_name nonce startTime w mid errs w' : full_metadata e nonce startTime w = (Ok (mid, errs), w') ->
  mid = "" \/ mid = "metadata-" +:+ nodeID e +:+ "-" +:+ Itoa (startTime / second).
Proof.
  unfold full_metadata. destruct (metadataMgr e) as [m|]; [|intros [= <- _ _]; by left].
  intros (r & w1 & _ & H)%run_bind. destruct r; injection H as <- _ _; auto.
Qed.

Lemma timely_later w w1 : timely_calls w -> timely w w1 -> timely_calls w1.
Proof.
  intros [H0 H1] (l & Hl & _). rewrite Hl in H0, H1. rewrite delays_app in H1. apply Forall_app in H0 as [Ha%delays_nonneg Hb].
  split; [done|lia].
Qed.

Lemma names_same m w w' : (forall name, objs w' !! (pb, name) = objs w !! (pb, name)) -> names_known m w -> names_known m w'.
Proof. intros E Hn tm Htm. destruct (Hn tm Htm) as (Hs & name & o & Ho & HT). split; [done|]. exists name, o. by rewrite E. Qed.

Lemma full_backup_holds nonce sched id planID w r w' :
  timely_calls w -> FullBackup error_text e nonce sched id planID w = (Ok r, w') -> Status r = "completed" ->
  exists m, holds_backup m w' /\ names_known m w' /\ f_BackupID m = BackupID r /\ f_Type m = BackupTypeFull /\ f_NodeID m = nodeID e /\
    f_Timestamp m = now (base w) /\ f_Status m = "completed" /\ f_Errors m = [] /\
    (f_MetadataBackup m = "" \/ f_MetadataBackup m = "metadata-" +:+ nodeID e +:+ "-" +:+ Itoa (now (base w) / second)) /\
    (BackupID r = id /\ id <> "" \/ BackupID r = "full-" +:+ nodeID e +:+ "-" +:+ Itoa (now (base w) / second)).
Proof.
  intros Htime Hr Hstatus. unfold FullBackup in Hr. apply run_bind in Hr as (startTime & w0 & Hnow & Hr). injection Hnow as <- <-.
  rewrite target in Hr. set (bid := if bool_decide (id = "") then _ else id) in Hr.
  apply run_bind in Hr as ([] & w1 & H1 & Hr). apply (run_keeps timely) in H1; [|apply EnsureBucket_timely].
  apply run_bind in Hr as (x & w2 & H2 & Hr). apply (run_keeps timely) in H2; [|apply start_execution_timely].
  apply run_bind in Hr as ([mid errs] & w3 & H3 & Hr). pose proof (full_metadata_name _ _ _ _ _ _ H3) as Hmid.
  apply (run_keeps timely) in H3; [|apply full_metadata_timely].
  apply run_bind in Hr as (tables & w4 & H4 & Hr). apply listTables_run in H4 as [(H4 & Ho4 & _) Htables]. rewrite <- Ho4 in Htables.
  assert (timely w w4) as Hw4 by (do 3 (etrans; [eassumption|]); done). clear H1 H2 H3 H4 Ho4.
  apply run_bind in Hr as (sh & w5 & H5 & Hr). cbv zeta in Hr. set (status := if _ || _ then "partial" else "completed") in Hr.
  set (m := mkFull _ _ _ _ _ _ _ _ _ _) in Hr. apply run_bind in Hr as ([] & w6 & H6 & Hr).
  apply run_bind in Hr as (endTime & w7 & H7 & Hr). injection H7 as <- <-.
  apply run_bind in Hr as ([] & w8 & H8 & Hr). apply (run_keeps same_objects) in H8 as (H8 & Ho8 & _);
    [|destruct (recorded e planID); steps bframes; [apply change_execution_same|apply save_execution_same]].
  apply run_bind in Hr as ([] & w9 & H9 & Hr). injection Hr as <- <-. cbn [Status BackupID] in *.
  assert (clean sh) as Hclean.
  { unfold status in Hstatus. case_bool_decide as He; [|done]. cbn in Hstatus. destruct (Z.ltb_spec 0 (totalFailed sh)); [done|].
    split; [done|]. destruct (copies_complete e t bid same_server other_bucket (objs w4) sched tables errs sh w4 w5 ltac:(by intros name) H5). lia. }
  destruct (uploaded_holds bid tables sched errs sh (now (base w)) mid status w4 w5 w6 Htables H5 H6 Hclean (timely_later _ _ Htime Hw4))
    as (Hh & Hn & H46 & o & Ho & Hlm). fold m in Hh, Hn.
  assert (holds_backup m w9 /\ forall name, objs w9 !! (pb, name) = objs w6 !! (pb, name)) as [Hh9 Hp9].
  { apply (holds_same _ _ _ Ho8) in Hh. destruct (Z.ltb_spec 0 (cfg_RetentionDays e)) as [Hd|]; [|injection H9 as <-; split; [done|by intros; rewrite Ho8]].
    apply run_bind in H9 as (rr & wr & Hrr%run_attempt & H9). injection H9 as <-.
    destruct (holds_cleaned m w8 (cfg_RetentionDays e) Hd) as [Hh' Hp']; [|done|].
    - exists o. rewrite Ho8. split; [done|]. pose proof (timely_bound w w8 Htime ltac:(etrans; [exact Hw4|]; by etrans)).
      pose proof (timely_bound w w4 Htime Hw4). lia.
    - rewrite Hrr in Hh', Hp'. split; [done|]. intros name. by rewrite Hp', Ho8. }
  exists m. split_and!; try done; [by eapply names_same|]. unfold bid. case_bool_decide; [by right|by left].
Qed.
End completed.

(** ** A restore *)

Definition quiet (w : bworld) : Prop := net (base w) = [].
Lemma same_quiet w w' : same_objects w w' -> quiet w -> quiet w'.
Proof. intros ((l & Hl & _) & _) Hq. unfold quiet in *. rewrite Hq in Hl. by destruct l. Qed.
Lemma quiet_call {A} (f : bworld -> result backup_error A * bworld) w : quiet w -> exists w1, same_objects w w1 /\ quiet w1 /\ bcall f w = f w1.
Proof.
  intros Hq. destruct (bcall_run f w) as (w1 & H1%reached_same & [[E Hn]|[Hn _]]); [|done]. exists w1. split_and!; [done|by apply Hn|done].
Qed.

Lemma string_drop_app a s : string_drop (String.length a) (a +:+ s) = s.
Proof. induction a as [|c a IH]; [by destruct s|exact IH]. Qed.

Section restore.
Context {J : SnapshotJSON} {JM : ManifestJSON} (e : Executor) (t : BackupTarget) (backupID : string).
Hypothesis same_server : Uploader_ t = PrimaryServer.
Hypothesis other_bucket : t_Bucket t <> primaryBucket e.
Hypothesis has_primary : primaryUploader e = true.
(** The objects when the goroutines start. *)
Context (O0 : gmap (string * string) object).
Abbreviation pb := (primaryBucket e).
Abbreviation tb := (t_Bucket t).
Abbreviation dd := (data_dir backupID).
Abbreviation objs w := (objects (base w)).

Definition calm (w : bworld) : Prop := quiet w /\ (PrimaryServer, pb) ∈ buckets w /\ (PrimaryServer, tb) ∈ buckets w /\
  forall n, objs w !! (tb, n) = O0 !! (tb, n).
Definition back (w : bworld) (name : string) : Prop := forall o, O0 !! (tb, dd +:+ name) = Some o ->
  exists o', objs w !! (pb, name) = Some o' /\ obj_data o' = obj_data o.
Definition later_back (w w' : bworld) : Prop := calm w' /\ forall name, back w name -> back w' name.

Lemma same_back w w' : same_objects w w' -> calm w -> later_back w w'.
Proof.
  intros Hs (Hq & B1 & B2 & Ho). pose proof (same_quiet _ _ Hs Hq). destruct Hs as (_ & E & _ & Eb). unfold later_back, calm, back. by rewrite E, Eb.
Qed.

Lemma put_back_run name w r w' : Uploader.CopyObject PrimaryServer pb name tb (dd +:+ name) w = (r, w') -> calm w ->
  later_back w w' /\ back w' name.
Proof.
  unfold Uploader.CopyObject, Uploader.in_bucket. set (f := fun w => if bool_decide _ then _ else _). intros H Hc.
  destruct (quiet_call f w (proj1 Hc)) as (w1 & Hs & Hq1 & E). rewrite E in H. destruct (same_back _ _ Hs Hc) as [Hc1 Hl].
  destruct Hc1 as (_ & B1 & B2 & Ho). unfold f in H. rewrite bool_decide_eq_true_2 in H by done. cbn [held_objects put_objects] in H. rewrite Ho in H.
  destruct (O0 !! (tb, dd +:+ name)) as [o|] eqn:Hx; injection H as <- <-.
  - split; [split|].
    + split_and!; try done. intros n. cbn. rewrite lookup_insert_ne by congruence. apply Ho.
    + intros n Hn o1 Ho1. cbn. destruct (decide (n = name)) as [->|Hne].
      * rewrite lookup_insert_eq. eexists. split; [done|]. cbn. congruence.
      * rewrite lookup_insert_ne by congruence. by apply Hl.
    + intros o1 Ho1. cbn. rewrite lookup_insert_eq. eexists. split; [done|]. cbn. congruence.
  - split; [split; [by split_and!|done]|]. intros o1 Ho1. congruence.
Qed.

Definition listing (T : string) (l : list Server.ObjectInfo) (w : bworld) : Prop :=
  (forall i, i ∈ l -> exists name, Server.Name i = dd +:+ name) /\
  forall name, String.prefix (T +:+ "/") name = true -> is_Some (O0 !! (tb, dd +:+ name)) -> (dd +:+ name) ∈ (Server.Name <$> l) \/ back w name.
Definition restorer_ok (w : bworld) (g : restorer) : Prop :=
  match rs_phase g with Start => True | Copying l => listing (rs_table g) l w | ListFailed _ => False end.
Definition table_back (w : bworld) (T : string) : Prop := forall name, String.prefix (T +:+ "/") name = true -> back w name.
Definition restore_inv (tables : list string) (ts : list restorer) (sh : restored) (w : bworld) : Prop :=
  calm w /\ Forall (restorer_ok w) ts /\ forall T, T ∈ tables -> T ∈ (rs_table <$> ts) \/ table_back w T.

Lemma restorer_later w w' g : later_back w w' -> restorer_ok w g -> restorer_ok w' g.
Proof.
  intros [_ Hl]. unfold restorer_ok. destruct (rs_phase g); try done. intros [H1 H2]. split; [done|]. intros name Hp Ho.
  destruct (H2 name Hp Ho); [by left|right; auto].
Qed.
Lemma table_back_later w w' T : later_back w w' -> table_back w T -> table_back w' T.
Proof. intros [_ Hl] H name Hn. auto. Qed.

Lemma data_prefix T name : String.prefix (T +:+ "/") name = true -> String.prefix (dd +:+ T +:+ "/") (dd +:+ name) = true.
Proof. intros [r ->]%prefix_split. rewrite (string_app_assoc dd (T +:+ "/")). apply prefix_app_true. Qed.

Lemma restore_step_ok w g g' w' : calm w -> restorer_ok w g -> restore_step e t backupID g w = (Ok (inl g'), w') ->
  later_back w w' /\ restorer_ok w' g' /\ rs_table g' = rs_table g.
Proof.
  intros Hc Hg Hs. unfold restore_step in Hs. unfold restorer_ok in Hg. destruct (rs_phase g) as [|[|o l]|err]; [|done| |done].
  - apply run_bind in Hs as (r & w1 & Hr%run_attempt & Hs). injection Hs as <- <-. unfold backup_objects in Hr.
    rewrite has_primary, same_server in Hr. cbn [negb] in Hr. pose proof Hr as Hr'. apply list_run in Hr' as [Hsame Hl].
    pose proof (same_back _ _ Hsame Hc) as Hlater. split; [done|]. split; [|done]. unfold restorer_ok. cbn. destruct r as [l|err].
    + destruct (Hl l eq_refl) as (l0 & -> & Hin). cbn [Uploader.listed]. destruct Hc as (_ & _ & _ & Ho). cbn [held_objects] in Hin. split.
      * intros i (o & _ & Hp & _)%Hin. apply prefix_split in Hp as [x Hx]. rewrite <- string_app_assoc in Hx. eauto.
      * intros name Hp [o Hn]. left. apply list_elem_of_fmap. exists (Server.mkInfo (dd +:+ name) (Zlength (obj_data o)) (LastModified o)).
        split; [done|]. apply Hin. exists o. cbn [Server.Name]. rewrite Ho. split_and!; [done|by apply data_prefix|done].
    + unfold Uploader.ListObjectsSimple, Uploader.in_bucket in Hr. set (f := fun w => if bool_decide _ then _ else _) in Hr.
      destruct (quiet_call f w (proj1 Hc)) as (w2 & Hs2 & _ & E). rewrite E in Hr. unfold f in Hr.
      destruct (same_back _ _ Hs2 Hc) as [(_ & _ & B2 & _) _]. by rewrite bool_decide_eq_true_2 in Hr.
  - apply run_bind in Hs as (r & w1 & Hr%run_attempt & Hs). injection Hs as <- <-. destruct Hg as [Hn Hl].
    destruct (Hn o ltac:(set_solver)) as [name Ho]. rewrite Ho, string_drop_app in Hr.
    destruct (put_back_run _ _ _ _ Hr Hc) as [Hlater Hb]. split; [done|]. split; [|done]. unfold restorer_ok. cbn. split; [set_solver|].
    intros n Hp Hx. destruct (Hl n Hp Hx) as [Hin|]; [|right; by apply Hlater].
    cbn [fmap list_fmap] in Hin. apply elem_of_cons in Hin as [E|]; [|by left]. right. rewrite Ho in E. by apply string_cancel_l in E as ->.
Qed.

Definition rs_started (g : restorer) : Prop := rs_phase g <> Start.
Lemma restore_step_size g w g' w' : restore_step e t backupID g w = (Ok (inl g'), w') ->
  rs_started g' /\ (rs_started g -> (restorer_size g' < restorer_size g)%nat).
Proof.
  unfold restore_step, rs_started, restorer_size. destruct (rs_phase g) as [|[|o l]|err]; intros H; try done;
    apply run_bind in H as (r & w1 & _ & H); injection H as <- <-; cbn; [by destruct r|split; [done|lia]].
Qed.
Lemma restorer_size_pos g : rs_started g -> (0 < restorer_size g)%nat.
Proof. intros _. unfold restorer_size. destruct (rs_phase g); lia. Qed.
Lemma restore_step_total g w : is_ok (restore_step e t backupID g w).1 = true.
Proof.
  unfold restore_step, attempt, mbind, M_bind. destruct (rs_phase g) as [|[|o l]|err]; try done.
  - by destruct (backup_objects _ _ _ _ w).
  - by destruct (Uploader.CopyObject _ _ _ _ _ w).
Qed.

Lemma restore_inl tables ts k g sh w g' w' : restore_inv tables ts sh w -> ts !! k = Some g ->
  restore_step e t backupID g w = (Ok (inl g'), w') -> restore_inv tables (<[k := g']> ts) sh w'.
Proof.
  intros (C & F & D) Hk Hs. destruct (restore_step_ok w g g' w' C (Forall_lookup_1 _ _ _ _ F Hk) Hs) as (Hl & Hg & Ht).
  split_and!; [by apply Hl| |].
  - apply Forall_insert; [|done]. eapply Forall_impl; [exact F|]. intros x. by apply restorer_later.
  - intros T HT. rewrite list_fmap_insert, Ht, list_insert_id by (by rewrite list_lookup_fmap, Hk).
    destruct (D T HT); [by left|right]. by eapply table_back_later.
Qed.
Lemma restore_inr tables ts k g sh w f w' : restore_inv tables ts sh w -> ts !! k = Some g ->
  restore_step e t backupID g w = (Ok (inr f), w') -> restore_inv tables (delete k ts) (f sh) w'.
Proof.
  intros (C & F & D) Hk Hs. pose proof (Forall_lookup_1 _ _ _ _ F Hk) as Hg. unfold restore_step in Hs. unfold restorer_ok in Hg.
  destruct (rs_phase g) as [|[|o l]|err]; [by apply run_bind in Hs as (? & ? & _ & ?)| |by apply run_bind in Hs as (? & ? & _ & ?)|done].
  injection Hs as <- <-. split_and!; [done|by apply Forall_delete|]. intros T HT. destruct (D T HT) as [Hin|]; [|by right].
  apply (elem_of_deleted _ k _ (rs_table g)) in Hin as [->|Hin]; [|left; by rewrite list_fmap_delete|by rewrite list_lookup_fmap, Hk].
  right. intros name Hp o Ho. destruct Hg as [_ Hg]. destruct (Hg name Hp) as [Hx%elem_of_nil|Hb]; [by rewrite Ho|done|by apply Hb].
Qed.

Lemma restore_complete sched tables sh0 w : calm w -> exists sh w',
  interleave (restore_step e t backupID) restorer_size sched ((fun T => mkRestorer T Start 0) <$> tables) sh0 w = (Ok sh, w') /\
  forall T, T ∈ tables -> table_back w' T.
Proof.
  intros Hc. pose proof (interleave_ok _ restorer_size restore_step_total sched ((fun T => mkRestorer T Start 0) <$> tables) sh0 w) as Hok.
  destruct (interleave _ _ _ _ _ w) as [[sh|] w'] eqn:Hr; [|done]. exists sh, w'. split; [done|].
  assert (restore_inv tables ((fun T => mkRestorer T Start 0) <$> tables) sh0 w) as H0.
  { split_and!; [done|apply Forall_fmap, Forall_forall; done|]. intros T HT. left. rewrite <- list_fmap_compose. apply list_elem_of_fmap. by exists T. }
  destruct (interleave_inv _ _ rs_started (restore_inv tables) restore_step_size restorer_size_pos (restore_inl tables) (restore_inr tables)
    _ _ _ _ _ _ H0 Hr) as (_ & _ & H).
  intros T HT. by destruct (H T HT) as [Hx%elem_of_nil|].
Qed.
End restore.

Lemma restore_metadata_run `{SnapshotJSON} e name w : exists errs w', restore_metadata e name w = (Ok errs, w') /\ same_objects w w'.
Proof.
  assert (keeps same_objects (restore_metadata e name)) as Hk.
  { unfold restore_metadata. steps bframes.
    apply (on_base_keeps same_objects _ (fun b b' => on_time b b' /\ objects b' = objects b)).
    - intros b. split; [apply RecoverFromBackup_time|by apply RecoverFromBackup_objects].
    - intros b b' [Ht Ho]. split_and!; done. }
  specialize (Hk w). destruct (restore_metadata e name w) as [r w'] eqn:E. assert (is_ok r = true) as Hr.
  { unfold restore_metadata in E. destruct (metadataMgr e); [|by injection E as <-]. case_bool_decide; [by injection E as <-|].
    unfold attempt, mbind, M_bind in E. destruct (on_base _ w) as [x w1]. by injection E as <-. }
  destruct r as [errs|]; [|done]. by exists errs, w'.
Qed.

(** Text made of text is text. *)
Lemma utf8_app a b : utf8_ok a = true -> utf8_ok b = true -> utf8_ok (a +:+ b) = true.
Proof.
  intros Ha Hb. remember (String.length a) as n eqn:Hn. revert a Ha Hn.
  induction (lt_wf n) as [n _ IH]. intros a Ha ->. destruct a as [|c1 a]; [done|]. change (String c1 a +:+ b) with (String c1 (a +:+ b)).
  cbn [utf8_ok] in *. destruct (_ <? 128)%N; [apply (IH (String.length a)); [cbn; lia|done|done]|].
  destruct a as [|c2 a]; [done|]. change (String c2 a +:+ b) with (String c2 (a +:+ b)).
  destruct (_ && _)%N; [apply andb_true_iff in Ha as [-> Ha]; apply (IH (String.length a)); [cbn; lia|done|done]|].
  destruct a as [|c3 a]; [done|]. change (String c3 a +:+ b) with (String c3 (a +:+ b)).
  destruct (_ && _)%N; [apply andb_true_iff in Ha as [-> Ha]; apply (IH (String.length a)); [cbn; lia|done|done]|].
  destruct a as [|c4 a]; [done|]. change (String c4 a +:+ b) with (String c4 (a +:+ b)).
  apply andb_true_iff in Ha as [-> Ha]. apply (IH (String.length a)); [cbn; lia|done|done].
Qed.

Lemma quiet_get s b n w o : quiet w -> (s, b) ∈ buckets w -> held_objects s w !! (b, n) = Some o ->
  exists w1, Uploader.GetObject s b n w = (Ok (obj_data o), w1) /\ same_objects w w1.
Proof.
  intros Hq Hb Ho. unfold Uploader.GetObject, Uploader.in_bucket. set (f := fun w => if bool_decide _ then _ else _).
  destruct (quiet_call f w Hq) as (w1 & Hs & _ & E). exists w1. split; [|done]. rewrite E. unfold f.
  rewrite bool_decide_eq_true_2 by (destruct Hs as (_ & _ & _ & ->); done). by rewrite (held_same s _ _ Hs), Ho.
Qed.

(** The target of a node without a backup server. *)
Lemma degraded_target e ep bb bp pp : backupTarget e = ResolveBackupTarget ep bb (primaryBucket e) bp pp -> IsDegraded e = true ->
  exists t, backupTarget e = Some t /\ Uploader_ t = PrimaryServer /\ t_Bucket t <> primaryBucket e.
Proof.
  intros Hr Hd. unfold IsDegraded in Hd. destruct (backupTarget e) as [t|] eqn:Ht; [|done]. exists t. split; [done|].
  assert (primaryBucket e +:+ "-backups" <> primaryBucket e) as Hne.
  { intros E%(f_equal String.length). rewrite string_length_app in E. cbn in E. lia. }
  unfold ResolveBackupTarget in Hr. destruct bp as [[]|], (bool_decide (ep <> "")), pp as [[]|]; try done; by injection Hr as ->.
Qed.

Section roundtrip.
Context {J : SnapshotJSON} {JP : PlanJSON} {JM : ManifestJSON} (error_text : backup_error -> string).

(** What a restore brings back from a bucket that holds a backup. *)
Lemma restore_brings_back e t m sched w w2 :
  backupTarget e = Some t -> Uploader_ t = PrimaryServer -> t_Bucket t <> primaryBucket e -> primaryUploader e = true ->
  plain_manifest m = true -> f_BackupID m <> "" -> holds_backup e t m w ->
  quiet w2 -> (PrimaryServer, primaryBucket e) ∈ buckets w2 -> (PrimaryServer, t_Bucket t) ∈ buckets w2 ->
  (forall n, String.prefix (backups_dir (f_BackupID m)) n = true -> objects (base w2) !! (t_Bucket t, n) = objects (base w) !! (t_Bucket t, n)) ->
  exists rr w3, Restore e sched (f_BackupID m) w2 = (Ok rr, w3) /\
    forall name o T, objects (base w) !! (primaryBucket e, name) = Some o -> table_of name = Some T ->
      exists o', objects (base w3) !! (primaryBucket e, name) = Some o' /\ obj_data o' = obj_data o.
Proof.
  intros Ht Hs Hb Hp Hplain Hid [(om & Hom & Hmm) Hc] Hq B1 B2 Hsame. unfold Restore. rewrite (bind_ok time_Now _ w2 (now (base w2)) w2 eq_refl), Ht.
  rewrite bool_decide_eq_false_2 by done. rewrite Hs.
  destruct (quiet_get PrimaryServer (t_Bucket t) (manifest_key (f_BackupID m)) w2 om Hq B2) as (w4 & Hg & H4);
    [cbn; rewrite Hsame; [done|apply prefix_app_true]|].
  rewrite (bind_ok _ _ _ _ _ Hg). destruct (full_roundtrip m Hplain) as (d & Hd & Hu). rewrite Hmm in Hd. injection Hd as <-. rewrite Hu.
  destruct (restore_metadata_run e (f_MetadataBackup m) w4) as (errs & w5 & Hr & H5). rewrite (bind_ok _ _ _ _ _ Hr).
  assert (same_objects w2 w5) as H25 by (by etrans). set (tms := List.filter _ (f_Tables m)).
  assert (calm e t (objects (base w5)) w5) as Hcalm.
  { pose proof (same_quiet _ _ H25 Hq). destruct H25 as (_ & _ & _ & Eb). split_and!; rewrite ?Eb; done. }
  assert ((fun tm => mkRestorer (TableName tm) Start 0) <$> tms = (fun T => mkRestorer T Start 0) <$> (TableName <$> tms)) as ->
    by (by rewrite <- list_fmap_compose).
  destruct (restore_complete e t (f_BackupID m) Hs Hb Hp (objects (base w5)) sched (TableName <$> tms) (mkRestored errs 0) w5 Hcalm)
    as (sh & w6 & Hi & Hback).
  rewrite (bind_ok _ _ _ _ _ Hi), (bind_ok time_Now _ w6 (now (base w6)) w6 eq_refl). eexists _, w6. split; [done|].
  intros name o T Ho HT. destruct (Hc name o T Ho HT) as [(tm & Htm & HN & Hst) (o' & Ho' & E)].
  destruct (table_of_some _ _ HT) as (rest & Hname & _).
  assert (T ∈ (TableName <$> tms)) as HT'.
  { apply list_elem_of_fmap. exists tm. split; [done|]. apply list_elem_of_In, filter_In. rewrite Hst. split; [by apply list_elem_of_In|done]. }
  destruct (Hback T HT' name) with (o := o') as (o3 & Ho3 & E3).
  - rewrite Hname, string_app_assoc. apply prefix_app_true.
  - destruct H25 as (_ & -> & _). rewrite Hsame; [done|]. unfold data_dir. rewrite <- string_app_assoc. apply prefix_app_true.
  - exists o3. split; [done|congruence].
Qed.

(** C30: A full backup on a node without a backup server that reports
    "completed", whatever answers were lost and in whatever order its
    goroutines ran, can be restored: if afterwards the directory of the backup
    is still in the target bucket and the servers answer, [Restore] returns and
    every object of a table is in the primary bucket again with its data,
    whatever happened to that bucket meanwhile. The configured retention does
    not remove the new backup. Names of tables and nodes are UTF-8 text. *)
Theorem completed_backup_restores e ep bb bp pp nonce sched id planID w r w' sched' w2 :
  backupTarget e = ResolveBackupTarget ep bb (primaryBucket e) bp pp -> IsDegraded e = true -> primaryUploader e = true ->
  utf8_ok (nodeID e) = true -> utf8_ok id = true -> year_ok (now (base w)) = true -> timely_calls w ->
  (forall name o T, objects (base w') !! (primaryBucket e, name) = Some o -> table_of name = Some T -> utf8_ok T = true) ->
  FullBackup error_text e nonce sched id planID w = (Ok r, w') -> Status r = "completed" ->
  quiet w2 -> (forall t, backupTarget e = Some t -> (PrimaryServer, primaryBucket e) ∈ buckets w2 /\ (PrimaryServer, t_Bucket t) ∈ buckets w2 /\
    forall n, String.prefix (backups_dir (BackupID r)) n = true -> objects (base w2) !! (t_Bucket t, n) = objects (base w') !! (t_Bucket t, n)) ->
  exists rr w3, Restore e sched' (BackupID r) w2 = (Ok rr, w3) /\
    forall name o T, objects (base w') !! (primaryBucket e, name) = Some o -> table_of name = Some T ->
      exists o', objects (base w3) !! (primaryBucket e, name) = Some o' /\ obj_data o' = obj_data o.
Proof.
  intros Hres Hdeg Hp Hnode Hid Hyear Htime Hnames Hr Hst Hq Hw2. destruct (degraded_target _ _ _ _ _ Hres Hdeg) as (t & Ht & Hs & Hb).
  destruct (full_backup_holds error_text e t Ht Hs Hb nonce sched id planID w r w' Htime Hr Hst)
    as (m & Hh & Hn & E1 & E2 & E3 & E4 & E5 & E6 & E7 & E8).
  assert (forall z, utf8_ok (Itoa z) = true) as Hi by (intros z; apply utf8_ascii, Itoa_ascii).
  assert (utf8_ok (BackupID r) = true /\ BackupID r <> "") as [Hu Hne].
  { destruct E8 as [[-> ?]| ->]; [done|]. split; [|done]. repeat (apply utf8_app; [done|]). apply Hi. }
  destruct (Hw2 t Ht) as (B1 & B2 & Hsame). rewrite <- E1 in *.
  apply (restore_brings_back e t m sched' w' w2); try done. unfold plain_manifest. rewrite !andb_true_iff. split_and!.
  - assert (utf8_ok (f_MetadataBackup m) = true) as Hm by (destruct E7 as [-> | ->]; [done|]; repeat (apply utf8_app; [done|]); apply Hi).
    cbn [forallb]. by rewrite E2, E3, E5, Hu, Hnode, Hm.
  - by rewrite E4.
  - apply forallb_forall. intros tm Htm%list_elem_of_In. destruct (Hn tm Htm) as (-> & name & o & Ho & HT). by rewrite (Hnames _ _ _ Ho HT).
  - by rewrite E6.
Qed.
End roundtrip.

(** ** A backup server of its own *)

Definition remote_same (w w' : bworld) : Prop := remote w' = remote w.
#[export] Instance remote_same_preorder : PreOrder remote_same.
Proof. split; [by intros w|intros w1 w2 w3 H1 H2; unfold remote_same in *; congruence]. Qed.
Lemma same_remote {E A} (m : M bworld E A) : keeps same_objects m -> keeps remote_same m.
Proof. intros Hm w. by destruct (Hm w) as (_ & _ & H & _). Qed.
Lemma bcall_remote {A} (f : bworld -> result backup_error A * bworld) : (forall w, remote_same w (f w).2) -> keeps remote_same (bcall f).
Proof. apply bcall_keeps; [apply _|]. by intros w w1 (_ & _ & H & _). Qed.
Lemma on_base_remote {A} (m : MW A) : keeps remote_same (on_base m).
Proof. by apply (on_base_keeps remote_same m (fun _ _ => True)). Qed.
Lemma Exists_remote s b : keeps remote_same (Uploader.BucketExists s b).
Proof. by apply bcall_remote. Qed.
Lemma Make_remote s b : keeps remote_same (Uploader.MakeBucket s b).
Proof. apply bcall_remote. intros w. by case_bool_decide. Qed.
Lemma SaveExecution_remote `{PlanJSON} redis x : keeps remote_same (SaveExecution redis x).
Proof. apply same_remote, SaveExecution_same. Qed.
Lemma new_execution_remote x : keeps remote_same (new_execution x).
Proof. apply same_remote, new_execution_same. Qed.
#[export] Hint Resolve on_base_remote Exists_remote Make_remote SaveExecution_remote new_execution_remote : bframes.

Section separate.
Context {J : SnapshotJSON} {JP : PlanJSON} {JM : ManifestJSON} (error_text : backup_error -> string) (e : Executor) (t : BackupTarget).
Hypothesis separate_server : Uploader_ t = BackupServer.

(** The backup server has no bucket with objects of the primary one. *)
Definition no_sources (w : bworld) : Prop := forall n, remote w !! (primaryBucket e, n) = None.
Lemma remote_no_sources w w' : remote_same w w' -> no_sources w -> no_sources w'.
Proof. intros H. unfold no_sources. by rewrite H. Qed.

Lemma copy_fails dst n w r w' : Uploader.CopyObject BackupServer (t_Bucket t) dst (primaryBucket e) n w = (r, w') -> no_sources w ->
  is_ok r = false /\ no_sources w'.
Proof.
  unfold Uploader.CopyObject, Uploader.in_bucket. set (f := fun w => if bool_decide _ then _ else _). intros H Hn.
  destruct (bcall_run f w) as (w1 & (_ & _ & Hr & _)%reached_same & Hcase). apply (remote_no_sources _ w1 Hr) in Hn.
  assert (is_ok (f w1).1 = false /\ (f w1).2 = w1) as [Hf Hf'].
  { unfold f. case_bool_decide; [|done]. cbn [held_objects]. by rewrite Hn. }
  rewrite H in Hcase. destruct Hcase as [[E _]|[_ [E|E]]]; [rewrite <- E in *; cbn in *; by subst|rewrite Hf' in E|]; by injection E as -> ->.
Qed.

Definition nothing_copied (ts : list copier) (sh : shared) (w : bworld) : Prop :=
  no_sources w /\ Forall (fun g => g_copied g = 0) ts /\ totalObjects sh = 0.

Lemma nothing_inl id ts k g sh w g' w' : nothing_copied ts sh w -> ts !! k = Some g -> backup_step e t id g w = (Ok (inl g'), w') ->
  nothing_copied (<[k := g']> ts) sh w'.
Proof.
  intros (Hn & Hf & H0) Hk Hs. pose proof (Forall_lookup_1 _ _ _ _ Hf Hk) as Hg. cbn in Hg. unfold backup_step in Hs.
  assert (no_sources w' /\ g_copied g' = 0) as [H1 H2]; [|split_and!; [done|by apply Forall_insert|done]].
  destruct (g_phase g) as [|[|o l]|err]; [|done| |done].
  - apply run_bind in Hs as (r & w1 & Hr%run_attempt & Hs). injection Hs as <- <-. split; [|done]. unfold table_objects in Hr.
    destruct (primaryUploader e); [|by injection Hr as _ <-]. apply list_run in Hr as [(_ & _ & E & _) _]. by eapply remote_no_sources.
  - apply run_bind in Hs as (g1 & w1 & Hr & Hs). injection Hs as <- <-. apply run_bind in Hr as (r & w2 & Hc%run_attempt & Hr).
    rewrite separate_server in Hc. apply copy_fails in Hc as [Ho Hw]; [|done]. destruct r; [done|]. by injection Hr as <- <-.
Qed.
Lemma nothing_inr id ts k g sh w f w' : nothing_copied ts sh w -> ts !! k = Some g -> backup_step e t id g w = (Ok (inr f), w') ->
  nothing_copied (delete k ts) (f sh) w'.
Proof.
  intros (Hn & Hf & H0) Hk Hs. pose proof (Forall_lookup_1 _ _ _ _ Hf Hk) as Hg. cbn in Hg. unfold backup_step in Hs.
  destruct (g_phase g) as [|[|o l]|err]; [by apply run_bind in Hs as (? & ? & _ & ?)| |by apply run_bind in Hs as (? & ? & _ & ?)|].
  - injection Hs as <- <-. split_and!; [done|by apply Forall_delete|]. cbn. unfold table_manifest. destruct (_ <? _); cbn; lia.
  - injection Hs as <- <-. split_and!; [done|by apply Forall_delete|done].
Qed.

(** With a backup server of its own a full backup copies no object at all: the
    copies are made on the backup server, from a bucket of that server. *)
Theorem no_copies_across_servers nonce sched id planID w r w' : backupTarget e = Some t -> no_sources w ->
  FullBackup error_text e nonce sched id planID w = (Ok r, w') -> r_ObjectCount r = 0.
Proof.
  intros Ht Hn Hr. unfold FullBackup in Hr. apply run_bind in Hr as (startTime & w0 & Hnow & Hr). injection Hnow as <- <-. rewrite Ht in Hr.
  set (bid := if bool_decide (id = "") then _ else id) in Hr.
  apply run_bind in Hr as ([] & w1 & H1 & Hr). apply (run_keeps remote_same) in H1; [|unfold EnsureBucket; steps bframes].
  apply run_bind in Hr as (x & w2 & H2 & Hr). apply (run_keeps remote_same) in H2; [|unfold start_execution, save_execution; steps bframes].
  apply run_bind in Hr as ([mid errs] & w3 & H3 & Hr).
  apply (run_keeps remote_same) in H3; [|unfold full_metadata, ManualBackup; steps bframes].
  apply run_bind in Hr as (tables & w4 & H4 & Hr). apply listTables_run in H4 as [(_ & _ & H4 & _) _].
  assert (no_sources w4) as Hn4 by (apply (remote_no_sources w); [by do 3 (etrans; [eassumption|])|done]).
  apply run_bind in Hr as (sh & w5 & H5 & Hr).
  assert (nothing_copied [] sh w5) as (_ & _ & H0).
  { eapply (interleave_inv _ _ started nothing_copied (backup_step_size e t bid) backup_size_pos (nothing_inl bid) (nothing_inr bid)); [|exact H5].
    split_and!; [done|apply Forall_fmap, Forall_forall; done|done]. }
  cbv zeta in Hr. apply run_bind in Hr as ([] & w6 & _ & Hr). apply run_bind in Hr as (et & w7 & _ & Hr).
  apply run_bind in Hr as ([] & w8 & _ & Hr). apply run_bind in Hr as ([] & w9 & _ & Hr). by injection Hr as <- <-.
Qed.
End separate.
