(* ===== verification/BackupScheduler.v ===== *)
(** * The scheduler of the backups (internal/backup/scheduler.go, cmd/app.go)

    Plans, the entries of cron that carry copies of them, the executions they
    start and the clean-ups that follow these. What is published to the
    dashboard changes nothing here. While Redis answers, the store of the plans
    is a list of plans, the last saved first; without a stop, whatever fails,
    cron has at most one entry for a plan, with the plan as it is now. *)

From S2P Require Import Prelude GoStrings GoTime GoFloat FieldMapping RedisStore TableConfig MetadataStore MetadataBackup MetadataSync MetadataFrames MetadataRoundtrip BackupStore BackupExecutor BackupTheorems.
From Stdlib Require Import Ascii.
#[local] Open Scope Z_scope.

Inductive cron_schedule := Cron (expr : string) | intervalSchedule (interval : Z).
(** [Next] of an interval. *)
Definition interval_Next (interval t : Z) : Z := t + interval.

Record entry := mkEntry { e_id : nat; e_schedule : cron_schedule; e_job : BackupSchedule }.
Record cleanup := mkCleanup { c_backupType : string; c_tables : list string; c_retentionDays : Z }.

(** The entries of cron are kept when it stops. [triggered] and [cleanups]
    are the goroutines that were started and have not run yet; [has_ctx]:
    whether [ctx] has been set. *)
Record Scheduler := mkScheduler {
  plans : gmap string BackupSchedule; cron_entries : list entry; next_id : nat; entryIDs : gmap string nat;
  running : bool; has_ctx : bool; triggered : list BackupSchedule; cleanups : list cleanup;
}.
Definition NewScheduler : Scheduler := mkScheduler ∅ [] 1 ∅ false false [] [].

Definition put_plans (p : gmap string BackupSchedule) (s : Scheduler) : Scheduler :=
  mkScheduler p (cron_entries s) (next_id s) (entryIDs s) (running s) (has_ctx s) (triggered s) (cleanups s).
Definition set_entries (l : list entry) (n : nat) (ids : gmap string nat) (s : Scheduler) : Scheduler :=
  mkScheduler (plans s) l n ids (running s) (has_ctx s) (triggered s) (cleanups s).
Definition set_running (r c : bool) (s : Scheduler) : Scheduler :=
  mkScheduler (plans s) (cron_entries s) (next_id s) (entryIDs s) r c (triggered s) (cleanups s).
Definition set_goroutines (t : list BackupSchedule) (c : list cleanup) (s : Scheduler) : Scheduler :=
  mkScheduler (plans s) (cron_entries s) (next_id s) (entryIDs s) (running s) (has_ctx s) t c.

(** Every field but [System]. *)
Definition clonePlan (p : BackupSchedule) : BackupSchedule :=
  mkPlan (p_ID p) (p_Name p) (Enabled p) (Interval p) (CronExpr p) (BackupType p) (Tables p) (p_RetentionDays p) false (p_CreatedAt p) (p_UpdatedAt p).

(** ** Entries *)

Definition cron_Remove (id : nat) (s : Scheduler) : Scheduler :=
  set_entries (List.filter (fun x => negb (e_id x =? id)%nat) (cron_entries s)) (next_id s) (entryIDs s) s.
(** The entry of a plan is removed. *)
Definition unschedule (id : string) (s : Scheduler) : Scheduler :=
  match entryIDs s !! id with
  | Some n => let s := cron_Remove n s in set_entries (cron_entries s) (next_id s) (delete id (entryIDs s)) s
  | None => s
  end.

Section scheduler.
Context {J : SnapshotJSON} {JP : PlanJSON} {JM : ManifestJSON} {JC : ConfigJSON} (error_text : backup_error -> string)
  (batches : list string -> list (list string)).
(** Whether the parsers of the cron library accept an expression. *)
Context (cron_Parse cron_ParseStandard : string -> bool).
Context (executor : option Executor) (store : option (option bool)).

Abbreviation MS := (M (Scheduler * bworld) backup_error).
Definition on_world {A} (m : MB A) : MS A := zoom snd (fun w s => (s.1, w)) m.
Definition sched_state : MS Scheduler := asks fst.
Definition change (f : Scheduler -> Scheduler) : MS unit := modifies (fun s => (f s.1, s.2)).

Definition plan_schedule (plan : BackupSchedule) : result backup_error cron_schedule :=
  if bool_decide (CronExpr plan <> "") then
    if cron_Parse (CronExpr plan) || cron_ParseStandard (CronExpr plan) then Ok (Cron (CronExpr plan)) else Err BadCron
  else if 0 <? Interval plan then Ok (intervalSchedule (Interval plan))
  else Err NoCronNorInterval.

Definition schedulePlan (plan : BackupSchedule) (s : Scheduler) : result backup_error Scheduler :=
  if negb (Enabled plan) then Ok s else
  match plan_schedule plan with
  | Err err => Err err
  | Ok c => Ok (set_entries (cron_entries s ++ [mkEntry (next_id s) c (clonePlan plan)]) (S (next_id s)) (<[p_ID plan := next_id s]> (entryIDs s)) s)
  end.
Definition schedule_all (l : list BackupSchedule) (s : Scheduler) : Scheduler :=
  foldl (fun s p => match schedulePlan p s with Ok s => s | Err _ => s end) s l.

(** ** Plans *)

Definition in_store {A} (m : option bool -> MB A) : MS unit :=
  match store with
  | Some redis => attempt (E1 := backup_error) (on_world (m redis)) ;; mret tt
  | None => mret tt
  end.

Definition load_plans (l : list BackupSchedule) (m : gmap string BackupSchedule) : gmap string BackupSchedule :=
  foldl (fun m p => if Enabled p then <[p_ID p := p]> m else m) m l.

Definition Start_ : MS unit :=
  s ← sched_state;
  if running s then throw AlreadyRunning else
  change (set_running false true) ;;
  (match store with
   | None => mret tt
   | Some redis =>
       r ← attempt (E1 := backup_error) (on_world (ListPlans redis));
       match r with Ok l => change (fun s => put_plans (load_plans l (plans s)) s) | Err _ => mret tt end
   end) ;;
  change (fun s => set_running true true (schedule_all (map_to_list (plans s)).*2 s)).

Definition Stop : MS unit :=
  change (fun s => if running s then set_running false (has_ctx s) (set_entries (cron_entries s) (next_id s) ∅ s) else s).

(** The plan is scheduled, kept and saved. *)
Definition install (plan : BackupSchedule) : MS unit :=
  s ← sched_state;
  match (if Enabled plan && running s then schedulePlan plan s else Ok s) with
  | Err err => throw err
  | Ok s => change (fun _ => put_plans (<[p_ID plan := clonePlan plan]> (plans s)) s) ;; in_store (fun redis => SavePlan redis (Some plan))
  end.

Definition AddPlan (plan : option BackupSchedule) : MS unit :=
  match plan with
  | None => throw NilPlan
  | Some plan =>
      if bool_decide (p_ID plan = "") then throw EmptyPlanID else
      change (fun s =>
        match plans s !! p_ID plan with
        | Some existing => if running s && Enabled existing then unschedule (p_ID plan) s else s
        | None => s
        end) ;;
      install plan
  end.

Definition AddPlanIfAbsent (plan : option BackupSchedule) : MS unit :=
  match plan with
  | None => throw NilPlan
  | Some plan =>
      if bool_decide (p_ID plan = "") then throw EmptyPlanID else
      s ← sched_state;
      if bool_decide (is_Some (plans s !! p_ID plan)) then throw PlanExists else install plan
  end.

Definition RemovePlan (id : string) : MS unit :=
  s ← sched_state;
  match plans s !! id with
  | None => throw PlanNotFound
  | Some plan =>
      if System plan then throw SystemPlan else
      change (fun s => let s := if running s && Enabled plan then unschedule id s else s in put_plans (delete id (plans s)) s) ;;
      in_store (fun redis => DeletePlan redis id)
  end.

(** The goroutine is started. *)
Definition TriggerExecution (id : string) : MS unit :=
  s ← sched_state;
  match plans s !! id with
  | None => throw PlanNotFound
  | Some plan => change (fun s => set_goroutines (triggered s ++ [clonePlan plan]) (cleanups s) s)
  end.

Definition ListPlans_ : MS (list BackupSchedule) := s ← sched_state; mret (map_to_list (plans s)).*2.

(** ** Executions *)

(** The backups of the tables of a plan: the first result and the errors. *)
Fixpoint backup_tables (e : Executor) (planID : string) (tables : list string) : MB (option BackupResult * list backup_error) :=
  match tables with
  | [] => mret (None, [])
  | tableName :: tables =>
      r ← attempt (E1 := backup_error) (TableBackup batches e tableName planID);
      '(result, errs) ← backup_tables e planID tables;
      mret (match r with Ok x => (Some x, errs) | Err err => (result, TableFailed tableName err :: errs) end)
  end.

Definition run_backup (e : Executor) (nonce : option (list Z)) (sched : list nat) (plan : BackupSchedule) : MB (option BackupResult) :=
  if bool_decide (BackupType plan = BackupTypeFull) then r ← FullBackup error_text e nonce sched "" (p_ID plan); mret (Some r)
  else if bool_decide (BackupType plan = BackupTypeTable) then
    if bool_decide (Tables plan = []) then throw NoTablesGiven else
    '(result, errs) ← backup_tables e (p_ID plan) (Tables plan);
    if bool_decide (errs = []) then mret result else throw (SomeTablesFailed errs)
  else if bool_decide (BackupType plan = BackupTypeMetadata) then r ← MetadataBackup_ error_text e nonce (p_ID plan); mret (Some r)
  else throw UnknownType.

Definition executePlan (nonce : option (list Z)) (sched : list nat) (plan : BackupSchedule) : MS unit :=
  s ← sched_state;
  startTime ← on_world time_Now;
  if negb (has_ctx s) then throw NilPointer else
  x ← on_world (new_execution (mkExecution ("exec-" +:+ p_ID plan +:+ "-" +:+ Itoa (startTime / second)) (p_ID plan) ExecutionStatusRunning
                                 startTime None "" "" zero_time zero_time));
  match executor with
  | None =>
      now ← on_world time_Now;
      on_world (change_execution x (ended ExecutionStatusFailed now "" (error_text NoExecutor))) ;;
      in_store (fun redis => SaveExecution redis x)
  | Some e =>
      in_store (fun redis => SaveExecution redis x) ;;
      r ← attempt (on_world (run_backup e nonce sched plan));
      (match r with
       | Ok _ => if 0 <? p_RetentionDays plan
                 then change (fun s => set_goroutines (triggered s) (cleanups s ++ [mkCleanup (BackupType plan) (Tables plan) (p_RetentionDays plan)]) s)
                 else mret tt
       | Err _ => mret tt
       end) ;;
      now ← on_world time_Now;
      on_world (change_execution x (match r with
        | Ok result => ended ExecutionStatusCompleted now (match result with Some b => MetadataFile b | None => "" end) ""
        | Err err => ended ExecutionStatusFailed now "" (error_text err)
        end)) ;;
      in_store (fun redis => SaveExecution redis x)
  end.

(** Cron runs an entry, a triggered execution runs, a clean-up runs. *)
Definition fire (nonce : option (list Z)) (sched : list nat) (id : nat) : MS unit :=
  s ← sched_state;
  match list_find (fun x => e_id x = id) (cron_entries s) with
  | Some (_, x) => if running s then executePlan nonce sched (e_job x) else mret tt
  | None => mret tt
  end.
Definition run_triggered (nonce : option (list Z)) (sched : list nat) : MS unit :=
  s ← sched_state;
  match triggered s with
  | [] => mret tt
  | plan :: rest => change (fun s => set_goroutines rest (cleanups s) s) ;; executePlan nonce sched plan
  end.
Definition run_cleanup : MS unit :=
  s ← sched_state;
  match cleanups s, executor with
  | c :: rest, Some e =>
      change (fun s => set_goroutines (triggered s) rest s) ;;
      match backupTarget e with
      | Some t => on_world (CleanupByPlan t (c_backupType c) (c_tables c) (c_retentionDays c))
      | None => throw NilPointer
      end
  | _, _ => mret tt
  end.

(** ** The start of the application (cmd/app.go) *)

Definition is_metadata (p : BackupSchedule) : bool := bool_decide (BackupType p = "metadata").
Definition injectSystemPlans (schedules : list BackupSchedule) (metadata_enabled : bool) (metadata_interval : Z) : list BackupSchedule :=
  if negb (existsb is_metadata schedules) && metadata_enabled then
    let interval := if metadata_interval <=? 0 then 1800 * second else metadata_interval in
    schedules ++ [mkPlan "system-metadata-backup" "System Metadata Backup" true interval "" "metadata" [] 7 true zero_time zero_time]
  else schedules.

Definition with_id (i : nat) (p : BackupSchedule) : BackupSchedule :=
  if bool_decide (p_ID p = "")
  then mkPlan ("schedule-" +:+ Itoa (Z.of_nat i)) (p_Name p) (Enabled p) (Interval p) (CronExpr p) (BackupType p) (Tables p) (p_RetentionDays p)
         (System p) (p_CreatedAt p) (p_UpdatedAt p)
  else p.
(** Without a target there is no scheduler. *)
Definition InitBackup (enabled : bool) (target : option BackupTarget) (schedules : list BackupSchedule) (metadata_enabled : bool)
    (metadata_interval : Z) : MS unit :=
  if negb enabled || bool_decide (target = None) then mret tt else
  each (fun p => attempt (E1 := backup_error) (AddPlan (Some p)) ;; mret tt)
    (imap with_id (injectSystemPlans schedules metadata_enabled metadata_interval)) ;;
  attempt (E1 := backup_error) Start_ ;; mret tt.
End scheduler.

(** * The store of the plans refines a list *)

Inductive plan_op := OSave (p : BackupSchedule) | ODelete (id : string).

(** The list of plans that the store stands for. *)
Definition without (id : string) (l : list BackupSchedule) : list BackupSchedule := List.filter (fun p => negb (bool_decide (p_ID p = id))) l.
Definition spec_op (t : Z) (l : list BackupSchedule) (o : plan_op) : list BackupSchedule :=
  match o with
  | OSave p => if bool_decide (validatePlanID (p_ID p) = None) then stamp_plan t p :: without (p_ID p) l else l
  | ODelete id => if bool_decide (validatePlanID id = None) then without id l else l
  end.

Section store.
Context {J : PlanJSON}.
Abbreviation redis := (Some true).

Definition run_plan_op (o : plan_op) : MB unit :=
  match o with OSave p => SavePlan redis (Some p) | ODelete id => DeletePlan redis id end.
Definition run_plan_ops (os : list plan_op) : MB unit := each (fun o => attempt (E1 := backup_error) (run_plan_op o) ;; mret tt) os.

Definition stored (w : bworld) (p : BackupSchedule) : Prop := validatePlanID (p_ID p) = None /\
  exists d, plan_values w !! planKey (p_ID p) = Some d /\ unmarshal_plan d = Some p.
Definition plans_at (t : Z) (l : list BackupSchedule) (w : bworld) : Prop :=
  quiet w /\ now (base w) = t /\ list_at plansListKey w = p_ID <$> l /\ NoDup (p_ID <$> l) /\ Forall (stored w) l.

Lemma quiet_available w : quiet w -> exists w1, isRedisAvailable redis w = (Ok true, w1) /\ reached w w1 /\ quiet w1.
Proof.
  intros Hq. unfold isRedisAvailable. destruct (bcall_run (fun w => (Ok tt : result backup_error unit, w)) w) as (w1 & H1 & [[E Hn]|[Hn _]]); [|done].
  exists w1. unfold attempt, mbind, M_bind. rewrite E. split_and!; [done|done|by apply Hn].
Qed.
Lemma quiet_run {A} (f : bworld -> result backup_error A * bworld) w : quiet w -> exists w1, reached w w1 /\ quiet w1 /\ bcall f w = f w1.
Proof. intros Hq. destruct (bcall_run f w) as (w1 & H1 & [[E Hn]|[Hn _]]); [|done]. exists w1. split_and!; [done|by apply Hn|done]. Qed.

Lemma plans_reached t l w w1 : reached w w1 -> quiet w1 -> plans_at t l w -> plans_at t l w1.
Proof.
  intros (_ & Hv & Hl & _ & _ & _ & _ & Hn) Hq1 (Hq & Ht & Hls & Hnd & Hst). unfold plans_at, list_at, stored.
  rewrite Hl, Hv, (Hn Hq). done.
Qed.

Lemma planKey_inj a b : planKey a = planKey b -> a = b.
Proof. unfold planKey. intros H. by do 2 apply string_cancel_l in H. Qed.
Lemma without_ids id l : p_ID <$> without id l = List.filter (fun x => negb (bool_decide (x = id))) (p_ID <$> l).
Proof. induction l as [|p l IH]; [done|]. cbn. case_bool_decide; cbn; [done|]. f_equal. exact IH. Qed.
Lemma without_in id l p : p ∈ without id l <-> p ∈ l /\ p_ID p <> id.
Proof.
  unfold without. rewrite !list_elem_of_In, filter_In, negb_true_iff, bool_decide_eq_false. done.
Qed.
Lemma list_at_put key l w v : list_at key (set_plans v (put_list key l (plan_lists w)) w) = l.
Proof. unfold list_at. cbn. destruct l; cbn; [by rewrite lookup_delete_eq|by rewrite lookup_insert_eq]. Qed.
Lemma list_at_push key x w : list_at key (LPush key x w) = x :: list_at key w.
Proof. unfold list_at at 1. cbn. by rewrite lookup_insert_eq. Qed.

Lemma NoDup_without id l : NoDup (p_ID <$> l) -> NoDup (p_ID <$> without id l).
Proof. intros H. rewrite without_ids. by apply NoDup_ListNoDup, List.NoDup_filter, NoDup_ListNoDup. Qed.

Lemma save_tx t l w p d : plans_at t l w -> validatePlanID (p_ID p) = None -> unmarshal_plan d = Some p ->
  plans_at t (p :: without (p_ID p) l) (save_plan_tx (p_ID p) d w).
Proof.
  intros (Hq & Ht & Hl & Hnd & Hst) Hid Hd. split_and!; [done|done| | |].
  - unfold save_plan_tx. rewrite list_at_push. cbn [fmap list_fmap]. f_equal. unfold LRem. rewrite list_at_put. unfold Set_, list_at in *. cbn.
    rewrite Hl. symmetry. apply without_ids.
  - cbn [fmap list_fmap]. apply NoDup_cons. split; [|by apply NoDup_without]. intros (q & Hq' & Hin)%list_elem_of_fmap.
    by apply without_in in Hin as [_ Hin].
  - apply Forall_cons. split; [split; [done|]; exists d; cbn; by rewrite lookup_insert_eq|].
    apply Forall_forall. intros q [Hin Hne]%without_in. destruct (proj1 (Forall_forall _ _) Hst q Hin) as [Hv (dq & H1 & H2)].
    split; [done|]. exists dq. cbn. rewrite lookup_insert_ne; [done|]. intros E%planKey_inj. congruence.
Qed.
Lemma delete_tx t l w id : plans_at t l w -> plans_at t (without id l) (delete_plan_tx id w).
Proof.
  intros (Hq & Ht & Hl & Hnd & Hst). split_and!; [done|done| |by apply NoDup_without|].
  - rewrite without_ids, <- Hl. unfold delete_plan_tx, Del at 1, list_at at 1. cbn [plan_lists set_plans]. rewrite lookup_delete_ne by done.
    fold (list_at plansListKey (LRem plansListKey id (Del (planKey id) w))). unfold LRem. rewrite list_at_put.
    unfold Del, list_at. cbn. by rewrite lookup_delete_ne.
  - apply Forall_forall. intros q [Hin Hne]%without_in. destruct (proj1 (Forall_forall _ _) Hst q Hin) as [Hv (dq & H1 & H2)].
    split; [done|]. exists dq. cbn. rewrite !lookup_delete_ne; [done|intros E%planKey_inj; congruence|done].
Qed.

Definition plain_op (o : plan_op) : bool := match o with OSave p => plain_plan p | ODelete _ => true end.
Lemma stamp_plain t p : year_ok t = true -> plain_plan p = true -> plain_plan (stamp_plan t p) = true.
Proof. unfold plain_plan, stamp_plan. cbn. intros Ht. rewrite Ht. destruct (_ =? zero_time); [rewrite Ht|]; rewrite !andb_true_iff; tauto. Qed.

Lemma run_op_refines t l w o : year_ok t = true -> plain_op o = true -> plans_at t l w ->
  plans_at t (spec_op t l o) (run_plan_op o w).2.
Proof.
  intros Hy Hp Hw. destruct o as [p|id]; cbn [run_plan_op spec_op plain_op SavePlan] in *.
  - unfold valid_plan. case_bool_decide as Hv; [|destruct (validatePlanID (p_ID p)); [exact Hw|done]]. rewrite Hv. cbn [mret].
    unfold time_Now. rewrite (bind_ok (mret tt : MB unit) _ w tt w eq_refl), (bind_ok (asks _ : MB Z) _ w t w) by (unfold asks; by rewrite (proj1 (proj2 Hw))).
    destruct (quiet_available w (proj1 Hw)) as (w1 & E1 & R1 & Q1). rewrite (bind_ok _ _ _ _ _ E1). cbn [negb].
    apply (plans_reached t l w w1 R1 Q1) in Hw. destruct (plan_roundtrip _ (stamp_plain t p Hy Hp)) as (d & -> & Hd).
    destruct (quiet_run (fun w => (Ok tt : result backup_error unit, save_plan_tx (p_ID (stamp_plan t p)) d w)) w1 Q1) as (w2 & R2 & Q2 & E2).
    unfold attempt, mbind, M_bind. rewrite E2. apply (plans_reached t l w1 w2 R2 Q2) in Hw. by apply (save_tx t l w2 (stamp_plan t p) d).
  - unfold DeletePlan, valid_plan. case_bool_decide as Hv; [|destruct (validatePlanID id); [exact Hw|done]]. rewrite Hv.
    rewrite (bind_ok (mret tt : MB unit) _ w tt w eq_refl).
    destruct (quiet_available w (proj1 Hw)) as (w1 & E1 & R1 & Q1). rewrite (bind_ok _ _ _ _ _ E1). cbn [negb].
    apply (plans_reached t l w w1 R1 Q1) in Hw.
    destruct (quiet_run (fun w => (Ok tt : result backup_error unit, delete_plan_tx id w)) w1 Q1) as (w2 & R2 & Q2 & E2).
    unfold attempt, mbind, M_bind. rewrite E2. apply (plans_reached t l w1 w2 R2 Q2) in Hw. by apply delete_tx.
Qed.

Lemma get_plans_run t l w ps : plans_at t l w -> Forall (stored w) ps -> exists w1, get_plans redis (p_ID <$> ps) w = (Ok ps, w1).
Proof.
  revert w. induction ps as [|p ps IH]; intros w Hw Hps; [by exists w|]. apply Forall_cons in Hps as [[Hv (d & Hd & Hu)] Hps].
  cbn [fmap list_fmap get_plans]. assert (exists w1, getPlanByID redis (p_ID p) w = (Ok p, w1) /\ reached w w1 /\ quiet w1) as (w1 & E1 & R1 & Q1).
  { unfold getPlanByID, valid_plan. rewrite Hv, (bind_ok (mret tt : MB unit) _ w tt w eq_refl).
    destruct (quiet_available w (proj1 Hw)) as (w1 & E1 & R1 & Q1). rewrite (bind_ok _ _ _ _ _ E1). cbn [negb].
    destruct (quiet_run (fun w => (Ok (plan_values w !! planKey (p_ID p)) : result backup_error _, w)) w1 Q1) as (w2 & R2 & Q2 & E2).
    assert (plan_values w2 !! planKey (p_ID p) = Some d) as Hd2.
    { destruct R1 as (_ & V1 & _), R2 as (_ & V2 & _). by rewrite V2, V1. }
    rewrite Hd2 in E2. rewrite (bind_ok _ _ _ _ _ E2), Hu. exists w2. split_and!; [done| |done].
    destruct R1 as (S1 & V1 & L1 & P1 & X1 & H1 & D1 & N1), R2 as (S2 & V2 & L2 & P2 & X2 & H2 & D2 & N2).
    split_and!; [by etrans|congruence..|]. intros Hq. rewrite (N2 Q1). by apply N1. }
  rewrite (bind_ok (attempt _) _ w (Ok p) w1) by (unfold attempt; by rewrite E1).
  destruct (IH w1) as [w2 E2]; [by eapply plans_reached| |].
  - eapply Forall_impl; [exact Hps|]. intros q [Hq (dq & Hx & Hy)]. split; [done|]. exists dq. by destruct R1 as (_ & -> & _).
  - rewrite (bind_ok _ _ _ _ _ E2). by exists w2.
Qed.

Lemma run_ops_refine t os l w : year_ok t = true -> forallb plain_op os = true -> plans_at t l w ->
  plans_at t (foldl (spec_op t) l os) (run_plan_ops os w).2.
Proof.
  intros Hy. revert l w. induction os as [|o os IH]; intros l w Hp Hw; [done|]. cbn [forallb] in Hp. apply andb_true_iff in Hp as [Ho Hp].
  cbn [foldl]. pose proof (run_op_refines t l w o Hy Ho Hw) as H1. unfold run_plan_ops. cbn [each].
  destruct (run_plan_op o w) as [r w1] eqn:E.
  rewrite (bind_ok (attempt (E1 := backup_error) (run_plan_op o) ;; mret tt) _ w tt w1) by (unfold attempt, mbind, M_bind; by rewrite E).
  by apply IH.
Qed.

(** C32: While Redis answers, the store is a list of plans: after any saves and
    deletes [ListPlans] returns the plans that were saved and not deleted, each
    once and stamped with the time, the last saved first. A plan without a
    valid identifier is refused and changes nothing. *)
Theorem plan_store_refines os w : quiet w -> year_ok (now (base w)) = true -> plan_values w = ∅ -> plan_lists w = ∅ -> forallb plain_op os = true ->
  exists w', ListPlans redis (run_plan_ops os w).2 = (Ok (foldl (spec_op (now (base w))) [] os), w').
Proof.
  intros Hq Hy Hv Hl Hp. set (t := now (base w)) in *.
  assert (plans_at t [] w) as Hw by (split_and!; [done|done|unfold list_at; by rewrite Hl|by apply NoDup_nil|by apply Forall_nil]).
  apply (run_ops_refine t os [] w Hy Hp) in Hw. revert Hw. generalize (foldl (spec_op t) [] os) as l. generalize (run_plan_ops os w).2 as w0.
  clearbody t. clear w Hq Hv Hl. intros w l Hw. unfold ListPlans. destruct (quiet_available w (proj1 Hw)) as (w1 & E1 & R1 & Q1). rewrite (bind_ok _ _ _ _ _ E1). cbn [negb].
  apply (plans_reached t l w w1 R1 Q1) in Hw.
  destruct (quiet_run (fun w => (Ok (list_at plansListKey w) : result backup_error _, w)) w1 Q1) as (w2 & R2 & Q2 & E2).
  apply (plans_reached t l w1 w2 R2 Q2) in Hw. pose proof Hw as (_ & _ & Hls & _ & Hst). rewrite Hls in E2.
  rewrite (bind_ok (attempt _) _ w1 (Ok (p_ID <$> l)) w2) by (unfold attempt; by rewrite E2). by eapply get_plans_run.
Qed.
End store.

(** * The entries of cron *)

Inductive sched_op :=
  | OStart | OAdd (p : option BackupSchedule) | OAddIfAbsent (p : option BackupSchedule) | ORemove (id : string) | OTrigger (id : string)
  | OFire (nonce : option (list Z)) (sched : list nat) (id : nat) | ORunTriggered (nonce : option (list Z)) (sched : list nat) | ORunCleanup.

(** Each entry carries its plan as it is now, and is the only one of it. *)
Definition entry_ok (s : Scheduler) (x : entry) : Prop := exists p, plans s !! p_ID (e_job x) = Some p /\ Enabled p = true /\ e_job x = clonePlan p /\
  entryIDs s !! p_ID (e_job x) = Some (e_id x) /\ (e_id x < next_id s)%nat.
Definition entries_ok (s : Scheduler) : Prop :=
  (forall id p, plans s !! id = Some p -> p_ID p = id) /\ Forall (entry_ok s) (cron_entries s) /\ NoDup (e_id <$> cron_entries s) /\
  (running s = false -> cron_entries s = []).
Definition no_entry (id : string) (s : Scheduler) : Prop := forall x, x ∈ cron_entries s -> p_ID (e_job x) <> id.

Definition same_sched (s s' : Scheduler) : Prop :=
  plans s' = plans s /\ cron_entries s' = cron_entries s /\ entryIDs s' = entryIDs s /\ next_id s' = next_id s /\ running s' = running s.
Lemma same_entries s s' : same_sched s s' -> entries_ok s -> entries_ok s'.
Proof. intros (E1 & E2 & E3 & E4 & E5) H. unfold entries_ok, entry_ok. by rewrite E1, E2, E3, E4, E5. Qed.

(** The entry of a plan is gone. *)
Lemma unschedule_ok id s : entries_ok s -> entries_ok (unschedule id s) /\ no_entry id (unschedule id s) /\
  plans (unschedule id s) = plans s /\ running (unschedule id s) = running s.
Proof.
  intros (Hk & Hf & Hn & Hr). unfold unschedule. destruct (entryIDs s !! id) as [n|] eqn:En.
  - assert (forall x, x ∈ List.filter (fun x => negb (e_id x =? n)%nat) (cron_entries s) <-> x ∈ cron_entries s /\ e_id x <> n) as Hin.
    { intros x. rewrite !list_elem_of_In, filter_In, negb_true_iff, Nat.eqb_neq. done. }
    assert (forall x, x ∈ cron_entries s -> e_id x <> n -> p_ID (e_job x) <> id) as Hne.
    { intros x Hx Hid E. destruct (proj1 (Forall_forall _ _) Hf x Hx) as (p & _ & _ & _ & Hi & _). rewrite E, En in Hi. congruence. }
    split; [split_and!|split_and!].
    + done.
    + apply Forall_forall. intros x [Hx Hid]%Hin. destruct (proj1 (Forall_forall _ _) Hf x Hx) as (p & H1 & H2 & H3 & H4 & H5).
      exists p. cbn. rewrite lookup_delete_ne; [done|]. intros E. by apply (Hne x Hx Hid).
    + cbn. assert (sublist (List.filter (fun x => negb (e_id x =? n)%nat) (cron_entries s)) (cron_entries s)) as Hsub.
      { clear. induction (cron_entries s) as [|x l IH]; cbn; [done|]. destruct (negb _); by constructor. }
      eapply sublist_NoDup; [exact Hn|by apply fmap_sublist].
    + cbn. intros E. by rewrite (Hr E).
    + intros x [Hx Hid]%Hin. by apply Hne.
    + done.
    + done.
  - split; [done|]. split; [|done]. intros x Hx E. destruct (proj1 (Forall_forall _ _) Hf x Hx) as (p & _ & _ & _ & Hi & _).
    by rewrite E, En in Hi.
Qed.
(** A plan that is unknown or disabled has none. *)
Lemma absent_no_entry id s : entries_ok s -> (forall p, plans s !! id = Some p -> running s = true -> Enabled p = true -> False) -> no_entry id s.
Proof.
  intros (_ & Hf & _ & Hr) H x Hx E. destruct (proj1 (Forall_forall _ _) Hf x Hx) as (p & H1 & H2 & _). rewrite E in H1.
  destruct (running s) eqn:Er; [by eapply H|]. rewrite (Hr eq_refl) in Hx. by apply elem_of_nil in Hx.
Qed.

Section scheduler.
Context {J : SnapshotJSON} {JP : PlanJSON} {JM : ManifestJSON} {JC : ConfigJSON} (error_text : backup_error -> string)
  (batches : list string -> list (list string)) (cron_Parse cron_ParseStandard : string -> bool)
  (executor : option Executor) (store : option (option bool)).
Abbreviation schedule_plan := (schedulePlan cron_Parse cron_ParseStandard).

Definition run_sched_op (o : sched_op) : M (Scheduler * bworld) backup_error unit :=
  match o with
  | OStart => Start_ cron_Parse cron_ParseStandard store
  | OAdd p => AddPlan cron_Parse cron_ParseStandard store p
  | OAddIfAbsent p => AddPlanIfAbsent cron_Parse cron_ParseStandard store p
  | ORemove id => RemovePlan store id
  | OTrigger id => TriggerExecution id
  | OFire nonce sched id => fire error_text batches executor store nonce sched id
  | ORunTriggered nonce sched => run_triggered error_text batches executor store nonce sched
  | ORunCleanup => run_cleanup executor
  end.
Definition run_sched_ops (os : list sched_op) : M (Scheduler * bworld) backup_error unit :=
  each (fun o => attempt (E1 := backup_error) (run_sched_op o) ;; mret tt) os.

(** A new entry for a plan without one, and the plan in its place. *)
Lemma schedule_ok p s s' : entries_ok s -> no_entry (p_ID p) s -> running s = true -> schedule_plan p s = Ok s' ->
  forall q, Enabled q = Enabled p -> clonePlan q = clonePlan p ->
  entries_ok (put_plans (<[p_ID p := q]> (plans s')) s') /\ running s' = true /\ plans s' = plans s.
Proof.
  intros (Hk & Hf & Hn & Hr) Hno Hrun Hs q Hen Hcl. assert (p_ID q = p_ID p) as Hid by (by injection Hcl).
  assert (forall id p', <[p_ID p := q]> (plans s) !! id = Some p' -> p_ID p' = id) as Hk'.
  { intros id p' [[<- <-]|[_ H]]%lookup_insert_Some; [done|by apply Hk]. }
  assert (forall x m, x ∈ cron_entries s -> <[p_ID p := m]> (plans s) !! p_ID (e_job x) = plans s !! p_ID (e_job x)) as Hl.
  { intros x m Hx. rewrite lookup_insert_ne; [done|]. intros E. by apply (Hno x Hx). }
  unfold schedulePlan in Hs. destruct (Enabled p) eqn:Ep; cbn [negb] in Hs.
  - destruct (plan_schedule _ _ p) as [c|]; [|done]. injection Hs as <-. cbn. split; [|done]. split_and!; [done| | |cbn; congruence].
    + cbn. apply Forall_app. split.
      * apply Forall_forall. intros x Hx. destruct (proj1 (Forall_forall _ _) Hf x Hx) as (p1 & H1 & H2 & H3 & H4 & H5).
        exists p1. cbn. rewrite (Hl x q Hx). split_and!; try done; [|lia]. rewrite lookup_insert_ne; [done|]. intros E. by apply (Hno x Hx).
      * apply Forall_singleton. exists q. cbn. rewrite !lookup_insert_eq. split_and!; first [done|lia|congruence].
    + cbn. rewrite fmap_app. apply NoDup_app. split_and!; [done| |apply NoDup_singleton]. intros n Hin Hx. apply list_elem_of_singleton in Hx as ->.
      apply list_elem_of_fmap in Hin as (x & E & Hx). destruct (proj1 (Forall_forall _ _) Hf x Hx) as (? & _ & _ & _ & _ & H5). cbn in E. lia.
  - injection Hs as <-. split; [|done]. split_and!; [done| |done|done]. apply Forall_forall. intros x Hx.
    destruct (proj1 (Forall_forall _ _) Hf x Hx) as (p1 & H1 & H2 & H3 & H4 & H5). exists p1. cbn. by rewrite (Hl x q Hx).
Qed.
Lemma keep_ok p s q : entries_ok s -> no_entry (p_ID p) s -> p_ID q = p_ID p -> entries_ok (put_plans (<[p_ID p := q]> (plans s)) s).
Proof.
  intros (Hk & Hf & Hn & Hr) Hno Hid. split_and!; [|apply Forall_forall; intros x Hx|done|done].
  - intros id p' H. cbn in H. apply lookup_insert_Some in H as [[<- <-]|[_ H]]; [done|by apply Hk].
  - destruct (proj1 (Forall_forall _ _) Hf x Hx) as (p1 & H1 & H2 & H3 & H4 & H5). exists p1. cbn. rewrite lookup_insert_ne; [done|].
    intros E. by apply (Hno x Hx).
Qed.

(** ** Operations *)

Abbreviation W := (Scheduler * bworld)%type.
(** What every run keeps of the scheduler. *)
Definition ok_state (a b : W) : Prop := entries_ok a.1 -> entries_ok b.1.
Definition only_world (a b : W) : Prop := same_sched a.1 b.1.
#[export] Instance ok_state_preorder : PreOrder ok_state.
Proof. split; [intros a H; exact H|intros a b c H1 H2 H; auto]. Qed.
#[export] Instance only_world_preorder : PreOrder only_world.
Proof. split; [done|]. intros a b c (A1 & A2 & A3 & A4 & A5) (B1 & B2 & B3 & B4 & B5). split_and!; congruence. Qed.
Lemma only_ok {E A} (m : M W E A) : keeps only_world m -> keeps ok_state m.
Proof. intros Hm w. exact (same_entries _ _ (Hm w)). Qed.
Lemma on_world_only {A} (m : MB A) : keeps only_world (on_world m).
Proof. intros w. unfold on_world, zoom. by destruct (m w.2). Qed.
Lemma in_store_only {A} (m : option bool -> MB A) : keeps only_world (in_store store m).
Proof. unfold in_store. destruct store; [|apply keeps_ret; apply _]. apply keeps_bind; [apply _| |intros; apply keeps_ret; apply _]. apply keeps_attempt, on_world_only. Qed.
Lemma goroutines_only f g : keeps only_world (change (fun s => set_goroutines (f s) (g s) s)).
Proof. by intros w. Qed.
Hint Resolve on_world_only in_store_only goroutines_only : bframes.

Lemma executePlan_only nonce sched p : keeps only_world (executePlan error_text batches executor store nonce sched p).
Proof. unfold executePlan, sched_state. steps bframes. Qed.
Hint Resolve executePlan_only : bframes.

Lemma install_ok p a : entries_ok a.1 -> no_entry (p_ID p) a.1 -> entries_ok (install cron_Parse cron_ParseStandard store p a).2.1.
Proof.
  intros Hok Hno. unfold install, sched_state. rewrite (bind_ok (asks fst : M W backup_error Scheduler) _ a a.1 a eq_refl).
  assert (forall s, entries_ok (put_plans (<[p_ID p := clonePlan p]> (plans s)) s) ->
    entries_ok ((change (fun _ => put_plans (<[p_ID p := clonePlan p]> (plans s)) s) ;; in_store store (fun redis => SavePlan redis (Some p))) a).2.1) as Hput.
  { intros s Hs. set (s1 := put_plans _ s) in *. rewrite (bind_ok (change (fun _ => s1)) _ a tt (s1, a.2) eq_refl).
    exact (same_entries s1 _ (in_store_only _ (s1, a.2)) Hs). }
  destruct (Enabled p && running a.1) eqn:E.
  - apply andb_true_iff in E as [He Hrun]. destruct (schedule_plan p a.1) as [s|] eqn:Hs; [|done]. apply Hput.
    by apply (schedule_ok p a.1 s Hok Hno Hrun Hs).
  - apply Hput. by apply (keep_ok p).
Qed.

Lemma AddPlan_ok p : keeps ok_state (AddPlan cron_Parse cron_ParseStandard store p).
Proof.
  intros a Hok. unfold AddPlan. destruct p as [p|]; [|done]. case_bool_decide; [done|].
  set (f := fun s => match plans s !! p_ID p with Some q => if running s && Enabled q then unschedule (p_ID p) s else s | None => s end).
  rewrite (bind_ok (change f) _ a tt (f a.1, a.2) eq_refl). assert (entries_ok (f a.1) /\ no_entry (p_ID p) (f a.1)) as [H1 H2]; [|by apply install_ok].
  unfold f. destruct (plans a.1 !! p_ID p) as [q|] eqn:Hq; [destruct (running a.1 && Enabled q) eqn:E|].
  - by destruct (unschedule_ok (p_ID p) a.1 Hok) as (? & ? & _).
  - split; [done|]. apply absent_no_entry; [done|]. intros q' Hq' Hr He. rewrite Hq in Hq'. injection Hq' as <-. by rewrite Hr, He in E.
  - split; [done|]. apply absent_no_entry; [done|]. intros q' Hq'. congruence.
Qed.
Lemma AddPlanIfAbsent_ok p : keeps ok_state (AddPlanIfAbsent cron_Parse cron_ParseStandard store p).
Proof.
  intros a Hok. unfold AddPlanIfAbsent, sched_state. destruct p as [p|]; [|done]. case_bool_decide; [done|].
  rewrite (bind_ok (asks fst : M W backup_error Scheduler) _ a a.1 a eq_refl). case_bool_decide as Hp; [done|]. apply install_ok; [done|].
  apply absent_no_entry; [done|]. intros q Hq. destruct Hp. by exists q.
Qed.
Lemma RemovePlan_ok id : keeps ok_state (RemovePlan store id).
Proof.
  intros a Hok. unfold RemovePlan, sched_state. rewrite (bind_ok (asks fst : M W backup_error Scheduler) _ a a.1 a eq_refl).
  destruct (plans a.1 !! id) as [p|] eqn:Hp; [|done]. destruct (System p); [done|].
  set (f := fun s => let s := if running s && Enabled p then unschedule id s else s in put_plans (delete id (plans s)) s).
  rewrite (bind_ok (change f) _ a tt (f a.1, a.2) eq_refl). eapply same_entries; [apply in_store_only|]. cbn [fst]. unfold f. clear f.
  assert (forall s, entries_ok s -> no_entry id s -> entries_ok (put_plans (delete id (plans s)) s)) as Hdel.
  { intros s (Hk & Hf & Hn & Hr) Hno. split_and!; [|apply Forall_forall; intros x Hx|done|done].
    - intros i q Hq. cbn in Hq. apply lookup_delete_Some in Hq as [_ Hq]. by apply Hk.
    - destruct (proj1 (Forall_forall _ _) Hf x Hx) as (p1 & H1 & H2 & H3 & H4 & H5). exists p1. cbn. rewrite lookup_delete_ne; [done|].
      intros E. by apply (Hno x Hx). }
  destruct (running a.1 && Enabled p) eqn:E.
  - destruct (unschedule_ok id a.1 Hok) as (H1 & H2 & _). by apply Hdel.
  - apply Hdel; [done|]. apply absent_no_entry; [done|]. intros q Hq Hr He. rewrite Hp in Hq. injection Hq as <-. by rewrite Hr, He in E.
Qed.

Lemma schedule_all_ok l s : entries_ok s -> running s = true -> NoDup (p_ID <$> l) -> Forall (fun p => plans s !! p_ID p = Some p) l ->
  (forall p, p ∈ l -> no_entry (p_ID p) s) -> entries_ok (schedule_all cron_Parse cron_ParseStandard l s).
Proof.
  revert s. induction l as [|p l IH]; intros s Hok Hrun Hnd Hpl Hno; [done|]. unfold schedule_all. cbn [foldl].
  fold (schedule_all cron_Parse cron_ParseStandard l). cbn [fmap list_fmap] in Hnd. apply NoDup_cons in Hnd as [Hp Hnd]. apply Forall_cons in Hpl as [Hpp Hpl].
  destruct (schedule_plan p s) as [s'|] eqn:Hs; [|apply IH; try done; intros q Hq; apply Hno; set_solver].
  destruct (schedule_ok p s s' Hok (Hno p ltac:(set_solver)) Hrun Hs p eq_refl eq_refl) as (Hok' & Hrun' & Hpl').
  rewrite Hpl', insert_id in Hok' by done.
  assert (put_plans (plans s) s' = s') as Hsame by (rewrite <- Hpl'; by destruct s'). rewrite Hsame in Hok'. apply IH; [done..| |].
  - by rewrite Hpl'.
  - intros q Hq x Hx E. assert (x ∈ cron_entries s \/ p_ID (e_job x) = p_ID p) as [Hx'|Hx'].
    { unfold schedulePlan in Hs. destruct (negb _); [by injection Hs as <-; left|]. destruct (plan_schedule _ _ p); [|done]. injection Hs as <-.
      cbn in Hx. apply elem_of_app in Hx as [|Hx]; [by left|right]. by apply list_elem_of_singleton in Hx as ->. }
    + by apply (Hno q ltac:(set_solver) x Hx').
    + apply Hp. rewrite <- Hx', E. by apply list_elem_of_fmap_2.
Qed.

Definition try_schedule (p : BackupSchedule) (s : Scheduler) : Scheduler := match schedule_plan p s with Ok s => s | Err _ => s end.
Lemma schedule_all_cons p l s : schedule_all cron_Parse cron_ParseStandard (p :: l) s = schedule_all cron_Parse cron_ParseStandard l (try_schedule p s).
Proof. done. Qed.
Lemma schedule_running l s : set_running true true (schedule_all cron_Parse cron_ParseStandard l s) =
  schedule_all cron_Parse cron_ParseStandard l (set_running true true s).
Proof.
  revert s. induction l as [|p l IH]; intros s; [done|]. rewrite !schedule_all_cons, IH. f_equal.
  unfold try_schedule, schedulePlan. destruct (negb _); [done|]. by destruct (plan_schedule _ _ p).
Qed.
Lemma load_plans_keys l m : (forall id p, m !! id = Some p -> p_ID p = id) -> forall id p, load_plans l m !! id = Some p -> p_ID p = id.
Proof.
  revert m. induction l as [|q l IH]; intros m Hm; [done|]. unfold load_plans. cbn [foldl]. fold (load_plans l). apply IH.
  destruct (Enabled q); [|done]. intros id p [[<- <-]|[_ H]]%lookup_insert_Some; [done|by apply Hm].
Qed.

Lemma all_scheduled_ok s : (forall id p, plans s !! id = Some p -> p_ID p = id) -> cron_entries s = [] ->
  entries_ok (set_running true true (schedule_all cron_Parse cron_ParseStandard (map_to_list (plans s)).*2 s)).
Proof.
  intros Hk He. rewrite schedule_running. apply schedule_all_ok.
  - split_and!; [done|cbn; rewrite He; by apply Forall_nil|cbn; rewrite He; by apply NoDup_nil|done].
  - done.
  - assert (p_ID <$> (map_to_list (plans s)).*2 = (map_to_list (plans s)).*1) as ->; [|apply NoDup_fst_map_to_list].
    rewrite <- list_fmap_compose. apply list_fmap_ext. intros i [k p] H%list_elem_of_lookup_2%elem_of_map_to_list. by apply Hk.
  - apply Forall_fmap, Forall_forall. intros [k p] H%elem_of_map_to_list. cbn. by rewrite (Hk k p H).
  - intros p _ x Hx. cbn in Hx. rewrite He in Hx. by apply elem_of_nil in Hx.
Qed.
Lemma Start_ok : keeps ok_state (Start_ cron_Parse cron_ParseStandard store).
Proof.
  intros a Hok. unfold Start_, sched_state. rewrite (bind_ok (asks fst : M W backup_error Scheduler) _ a a.1 a eq_refl).
  destruct (running a.1) eqn:Hr; [done|]. destruct Hok as (Hk & _ & _ & He). specialize (He Hr).
  set (s1 := set_running false true a.1). rewrite (bind_ok (change (set_running false true)) _ a tt (s1, a.2) eq_refl).
  set (f := fun s => set_running true true (schedule_all cron_Parse cron_ParseStandard (map_to_list (plans s)).*2 s)).
  assert (forall b : W, plans b.1 = plans s1 -> cron_entries b.1 = [] -> entries_ok (f b.1)) as Hf
    by (intros b Hb Hc; apply all_scheduled_ok; [by rewrite Hb|done]).
  destruct store as [redis|]; [|exact (Hf (s1, a.2) eq_refl He)]. destruct (on_world (ListPlans redis) (s1, a.2)) as [r [s2 w2]] eqn:Hl.
  assert (s2 = s1) as -> by (unfold on_world, zoom in Hl; destruct (ListPlans redis (s1, a.2).2); by injection Hl as _ <- _).
  unfold mbind, M_bind, attempt. rewrite Hl. destruct r as [l|]; [|exact (Hf (s1, w2) eq_refl He)].
  cbn. apply all_scheduled_ok; [|done]. cbn. by apply load_plans_keys.
Qed.

Lemma sched_op_ok o : keeps ok_state (run_sched_op o).
Proof.
  destruct o; cbn [run_sched_op]; [apply Start_ok|apply AddPlan_ok|apply AddPlanIfAbsent_ok|apply RemovePlan_ok|apply only_ok..].
  - unfold TriggerExecution, sched_state. steps bframes.
  - unfold fire, sched_state. steps bframes.
  - unfold run_triggered, sched_state. steps bframes.
  - unfold run_cleanup, sched_state. steps bframes.
Qed.

(** C31: Whatever the servers answer, after any sequence of starts, added and
    removed plans, executions and clean-ups cron has at most one entry for a
    plan, the plan is enabled, and the entry runs the plan as it is now. A stop
    is not among the operations: a second start after it adds every entry
    again. *)
Theorem one_entry_per_plan os w : let s := (run_sched_ops os (NewScheduler, w)).2.1 in
  NoDup ((fun x => p_ID (e_job x)) <$> cron_entries s) /\
  Forall (fun x => exists p, plans s !! p_ID (e_job x) = Some p /\ Enabled p = true /\ e_job x = clonePlan p) (cron_entries s).
Proof.
  intros s. assert (entries_ok s) as (Hk & Hf & Hn & _).
  { assert (keeps ok_state (run_sched_ops os)) as Hkeep.
    { apply keeps_each; [apply _|]. intros o _. apply keeps_bind; [apply _| |intros; apply keeps_ret; apply _]. apply keeps_attempt, sched_op_ok. }
    apply (Hkeep (NewScheduler, w)). split_and!; [intros id p Hp; cbn in Hp; by rewrite lookup_empty in Hp|by apply Forall_nil|by apply NoDup_nil|done]. }
  split; [|eapply Forall_impl; [exact Hf|]; intros x (p & H1 & H2 & H3 & _); by exists p].
  apply NoDup_alt. intros i j id Hi Hj. rewrite list_lookup_fmap in Hi, Hj.
  destruct (cron_entries s !! i) as [x|] eqn:Ei; [|done]. destruct (cron_entries s !! j) as [y|] eqn:Ej; [|done]. injection Hi as Hi. injection Hj as Hj.
  destruct (Forall_lookup_1 _ _ _ _ Hf Ei) as (p & _ & _ & _ & H4 & _), (Forall_lookup_1 _ _ _ _ Hf Ej) as (q & _ & _ & _ & H5 & _).
  rewrite Hi in H4. rewrite Hj, H4 in H5. injection H5 as Hid.
  eapply NoDup_lookup; [exact Hn|by rewrite list_lookup_fmap, Ei|]. by rewrite list_lookup_fmap, Ej, Hid.
Qed.
End scheduler.
