(* ===== verification/BackupDemo.v ===== *)
(** * Backups at work

    Instances of the theorems on concrete worlds, and behaviours that are not
    what the backups mean to do. *)

From S2P Require Import Prelude GoStrings GoTime GoFloat FieldMapping WalCodec ConsistentHash GoCrypto RedisStore TableConfig TableLifecycle MetadataStore MetadataBackup MetadataSync MetadataFrames MetadataRoundtrip MetadataDemo BackupStore BackupExecutor BackupTheorems BackupScheduler.
From Stdlib Require Import Ascii.
#[local] Open Scope Z_scope.

(** ** Codecs *)

#[export] Instance plan_eq : EqDecision BackupSchedule. Proof. solve_decision. Defined.
#[export] Instance plan_countable : Countable BackupSchedule.
Proof.
  refine (inj_countable' (fun p => (p_ID p, p_Name p, Enabled p, Interval p, CronExpr p, BackupType p, Tables p, p_RetentionDays p, System p,
      p_CreatedAt p, p_UpdatedAt p))
    (fun '(a, b, c, d, e, f, g, h, i, j, k) => mkPlan a b c d e f g h i j k) _). by intros [].
Defined.
#[export] Instance status_eq : EqDecision ExecutionStatus. Proof. solve_decision. Defined.
Definition status_number (s : ExecutionStatus) : nat :=
  match s with ExecutionStatusPending => 0 | ExecutionStatusRunning => 1 | ExecutionStatusCompleted => 2 | ExecutionStatusFailed => 3 end.
Definition number_status (n : nat) : ExecutionStatus :=
  match n with 0 => ExecutionStatusPending | 1 => ExecutionStatusRunning | 2 => ExecutionStatusCompleted | _ => ExecutionStatusFailed end%nat.
#[export] Instance status_countable : Countable ExecutionStatus.
Proof. refine (inj_countable' status_number number_status _). by intros []. Defined.
#[export] Instance execution_eq : EqDecision BackupExecution. Proof. solve_decision. Defined.
#[export] Instance execution_countable : Countable BackupExecution.
Proof.
  refine (inj_countable' (fun x => (x_ID x, x_PlanID x, x_Status x, StartTime x, EndTime x, x_Error x, x_Manifest x, x_CreatedAt x, x_UpdatedAt x))
    (fun '(a, b, c, d, e, f, g, h, i) => mkExecution a b c d e f g h i) _). by intros [].
Defined.
#[export] Instance table_manifest_eq : EqDecision TableManifest. Proof. solve_decision. Defined.
#[export] Instance table_manifest_countable : Countable TableManifest.
Proof.
  refine (inj_countable' (fun t => (TableName t, ObjectCount t, TotalSize t, tm_Status t, FailedCount t))
    (fun '(a, b, c, d, e) => mkTableManifest a b c d e) _). by intros [].
Defined.
#[export] Instance full_eq : EqDecision FullBackupManifest. Proof. solve_decision. Defined.
#[export] Instance full_countable : Countable FullBackupManifest.
Proof.
  refine (inj_countable' (fun m => (f_BackupID m, f_Type m, f_NodeID m, f_Timestamp m, f_Tables m, f_MetadataBackup m, f_Status m, f_FailedCount m,
      f_Degraded m, f_Errors m))
    (fun '(a, b, c, d, e, f, g, h, i, j) => mkFull a b c d e f g h i j) _). by intros [].
Defined.

Module BackupDemo.
#[local] Existing Instance MetadataDemo.codec.
#[local] Existing Instance TableDemo.demo_json.

#[export] Instance plan_json : PlanJSON.
Proof.
  refine {| marshal_plan p := Some (encode_text p); unmarshal_plan := decode_text;
            marshal_execution x := Some (encode_text x); unmarshal_execution := decode_text |};
    intros x _; eexists; (split; [done|apply decode_encode_text]).
Defined.
Lemma manifest_codec (m : FullBackupManifest) :
  exists d, Some (string_bytes (encode_text m)) = Some d /\ decode_text (bytes_string d) = Some m.
Proof. eexists. split; [done|]. by rewrite bytes_string_bytes, decode_encode_text. Qed.
#[export] Instance manifest_json : ManifestJSON.
Proof.
  refine {| marshal_full m := Some (string_bytes (encode_text m)); marshal_table m := Some (string_bytes (encode_text (as_full m)));
            marshal_config _ := Some []; marshal_map _ := Some []; unmarshal_full d := decode_text (bytes_string d) |};
    intros m _; apply manifest_codec.
Defined.

(** ** A node *)

Definition noon : Z := MetadataDemo.noon.
Definition days_ago (n : Z) : Z := noon - n * day_ns.
Definition texts (e : backup_error) : string := "failed".
Definition pages (l : list string) : list (list string) := [l].

Definition tables : gmap (string * string) object :=
  {[ ("data", "orders/1.parquet") := mkObject [1; 2] 0; ("data", "orders/2024/2.parquet") := mkObject [3] 0; ("data", "users/u") := mkObject [4] 0 ]}.
Definition bworld_at (o : gmap (string * string) object) (t : Z) (net : list (answer * Z)) : bworld :=
  mkB (mkWorld ∅ o t net BackupModeFull MetadataDemo.no_stats) ∅ {[ (PrimaryServer, "data") ]} ∅ ∅ ∅ ∅ [].
Definition w0 : bworld := bworld_at tables noon [].

Definition mgr : manager := mkManager MetadataDemo.pooled None "n1" (MetadataDemo.manager false) 0.
Definition degraded : option BackupTarget := ResolveBackupTarget "" "" "data" None (Some true).
Definition separate : option BackupTarget := ResolveBackupTarget "backup:9000" "copies" "data" (Some true) (Some true).
(** No metadata manager, no Redis, plans in memory. *)
Definition node (t : option BackupTarget) (m : option manager) (retention : Z) : Executor := NewExecutor true t m None (Some None) "data" retention.

Definition with_net (l : list (answer * Z)) (w : bworld) : bworld :=
  let b := base w in set_base (mkWorld (db b) (objects b) (now b) l (mode b) (stats b)) w.
Definition at_time (t : Z) (w : bworld) : bworld :=
  let b := base w in set_base (mkWorld (db b) (objects b) t (net b) (mode b) (stats b)) w.
(** The bucket of the tables is lost. *)
Definition lose_data (w : bworld) : bworld := set_base (set_objects (filter (fun p => p.1.1 <> "data") (objects (base w))) (base w)) w.
Definition names (bucket : string) (w : bworld) : list string :=
  omap (fun p => if bool_decide (p.1.1 = bucket) then Some p.1.2 else None) (map_to_list (objects (base w))).
Definition data_of (w : bworld) (name : string) : option (list Z) := obj_data <$> objects (base w) !! ("data", name).

Lemma lose_keeps w b n : b <> "data" -> objects (base (lose_data w)) !! (b, n) = objects (base w) !! (b, n).
Proof.
  intros Hb. unfold lose_data. cbn [base set_base objects set_objects]. destruct (objects (base w) !! (b, n)) as [o|] eqn:E.
  - by apply map_lookup_filter_Some.
  - apply map_lookup_filter_None. by left.
Qed.

(** ** The theorems *)

Definition full : result backup_error BackupResult * bworld := FullBackup texts (node degraded None 7) None [1; 0; 1; 3]%nat "" "daily" w0.
Definition full_result : BackupResult := match full.1 with Ok r => r | Err _ => mkBackupResult "" "" "" 0 0 0 0 false [] "" end.
Definition w1 : bworld := full.2.

Lemma full_run : full = (Ok full_result, w1).
Proof. assert (full.1 = Ok full_result) as E by (vm_compute; reflexivity). unfold w1. rewrite <- E. apply surjective_pairing. Qed.
Example full_is_complete : Status full_result = "completed" /\ r_ObjectCount full_result = 3 /\ BackupID full_result = "full-unknown-1709208000".
Proof. vm_compute. done. Qed.
Example restored_data : (fun w => data_of w <$> ["orders/1.parquet"; "orders/2024/2.parquet"; "users/u"])
    (Restore (node degraded None 7) [0; 0; 1]%nat "full-unknown-1709208000" (lose_data w1)).2
  = [Some [1; 2]; Some [3]; Some [4]] /\ data_of (lose_data w1) "users/u" = None.
Proof. vm_compute. done. Qed.

Definition text_tables (w : bworld) : bool :=
  forallb (fun p => match table_of p.1.2 with Some T => utf8_ok T | None => true end) (map_to_list (objects (base w))).
Lemma text_tables_ok w : text_tables w = true -> forall name o T, objects (base w) !! ("data", name) = Some o -> table_of name = Some T -> utf8_ok T = true.
Proof.
  intros H name o T Ho HT. unfold text_tables in H. rewrite forallb_forall in H.
  specialize (H ("data", name, o)). cbn in H. rewrite HT in H. apply H. by apply list_elem_of_In, elem_of_map_to_list.
Qed.

Lemma completed_backup_restores_witness : exists rr w3, Restore (node degraded None 7) [0; 0; 1]%nat (BackupID full_result) (lose_data w1) = (Ok rr, w3) /\
  exists o', objects (base w3) !! ("data", "users/u") = Some o' /\ obj_data o' = [4].
Proof.
  destruct (completed_backup_restores texts (node degraded None 7) "" "" None (Some true) None [1; 0; 1; 3]%nat "" "daily" w0 full_result w1
    [0; 0; 1]%nat (lose_data w1) eq_refl eq_refl eq_refl eq_refl eq_refl) as (rr & w3 & Hr & Hback).
  - vm_compute. reflexivity.
  - split; [by apply Forall_nil|reflexivity].
  - apply text_tables_ok. vm_compute. reflexivity.
  - apply full_run.
  - apply full_is_complete.
  - reflexivity.
  - intros t [= <-]. split_and!; [vm_compute; reflexivity|vm_compute; reflexivity|]. intros n _. by apply lose_keeps.
  - exists rr, w3. split; [exact Hr|]. apply (Hback "users/u" (mkObject [4] 0) "users"); vm_compute; reflexivity.
Defined.

Definition plan (id : string) (type : string) : BackupSchedule := mkPlan id "Plan" true (60 * second) "" type ["orders"] 7 false zero_time zero_time.
Definition system_plan : BackupSchedule := mkPlan "sys" "System" true (60 * second) "" "metadata" [] 7 true zero_time zero_time.
Definition some_ops : list plan_op := [OSave (plan "a" "full"); OSave (plan "b" "table"); OSave (plan "-" "full"); OSave (plan "a" "table"); ODelete "b"].
Lemma plan_store_refines_witness : exists w', ListPlans (Some true) (run_plan_ops some_ops w0).2 = (Ok [stamp_plan noon (plan "a" "table")], w').
Proof.
  destruct (plan_store_refines some_ops w0) as [w' H]; [reflexivity|vm_compute; reflexivity|reflexivity|reflexivity|vm_compute; reflexivity|].
  exists w'. rewrite H. do 2 f_equal.
Defined.

(** ** A backup server of its own *)

(** Nothing is copied: every copy fails and the manifest counts no object. *)
Definition on_copies : result backup_error BackupResult * bworld := FullBackup texts (node separate None 0) None [] "b1" "" w0.
Example separate_server_copies_nothing : match on_copies.1 with Ok r => (Status r, r_ObjectCount r, r_FailedCount r) | Err _ => ("", 0, 0) end = ("partial", 0, 3) /\
  (map_to_list (remote on_copies.2)).*1 = [("copies", "backups/b1/manifest.json")].
Proof. vm_compute. done. Qed.

(** ** Backups of single tables *)

Definition table_run (retention : Z) : result backup_error BackupResult * bworld := TableBackup pages (node degraded None retention) "orders" "" w0.
(** With a retention the backup of a table removes every backup of the table,
    the one it has just made included: the listing of the directories has no
    times, so each of them counts as expired. *)
Example table_backup_removes_itself : (Status <$> match (table_run 7).1 with Ok r => Some r | Err _ => None end) = Some "completed" /\
  names "data-backups" (table_run 7).2 = [] /\ length (names "data-backups" (table_run 0).2) = 3%nat.
Proof. vm_compute. done. Qed.
(** And of every table whose name starts with its name and a hyphen. *)
Example table_cleanup_by_prefix :
  names "data-backups" (TableBackup pages (node degraded None 7) "a" ""
    (bworld_at (<[("data-backups", "backups/table-a-b-n1-1/data/a-b/x") := mkObject [] noon]> tables) noon [])).2 = [].
Proof. vm_compute. done. Qed.
(** A restore of the backup of a table reads no tables from its manifest: it
    is "completed" without an object. *)
Example table_restore_restores_nothing :
  match (Restore (node degraded None 0) [] "table-orders-unknown-1709208000" (lose_data (table_run 0).2)).1 with
  | Ok r => Some (rr_Status r, rr_ObjectCount r) | Err _ => None end = Some ("completed", 0).
Proof. vm_compute. done. Qed.

(** ** Restores *)

(** A copy that fails is not an error of the restore. *)
Definition failing_restore : result backup_error RestoreResult * bworld :=
  Restore (node degraded None 7) [] "full-unknown-1709208000" (with_net (replicate 2 (Answered, 0) ++ [(NotSent, 0)]) (lose_data w1)).
Example failed_copy_completed : match failing_restore.1 with Ok r => Some (rr_Status r, rr_ObjectCount r) | Err _ => None end = Some ("completed", 2) /\
  data_of failing_restore.2 "users/u" = None.
Proof. vm_compute. done. Qed.

(** The manifest names a backup of the metadata that does not exist: the
    metadata is never restored and every such restore is partial. *)
Definition with_metadata : bworld := (FullBackup texts (node degraded (Some mgr) 7) None [] "b1" "" w0).2.
Example metadata_not_restored :
  match (Restore (node degraded (Some mgr) 7) [] "b1" with_metadata).1 with Ok r => Some (rr_Status r, rr_Errors r) | Err _ => None end
  = Some ("partial", [MetadataRestoreFailed NoSuchObject]) /\ names "meta" with_metadata = ["metadata-backup/n1/2024/02/29/backup_20240229_120000.json"].
Proof. vm_compute. done. Qed.

(** ** Retention *)

(** The clean-up after a backup of the metadata removes old full backups. *)
Example metadata_plan_removes_full_backups :
  names "data-backups" (match degraded with Some t => (CleanupByPlan t "metadata" [] 7 (at_time (noon + 8 * day_ns) w1)).2 | None => w1 end) = [] /\
  length (names "data-backups" w1) = 4%nat.
Proof. vm_compute. done. Qed.

(** ** The scheduler *)

Definition parses (s : string) : bool := bool_decide (s = "0 3 * * *").
Definition sched_run (ops : list (M (Scheduler * bworld) backup_error unit)) : Scheduler * bworld := foldl (fun a m => (m a).2) (NewScheduler, w0) ops.
Abbreviation start := (Start_ parses parses (Some None)).
Abbreviation add p := (AddPlan parses parses (Some None) (Some p)).
Abbreviation execute e := (executePlan texts pages (Some e) (Some None) None []).

(** A stop forgets the entries but leaves them in cron: after the next start
    a plan has two. *)
Example restart_doubles_entries :
  (fun x => p_ID (e_job x)) <$> cron_entries (sched_run [start; add (plan "a" "full"); Stop; start]).1 = ["a"; "a"].
Proof. vm_compute. done. Qed.

(** The plan of the system is protected until it is changed: the copy that is
    kept is no plan of the system. *)
Definition disabled (p : BackupSchedule) : BackupSchedule :=
  mkPlan (p_ID p) (p_Name p) false (Interval p) (CronExpr p) (BackupType p) (Tables p) (p_RetentionDays p) (System p) (p_CreatedAt p) (p_UpdatedAt p).
Example system_plan_removed :
  (RemovePlan (Some None) "sys" (sched_run [add system_plan; start])).1 = Err SystemPlan /\
  (RemovePlan (Some None) "sys" (sched_run [add system_plan; start; add (disabled system_plan)])).1 = Ok tt.
Proof. vm_compute. done. Qed.

(** A change that is refused takes the plan off the schedule. *)
Definition bad_cron (p : BackupSchedule) : BackupSchedule :=
  mkPlan (p_ID p) (p_Name p) true (Interval p) "?" (BackupType p) (Tables p) (p_RetentionDays p) (System p) (p_CreatedAt p) (p_UpdatedAt p).
Example refused_change_unschedules : let s := sched_run [start; add (plan "a" "full"); add (bad_cron (plan "a" "full"))] in
  cron_entries s.1 = [] /\ plans s.1 !! "a" = Some (clonePlan (plan "a" "full")).
Proof. vm_compute. done. Qed.

(** An execution before the first start dereferences a nil context. *)
Example trigger_before_start : (execute (node degraded None 0) (plan "a" "full") (NewScheduler, w0)).1 = Err NilPointer.
Proof. vm_compute. done. Qed.

(** A partial backup is recorded twice: as failed by the executor and as
    completed by the scheduler. The records of the start show the end too. *)
Definition after_partial : Scheduler * bworld :=
  (execute (node separate None 0) (plan "a" "full") (sched_run [start])).2.
Example partial_recorded_completed :
  match (ListExecutions None "a" 0 after_partial.2).1 with Ok l => x_Status <$> l | Err _ => [] end
  = [ExecutionStatusCompleted; ExecutionStatusFailed; ExecutionStatusFailed; ExecutionStatusCompleted].
Proof. vm_compute. done. Qed.

(** A backup whose tables cannot be listed stays "running". *)
Example failed_backup_still_running :
  match (ListExecutions None "a" 0 (FullBackup texts (node degraded None 0) None [] "" "a" (with_net (replicate 2 (Answered, 0) ++ [(NotSent, 0)]) w0)).2).1
  with Ok l => x_Status <$> l | Err _ => [] end = [ExecutionStatusRunning].
Proof. vm_compute. done. Qed.

(** ** The store of the plans *)

(** A plan deleted while Redis does not answer is back when it does. *)
Definition outage : bworld :=
  (DeletePlan (Some true) "a" (with_net [(NotSent, 0)] (SavePlan (Some true) (Some (plan "a" "full")) w0).2)).2.
Example deleted_plan_returns : match (ListPlans (Some true) outage).1 with Ok l => p_ID <$> l | Err _ => [] end = ["a"].
Proof. vm_compute. done. Qed.
(** A plan saved meanwhile is not seen. *)
Example saved_plan_hidden :
  match (ListPlans (Some true) (SavePlan (Some true) (Some (plan "a" "full")) (with_net [(NotSent, 0)] w0)).2).1 with Ok l => p_ID <$> l | Err _ => ["?"] end = [].
Proof. vm_compute. done. Qed.
End BackupDemo.
