(* ===== verification/Service.v ===== *)
(** * The service (internal/service/miniodb_service.go, internal/ingest/ingest.go)

    The handlers of the requests. They decide with the table manager, the
    stores of configurations and the generator of identifiers; rows, queries
    and locks belong to other components, which they reach through the
    operations of the class [Components]. *)

From S2P Require Import Prelude GoStrings GoTime GoRegexp FieldMapping IdGen OptimisticLock SqlSanitizer SelectQuery RedisStore TableConfig TableManager.
From Stdlib Require Import Ascii.
#[local] Open Scope Z_scope.

(** ** The components that the service calls *)

Class Components (C : Type) := {
  AddRow : DataRow -> M C string unit;                      (* Ingester: buffer.Add *)
  RemoveFromBuffer : string -> string -> C -> Z * C;
  ClearTableBuffer : string -> C -> Z * C;
  ExecuteQuery : string -> M C string string;
  ExecuteUpdate : string -> M C string Z;
  RewriteParquetForDelete : string -> string -> M C string (Z * bool);
  InvalidateCache : string -> M C string unit;
  Lock : string -> Z -> M C string string;
  Unlock : string -> string -> M C string unit;
}.

(** ** Requests *)

Abbreviation payload := (gmap string value).
Record DataRecord := mkRecord { rec_Id : string; rec_Timestamp : option Z; rec_Payload : option payload }.
Record WriteDataRequest := mkWrite { wr_Table : string; wr_Data : option DataRecord }.
Record QueryDataRequest := mkQuery { q_Sql : string; q_Limit : Z }.
Record UpdateDataRequest := mkUpdate { u_Table : string; u_Id : string; u_Timestamp : option Z; u_Payload : option payload }.
Record DeleteDataRequest := mkDelete { d_Table : string; d_Id : string }.
Record TableConfigMessage := mkConfigMessage {
  cm_BufferSize : Z; cm_FlushIntervalSeconds : Z; cm_RetentionDays : Z; cm_BackupEnabled : bool; cm_Properties : option (gmap string string);
  cm_IdStrategy : string; cm_IdPrefix : string; cm_AutoGenerateId : bool; cm_IdValidation : option IDValidationRules;
}.
Record CreateTableRequest := mkCreate { ct_TableName : string; ct_Config : option TableConfigMessage; ct_IfNotExists : bool }.
Record DeleteTableRequest := mkDeleteTable { dt_TableName : string; dt_IfExists : bool }.

(** The status of a call, and an answer that says whether it was successful.
    [Unfinished]: the generator still waits for its clock. *)
Inductive status := InvalidArgument | Internal | Canceled | Unfinished.
Record response := mkResponse { Success : bool; DeletedCount : Z }.
Definition accepted_ : response := mkResponse true 0.
Definition refused : response := mkResponse false 0.

(** What time, entropy and the uuid package give a request. *)
Record request_env := mkEnv {
  env_now : Z; env_millis_now : Z; env_ticks : list Z; env_uuid : string; env_stamp : string; env_millis : Z; env_random : option string;
}.

(** ** Identifiers *)

Definition digitsRegex : regex := plus digit.

(** [range] over a string, and arithmetic on 64 bits. *)
Fixpoint hash_runes (runes : list Z) (h : Z) : Z :=
  match runes with [] => h | c :: rs => hash_runes rs (int64 (h * 31 + c)) end.

Section node_id.
Context (runes_of : string -> list Z).

Definition extractNodeIDNumber (nodeID : string) : Z :=
  match ParseInt64 nodeID with
  | Some id => Z.rem id 1024
  | None =>
      match FindSubmatch digitsRegex nodeID ≫= (fun f => ParseInt64 (capture 0 f)) with
      | Some id => Z.rem id 1024
      | None => Z.rem (Z.land (hash_runes (runes_of nodeID) 0) (2 ^ 31 - 1)) 1024
      end
  end.
End node_id.

Definition strategy_of (s : string) : IDGeneratorStrategy :=
  if bool_decide (s = "") then StrategyEmpty else if bool_decide (s = "uuid") then StrategyUUID else
  if bool_decide (s = "snowflake") then StrategySnowflake else if bool_decide (s = "custom") then StrategyCustom else
  if bool_decide (s = "user_provided") then StrategyUserProvided else StrategyUnknown.

Definition id_char (c : ascii) : bool := is_word c || bool_decide (c = "-"%char).

(** [validateUpdateRequest], [validateDeleteRequest]: the checks of an id. *)
Definition valid_request_id (id : string) : bool :=
  negb (bool_decide (id = "")) && (Z.of_nat (String.length id) <=? 255) && all_chars id_char id.

(** ** The service *)

Section service.
Context {C : Type} {CP : Components C} {JC : ConfigJSON}.
Context (Compile : string -> option regex) (RFC3339 : Z -> string) (toLower : string -> string).
(** Whether there are a metadata manager, its Redis and its storage. *)
Context (has_metadata metadata_redis metadata_storage : bool) (tm : TableManager).
Context (encrypt : payload -> result string payload).

Let cfg := tm_cfg tm.

Record service := mkService {
  tables : world; comps : C; generator : SnowflakeGenerator; patterns : gmap string regex; configs : ConfigManager.cache;
}.

Definition on_tables {Er A} (m : M world Er A) : M service Er A :=
  zoom tables (fun w s => mkService w (comps s) (generator s) (patterns s) (configs s)) m.
Definition on_comps {Er A} (m : M C Er A) : M service Er A :=
  zoom comps (fun c s => mkService (tables s) c (generator s) (patterns s) (configs s)) m.
Definition set_configs (m : ConfigManager.cache) (s : service) : service := mkService (tables s) (comps s) (generator s) (patterns s) m.

Definition table_or_default (t : string) : string := if bool_decide (t = "") then DefaultTable (TableManagement cfg) else t.

(** *** Configurations *)

Definition systemDefaultTableConfig : TableConfig := set_auto true (set_strategy "snowflake" (DefaultConfig cfg)).

Definition metadata_get (t : string) : M world MetadataConfigs.error (option TableConfig) :=
  MetadataConfigs.GetTableConfig metadata_redis metadata_storage (MetadataBucket cfg) t.
Definition metadata_save (now : Z) (t : string) (c : TableConfig) : M world MetadataConfigs.error unit :=
  MetadataConfigs.SaveTableConfig RFC3339 metadata_redis metadata_storage (MetadataBucket cfg) now t c.

Definition from_config_manager (now : Z) (t : string) : M service status TableConfig :=
  m ← asks configs;
  r ← attempt (E1 := ConfigManager.error) (on_tables (ConfigManager.GetTableConfig (redisPool tm) (DefaultConfig cfg) now t m));
  match r with
  | Ok (c, m) => modifies (set_configs m) ;; mret (NormalizeAutoGenerateIDFromStrategy c)
  | Err _ => mret (NormalizeAutoGenerateIDFromStrategy (DefaultConfig cfg))
  end.

(** The missing document is written back on its own goroutine. *)
Definition GetTableConfig (now : Z) (t : string) : M service status TableConfig :=
  if negb has_metadata then from_config_manager now t else
  r ← attempt (E1 := MetadataConfigs.error) (on_tables (metadata_get t));
  match r with
  | Ok (Some c) => mret (NormalizeAutoGenerateIDFromStrategy c)
  | Ok None =>
      let recovered := NormalizeAutoGenerateIDFromStrategy systemDefaultTableConfig in
      attempt (E1 := MetadataConfigs.error) (on_tables (metadata_save now t recovered)) ;; mret recovered
  | Err _ => from_config_manager now t
  end.

(** *** Identifiers of rows *)

Definition GenerateID (e : request_env) (c : TableConfig) : M service status string := fun s =>
  let strategy := match strategy_of (IDStrategy c) with StrategyEmpty => StrategyUUID | x => x end in
  match DefaultGenerate (strategy_of (IDStrategy (DefaultConfig cfg))) (env_uuid e) (env_millis_now e) (env_ticks e) (env_stamp e) (env_millis e)
          (env_random e) strategy (IDPrefix c) (generator s) with
  | None => (Err Unfinished, s)
  | Some (g, r) =>
      (match r with Ok id => Ok id | Err _ => Err Internal end, mkService (tables s) (comps s) g (patterns s) (configs s))
  end.

Definition validate_id (id : string) (c : TableConfig) : M service status unit := fun s =>
  let '(p, r) := Validate Compile MatchString id (MaxLength (IDValidation c)) (Pattern (IDValidation c)) (patterns s) in
  (match r with Ok u => Ok u | Err _ => Err InvalidArgument end, mkService (tables s) (comps s) (generator s) p (configs s)).

Definition generated_id (e : request_env) (c : TableConfig) : M service status string :=
  id ← GenerateID e c;
  if bool_decide (TrimSpace id = "") then throw Internal else mret id.

Definition resolveRecordIDForWrite (e : request_env) (c : TableConfig) (providedID : string) : M service status string :=
  let recordID := TrimSpace providedID in
  if negb (bool_decide (recordID = "")) then validate_id recordID c ;; mret recordID else
  match strategy_of (IDStrategy c) with
  | StrategyUserProvided => throw InvalidArgument
  | StrategyEmpty | StrategyUUID | StrategySnowflake | StrategyCustom => generated_id e c
  | StrategyUnknown => if AutoGenerateID c then generated_id e c else throw InvalidArgument
  end.

(** *** Writing *)

(** [IngestData]: the fields are encrypted when a manager is set. *)
Definition IngestData (t id : string) (timestamp : Z) (fields : payload) : M C string unit :=
  match encrypt fields with
  | Err e => throw e
  | Ok fields => AddRow (mkRow id timestamp (if bool_decide (t = "") then "default" else t) fields)
  end.

Definition try_tables {A} (m : M world table_error A) : M service status (result table_error A) := attempt (on_tables m).
Definition try_comps {A} (m : M C string A) : M service status (result string A) := attempt (on_comps m).

Definition WriteData (e : request_env) (req : WriteDataRequest) : M service status response :=
  let t := table_or_default (wr_Table req) in
  match wr_Data req with
  | None => throw InvalidArgument
  | Some d =>
      match rec_Payload d with
      | None => throw InvalidArgument
      | Some fields =>
          if negb (IsValidTableName Compile cfg t) then mret refused else
          r ← try_tables (EnsureTableExists Compile RFC3339 tm (env_now e) t);
          if negb (is_ok r) then mret refused else
          c ← GetTableConfig (env_now e) t;
          id ← resolveRecordIDForWrite e c (rec_Id d);
          r ← try_comps (IngestData t id (default (env_now e / 1000) (rec_Timestamp d)) fields);
          if negb (is_ok r) then throw Internal else
          try_tables (UpdateLastWrite RFC3339 tm (env_now e) t) ;;
          try_comps (InvalidateCache t) ;;
          mret accepted_
      end
  end.

(** *** Updating and deleting *)

Definition lockTTL : Z := 30 * second.

Definition removePersistedIndexByID (t id : string) : M world table_error Z :=
  if negb (redisPool tm) then mret 0 else
  ks ← call (ScanKeys (indexPrefix t +:+ id +:+ ":*"));
  if bool_decide (ks = []) then mret 0 else
  call (Del ks) ;; mret (Zlength ks).

(** Run under the lock of a record, which is given back in every case. *)
Definition with_lock (t id : string) (body : M service status response) : M service status response :=
  let key := LockKey t id in
  r ← try_comps (Lock key lockTTL);
  match r with
  | Err _ => mret refused
  | Ok token =>
      x ← attempt (E1 := status) body;
      try_comps (Unlock key token) ;;
      match x with Ok a => mret a | Err e => throw e end
  end.

Definition remove_buffered (t id : string) : M service status Z :=
  fun s => let '(n, c) := RemoveFromBuffer t id (comps s) in
           (Ok n, mkService (tables s) c (generator s) (patterns s) (configs s)).

Definition update_row (e : request_env) (req : UpdateDataRequest) (t : string) (fields : payload) : M service status response :=
  remove_buffered t (u_Id req) ;;
  r ← try_comps (IngestData t (u_Id req) (default (env_now e / 1000) (u_Timestamp req)) fields);
  if negb (is_ok r) then mret refused else
  try_tables (removePersistedIndexByID t (u_Id req)) ;;
  match BuildSafeDeleteSQL t (u_Id req) with
  | Ok sql => try_comps (ExecuteUpdate sql) ;; mret tt
  | Err _ => mret tt
  end ;;
  try_comps (InvalidateCache t) ;;
  try_tables (UpdateLastWrite RFC3339 tm (env_now e) t) ;;
  mret accepted_.

Definition UpdateData (e : request_env) (req : UpdateDataRequest) : M service status response :=
  let t := table_or_default (u_Table req) in
  if negb (valid_request_id (u_Id req)) then throw InvalidArgument else
  match u_Payload req with
  | None => throw InvalidArgument
  | Some fields =>
      if negb (IsValidTableName Compile cfg t) then mret refused else
      r ← try_tables (EnsureTableExists Compile RFC3339 tm (env_now e) t);
      if negb (is_ok r) then mret refused else
      with_lock t (u_Id req) (update_row e req t fields)
  end.

Definition record_count_key (t : string) : string := "table:" +:+ t +:+ ":record_count".
Definition cache_prefix (t id : string) : string := "cache:table:" +:+ t +:+ ":id:" +:+ id +:+ ":".

Definition int32 (z : Z) : Z := (z + 2 ^ 31) mod 2 ^ 32 - 2 ^ 31.

Definition clean_redis (t id : string) (found : bool) : M world table_error unit :=
  if negb (redisPool tm) then mret tt else
  ks ← try_call (ScanKeys (cache_prefix t id +:+ "*"));
  match ks with Ok (k :: ks) => try_call (Del (k :: ks)) ;; mret tt | _ => mret tt end ;;
  if found then try_call (Decr (record_count_key t)) ;; mret tt else mret tt.

Definition delete_row (e : request_env) (req : DeleteDataRequest) (t : string) : M service status response :=
  n ← remove_buffered t (d_Id req);
  let deletedCount := if 0 <? n then int32 n else 0 in
  r ← try_comps (RewriteParquetForDelete t (d_Id req));
  match r with
  | Err _ => mret refused
  | Ok (rows, foundInStorage) =>
      let deletedCount := if 0 <? rows then int32 (deletedCount + int32 rows) else deletedCount in
      try_comps (InvalidateCache t) ;;
      let found := (0 <? deletedCount) || foundInStorage in
      try_tables (clean_redis t (d_Id req) found) ;;
      try_tables (UpdateLastWrite RFC3339 tm (env_now e) t) ;;
      mret (if found then mkResponse true deletedCount else refused)
  end.

Definition DeleteData (e : request_env) (req : DeleteDataRequest) : M service status response :=
  let t := table_or_default (d_Table req) in
  if negb (valid_request_id (d_Id req)) then throw InvalidArgument else
  if negb (IsValidTableName Compile cfg t) then mret refused else
  r ← try_tables (EnsureTableExists Compile RFC3339 tm (env_now e) t);
  if negb (is_ok r) then mret refused else
  with_lock t (d_Id req) (delete_row e req t).

(** *** Querying *)

(** [(?i)\bfrom\s+table\b]. The name of a table has no dollar sign, so the
    replacement is taken literally. *)
Definition fromTableRegex : regex := seq [WordB; ilit "from"; plus blank; ilit "table"; WordB].

Definition rewriteLegacyTable (sql : string) : result status string :=
  if negb (Contains (toLower sql) "from table") then Ok sql else
  let t := DefaultTable (TableManagement cfg) in
  if negb (IsValidTableName Compile cfg t) then Err InvalidArgument else
  Ok (ReplaceAll fromTableRegex (fun _ => "FROM " +:+ QuoteIdentifier t) sql).

Definition validateQueryRequest (sql : string) : result status unit :=
  match ValidateSelectQuery toLower sql with Ok u => Ok u | Err _ => Err InvalidArgument end.

Definition lift {Er A} (r : result Er A) : M service Er A := fun s => (r, s).

(** The statement that is executed. *)
Definition query_text (req : QueryDataRequest) : result status string :=
  match validateQueryRequest (q_Sql req) with
  | Err e => Err e
  | Ok _ =>
      match rewriteLegacyTable (q_Sql req) with
      | Err e => Err e
      | Ok sql =>
          let sql := if 0 <? q_Limit req then sql +:+ " LIMIT " +:+ Itoa (q_Limit req) else sql in
          match validateQueryRequest sql with Err e => Err e | Ok _ => Ok sql end
      end
  end.

Definition QueryData (req : QueryDataRequest) : M service status string :=
  sql ← lift (query_text req);
  on_error (fun _ => Internal) (on_comps (ExecuteQuery sql)).

(** *** Streams *)

(** The requests of the stream up to its end; the last error is kept. *)
Fixpoint write_records (e : string -> request_env) (t : string) (l : list DataRecord) : M service status bool :=
  match l with
  | [] => mret true
  | d :: l =>
      r ← attempt (E1 := status) (WriteData (e (rec_Id d)) (mkWrite t (Some d)));
      match r with
      | Ok resp => if Success resp then write_records e t l else mret false
      | Err _ => mret false
      end
  end.

Record stream_result := mkStream { RecordsCount : Z; ErrorCount : Z }.

Fixpoint StreamWrite (e : string -> request_env) (reqs : list (string * list DataRecord)) (acc : stream_result) : M service status stream_result :=
  match reqs with
  | [] => mret acc
  | (t, l) :: reqs =>
      ok ← write_records e t l;
      StreamWrite e reqs (if (ok : bool) then mkStream (int32 (RecordsCount acc + int32 (Zlength l))) (ErrorCount acc)
                          else mkStream (RecordsCount acc) (int32 (ErrorCount acc + int32 (Zlength l))))
  end.

Definition validateStreamQueryRequest (sql : string) (batchSize : Z) : bool :=
  negb (bool_decide (sql = "")) && (0 <=? batchSize) && (batchSize <=? 10000).

Record batch {A} := mkBatch { b_Records : list A; b_HasMore : bool; b_Cursor : string }.

Inductive send_outcome := Sent | SendFailed | SentThenCancelled.

(** The loop over the records: the messages that were sent and the status;
    [None] while the loop runs on. *)
Fixpoint send_batches {A} (fuel : nat) (outcomes : list send_outcome) (size offset : nat) (records : list A) :
    option (list (batch (A := A)) * option status) :=
  if (length records <=? offset)%nat then Some ([], None) else
  match fuel with
  | O => None
  | S fuel =>
      let end_ := Nat.min (offset + size) (length records) in
      let hasMore := (end_ <? length records)%nat in
      let b := mkBatch A (take (end_ - offset) (drop offset records)) hasMore (if hasMore then Itoa (Z.of_nat end_) else "") in
      match default Sent (head outcomes) with
      | SendFailed => Some ([], Some Internal)
      | SentThenCancelled => Some ([b], Some Canceled)
      | Sent => (fun '(bs, st) => (b :: bs, st)) <$> send_batches fuel (tail outcomes) size end_ records
      end
  end.

Definition start_offset (cursor : string) : nat :=
  match Atoi cursor with Some n => if 0 <? n then Z.to_nat n else 0%nat | None => 0%nat end.

(** [convert]: [ConvertResultToRecords]. *)
Definition StreamQuery {A} (convert : string -> option (list A)) (outcomes : list send_outcome) (sql cursor : string) (batchSize : Z) :
    M service status (option (list (batch (A := A)) * option status)) :=
  if negb (validateStreamQueryRequest sql batchSize) then throw InvalidArgument else
  let size := if batchSize <=? 0 then 100 else batchSize in
  r ← try_comps (ExecuteQuery sql);
  match r with
  | Err _ => throw Internal
  | Ok json =>
      match convert json with
      | None => throw Internal
      | Some records => mret (send_batches (length records) outcomes (Z.to_nat size) (start_offset cursor) records)
      end
  end.

(** *** Tables *)

Definition requested_config (m : TableConfigMessage) : TableConfig :=
  NormalizeAutoGenerateIDFromStrategy
    (mkTableConfig (cm_BufferSize m) (int64 (cm_FlushIntervalSeconds m * second)) (cm_RetentionDays m) (Some (cm_BackupEnabled m))
       (match cm_Properties m with Some p => OwnMap p | None => NilMap end) (cm_IdStrategy m) (cm_IdPrefix m) (cm_AutoGenerateId m)
       (match cm_IdValidation m with
        | None => mkRules 255 "^[a-zA-Z0-9_-]+$" ""
        | Some v => mkRules (MaxLength v) (if bool_decide (Pattern v = "") then "^[a-zA-Z0-9_-]+$" else Pattern v) (AllowedChars v)
        end) None).

Definition CreateTable (now : Z) (req : CreateTableRequest) : M service status response :=
  if bool_decide (ct_TableName req = "") || negb (IsValidTableName Compile cfg (ct_TableName req)) then mret refused else
  r ← try_tables (TableManager.CreateTable Compile RFC3339 tm now (ct_TableName req) (requested_config <$> ct_Config req) (ct_IfNotExists req));
  match r with
  | Err _ => mret refused
  | Ok None => mret accepted_
  | Ok (Some c) =>
      (if has_metadata then attempt (E1 := MetadataConfigs.error) (on_tables (metadata_save now (ct_TableName req) c)) ;; mret tt else mret tt) ;;
      m ← asks configs;
      r ← attempt (E1 := ConfigManager.error) (on_tables (ConfigManager.SetTableConfig (redisPool tm) now (ct_TableName req) c m));
      match r with Ok m => modifies (set_configs m) | Err _ => mret tt end ;;
      mret accepted_
  end.

Definition DeleteTable (req : DeleteTableRequest) : M service status response :=
  if bool_decide (dt_TableName req = "") then throw InvalidArgument else
  r ← try_tables (DropTable tm (dt_TableName req) (dt_IfExists req));
  match r with
  | Err _ => mret refused
  | Ok files =>
      modifies (fun s => let '(_, c) := ClearTableBuffer (dt_TableName req) (comps s) in mkService (tables s) c (generator s) (patterns s) (configs s)) ;;
      try_comps (InvalidateCache (dt_TableName req)) ;;
      mret (mkResponse true (int32 files))
  end.

(** [CleanupEmptyIDRecords]: three texts of an error count as nothing to do. *)
Definition CleanupEmptyIDRecords (t : string) : M service status Z :=
  match BuildSafeDeleteEmptyIDSQL t with
  | Err _ => throw InvalidArgument
  | Ok sql =>
      r ← try_comps (ExecuteUpdate sql);
      match r with
      | Ok n => mret n
      | Err msg => if Contains msg "does not exist" || Contains msg "no data files" then mret 0 else throw Internal
      end
  end.
End service.
