(* ===== verification/ServiceTheorems.v ===== *)
(** * What the service answers

    A write is acknowledged exactly when the buffer has accepted one new row
    for it, under an identifier that the rules of its table allow; updates and
    deletions account for the rows that they remove; a stream of results sends
    every record once, and its cursors resume it. *)

From S2P Require Import Prelude GoStrings GoTime GoRegexp FieldMapping IdGen OptimisticLock SqlSanitizer SelectQuery RedisStore TableConfig TableManager Service.
From Stdlib Require Import Ascii.
#[local] Open Scope Z_scope.

(** What the service relies on: the buffer records the rows that it accepts,
    the rows that wait in memory, and nobody else adds or removes any. *)
Class ComponentLaws (C : Type) `{!Components C} := {
  comp_ok : C -> Prop;
  acknowledged : C -> list DataRow;
  waiting : C -> list DataRow;
  AddRow_law row c :
    comp_ok c -> comp_ok (AddRow row c).2 /\
    match (AddRow row c).1 with
    | Ok _ => acknowledged (AddRow row c).2 = acknowledged c ++ [row]
    | Err _ => acknowledged (AddRow row c).2 = acknowledged c /\ waiting (AddRow row c).2 ≡ₚ waiting c
    end;
  Remove_law t id c :
    comp_ok c -> comp_ok (RemoveFromBuffer t id c).2 /\ acknowledged (RemoveFromBuffer t id c).2 = acknowledged c /\
    exists gone, waiting c ≡ₚ gone ++ waiting (RemoveFromBuffer t id c).2 /\ Zlength gone = (RemoveFromBuffer t id c).1 /\
      Forall (fun r => row_ID r = id) gone;
  same_rows c c' : Prop := (comp_ok c -> comp_ok c') /\ acknowledged c' = acknowledged c /\ waiting c' = waiting c;
  ExecuteQuery_law sql : keeps same_rows (ExecuteQuery sql);
  ExecuteUpdate_law sql : keeps same_rows (ExecuteUpdate sql);
  Rewrite_law t id : keeps same_rows (RewriteParquetForDelete t id);
  InvalidateCache_law t : keeps same_rows (InvalidateCache t);
  Lock_law k ttl : keeps same_rows (Lock k ttl);
  Unlock_law k token : keeps same_rows (Unlock k token);
}.

Section theorems.
Context {C : Type} {CP : Components C} {CL : ComponentLaws C} {JC : ConfigJSON}.
Context (Compile : string -> option regex) (RFC3339 : Z -> string) (toLower : string -> string).
Context (has_metadata metadata_redis metadata_storage : bool) (tm : TableManager).
Context (encrypt : payload -> result string payload).

Abbreviation service := (service (C := C)).
Abbreviation get_config := (GetTableConfig RFC3339 has_metadata metadata_redis metadata_storage tm).
Abbreviation write := (WriteData Compile RFC3339 has_metadata metadata_redis metadata_storage tm encrypt).

(** ** Steps that leave the rows alone *)

Definition quiet (s s' : service) : Prop :=
  (comp_ok (comps s) -> comp_ok (comps s')) /\ acknowledged (comps s') = acknowledged (comps s) /\ waiting (comps s') = waiting (comps s) /\
  (cache_ok Compile (patterns s) -> cache_ok Compile (patterns s')).
#[local] Instance quiet_preorder : PreOrder quiet.
Proof.
  split; [by intros s|]. intros s1 s2 s3 (? & ? & ? & ?) (? & ? & ? & ?).
  split; [by auto|]. split; [congruence|]. split; [congruence | by auto].
Qed.

Lemma quiet_tables {Er A} (m : M world Er A) : keeps quiet (on_tables m : M service Er A).
Proof. intros s. unfold on_tables, zoom. by destruct (m (tables s)). Qed.
Lemma quiet_comps {Er A} (m : M C Er A) : keeps same_rows m -> keeps quiet (on_comps m : M service Er A).
Proof.
  intros Hm s. specialize (Hm (comps s)). unfold on_comps, zoom. destruct (m (comps s)) as [r c]. destruct Hm as (Ha & Hb & Hd). by split.
Qed.
Lemma quiet_configs f : keeps quiet (modifies (Er := status) (fun s : service => set_configs (f s) s)).
Proof. by intros s. Qed.
Lemma quiet_generate e c : keeps quiet (GenerateID tm e c : M service status string).
Proof. intros s. unfold GenerateID. destruct (DefaultGenerate _ _ _ _ _ _ _ _ _ _) as [[g r]|]; by split. Qed.
Lemma quiet_validate id c : keeps quiet (validate_id Compile id c : M service status unit).
Proof.
  intros s. unfold validate_id.
  pose proof (Validate_with_cache Compile MatchString id (MaxLength (IDValidation c)) (Pattern (IDValidation c)) (patterns s)) as Hc.
  destruct (Validate _ _ _ _ _ _) as [p r]. split; [done|]. split; [done|]. split; [done|]. intros Hs. by apply Hc.
Qed.

Create HintDb service.
#[local] Hint Resolve quiet_tables quiet_comps quiet_configs quiet_generate quiet_validate ExecuteQuery_law ExecuteUpdate_law Rewrite_law
  InvalidateCache_law Lock_law Unlock_law : service.

Ltac quiet_steps :=
  repeat first
  [ progress intros
  | solve [eauto 4 with service]
  | match goal with
    | |- keeps _ (match ?x with _ => _ end) => destruct x
    | |- keeps _ (let _ := _ in _) => cbv zeta
    end
  | apply keeps_ret; apply _ | apply keeps_throw; apply _ | apply keeps_asks; apply _
  | apply keeps_bind; [apply _|..] | apply keeps_attempt | apply keeps_on_error ].

Lemma quiet_get_config now t : keeps quiet (get_config now t : M service status TableConfig).
Proof. unfold GetTableConfig, from_config_manager. quiet_steps. Qed.

Abbreviation resolve := (resolveRecordIDForWrite Compile tm).
Lemma quiet_resolve e c id : keeps quiet (resolve e c id : M service status string).
Proof. unfold resolveRecordIDForWrite, generated_id. quiet_steps. Qed.
#[local] Hint Resolve quiet_get_config quiet_resolve : service.

(** ** Identifiers *)

Lemma bind_Ok {W Er A B} (m : M W Er A) (f : A -> M W Er B) w b w' :
  (m ≫= f) w = (Ok b, w') -> exists a w1, m w = (Ok a, w1) /\ f a w1 = (Ok b, w').
Proof. unfold mbind, M_bind. destruct (m w) as [[a|e] w1]; [|done]. by exists a, w1. Qed.

(** The rules for the identifier of a written row. *)
Definition id_rules (c : TableConfig) (provided id : string) : Prop :=
  id <> "" /\
  (TrimSpace provided <> "" -> id = TrimSpace provided /\
     valid_id Compile MatchString id (MaxLength (IDValidation c)) (Pattern (IDValidation c)) = Ok tt) /\
  (TrimSpace provided = "" -> IDStrategy c <> "user_provided").

Lemma generated_nonempty e c (s s' : service) id : generated_id tm e c s = (Ok id, s') -> id <> "".
Proof.
  unfold generated_id. intros (x & s1 & _ & H)%bind_Ok. case_bool_decide as E; [done|]. unfold mret, M_ret in H.
  simplify_eq. by intros ->.
Qed.

Lemma resolve_rules e c provided (s s' : service) id :
  cache_ok Compile (patterns s) -> resolve e c provided s = (Ok id, s') -> id_rules c provided id.
Proof.
  intros Hc H. unfold resolveRecordIDForWrite in H. case_bool_decide as E; cbn [negb] in H.
  - split; [|split; [done|]].
    + destruct (strategy_of (IDStrategy c)); try discriminate H; try (eapply generated_nonempty; exact H).
      destruct (AutoGenerateID c); [eapply generated_nonempty; exact H | discriminate H].
    + intros _ Hu. by rewrite Hu in H.
  - apply bind_Ok in H as ([] & s1 & Hv & H). unfold mret, M_ret in H. simplify_eq. split; [done|]. split; [|done]. intros _. split; [done|].
    unfold validate_id in Hv.
    destruct (Validate_with_cache Compile MatchString (TrimSpace provided) (MaxLength (IDValidation c)) (Pattern (IDValidation c)) (patterns s) Hc) as [_ <-].
    destruct (Validate _ _ _ _ _ _) as [p [[]|er]]; [done | by simplify_eq/=].
Qed.

(** ** Writing *)

Lemma bind_inv {A B} (m : M service status A) (f : A -> M service status B) s r s' :
  keeps quiet m -> (m ≫= f) s = (r, s') ->
  (exists e, r = Err e /\ quiet s s') \/ exists a s1, m s = (Ok a, s1) /\ quiet s s1 /\ f a s1 = (r, s').
Proof.
  intros Hm. specialize (Hm s). unfold mbind, M_bind. destruct (m s) as [[a|e] s1]; intros H; [right; by exists a, s1|].
  simplify_eq. left. by exists e.
Qed.

(** An attempt has an outcome. *)
Lemma attempt_inv {E1 E2 A B} (m : M service E1 A) (f : result E1 A -> M service E2 B) s :
  (attempt m ≫= f) s = f (m s).1 (m s).2.
Proof. unfold mbind, M_bind, attempt. by destruct (m s). Qed.

Lemma ret_inv {A} (x : A) (s s' : service) r : (mret x : M service status A) s = (r, s') -> r = Ok x /\ s' = s.
Proof. unfold mret, M_ret. by intros [= <- <-]. Qed.

(** What ingesting a row does to the accounts. *)
Lemma ingest_inv t id ts fields (s : service) :
  comp_ok (comps s) ->
  let s' := (on_comps (IngestData encrypt t id ts fields) s).2 in
  comp_ok (comps s') /\ patterns s' = patterns s /\
  match (on_comps (IngestData encrypt t id ts fields) s).1 with
  | Ok _ => exists fields', encrypt fields = Ok fields' /\
      acknowledged (comps s') = acknowledged (comps s) ++ [mkRow id ts (if bool_decide (t = "") then "default" else t) fields']
  | Err _ => acknowledged (comps s') = acknowledged (comps s) /\ waiting (comps s') ≡ₚ waiting (comps s)
  end.
Proof.
  intros Hok. cbv zeta. unfold on_comps, zoom, IngestData. destruct (encrypt fields) as [fields'|e]; [|done].
  pose proof (AddRow_law (mkRow id ts (if bool_decide (t = "") then "default" else t) fields') (comps s) Hok) as [H1 H2].
  destruct (AddRow _ (comps s)) as [[u|e] c]; cbn in *; (split; [done|]); (split; [done|]); [by exists fields' | done].
Qed.

(** The outcome of a write. *)
Definition write_outcome (e : request_env) (req : WriteDataRequest) (s : service) (r : result status response) (s' : service) : Prop :=
  let t := table_or_default tm (wr_Table req) in
  match r with
  | Ok (mkResponse true _) => exists d fields fields' s1 c s2 id,
      wr_Data req = Some d /\ rec_Payload d = Some fields /\ encrypt fields = Ok fields' /\ IsValidTableName Compile (tm_cfg tm) t = true /\
      try_tables (EnsureTableExists Compile RFC3339 tm (env_now e) t) s = (Ok (Ok tt), s1) /\ get_config (env_now e) t s1 = (Ok c, s2) /\
      id_rules c (rec_Id d) id /\
      acknowledged (comps s') = acknowledged (comps s) ++
        [mkRow id (default (env_now e / 1000) (rec_Timestamp d)) (if bool_decide (t = "") then "default" else t) fields']
  | _ => acknowledged (comps s') = acknowledged (comps s)
  end.

(** C14: A write is acknowledged only when the buffer has accepted exactly one
    new row for it, with the payload, a valid table that exists, and an
    identifier that is not empty and follows the rules of the table's
    configuration: the client's own, checked, or a generated one unless the
    client must provide it. A write that is refused or fails adds no row. *)
Theorem write_acknowledges_its_row e req (s s' : service) r :
  comp_ok (comps s) -> cache_ok Compile (patterns s) -> write e req s = (r, s') -> write_outcome e req s r s'.
Proof.
  intros Hok Hc H. unfold WriteData in H. cbv zeta in H. unfold write_outcome. set (t := table_or_default tm (wr_Table req)) in *.
  destruct (wr_Data req) as [d|]; [|unfold throw in H; by simplify_eq].
  destruct (rec_Payload d) as [fields|] eqn:Ef; [|unfold throw in H; by simplify_eq].
  destruct (IsValidTableName Compile (tm_cfg tm) t) eqn:Ev; cbn [negb] in H; [|by apply ret_inv in H as [-> ->]].
  apply bind_inv in H as [(er & -> & _ & Ha & _)|(r1 & s1 & E1 & Q1 & H)]; [done| |unfold try_tables; quiet_steps].
  destruct r1 as [[]|e1]; cbn [is_ok negb] in H; [|apply ret_inv in H as [-> ->]; by destruct Q1 as (_ & ? & _)].
  apply bind_inv in H as [(er & -> & _ & Ha & _)|(c & s2 & E2 & Q2 & H)];
    [destruct Q1 as (_ & Ha1 & _); by rewrite Ha, Ha1| |quiet_steps].
  apply bind_inv in H as [(er & -> & _ & Ha & _)|(id & s3 & E3 & Q3 & H)];
    [destruct Q1 as (_ & Ha1 & _), Q2 as (_ & Ha2 & _); by rewrite Ha, Ha2, Ha1| |quiet_steps].
  assert (quiet s s2) as Q12 by (etrans; eassumption). assert (quiet s s3) as (O3 & A3 & _ & _) by (etrans; eassumption).
  unfold try_comps in H. rewrite attempt_inv in H.
  pose proof (ingest_inv t id (default (env_now e / 1000) (rec_Timestamp d)) fields s3 (O3 Hok)) as (_ & _ & Hi).
  destruct (on_comps _ s3) as [[u|ei] s4] eqn:E4; cbn [fst snd is_ok negb] in H, Hi.
  - destruct Hi as (fields' & Hf & Ha4).
    unfold try_tables in H. rewrite !attempt_inv in H. apply ret_inv in H as [-> ->].
    assert (quiet s4 (on_comps (InvalidateCache t) (on_tables (UpdateLastWrite RFC3339 tm (env_now e) t) s4).2).2) as (_ & Hq & _).
    { etrans; [apply (quiet_tables (UpdateLastWrite RFC3339 tm (env_now e) t)) | apply (quiet_comps (InvalidateCache t)), InvalidateCache_law]. }
    exists d, fields, fields', s1, c, s2, id. split_and!; try done.
    + eapply resolve_rules; [|exact E3]. by apply Q12.
    + by rewrite Hq, Ha4, A3.
  - unfold throw in H. simplify_eq. destruct Hi as [-> _]. done.
Qed.

(** ** Updating and deleting *)

(** Only rows with the id have left the memory, and no row was acknowledged. *)
Definition only_removed (id : string) (s s' : service) : Prop :=
  acknowledged (comps s') = acknowledged (comps s) /\
  exists gone, waiting (comps s) ≡ₚ gone ++ waiting (comps s') /\ Forall (fun r => row_ID r = id) gone.

Lemma quiet_only_removed id s s' : quiet s s' -> only_removed id s s'.
Proof. intros (_ & Ha & Hw & _). split; [done|]. exists []. by rewrite Hw. Qed.

Lemma only_removed_before id s s1 s' : quiet s s1 -> only_removed id s1 s' -> only_removed id s s'.
Proof. intros (_ & Ha & Hw & _) [Ha' (gone & Hg & Hf)]. split; [congruence|]. exists gone. by rewrite <- Hw. Qed.

Lemma only_removed_after id s s1 s' : only_removed id s s1 -> quiet s1 s' -> only_removed id s s'.
Proof. intros [Ha' (gone & Hg & Hf)] (_ & Ha & Hw & _). split; [congruence|]. exists gone. by rewrite Hw. Qed.

Lemma with_lock_inv (P : result status response -> service -> service -> Prop) t id body s r s' :
  (forall s', quiet s s' -> P (Ok refused) s s') ->
  (forall s1 s2 x s3, quiet s s1 -> body s1 = (x, s2) -> quiet s2 s3 -> P x s s3) ->
  with_lock t id body s = (r, s') -> P r s s'.
Proof.
  intros Hq Hb H. unfold with_lock in H. cbv zeta in H. unfold try_comps in H. rewrite attempt_inv in H.
  pose proof (quiet_comps (Lock (LockKey t id) lockTTL) (Lock_law _ _) s) as Q1.
  destruct (on_comps (Lock _ _) s) as [[token|e] s1]; cbn [fst snd] in *; [|apply ret_inv in H as [-> ->]; by apply Hq].
  rewrite attempt_inv in H. destruct (body s1) as [x s2] eqn:E. cbn [fst snd] in H. rewrite attempt_inv in H.
  pose proof (quiet_comps (Unlock (LockKey t id) token) (Unlock_law _ _) s2) as Q3.
  specialize (Hb s1 s2 x (on_comps (Unlock (LockKey t id) token) s2).2 Q1 E Q3).
  destruct x as [a|e]; unfold mret, M_ret, throw in H; simplify_eq; done.
Qed.

Lemma remove_buffered_inv t id (s : service) : comp_ok (comps s) ->
  exists n, remove_buffered t id s = (Ok n, (remove_buffered t id s).2) /\ comp_ok (comps (remove_buffered t id s).2) /\
  only_removed id s (remove_buffered t id s).2.
Proof.
  intros Hok. unfold remove_buffered. destruct (Remove_law t id (comps s) Hok) as (H1 & H2 & gone & H3 & H4 & H5).
  destruct (RemoveFromBuffer t id (comps s)) as [n c]. cbn in *. exists n. split; [done|]. split; [done|]. split; [done|]. by exists gone.
Qed.

Abbreviation update := (UpdateData Compile RFC3339 tm encrypt).
Abbreviation delete_data := (DeleteData Compile RFC3339 tm).

Definition update_outcome (e : request_env) (req : UpdateDataRequest) (r : result status response) (s s' : service) : Prop :=
  let t := table_or_default tm (u_Table req) in
  match r with
  | Ok (mkResponse true _) => exists fields fields', u_Payload req = Some fields /\ encrypt fields = Ok fields' /\
      acknowledged (comps s') = acknowledged (comps s) ++
        [mkRow (u_Id req) (default (env_now e / 1000) (u_Timestamp req)) (if bool_decide (t = "") then "default" else t) fields']
  | _ => only_removed (u_Id req) s s'
  end.

Lemma update_row_inv e req fields s x s' : u_Payload req = Some fields -> comp_ok (comps s) ->
  update_row RFC3339 tm encrypt e req (table_or_default tm (u_Table req)) fields s = (x, s') -> update_outcome e req x s s'.
Proof.
  intros Hf Hok H. unfold update_outcome. cbv zeta. set (t := table_or_default tm (u_Table req)) in *. unfold update_row in H.
  destruct (remove_buffered_inv t (u_Id req) s Hok) as (n & E & Hok1 & Hrem). revert H. generalize dependent (remove_buffered t (u_Id req) s).2.
  intros s1 E Hok1 Hrem H. rewrite (bind_ok _ _ _ _ _ E) in H. unfold try_comps in H. rewrite attempt_inv in H.
  pose proof (ingest_inv t (u_Id req) (default (env_now e / 1000) (u_Timestamp req)) fields s1 Hok1) as (_ & _ & Hi).
  destruct (on_comps _ s1) as [[u|ei] s2]; cbn [fst snd is_ok negb] in H, Hi.
  - destruct Hi as (fields' & Hf' & Ha). destruct Hrem as [Hr _]. unfold try_tables in H. rewrite attempt_inv in H.
    assert (exists s3, quiet s2 s3 /\ x = Ok accepted_ /\ quiet s3 s') as (s3 & Q & -> & Q').
    { pose proof (quiet_tables (removePersistedIndexByID tm t (u_Id req)) s2) as Q2. revert H Q2.
      generalize ((on_tables (removePersistedIndexByID tm t (u_Id req)) s2).2). intros s3 H Q2.
      destruct (BuildSafeDeleteSQL t (u_Id req)) as [sql|eb].
      - pose proof (quiet_comps (ExecuteUpdate sql) (ExecuteUpdate_law sql) s3) as Q3.
        erewrite bind_ok in H by (rewrite attempt_inv; reflexivity). rewrite !attempt_inv in H. apply ret_inv in H as [-> ->].
        eexists. split; [etrans; [exact Q2 | exact Q3]|]. split; [done|].
        etrans; [apply (quiet_comps (InvalidateCache t)), InvalidateCache_law | apply (quiet_tables (UpdateLastWrite RFC3339 tm (env_now e) t))].
      - erewrite bind_ok in H by reflexivity. rewrite !attempt_inv in H. apply ret_inv in H as [-> ->].
        exists s3. split; [done|]. split; [done|].
        etrans; [apply (quiet_comps (InvalidateCache t)), InvalidateCache_law | apply (quiet_tables (UpdateLastWrite RFC3339 tm (env_now e) t))]. }
    exists fields, fields'. split; [done|]. split; [done|]. destruct Q as (_ & Q & _), Q' as (_ & Q' & _). by rewrite Q', Q, Ha, Hr.
  - apply ret_inv in H as [-> ->]. destruct Hi as [Ha Hw], Hrem as [Hr (gone & Hg & Hgf)]. split; [congruence|]. exists gone. by rewrite Hw.
Qed.

Lemma update_outcome_quiet e req x s s1 s2 s3 :
  quiet s s1 -> update_outcome e req x s1 s2 -> quiet s2 s3 -> update_outcome e req x s s3.
Proof.
  intros (_ & Ha & Hw & _) H (_ & Ha' & Hw' & _). unfold update_outcome in *. cbv zeta in *.
  assert (only_removed (u_Id req) s1 s2 -> only_removed (u_Id req) s s3) as Hr.
  { intros [H1 (gone & H2 & H3)]. split; [congruence|]. exists gone. by rewrite <- Hw, Hw'. }
  destruct x as [[[] n]|er]; [|by apply Hr..]. destruct H as (f & f' & H1 & H2 & H3). exists f, f'. by rewrite Ha', H3, Ha.
Qed.

(** An acknowledged update has added exactly the new row. An update that is
    refused or fails has added none, and has taken at most rows of this
    identifier out of the buffer. *)
Theorem update_accounts e req (s s' : service) r :
  comp_ok (comps s) -> update e req s = (r, s') -> update_outcome e req r s s'.
Proof.
  intros Hok H. unfold UpdateData in H. cbv zeta in H.
  assert (forall x s', quiet s s' -> match x with Ok (mkResponse true _) => False | _ => True end -> update_outcome e req x s s') as Hq.
  { intros x s0 Hq Hx. unfold update_outcome. destruct x as [[[] n]|er]; [done|by apply quiet_only_removed..]. }
  destruct (valid_request_id (u_Id req)); cbn [negb] in H; [|unfold throw in H; simplify_eq; by apply Hq].
  destruct (u_Payload req) as [fields|] eqn:Ef; [|unfold throw in H; simplify_eq; by apply Hq].
  destruct (IsValidTableName _ _ _); cbn [negb] in H; [|apply ret_inv in H as [-> ->]; by apply Hq].
  unfold try_tables in H. rewrite attempt_inv in H.
  pose proof (quiet_tables (EnsureTableExists Compile RFC3339 tm (env_now e) (table_or_default tm (u_Table req))) s) as Q1.
  destruct (on_tables _ s) as [[u|er] s1]; cbn [fst snd is_ok negb] in *; [|apply ret_inv in H as [-> ->]; by apply Hq].
  revert H. apply (with_lock_inv (fun x _ s' => update_outcome e req x s s')).
  - intros s2 Q2. apply Hq; [etrans; eassumption | done].
  - intros s2 s3 x s4 Q2 Hb Q4. eapply (update_outcome_quiet _ _ _ s s2 s3 s4); [etrans; eassumption| |done].
    eapply update_row_inv; [done| |exact Hb]. apply Q2, Q1, Hok.
Qed.

(** The count of a successful deletion. *)
Definition delete_outcome (t id : string) (r : result status response) (s s' : service) : Prop :=
  acknowledged (comps s') = acknowledged (comps s) /\
  exists gone, waiting (comps s) ≡ₚ gone ++ waiting (comps s') /\ Forall (fun r => row_ID r = id) gone /\
    match r with
    | Ok (mkResponse true n) => exists c rows found c', RewriteParquetForDelete t id c = (Ok (rows, found), c') /\
        n = (if 0 <? rows then int32 (int32 (Zlength gone) + int32 rows) else int32 (Zlength gone)) /\ (0 < n \/ found = true)
    | _ => True
    end.

Lemma delete_outcome_quiet t id x s s1 s2 s3 :
  quiet s s1 -> delete_outcome t id x s1 s2 -> quiet s2 s3 -> delete_outcome t id x s s3.
Proof.
  intros (_ & Ha & Hw & _) [H1 (gone & H2 & H3)] (_ & Ha' & Hw' & _). split; [congruence|]. exists gone. by rewrite <- Hw, Hw'.
Qed.

Lemma delete_row_inv e req t s x s' : comp_ok (comps s) -> delete_row RFC3339 tm e req t s = (x, s') -> delete_outcome t (d_Id req) x s s'.
Proof.
  intros Hok H. unfold delete_row in H. destruct (Remove_law t (d_Id req) (comps s) Hok) as (Hok1 & Ha1 & gone & Hg & Hn & Hf).
  unfold remove_buffered at 1 in H. unfold mbind at 1, M_bind at 1 in H.
  destruct (RemoveFromBuffer t (d_Id req) (comps s)) as [n c] eqn:E; cbn [fst snd] in *.
  set (s1 := mkService (tables s) c (generator s) (patterns s) (configs s)) in H.
  assert (forall s2 r, quiet s1 s2 -> match r with Ok (mkResponse true _) => False | _ => True end -> delete_outcome t (d_Id req) r s s2) as Hq.
  { intros s2 r (_ & Ha & Hw & _) Hr. split; [by rewrite Ha|]. exists gone. rewrite Hw. split_and!; try done. by destruct r as [[[] ?]|]. }
  unfold try_comps in H. rewrite attempt_inv in H.
  pose proof (quiet_comps (RewriteParquetForDelete t (d_Id req)) (Rewrite_law _ _) s1) as Q2.
  assert ((on_comps (RewriteParquetForDelete t (d_Id req)) s1).1 = (RewriteParquetForDelete t (d_Id req) c).1) as Hrw.
  { unfold on_comps, zoom. cbn. by destruct (RewriteParquetForDelete t (d_Id req) c). }
  destruct (on_comps _ s1) as [[[rows found]|er] s2]; cbn [fst snd] in *; [|apply ret_inv in H as [-> ->]; by apply Hq].
  unfold try_tables in H. rewrite !attempt_inv in H. apply ret_inv in H as [-> ->].
  set (s3 := (on_comps (InvalidateCache t) s2).2). set (fnd := (0 <? _) || found) in *.
  set (s5 := (on_tables (UpdateLastWrite RFC3339 tm (env_now e) t) (on_tables (clean_redis tm t (d_Id req) fnd) s3).2).2).
  assert (quiet s1 s5) as Q5.
  { etrans; [exact Q2|]. etrans; [apply (quiet_comps (InvalidateCache t)), InvalidateCache_law|].
    etrans; [apply (quiet_tables (clean_redis tm t (d_Id req) fnd)) | apply (quiet_tables (UpdateLastWrite RFC3339 tm (env_now e) t))]. }
  destruct fnd eqn:Efnd; [|by apply Hq]. destruct Q5 as (_ & Ha & Hw & _). split; [by rewrite Ha|]. exists gone. rewrite Hw. split; [done|]. split; [done|].
  assert ((if 0 <? n then int32 n else 0) = int32 (Zlength gone)) as Hi.
  { rewrite Hn. destruct (Z.ltb_spec 0 n); [done|]. assert (n = 0) as -> by lia. done. }
  exists c, rows, found, (RewriteParquetForDelete t (d_Id req) c).2. split; [rewrite Hrw; apply surjective_pairing|].
  subst fnd. rewrite Hi in Efnd |- *. split; [done|].
  apply orb_true_iff in Efnd as [Hl| ->]; [left; by apply Z.ltb_lt | by right].
Qed.

(** A deletion acknowledges no row and takes only rows of its identifier
    out of the buffer; the count that it reports is that of these rows and of
    the rows that the rewriting of the files has removed. *)
Theorem delete_accounts e req (s s' : service) r :
  comp_ok (comps s) -> delete_data e req s = (r, s') ->
  delete_outcome (table_or_default tm (d_Table req)) (d_Id req) r s s'.
Proof.
  intros Hok H. unfold DeleteData in H. cbv zeta in H. set (t := table_or_default tm (d_Table req)) in *.
  assert (forall x s', quiet s s' -> match x with Ok (mkResponse true _) => False | _ => True end -> delete_outcome t (d_Id req) x s s') as Hq.
  { intros x s0 (_ & Ha & Hw & _) Hx. split; [done|]. exists []. rewrite Hw. split_and!; try done. by destruct x as [[[] ?]|]. }
  destruct (valid_request_id (d_Id req)); cbn [negb] in H; [|unfold throw in H; simplify_eq; by apply Hq].
  destruct (IsValidTableName _ _ _); cbn [negb] in H; [|apply ret_inv in H as [-> ->]; by apply Hq].
  unfold try_tables in H. rewrite attempt_inv in H.
  pose proof (quiet_tables (EnsureTableExists Compile RFC3339 tm (env_now e) t) s) as Q1.
  destruct (on_tables _ s) as [[u|er] s1]; cbn [fst snd is_ok negb] in *; [|apply ret_inv in H as [-> ->]; by apply Hq].
  revert H. apply (with_lock_inv (fun x _ s' => delete_outcome t (d_Id req) x s s')).
  - intros s2 Q2. apply Hq; [etrans; eassumption | done].
  - intros s2 s3 x s4 Q2 Hb Q4. eapply (delete_outcome_quiet _ _ _ s s2 s3 s4); [etrans; eassumption| |done].
    eapply delete_row_inv; [|exact Hb]. apply Q2, Q1, Hok.
Qed.
End theorems.

(** * Streams of results (StreamQuery of internal/service/miniodb_service.go) *)


Section stream.
Context {A : Type}.
Implicit Types (records : list A).

(** The loop ends: every turn moves on by at least one record. *)
Lemma send_batches_ends fuel outcomes size offset records :
  (0 < size)%nat -> (length records - offset <= fuel)%nat -> exists r, send_batches fuel outcomes size offset records = Some r.
Proof.
  intros Hs. revert outcomes offset. induction fuel as [|fuel IH]; intros outcomes offset Hf; cbn [send_batches].
  - destruct (Nat.leb_spec (length records) offset); [by eexists | lia].
  - destruct (Nat.leb_spec (length records) offset); [by eexists|].
    destruct (default Sent (head outcomes)); [|by eexists..].
    destruct (IH (tail outcomes) (Nat.min (offset + size) (length records))) as [[bs st] ->]; [lia|]. by eexists.
Qed.

(** More fuel changes nothing. *)
Lemma send_batches_fuel fuel fuel' outcomes size offset records r :
  send_batches fuel outcomes size offset records = Some r -> (fuel <= fuel')%nat -> send_batches fuel' outcomes size offset records = Some r.
Proof.
  revert fuel' outcomes offset r. induction fuel as [|fuel IH]; intros fuel' outcomes offset r H Hf.
  - cbn [send_batches] in H. destruct fuel'; cbn [send_batches]; by destruct (length records <=? offset)%nat.
  - destruct fuel' as [|fuel']; [lia|]. cbn [send_batches] in *. destruct (length records <=? offset)%nat; [done|].
    destruct (default Sent (head outcomes)); [|done..].
    destruct (send_batches fuel _ _ _ _) as [[bs st]|] eqn:E; [|done]. by rewrite (IH fuel' _ _ _ E) by lia.
Qed.

Lemma start_offset_Itoa n : Z.of_nat n <= max_int64 -> start_offset (Itoa (Z.of_nat n)) = n.
Proof.
  intros Hn. unfold start_offset. rewrite ParseInt64_Itoa by (unfold in_int64, min_int64, max_int64 in *; lia).
  destruct (Z.ltb_spec 0 (Z.of_nat n)); lia.
Qed.

(** What the messages of an undisturbed stream hold. *)
Lemma send_batches_spec fuel size offset records bs st :
  (0 < size)%nat -> Zlength records <= max_int64 -> send_batches fuel [] size offset records = Some (bs, st) ->
  st = None /\ concat (b_Records <$> bs) = drop offset records /\ Forall (fun b => (0 < length (b_Records b) <= size)%nat) bs /\
  (forall pre b post, bs = pre ++ b :: post ->
     (b_HasMore b = true <-> post <> []) /\
     (b_HasMore b = true -> send_batches (length records) [] size (start_offset (b_Cursor b)) records = Some (post, None))).
Proof.
  intros Hs Hl. revert offset bs st. induction fuel as [|fuel IH]; intros offset bs st H; cbn [send_batches] in H;
    destruct (Nat.leb_spec (length records) offset) as [Hle|Hlt]; try done;
    [simplify_eq; split; [done|]; split; [by rewrite drop_ge|]; split; [constructor|]; by intros [|? pre]..|].
  cbn [head default] in H. change (tail (A := send_outcome) []) with (@nil send_outcome) in H.
  set (e := Nat.min (offset + size) (length records)) in *.
  destruct (send_batches fuel [] size e records) as [[bs' st']|] eqn:E; [|done]. cbn in H. injection H as <- <-.
  destruct (IH e bs' st' E) as (-> & Hc & Hf & Hr). split; [done|]. split; [|split].
  - cbn. rewrite Hc. rewrite <- (take_drop (e - offset) (drop offset records)) at 2. f_equal. rewrite drop_drop. f_equal. unfold e. lia.
  - constructor; [cbn; rewrite length_take, length_drop; unfold e; lia | done].
  - intros [|b0 pre] b post Hb; simplify_eq/=; [|by eapply Hr].
    assert ((e <? length records)%nat = true <-> post <> []) as Hmore.
    { split.
      - intros Hlt'%Nat.ltb_lt ->. apply (f_equal length) in Hc. cbn in Hc. rewrite length_drop in Hc. lia.
      - intros Hne. apply Nat.ltb_lt. destruct (decide (e < length records)%nat) as [|Hge]; [done|].
        destruct post as [|b1 bs1]; [done|]. apply Forall_cons in Hf as [Hf1 _]. apply (f_equal length) in Hc. cbn in Hc.
        rewrite length_app, length_drop in Hc. lia. }
    split; [done|]. intros He. rewrite He. rewrite start_offset_Itoa by (unfold e; lia).
    destruct (send_batches_ends (length records) [] size e records Hs) as [r Hr']; [lia|].
    destruct (decide (fuel <= length records)%nat) as [Hle'|Hgt].
    + eapply send_batches_fuel; [exact E | lia].
    + pose proof (send_batches_fuel _ fuel _ _ _ _ _ Hr' ltac:(lia)) as Hr2. rewrite E in Hr2. by simplify_eq.
Qed.

(** A disturbed stream has sent the first messages of an undisturbed one. *)
Lemma send_batches_prefix fuel outcomes size offset records bs st bs0 st0 :
  send_batches fuel outcomes size offset records = Some (bs, st) -> send_batches fuel [] size offset records = Some (bs0, st0) ->
  bs `prefix_of` bs0 /\ (st = None -> bs = bs0).
Proof.
  revert outcomes offset bs st bs0 st0. induction fuel as [|fuel IH]; intros outcomes offset bs st bs0 st0 H H0; cbn [send_batches] in *;
    destruct (length records <=? offset)%nat; simplify_eq; try done.
  cbn [head default] in H0. change (tail (A := send_outcome) []) with (@nil send_outcome) in H0.
  destruct (send_batches fuel [] _ _ _) as [[bs1 st1]|] eqn:E0; [|done]. cbn in H0. simplify_eq.
  destruct (default Sent (head outcomes)).
  - destruct (send_batches fuel (tail outcomes) _ _ _) as [[bs2 st2]|] eqn:E2; [|done]. cbn in H. simplify_eq.
    destruct (IH _ _ _ _ _ _ E2 E0) as [Hp He]. split; [by apply prefix_cons | by intros ->%He].
  - simplify_eq. split; [apply prefix_nil | done].
  - simplify_eq. split; [apply prefix_cons, prefix_nil | done].
Qed.
End stream.

Section query.
Context {C : Type} {CP : Components C} {A : Type} (convert : string -> option (list A)).

(** C19: A stream whose request is valid and whose query succeeds comes to its
    end. Undisturbed it sends every record from its cursor on once and in
    order, in messages of at least one and at most the requested number of
    records; a message announces more exactly when another one follows, and a
    new stream from its cursor sends exactly the messages that follow. When
    sending fails or the client leaves, a first part of these was sent. *)
Theorem stream_query_complete outcomes sql cursor batchSize (s s' : service (C := C)) json records :
  validateStreamQueryRequest sql batchSize = true -> ExecuteQuery sql (comps s) = (Ok json, comps s') -> convert json = Some records ->
  Zlength records <= max_int64 ->
  let size := Z.to_nat (if batchSize <=? 0 then 100 else batchSize) in
  exists bs st all, (StreamQuery convert outcomes sql cursor batchSize s).1 = Ok (Some (bs, st)) /\
  bs `prefix_of` all /\ (st = None -> bs = all) /\ (outcomes = [] -> st = None) /\
  concat (b_Records <$> all) = drop (start_offset cursor) records /\ Forall (fun b => (0 < length (b_Records b) <= size)%nat) all /\
  (forall pre b post, all = pre ++ b :: post ->
     (b_HasMore b = true <-> post <> []) /\
     (b_HasMore b = true -> (StreamQuery convert [] sql (b_Cursor b) batchSize s).1 = Ok (Some (post, None)))).
Proof.
  intros Hv Hq Hc Hl. cbv zeta. set (size := Z.to_nat _).
  assert (0 < size)%nat as Hs by (unfold size; destruct (Z.leb_spec batchSize 0); lia).
  assert (forall outs cur, (StreamQuery convert outs sql cur batchSize s).1 =
    Ok (send_batches (length records) outs size (start_offset cur) records)) as Hrun.
  { intros outs cur. unfold StreamQuery. rewrite Hv. cbn [negb]. unfold try_comps, mbind, M_bind, attempt, on_comps, zoom. rewrite Hq. cbn. by rewrite Hc. }
  destruct (send_batches_ends (length records) outcomes size (start_offset cursor) records Hs) as [[bs st] H1]; [lia|].
  destruct (send_batches_ends (length records) [] size (start_offset cursor) records Hs) as [[all st0] H0]; [lia|].
  destruct (send_batches_prefix _ _ _ _ _ _ _ _ _ H1 H0) as [Hp He].
  destruct (send_batches_spec _ _ _ _ _ _ Hs Hl H0) as (-> & Hcat & Hf & Hr).
  exists bs, st, all. split; [by rewrite Hrun, H1|]. split; [done|]. split; [done|].
  split; [intros ->; rewrite H0 in H1; by simplify_eq|]. split; [done|]. split; [done|].
  intros pre b post Hb. destruct (Hr pre b post Hb) as [Hr1 Hr2]. split; [done|]. intros Hm. by rewrite Hrun, Hr2.
Qed.
End query.
