(* ===== verification/ServiceDemo.v ===== *)
(** * The concurrent buffer behind the service, and concrete requests *)

From S2P Require Import Prelude GoStrings GoTime GoRegexp WalCodec Wal WalLemmas WalProofs DurableLog WalTheorems FieldMapping ConcurrentBuffer ConcurrentTheorems.
From S2P Require Import IdGen OptimisticLock SqlSanitizer SelectQuery RedisStore TableConfig TableManager TableManagerTheorems TableLifecycle Service ServiceTheorems.
#[local] Open Scope Z_scope.

(** ** The concurrent buffer keeps the promises *)

Section buffer.
Context {L D : Type} {DL : DurableLog L D} {RJ : RowJSON}.
Context (dayStr : Z -> string) (defaultTable : option string) (e : Env) (o : submit_outcome).
(** What the engine and the locks answer. *)
Context (query : string -> result string string) (update_ : string -> result string Z) (rewrite_ : string -> string -> result string (Z * bool)).

Abbreviation CB := (ConcurrentBuffer L).
Abbreviation ledger := (book (L := L)).
Abbreviation run := (exec dayStr defaultTable).

#[local] Instance buffer_components : Components ledger := {
  AddRow row b :=
    ((if (Add dayStr defaultTable e o row (bk_cb b)).1.2 then Ok tt else Err "write-ahead log"), run b (OpAdd e o row));
  RemoveFromBuffer t id b := ((Remove e t id (bk_cb b)).2, run b (OpRemove e t id));
  ClearTableBuffer t b := ((ClearTable t (bk_cb b)).2, run b (OpClear t));
  ExecuteQuery sql b := (query sql, b);
  ExecuteUpdate sql b := (update_ sql, b);
  RewriteParquetForDelete t id b := (rewrite_ t id, b);
  InvalidateCache t b := (Ok tt, b);
  Lock k ttl b := (Ok "token", b);
  Unlock k token b := (Ok tt, b);
}.

Lemma settle_accepted f (b : ledger) : bk_accepted (settle f b) = bk_accepted b.
Proof. destruct f as [[t [|[]|]]|]; done. Qed.

Lemma Remove_count t id (cb : CB) : (Remove e t id cb).2 = (mem_remove t id (mem cb)).2.
Proof.
  unfold Remove. destruct (mem_remove t id (mem cb)) as [m n]. cbn. destruct (0 <? n); [|done].
  by destruct (active_wal (lg cb)), (tomb_marshal (t, id)).
Qed.

Lemma rows_with_id_ids t id buf : Forall (fun r => row_ID r = id) (rows_with_id t id buf).
Proof.
  apply Forall_forall. intros r Hr. unfold rows_with_id in Hr. apply list_elem_of_join in Hr as (l & Hl & Hin).
  apply list_elem_of_fmap in Hin as ([k rows] & -> & _). cbn in Hl. destruct (String.prefix _ k); [|by apply not_elem_of_nil in Hl].
  apply list_elem_of_In, filter_In in Hl as [_ Hk]. unfold keep_row in Hk. rewrite negb_involutive in Hk. by b2p.
Qed.

Lemma buffer_AddRow row (b : ledger) :
  balanced b -> balanced (AddRow row b).2 /\
  match (AddRow row b).1 with
  | Ok _ => bk_accepted (AddRow row b).2 = bk_accepted b ++ [row]
  | Err _ => bk_accepted (AddRow row b).2 = bk_accepted b /\
             buffered (buffer (mem (bk_cb (AddRow row b).2))) ≡ₚ buffered (buffer (mem (bk_cb b)))
  end.
Proof.
  intros Hb. split; [by apply (Add_balanced dayStr defaultTable e o row)|]. destruct Hb as [_ _ Hk].
  cbn [AddRow buffer_components fst snd exec]. destruct (Add dayStr defaultTable e o row (bk_cb b)) as [[cb ok] f] eqn:E. cbn [fst snd].
  destruct ok; [by rewrite settle_accepted|]. destruct (Add_failed _ _ _ _ _ _ _ _ Hk E) as (Hbuf & _ & ->). cbn. by rewrite Hbuf.
Qed.

Lemma buffer_Remove t id (b : ledger) :
  balanced b -> balanced (RemoveFromBuffer t id b).2 /\ bk_accepted (RemoveFromBuffer t id b).2 = bk_accepted b /\
  exists gone, buffered (buffer (mem (bk_cb b))) ≡ₚ gone ++ buffered (buffer (mem (bk_cb (RemoveFromBuffer t id b).2))) /\
    Zlength gone = (RemoveFromBuffer t id b).1 /\ Forall (fun r => row_ID r = id) gone.
Proof.
  intros Hb. split; [by apply (exec_balanced dayStr defaultTable b (OpRemove e t id))|]. split; [done|].
  exists (rows_with_id t id (buffer (mem (bk_cb b)))). cbn [RemoveFromBuffer buffer_components fst snd exec bk_cb].
  rewrite Remove_count. destruct (Remove_mem e t id (bk_cb b)) as [-> _].
  destruct (mem_remove t id (mem (bk_cb b))) as [m n] eqn:E. destruct (mem_remove_spec _ _ _ _ _ E) as (H1 & _ & H3 & _). cbn.
  rewrite H1. split; [by rewrite Permutation_app_comm|]. split; [done|]. apply rows_with_id_ids.
Qed.

#[local] Instance buffer_laws : ComponentLaws ledger := {
  comp_ok := balanced;
  acknowledged b := bk_accepted b;
  waiting b := buffered (buffer (mem (bk_cb b)));
  AddRow_law := buffer_AddRow;
  Remove_law := buffer_Remove;
  ExecuteQuery_law sql b := conj (fun x => x) (conj eq_refl eq_refl);
  ExecuteUpdate_law sql b := conj (fun x => x) (conj eq_refl eq_refl);
  Rewrite_law t id b := conj (fun x => x) (conj eq_refl eq_refl);
  InvalidateCache_law t b := conj (fun x => x) (conj eq_refl eq_refl);
  Lock_law k ttl b := conj (fun x => x) (conj eq_refl eq_refl);
  Unlock_law k token b := conj (fun x => x) (conj eq_refl eq_refl);
}.
End buffer.

(** ** Requests *)

Module RequestDemo.
Import TableDemo.

(** A buffer in memory that fails when it is told to; queries give the
    statement back. *)
Record mem_buffer := mkMem { rows : list DataRow; outcomes : list bool; accepted_rows : list DataRow }.
Definition of_id (t id : string) (r : DataRow) : bool := bool_decide (row_Table r = t) && bool_decide (row_ID r = id).

#[export] Instance mem_components : Components mem_buffer := {
  AddRow row b := if default true (head (outcomes b)) then (Ok tt, mkMem (rows b ++ [row]) (tail (outcomes b)) (accepted_rows b ++ [row]))
                  else (Err "full", mkMem (rows b) (tail (outcomes b)) (accepted_rows b));
  RemoveFromBuffer t id b := (Zlength (List.filter (of_id t id) (rows b)),
                              mkMem (List.filter (fun r => negb (of_id t id r)) (rows b)) (outcomes b) (accepted_rows b));
  ClearTableBuffer t b := (0, mkMem (List.filter (fun r => negb (bool_decide (row_Table r = t))) (rows b)) (outcomes b) (accepted_rows b));
  ExecuteQuery sql b := (Ok sql, b);
  ExecuteUpdate sql b := (Err "Can only delete from base table", b);
  RewriteParquetForDelete t id b := (Ok (0, false), b);
  InvalidateCache t b := (Ok tt, b);
  Lock k ttl b := (Ok "token", b);
  Unlock k token b := (Ok tt, b);
}.

Lemma mem_AddRow row (c : mem_buffer) :
  True -> True /\
  match (AddRow row c).1 with
  | Ok _ => accepted_rows (AddRow row c).2 = accepted_rows c ++ [row]
  | Err _ => accepted_rows (AddRow row c).2 = accepted_rows c /\ rows (AddRow row c).2 ≡ₚ rows c
  end.
Proof. intros _. cbn. by destruct (default true (head (outcomes c))). Qed.

Lemma mem_Remove t id (c : mem_buffer) :
  True -> True /\ accepted_rows (RemoveFromBuffer t id c).2 = accepted_rows c /\
  exists gone, rows c ≡ₚ gone ++ rows (RemoveFromBuffer t id c).2 /\ Zlength gone = (RemoveFromBuffer t id c).1 /\
    Forall (fun r => row_ID r = id) gone.
Proof.
  intros _. split; [done|]. split; [done|]. exists (List.filter (of_id t id) (rows c)). cbn. split; [apply filter_split|]. split; [done|].
  apply Forall_forall. intros r Hr. apply list_elem_of_In, filter_In in Hr as [_ Hr]. unfold of_id in Hr. by b2p.
Qed.

#[export] Instance mem_laws : ComponentLaws mem_buffer := {
  comp_ok _ := True;
  acknowledged := accepted_rows;
  waiting := rows;
  AddRow_law := mem_AddRow;
  Remove_law := mem_Remove;
  ExecuteQuery_law sql b := conj (fun x => x) (conj eq_refl eq_refl);
  ExecuteUpdate_law sql b := conj (fun x => x) (conj eq_refl eq_refl);
  Rewrite_law t id b := conj (fun x => x) (conj eq_refl eq_refl);
  InvalidateCache_law t b := conj (fun x => x) (conj eq_refl eq_refl);
  Lock_law k ttl b := conj (fun x => x) (conj eq_refl eq_refl);
  Unlock_law k token b := conj (fun x => x) (conj eq_refl eq_refl);
}.
Lemma mem_ok (c : mem_buffer) : comp_ok c.
Proof. exact I. Qed.

Definition compile_ids (pattern : string) : option regex :=
  if bool_decide (pattern = "^[a-zA-Z0-9_-]+$") then Some (seq [Begin; plus (Cls id_char); End_]) else None.
Definition gen0 : SnowflakeGenerator := mkSnowflake 1 0 0.
Definition env (now : Z) : request_env := mkEnv now (now / 1000000) [] "9f1c" "20240101000000" 7 (Some "abcd").
Definition plain_text (p : payload) : result string payload := Ok p.
Abbreviation server := (service (C := mem_buffer)).
Definition server0 (w : world) (answers : list bool) : server := mkService w (mkMem [] answers []) gen0 ∅ ∅.

Definition T0 : Z := 1704067200 * second.
Abbreviation write_ := (WriteData compile_ids rfc true true false (cluster 5) plain_text).
Abbreviation update_ := (UpdateData compile_ids rfc (cluster 5) plain_text).
Abbreviation delete_ := (DeleteData compile_ids rfc (cluster 5)).

Definition fields1 : payload := {["price" := VInt 1]}.
Definition fields2 : payload := {["price" := VInt 2]}.
Definition put (id : string) : WriteDataRequest := mkWrite "orders" (Some (mkRecord id (Some 1) (Some fields1))).
Definition change (id : string) : UpdateDataRequest := mkUpdate "orders" id (Some 2) (Some fields2).

Definition s0 : server := server0 (start [] []) [].
Definition s1 : server := (write_ (env T0) (put " o-1 ") s0).2.

Lemma cache_empty : cache_ok compile_ids ∅.
Proof. intros p re. by rewrite lookup_empty. Qed.

(** A run from its outcome. *)
Lemma outcome_run {A} (m : M server status A) s r : (m s).1 = r -> m s = (r, (m s).2).
Proof. intros <-. apply surjective_pairing. Qed.

Lemma s1_ok : (write_ (env T0) (put " o-1 ") s0).1 = Ok accepted_.
Proof. by vm_compute. Qed.
Definition s2 : server := (update_ (env T0) (change "o-1") s1).2.
Lemma s2_ok : (update_ (env T0) (change "o-1") s1).1 = Ok accepted_.
Proof. by vm_compute. Qed.
Definition s3 : server := (delete_ (env T0) (mkDelete "orders" "o-1") s1).2.
Lemma s3_ok : (delete_ (env T0) (mkDelete "orders" "o-1") s1).1 = Ok (mkResponse true 1).
Proof. by vm_compute. Qed.

Lemma write_acknowledges_its_row_witness : exists row, accepted_rows (comps s1) = [row] /\ row_ID row <> "".
Proof.
  destruct (write_acknowledges_its_row compile_ids rfc true true false (cluster 5) plain_text (env T0) (put " o-1 ") s0 s1 (Ok accepted_) (mem_ok _) cache_empty
    (outcome_run _ _ _ s1_ok)) as (d & f & f' & w1 & c & w2 & id & _ & _ & _ & _ & _ & _ & (Hid & _) & Ha). eexists. split; [exact Ha | exact Hid].
Defined.

Lemma update_accounts_witness : accepted_rows (comps s2) = accepted_rows (comps s1) ++ [mkRow "o-1" 2 "orders" fields2].
Proof.
  destruct (update_accounts compile_ids rfc (cluster 5) plain_text (env T0) (change "o-1") s1 s2 (Ok accepted_) (mem_ok _) (outcome_run _ _ _ s2_ok))
    as (f & f' & Hf & Hf' & Ha). injection Hf as <-. injection Hf' as <-. exact Ha.
Defined.

Lemma delete_accounts_witness : accepted_rows (comps s3) = accepted_rows (comps s1) /\ exists gone, rows (comps s1) ≡ₚ gone ++ rows (comps s3).
Proof.
  destruct (delete_accounts compile_ids rfc (cluster 5) (env T0) (mkDelete "orders" "o-1") s1 s3 (Ok (mkResponse true 1)) (mem_ok _) (outcome_run _ _ _ s3_ok))
    as [Ha (gone & Hg & _)]. split; [exact Ha | by exists gone].
Defined.

Definition letters (_ : string) : option (list string) := Some ["a"; "b"; "c"; "d"; "e"].
Lemma stream_query_complete_witness : exists bs st, (StreamQuery letters [] "SELECT 1" "1" 2 s0).1 = Ok (Some (bs, st)) /\
  st = None /\ concat (b_Records <$> bs) = ["b"; "c"; "d"; "e"].
Proof.
  destruct (stream_query_complete letters [] "SELECT 1" "1" 2 s0 s0 "SELECT 1" ["a"; "b"; "c"; "d"; "e"]) as (bs & st & all & H1 & _ & He & Hn & Hc & _);
    [by vm_compute|by vm_compute|by vm_compute|by vm_compute|].
  exists bs, st. split; [exact H1|]. split; [by apply Hn|]. rewrite (He (Hn eq_refl)). exact Hc.
Defined.

(** ** Requests that go wrong *)

Abbreviation create_ := (CreateTable compile_ids rfc true true false (cluster 5)).
Definition config_message (strategy : string) : TableConfigMessage :=
  mkConfigMessage 100 10 30 true None strategy "" false None.
Definition no_id : WriteDataRequest := put "".
Definition outcome {A} (m : M server status A) (s : server) : option A := match (m s).1 with Ok a => Some a | Err _ => None end.

(** A row in the buffer, and an update whose insertion fails. *)
Definition one_row : server := (write_ (env T0) (put "o-1") (server0 (start [] []) [true; false])).2.
Definition lost : server := (update_ (env T0) (change "o-1") one_row).2.

(** A table whose clients provide the identifiers, created again and dropped. *)
Definition own_ids : server := (create_ T0 (mkCreate "orders" (Some (config_message "user_provided")) false) s0).2.
Definition again : server := (create_ T0 (mkCreate "orders" (Some (config_message "uuid")) true) own_ids).2.
Definition dropped : server := (DeleteTable (cluster 5) (mkDeleteTable "orders" false) own_ids).2.

Definition two_records : list DataRecord := [mkRecord "ok" (Some 1) (Some fields1); mkRecord "not ok" (Some 1) (Some fields1)].
Definition streamed : result status stream_result * server :=
  StreamWrite compile_ids rfc true true false (cluster 5) plain_text (fun _ => env T0) [("orders", two_records)] (mkStream 0 0) s0.

Definition by_name : server := (create_ T0 (mkCreate "orders" (Some (config_message "nanoid")) false) s0).2.
Definition text_of (sql : string) (limit : Z) : option string :=
  match query_text compile_ids ToLower (cluster 5) (mkQuery sql limit) with Ok t => Some t | Err _ => None end.

(** An update whose insertion fails loses the row that waited in the
    buffer, although the new version is said to be inserted first. CREATE
    TABLE IF NOT EXISTS replaces the rules for identifiers of an existing
    table, and the rules of a dropped table go on for a new table of its name.
    A stream of writes reports no record written when a later one of the batch
    failed. An unknown strategy never generates an identifier. A limit makes a
    query that ends in a semicolon invalid. The number taken from a node
    identifier can be negative. *)
Theorem service_flaws :
  (rows (comps one_row) <> [] /\ outcome (update_ (env T0) (change "o-1")) one_row = Some refused /\ rows (comps lost) = []) /\
  (outcome (write_ (env T0) no_id) own_ids = None /\ outcome (write_ (env T0) no_id) again = Some accepted_ /\
   outcome (write_ (env T0) no_id) dropped = None /\ outcome (write_ (env T0) no_id) s0 = Some accepted_) /\
  (streamed.1 = Ok (mkStream 0 2) /\ length (accepted_rows (comps streamed.2)) = 1%nat) /\
  (write_ (env T0) no_id by_name).1 = Err Internal /\
  (text_of "SELECT * FROM orders;" 0 = Some "SELECT * FROM orders;" /\ text_of "SELECT * FROM orders;" 5 = None) /\
  extractNodeIDNumber (fun _ => []) "-5" = -5.
Proof. split_and!; by vm_compute. Qed.
End RequestDemo.
