(* ===== verification/RateLimiter.v ===== *)
(** * The request rate limiter (internal/security/smart_rate_limiter.go)

    A token bucket for every client and tier, with a back-off for clients that
    keep being refused. Times and durations are in nanoseconds; the zero
    [time.Time] is [zero_time]. Rates are float64, computed with the Standard
    Library's model of IEEE 754 binary64. Every [time.Now()] a request makes
    is an argument of its own. Requests and ticks of the clean-up are atomic
    events of a run. *)

From S2P Require Import Prelude GoStrings GoTime GoFloat.
From Stdlib Require Import Ascii SpecFloat.
#[local] Open Scope Z_scope.

(** ** The bucket *)

Record TokenBucket := mkBucket {
  capacity : Z;
  tokens : Z;
  refillRate : spec_float;
  lastRefill : Z;
}.

Definition NewTokenBucket (now cap : Z) (rate : spec_float) : TokenBucket := mkBucket cap cap rate now.

(** The tokens earned in a time. *)
Definition credit (rate : spec_float) (elapsed : Z) : Z := int_of_float (fmul (Seconds elapsed) rate).

Definition refill (now : Z) (tb : TokenBucket) : TokenBucket :=
  let tokensToAdd := credit (refillRate tb) (time_Sub now (lastRefill tb)) in
  if 0 <? tokensToAdd then
    let t := int64 (tokens tb + tokensToAdd) in
    mkBucket (capacity tb) (if capacity tb <? t then capacity tb else t) (refillRate tb) now
  else tb.

Definition TryConsume (now n : Z) (tb : TokenBucket) : TokenBucket * bool :=
  let tb := refill now tb in
  if n <=? tokens tb
  then (mkBucket (capacity tb) (int64 (tokens tb - n)) (refillRate tb) (lastRefill tb), true)
  else (tb, false).

Definition GetWaitTime (now n : Z) (tb : TokenBucket) : TokenBucket * Z :=
  let tb := refill now tb in
  if n <=? tokens tb then (tb, 0)
  else (tb, int_of_float (fmul (fdiv (f64 (int64 (n - tokens tb))) (refillRate tb)) (f64 second))).

(** ** Configuration *)

Record RateLimitTier := mkTier {
  Name : string;
  RequestsPerSec : spec_float;
  BurstSize : Z;
  Window : Z;
  BackoffDuration : Z;
}.

Record PathRateLimit := mkPathLimit { Pattern : string; Tier : string; PathEnabled : bool }.

Record SmartRateLimiterConfig := mkLimiterConfig {
  Enabled : bool;
  DefaultTier : string;
  Tiers : list RateLimitTier;
  PathLimits : list PathRateLimit;
  CleanupInterval : Z;
}.

Definition minute : Z := 60 * second.

Definition GetDefaultSmartRateLimiterConfig : SmartRateLimiterConfig :=
  mkLimiterConfig true "standard"
    [mkTier "health" (f64 100) 200 minute (1 * second); mkTier "query" (f64 50) 100 minute (2 * second);
     mkTier "write" (f64 30) 60 minute (5 * second); mkTier "standard" (f64 20) 40 minute (3 * second);
     mkTier "strict" (f64 10) 20 minute (10 * second)]
    [mkPathLimit "/v1/health" "health" true; mkPathLimit "/health" "health" true;
     mkPathLimit "/metrics" "health" true; mkPathLimit "/v1/query" "query" true;
     mkPathLimit "/v1/data" "write" true; mkPathLimit "/v1/tables" "write" true;
     mkPathLimit "/v1/backup" "strict" true]
    (5 * minute).

(** ** The limiter *)

Record ClientRateLimit := mkClient {
  tokenBucket : TokenBucket;
  backoffUntil : Z;
  violationCount : Z;
  lastViolation : Z;
}.

Record SmartRateLimiter := mkLimiter {
  config : SmartRateLimiterConfig;
  clients : gmap string ClientRateLimit;
  tiers : gmap string RateLimitTier;
}.

(** [NewSmartRateLimiterWithContext] *)
Definition NewSmartRateLimiter (cfg : SmartRateLimiterConfig) : SmartRateLimiter :=
  let d := GetDefaultSmartRateLimiterConfig in
  let cfg :=
    if bool_decide (Tiers cfg = []) || bool_decide (PathLimits cfg = []) then
      mkLimiterConfig (if Enabled cfg then Enabled cfg else Enabled d)
        (if bool_decide (DefaultTier cfg = "") then DefaultTier d else DefaultTier cfg)
        (Tiers d) (PathLimits d)
        (if 0 <? CleanupInterval cfg then CleanupInterval cfg else CleanupInterval d)
    else cfg in
  mkLimiter cfg ∅ (foldl (fun m t => <[Name t := t]> m) ∅ (Tiers cfg)).

Definition fallback_tier : RateLimitTier := mkTier "fallback" (f64 10) 20 minute (5 * second).

Fixpoint path_tier (limits : list PathRateLimit) (ts : gmap string RateLimitTier) (path : string)
    : option RateLimitTier :=
  match limits with
  | [] => None
  | l :: limits =>
      match (if PathEnabled l && HasPrefix path (Pattern l) then ts !! Tier l else None) with
      | Some t => Some t
      | None => path_tier limits ts path
      end
  end.

Definition getTierForPath (srl : SmartRateLimiter) (path : string) : RateLimitTier :=
  match path_tier (PathLimits (config srl)) (tiers srl) path, tiers srl !! DefaultTier (config srl) with
  | Some t, _ => t
  | None, Some t => t
  | None, None => fallback_tier
  end.

Definition client_key (ip : string) (tier : RateLimitTier) : string := ip +:+ ":" +:+ Name tier.

Definition getClientRateLimit (now : Z) (ip : string) (tier : RateLimitTier) (srl : SmartRateLimiter)
    : ClientRateLimit :=
  match clients srl !! client_key ip tier with
  | Some c => c
  | None => mkClient (NewTokenBucket now (BurstSize tier) (RequestsPerSec tier)) zero_time 0 zero_time
  end.

(** A request: who, what, and the clock when the bucket is made, when the
    request is looked at, when tokens are consumed and when the waiting time
    is computed. *)
Record request := mkRequest { ip : string; path : string; t_new : Z; t_now : Z; t_consume : Z; t_wait : Z }.

(** [checkRateLimit] behind the look-up of the client: the new state, whether
    the request passes, and the waiting time. *)
Definition check_client (tier : RateLimitTier) (r : request) (c : ClientRateLimit)
    : ClientRateLimit * bool * Z :=
  let now := t_now r in
  if now <? backoffUntil c then (c, false, time_Sub (backoffUntil c) now) else
  let '(tb, ok) := TryConsume (t_consume r) 1 (tokenBucket c) in
  if ok then
    (mkClient tb (backoffUntil c)
       (if Window tier <? time_Sub now (lastViolation c) then 0 else violationCount c) (lastViolation c), true, 0)
  else
    let violations := int64 (violationCount c + 1) in
    let '(tb, waitTime) := GetWaitTime (t_wait r) 1 tb in
    if 5 <=? violations then
      let d := int64 (BackoffDuration tier * (violations - 4)) in
      let d := if 5 * minute <? d then 5 * minute else d in
      (mkClient tb (now + d) violations now, false, d)
    else (mkClient tb (backoffUntil c) violations now, false, waitTime).

Definition with_client (key : string) (c : ClientRateLimit) (srl : SmartRateLimiter) : SmartRateLimiter :=
  mkLimiter (config srl) (<[key := c]> (clients srl)) (tiers srl).

Definition checkRateLimit (r : request) (srl : SmartRateLimiter) : SmartRateLimiter * bool * Z :=
  if Enabled (config srl) then
    let tier := getTierForPath srl (path r) in
    let '(c, ok, wait) := check_client tier r (getClientRateLimit (t_new r) (ip r) tier srl) in
    (with_client (client_key (ip r) tier) c srl, ok, wait)
  else (srl, true, 0).

(** One tick of [cleanup]. *)
Definition cleanup (now : Z) (srl : SmartRateLimiter) : SmartRateLimiter :=
  let inactive c :=
    (int64 (2 * CleanupInterval (config srl)) <? time_Sub now (lastViolation c)) && (backoffUntil c <? now) in
  mkLimiter (config srl)
    (map_imap (fun _ c => if inactive c then None else Some c) (clients srl)) (tiers srl).

(** ** The bound on admitted requests *)

Definition times (r : request) : list Z := [t_new r; t_now r; t_consume r; t_wait r].

(** What happens to a limiter: requests, and ticks of the clean-up that
    [NewSmartRateLimiterWithContext] starts, one after the other. *)
Inductive event := Request (r : request) | Tick (now : Z).

Definition event_times (e : event) : list Z :=
  match e with Request r => times r | Tick now => [now] end.

(** The clock does not go back within a request or from one event to the next. *)
Fixpoint ordered (t : Z) (es : list event) : Prop :=
  match es with
  | [] => True
  | Request r :: es => t <= t_new r <= t_now r /\ t_now r <= t_consume r <= t_wait r /\ ordered (t_wait r) es
  | Tick now :: es => t <= now /\ ordered now es
  end.

Fixpoint end_time (t : Z) (es : list event) : Z :=
  match es with [] => t | Request r :: es => end_time (t_wait r) es | Tick now :: es => end_time now es end.

Definition request_key (srl : SmartRateLimiter) (r : request) : string :=
  client_key (ip r) (getTierForPath srl (path r)).

Definition react (e : event) (srl : SmartRateLimiter) : SmartRateLimiter :=
  match e with Request r => (checkRateLimit r srl).1.1 | Tick now => cleanup now srl end.

(** The requests of a run that pass with the key. *)
Fixpoint admitted (key : string) (es : list event) (srl : SmartRateLimiter) : Z :=
  match es with
  | [] => 0
  | e :: es =>
      match e with
      | Request r => if (checkRateLimit r srl).1.2 && bool_decide (request_key srl r = key) then 1 else 0
      | Tick _ => 0
      end + admitted key es (react e srl)
  end.

(** The ticks of a run that remove the client of the key. *)
Fixpoint forgotten (key : string) (es : list event) (srl : SmartRateLimiter) : Z :=
  match es with
  | [] => 0
  | e :: es =>
      match e, clients srl !! key, clients (react e srl) !! key with
      | Tick _, Some _, None => 1
      | _, _, _ => 0
      end + forgotten key es (react e srl)
  end.

#[local] Opaque int_of_float.

Section bound.
(** A tier with the rate [R] per second, the times of a run, and that the
    float arithmetic does not round up between any two of them. *)
Context (T : RateLimitTier) (R t0 : Z) (ts : list Z).
Context (HR : 0 <= R) (Hburst : 0 <= BurstSize T <= max_int64).
Context (Hrate : forall s t, s ∈ ts -> t ∈ ts -> s <= t ->
  credit (RequestsPerSec T) (time_Sub t s) * second <= R * (t - s)).

(** What [A] admitted requests leave in the bucket, when [B] tokens were in
    the buckets of the client at their start. *)
Record bucket_inv (A B t : Z) (b : TokenBucket) : Prop := {
  bi_rate : refillRate b = RequestsPerSec T;
  bi_cap : capacity b = BurstSize T;
  bi_int : in_int64 (tokens b);
  bi_last : lastRefill b ∈ ts;
  bi_time : t0 <= lastRefill b <= t;
  bi_sum : (A + tokens b - B) * second <= R * (lastRefill b - t0);
  bi_adm : (A - B) * second <= R * (t - t0);
}.

Lemma second_pos : 0 < second.
Proof. by vm_compute. Qed.

Lemma bucket_inv_later A B t t' b : t <= t' -> bucket_inv A B t b -> bucket_inv A B t' b.
Proof using HR. intros Ht []. split; try done; [lia|]. nia. Qed.

Lemma int64_le z : min_int64 <= z -> int64 z <= z.
Proof.
  unfold min_int64, int64. intros. pose proof (Z.mod_le (z + 2 ^ 63) (2 ^ 64) ltac:(lia) ltac:(lia)). lia.
Qed.

Lemma refill_inv A B t b : t ∈ ts -> bucket_inv A B t b -> bucket_inv A B t (refill t b).
Proof using HR Hburst Hrate.
  intros Hin [H1 H2 H3 H4 H5 H6 H7]. unfold refill. rewrite H1, H2.
  destruct (Z.ltb_spec 0 (credit (RequestsPerSec T) (time_Sub t (lastRefill b)))) as [Hc|]; [|by split].
  pose proof (Hrate _ _ H4 Hin ltac:(lia)) as Hr. pose proof second_pos.
  set (n := credit _ _) in *. pose proof (int64_range (tokens b + n)) as Hi.
  assert (int64 (tokens b + n) <= tokens b + n) by (apply int64_le; destruct H3; lia).
  split; simpl; try done; [| lia |].
  - destruct (Z.ltb_spec (BurstSize T) (int64 (tokens b + n))); [|done].
    unfold in_int64, min_int64. lia.
  - assert ((A + (tokens b + n) - B) * second <= R * (t - t0)) by nia.
    destruct (Z.ltb_spec (BurstSize T) (int64 (tokens b + n))); nia.
Qed.

Lemma consume_inv A B t b b' ok :
  t ∈ ts -> bucket_inv A B t b -> TryConsume t 1 b = (b', ok) -> bucket_inv (A + if ok then 1 else 0) B t b'.
Proof using HR Hburst Hrate.
  intros Hin Hb Hc. apply (refill_inv _ _ _ _ Hin) in Hb as [H1 H2 H3 H4 H5 H6 H7].
  unfold TryConsume in Hc. destruct (Z.leb_spec 1 (tokens (refill t b))); injection Hc as <- <-.
  - pose proof second_pos. split; simpl; try done.
    + apply int64_range.
    + rewrite int64_small by (unfold in_int64, min_int64 in *; lia). lia.
    + nia.
  - rewrite Z.add_0_r. by split.
Qed.

Lemma wait_inv A B t b b' w :
  t ∈ ts -> bucket_inv A B t b -> GetWaitTime t 1 b = (b', w) -> bucket_inv A B t b'.
Proof using HR Hburst Hrate.
  intros Hin Hb Hw. apply (refill_inv _ _ _ _ Hin) in Hb. unfold GetWaitTime in Hw.
  destruct (1 <=? tokens (refill t b)); injection Hw as <- _; exact Hb.
Qed.

Lemma check_inv A B r c c' ok w :
  times r ⊆ ts -> t_now r <= t_consume r <= t_wait r ->
  bucket_inv A B (t_now r) (tokenBucket c) -> check_client T r c = (c', ok, w) ->
  bucket_inv (A + if ok then 1 else 0) B (t_wait r) (tokenBucket c').
Proof using HR Hburst Hrate.
  intros Hts Ht Hb Hc. unfold check_client in Hc.
  assert (t_consume r ∈ ts /\ t_wait r ∈ ts) as [Hin1 Hin2] by (split; apply Hts; set_solver).
  destruct (t_now r <? backoffUntil c).
  { injection Hc as <- <- _. rewrite Z.add_0_r. eapply bucket_inv_later; [|done]. lia. }
  destruct (TryConsume _ _ _) as [b1 ok1] eqn:E1.
  eapply consume_inv in E1; [|done|by eapply bucket_inv_later; [|done]; lia].
  destruct ok1.
  - injection Hc as <- <- _. eapply bucket_inv_later; [|done]. lia.
  - destruct (GetWaitTime _ _ _) as [b2 w2] eqn:E2.
    eapply wait_inv in E2; [|done|by eapply bucket_inv_later; [|done]; lia].
    rewrite Z.add_0_r in *. destruct (5 <=? _); injection Hc as <- <- _; rewrite Z.add_0_r; exact E2.
Qed.

(** A client that has no bucket has the burst of its next one to come. *)
Definition key_inv (key : string) (A B t : Z) (srl : SmartRateLimiter) : Prop :=
  match clients srl !! key with
  | None => (A + BurstSize T - B) * second <= R * (t - t0)
  | Some c => bucket_inv A B t (tokenBucket c)
  end.

Lemma key_inv_later key A B t t' srl : t <= t' -> key_inv key A B t srl -> key_inv key A B t' srl.
Proof using HR.
  intros Ht. unfold key_inv. destruct (clients srl !! key); [by apply bucket_inv_later|]. nia.
Qed.

Lemma request_inv key A B t r srl srl' ok w :
  Enabled (config srl) = true -> times r ⊆ ts -> t0 <= t <= t_new r ->
  t_new r <= t_now r <= t_consume r -> t_consume r <= t_wait r ->
  (request_key srl r = key -> getTierForPath srl (path r) = T) ->
  key_inv key A B t srl -> checkRateLimit r srl = (srl', ok, w) ->
  key_inv key (A + if ok && bool_decide (request_key srl r = key) then 1 else 0) B (t_wait r) srl'.
Proof using HR Hburst Hrate.
  intros He Hts Ht1 Ht2 Ht3 HT Hk Hc. unfold checkRateLimit in Hc. rewrite He in Hc.
  destruct (check_client _ _ _) as [[c ok'] w'] eqn:E. injection Hc as <- <- <-.
  destruct (decide (request_key srl r = key)) as [Hkey|Hne].
  - unfold key_inv in *. fold (request_key srl r). cbn [with_client clients].
    rewrite Hkey, lookup_insert_eq, bool_decide_true, andb_true_r by done.
    rewrite (HT Hkey) in E. eapply check_inv; [done|lia| |exact E].
    unfold getClientRateLimit. unfold request_key in Hkey. rewrite (HT Hkey) in Hkey. rewrite Hkey.
    destruct (clients srl !! key) as [c0|]; [eapply bucket_inv_later; [|done]; lia|].
    pose proof second_pos. split; simpl; try done; [unfold in_int64, min_int64; lia| |lia|nia|nia].
    apply Hts. set_solver.
  - rewrite bool_decide_false, andb_false_r, Z.add_0_r by done.
    apply (key_inv_later _ _ _ t); [lia|]. unfold key_inv in *. fold (request_key srl r).
    cbn [with_client clients]. by rewrite lookup_insert_ne.
Qed.

(** A tick that forgets the client grants it one more burst. *)
Lemma tick_inv key A B t now srl :
  t <= now -> key_inv key A B t srl ->
  key_inv key A (B + match clients srl !! key, clients (cleanup now srl) !! key with
                     | Some _, None => BurstSize T | _, _ => 0 end) now (cleanup now srl).
Proof using HR.
  intros Ht Hk%(key_inv_later _ _ _ _ _ _ Ht). revert Hk. unfold key_inv, cleanup. cbn [clients].
  rewrite map_lookup_imap. destruct (clients srl !! key) as [c|]; cbn.
  - destruct (_ && _); [|by rewrite Z.add_0_r]. intros []. lia.
  - by rewrite Z.add_0_r.
Qed.

Lemma react_config e srl : config (react e srl) = config srl /\ tiers (react e srl) = tiers srl.
Proof.
  destruct e as [r|now]; [|done]. cbn. unfold checkRateLimit. destruct (Enabled _); [|done].
  by destruct (check_client _ _ _) as [[c ok'] w'].
Qed.

Lemma react_tier e srl p : getTierForPath (react e srl) p = getTierForPath srl p.
Proof. unfold getTierForPath. destruct (react_config e srl) as [-> ->]. done. Qed.

Lemma admitted_inv key es A B t srl :
  Enabled (config srl) = true -> mjoin (event_times <$> es) ⊆ ts -> t0 <= t -> ordered t es ->
  (forall r, Request r ∈ es -> request_key srl r = key -> getTierForPath srl (path r) = T) ->
  key_inv key A B t srl ->
  (A + admitted key es srl - (B + BurstSize T * forgotten key es srl)) * second <= R * (end_time t es - t0).
Proof using HR Hburst Hrate.
  revert A B t srl. induction es as [|e es IH]; intros A B t srl He Hts Ht Ho HT Hk.
  { cbn. rewrite Z.mul_0_r, !Z.add_0_r. unfold key_inv in Hk. destruct (clients srl !! key) as [c|]; [apply Hk|].
    pose proof second_pos. nia. }
  cbn in Hts. destruct (react_config e srl) as [Ec _].
  assert (forall r, Request r ∈ es -> request_key (react e srl) r = key -> getTierForPath (react e srl) (path r) = T) as HT'.
  { intros r Hin. unfold request_key. rewrite !react_tier. apply HT. set_solver. }
  destruct e as [r|now]; cbn [admitted forgotten end_time].
  - destruct Ho as (Ho1 & Ho2 & Ho3). rewrite Z.add_assoc, Z.add_0_l. cbn in *.
    apply IH; [by rewrite Ec|set_solver|lia|done|done|].
    destruct (checkRateLimit r srl) as [[srl' ok] w] eqn:E. cbn.
    eapply (request_inv _ _ _ t); [done|set_solver|lia|lia|lia|apply HT; set_solver|done|exact E].
  - destruct Ho as (Ho1 & Ho2). rewrite Z.add_0_l. cbn [react] in *.
    rewrite Z.mul_add_distr_l, Z.add_assoc.
    apply IH; [done|set_solver|lia|done|done|]. apply (tick_inv _ _ _ _ now) in Hk; [|done].
    destruct (clients srl !! key), (clients (cleanup now srl) !! key);
      rewrite ?Z.mul_0_r, ?Z.mul_1_r; exact Hk.
Qed.

End bound.

(** C39: the rate bound. From a fresh, enabled limiter, whatever the requests
    of all clients and the ticks of the clean-up, one after the other: the
    requests of one client that pass in one tier number at most the burst size
    plus the tier's rate times the length of the run, plus the burst size
    again for every tick that forgets the client, in spite of rounding,
    repeated refills and back-offs. The clock does not go back, no other tier
    shares the key, and the float product that counts the earned tokens does
    not round up between two instants of the run. *)
Theorem rate_limit_bound cfg key T R t0 es :
  let srl := NewSmartRateLimiter cfg in
  let ts := t0 :: mjoin (event_times <$> es) in
  0 <= R -> 0 <= BurstSize T <= max_int64 -> ordered t0 es ->
  Enabled (config srl) = true ->
  (forall r, Request r ∈ es -> request_key srl r = key -> getTierForPath srl (path r) = T) ->
  (forall s t, s ∈ ts -> t ∈ ts -> s <= t ->
     credit (RequestsPerSec T) (time_Sub t s) * second <= R * (t - s)) ->
  (admitted key es srl - BurstSize T * (1 + forgotten key es srl)) * second <= R * (end_time t0 es - t0).
Proof.
  intros srl ts HR Hb Ho He HT Hc. rewrite Z.mul_add_distr_l, Z.mul_1_r.
  rewrite <- (Z.add_0_l (admitted key es srl)).
  eapply (admitted_inv T R t0 ts HR Hb Hc key es 0 (BurstSize T) t0); [done|set_solver|lia|done|done|].
  unfold key_inv, srl, NewSmartRateLimiter. cbn [clients]. rewrite lookup_empty. lia.
Qed.

(** Forty-one requests in one instant and one half a second later, in the
    default configuration: forty pass, the next does not, the last does. The
    client was refused just before the tick, which therefore keeps it; without
    the refusal, in a run of forty requests, a tick and forty more, the tick
    forgets it. *)
Definition demo_request (t : Z) : event := Request (mkRequest "10.0.0.1" "/v1/other" t t t t).
Definition demo_start : Z := 1000000000000.
Definition demo_later : Z := demo_start + 500000000.
Definition demo_events : list event :=
  replicate 41 (demo_request demo_start) ++ [Tick demo_later; demo_request demo_later].
Definition demo_twice : list event :=
  replicate 40 (demo_request demo_start) ++ [Tick demo_later] ++ replicate 40 (demo_request demo_later).

Lemma demo_paths es :
  forallb (fun e => match e with Request r => bool_decide (path r = "/v1/other") | Tick _ => true end) es = true ->
  forall r, Request r ∈ es -> path r = "/v1/other".
Proof. rewrite forallb_forall. intros H r Hr%list_elem_of_In%H. by b2p. Qed.

Lemma demo_instants es :
  forallb (fun e => forallb (fun x => (x =? demo_start) || (x =? demo_later)) (event_times e)) es = true ->
  forall s t, s ∈ demo_start :: mjoin (event_times <$> es) -> t ∈ demo_start :: mjoin (event_times <$> es) ->
    s <= t -> credit (f64 20) (time_Sub t s) * second <= 20 * (t - s).
Proof.
  rewrite forallb_forall. intros H.
  assert (forall x, x ∈ demo_start :: mjoin (event_times <$> es) -> x = demo_start \/ x = demo_later) as Hx.
  { intros x [->|Hx]%elem_of_cons; [by left|]. apply list_elem_of_join in Hx as (l & Hl & He).
    apply list_elem_of_fmap in He as (e & -> & He%list_elem_of_In%H).
    rewrite forallb_forall in He. apply list_elem_of_In, He in Hl. lia. }
  intros s t [-> | ->]%Hx [-> | ->]%Hx _; vm_compute; discriminate.
Qed.

Lemma rate_limit_bound_witness :
  let srl := NewSmartRateLimiter GetDefaultSmartRateLimiterConfig in
  let key := "10.0.0.1:standard" in
  (admitted key demo_events srl = 41 /\ forgotten key demo_events srl = 0 /\
   (admitted key demo_events srl - 40 * (1 + forgotten key demo_events srl)) * second <=
     20 * (end_time demo_start demo_events - demo_start)) /\
  (admitted key demo_twice srl = 80 /\ forgotten key demo_twice srl = 1 /\
   (admitted key demo_twice srl - 40 * (1 + forgotten key demo_twice srl)) * second <=
     20 * (end_time demo_start demo_twice - demo_start)).
Proof.
  split; (split; [vm_compute; reflexivity|]); (split; [vm_compute; reflexivity|]).
  all: apply (rate_limit_bound GetDefaultSmartRateLimiterConfig "10.0.0.1:standard"
           (mkTier "standard" (f64 20) 40 minute (3 * second)) 20 demo_start);
    [vm_compute; discriminate|vm_compute; split; discriminate|vm_compute; repeat split; discriminate
    |vm_compute; reflexivity| |apply demo_instants; vm_compute; reflexivity].
  all: intros r Hr _; apply demo_paths in Hr as ->; vm_compute; reflexivity.
Defined.

(** Clean-up forgets active clients. The clean-up removes a client when
    its last refusal is long ago, not its last request; a client that was
    never refused is removed at every tick, and its next request finds a full
    bucket. Eighty requests pass in one instant in a tier with a burst of
    forty. *)
Theorem cleanup_refills_active_client :
  let srl := NewSmartRateLimiter GetDefaultSmartRateLimiterConfig in
  let burst := replicate 40 (demo_request demo_start) in
  admitted "10.0.0.1:standard" (burst ++ [Tick demo_start] ++ burst) srl = 80 /\
  admitted "10.0.0.1:standard" (burst ++ burst) srl = 40.
Proof. vm_compute. split; reflexivity. Qed.
