(* ===== verification/WindowLimiter.v ===== *)
(** * Requests per minute (internal/security/interceptor.go, middleware.go)

    The limiter of the gRPC interceptor and of the REST middleware: the times
    of each client's requests of the last minute. A client's times are an
    object that a request fetches under one lock and changes under another, so
    the objects have addresses; the clean-up forgets the clients without
    recent requests. *)

From S2P Require Import Prelude GoStrings GoTime.
#[local] Open Scope Z_scope.

Definition minute : Z := 60 * second.

(** [clients] and the objects it points to. *)
Record limiter := mkLimiter { clients : gmap string nat; objects : gmap nat (list Z); next : nat }.

Definition new_limiter : limiter := mkLimiter ∅ ∅ 0.

Definition is_recent (now t : Z) : bool := now - t <? minute.
Definition recent (now : Z) (l : list Z) : list Z := List.filter (is_recent now) l.

(** The client's object, made when there is none. *)
Definition fetch (clientIP : string) (l : limiter) : nat * limiter :=
  match clients l !! clientIP with
  | Some p => (p, l)
  | None => (next l, mkLimiter (<[clientIP := next l]> (clients l)) (<[next l := []]> (objects l)) (S (next l)))
  end.

Definition requests (l : limiter) (p : nat) : list Z := default [] (objects l !! p).
Definition set_requests (p : nat) (ts : list Z) (l : limiter) : limiter :=
  mkLimiter (clients l) (<[p := ts]> (objects l)) (next l).

(** Under the object's lock: whether the request goes on. *)
Definition count_request (now limit : Z) (p : nat) (l : limiter) : bool * limiter :=
  let valid := recent now (requests l p) in
  if limit <=? Zlength valid then (false, set_requests p valid l) else (true, set_requests p (valid ++ [now]) l).

Definition checkRateLimit (now : Z) (clientIP : string) (limit : Z) (l : limiter) : bool * limiter :=
  let '(p, l) := fetch clientIP l in count_request now limit p l.

(** One client of the clean-up, in any order. *)
Definition cleanup_client (now : Z) (l : limiter) (c : string * nat) : limiter :=
  match recent now (requests l c.2) with
  | [] => mkLimiter (delete c.1 (clients l)) (objects l) (next l)
  | valid => set_requests c.2 valid l
  end.
Definition cleanupRateLimitData (now : Z) (l : limiter) : limiter :=
  foldl (cleanup_client now) l (map_to_list (clients l)).

(** ** The interceptors and the middleware *)

Record rate_config := mkRate { rateLimitEnabled : bool; requestsPerMinute : Z }.
Definition EnableRateLimit (n : Z) : rate_config := mkRate (0 <? n) n.
Definition DisableRateLimit : rate_config := mkRate false 0.

(** The peer of a call, with the address of a TCP connection or another, and
    the forwarding headers. *)
Definition getClientIP (peer : option string) (xff xri : list string) : string :=
  match peer with
  | Some a => a
  | None => match xff with x :: _ => x | [] => match xri with x :: _ => x | [] => "" end end
  end.
Definition client_or_unknown (ip : string) : string := if bool_decide (ip = "") then "unknown" else ip.

(** Whether the handler runs. *)
Definition RateLimitInterceptor (c : rate_config) (now : Z) (ip : string) (l : limiter) : bool * limiter :=
  if negb (rateLimitEnabled c) || (requestsPerMinute c <=? 0) then (true, l) else
  checkRateLimit now (client_or_unknown ip) (requestsPerMinute c) l.
Definition StreamRateLimitInterceptor (c : rate_config) (now : Z) (ip : string) (l : limiter) : bool * limiter :=
  if negb (rateLimitEnabled c) || (requestsPerMinute c <=? 0) then (true, l) else
  checkRateLimit now (client_or_unknown ip) (requestsPerMinute c) l.

(** [SecurityMiddleware.RateLimiter] *)
Definition RateLimiter (limit : Z) (now : Z) (clientIP : string) (l : limiter) : bool * limiter :=
  if limit <=? 0 then (true, l) else let '(p, l) := fetch clientIP l in count_request now limit p l.

(** ** Runs *)

Inductive op := Request (ip : string) | Cleanup.

(** The times of the requests of a client that went on, oldest first. *)
Fixpoint accepted (limit : Z) (ip : string) (ops : list (Z * op)) (l : limiter) : list Z * limiter :=
  match ops with
  | [] => ([], l)
  | (t, Cleanup) :: ops => accepted limit ip ops (cleanupRateLimitData t l)
  | (t, Request ip') :: ops =>
      let '(ok, l) := checkRateLimit t ip' limit l in
      let '(ts, l) := accepted limit ip ops l in
      (if ok && bool_decide (ip' = ip) then t :: ts else ts, l)
  end.

(** The times go up. *)
Fixpoint in_time (t0 : Z) (ops : list (Z * op)) : Prop :=
  match ops with [] => True | (t, _) :: ops => t0 <= t /\ in_time t ops end.

(** The requests in the minute that ends at [t]. *)
Definition in_window (t : Z) (ts : list Z) : list Z := List.filter (fun a => (t - minute <? a) && (a <=? t)) ts.

(** *** Lists of times *)

Lemma recent_recent t now l : t <= now -> recent now (recent t l) = recent now l.
Proof.
  intros Ht. induction l as [|a l IH]; [done|]. unfold recent in *. cbn.
  destruct (is_recent t a) eqn:E1; cbn; destruct (is_recent now a) eqn:E2; rewrite ?IH; try done.
  unfold is_recent in *. b2p. lia.
Qed.

Lemma recent_app now l k : recent now (l ++ k) = recent now l ++ recent now k.
Proof. apply List.filter_app. Qed.

Lemma window_recent t now ts : now <= t -> (length (in_window t ts) <= length (recent now ts))%nat.
Proof.
  intros Ht. unfold in_window, recent. induction ts as [|a ts IH]; [done|]. cbn.
  destruct ((t - minute <? a) && (a <=? t)) eqn:E1; destruct (is_recent now a) eqn:E2; cbn; try lia.
  unfold is_recent in E2. b2p. lia.
Qed.

Lemma window_snoc t now ts :
  length (in_window t (ts ++ [now])) = (length (in_window t ts) + if ((t - minute <? now)%Z && (now <=? t)%Z) then 1 else 0)%nat.
Proof. unfold in_window. rewrite List.filter_app, length_app. cbn. by destruct ((t - minute <? now) && (now <=? t)). Qed.

(** *** The invariant *)

(** Different clients have different objects, which exist. *)
Definition limiter_ok (l : limiter) : Prop :=
  (forall ip p, clients l !! ip = Some p -> (p < next l)%nat) /\
  (forall ip ip' p, clients l !! ip = Some p -> clients l !! ip' = Some p -> ip = ip').

(** The times the limiter has for a client. *)
Definition known (l : limiter) (ip : string) : list Z := match clients l !! ip with Some p => requests l p | None => [] end.

(** It knows the recent ones of the requests that went on, of which no minute
    has more than the limit. *)
Definition good (limit t : Z) (ip : string) (ts : list Z) (l : limiter) : Prop :=
  limiter_ok l /\ recent t (known l ip) = recent t ts /\ Forall (fun a => a <= t) ts /\
  forall s, Zlength (in_window s ts) <= limit.

Lemma good_later limit t t' ip ts l : t <= t' -> good limit t ip ts l -> good limit t' ip ts l.
Proof.
  intros Ht (Hok & Hr & Hle & Hw). split; [done|]. split; [|split; [|done]].
  - by rewrite <- (recent_recent t t'), Hr, recent_recent.
  - eapply Forall_impl; [done|]. cbn. lia.
Qed.

Lemma fetch_ok ip l : limiter_ok l ->
  limiter_ok (fetch ip l).2 /\ clients (fetch ip l).2 !! ip = Some (fetch ip l).1 /\
  (forall ip', known (fetch ip l).2 ip' = known l ip').
Proof.
  intros [H1 H2]. unfold fetch. destruct (clients l !! ip) as [p|] eqn:E; [by split_and!|]. cbn. split_and!.
  - split; cbn.
    + intros ip' p [[<- <-]|[_ Hp]]%lookup_insert_Some; [lia|]. specialize (H1 _ _ Hp). lia.
    + intros i j p [[<- <-]|[Hi Hp]]%lookup_insert_Some [[<- E2]|[Hj Hq]]%lookup_insert_Some; [done|..].
      * specialize (H1 _ _ Hq). lia.
      * subst p. specialize (H1 _ _ Hp). lia.
      * by apply (H2 i j p).
  - apply lookup_insert_eq.
  - intros ip'. unfold known, requests. cbn. destruct (decide (ip = ip')) as [<-|Hne].
    + rewrite lookup_insert_eq, E. cbn. by rewrite lookup_insert_eq.
    + rewrite lookup_insert_ne by done. destruct (clients l !! ip') as [p|] eqn:Ep; [|done].
      specialize (H1 _ _ Ep). by rewrite lookup_insert_ne by lia.
Qed.

Lemma set_requests_known p ts l ip : limiter_ok l -> clients l !! ip = Some p ->
  limiter_ok (set_requests p ts l) /\ known (set_requests p ts l) ip = ts /\
  (forall ip', ip' <> ip -> known (set_requests p ts l) ip' = known l ip').
Proof.
  intros [H1 H2] Hp. split_and!; [done| |].
  - unfold known, requests, set_requests. cbn. rewrite Hp. cbn. by rewrite lookup_insert_eq.
  - intros ip' Hne. unfold known, requests, set_requests. cbn. destruct (clients l !! ip') as [q|] eqn:Eq; [|done].
    rewrite lookup_insert_ne; [done|]. intros ->. apply Hne. by apply (H2 ip' ip q).
Qed.

Lemma check_spec now ip limit l : limiter_ok l ->
  let valid := recent now (known l ip) in
  let '(ok, l') := checkRateLimit now ip limit l in
  limiter_ok l' /\ ok = negb (limit <=? Zlength valid) /\ known l' ip = (if ok then valid ++ [now] else valid) /\
  (forall ip', ip' <> ip -> known l' ip' = known l ip').
Proof.
  intros Hok. cbv zeta. unfold checkRateLimit. destruct (fetch_ok ip l Hok) as (Hf & Hc & Hk).
  destruct (fetch ip l) as [p l1]. cbn in *. unfold count_request.
  assert (requests l1 p = known l ip) as Hreq by (rewrite <- Hk; unfold known; by rewrite Hc).
  rewrite Hreq. destruct (limit <=? Zlength (recent now (known l ip))) eqn:El.
  - destruct (set_requests_known p (recent now (known l ip)) l1 ip Hf Hc) as (? & ? & Ho). split_and!; [done..|].
    intros ip' Hne. by rewrite Ho, Hk.
  - destruct (set_requests_known p (recent now (known l ip) ++ [now]) l1 ip Hf Hc) as (? & ? & Ho). split_and!; [done..|].
    intros ip' Hne. by rewrite Ho, Hk.
Qed.

Lemma cleanup_client_ok now l c : limiter_ok l -> clients l !! c.1 = Some c.2 ->
  limiter_ok (cleanup_client now l c) /\
  (forall ip, recent now (known (cleanup_client now l c) ip) = recent now (known l ip)) /\
  (forall ip, ip <> c.1 -> clients (cleanup_client now l c) !! ip = clients l !! ip).
Proof.
  intros Hok Hc. destruct c as [ip p]. cbn [fst snd] in *. unfold cleanup_client. cbn [fst snd].
  destruct (recent now (requests l p)) as [|v vs] eqn:Ev.
  - destruct Hok as [H1 H2]. split_and!.
    + split; cbn; [intros i q [_ Hi]%lookup_delete_Some; by apply (H1 i) | intros i j q [_ Hi]%lookup_delete_Some [_ Hj]%lookup_delete_Some; by apply (H2 i j q)].
    + intros i. unfold known, requests in *. cbn. destruct (decide (i = ip)) as [->|Hne].
      * by rewrite lookup_delete_eq, Hc, Ev.
      * by rewrite lookup_delete_ne.
    + intros i Hne. cbn. by rewrite lookup_delete_ne.
  - destruct (set_requests_known p (v :: vs) l ip Hok Hc) as (Ho & Hk & Hn). split_and!; [done| |done].
    intros i. destruct (decide (i = ip)) as [->|Hne]; [|by rewrite Hn].
    rewrite Hk. unfold known. rewrite Hc, <- Ev. by apply recent_recent.
Qed.

Lemma cleanup_ok now l : limiter_ok l ->
  limiter_ok (cleanupRateLimitData now l) /\
  (forall ip, recent now (known (cleanupRateLimitData now l) ip) = recent now (known l ip)).
Proof.
  intros Hok. unfold cleanupRateLimitData.
  assert (forall cs l, limiter_ok l -> NoDup cs.*1 -> (forall c, c ∈ cs -> clients l !! c.1 = Some c.2) ->
    limiter_ok (foldl (cleanup_client now) l cs) /\
    (forall ip, recent now (known (foldl (cleanup_client now) l cs) ip) = recent now (known l ip))) as Hgo.
  { clear. intros cs. induction cs as [|c cs IH]; intros l Hok Hnd Hcs; [done|]. cbn [foldl].
    apply NoDup_cons in Hnd as [Hc Hnd]. destruct (cleanup_client_ok now l c Hok) as (H1 & H2 & H3); [apply Hcs, list_elem_of_here|].
    destruct (IH (cleanup_client now l c) H1 Hnd) as [H4 H5].
    - intros c' Hc'. rewrite H3; [apply Hcs; by apply list_elem_of_further|]. intros E. apply Hc. rewrite <- E.
      apply list_elem_of_fmap. eauto.
    - split; [done|]. intros ip. by rewrite H5, H2. }
  apply Hgo; [done | apply NoDup_fst_map_to_list |]. intros [ip p] Hin. by apply elem_of_map_to_list in Hin.
Qed.

Lemma good_cleanup limit t ip ts l : good limit t ip ts l -> good limit t ip ts (cleanupRateLimitData t l).
Proof.
  intros (Hok & Hr & Hle & Hw). destruct (cleanup_ok t l Hok) as [H1 H2]. split; [done|]. split; [|done]. by rewrite H2.
Qed.

Lemma good_request limit t ip ip' ts l : 0 <= limit -> good limit t ip ts l ->
  let '(ok, l') := checkRateLimit t ip' limit l in
  good limit t ip (ts ++ if ok && bool_decide (ip' = ip) then [t] else []) l'.
Proof.
  intros Hl (Hok & Hr & Hle & Hw). pose proof (check_spec t ip' limit l Hok) as Hs. cbv zeta in Hs.
  destruct (checkRateLimit t ip' limit l) as [ok l']. destruct Hs as (Hok' & Hacc & Hk & Hother).
  destruct (decide (ip' = ip)) as [->|Hne].
  2: { rewrite bool_decide_eq_false_2, andb_false_r, app_nil_r by done. split; [done|]. split; [|done]. by rewrite Hother. }
  rewrite bool_decide_eq_true_2, andb_true_r by done. destruct ok.
  - split; [done|]. split_and!.
    + rewrite Hk, !recent_app, recent_recent by lia. by rewrite Hr.
    + apply Forall_app. split; [done|]. apply Forall_singleton. lia.
    + intros s. rewrite window_snoc. symmetry in Hacc. apply negb_true_iff in Hacc. b2p.
      destruct ((s - minute <? t) && (t <=? s)) eqn:E; [|specialize (Hw s); lia]. b2p.
      pose proof (window_recent s t ts ltac:(lia)). rewrite <- Hr in *. lia.
  - rewrite app_nil_r. split; [done|]. split; [|done]. rewrite Hk, recent_recent by lia. done.
Qed.

Lemma accepted_good limit ip ops t0 ts l : 0 <= limit -> in_time t0 ops -> good limit t0 ip ts l ->
  forall s, Zlength (in_window s (ts ++ (accepted limit ip ops l).1)) <= limit.
Proof.
  intros Hl. revert t0 ts l. induction ops as [|[t [ip'|]] ops IH]; intros t0 ts l Ht Hg s; cbn [accepted].
  - rewrite app_nil_r. apply Hg.
  - destruct Ht as [Ht Hops]. pose proof (good_request limit t ip ip' ts l Hl (good_later _ _ _ _ _ _ Ht Hg)) as Hg'.
    destruct (checkRateLimit t ip' limit l) as [ok l']. specialize (IH t _ l' Hops Hg' s).
    destruct (accepted limit ip ops l') as [ts' l2]. cbn in *. rewrite <- app_assoc in IH.
    by destruct (ok && bool_decide (ip' = ip)).
  - destruct Ht as [Ht Hops]. by apply (IH t); [|apply good_cleanup, (good_later _ t0)].
Qed.

(** No minute has more requests than the limit. When each request is
    counted in one piece, with times that go up, of the requests of a client
    that go on at most [limit] fall into any minute, whatever other clients
    and the clean-up do; and a client that has had fewer in the last minute is
    let through. *)
Theorem requests_per_minute limit ip ops t0 : 0 <= limit -> in_time t0 ops ->
  (forall s, Zlength (in_window s (accepted limit ip ops new_limiter).1) <= limit) /\
  (forall now l, limiter_ok l -> Zlength (recent now (known l ip)) < limit -> (checkRateLimit now ip limit l).1 = true).
Proof.
  intros Hl Ht. split.
  - intros s. apply (accepted_good limit ip ops t0 [] new_limiter Hl Ht). split_and!.
    + split; intros *; cbn; by rewrite lookup_empty.
    + done.
    + constructor.
    + done.
  - intros now l Hok Hlt. pose proof (check_spec now ip limit l Hok) as Hs. cbv zeta in Hs.
    destruct (checkRateLimit now ip limit l) as [ok l']. destruct Hs as (_ & -> & _). cbn. apply negb_true_iff, Z.leb_gt. lia.
Qed.

Lemma requests_per_minute_witness :
  (forall s, Zlength (in_window s (accepted 2 "a" [(0, Request "a"); (1, Request "a"); (2, Request "a"); (minute, Cleanup); (minute, Request "a")] new_limiter).1) <= 2) /\
  (forall now l, limiter_ok l -> Zlength (recent now (known l "a")) < 2 -> (checkRateLimit now "a" 2 l).1 = true).
Proof. apply (requests_per_minute 2 "a" _ 0); [lia | repeat split; done]. Defined.

Example two_of_three : (accepted 2 "a" [(0, Request "a"); (1, Request "a"); (2, Request "a"); (minute, Cleanup); (minute, Request "a")] new_limiter).1
  = [0; 1; minute].
Proof. vm_compute. reflexivity. Qed.

(** The clean-up can lose a request. A request that fetched its object
    before the clean-up forgot it is counted in an object nobody finds again:
    with a limit of one, two requests of a client go on in the same minute. *)
Theorem cleanup_loses_a_request :
  let '(p, l) := fetch "a" new_limiter in
  let l := cleanupRateLimitData 0 l in
  let '(ok1, l) := count_request 0 1 p l in
  let '(ok2, l) := checkRateLimit 1 "a" 1 l in
  ok1 = true /\ ok2 = true.
Proof. vm_compute. done. Qed.
