(* ===== verification/Auth.v ===== *)
(** * Authentication (internal/security/auth.go, jwt_manager.go, interceptor.go,
    middleware.go)

    [AuthManager] signs and checks tokens with a secret per user;
    [JWTManager] with one secret. The gRPC interceptor and the middlewares of
    the REST server decide which requests reach their handlers. The format of
    the tokens and their signatures are golang-jwt's: a class has the calls,
    another what its documentation says of them. *)

From S2P Require Import Prelude GoStrings GoTime.
From Stdlib Require Import Ascii.
#[local] Open Scope Z_scope.

(** ** golang-jwt *)

Record RegisteredClaims := mkRegistered {
  ExpiresAt : option Z; IssuedAt : option Z; NotBefore : option Z; Issuer : string; Audience : list string;
}.
Record Claims := mkClaims { UserID : string; Username : string; Registered : RegisteredClaims }.

(** [SigningMethodHMAC] and the others. *)
Inductive SigningMethod := HS256 | HS384 | HS512 | OtherMethod (alg : string).
Definition is_hmac (m : SigningMethod) : bool := match m with OtherMethod _ => false | _ => true end.

(** [jwt.NewNumericDate]: whole seconds. *)
Definition NewNumericDate (t : Z) : Z := t / second * second.

Definition claims_in_time (now : Z) (c : Claims) : bool :=
  match ExpiresAt (Registered c) with Some t => now <? t | None => true end &&
  match NotBefore (Registered c) with Some t => t <=? now | None => true end.

Class JWT := {
  SignedString : SigningMethod -> Claims -> string -> string;
  ParseUnverified : string -> option (SigningMethod * Claims);
  signature_ok : SigningMethod -> string -> string -> bool;
  (** [ParseWithClaims] at an instant, with the function that finds the key. *)
  ParseWithClaims : Z -> string -> (SigningMethod -> option string) -> option Claims;
}.

Definition whole_date (d : option Z) : Prop := forall t, d = Some t -> t = NewNumericDate t.
Definition whole_dates (c : Claims) : Prop :=
  whole_date (ExpiresAt (Registered c)) /\ whole_date (IssuedAt (Registered c)) /\ whole_date (NotBefore (Registered c)).

Class JWTLaws `{!JWT} : Prop := {
  parse_signed m c k : whole_dates c -> ParseUnverified (SignedString m c k) = Some (m, c);
  signature_signed m c k : signature_ok m (SignedString m c k) k = true;
  parse_with now tok key c : ParseWithClaims now tok key = Some c <->
    exists m k, ParseUnverified tok = Some (m, c) /\ key m = Some k /\ signature_ok m tok k = true /\ claims_in_time now c = true;
}.

(** ** AuthManager *)

Record APIKeyPair := mkKeyPair { Key : string; Secret : string; Role : string; DisplayName : string }.

Record AuthConfig := mkAuthConfig {
  Mode : string; TokenExpiration : Z; cfg_Issuer : string; cfg_Audience : string; APIKeyPairs : list APIKeyPair;
}.

Definition hour : Z := 3600 * second.
Definition DefaultAuthConfig : AuthConfig := mkAuthConfig "token" (24 * hour) "miniodb" "miniodb-api" [].

Record credentialInfo := mkCredential { secret : string; role : string; displayName : string }.

Record AuthManager := mkAuth { config : AuthConfig; credentials : gmap string credentialInfo }.

Definition root_if_empty (r : string) : string := if bool_decide (r = "") then "root" else r.

Definition load_pair (creds : gmap string credentialInfo) (p : APIKeyPair) : gmap string credentialInfo :=
  if negb (bool_decide (Key p = "")) && negb (bool_decide (Secret p = ""))
  then <[Key p := mkCredential (Secret p) (root_if_empty (Role p)) (DisplayName p)]> creds else creds.

Definition NewAuthManager (cfg : option AuthConfig) : AuthManager :=
  let cfg := default DefaultAuthConfig cfg in mkAuth cfg (foldl load_pair ∅ (APIKeyPairs cfg)).

Definition IsEnabled (am : AuthManager) : bool := bool_decide (Mode (config am) = "token").

Inductive auth_error :=
  | AuthDisabled | ParseFailed | MissingUserID | UnknownUser | VerificationFailed | UserNotFound | NoSecret.

(** What the metadata of a call has under a key, if there is any metadata. *)
Abbreviation metadata := (option (string -> list string)).

Section manager.
Context `{!JWT}.

Definition hmac_key (k : string) (m : SigningMethod) : option string := if is_hmac m then Some k else None.

Definition ValidateToken (am : AuthManager) (now : Z) (tokenString : string) : result auth_error Claims :=
  if bool_decide (Mode (config am) = "none") then Err AuthDisabled else
  match ParseUnverified tokenString with
  | None => Err ParseFailed
  | Some (_, unverified) =>
      if bool_decide (UserID unverified = "") then Err MissingUserID else
      match credentials am !! UserID unverified with
      | None => Err UnknownUser
      | Some cred =>
          match ParseWithClaims now tokenString (hmac_key (secret cred)) with
          | None => Err VerificationFailed
          | Some claims => Ok claims
          end
      end
  end.

Definition expiration (am : AuthManager) : Z :=
  if TokenExpiration (config am) =? 0 then 24 * hour else TokenExpiration (config am).

(** The clock is read three times. *)
Definition token_claims (am : AuthManager) (t1 t2 t3 : Z) (userID username : string) : Claims :=
  mkClaims userID username (mkRegistered (Some (NewNumericDate (t1 + expiration am))) (Some (NewNumericDate t2))
    (Some (NewNumericDate t3)) (cfg_Issuer (config am)) [cfg_Audience (config am)]).

Definition GenerateToken (am : AuthManager) (t1 t2 t3 : Z) (userID username : string) : result auth_error string :=
  if bool_decide (Mode (config am) = "none") then Err AuthDisabled else
  match credentials am !! userID with
  | None => Err UserNotFound
  | Some cred =>
      if bool_decide (secret cred = "") then Err NoSecret else
      Ok (SignedString HS256 (token_claims am t1 t2 t3 userID username) (secret cred))
  end.

Definition ValidateCredentials (am : AuthManager) (apiKey apiSecret : string) : bool * string * string :=
  if bool_decide (apiKey = "") || bool_decide (apiSecret = "") then (false, "", "") else
  match credentials am !! apiKey with
  | None => (false, "", "")
  | Some cred => if bool_decide (secret cred = apiSecret) then (true, role cred, displayName cred) else (false, "", "")
  end.

Definition AddCredentialWithRole (apiKey apiSecret r name : string) (am : AuthManager) : AuthManager :=
  if bool_decide (apiKey = "") || bool_decide (apiSecret = "") then am else
  mkAuth (config am) (<[apiKey := mkCredential apiSecret (root_if_empty r) name]> (credentials am)).
Definition AddCredential (apiKey apiSecret : string) (am : AuthManager) : AuthManager :=
  AddCredentialWithRole apiKey apiSecret "root" "" am.
Definition RemoveCredential (apiKey : string) (am : AuthManager) : AuthManager :=
  mkAuth (config am) (delete apiKey (credentials am)).

Definition HasCredentials (am : AuthManager) : bool := negb (bool_decide (credentials am = ∅)).
Definition GetUserRole (am : AuthManager) (userID : string) : option string := role <$> credentials am !! userID.

Definition ExtractUserFromToken (am : AuthManager) (now : Z) (tok : string) : result auth_error (string * string) :=
  match ValidateToken am now tok with Ok c => Ok (UserID c, Username c) | Err e => Err e end.

(** ** JWTManager *)

Record JWTManager := mkJWT { jm_secret : string; jm_expiration : Z }.

Definition NewJWTManager (s : string) (exp : Z) : result auth_error JWTManager :=
  if bool_decide (s = "") then Err NoSecret else Ok (mkJWT s exp).

Definition jwt_claims (jm : JWTManager) (t1 t2 t3 : Z) (userID : string) : Claims :=
  mkClaims userID userID (mkRegistered (Some (NewNumericDate (t1 + jm_expiration jm))) (Some (NewNumericDate t2))
    (Some (NewNumericDate t3)) "miniodb" ["miniodb-api"]).
Definition JWT_GenerateToken (jm : JWTManager) (t1 t2 t3 : Z) (userID : string) : string :=
  SignedString HS256 (jwt_claims jm t1 t2 t3 userID) (jm_secret jm).
Definition JWT_ValidateToken (jm : JWTManager) (now : Z) (tok : string) : result auth_error string :=
  match ParseWithClaims now tok (hmac_key (jm_secret jm)) with
  | None => Err VerificationFailed
  | Some c => Ok (UserID c)
  end.

(** [extractBearerToken]; folding "bearer" is folding ASCII. *)
Definition extractBearerToken (authHeader : string) : string :=
  match cut " " authHeader with
  | Some (scheme, rest) => if bool_decide (ToLower scheme = "bearer") then TrimSpace rest else ""
  | None => ""
  end.

(** ** The gRPC interceptor *)

Record GRPCInterceptor := mkInterceptor { authManager : AuthManager; skipAuthMethods : list string }.

Definition NewGRPCInterceptor (am : AuthManager) : GRPCInterceptor :=
  mkInterceptor am ["/olap.v1.OlapService/HealthCheck"].
Definition SetSkipAuthMethods (ms : list string) (gi : GRPCInterceptor) : GRPCInterceptor := mkInterceptor (authManager gi) ms.

Fixpoint remove_first (m : string) (l : list string) : list string :=
  match l with [] => [] | x :: l => if bool_decide (x = m) then l else x :: remove_first m l end.
Definition RequireAuthMethod (m : string) (gi : GRPCInterceptor) : GRPCInterceptor :=
  mkInterceptor (authManager gi) (remove_first m (skipAuthMethods gi)).
Definition SkipAuthMethod (m : string) (gi : GRPCInterceptor) : GRPCInterceptor :=
  if existsb (String.eqb m) (skipAuthMethods gi) then gi
  else mkInterceptor (authManager gi) (skipAuthMethods gi ++ [m]).

Definition shouldSkipAuth (gi : GRPCInterceptor) (m : string) : bool := existsb (String.eqb m) (skipAuthMethods gi).

Definition extractTokenFromMetadata (md : metadata) : option string :=
  match md with
  | None => None
  | Some get =>
      match get "authorization" with
      | h :: _ => Some (if HasPrefix h "Bearer " then TrimPrefix h "Bearer " else h)
      | [] => match get "token" with t :: _ => Some t | [] => None end
      end
  end.

(** The context the handler runs in: with the user, or as it was. *)
Inductive handled := Handled (user : option (string * string)) | Unauthenticated.

Definition UnaryServerInterceptor (gi : GRPCInterceptor) (now : Z) (method : string) (md : metadata) : handled :=
  if shouldSkipAuth gi method then Handled None else
  if negb (IsEnabled (authManager gi)) then Handled None else
  match extractTokenFromMetadata md with
  | None => Unauthenticated
  | Some token =>
      match ValidateToken (authManager gi) now token with
      | Err _ => Unauthenticated
      | Ok claims => Handled (Some (UserID claims, Username claims))
      end
  end.
(** The wrapped stream carries the same context. *)
Definition StreamServerInterceptor (gi : GRPCInterceptor) (now : Z) (method : string) (md : metadata) : handled :=
  if shouldSkipAuth gi method then Handled None else
  if negb (IsEnabled (authManager gi)) then Handled None else
  match extractTokenFromMetadata md with
  | None => Unauthenticated
  | Some token =>
      match ValidateToken (authManager gi) now token with
      | Err _ => Unauthenticated
      | Ok claims => Handled (Some (UserID claims, Username claims))
      end
  end.

(** ** The middlewares *)

(** A request's header, query parameter and form field. *)
Record request := mkRequest { Authorization : string; query_token : string; form_token : string }.

Inductive verdict := Next (user : option (string * string)) | Unauthorized (error : string).

Definition extractToken (r : request) : string :=
  if negb (bool_decide (Authorization r = "")) then
    if HasPrefix (Authorization r) "Bearer " then TrimPrefix (Authorization r) "Bearer " else Authorization r
  else if negb (bool_decide (query_token r = "")) then query_token r
  else form_token r.

Definition AuthRequired (am : AuthManager) (now : Z) (r : request) : verdict :=
  if negb (IsEnabled am) then Next None else
  let token := extractToken r in
  if bool_decide (token = "") then Unauthorized "missing_token" else
  match ValidateToken am now token with
  | Err _ => Unauthorized "invalid_token"
  | Ok claims => Next (Some (UserID claims, Username claims))
  end.

Definition OptionalAuth (am : AuthManager) (now : Z) (r : request) : verdict :=
  if negb (IsEnabled am) then Next None else
  let token := extractToken r in
  if bool_decide (token = "") then Next None else
  match ValidateToken am now token with
  | Err _ => Next None
  | Ok claims => Next (Some (UserID claims, Username claims))
  end.
End manager.

(** ** CORS *)

Record CORSConfig := mkCORS {
  AllowedOrigins : list string; AllowMethods : list string; AllowHeaders : list string; AllowCredentials : bool; MaxAge : Z;
}.

(** The host of an origin: the part after the scheme, up to the port. *)
Definition origin_host (origin : string) : string :=
  let host := match cut "://" origin with Some (_, h) => h | None => origin end in
  if Contains host ":" then match Split ":" host with h :: _ => h | [] => host end else host.

Definition origin_matches (origin allowed : string) : bool :=
  bool_decide (allowed = origin) ||
  match cut_prefix "*." allowed with
  | Some domain =>
      HasSuffix origin domain &&
      (bool_decide (origin_host origin = domain) || HasSuffix (origin_host origin) ("." +:+ domain))
  | None => false
  end.

Definition isOriginAllowed (c : CORSConfig) (origin : string) : string :=
  if bool_decide (origin = "") then "" else
  if existsb (origin_matches origin) (AllowedOrigins c) then origin else "".

Definition exposed : string :=
  "Content-Length, Access-Control-Allow-Origin, Access-Control-Allow-Headers, Cache-Control, Content-Language, Content-Type".

(** The headers set, and the status with which the request ends here. *)
Definition CORS (c : CORSConfig) (method origin : string) : list (string * string) * option Z :=
  let allowedOrigin := isOriginAllowed c origin in
  let headers :=
    if bool_decide (allowedOrigin = "") then [] else
    [("Access-Control-Allow-Origin", allowedOrigin)] ++
    (match AllowMethods c with [] => [] | ms => [("Access-Control-Allow-Methods", Join ", " ms)] end) ++
    (match AllowHeaders c with [] => [] | hs => [("Access-Control-Allow-Headers", Join ", " hs)] end) ++
    [("Access-Control-Expose-Headers", exposed)] ++
    (if AllowCredentials c then [("Access-Control-Allow-Credentials", "true")] else []) ++
    (if 0 <? MaxAge c then [("Access-Control-Max-Age", Itoa (MaxAge c))] else []) in
  (headers, if bool_decide (method = "OPTIONS") then Some 204 else None).

(** ** What the managers promise *)

Section laws.
Context `{!JWT, !JWTLaws}.

Definition signed_for (am : AuthManager) (tok : string) (c : Claims) : Prop :=
  exists cred m, credentials am !! UserID c = Some cred /\ ParseUnverified tok = Some (m, c) /\ is_hmac m = true /\
    signature_ok m tok (secret cred) = true.

Lemma validate_iff am now tok c : ValidateToken am now tok = Ok c <->
  Mode (config am) <> "none" /\ UserID c <> "" /\ signed_for am tok c /\ claims_in_time now c = true.
Proof.
  unfold ValidateToken, signed_for. case_bool_decide as Hm; [split; [done | by intros (? & _)]|].
  destruct (ParseUnverified tok) as [[m u]|] eqn:Eu.
  2: { split; [done|]. intros (_ & _ & (cred & m & _ & Hp & _) & _). done. }
  assert (forall cred, ParseWithClaims now tok (hmac_key (secret cred)) = Some c <->
    u = c /\ is_hmac m = true /\ signature_ok m tok (secret cred) = true /\ claims_in_time now c = true) as Hpw.
  { intros cred. rewrite parse_with. unfold hmac_key. split.
    - intros (m' & k & Hp & Hk & Hs & Ht). rewrite Eu in Hp. injection Hp as -> ->. destruct (is_hmac m'); [|done]. by injection Hk as <-.
    - intros (-> & Hh & Hs & Ht). exists m, (secret cred). by rewrite Hh. }
  case_bool_decide as Hu.
  { split; [done|]. intros (_ & Hn & (cred & m' & _ & Hp & _) & _). congruence. }
  destruct (credentials am !! UserID u) as [cred|] eqn:Ec.
  2: { split; [done|]. intros (_ & _ & (cred & m' & Hc & Hp & _) & _). congruence. }
  split.
  - destruct (ParseWithClaims _ _ _) as [c'|] eqn:Ep; [|done]. intros [= ->]. apply Hpw in Ep as (-> & Hh & Hs & Ht).
    split_and!; try done. by exists cred, m.
  - intros (_ & _ & (cred' & m' & Hc & Hp & Hh & Hs) & Ht). injection Hp as -> ->. rewrite Ec in Hc. injection Hc as ->.
    assert (ParseWithClaims now tok (hmac_key (secret cred')) = Some c) as -> by (by apply Hpw). done.
Qed.

Lemma numeric_date_idem t : NewNumericDate (NewNumericDate t) = NewNumericDate t.
Proof. unfold NewNumericDate. by rewrite Z.div_mul by done. Qed.

Lemma numeric_date_le t : NewNumericDate t <= t.
Proof. unfold NewNumericDate. pose proof (Z.mul_div_le t second). unfold second in *. lia. Qed.

Lemma token_claims_whole am t1 t2 t3 u n : whole_dates (token_claims am t1 t2 t3 u n).
Proof. repeat split; intros t [= <-]; by rewrite numeric_date_idem. Qed.

Lemma generated_signed am t1 t2 t3 u n tok : u <> "" -> GenerateToken am t1 t2 t3 u n = Ok tok ->
  Mode (config am) <> "none" /\ signed_for am tok (token_claims am t1 t2 t3 u n) /\
  exists k, tok = SignedString HS256 (token_claims am t1 t2 t3 u n) k.
Proof.
  intros Hu. unfold GenerateToken. case_bool_decide; [done|]. destruct (credentials am !! u) as [cred|] eqn:Ec; [|done].
  case_bool_decide; [done|]. intros [= <-]. split; [done|]. split; [|by eexists].
  exists cred, HS256. split_and!; [done | | done | apply signature_signed]. apply parse_signed, token_claims_whole.
Qed.

(** C22: whose token is accepted. [ValidateToken] accepts a token with the
    claims [c] exactly when authentication is not off, the claims name a user
    with credentials, the token's method is an HMAC, its signature is the one
    that user's secret gives, and the time is before its expiry and not before
    its start. *)
Theorem token_accepted_iff am now tok c :
  ValidateToken am now tok = Ok c <->
  Mode (config am) <> "none" /\ UserID c <> "" /\
  (exists cred m, credentials am !! UserID c = Some cred /\ ParseUnverified tok = Some (m, c) /\ is_hmac m = true /\
     signature_ok m tok (secret cred) = true) /\
  (forall t, ExpiresAt (Registered c) = Some t -> now < t) /\ (forall t, NotBefore (Registered c) = Some t -> t <= now).
Proof.
  rewrite validate_iff. unfold signed_for. enough (claims_in_time now c = true <->
    (forall t, ExpiresAt (Registered c) = Some t -> now < t) /\ (forall t, NotBefore (Registered c) = Some t -> t <= now)) as Hin.
  { rewrite Hin. tauto. }
  unfold claims_in_time. rewrite andb_true_iff. f_equiv.
  - destruct (ExpiresAt (Registered c)) as [t|]; [rewrite Z.ltb_lt; naive_solver | naive_solver].
  - destruct (NotBefore (Registered c)) as [t|]; [rewrite Z.leb_le; naive_solver | naive_solver].
Qed.

(** The life of a token. A token the manager made is accepted, with its
    user, from the second in which it was made until its expiry, in whole
    seconds, and at no later time; it is refused at once when the user's
    credentials are removed. *)
Theorem token_life am t1 t2 t3 u n tok :
  u <> "" -> GenerateToken am t1 t2 t3 u n = Ok tok ->
  (forall now, ValidateToken am now tok = Ok (token_claims am t1 t2 t3 u n) <->
     NewNumericDate t3 <= now < NewNumericDate (t1 + expiration am)) /\
  (forall now c, ValidateToken am now tok = Ok c -> c = token_claims am t1 t2 t3 u n) /\
  (forall now c, ValidateToken (RemoveCredential u am) now tok <> Ok c).
Proof.
  intros Hu Hg. destruct (generated_signed _ _ _ _ _ _ _ Hu Hg) as (Hm & Hs & k & ->).
  pose proof (parse_signed HS256 _ k (token_claims_whole am t1 t2 t3 u n)) as Hp.
  assert (forall am' now c, ValidateToken am' now (SignedString HS256 (token_claims am t1 t2 t3 u n) k) = Ok c ->
    c = token_claims am t1 t2 t3 u n) as Huniq.
  { intros am' now c (_ & _ & (cred & m & _ & Hp' & _) & _)%validate_iff. congruence. }
  split_and!.
  - intros now. rewrite validate_iff. unfold claims_in_time. cbn [Registered ExpiresAt NotBefore token_claims].
    rewrite andb_true_iff, Z.ltb_lt, Z.leb_le. split; [intros (_ & _ & _ & ? & ?); lia | intros ?; split_and!; try done; lia].
  - intros now c. apply Huniq.
  - intros now c Hv. pose proof (Huniq _ _ _ Hv) as ->. apply validate_iff in Hv as (_ & _ & (cred & m & Hc & _) & _).
    cbn in Hc. by rewrite lookup_delete_eq in Hc.
Qed.

(** No call without a user. With authentication on, the interceptors run
    the handler of a method that is not exempt only for a token the manager
    accepts, which the metadata carries, and in a context with that token's
    user; both interceptors decide alike. *)
Theorem interceptor_guards gi now method md u :
  IsEnabled (authManager gi) = true -> method ∉ skipAuthMethods gi ->
  UnaryServerInterceptor gi now method md = StreamServerInterceptor gi now method md /\
  (UnaryServerInterceptor gi now method md = Handled u <->
   exists tok c, extractTokenFromMetadata md = Some tok /\ signed_for (authManager gi) tok c /\ UserID c <> "" /\
     claims_in_time now c = true /\ u = Some (UserID c, Username c)).
Proof.
  intros He Hs. split; [done|]. unfold UnaryServerInterceptor, shouldSkipAuth.
  assert (existsb (String.eqb method) (skipAuthMethods gi) = false) as ->.
  { apply not_true_is_false. rewrite existsb_exists. intros (x & Hx & E%String.eqb_eq). subst x. by apply Hs, list_elem_of_In. }
  rewrite He. cbn [negb]. assert (Mode (config (authManager gi)) <> "none") as Hm.
  { unfold IsEnabled in He. apply bool_decide_eq_true in He. by rewrite He. }
  destruct (extractTokenFromMetadata md) as [tok|]; [|split; [done | by intros (? & ? & ? & _)]].
  destruct (ValidateToken (authManager gi) now tok) as [c|e] eqn:Ev.
  - apply validate_iff in Ev as (_ & Hu & Hsg & Ht). split.
    + intros [= <-]. by exists tok, c.
    + intros (tok' & c' & [= <-] & (cred & m & _ & Hp & _) & _ & _ & ->). destruct Hsg as (cred' & m' & _ & Hp' & _). congruence.
  - split; [done|]. intros (tok' & c & [= <-] & Hsg & Hu & Ht & _).
    assert (ValidateToken (authManager gi) now tok = Ok c) as Hv by (by apply validate_iff). congruence.
Qed.
End laws.

Lemma isOriginAllowed_cases c origin : isOriginAllowed c origin = "" \/
  isOriginAllowed c origin = origin /\ origin <> "" /\ existsb (origin_matches origin) (AllowedOrigins c) = true.
Proof. unfold isOriginAllowed. case_bool_decide; [by left|]. destruct (existsb _ _); auto. Qed.

(** Which origins may read. A cross-origin answer is allowed, for exactly
    the origin asked, only when the list has the origin itself or a pattern
    [*.d] such that the origin's host is [d] or ends in a dot and [d]; a
    request of no listed origin gets no header at all. *)
Theorem cors_only_listed c method origin :
  let headers := (CORS c method origin).1 in
  (forall o, ("Access-Control-Allow-Origin", o) ∈ headers -> o = origin /\ origin <> "" /\
     (origin ∈ AllowedOrigins c \/
      exists d, ("*." +:+ d) ∈ AllowedOrigins c /\
        (origin_host origin = d \/ HasSuffix (origin_host origin) ("." +:+ d) = true))) /\
  ((exists o, ("Access-Control-Allow-Origin", o) ∈ headers) \/ headers = []).
Proof.
  unfold CORS. cbn [fst]. destruct (isOriginAllowed_cases c origin) as [->|(-> & Ho & Em)].
  { split; [intros o H; by apply not_elem_of_nil in H | by right]. }
  rewrite (bool_decide_eq_false_2 (origin = "")) by done. split; [|left; exists origin; apply list_elem_of_here].
  intros o H. assert (o = origin) as ->.
  { destruct (AllowMethods c), (AllowHeaders c), (AllowCredentials c), (0 <? MaxAge c); cbn [app] in H;
      repeat (apply elem_of_cons in H as [H|H]; [by simplify_eq|]); by apply not_elem_of_nil in H. }
  split; [done|]. split; [done|]. apply existsb_exists in Em as (a & Ha%list_elem_of_In & Hm).
  unfold origin_matches in Hm. apply orb_true_iff in Hm as [->%bool_decide_eq_true|Hm]; [by left|right].
  destruct (cut_prefix "*." a) as [d|] eqn:Ed; [|done]. exists d. apply cut_prefix_Some in Ed as ->. split; [done|].
  apply andb_true_iff in Hm as [_ Hm]. apply orb_true_iff in Hm as [Hm%bool_decide_eq_true|Hm]; auto.
Qed.
