(* ===== verification/Tokens.v ===== *)
(** * Refresh tokens and revocation (internal/security/token_manager.go, and
    the token handlers of internal/transport/rest and internal/transport/grpc)

    [TokenManager] keeps refresh tokens and the hashes of revoked access tokens
    in Redis or, without Redis, in maps of its own; revocations are also kept in
    a bucket and loaded at the start. The calls of Redis and of the object
    server take their outcomes from a script; a call whose reply is lost has
    been carried out. *)

From S2P Require Import Prelude GoStrings GoTime WalCodec ConsistentHash GoCrypto FieldMapping RedisStore Auth.
From Stdlib Require Import Ascii.
#[local] Open Scope Z_scope.

Definition tokenBlacklistKeyPrefix : string := "token:blacklist:".
Definition refreshTokenKeyPrefix : string := "token:refresh:".
Definition tokenBlacklistTTL : Z := 24 * hour.
Definition refreshTokenTTL : Z := 7 * 24 * hour.
Definition tokenBlacklistPrefix : string := "blacklist/".

Record blacklistedToken := mkBlacklisted { bl_Token : string; RevokedAt : Z; bl_ExpiresAt : Z }.

(** encoding/json, for instants of four-digit years. *)
Class BlacklistJSON := {
  marshal_token : blacklistedToken -> string;
  unmarshal_token : string -> option blacklistedToken;
  unmarshal_marshal_token b : unmarshal_token (marshal_token b) = Some b;
}.

(** ** The state *)

Record TokenManager := mkTokens {
  useRedis : bool; useMinio : bool; localBlacklist : gmap string Z; localRefreshMap : gmap string string;
}.

(** Redis keys with their deadlines, the bucket if it exists, and the script. *)
Record world := mkWorld {
  tm : TokenManager; redis : gmap string (string * Z); bucket : option (gmap string string); net : list answer;
}.

Definition set_tm (m : TokenManager) (w : world) : world := mkWorld m (redis w) (bucket w) (net w).
Definition set_blacklist (b : gmap string Z) (w : world) : world :=
  set_tm (mkTokens (useRedis (tm w)) (useMinio (tm w)) b (localRefreshMap (tm w))) w.
Definition set_refresh (r : gmap string string) (w : world) : world :=
  set_tm (mkTokens (useRedis (tm w)) (useMinio (tm w)) (localBlacklist (tm w)) r) w.

Inductive token_error :=
  | NoMinioClient | BucketCheckFailed | BucketCreateFailed | PersistFailed | ListFailed | GetFailed
  | RefreshNotFound | RedisFailed | RandFailed.

Definition remote {A} (e : token_error) (f : world -> result token_error A * world) : M world token_error A := fun w =>
  let '(a, s) := next_answer (net w) in
  let w := mkWorld (tm w) (redis w) (bucket w) s in
  match a with
  | Answered => f w
  | ReplyLost => (Err e, (f w).2)
  | NotSent => (Err e, w)
  end.

Definition millisecond : Z := 1000000.
(** go-redis sends whole milliseconds, and at least one. *)
Definition redis_ttl (ttl : Z) : Z := Z.max millisecond (Z.quot ttl millisecond * millisecond).

Definition put_redis (r : gmap string (string * Z)) (w : world) : world := mkWorld (tm w) r (bucket w) (net w).
Definition put_bucket (b : option (gmap string string)) (w : world) : world := mkWorld (tm w) (redis w) b (net w).

Definition live (now : Z) (w : world) (key : string) : option string :=
  '(v, d) ← redis w !! key; if now <? d then Some v else None.

Definition redis_Set (now : Z) (key v : string) (ttl : Z) : M world token_error unit :=
  remote RedisFailed (fun w => (Ok tt, put_redis (<[key := (v, now + redis_ttl ttl)]> (redis w)) w)).
Definition redis_Get (now : Z) (key : string) : M world token_error (option string) :=
  remote RedisFailed (fun w => (Ok (live now w key), w)).
Definition redis_Exists (now : Z) (key : string) : M world token_error bool :=
  remote RedisFailed (fun w => (Ok (bool_decide (is_Some (live now w key))), w)).
Definition redis_Del (key : string) : M world token_error unit :=
  remote RedisFailed (fun w => (Ok tt, put_redis (delete key (redis w)) w)).

(** ** What handlers take and give *)

Record token_reply := mkReply { access_token : string; refresh_token : string; expires_in : Z; token_type : string }.

Inductive reply (A : Type) := Done (a : A) | Refused (status : Z) (message : string).
Arguments Done {A} a. Arguments Refused {A} status message.

(** The arguments of a handler that come from outside: the clock and the
    random source. *)
Record env := mkEnv { env_now : Z; env_rand : option (list Z) }.

(** ** The bucket *)

Definition hashToken (token : string) : string := hex_encode (Sha256.Sum256 (string_bytes token)).

Definition blacklist_object (tokenHash : string) : string := tokenBlacklistPrefix +:+ tokenHash +:+ ".json".

Definition ensureBucketExists : M world token_error unit :=
  m ← asks (fun w => useMinio (tm w));
  if negb m then throw NoMinioClient else
  ex ← remote BucketCheckFailed (fun w => (Ok (bool_decide (is_Some (bucket w))), w));
  if ex : bool then mret tt else
  remote BucketCreateFailed (fun w => (Ok tt, put_bucket (Some (default ∅ (bucket w))) w)).

Section json.
Context `{!BlacklistJSON}.

Definition persistToMinIO (tokenHash : string) (revokedAt expiresAt : Z) : M world token_error unit :=
  m ← asks (fun w => useMinio (tm w));
  if negb m then mret tt else
  ensureBucketExists;;
  remote PersistFailed (fun w =>
    match bucket w with
    | Some o => (Ok tt, put_bucket (Some (<[blacklist_object tokenHash := marshal_token (mkBlacklisted "" revokedAt expiresAt)]> o)) w)
    | None => (Err PersistFailed, w)
    end).

(** What the loading does with the contents of an object; [now] was read at
    its start, [later] when the entry goes to Redis. *)
Definition load_entry (now later : Z) (key data : string) : M world token_error unit :=
  match unmarshal_token data with
  | None => mret tt
  | Some entry =>
      if bl_ExpiresAt entry <? now then mret tt else
      let tokenHash := TrimSuffix (TrimPrefix key tokenBlacklistPrefix) ".json" in
      modifies (fun w => set_blacklist (<[tokenHash := bl_ExpiresAt entry]> (localBlacklist (tm w))) w);;
      r ← asks (fun w => useRedis (tm w));
      if (r : bool) && (0 <? bl_ExpiresAt entry - later) then
        _ ← attempt (redis_Set later (tokenBlacklistKeyPrefix +:+ tokenHash) "revoked" (bl_ExpiresAt entry - later)); mret tt
      else mret tt
  end.

Definition GetBlacklistObject (key : string) : M world token_error string :=
  remote GetFailed (fun w => (match o ← bucket w; o !! key with Some d => Ok d | None => Err GetFailed end, w)).

Definition load_object (now later : Z) (key : string) : M world token_error unit :=
  if negb (HasSuffix key ".json") then mret tt else
  data ← attempt (GetBlacklistObject key);
  match data with Err _ => mret tt | Ok d => load_entry now later key d end.

Definition list_blacklist : M world token_error (list string) :=
  remote ListFailed (fun w => (Ok (List.filter (String.prefix tokenBlacklistPrefix) (map_to_list (default ∅ (bucket w))).*1), w)).

Definition loadBlacklistFromMinIO (now later : Z) : M world token_error unit :=
  m ← asks (fun w => useMinio (tm w));
  if negb m then mret tt else
  r ← attempt ensureBucketExists;
  match r with
  | Err _ => mret tt
  | Ok _ =>
      keys ← attempt list_blacklist;
      match keys with Err _ => mret tt | Ok ks => each (load_object now later) ks end
  end.

(** A manager over the servers; it loads on its own time. *)
Definition NewTokenManager (withRedis withMinio : bool) (w : world) : world := set_tm (mkTokens withRedis withMinio ∅ ∅) w.

(** ** Refresh tokens *)

(** [rand.Read]: 32 bytes, or an error. *)
Definition GenerateRefreshToken (rand : option (list Z)) : result token_error string :=
  match rand with Some bs => Ok (hex_encode bs) | None => Err RandFailed end.

Definition StoreRefreshToken (now : Z) (refreshToken userID : string) : M world token_error unit :=
  r ← asks (fun w => useRedis (tm w));
  if r : bool then redis_Set now (refreshTokenKeyPrefix +:+ refreshToken) userID refreshTokenTTL
  else modifies (fun w => set_refresh (<[refreshToken := userID]> (localRefreshMap (tm w))) w).

Definition ValidateRefreshToken (now : Z) (refreshToken : string) : M world token_error string :=
  r ← asks (fun w => useRedis (tm w));
  if r : bool then
    u ← redis_Get now (refreshTokenKeyPrefix +:+ refreshToken);
    match u with None => throw RefreshNotFound | Some u => mret u end
  else
    u ← asks (fun w => localRefreshMap (tm w) !! refreshToken);
    match u with None => throw RefreshNotFound | Some u => mret u end.

Definition RevokeRefreshToken (refreshToken : string) : M world token_error unit :=
  r ← asks (fun w => useRedis (tm w));
  if r : bool then redis_Del (refreshTokenKeyPrefix +:+ refreshToken)
  else modifies (fun w => set_refresh (delete refreshToken (localRefreshMap (tm w))) w).

(** ** Revocation *)

Definition RevokeAccessToken (now : Z) (token : string) : M world token_error unit :=
  let tokenHash := hashToken token in
  let expiresAt := now + tokenBlacklistTTL in
  _ ← attempt (persistToMinIO tokenHash now expiresAt);
  r ← asks (fun w => useRedis (tm w));
  if r : bool then redis_Set now (tokenBlacklistKeyPrefix +:+ tokenHash) "revoked" tokenBlacklistTTL
  else modifies (fun w => set_blacklist (<[tokenHash := expiresAt]> (localBlacklist (tm w))) w).

Definition IsTokenRevoked (now : Z) (token : string) : M world token_error bool :=
  r ← asks (fun w => useRedis (tm w));
  if r : bool then
    x ← attempt (redis_Exists now (tokenBlacklistKeyPrefix +:+ hashToken token));
    mret (match x with Ok true => true | _ => false end)
  else asks (fun w => match localBlacklist (tm w) !! hashToken token with Some expiry => now <? expiry | None => false end).

(** One tick of [cleanupLocalBlacklist]. *)
Definition cleanup_tick (now : Z) : M world token_error unit :=
  modifies (fun w => set_blacklist (base.filter (fun p => now <= p.2) (localBlacklist (tm w))) w).

(** ** The handlers *)

Context `{!JWT}.

Definition issue (am : AuthManager) (e : env) (user : string) : result auth_error string :=
  GenerateToken am (env_now e) (env_now e) (env_now e) user user.

(** [None]: a body that does not bind, which an empty field does not either. *)
Definition getToken (am : AuthManager) (e : env) (body : option (string * string)) : M world token_error (reply token_reply) :=
  match body with
  | None => mret (Refused 400 "bind")
  | Some (apiKey, apiSecret) =>
      if bool_decide (apiKey = "") || bool_decide (apiSecret = "") then mret (Refused 400 "API key and secret are required") else
      if negb (ValidateCredentials am apiKey apiSecret).1.1 then mret (Refused 401 "Invalid credentials") else
      match issue am e apiKey with
      | Err _ => mret (Refused 401 "Failed to generate token")
      | Ok access =>
          match GenerateRefreshToken (env_rand e) with
          | Err _ => mret (Refused 500 "Failed to generate refresh token")
          | Ok refresh =>
              _ ← attempt (E1 := token_error) (StoreRefreshToken (env_now e) refresh apiKey);
              mret (Done (mkReply access refresh 3600 "Bearer"))
          end
      end
  end.

Definition refreshToken (am : AuthManager) (e : env) (body : option string) : M world token_error (reply token_reply) :=
  match body with
  | None => mret (Refused 400 "bind")
  | Some token =>
      if bool_decide (token = "") then mret (Refused 400 "Refresh token is required") else
      u ← attempt (E1 := token_error) (ValidateRefreshToken (env_now e) token);
      match u with
      | Err _ => mret (Refused 401 "Invalid or expired refresh token")
      | Ok userID =>
          _ ← attempt (E1 := token_error) (RevokeRefreshToken token);
          match issue am e userID with
          | Err _ => mret (Refused 500 "Failed to generate new token")
          | Ok access =>
              match GenerateRefreshToken (env_rand e) with
              | Err _ => mret (Refused 500 "Failed to generate refresh token")
              | Ok refresh =>
                  _ ← attempt (E1 := token_error) (StoreRefreshToken (env_now e) refresh userID);
                  mret (Done (mkReply access refresh 3600 "Bearer"))
              end
          end
      end
  end.

Definition revokeToken (now : Z) (body : option string) : M world token_error (reply unit) :=
  match body with
  | None => mret (Refused 400 "bind")
  | Some token =>
      if bool_decide (token = "") then mret (Refused 400 "Token is required") else
      _ ← attempt (E1 := token_error) (RevokeAccessToken now token); mret (Done tt)
  end.

Definition jwtAuthMiddleware (am : AuthManager) (now : Z) (authHeader : string) : M world token_error verdict :=
  if negb (IsEnabled am) then mret (Next None) else
  if bool_decide (authHeader = "") then mret (Unauthorized "Authorization header required") else
  if negb (HasPrefix authHeader "Bearer ") then mret (Unauthorized "Invalid authorization header format") else
  let token := TrimPrefix authHeader "Bearer " in
  if bool_decide (token = "") then mret (Unauthorized "Token is required") else
  revoked ← IsTokenRevoked now token;
  if revoked : bool then mret (Unauthorized "Token has been revoked") else
  match ValidateToken am now token with
  | Err _ => mret (Unauthorized "Invalid token")
  | Ok claims => mret (Next (Some (UserID claims, Username claims)))
  end.

(** The gRPC handlers. *)
Definition GetToken (am : AuthManager) (e : env) (apiKey apiSecret : string) : M world token_error (reply token_reply) :=
  if bool_decide (apiKey = "") || bool_decide (apiSecret = "") then mret (Refused 0 "api key and secret are required") else
  if negb (ValidateCredentials am apiKey apiSecret).1.1 then mret (Refused 0 "invalid credentials") else
  match issue am e apiKey with
  | Err _ => mret (Refused 0 "failed to generate token")
  | Ok access =>
      match GenerateRefreshToken (env_rand e) with
      | Err _ => mret (Refused 0 "failed to generate refresh token")
      | Ok refresh =>
          _ ← attempt (E1 := token_error) (StoreRefreshToken (env_now e) refresh apiKey);
          mret (Done (mkReply access refresh 3600 "Bearer"))
      end
  end.

Definition RefreshToken (am : AuthManager) (e : env) (token : string) : M world token_error (reply token_reply) :=
  if bool_decide (token = "") then mret (Refused 0 "refresh token is required") else
  u ← attempt (E1 := token_error) (ValidateRefreshToken (env_now e) token);
  match u with
  | Err _ => mret (Refused 0 "invalid refresh token")
  | Ok userID =>
      match issue am e userID with
      | Err _ => mret (Refused 0 "failed to generate access token")
      | Ok access =>
          match GenerateRefreshToken (env_rand e) with
          | Err _ => mret (Refused 0 "failed to generate refresh token")
          | Ok refresh =>
              _ ← attempt (E1 := token_error) (RevokeRefreshToken token);
              s ← attempt (E1 := token_error) (StoreRefreshToken (env_now e) refresh userID);
              match s with
              | Err _ => mret (Refused 0 "failed to store refresh token")
              | Ok _ => mret (Done (mkReply access refresh 3600 "Bearer"))
              end
          end
      end
  end.

(** It only writes to the log. *)
Definition RevokeToken (token : string) : M world token_error (reply unit) :=
  if bool_decide (token = "") then mret (Refused 0 "token is required") else mret (Done tt).
End json.

(** The managers the servers make. *)
Definition rest_auth (pairs : list APIKeyPair) : AuthManager :=
  NewAuthManager (Some (mkAuthConfig "token" (24 * hour) "miniodb" "miniodb-api" pairs)).
Definition grpc_auth (pairs : list (string * string)) : AuthManager :=
  NewAuthManager (Some (mkAuthConfig "token" (24 * hour) "miniodb" "miniodb-grpc"
    ((fun '(k, s) => mkKeyPair k s "" "") <$> pairs))).

(** ** Revoked tokens stay out *)

(** What may happen to the manager of a running node, at a time. The loading
    of an object is its own step, with the data it read at some time before. *)
Inductive op :=
  | OpRevoke (token : string)
  | OpTick
  | OpLoad (now later : Z) (key data : string)
  | OpStoreRefresh (token user : string)
  | OpRevokeRefresh (token : string).

Section runs.
Context `{!BlacklistJSON}.

Definition run_op (t : Z) (o : op) (w : world) : world :=
  match o with
  | OpRevoke token => (RevokeAccessToken t token w).2
  | OpTick => (cleanup_tick t w).2
  | OpLoad now later key data => (load_entry now later key data w).2
  | OpStoreRefresh token user => (StoreRefreshToken t token user w).2
  | OpRevokeRefresh token => (RevokeRefreshToken token w).2
  end.
Fixpoint run (ops : list (Z * op)) (w : world) : world :=
  match ops with [] => w | (t, o) :: ops => run ops (run_op t o w) end.

(** Every entry loaded for a token outlasts [exp]. *)
Definition loads_outlast (h : string) (exp : Z) (o : op) : Prop :=
  match o with
  | OpLoad _ _ key data => TrimSuffix (TrimPrefix key tokenBlacklistPrefix) ".json" = h ->
      forall e, unmarshal_token data = Some e -> exp <= bl_ExpiresAt e
  | _ => True
  end.

(** The calls of the object server leave the manager alone. *)
Lemma remote_tm {A} e (f : world -> result token_error A * world) w :
  (forall w, tm (f w).2 = tm w) -> tm (remote e f w).2 = tm w.
Proof. intros Hf. unfold remote. destruct (next_answer (net w)) as [[] s]; cbn; by rewrite ?Hf. Qed.

Definition keeps_tm {Er A} (m : M world Er A) : Prop := keeps (fun w w' => tm w' = tm w) m.

#[local] Instance same_tm_preorder : PreOrder (fun w w' : world => tm w' = tm w).
Proof. split; [done | intros ??? H1 H2; congruence]. Qed.

Lemma ensure_tm : keeps_tm ensureBucketExists.
Proof.
  apply (keeps_bind _); [apply (keeps_asks _)|]. intros m. case_match; [apply (keeps_throw _)|].
  apply (keeps_bind _); [intros w; by apply remote_tm|]. intros []; [apply (keeps_ret _)|].
  intros w. by apply remote_tm.
Qed.

Lemma persist_tm h a b : keeps_tm (persistToMinIO h a b).
Proof.
  apply (keeps_bind _); [apply (keeps_asks _)|]. intros m. case_match; [apply (keeps_ret _)|].
  apply (keeps_bind _); [apply ensure_tm|]. intros _ w. apply remote_tm. intros w'. by destruct (bucket w').
Qed.

Lemma revoke_local t tok w : useRedis (tm w) = false ->
  (RevokeAccessToken t tok w).1 = Ok tt /\
  tm (RevokeAccessToken t tok w).2 =
    mkTokens false (useMinio (tm w)) (<[hashToken tok := t + tokenBlacklistTTL]> (localBlacklist (tm w))) (localRefreshMap (tm w)).
Proof.
  intros Hr. unfold RevokeAccessToken, mbind, M_bind, attempt, asks, modifies.
  pose proof (persist_tm (hashToken tok) t (t + tokenBlacklistTTL) w) as Hp.
  destruct (persistToMinIO _ _ _ w) as [r w1]. cbn in Hp |- *. rewrite Hp, Hr. cbn. by rewrite Hp, Hr.
Qed.

(** The token is on the local list at least until [exp]. *)
Definition listed (h : string) (exp : Z) (w : world) : Prop :=
  useRedis (tm w) = false /\ exists x, localBlacklist (tm w) !! h = Some x /\ exp <= x.

Lemma run_op_listed h exp t o w : listed h exp w -> t <= exp -> exp <= t + tokenBlacklistTTL -> loads_outlast h exp o ->
  listed h exp (run_op t o w).
Proof.
  intros (Hr & x & Hx & Hle) Ht Hexp Ho. destruct o as [token| |now later key data|token user|token]; cbn [run_op].
  - destruct (revoke_local t token w Hr) as [_ Htm]. split; rewrite Htm; [done|]. cbn.
    destruct (decide (hashToken token = h)) as [<-|Hne].
    + rewrite lookup_insert_eq. by eexists.
    + rewrite lookup_insert_ne by done. eauto.
  - unfold cleanup_tick, modifies. cbn. split; [done|]. exists x. split; [|done].
    apply map_lookup_filter_Some. split; [done|]. cbn. lia.
  - unfold load_entry. cbn in Ho. destruct (unmarshal_token data) as [e|]; [|split; eauto].
    destruct (bl_ExpiresAt e <? now); [split; eauto|].
    unfold mbind, M_bind, modifies, asks. cbn -[TrimSuffix TrimPrefix]. rewrite Hr. cbn -[TrimSuffix TrimPrefix]. split; [done|].
    destruct (decide (TrimSuffix (TrimPrefix key tokenBlacklistPrefix) ".json" = h)) as [E|Hne].
    + exists (bl_ExpiresAt e). cbn [set_blacklist set_tm tm localBlacklist]. rewrite E, lookup_insert_eq. eauto.
    + exists x. cbn [set_blacklist set_tm tm localBlacklist]. by rewrite lookup_insert_ne.
  - unfold StoreRefreshToken, mbind, M_bind, asks, modifies. rewrite Hr. split; eauto.
  - unfold RevokeRefreshToken, mbind, M_bind, asks, modifies. rewrite Hr. split; eauto.
Qed.

Lemma run_listed h exp t0 t ops w : exp <= t0 + tokenBlacklistTTL -> t < exp ->
  Forall (fun p => t0 <= p.1 <= t /\ loads_outlast h exp p.2) ops -> listed h exp w -> listed h exp (run ops w).
Proof.
  intros Hexp Ht Hops. revert w. induction Hops as [|[s o] ops [Hs Ho] Hops IH]; intros w Hw; [done|].
  cbn in Hs, Ho. cbn [run]. apply IH, run_op_listed; (done || lia).
Qed.

Lemma revoked_listed t0 tok exp w : useRedis (tm w) = false -> exp <= t0 + tokenBlacklistTTL ->
  listed (hashToken tok) exp (RevokeAccessToken t0 tok w).2.
Proof.
  intros Hr Hexp. destruct (revoke_local t0 tok w Hr) as [_ Htm]. split; rewrite Htm; [done|].
  cbn. rewrite lookup_insert_eq. by eexists.
Qed.

Lemma listed_revoked t tok exp w : listed (hashToken tok) exp w -> t < exp -> IsTokenRevoked t tok w = (Ok true, w).
Proof.
  intros (Hr & x & Hx & Hle) Ht. unfold IsTokenRevoked, mbind, M_bind, asks. rewrite Hr, Hx.
  by rewrite (proj2 (Z.ltb_lt _ _)) by lia.
Qed.

Lemma is_revoked_answers t tok w : exists b w', IsTokenRevoked t tok w = (Ok b, w').
Proof.
  unfold IsTokenRevoked, mbind, M_bind, asks, attempt. destruct (useRedis (tm w)); [|by eauto].
  destruct (redis_Exists _ _ w) as [[[]|] ?]; by eauto.
Qed.

Context `{!JWT, !JWTLaws}.

(** The middleware on a bearer token: the list first, then the signature. *)
Lemma middleware_bearer am t tok w : IsEnabled am = true -> tok <> "" ->
  jwtAuthMiddleware am t ("Bearer " +:+ tok) w =
  match IsTokenRevoked t tok w with
  | (Ok true, w) => (Ok (Unauthorized "Token has been revoked"), w)
  | (Ok false, w) =>
      (Ok (match ValidateToken am t tok with Ok c => Next (Some (UserID c, Username c)) | Err _ => Unauthorized "Invalid token" end), w)
  | (Err e, w) => (Err e, w)
  end.
Proof.
  intros He Hn. unfold jwtAuthMiddleware. rewrite He. cbn [negb].
  rewrite (bool_decide_eq_false_2 ("Bearer " +:+ tok = "")) by done.
  assert (HasPrefix ("Bearer " +:+ tok) "Bearer " = true) as -> by (by destruct tok).
  unfold TrimPrefix. rewrite cut_prefix_of_app. cbn [negb]. rewrite bool_decide_eq_false_2 by done.
  unfold mbind, M_bind. destruct (IsTokenRevoked t tok w) as [[[]|] ?]; [done| |done]. by destruct (ValidateToken am t tok).
Qed.

(** C23: a revoked token is refused for good. On a node without Redis, as the
    servers make it, once a token has been revoked at [t0] that expires within
    the life of an entry, the REST middleware refuses it at every later time,
    whatever is revoked, stored, loaded or cleaned up meanwhile, as long as the
    loaded entries of this token outlast it, as those do that were written
    after it was issued. *)
Theorem revoked_token_refused am w0 t0 tok m c exp ops t :
  useRedis (tm w0) = false -> IsEnabled am = true -> tok <> "" ->
  ParseUnverified tok = Some (m, c) -> ExpiresAt (Registered c) = Some exp -> exp <= t0 + tokenBlacklistTTL ->
  Forall (fun p => t0 <= p.1 <= t /\ loads_outlast (hashToken tok) exp p.2) ops ->
  let w1 := (RevokeAccessToken t0 tok w0).2 in
  (RevokeAccessToken t0 tok w0).1 = Ok tt /\
  exists error, (jwtAuthMiddleware am t ("Bearer " +:+ tok) (run ops w1)).1 = Ok (Unauthorized error).
Proof.
  intros Hr He Hn Hp Hx Hexp Hops w1. split; [by apply revoke_local|]. rewrite middleware_bearer by done.
  destruct (Z.lt_ge_cases t exp) as [Hlt|Hge].
  - rewrite (listed_revoked t tok exp); [by eexists | | done]. eapply run_listed; [done..|]. by apply revoked_listed.
  - destruct (is_revoked_answers t tok (run ops w1)) as ([] & w2 & ->); [by eexists|].
    destruct (ValidateToken am t tok) as [c'|] eqn:Ev; [|by eexists].
    apply validate_iff in Ev as (_ & _ & (cred & m' & _ & Hp' & _) & Ht). rewrite Hp in Hp'. injection Hp' as <- <-.
    unfold claims_in_time in Ht. rewrite Hx in Ht. b2p. lia.
Qed.
End runs.
