(* ===== verification/TokenTheorems.v ===== *)
(** * Tokens: restarts, rotation and runs

    Revocations survive a restart through the bucket; a refresh token is good
    for one exchange. Then runs on a symbolic format of tokens. *)

From S2P Require Import Prelude GoStrings GoTime WalCodec ConsistentHash GoCrypto FieldMapping RedisStore Auth Tokens.
From Stdlib Require Import Ascii.
#[local] Open Scope Z_scope.

Section restart.
Context `{!BlacklistJSON}.

(** What loading makes of an object: the hash and the time it puts on the list. *)
Definition entry_of (now : Z) (o : gmap string string) (k : string) : option (string * Z) :=
  if negb (HasSuffix k ".json") then None else
  d ← o !! k; e ← unmarshal_token d;
  if bl_ExpiresAt e <? now then None else Some (TrimSuffix (TrimPrefix k tokenBlacklistPrefix) ".json", bl_ExpiresAt e).

Definition add_entry (l : gmap string Z) (e : option (string * Z)) : gmap string Z :=
  match e with Some (h, x) => <[h := x]> l | None => l end.

(** The node without Redis whose calls are all answered. *)
Definition answered (w : world) (o : gmap string string) : Prop :=
  net w = [] /\ useRedis (tm w) = false /\ useMinio (tm w) = true /\ bucket w = Some o.

Lemma remote_answered {A} e (f : world -> result token_error A * world) w : net w = [] -> remote e f w = f w.
Proof. intros Hn. unfold remote. rewrite Hn. destruct w. cbn in *. by subst. Qed.

Lemma ensure_answered w o : answered w o -> ensureBucketExists w = (Ok tt, w).
Proof.
  intros (Hn & Hr & Hm & Hb). unfold ensureBucketExists, mbind, M_bind, asks. rewrite Hm. cbn [negb].
  by rewrite remote_answered, bool_decide_eq_true_2 by (done || by rewrite Hb).
Qed.

Lemma persist_answered h a b w o : answered w o ->
  persistToMinIO h a b w = (Ok tt, put_bucket (Some (<[blacklist_object h := marshal_token (mkBlacklisted "" a b)]> o)) w).
Proof.
  intros Hw. pose proof (ensure_answered w o Hw) as He. destruct Hw as (Hn & Hr & Hm & Hb).
  unfold persistToMinIO. unfold mbind at 1, M_bind at 1, asks. rewrite Hm. cbn [negb]. unfold mbind, M_bind.
  by rewrite He, remote_answered, Hb.
Qed.

Lemma list_answered w o : answered w o ->
  list_blacklist w = (Ok (List.filter (String.prefix tokenBlacklistPrefix) (map_to_list o).*1), w).
Proof. intros (Hn & Hr & Hm & Hb). unfold list_blacklist. by rewrite remote_answered, Hb. Qed.

Lemma load_object_answered now later k w o : answered w o ->
  exists w', load_object now later k w = (Ok tt, w') /\ answered w' o /\
    localBlacklist (tm w') = add_entry (localBlacklist (tm w)) (entry_of now o k).
Proof.
  intros (Hn & Hr & Hm & Hb). unfold load_object, entry_of. destruct (negb (HasSuffix k ".json")).
  { by exists w. }
  unfold mbind, M_bind, attempt, GetBlacklistObject, remote. rewrite Hn. cbn [next_answer bucket]. rewrite Hb. cbn.
  destruct (o !! k) as [d|]; cbn; [|eexists; split; [done|]; by repeat split].
  unfold load_entry. destruct (unmarshal_token d) as [e|]; cbn; [|eexists; split; [done|]; by repeat split].
  destruct (bl_ExpiresAt e <? now); cbn; [eexists; split; [done|]; by repeat split|].
  unfold mbind, M_bind, modifies, asks. cbn -[TrimSuffix TrimPrefix]. rewrite Hr. cbn -[TrimSuffix TrimPrefix].
  eexists. split; [done|]. by repeat split.
Qed.

Lemma load_each_answered now later ks w o : answered w o ->
  exists w', each (load_object now later) ks w = (Ok tt, w') /\ answered w' o /\
    localBlacklist (tm w') = foldl (fun l k => add_entry l (entry_of now o k)) (localBlacklist (tm w)) ks.
Proof.
  revert w. induction ks as [|k ks IH]; intros w Hw; cbn [each foldl]; [by exists w|].
  destruct (load_object_answered now later k w o Hw) as (w1 & H1 & Hw1 & Hl).
  destruct (IH w1 Hw1) as (w2 & H2 & Hw2 & Hl2). exists w2. rewrite <- Hl. split; [|done].
  unfold mbind, M_bind. by rewrite H1.
Qed.

Lemma fold_entries now o ks h x k0 l : k0 ∈ ks -> entry_of now o k0 = Some (h, x) ->
  (forall k y, k ∈ ks -> entry_of now o k = Some (h, y) -> y = x) ->
  foldl (fun l k => add_entry l (entry_of now o k)) l ks !! h = Some x.
Proof.
  assert (forall ks l, (forall k y, k ∈ ks -> entry_of now o k = Some (h, y) -> y = x) -> l !! h = Some x ->
    foldl (fun l k => add_entry l (entry_of now o k)) l ks !! h = Some x) as Hkeep.
  { clear. intros ks. induction ks as [|k ks IH]; intros l Hu Hl; [done|]. cbn [foldl]. apply IH.
    - intros k' y Hk. apply Hu. by apply list_elem_of_further.
    - destruct (entry_of now o k) as [[h' y]|] eqn:E; [|done]. cbn. destruct (decide (h' = h)) as [->|].
      + rewrite lookup_insert_eq. f_equal. eapply Hu; [apply list_elem_of_here | done].
      + by rewrite lookup_insert_ne. }
  intros Hin He Hu. revert l. induction ks as [|k ks IH]; intros l; [by apply not_elem_of_nil in Hin|]. cbn [foldl].
  assert (forall k' y, k' ∈ ks -> entry_of now o k' = Some (h, y) -> y = x) as Hu'.
  { intros k' y Hk. apply Hu. by apply list_elem_of_further. }
  apply elem_of_cons in Hin as [<-|Hin]; [|by apply IH].
  apply Hkeep; [done|]. rewrite He. cbn. apply lookup_insert_eq.
Qed.

Lemma json_below r a : tokenBlacklistPrefix +:+ r = a +:+ ".json" -> exists t, r = t +:+ ".json".
Proof.
  unfold tokenBlacklistPrefix. intros Ha.
  do 10 (destruct a as [|? a]; [discriminate Ha|]; rewrite !string_cons_app in Ha; injection Ha as ? Ha). by exists a.
Qed.

(** An object of the list is the one its entry names. *)
Lemma entry_object now o k h y : String.prefix tokenBlacklistPrefix k = true ->
  entry_of now o k = Some (h, y) -> k = blacklist_object h.
Proof.
  intros (r & ->)%prefix_split. unfold entry_of. destruct (HasSuffix _ ".json") eqn:Es; [|done]. cbn [negb].
  destruct (o !! _) as [d|]; [|done]. cbn [mbind option_bind]. destruct (unmarshal_token d) as [e|]; [|done]. cbn [mbind option_bind].
  case_match; [done|]. intros [= <- _]. unfold TrimPrefix. rewrite cut_prefix_of_app. unfold blacklist_object. f_equal.
  apply HasSuffix_split in Es as (a & Ha). destruct (json_below r a Ha) as (t & ->). by rewrite TrimSuffix_app.
Qed.

(** Revocations survive a restart. When the object server answers, a token
    that was revoked at [t0] is on the list again once a new manager has loaded
    the bucket, and stays revoked until a day after [t0]. *)
Theorem revocation_survives_restart t0 tok w o now later t :
  net w = [] -> useRedis (tm w) = false -> useMinio (tm w) = true -> bucket w = Some o ->
  now <= t0 + tokenBlacklistTTL -> t < t0 + tokenBlacklistTTL ->
  let w1 := NewTokenManager false true (RevokeAccessToken t0 tok w).2 in
  exists w2, loadBlacklistFromMinIO now later w1 = (Ok tt, w2) /\ IsTokenRevoked t tok w2 = (Ok true, w2).
Proof.
  intros Hn Hr Hm Hb Hnow Ht w1. set (h := hashToken tok).
  set (o' := <[blacklist_object h := marshal_token (mkBlacklisted "" t0 (t0 + tokenBlacklistTTL))]> o).
  assert (answered w1 o') as Hw1.
  { subst w1. unfold RevokeAccessToken. unfold mbind at 1, M_bind at 1, attempt.
    rewrite (persist_answered _ _ _ w o) by (by repeat split). unfold mbind, M_bind, asks, modifies. cbn. rewrite Hr. cbn. by repeat split. }
  destruct Hw1 as (Hn1 & Hr1 & Hm1 & Hb1).
  set (ks := List.filter (String.prefix tokenBlacklistPrefix) (map_to_list o').*1).
  destruct (load_each_answered now later ks w1 o' ltac:(by repeat split)) as (w2 & H2 & Hw2 & Hl).
  exists w2. split.
  - unfold loadBlacklistFromMinIO. unfold mbind at 1, M_bind at 1, asks. rewrite Hm1. cbn [negb].
    unfold mbind at 1, M_bind at 1, attempt at 1. rewrite (ensure_answered w1 o') by (by repeat split).
    unfold mbind, M_bind, attempt. by rewrite (list_answered w1 o') by (by repeat split).
  - apply (listed_revoked t tok (t0 + tokenBlacklistTTL)); [|done]. split; [apply Hw2|].
    exists (t0 + tokenBlacklistTTL). split; [|done]. rewrite Hl.
    assert (entry_of now o' (blacklist_object h) = Some (h, t0 + tokenBlacklistTTL)) as He.
    { unfold entry_of, blacklist_object. rewrite string_app_assoc, HasSuffix_app, <- string_app_assoc. cbn [negb].
      subst o'. change (tokenBlacklistPrefix +:+ h +:+ ".json") with (blacklist_object h). rewrite lookup_insert_eq.
      cbn [mbind option_bind]. rewrite unmarshal_marshal_token. cbn [mbind option_bind bl_ExpiresAt].
      rewrite (proj2 (Z.ltb_ge _ _)) by lia. unfold blacklist_object, TrimPrefix. by rewrite cut_prefix_of_app, TrimSuffix_app. }
    apply (fold_entries now o' ks h _ (blacklist_object h)); [|done|].
    + apply list_elem_of_In, filter_In. split; [|apply prefix_app_true]. apply list_elem_of_In, list_elem_of_fmap.
      exists (blacklist_object h, marshal_token (mkBlacklisted "" t0 (t0 + tokenBlacklistTTL))). split; [done|].
      apply elem_of_map_to_list, lookup_insert_eq.
    + intros k y Hk Hy. apply list_elem_of_In, filter_In in Hk as [_ Hp].
      pose proof (entry_object _ _ _ _ _ Hp Hy) as ->. rewrite He in Hy. by injection Hy.
Qed.
End restart.

(** ** Rotation of refresh tokens *)

(** Credentials have a key and a secret, whatever the configuration. *)
Definition auth_wf (am : AuthManager) : Prop := forall k c, credentials am !! k = Some c -> k <> "" /\ secret c <> "".

Lemma new_auth_wf cfg : auth_wf (NewAuthManager cfg).
Proof.
  unfold auth_wf, NewAuthManager. cbn. generalize (APIKeyPairs (default DefaultAuthConfig cfg)). intros ps.
  assert (forall creds : gmap string credentialInfo, (forall k c, creds !! k = Some c -> k <> "" /\ secret c <> "") ->
    forall k c, foldl load_pair creds ps !! k = Some c -> k <> "" /\ secret c <> "") as Hgo; [|apply (Hgo ∅); intros k c E; by rewrite lookup_empty in E].
  induction ps as [|p ps IH]; intros creds Hc; [done|]. cbn [foldl]. apply IH. intros k c. unfold load_pair.
  destruct (negb (bool_decide (Key p = "")) && negb (bool_decide (Secret p = ""))) eqn:E; [|apply Hc]. b2p.
  intros [[<- <-]|[_ Hk]]%lookup_insert_Some; [done | by apply (Hc k)].
Qed.

Lemma add_credential_wf k s r n am : auth_wf am -> auth_wf (AddCredentialWithRole k s r n am).
Proof.
  intros Hw. unfold AddCredentialWithRole. destruct (bool_decide (k = "") || bool_decide (s = "")) eqn:E; [done|]. b2p.
  intros k' c'. cbn. intros [[<- <-]|[_ Hk]]%lookup_insert_Some; [done | by apply (Hw k')].
Qed.

Lemma remove_credential_wf k am : auth_wf am -> auth_wf (RemoveCredential k am).
Proof. intros Hw k' c'. cbn. intros [_ Hk]%lookup_delete_Some. by apply (Hw k'). Qed.

Section rotation.
Context `{!BlacklistJSON, !JWT, !JWTLaws}.

Lemma issued_valid am e u tok : auth_wf am -> second <= expiration am -> issue am e u = Ok tok ->
  exists c, ValidateToken am (env_now e) tok = Ok c /\ UserID c = u.
Proof.
  intros Hw Hx Hi. unfold issue in Hi. assert (u <> "") as Hu.
  { intros ->. unfold GenerateToken in Hi. destruct (bool_decide _); [done|].
    destruct (credentials am !! "") as [c|] eqn:E; [|done]. by destruct (Hw _ _ E). }
  destruct (generated_signed _ _ _ _ _ _ _ Hu Hi) as (Hm & Hs & _).
  exists (token_claims am (env_now e) (env_now e) (env_now e) u u). split; [|done].
  apply validate_iff. split; [done|]. split; [done|]. split; [exact Hs|].
  unfold claims_in_time. cbn [Registered token_claims ExpiresAt NotBefore]. apply andb_true_iff. split.
  - apply Z.ltb_lt. unfold NewNumericDate, second in *. Z.div_mod_to_equations. lia.
  - apply Z.leb_le, numeric_date_le.
Qed.

Lemma validate_refresh_local t tok w : useRedis (tm w) = false ->
  ValidateRefreshToken t tok w = (match localRefreshMap (tm w) !! tok with Some u => Ok u | None => Err RefreshNotFound end, w).
Proof. intros Hr. unfold ValidateRefreshToken, mbind, M_bind, asks. rewrite Hr. by destruct (localRefreshMap (tm w) !! tok). Qed.

(** The map of refresh tokens after an exchange. *)
Lemma refresh_local am e old w r w' : useRedis (tm w) = false -> refreshToken am e (Some old) w = (Ok (Done r), w') ->
  exists user, localRefreshMap (tm w) !! old = Some user /\ issue am e user = Ok (access_token r) /\
    GenerateRefreshToken (env_rand e) = Ok (refresh_token r) /\ useRedis (tm w') = false /\
    localRefreshMap (tm w') = <[refresh_token r := user]> (delete old (localRefreshMap (tm w))).
Proof.
  intros Hr. unfold refreshToken. case_bool_decide; [done|]. unfold mbind at 1, M_bind at 1, attempt at 1.
  rewrite validate_refresh_local by done. destruct (localRefreshMap (tm w) !! old) as [user|]; [|done].
  unfold mbind at 1, M_bind at 1, attempt at 1, RevokeRefreshToken, mbind at 1, M_bind at 1, asks, modifies. rewrite Hr. cbn [fst snd].
  destruct (issue am e user) as [access|] eqn:Ei; [|done]. destruct (GenerateRefreshToken (env_rand e)) as [refresh|]; [|done].
  unfold attempt, StoreRefreshToken, mbind, M_bind, asks, modifies. cbn. rewrite Hr. cbn. intros [= <- <-]. exists user. by split_and!.
Qed.

Lemma run_refresh_gone ops old w : useRedis (tm w) = false -> localRefreshMap (tm w) !! old = None ->
  (forall t u, (t, OpStoreRefresh old u) ∉ ops) ->
  useRedis (tm (run ops w)) = false /\ localRefreshMap (tm (run ops w)) !! old = None.
Proof.
  revert w. induction ops as [|[t o] ops IH]; intros w Hr Hn Hops; [done|]. cbn [run].
  assert (useRedis (tm (run_op t o w)) = false /\ localRefreshMap (tm (run_op t o w)) !! old = None) as [Hr' Hn'].
  { destruct o as [token| |now later key data|token user|token]; cbn [run_op].
    - destruct (revoke_local t token w Hr) as [_ ->]. done.
    - done.
    - unfold load_entry. destruct (unmarshal_token data) as [b|]; [|done]. destruct (bl_ExpiresAt b <? now); [done|].
      unfold mbind, M_bind, modifies, asks. cbn -[TrimSuffix TrimPrefix]. rewrite Hr. done.
    - unfold StoreRefreshToken, mbind, M_bind, asks, modifies. rewrite Hr. cbn. split; [done|].
      rewrite lookup_insert_ne; [done|]. intros ->. apply (Hops t user), list_elem_of_here.
    - unfold RevokeRefreshToken, mbind, M_bind, asks, modifies. rewrite Hr. cbn. split; [done|].
      destruct (decide (token = old)) as [->|]; [apply lookup_delete_eq | by rewrite lookup_delete_ne]. }
  apply IH; [done..|]. intros t' u Hin. apply (Hops t' u). by apply list_elem_of_further.
Qed.

(** A refresh token is good for one exchange. On a node without Redis, an
    exchange that succeeds returns a new token for the same user, whose access
    token the manager accepts at once and whose refresh token it knows; the old
    one is refused from then on, whatever happens, unless the random source
    draws it again. *)
Theorem refresh_token_used_once am e old w r w' :
  auth_wf am -> second <= expiration am -> useRedis (tm w) = false ->
  refreshToken am e (Some old) w = (Ok (Done r), w') -> refresh_token r <> old ->
  exists user, (forall t, ValidateRefreshToken t old w = (Ok user, w)) /\
    (exists c, ValidateToken am (env_now e) (access_token r) = Ok c /\ UserID c = user) /\
    (forall t, ValidateRefreshToken t (refresh_token r) w' = (Ok user, w')) /\
    (forall ops t, (forall s u, (s, OpStoreRefresh old u) ∉ ops) ->
       (ValidateRefreshToken t old (run ops w')).1 = Err RefreshNotFound).
Proof.
  intros Hw Hx Hr Hok Hne. destruct (refresh_local am e old w r w' Hr Hok) as (user & Hu & Hi & _ & Hr' & Hmap).
  exists user. split_and!.
  - intros t. by rewrite validate_refresh_local, Hu.
  - by apply issued_valid.
  - intros t. rewrite validate_refresh_local, Hmap by done. by rewrite lookup_insert_eq.
  - intros ops t Hops. destruct (run_refresh_gone ops old w' Hr') as [Hr2 Hn2]; [|done|].
    + rewrite Hmap, lookup_insert_ne by done. apply lookup_delete_eq.
    + rewrite validate_refresh_local by done. by rewrite Hn2.
Qed.
End rotation.

(** ** A symbolic format *)

#[export] Instance registered_eq : EqDecision RegisteredClaims. Proof. solve_decision. Defined.
#[export] Instance claims_eq : EqDecision Claims. Proof. solve_decision. Defined.
#[export] Instance method_eq : EqDecision SigningMethod. Proof. solve_decision. Defined.
#[export] Instance method_countable : Countable SigningMethod.
Proof.
  apply (inj_countable' (fun m => match m with HS256 => inl 0%nat | HS384 => inl 1%nat | HS512 => inl 2%nat | OtherMethod a => inr a end)
    (fun x => match x with inl 0%nat => HS256 | inl 1%nat => HS384 | inl _ => HS512 | inr a => OtherMethod a end)).
  by intros [].
Defined.
#[export] Instance registered_countable : Countable RegisteredClaims.
Proof.
  apply (inj_countable' (fun r => (ExpiresAt r, IssuedAt r, NotBefore r, Issuer r, Audience r))
    (fun '(a, b, c, d, e) => mkRegistered a b c d e)). by intros [].
Defined.
#[export] Instance claims_countable : Countable Claims.
Proof.
  apply (inj_countable' (fun c => (UserID c, Username c, Registered c)) (fun '(a, b, c) => mkClaims a b c)). by intros [].
Defined.
#[export] Instance blacklisted_countable_eq : EqDecision blacklistedToken. Proof. solve_decision. Defined.
#[export] Instance blacklisted_countable : Countable blacklistedToken.
Proof.
  apply (inj_countable' (fun b => (bl_Token b, RevokedAt b, bl_ExpiresAt b)) (fun '(a, b, c) => mkBlacklisted a b c)). by intros [].
Defined.

Module TokenDemo.

(** A token is the text of its method, its claims and its key. *)
Definition decode_token (tok : string) : option (SigningMethod * Claims * string) := decode_text tok.

#[export] Instance symbolic_jwt : JWT := {|
  SignedString m c k := encode_text (m, c, k);
  ParseUnverified tok := fst <$> decode_token tok;
  signature_ok m tok k := match decode_token tok with Some (m', _, k') => bool_decide (m' = m /\ k' = k) | None => false end;
  ParseWithClaims now tok key :=
    '(m, c, k') ← decode_token tok; k ← key m;
    if bool_decide (k = k') && claims_in_time now c then Some c else None;
|}.

#[export] Instance symbolic_laws : JWTLaws.
Proof.
  split.
  - intros m c k _. cbn. unfold decode_token. by rewrite decode_encode_text.
  - intros m c k. cbn. unfold decode_token. rewrite decode_encode_text. by rewrite bool_decide_eq_true_2.
  - intros now tok key c. cbn. destruct (decode_token tok) as [[[m c'] k']|] eqn:E; cbn; [|split; [done | by intros (? & ? & ? & _)]].
    split.
    + destruct (key m) as [k|] eqn:Ek; [|done]. cbn. case_bool_decide as Hk; [|done]. cbn.
      destruct (claims_in_time now c') eqn:Et; [|done]. intros [= <-]. exists m, k. split_and!; [done.. | | done].
      by rewrite bool_decide_eq_true_2.
    + intros (m' & k & [= <- <-] & Hk & Hs & Ht). rewrite Hk. cbn. apply bool_decide_eq_true in Hs as [_ ->].
      by rewrite bool_decide_eq_true_2, Ht.
Qed.

#[export] Instance symbolic_json : BlacklistJSON := {|
  marshal_token := encode_text; unmarshal_token := decode_text; unmarshal_marshal_token := decode_encode_text;
|}.

Definition am : AuthManager := rest_auth [mkKeyPair "alice" "s3cret" "" ""].
Definition start : world := mkWorld (mkTokens false true ∅ {[ "r0" := "alice" ]}) ∅ (Some ∅) [].
Definition at_noon : env := mkEnv (1700000000 * second) (Some (seqZ 1 32)).

Definition alice_token : string := SignedString HS256 (token_claims am (1700000000 * second) (1700000000 * second) (1700000000 * second) "alice" "alice") "s3cret".
Definition alice_claims : Claims := token_claims am (1700000000 * second) (1700000000 * second) (1700000000 * second) "alice" "alice".

Lemma alice_issued : GenerateToken am (1700000000 * second) (1700000000 * second) (1700000000 * second) "alice" "alice" = Ok alice_token.
Proof. vm_compute. reflexivity. Qed.

Lemma alice_parsed : ParseUnverified alice_token = Some (HS256, alice_claims).
Proof. apply parse_signed, token_claims_whole. Qed.

Lemma alice_nonempty : alice_token <> "".
Proof. vm_compute. discriminate. Qed.

Lemma token_accepted_iff_witness :
  ValidateToken am (1700000001 * second) alice_token = Ok alice_claims <->
  Mode (config am) <> "none" /\ UserID alice_claims <> "" /\
  (exists cred m, credentials am !! UserID alice_claims = Some cred /\ ParseUnverified alice_token = Some (m, alice_claims) /\
     is_hmac m = true /\ signature_ok m alice_token (secret cred) = true) /\
  (forall t, ExpiresAt (Registered alice_claims) = Some t -> 1700000001 * second < t) /\
  (forall t, NotBefore (Registered alice_claims) = Some t -> t <= 1700000001 * second).
Proof. apply (token_accepted_iff am (1700000001 * second) alice_token alice_claims). Defined.

Lemma token_life_witness :
  (forall now, ValidateToken am now alice_token = Ok alice_claims <->
     NewNumericDate (1700000000 * second) <= now < NewNumericDate (1700000000 * second + expiration am)) /\
  (forall now c, ValidateToken am now alice_token = Ok c -> c = alice_claims) /\
  (forall now c, ValidateToken (RemoveCredential "alice" am) now alice_token <> Ok c).
Proof. apply (token_life am (1700000000 * second) (1700000000 * second) (1700000000 * second) "alice" "alice"); [done | apply alice_issued]. Defined.

Definition gi : GRPCInterceptor := NewGRPCInterceptor (grpc_auth [("alice", "s3cret")]).
Definition with_token (tok : string) : metadata := Some (fun k => if bool_decide (k = "authorization") then ["Bearer " +:+ tok] else []).

Lemma interceptor_guards_witness :
  UnaryServerInterceptor gi (1700000001 * second) "/miniodb.v1.MinIODBService/WriteData" None
  = StreamServerInterceptor gi (1700000001 * second) "/miniodb.v1.MinIODBService/WriteData" None /\
  (UnaryServerInterceptor gi (1700000001 * second) "/miniodb.v1.MinIODBService/WriteData" None = Handled None <->
   exists tok c, extractTokenFromMetadata None = Some tok /\ signed_for (authManager gi) tok c /\ UserID c <> "" /\
     claims_in_time (1700000001 * second) c = true /\ None = Some (UserID c, Username c)).
Proof. apply (interceptor_guards gi); [done|]. by apply (bool_decide_eq_false_1 _). Defined.

Lemma revoked_token_refused_witness :
  (RevokeAccessToken (1700000100 * second) alice_token start).1 = Ok tt /\
  exists error, (jwtAuthMiddleware am (1700050000 * second) ("Bearer " +:+ alice_token)
    (run [(1700000200 * second, OpTick); (1700000300 * second, OpRevoke "other")]
       (RevokeAccessToken (1700000100 * second) alice_token start).2)).1 = Ok (Unauthorized error).
Proof.
  apply (revoked_token_refused am start (1700000100 * second) alice_token HS256 alice_claims (1700086400 * second)
    [(1700000200 * second, OpTick); (1700000300 * second, OpRevoke "other")] (1700050000 * second));
    [done | done | apply alice_nonempty | apply alice_parsed | done | done |].
  repeat (apply Forall_cons; split; [split; [cbn; unfold second; lia | done]|]). by apply Forall_nil.
Defined.

Lemma revocation_survives_restart_witness :
  exists w2, loadBlacklistFromMinIO (1700001000 * second) (1700001000 * second)
      (NewTokenManager false true (RevokeAccessToken (1700000100 * second) alice_token start).2) = (Ok tt, w2) /\
    IsTokenRevoked (1700050000 * second) alice_token w2 = (Ok true, w2).
Proof. by apply (revocation_survives_restart (1700000100 * second) alice_token start ∅). Defined.

Definition exchanged : reply token_reply := Done (mkReply alice_token (hex_encode (seqZ 1 32)) 3600 "Bearer").
Definition after_exchange : world :=
  mkWorld (mkTokens false true ∅ (<[hex_encode (seqZ 1 32) := "alice"]> (delete "r0" {[ "r0" := "alice" ]}))) ∅ (Some ∅) [].

Lemma exchange : refreshToken am at_noon (Some "r0") start = (Ok exchanged, after_exchange).
Proof. vm_compute. reflexivity. Qed.

Lemma refresh_token_used_once_witness :
  exists user, (forall t, ValidateRefreshToken t "r0" start = (Ok user, start)) /\
    (forall t, (ValidateRefreshToken t "r0" (run [] after_exchange)).1 = Err RefreshNotFound).
Proof.
  destruct (refresh_token_used_once am at_noon "r0" start (mkReply alice_token (hex_encode (seqZ 1 32)) 3600 "Bearer") after_exchange)
    as (user & H1 & _ & _ & H2); [apply new_auth_wf | by vm_compute | done | apply exchange | by vm_compute |].
  exists user. split; [done|]. intros t. apply H2. intros s u. apply not_elem_of_nil.
Defined.

Lemma unanswered_not_revoked t t' tok :
  let w := mkWorld (mkTokens true false ∅ ∅) ∅ None [Answered; NotSent] in
  exists w', RevokeAccessToken t tok w = (Ok tt, w') /\ (IsTokenRevoked t' tok w').1 = Ok false.
Proof. eexists. split; reflexivity. Qed.

(** Where tokens are not what they seem. The methods the gRPC server
    offers are under [miniodb.v1], and the interceptor exempts one under
    [olap.v1]: without a token neither a token nor the health check can be
    asked for. [RevokeToken] of the gRPC server revokes nothing. When Redis
    does not answer, a revoked token is not revoked. Two requests that validate
    the same refresh token before either revokes it both get tokens. The
    audience is never checked: a token of the REST server is good for the gRPC
    server. The reply says a token lasts an hour; it lasts a day. *)
Theorem token_flaws :
  (forall now, UnaryServerInterceptor gi now "/miniodb.v1.AuthService/GetToken" None = Unauthenticated /\
     UnaryServerInterceptor gi now "/miniodb.v1.MinIODBService/HealthCheck" None = Unauthenticated) /\
  RevokeToken alice_token start = (Ok (Done tt), start) /\
  (let w := mkWorld (mkTokens true false ∅ ∅) ∅ None [Answered; NotSent] in
   exists w', RevokeAccessToken (1700000100 * second) alice_token w = (Ok tt, w') /\
     (IsTokenRevoked (1700000101 * second) alice_token w').1 = Ok false) /\
  (exists w1, ValidateRefreshToken 0 "r0" start = (Ok "alice", w1) /\ ValidateRefreshToken 0 "r0" w1 = (Ok "alice", w1) /\
     is_ok (issue am at_noon "alice") = true) /\
  (alice_claims <> token_claims (grpc_auth [("alice", "s3cret")]) (1700000000 * second) (1700000000 * second) (1700000000 * second) "alice" "alice" /\
   ValidateToken (grpc_auth [("alice", "s3cret")]) (1700000001 * second) alice_token = Ok alice_claims) /\
  ((refreshToken am at_noon (Some "r0") start).1 = Ok exchanged /\
   ValidateToken am (1700086399 * second) alice_token = Ok alice_claims).
Proof.
  split_and!.
  - done.
  - unfold RevokeToken. rewrite bool_decide_eq_false_2 by apply alice_nonempty. done.
  - apply unanswered_not_revoked.
  - exists start. done.
  - vm_compute. discriminate.
  - vm_compute. reflexivity.
  - by rewrite exchange.
  - vm_compute. reflexivity.
Qed.

(** An origin with a port is not matched by the pattern of its domain, although
    the port is cut off its host. *)
Lemma cors_port_refused :
  let c := mkCORS ["*.example.com"] [] [] false 0 in
  isOriginAllowed c "https://app.example.com" = "https://app.example.com" /\
  origin_host "https://app.example.com:8443" = "app.example.com" /\ isOriginAllowed c "https://app.example.com:8443" = "".
Proof. vm_compute. done. Qed.

End TokenDemo.
