(* ===== verification/Throttle.v ===== *)
(** * The copy throttle (pkg/throttle)

    A rate limiter in front of a semaphore: a copy may start after [Wait] took
    a slot and gives it back with [Release]. The rate limiter belongs to
    golang.org/x/time/rate: only the limit it is set to is state here, and the
    result of its [Wait] is an argument. The semaphore is a buffered channel of
    slots. Each blocking [select] is a step that may take any ready case. *)

From S2P Require Import Prelude GoTime GoFloat.
#[local] Open Scope Z_scope.

(** ** Load levels *)

Inductive LoadLevel := LoadIdle | LoadNormal | LoadBusy | LoadOverloaded | LoadOther (n : Z).

#[export] Instance LoadLevel_eq_dec : EqDecision LoadLevel.
Proof. solve_decision. Defined.

Definition LoadLevel_String (l : LoadLevel) : string :=
  match l with
  | LoadIdle => "idle" | LoadNormal => "normal" | LoadBusy => "busy" | LoadOverloaded => "overloaded"
  | LoadOther _ => "unknown"
  end.

(** ** The throttler *)

Record ThrottleConfig := mkThrottleConfig { MaxQPS : Z; MaxConcurrentCopies : Z }.

Definition DefaultThrottleConfig : ThrottleConfig := mkThrottleConfig 50 4.

Record Throttler := mkThrottler {
  config : ThrottleConfig;
  limit : spec_float;          (* qpsLimiter *)
  sem : Z;                     (* slots in the channel *)
  stopped : bool;              (* stopCh is closed *)
  currentLoad : LoadLevel;
  overloadedSince : Z;
}.

Definition NewThrottler (cfg : ThrottleConfig) : Throttler :=
  let cfg := mkThrottleConfig
    (if MaxQPS cfg <=? 0 then MaxQPS DefaultThrottleConfig else MaxQPS cfg)
    (if MaxConcurrentCopies cfg <=? 0 then MaxConcurrentCopies DefaultThrottleConfig
     else MaxConcurrentCopies cfg) in
  mkThrottler cfg (f64 (MaxQPS cfg)) (MaxConcurrentCopies cfg) false LoadIdle zero_time.

Inductive throttle_error := ErrContext | ErrThrottleStopped | ErrThrottleOverloaded | ErrLimiter.

Definition with_limit (l : spec_float) (t : Throttler) : Throttler :=
  mkThrottler (config t) l (sem t) (stopped t) (currentLoad t) (overloadedSince t).
Definition with_sem (n : Z) (t : Throttler) : Throttler :=
  mkThrottler (config t) (limit t) n (stopped t) (currentLoad t) (overloadedSince t).

(** [Wait], the first [select]; with both cases ready either may be taken. *)
Inductive entry_choice := SeeContext | SeeStop | SeeDefault.

Definition Wait_enter (ctx_done : bool) (ch : entry_choice) (t : Throttler) : option (result throttle_error unit) :=
  match ch with
  | SeeContext => if ctx_done then Some (Err ErrContext) else None
  | SeeStop => if stopped t then Some (Err ErrThrottleStopped) else None
  | SeeDefault => if ctx_done || stopped t then None else Some (Ok tt)
  end.

(** [Wait], the last [select]; [None] when the case is not ready. *)
Inductive slot_choice := TakeContext | TakeStop | TakeSlot.

Definition Wait_acquire (ctx_done : bool) (ch : slot_choice) (t : Throttler)
    : option (Throttler * result throttle_error unit) :=
  match ch with
  | TakeContext => if ctx_done then Some (t, Err ErrContext) else None
  | TakeStop => if stopped t then Some (t, Err ErrThrottleStopped) else None
  | TakeSlot => if 0 <? sem t then Some (with_sem (sem t - 1) t, Ok tt) else None
  end.

(** [AdaptiveWait] up to its pause: the load is recorded, the limit set. *)
Inductive adaptive := Stopped | PauseOverloaded | Pause (ns : Z) | NoPause.

Definition set_load (now : Z) (level : LoadLevel) (t : Throttler) : Throttler :=
  mkThrottler (config t) (limit t) (sem t) (stopped t) level
    (if bool_decide (level = LoadOverloaded) then
       if overloadedSince t =? zero_time then now else overloadedSince t
     else zero_time).

Definition scaled_qps (tenths : Z) (t : Throttler) : spec_float :=
  fmul (f64 (MaxQPS (config t))) (fdiv (f64 tenths) (f64 10)).

Definition AdaptiveWait_start (now : Z) (provider : option LoadLevel) (t : Throttler) : Throttler * adaptive :=
  if stopped t then (t, Stopped) else
  let '(t, level) := match provider with
                     | Some level => (set_load now level t, level)
                     | None => (t, LoadIdle)
                     end in
  match level with
  | LoadOverloaded => (t, PauseOverloaded)
  | LoadBusy => (with_limit (scaled_qps 3 t) t, Pause 50000000)
  | LoadNormal => (with_limit (scaled_qps 7 t) t, Pause 10000000)
  | LoadIdle => (with_limit (f64 (MaxQPS (config t))) t, NoPause)
  | LoadOther _ => (t, NoPause)
  end.

(** The pause: [Some (Err e)] when the call ends, [Some (Ok tt)] when it goes
    on to [Wait]. *)
Inductive pause_choice := PauseContext | PauseStop | PauseTimer.

Definition AdaptiveWait_pause (ctx_done : bool) (ch : pause_choice) (a : adaptive) (t : Throttler)
    : option (result throttle_error unit) :=
  match a, ch with
  | Stopped, _ => Some (Err ErrThrottleStopped)
  | NoPause, _ => Some (Ok tt)
  | _, PauseContext => if ctx_done then Some (Err ErrContext) else None
  | PauseOverloaded, PauseStop => if stopped t then Some (Err ErrThrottleStopped) else None
  | PauseOverloaded, PauseTimer => Some (Err ErrThrottleOverloaded)
  | Pause _, PauseTimer => Some (Ok tt)
  | Pause _, PauseStop => None
  end.

(** [Release]: a slot goes back unless the channel is full. *)
Definition Release (t : Throttler) : Throttler :=
  if sem t <? MaxConcurrentCopies (config t) then with_sem (sem t + 1) t else t.

Definition Stop (t : Throttler) : Throttler :=
  mkThrottler (config t) (limit t) (sem t) true (currentLoad t) (overloadedSince t).

Definition ResetLimit (t : Throttler) : Throttler := with_limit (f64 (MaxQPS (config t))) t.

Definition SetQPSLimit (qps : Z) (t : Throttler) : Throttler :=
  with_limit (f64 (if qps <=? 0 then MaxQPS (config t) else qps)) t.

Definition GetCurrentLoad (t : Throttler) : LoadLevel := currentLoad t.

Definition GetOverloadedDuration (now : Z) (t : Throttler) : Z :=
  if overloadedSince t =? zero_time then 0 else time_Sub now (overloadedSince t).

Record ThrottleStats := mkThrottleStats {
  stat_MaxQPS : Z; CurrentQPSLimit : spec_float; MaxConcurrent : Z; AvailableSlots : Z;
  CurrentLoadLevel : string; OverloadedSince : Z;
}.

Definition GetStats (t : Throttler) : ThrottleStats :=
  mkThrottleStats (MaxQPS (config t)) (limit t) (MaxConcurrentCopies (config t)) (sem t)
    (LoadLevel_String (currentLoad t)) (overloadedSince t).

(** ** Callers

    Any number of goroutines: those inside [AdaptiveWait]'s pause, those
    between the two [select]s of [Wait], and those that hold a slot. *)

Record world := mkWorld {
  thr : Throttler;
  pausing : list adaptive;
  waiting : nat;
  holding : nat;
}.

Inductive step : world -> world -> Prop :=
  | step_adaptive w now provider t a :
      AdaptiveWait_start now provider (thr w) = (t, a) ->
      step w (mkWorld t (a :: pausing w) (waiting w) (holding w))
  | step_pause w p1 a p2 ctx_done ch r done' ch' r' :
      pausing w = p1 ++ a :: p2 ->
      AdaptiveWait_pause ctx_done ch a (thr w) = Some r ->
      (if is_ok r then Wait_enter done' ch' (thr w) = Some r' else r' = r) ->
      step w (mkWorld (thr w) (p1 ++ p2) (if is_ok r' then S (waiting w) else waiting w) (holding w))
  | step_enter w ctx_done ch r :
      Wait_enter ctx_done ch (thr w) = Some r ->
      step w (mkWorld (thr w) (pausing w) (if is_ok r then S (waiting w) else waiting w) (holding w))
  | step_limiter_fails w n :
      waiting w = S n -> step w (mkWorld (thr w) (pausing w) n (holding w))
  | step_acquire w n ctx_done ch t r :
      waiting w = S n -> Wait_acquire ctx_done ch (thr w) = Some (t, r) ->
      step w (mkWorld t (pausing w) n (if is_ok r then S (holding w) else holding w))
  | step_release w n :
      holding w = S n -> step w (mkWorld (Release (thr w)) (pausing w) (waiting w) n)
  | step_stop w : step w (mkWorld (Stop (thr w)) (pausing w) (waiting w) (holding w))
  | step_reset w : step w (mkWorld (ResetLimit (thr w)) (pausing w) (waiting w) (holding w))
  | step_set w qps : step w (mkWorld (SetQPSLimit qps (thr w)) (pausing w) (waiting w) (holding w)).

Definition start (cfg : ThrottleConfig) : world := mkWorld (NewThrottler cfg) [] 0 0.

(** ** The slots are conserved *)

Definition slots_ok (max : Z) (w : world) : Prop :=
  MaxConcurrentCopies (config (thr w)) = max /\ 0 <= sem (thr w) /\
  sem (thr w) + Z.of_nat (holding w) = max.

Lemma adaptive_keeps now provider t t' a :
  AdaptiveWait_start now provider t = (t', a) -> config t' = config t /\ sem t' = sem t /\ stopped t' = stopped t.
Proof.
  unfold AdaptiveWait_start. intros H.
  destruct (stopped t) eqn:E; [by injection H as <- _|].
  destruct provider as [[]|]; injection H as <- _; done.
Qed.

Lemma step_slots max w w' : step w w' -> slots_ok max w -> slots_ok max w'.
Proof.
  intros Hs (Hm & Hp & Hsum). destruct Hs; unfold slots_ok in *; simpl in *; try done.
  - apply adaptive_keeps in H as (-> & -> & _). done.
  - unfold Wait_acquire in H0. destruct ch.
    + destruct ctx_done; [|done]. by injection H0 as <- <-.
    + destruct (stopped (thr w)); [|done]. by injection H0 as <- <-.
    + destruct (Z.ltb_spec 0 (sem (thr w))); [|done]. injection H0 as <- <-. simpl. lia.
  - unfold Release. rewrite H in Hsum. destruct (Z.ltb_spec (sem (thr w)) (MaxConcurrentCopies (config (thr w))));
      simpl; lia.
Qed.

(** Once stopped, nobody gets past the first [select]. *)
Lemma stop_is_final w w' : step w w' -> stopped (thr w) = true ->
  stopped (thr w') = true /\ (waiting w' + holding w' <= waiting w + holding w)%nat.
Proof.
  intros Hs Hst. destruct Hs; simpl in *; try (split; [done|lia]).
  - apply adaptive_keeps in H as (_ & _ & ->). split; [done|lia].
  - assert (is_ok r' = false) as ->.
    { destruct (is_ok r) eqn:Er; [|by subst r'].
      unfold Wait_enter in H1. rewrite Hst, orb_true_r in H1.
      destruct ch'; [destruct done'; [|done]| |done]; by injection H1 as <-. }
    split; [done|lia].
  - assert (is_ok r = false) as ->; [|split; [done|lia]].
    unfold Wait_enter in H. rewrite Hst, orb_true_r in H.
    destruct ch; [destruct ctx_done; [|done]| |done]; by injection H as <-.
  - split; [|destruct (is_ok r); lia]. unfold Wait_acquire in H0. destruct ch.
    + destruct ctx_done; [|done]. by injection H0 as <- _.
    + rewrite Hst in H0. by injection H0 as <- _.
    + destruct (0 <? sem (thr w)); [|done]. by injection H0 as <- _.
  - split; [|lia]. unfold Release. by destruct (_ <? _).
Qed.

(** The throttle bounds the copies. However the calls of any number of
    goroutines interleave, with changing load, limits, cancelled contexts and
    [Stop], the slots in the channel and the copies under way always add up to
    the configured number (four if it was not positive); so there are never
    more copies, and no slot leaks. From a [Stop] on, no caller gets past the
    entry of [Wait]: the callers inside and the holders only become fewer. *)
Theorem throttle_bounds_copies cfg w :
  rtc step (start cfg) w ->
  let max := if MaxConcurrentCopies cfg <=? 0 then 4 else MaxConcurrentCopies cfg in
  Z.of_nat (holding w) <= max /\ AvailableSlots (GetStats (thr w)) = max - Z.of_nat (holding w) /\
  (forall w', stopped (thr w) = true -> rtc step w w' ->
     stopped (thr w') = true /\ (waiting w' + holding w' <= waiting w + holding w)%nat).
Proof.
  intros Hrun max.
  assert (slots_ok max w) as (_ & ? & ?).
  { assert (slots_ok max (start cfg)) as H0.
    { unfold slots_ok, start, NewThrottler, max. simpl. destruct (Z.leb_spec (MaxConcurrentCopies cfg) 0); lia. }
    clear - Hrun H0. induction Hrun; eauto using step_slots. }
  split; [lia|]. split; [simpl; lia|].
  intros w' Hst Hrun'. clear - Hst Hrun'. induction Hrun' as [|x y z Hs _ IH]; [split; [done|lia]|].
  destruct (stop_is_final _ _ Hs Hst) as [Hy ?]. destruct (IH Hy). split; [done|lia].
Qed.

Lemma throttle_bounds_copies_witness :
  let cfg := mkThrottleConfig 0 1 in
  let w := mkWorld (Stop (with_sem 0 (NewThrottler cfg))) [] 0 1 in
  Z.of_nat (holding w) <= 1 /\ AvailableSlots (GetStats (thr w)) = 0.
Proof.
  destruct (throttle_bounds_copies (mkThrottleConfig 0 1)
    (mkWorld (Stop (with_sem 0 (NewThrottler (mkThrottleConfig 0 1)))) [] 0 1)) as (H1 & H2 & _).
  - eapply rtc_l; [apply (step_enter (start (mkThrottleConfig 0 1)) false SeeDefault (Ok tt)); reflexivity|].
    eapply rtc_l; [eapply (step_acquire _ 0 false TakeSlot); reflexivity|].
    eapply rtc_l; [apply step_stop|]. apply rtc_refl.
  - split; [exact H1|exact H2].
Defined.
