(* ===== verification/Checkpoint.v ===== *)
(** * Replication checkpoints (internal/replication/checkpoint.go)

    A checkpoint records when each object was last copied. It is kept in Redis
    and, once Redis has failed, in a file of the fallback directory. The number
    of entries is bounded: the oldest are pruned with a heap. *)

From S2P Require Import Prelude GoStrings GoHeap.
From Stdlib Require Import Ascii.
#[local] Open Scope Z_scope.

(** A nil map and a nil slice are read as empty ones. *)
Record SyncCheckpoint := mkCheckpoint {
  LastSyncTime : Z;
  ObjectVersions : gmap string Z;
  SyncedCount : Z;
  FailedObjects : list string;
}.

Definition zero_time : Z := - 62135596800 * 1000000000.
Definition NewSyncCheckpoint : SyncCheckpoint := mkCheckpoint zero_time ∅ 0 [].

Definition MaxFailedObjects : Z := 1000.
Definition maxCheckpointEntries : Z := 100000.

(** ** Pruning *)

(** An entry is a key with its time. *)
Definition entry_less (a b : string * Z) : bool := a.2 <? b.2.

#[export] Instance entry_less_order : WeakOrder entry_less.
Proof. split; unfold entry_less; intros; b2p; [apply Z.ltb_ge|apply Z.ltb_ge]; lia. Qed.

Section checkpoint.
(** The order in which [range] visits a map. *)
Context (range : gmap string Z -> list (string * Z)).

Definition set_versions (c : SyncCheckpoint) (m : gmap string Z) : SyncCheckpoint :=
  mkCheckpoint (LastSyncTime c) m (SyncedCount c) (FailedObjects c).

Definition pruneOldEntries (keep : nat) (c : SyncCheckpoint) : SyncCheckpoint :=
  if (size (ObjectVersions c) <=? keep)%nat then c else
  let h := foldl (offer entry_less keep) [] (range (ObjectVersions c)) in
  set_versions c (foldl (fun m e => <[e.1 := e.2]> m) ∅ h).

Definition UpdateObjectVersion (now : Z) (objectKey : string) (lastModified : Z) (c : SyncCheckpoint) : SyncCheckpoint :=
  let c := if maxCheckpointEntries <=? Z.of_nat (size (ObjectVersions c))
           then pruneOldEntries (Z.to_nat (maxCheckpointEntries / 2)) c else c in
  mkCheckpoint now (<[objectKey := lastModified]> (ObjectVersions c)) (int64 (SyncedCount c + 1)) (FailedObjects c).

Definition AddFailedObject (objectKey : string) (c : SyncCheckpoint) : SyncCheckpoint :=
  if bool_decide (objectKey ∈ FailedObjects c) then c else
  if MaxFailedObjects <=? Zlength (FailedObjects c) then c else
  mkCheckpoint (LastSyncTime c) (ObjectVersions c) (SyncedCount c) (FailedObjects c ++ [objectKey]).

Definition GetObjectVersion (objectKey : string) (c : SyncCheckpoint) : option Z := ObjectVersions c !! objectKey.

Fixpoint remove_first (k : string) (l : list string) : list string :=
  match l with [] => [] | x :: l => if bool_decide (x = k) then l else x :: remove_first k l end.

Definition RemoveFailedObject (objectKey : string) (c : SyncCheckpoint) : SyncCheckpoint :=
  mkCheckpoint (LastSyncTime c) (ObjectVersions c) (SyncedCount c) (remove_first objectKey (FailedObjects c)).

(** ** The store *)

(** [json.Marshal], [json.MarshalIndent] and [json.Unmarshal]. *)
Context (marshal marshalIndent : SyncCheckpoint -> option string) (unmarshal : string -> option SyncCheckpoint).

Record CheckpointStore := mkStore { hasRedis : bool; keyPrefix : string; degraded : bool }.

(** Redis, and the files of the fallback directory. *)
Record storage := mkStorage { redis : gmap string string; files : gmap string string }.

(** What the file system does with a read or a write: a write that fails late
    leaves part of the data. *)
Inductive file_outcome := FileOk | FileFails | FileTorn (part : string).

Definition file_works (f : file_outcome) : bool := match f with FileOk => true | _ => false end.

(** What Redis and the file system do during one operation. *)
Record io := mkIo { redis_up : bool; file : file_outcome }.

Inductive store_error := RedisError | FileError | MarshalError | UnmarshalError | NilCheckpoint | ClearError.

Definition NewCheckpointStore (hasRedis : bool) (prefix : string) : CheckpointStore :=
  mkStore hasRedis (if bool_decide (prefix = "") then "miniodb:replication:checkpoint" else prefix) (negb hasRedis).

Definition buildKey (s : CheckpointStore) (bucket : string) : string := keyPrefix s +:+ ":" +:+ bucket.

(** [filepath.Base] *)
Fixpoint strip_slashes (s : string) : string :=
  match s with
  | "" => ""
  | String c s' =>
      let r := strip_slashes s' in
      if bool_decide (c = "/"%char) && bool_decide (r = "") then "" else String c r
  end.
Definition Base (s : string) : string :=
  if bool_decide (s = "") then "." else
  if bool_decide (strip_slashes s = "") then "/" else
  default "" (last (Split "/" (strip_slashes s))).

Definition getFallbackPath (bucket : string) : string := "checkpoint_" +:+ Base bucket +:+ ".json".

Definition bounded (c : SyncCheckpoint) : SyncCheckpoint :=
  if maxCheckpointEntries <? Z.of_nat (size (ObjectVersions c))
  then pruneOldEntries (Z.to_nat maxCheckpointEntries) c else c.

Definition loadFromRedis (e : io) (st : storage) (key : string) : result store_error SyncCheckpoint :=
  if negb (redis_up e) then Err RedisError else
  match redis st !! key with
  | None => Err RedisError                    (* redis.Nil is an error too *)
  | Some data => match unmarshal data with Some c => Ok (bounded c) | None => Err UnmarshalError end
  end.

Definition saveToRedis (e : io) (st : storage) (key : string) (c : SyncCheckpoint) : result store_error storage :=
  match marshal c with
  | None => Err MarshalError
  | Some data => if redis_up e then Ok (mkStorage (<[key := data]> (redis st)) (files st)) else Err RedisError
  end.

Definition loadFromFile (e : io) (st : storage) (bucket : string) : result store_error SyncCheckpoint :=
  if negb (file_works (file e)) then Err FileError else
  match files st !! getFallbackPath bucket with
  | None => Ok NewSyncCheckpoint
  | Some data => match unmarshal data with Some c => Ok (bounded c) | None => Err UnmarshalError end
  end.

Definition write_file (name data : string) (st : storage) : storage :=
  mkStorage (redis st) (<[name := data]> (files st)).

Definition saveToFile (e : io) (st : storage) (bucket : string) (c : SyncCheckpoint)
    : result store_error unit * storage :=
  match file e, marshalIndent c with
  | FileFails, _ => (Err FileError, st)
  | _, None => (Err MarshalError, st)
  | FileOk, Some data => (Ok tt, write_file (getFallbackPath bucket) data st)
  | FileTorn part, Some _ => (Err FileError, write_file (getFallbackPath bucket) part st)
  end.

Definition set_degraded (s : CheckpointStore) : CheckpointStore := mkStore (hasRedis s) (keyPrefix s) true.

Definition Load (e : io) (bucket : string) (s : CheckpointStore) (st : storage)
    : result store_error SyncCheckpoint * CheckpointStore :=
  if negb (degraded s) && hasRedis s then
    match loadFromRedis e st (buildKey s bucket) with
    | Ok c => (Ok c, s)
    | Err _ => (loadFromFile e st bucket, set_degraded s)
    end
  else (loadFromFile e st bucket, s).

Definition Save (e : io) (bucket : string) (c : option SyncCheckpoint) (s : CheckpointStore) (st : storage)
    : result store_error unit * CheckpointStore * storage :=
  match c with
  | None => (Err NilCheckpoint, s, st)
  | Some c =>
      if negb (degraded s) && hasRedis s then
        match saveToRedis e st (buildKey s bucket) c with
        | Ok st' => (Ok tt, s, st')
        | Err _ => let '(r, st') := saveToFile e st bucket c in (r, set_degraded s, st')
        end
      else let '(r, st') := saveToFile e st bucket c in (r, s, st')
  end.

Definition Clear (e : io) (bucket : string) (s : CheckpointStore) (st : storage)
    : result store_error unit * storage :=
  let try_redis := negb (degraded s) && hasRedis s in
  let redisErr := try_redis && negb (redis_up e) in
  let st := if try_redis && redis_up e then mkStorage (delete (buildKey s bucket) (redis st)) (files st) else st in
  match files st !! getFallbackPath bucket with
  | None => (Ok tt, st)
  | Some _ =>
      if file_works (file e) then (Ok tt, mkStorage (redis st) (delete (getFallbackPath bucket) (files st)))
      else (if redisErr then Err ClearError else Ok tt, st)
  end.

Definition IsDegraded (s : CheckpointStore) : bool := degraded s.
Definition ResetDegraded (s : CheckpointStore) : CheckpointStore := mkStore (hasRedis s) (keyPrefix s) false.
End checkpoint.

(** ** Pruning keeps the newest *)

(** Entries written into a map, by distinct keys. *)
Lemma foldl_insert_entries (h : list (string * Z)) (m : gmap string Z) :
  NoDup h.*1 -> (forall k, k ∈ h.*1 -> m !! k = None) ->
  foldl (fun m e => <[e.1 := e.2]> m) m h = list_to_map h ∪ m.
Proof.
  revert m. induction h as [|[k v] h IH]; intros m Hn Hm; cbn; [by rewrite map_empty_union|].
  apply NoDup_cons in Hn as [Hk Hn]. rewrite IH; [|done|].
  - rewrite <- insert_union_r by (by apply not_elem_of_list_to_map_1). by rewrite insert_union_l.
  - intros k' Hk'. rewrite lookup_insert_ne; [|by intros ->]. apply Hm. by right.
Qed.

Section prune.
Context (range : gmap string Z -> list (string * Z)).
Hypothesis range_perm : forall m, range m ≡ₚ map_to_list m.

Lemma prune_top keep c :
  (0 < keep)%nat -> (keep < size (ObjectVersions c))%nat ->
  exists rest, map_to_list (ObjectVersions c) ≡ₚ map_to_list (ObjectVersions (pruneOldEntries range keep c)) ++ rest /\
    size (ObjectVersions (pruneOldEntries range keep c)) = keep /\
    forall x y, x ∈ map_to_list (ObjectVersions (pruneOldEntries range keep c)) -> y ∈ rest -> y.2 <= x.2.
Proof using range_perm.
  intros Hk Hs. unfold pruneOldEntries. destruct (Nat.leb_spec (size (ObjectVersions c)) keep); [lia|].
  cbn [ObjectVersions set_versions].
  destruct (offer_all_top entry_less keep (range (ObjectVersions c)) Hk) as (rest & Hp & Hl & Hr).
  set (h := foldl _ _ _) in *. rewrite range_perm in Hp.
  assert (NoDup h.*1) as Hn.
  { pose proof (NoDup_fst_map_to_list (ObjectVersions c)) as Hn. rewrite Hp, fmap_app, NoDup_app in Hn. apply Hn. }
  rewrite foldl_insert_entries by (done || intros; apply lookup_empty). rewrite map_union_empty.
  assert (map_to_list (list_to_map h : gmap string Z) ≡ₚ h) as Hm by by apply map_to_list_to_map.
  exists rest. split; [by rewrite Hm|]. split.
  - pose proof (Permutation_length Hm) as H1. pose proof (Permutation_length (range_perm (ObjectVersions c))) as H2.
    rewrite length_map_to_list in H1, H2. lia.
  - intros x y Hx Hy. rewrite Hm in Hx. specialize (Hr x y Hx Hy). unfold entry_less in Hr. b2p. lia.
Qed.

(** Pruning keeps exactly [keep] entries, unchanged, and none it drops is
    newer than one it keeps, whatever order the map is visited in. *)
Theorem prune_keeps_newest keep c :
  (0 < keep)%nat -> (keep < size (ObjectVersions c))%nat ->
  let kept := ObjectVersions (pruneOldEntries range keep c) in
  kept ⊆ ObjectVersions c /\ size kept = keep /\
  forall k v k' v', kept !! k = Some v -> ObjectVersions c !! k' = Some v' -> kept !! k' = None -> v' <= v.
Proof using range_perm.
  intros Hk Hs kept. destruct (prune_top keep c Hk Hs) as (rest & Hp & Hsz & Hr). fold kept in Hp, Hsz, Hr.
  split; [|split; [done|]].
  - apply map_subseteq_spec. intros k v Hkv. apply elem_of_map_to_list. rewrite Hp.
    apply elem_of_app. left. by apply elem_of_map_to_list.
  - intros k v k' v' Hkv Hkv' Hno. apply elem_of_map_to_list in Hkv'. rewrite Hp in Hkv'.
    apply elem_of_app in Hkv' as [H%elem_of_map_to_list|Hin]; [by rewrite Hno in H|].
    apply elem_of_map_to_list in Hkv. exact (Hr (k, v) (k', v') Hkv Hin).
Qed.
End prune.

Definition demo_checkpoint : SyncCheckpoint :=
  mkCheckpoint 0 (list_to_map [("a", 5); ("b", 9); ("c", 7); ("d", 1)]) 4 [].

Lemma prune_keeps_newest_witness :
  ObjectVersions (pruneOldEntries map_to_list 2 demo_checkpoint) = list_to_map [("b", 9); ("c", 7)] /\
  size (ObjectVersions (pruneOldEntries map_to_list 2 demo_checkpoint)) = 2%nat.
Proof.
  split; [by apply (bool_decide_unpack _); vm_compute|].
  apply (prune_keeps_newest map_to_list (fun m => reflexivity _) 2 demo_checkpoint); apply (bool_decide_unpack _); by vm_compute.
Defined.

(** ** Saving and loading *)

(** What the code relies on of the JSON codec. *)
Class CheckpointJSON (marshal marshalIndent : SyncCheckpoint -> option string)
    (unmarshal : string -> option SyncCheckpoint) : Prop := {
  marshal_roundtrip c data : marshal c = Some data -> unmarshal data = Some c;
  indent_roundtrip c data : marshalIndent c = Some data -> unmarshal data = Some c;
}.

Section store.
Context (range : gmap string Z -> list (string * Z)).
Context (marshal marshalIndent : SyncCheckpoint -> option string) (unmarshal : string -> option SyncCheckpoint).
Context `{!CheckpointJSON marshal marshalIndent unmarshal}.

Lemma bounded_id c : Z.of_nat (size (ObjectVersions c)) <= maxCheckpointEntries -> bounded range c = c.
Proof. intros H. unfold bounded. by rewrite (proj2 (Z.ltb_ge _ _)). Qed.

(** A checkpoint that was saved, wherever it went, is what the next load
    returns, if Redis and the file system answer then. *)
Theorem checkpoint_roundtrip e e' bucket c s st s' st' :
  Z.of_nat (size (ObjectVersions c)) <= maxCheckpointEntries ->
  Save marshal marshalIndent e bucket (Some c) s st = (Ok tt, s', st') ->
  redis_up e' = true -> file e' = FileOk ->
  Load range unmarshal e' bucket s' st' = (Ok c, s').
Proof using CheckpointJSON0.
  intros Hb HS Hr Hf.
  assert (forall s0, saveToFile marshalIndent e st bucket c = (Ok tt, st') -> negb (degraded s0) && hasRedis s0 = false ->
    Load range unmarshal e' bucket s0 st' = (Ok c, s0)) as Hfile.
  { intros s0 Hs Hd. unfold Load. rewrite Hd. unfold saveToFile in Hs.
    destruct (file e), (marshalIndent c) as [data|] eqn:Em; simplify_eq/=.
    unfold loadFromFile. rewrite Hf. cbn. rewrite lookup_insert_eq, (indent_roundtrip _ _ Em). by rewrite bounded_id. }
  unfold Save in HS. destruct (negb (degraded s) && hasRedis s) eqn:Hd.
  - destruct (saveToRedis _ _ _ _ _) as [st1|er] eqn:Es.
    + simplify_eq. unfold saveToRedis in Es. destruct (marshal c) as [data|] eqn:Em; [|done].
      destruct (redis_up e); simplify_eq. unfold Load. rewrite Hd. unfold loadFromRedis. rewrite Hr. cbn.
      rewrite lookup_insert_eq, (marshal_roundtrip _ _ Em). by rewrite bounded_id.
    + destruct (saveToFile _ _ _ _ _) as [r st1] eqn:Ef. simplify_eq. by apply Hfile.
  - destruct (saveToFile _ _ _ _ _) as [r st1] eqn:Ef. simplify_eq. by apply Hfile.
Qed.

(** A first load finds no key in Redis, which counts as a failure of Redis:
    from then on nothing is stored there. *)
Lemma first_load_degrades bucket prefix st f :
  redis st !! buildKey (NewCheckpointStore true prefix) bucket = None ->
  IsDegraded (Load range unmarshal (mkIo true f) bucket (NewCheckpointStore true prefix) st).2 = true.
Proof.
  intros H. unfold Load. change (negb _ && _) with true. unfold loadFromRedis. cbn [redis_up negb]. by rewrite H.
Qed.
End store.

(** A codec for the witnesses. *)
Definition checkpoint_text (c : SyncCheckpoint) : string :=
  encode_text (LastSyncTime c, ObjectVersions c, SyncedCount c, FailedObjects c).
Definition text_checkpoint (s : string) : option SyncCheckpoint :=
  match decode_text s : option (Z * gmap string Z * Z * list string) with
  | Some (t, m, n, f) => Some (mkCheckpoint t m n f)
  | None => None
  end.

#[export] Instance text_codec :
  CheckpointJSON (fun c => Some (checkpoint_text c)) (fun c => Some (checkpoint_text c)) text_checkpoint.
Proof.
  split; intros [] data [= <-]; unfold text_checkpoint, checkpoint_text; by rewrite decode_encode_text.
Qed.

Definition working : io := mkIo true FileOk.

Lemma checkpoint_roundtrip_witness :
  let save := Save (fun c => Some (checkpoint_text c)) (fun c => Some (checkpoint_text c)) in
  let '(_, s', st') := save working "b" (Some demo_checkpoint) (NewCheckpointStore true "") (mkStorage ∅ ∅) in
  Load map_to_list text_checkpoint working "b" s' st' = (Ok demo_checkpoint, s').
Proof.
  eapply (checkpoint_roundtrip map_to_list (fun c => Some (checkpoint_text c)) (fun c => Some (checkpoint_text c))
           text_checkpoint working working "b" demo_checkpoint (NewCheckpointStore true "") (mkStorage ∅ ∅));
    [|reflexivity|reflexivity|reflexivity].
  vm_compute. discriminate.
Defined.

(** ** Failed objects *)

Definition failed_ok (c : SyncCheckpoint) : Prop := NoDup (FailedObjects c) /\ Zlength (FailedObjects c) <= MaxFailedObjects.

Lemma remove_first_sub k l : remove_first k l `sublist_of` l.
Proof. induction l as [|x l IH]; cbn; [done|]. case_bool_decide; [by constructor|by constructor]. Qed.

(** The list of failed objects has no repetition and stays within its bound. *)
Lemma failed_objects_bounded k c :
  failed_ok c -> failed_ok (AddFailedObject k c) /\ failed_ok (RemoveFailedObject k c).
Proof.
  intros [Hn Hl]. split.
  - unfold AddFailedObject. case_bool_decide as Hin; [done|]. destruct (MaxFailedObjects <=? _) eqn:E; [done|]. b2p.
    split; cbn.
    + apply NoDup_app. split; [done|]. split; [|apply NoDup_singleton].
      intros x Hx ->%list_elem_of_singleton. done.
    + rewrite length_app. cbn. unfold MaxFailedObjects in *. lia.
  - pose proof (remove_first_sub k (FailedObjects c)) as Hs. split; cbn.
    + by eapply sublist_NoDup.
    + apply sublist_length in Hs. lia.
Qed.
