(* ===== verification/Replicator.v ===== *)
(** * The replicator (internal/replication/replicator.go)

    A cycle loads the checkpoint, lists the source bucket, picks the objects
    that are newer than the checkpoint says (the newest, up to a limit), copies
    them one by one and records each copy in the checkpoint. The world is the
    two buckets, the stored checkpoint and a clock; clients change the source
    at any time, also between the calls of a copy, and the answer of a put may
    be lost. *)

From S2P Require Import Prelude GoHeap Checkpoint.
#[local] Open Scope Z_scope.

Inductive ReplicatorStatus :=
  | StatusIdle | StatusRunning | StatusThrottled | StatusPaused | StatusError | StatusOverloaded.

Definition checkpointBatchSize : Z := 100.
Definition defaultMaxObjectsSync : Z := 10000.

(** [objectToSync] is a key with its modification time; the heap has the
    oldest at its root. *)
Definition object_less : string * Z -> string * Z -> bool := entry_less.

Record Replicator := mkReplicator {
  status : ReplicatorStatus;
  lastSyncCount : Z;
  lastSyncSkipped : Z;
  lastSyncFailed : Z;
  currentBucket : string;
  syncCycles : Z;
}.

Definition NewReplicator : Replicator := mkReplicator StatusIdle 0 0 0 "" 0.

Definition set_status (s : ReplicatorStatus) (r : Replicator) : Replicator :=
  mkReplicator s (lastSyncCount r) (lastSyncSkipped r) (lastSyncFailed r) (currentBucket r) (syncCycles r).

Definition IsRunning (r : Replicator) : bool :=
  match status r with StatusRunning | StatusThrottled => true | _ => false end.

(** ** The world *)

Record object := mkObject { content : string; modified : Z }.

Record world := mkWorld {
  src : gmap string object;
  dst : gmap string string;
  clock : Z;
  store : CheckpointStore;
  stored : storage;
}.

(** What clients do to the source bucket: the server stamps the object. *)
Inductive edit := Put (key data : string) (time : Z) | Delete (key : string).

Definition apply_edit (w : world) (e : edit) : world :=
  match e with
  | Put k d t => mkWorld (<[k := mkObject d t]> (src w)) (dst w) t (store w) (stored w)
  | Delete k => mkWorld (delete k (src w)) (dst w) (clock w) (store w) (stored w)
  end.
Definition apply_edits : world -> list edit -> world := foldl apply_edit.

(** Reading the clock. *)
Definition tick (t : Z) (w : world) : world := mkWorld (src w) (dst w) t (store w) (stored w).

Inductive throttle_result := ThrottleOk | ThrottleOverloaded | ThrottleStopped | ThrottleFailed.

(** How the put of a copy ends: stored, stored without an answer that says so,
    or not stored. *)
Inductive put_outcome := PutStored | PutLost | PutFailed.

(** One copy: whether the source answers the two calls, what clients do between
    them, how the put ends, and what it stores, if anything, when the object no
    longer has the size announced. *)
Record copy_env := mkCopy {
  stat_ok : bool;
  after_stat : list edit;
  get_ok : bool;
  put_outcome_ : put_outcome;
  mismatched : option string;
}.

(** What surrounds one object of a cycle: what clients do before it, a signal,
    the throttle's answer, the calls of the copy, what clients do between its
    reading and the end of the copy, the time recorded (the code reads the
    clock twice in a row), and what the store does if the checkpoint is saved. *)
Record step_env := mkStep {
  before : list edit;
  signal : option bool;                (* Some true: context done, Some false: stop *)
  throttle : throttle_result;
  copying : copy_env;
  meanwhile : list edit;
  time_now : Z;
  save_io : io;
}.

Inductive sync_error := ErrReplicatorStopped | CtxError | ThrottleError | ListError.

Section replicator.
Context (range : gmap string Z -> list (string * Z)).
Context (marshal marshalIndent : SyncCheckpoint -> option string) (unmarshal : string -> option SyncCheckpoint).
Context (bucket : string).

(** The bucket of a cycle. *)
Definition source_bucket (SourceBucket current : string) : string :=
  if bool_decide (SourceBucket = "") then (if bool_decide (current = "") then "default" else current) else SourceBucket.

(** ** Detection *)

Definition needs_sync (cp : SyncCheckpoint) (o : string * Z) : bool :=
  match GetObjectVersion o.1 cp with None => true | Some lastSynced => lastSynced <? o.2 end.

Definition max_objects (MaxObjectsPerSync : Z) : nat :=
  Z.to_nat (if MaxObjectsPerSync <=? 0 then defaultMaxObjectsSync else MaxObjectsPerSync).

(** The loop over the listing; an entry may be an error. *)
Fixpoint collect (limit : nat) (cp : SyncCheckpoint) (h : list (string * Z))
    (listing : list (option (string * Z))) : option (list (string * Z)) :=
  match listing with
  | [] => Some h
  | None :: _ => None
  | Some o :: listing =>
      if bool_decide (o.1 = "") then collect limit cp h listing else
      if needs_sync cp o then collect limit cp (offer object_less limit h o) listing
      else collect limit cp h listing
  end.

(** The objects, filled in from the end as the oldest are popped. *)
Fixpoint drain (n : nat) (h acc : list (string * Z)) : list (string * Z) :=
  match n with
  | O => acc
  | S n => let '(o, h') := Pop object_less h in drain n h' (o :: acc)
  end.

Definition detectIncremental (limit : nat) (load_io : io) (listing : list (option (string * Z))) (w : world)
    : result sync_error (SyncCheckpoint * list string) * world :=
  let '(r, s') := Load range unmarshal load_io bucket (store w) (stored w) in
  let w := mkWorld (src w) (dst w) (clock w) s' (stored w) in
  let cp := match r with Ok cp => cp | Err _ => NewSyncCheckpoint end in
  match collect limit cp [] listing with
  | None => (Err ListError, w)
  | Some h => (Ok (cp, (drain (length h) h []).*1), w)
  end.

(** ** Copying *)

(** The size comes from the first call, the content from a later one, and the
    destination is given both. *)
Definition copyObject (c : copy_env) (key : string) (w : world) : bool * world :=
  match (if stat_ok c then src w !! key else None) with
  | None => (false, w)
  | Some objInfo =>
      let w := apply_edits w (after_stat c) in
      match (if get_ok c then src w !! key else None) with
      | None => (false, w)
      | Some o =>
          let data := if (String.length (content o) =? String.length (content objInfo))%nat then Some (content o) else mismatched c in
          match data, put_outcome_ c with
          | Some d, PutStored => (true, mkWorld (src w) (<[key := d]> (dst w)) (clock w) (store w) (stored w))
          | Some d, PutLost => (false, mkWorld (src w) (<[key := d]> (dst w)) (clock w) (store w) (stored w))
          | _, _ => (false, w)
          end
      end
  end.

Definition save (e : io) (cp : SyncCheckpoint) (w : world) : world :=
  let '(_, s', st') := Save marshal marshalIndent e bucket (Some cp) (store w) (stored w) in
  mkWorld (src w) (dst w) (clock w) s' st'.

Record progress := mkProgress { synced : Z; skipped : Z; failed : Z }.

(** How the loop over the objects ends: through, or early with an error. *)
Record loop_end := mkEnd {
  end_error : option sync_error;
  end_status : ReplicatorStatus;
  end_progress : progress;
  end_checkpoint : SyncCheckpoint;
  end_world : world;
}.

(** [save_on_stop] tells [syncOnce] from [SyncBucket], which returns the
    throttle's error as it is. *)
Fixpoint sync_loop (save_on_stop : bool) (total i : Z) (keys : list string) (env : Z -> step_env) (p : progress) (cp : SyncCheckpoint)
    (w : world) : loop_end :=
  match keys with
  | [] => mkEnd None StatusRunning p cp w
  | key :: keys =>
      let e := env i in
      let w := apply_edits w (before e) in
      match signal e with
      | Some ctx => mkEnd (Some (if ctx then CtxError else ErrReplicatorStopped)) StatusRunning p cp (save (save_io e) cp w)
      | None =>
          match throttle e with
          | ThrottleOverloaded =>
              mkEnd None StatusThrottled (mkProgress (synced p) (total - synced p - failed p) (failed p)) cp w
          | ThrottleStopped =>
              if save_on_stop then mkEnd (Some ErrReplicatorStopped) StatusRunning p cp (save (save_io e) cp w)
              else mkEnd (Some ThrottleError) StatusRunning p cp w
          | ThrottleFailed => mkEnd (Some ThrottleError) StatusRunning p cp w
          | ThrottleOk =>
              match copyObject (copying e) key w with
              | (false, w) =>
                  let w := apply_edits w (meanwhile e) in
                  sync_loop save_on_stop total (i + 1) keys env (mkProgress (synced p) (skipped p) (failed p + 1)) cp w
              | (true, w) =>
                  let w := tick (time_now e) (apply_edits w (meanwhile e)) in
                  let cp := UpdateObjectVersion range (time_now e) key (time_now e) cp in
                  let w := if (i + 1) mod checkpointBatchSize =? 0 then save (save_io e) cp w else w in
                  sync_loop save_on_stop total (i + 1) keys env (mkProgress (synced p + 1) (skipped p) (failed p)) cp w
              end
          end
      end
  end.

(** What surrounds a cycle. *)
Record cycle_env := mkCycle {
  stopped : option bool;               (* a signal at the start *)
  overloaded : bool;
  load_io : io;
  listing : list (option (string * Z));
  steps : Z -> step_env;
  final_io : io;
}.

Definition syncOnce (limit : nat) (e : cycle_env) (r : Replicator) (w : world)
    : option sync_error * Replicator * world :=
  match stopped e with
  | Some ctx => (Some (if ctx then CtxError else ErrReplicatorStopped), r, w)
  | None =>
      if overloaded e then (None, set_status StatusOverloaded r, w) else
      let r := mkReplicator StatusRunning (lastSyncCount r) (lastSyncSkipped r) (lastSyncFailed r) bucket (syncCycles r) in
      match detectIncremental limit (load_io e) (listing e) w with
      | (Err x, w) => (Some x, set_status StatusError r, w)
      | (Ok (cp, keys), w) =>
          match keys with
          | [] => (None, set_status StatusIdle r, w)
          | _ =>
              let l := sync_loop true (Zlength keys) 0 keys (steps e) (mkProgress 0 0 0) cp w in
              match end_error l with
              | Some x => (Some x, set_status (end_status l) r, end_world l)
              | None =>
                  let p := end_progress l in
                  (None, mkReplicator StatusIdle (synced p) (skipped p) (failed p) bucket (syncCycles r + 1),
                   save (final_io e) (end_checkpoint l) (end_world l))
              end
          end
      end
  end.

(** [SyncBucket] runs the same loop and reports the numbers. *)
Definition SyncBucket (limit : nat) (e : cycle_env) (w : world) : result sync_error progress * world :=
  match detectIncremental limit (load_io e) (listing e) w with
  | (Err x, w) => (Err x, w)
  | (Ok (cp, keys), w) =>
      let l := sync_loop false (Zlength keys) 0 keys (steps e) (mkProgress 0 0 0) cp w in
      match end_error l with
      | Some x => (Err x, end_world l)
      | None => (Ok (end_progress l), save (final_io e) (end_checkpoint l) (end_world l))
      end
  end.
End replicator.
