(* ===== verification/ReplicatorTheorems.v ===== *)
(** * Properties of the replicator

    What a checkpoint says is copied is copied: the invariant of every run in
    which no client changes an object between the first call of its copy and
    its time stamp.
    From it: when a cycle finds nothing to do, the destination holds the
    source; and once clients pause, enough cycles get there. *)

From S2P Require Import Prelude GoStrings GoHeap Checkpoint Replicator.
#[local] Open Scope Z_scope.

Lemma to_nat_pos z : 0 < z -> (0 < Z.to_nat z)%nat.
Proof. lia. Qed.

(** ** Time *)

(** Clients' changes after an instant, each later than the last. *)
Fixpoint edits_from (c : Z) (es : list edit) : Prop :=
  match es with
  | [] => True
  | Put _ _ t :: es => c < t /\ edits_from t es
  | Delete _ :: es => edits_from c es
  end.

Fixpoint clock_edits (c : Z) (es : list edit) : Z :=
  match es with [] => c | Put _ _ t :: es => clock_edits t es | Delete _ :: es => clock_edits c es end.

Definition edit_key (e : edit) : string := match e with Put k _ _ => k | Delete k => k end.

Section invariant.
Context (range : gmap string Z -> list (string * Z)).
Hypothesis range_perm : forall m, range m ≡ₚ map_to_list m.
Context (marshal marshalIndent : SyncCheckpoint -> option string) (unmarshal : string -> option SyncCheckpoint).
Context `{!CheckpointJSON marshal marshalIndent unmarshal}.
Context (bucket : string).

(** A write that is cut off leaves no readable checkpoint. *)
Definition io_ok (e : io) : Prop := match file e with FileTorn part => unmarshal part = None | _ => True end.

(** What an object copied at or after its last change looks like. *)
Definition cp_ok (w : world) (cp : SyncCheckpoint) : Prop :=
  forall k t, ObjectVersions cp !! k = Some t ->
    t <= clock w /\ forall o, src w !! k = Some o -> modified o <= t -> dst w !! k = Some (content o).

Definition stored_ok (w : world) : Prop :=
  forall data cp, unmarshal data = Some cp ->
    redis (stored w) !! buildKey (store w) bucket = Some data \/
    files (stored w) !! getFallbackPath bucket = Some data -> cp_ok w cp.

Lemma cp_ok_subset w cp cp' : ObjectVersions cp' ⊆ ObjectVersions cp -> cp_ok w cp -> cp_ok w cp'.
Proof. intros Hs H k t Hk. apply H. by eapply lookup_weaken. Qed.

Lemma cp_ok_new w : cp_ok w NewSyncCheckpoint.
Proof. intros k t Hk. cbn in Hk. by rewrite lookup_empty in Hk. Qed.

Lemma prune_subset keep c : (0 < keep)%nat -> ObjectVersions (pruneOldEntries range keep c) ⊆ ObjectVersions c.
Proof using range_perm.
  intros Hk. destruct (decide (size (ObjectVersions c) <= keep)%nat).
  - unfold pruneOldEntries. by rewrite (proj2 (Nat.leb_le _ _)).
  - destruct (prune_top range range_perm keep c Hk) as (rest & Hp & _); [lia|].
    apply map_subseteq_spec. intros k v Hkv. apply elem_of_map_to_list. rewrite Hp.
    apply elem_of_app. left. by apply elem_of_map_to_list.
Qed.

Lemma bounded_subset c : ObjectVersions (bounded range c) ⊆ ObjectVersions c.
Proof using range_perm.
  unfold bounded. destruct (_ <? _); [|done]. by apply prune_subset, to_nat_pos.
Qed.

(** ** The steps keep the invariant *)

Lemma cp_ok_edit w c e cp :
  clock w <= c -> edits_from c [e] -> cp_ok w cp ->
  cp_ok (apply_edit w e) cp /\ clock w <= clock (apply_edit w e) <= clock_edits c [e].
Proof.
  intros Hc He H. destruct e as [k d t|k]; cbn in *.
  - split; [|lia]. intros k' t' Hk'. destruct (H k' t' Hk') as [Ht Ho]. split; [cbn; lia|]. cbn. intros o.
    destruct (decide (k' = k)) as [->|]; [|rewrite lookup_insert_ne by done; apply Ho].
    rewrite lookup_insert_eq. intros [= <-]. cbn. lia.
  - split; [|lia]. intros k' t' Hk'. destruct (H k' t' Hk') as [Ht Ho]. split; [done|]. cbn. intros o Hd.
    apply lookup_delete_Some in Hd as [_ Hd]. by apply Ho.
Qed.

Lemma edits_from_cons c e es : edits_from c (e :: es) -> edits_from c [e] /\ edits_from (clock_edits c [e]) es.
Proof. destruct e; cbn; tauto. Qed.

Lemma clock_edits_cons c e es : clock_edits c (e :: es) = clock_edits (clock_edits c [e]) es.
Proof. by destruct e. Qed.

Lemma cp_ok_edits w c es cp :
  clock w <= c -> edits_from c es -> cp_ok w cp ->
  cp_ok (apply_edits w es) cp /\ clock w <= clock (apply_edits w es) <= clock_edits c es.
Proof.
  revert w c. induction es as [|e es IH]; intros w c Hc Hes H; [done|].
  apply edits_from_cons in Hes as [He Hes]. rewrite clock_edits_cons.
  destruct (cp_ok_edit w c e cp Hc He H) as [H' Hc'].
  destruct (IH (apply_edit w e) (clock_edits c [e])) as [H2 Hc2]; [lia|done|done|]. split; [done|].
  change (apply_edits w (e :: es)) with (apply_edits (apply_edit w e) es). lia.
Qed.

Lemma apply_edits_same w es :
  dst (apply_edits w es) = dst w /\ store (apply_edits w es) = store w /\ stored (apply_edits w es) = stored w.
Proof. revert w. induction es as [|[] es IH]; intros w; cbn; [done|..]; by rewrite !(proj1 (IH _)), !(proj1 (proj2 (IH _))), !(proj2 (proj2 (IH _))). Qed.

Lemma apply_edits_src w es k : Forall (fun e => edit_key e <> k) es -> src (apply_edits w es) !! k = src w !! k.
Proof.
  revert w. induction es as [|e es IH]; intros w H; [done|]. inversion H; subst.
  change (apply_edits w (e :: es)) with (apply_edits (apply_edit w e) es). rewrite IH by done.
  destruct e; cbn in *; [by rewrite lookup_insert_ne|by rewrite lookup_delete_ne].
Qed.

(** Nobody changes the object while it is copied. *)
Definition left_alone (key : string) (es : list edit) : Prop := Forall (fun x => edit_key x <> key) es.

(** What a copy of such an object does: it fails and changes nothing, or the
    destination has the object, whether or not the put was answered. *)
Lemma copy_cases c key w ok w' :
  left_alone key (after_stat c) -> copyObject c key w = (ok, w') ->
  let w1 := apply_edits w (after_stat c) in
  ok = false /\ (w' = w \/ w' = w1) \/
  exists o, src w1 !! key = Some o /\ w' = mkWorld (src w1) (<[key := content o]> (dst w1)) (clock w1) (store w1) (stored w1).
Proof.
  intros Hl. unfold copyObject. destruct (if stat_ok c then _ else _) as [o0|] eqn:E0; [|intros [= <- <-]; auto].
  destruct (stat_ok c); [|done]. destruct (get_ok c); [|intros [= <- <-]; auto].
  rewrite (apply_edits_src _ _ _ Hl), E0, Nat.eqb_refl.
  destruct (put_outcome_ c); intros [= <- <-]; [right; by exists o0..|auto].
Qed.

Lemma cp_ok_copied w key o cp : src w !! key = Some o -> cp_ok w cp ->
  cp_ok (mkWorld (src w) (<[key := content o]> (dst w)) (clock w) (store w) (stored w)) cp.
Proof.
  intros E H k t Hk. destruct (H k t Hk) as [Ht Ho]. split; [done|]. cbn. intros o' Ho' Hm.
  destruct (decide (k = key)) as [->|]; [|rewrite lookup_insert_ne by done; auto].
  rewrite lookup_insert_eq. by simplify_eq.
Qed.

(** The time at which a copy ends, and what it keeps. *)
Lemma cp_ok_copy w w' c cl ok key cp :
  clock w <= cl -> edits_from cl (after_stat c) -> left_alone key (after_stat c) -> copyObject c key w = (ok, w') -> cp_ok w cp ->
  cp_ok w' cp /\ clock w <= clock w' <= clock_edits cl (after_stat c) /\ keyPrefix (store w') = keyPrefix (store w) /\ stored w' = stored w /\
  (ok = true -> exists o, src w' !! key = Some o /\ dst w' !! key = Some (content o)).
Proof.
  intros Hc He Hl Hcopy Hcp. destruct (cp_ok_edits w cl (after_stat c) cp Hc He Hcp) as [H1 Hc1].
  destruct (apply_edits_same w (after_stat c)) as (_ & Es & Et).
  destruct (copy_cases _ _ _ _ _ Hl Hcopy) as [(-> & [-> | ->])|(o & Ho & ->)].
  - split_and!; try done; lia.
  - split_and!; try done; [lia|lia|by rewrite Es].
  - split_and!; [by apply cp_ok_copied|cbn; lia|cbn; lia|cbn; by rewrite Es|done|].
    intros _. exists o. cbn. split; [done|apply lookup_insert_eq].
Qed.

(** A copy that no client disturbed may be recorded with the current time. *)
Lemma cp_ok_update w t key o cp :
  cp_ok w cp -> clock w <= t -> src w !! key = Some o -> dst w !! key = Some (content o) ->
  cp_ok (tick t w) (UpdateObjectVersion range t key t cp).
Proof using range_perm.
  intros H Hc Hs Hd. unfold UpdateObjectVersion. set (cp' := if _ : bool then _ else _).
  assert (cp_ok w cp') as H'.
  { subst cp'. destruct (_ <=? _); [|done]. eapply cp_ok_subset; [by apply prune_subset, to_nat_pos|done]. }
  intros k v. cbn. destruct (decide (k = key)) as [->|].
  - rewrite lookup_insert_eq. intros [= <-]. split; [done|]. intros o' Ho' _. by simplify_eq.
  - rewrite lookup_insert_ne by done. intros Hk. destruct (H' k v Hk). split; [lia|done].
Qed.

Abbreviation save_ := (save marshal marshalIndent bucket).

Lemma save_same e cp w : src (save_ e cp w) = src w /\ dst (save_ e cp w) = dst w /\ clock (save_ e cp w) = clock w.
Proof. unfold save. by destruct (Save _ _ _ _ _ _ _) as [[? ?] ?]. Qed.

Lemma cp_ok_ext w w' cp :
  src w' = src w -> dst w' = dst w -> clock w' = clock w -> cp_ok w cp -> cp_ok w' cp.
Proof. unfold cp_ok. by intros -> -> ->. Qed.

Lemma stored_ok_mono w w' :
  (forall cp, cp_ok w cp -> cp_ok w' cp) -> keyPrefix (store w') = keyPrefix (store w) -> stored w' = stored w ->
  stored_ok w -> stored_ok w'.
Proof.
  unfold stored_ok, buildKey. intros Hcp -> -> H data cp Hd Hin. by eapply Hcp, H.
Qed.

Lemma stored_ok_file e w cp r st' :
  saveToFile marshalIndent e (stored w) bucket cp = (r, st') -> io_ok e -> cp_ok w cp -> stored_ok w ->
  forall d, stored_ok (mkWorld (src w) (dst w) (clock w) (mkStore (hasRedis (store w)) (keyPrefix (store w)) d) st').
Proof using CheckpointJSON0.
  intros HS Hio Hcp Hst d data cp' Hu Hin. change (cp_ok w cp'). cbn [stored store] in Hin.
  unfold saveToFile in HS. unfold io_ok in Hio.
  destruct (file e) as [| |part], (marshalIndent cp) as [text|] eqn:Em; simplify_eq/=; try by eapply Hst.
  - destruct Hin as [Hin|Hin]; [by eapply Hst; [done|left]|]. rewrite lookup_insert_eq in Hin. simplify_eq.
    rewrite (indent_roundtrip _ _ Em) in Hu. by simplify_eq.
  - destruct Hin as [Hin|Hin]; [by eapply Hst; [done|left]|]. rewrite lookup_insert_eq in Hin. simplify_eq.
Qed.

Lemma stored_ok_save e cp w : io_ok e -> cp_ok w cp -> stored_ok w -> stored_ok (save_ e cp w).
Proof using CheckpointJSON0.
  intros Hio Hcp Hst. unfold save, Save.
  assert (forall d r st', saveToFile marshalIndent e (stored w) bucket cp = (r, st') ->
    stored_ok (mkWorld (src w) (dst w) (clock w) (mkStore (hasRedis (store w)) (keyPrefix (store w)) d) st')) as Hfile
    by (intros; by eapply stored_ok_file).
  destruct (negb _ && _).
  - unfold saveToRedis at 1. destruct (marshal cp) as [text|] eqn:Em; [destruct (redis_up e)|].
    + intros data cp' Hu Hin. change (cp_ok w cp'). cbn in Hin.
      destruct Hin as [Hin|Hin]; [|by eapply Hst; [done|right]]. rewrite lookup_insert_eq in Hin. simplify_eq.
      rewrite (marshal_roundtrip _ _ Em) in Hu. by simplify_eq.
    + destruct (saveToFile _ _ _ _ _) as [r st']. by eapply Hfile.
    + destruct (saveToFile _ _ _ _ _) as [r st']. by eapply Hfile.
  - destruct (saveToFile _ _ _ _ _) as [r st']. specialize (Hfile (degraded (store w)) _ _ eq_refl).
    by destruct (store w).
Qed.

(** ** A cycle keeps the invariant *)

(** Time goes on; nobody changes the object while it is copied and stamped. *)
Fixpoint steps_from (c i : Z) (keys : list string) (env : Z -> step_env) : Prop :=
  match keys with
  | [] => True
  | key :: keys =>
      let e := env i in
      edits_from c (before e) /\
      let c1 := clock_edits c (before e) in
      let c2 := clock_edits c1 (after_stat (copying e)) in
      edits_from c1 (after_stat (copying e)) /\ edits_from c2 (meanwhile e) /\
      left_alone key (after_stat (copying e)) /\ left_alone key (meanwhile e) /\
      clock_edits c2 (meanwhile e) <= time_now e /\
      io_ok (save_io e) /\ steps_from (time_now e) (i + 1) keys env
  end.

Abbreviation loop := (sync_loop range marshal marshalIndent bucket).

Lemma stored_ok_edits w c es :
  clock w <= c -> edits_from c es -> stored_ok w -> stored_ok (apply_edits w es).
Proof.
  intros Hc Hes. destruct (apply_edits_same w es) as (_ & Es & Et). apply stored_ok_mono; [|by rewrite Es|done].
  intros cp Hcp. by eapply cp_ok_edits.
Qed.

Lemma loop_ok sos total keys : forall i env p cp w c,
  clock w <= c -> steps_from c i keys env -> cp_ok w cp -> stored_ok w ->
  cp_ok (end_world (loop sos total i keys env p cp w)) (end_checkpoint (loop sos total i keys env p cp w)) /\
  stored_ok (end_world (loop sos total i keys env p cp w)).
Proof using CheckpointJSON0 range_perm.
  induction keys as [|key keys IH]; intros i env p cp w c Hc Hs Hcp Hst; [done|].
  destruct Hs as (Hb & Ha & Hm & Hla & Hun & Ht & Hio & Hs). cbn [sync_loop]. set (e := env i) in *.
  destruct (cp_ok_edits w c (before e) cp Hc Hb Hcp) as [Hcp1 Hc1].
  pose proof (stored_ok_edits w c (before e) Hc Hb Hst) as Hst1.
  set (w1 := apply_edits w (before e)) in *. set (c1 := clock_edits c (before e)) in *.
  assert (cp_ok (save_ (save_io e) cp w1) cp /\ stored_ok (save_ (save_io e) cp w1)) as Hsave.
  { split; [|by apply stored_ok_save]. destruct (save_same (save_io e) cp w1) as (? & ? & ?). by eapply cp_ok_ext. }
  destruct (signal e); [done|]. destruct (throttle e); [|done|by destruct sos|done].
  set (c2 := clock_edits c1 (after_stat (copying e))) in *.
  destruct (copyObject (copying e) key w1) as [ok w2] eqn:Ecopy.
  destruct (cp_ok_copy w1 w2 (copying e) c1 ok key cp ltac:(lia) Ha Hla Ecopy Hcp1) as (Hcp2 & Hc2 & Es2 & Et2 & Hok). fold c2 in Hc2.
  assert (stored_ok w2) as Hst2.
  { apply (stored_ok_mono w1); [|done..]. intros cp0 H. by apply (cp_ok_copy w1 w2 (copying e) c1 ok key cp0 ltac:(lia) Ha Hla Ecopy H). }
  destruct (cp_ok_edits w2 c2 (meanwhile e) cp) as [Hcp3 Hc3]; [lia|done|done|].
  pose proof (stored_ok_edits w2 c2 (meanwhile e) ltac:(lia) Hm Hst2) as Hst3.
  set (w3 := apply_edits w2 (meanwhile e)) in *.
  destruct ok; [|eapply IH; [|exact Hs|done|done]; lia].
  assert (exists o, src w3 !! key = Some o /\ dst w3 !! key = Some (content o)) as (o & Hso & Hdo).
  { subst w3. rewrite apply_edits_src by done. rewrite (proj1 (apply_edits_same w2 _)). by apply Hok. }
  pose proof (cp_ok_update w3 (time_now e) key o cp Hcp3 ltac:(lia) Hso Hdo) as Hcp4.
  assert (stored_ok (tick (time_now e) w3)) as Hst4.
  { apply (stored_ok_mono w3); [|done..]. intros cp0 H k t Hk.
    destruct (H k t Hk). split; [cbn; lia|done]. }
  set (cp4 := UpdateObjectVersion _ _ _ _ _) in *. set (w4 := tick _ _) in *.
  destruct (_ =? 0).
  - destruct (save_same (save_io e) cp4 w4) as (? & ? & Eck). eapply IH; [|exact Hs| |].
    + rewrite Eck. done.
    + by eapply cp_ok_ext.
    + by apply stored_ok_save.
  - eapply IH; [|exact Hs|done|done]. done.
Qed.

Abbreviation detect := (detectIncremental range unmarshal bucket).

Lemma load_same e w r s' : Load range unmarshal e bucket (store w) (stored w) = (r, s') -> keyPrefix s' = keyPrefix (store w).
Proof. unfold Load. destruct (_ && _); [destruct (loadFromRedis _ _ _ _ _)|]; by intros [= _ <-]. Qed.

Lemma load_ok e w cp s' :
  stored_ok w -> Load range unmarshal e bucket (store w) (stored w) = (Ok cp, s') -> cp_ok w cp.
Proof using range_perm.
  intros Hst.
  assert (forall data c, unmarshal data = Some c ->
    redis (stored w) !! buildKey (store w) bucket = Some data \/
    files (stored w) !! getFallbackPath bucket = Some data -> cp_ok w (bounded range c)) as Hb
    by (intros; eapply cp_ok_subset; [apply bounded_subset|by eapply Hst]).
  assert (forall c, loadFromFile range unmarshal e (stored w) bucket = Ok c -> cp_ok w c) as Hf.
  { unfold loadFromFile. intros c. destruct (negb _); [done|]. destruct (files (stored w) !! _) as [data|] eqn:E.
    - destruct (unmarshal data) eqn:Eu; [|done]. intros [= <-]. eapply Hb; [done|by right].
    - intros [= <-]. apply cp_ok_new. }
  unfold Load. destruct (_ && _).
  - destruct (loadFromRedis _ _ _ _ _) as [c|] eqn:E; intros [= H <-]; [|by apply Hf]. subst.
    unfold loadFromRedis in E. destruct (negb _); [done|]. destruct (redis (stored w) !! _) as [data|] eqn:Er; [|done].
    destruct (unmarshal data) eqn:Eu; simplify_eq. eapply Hb; [done|by left].
  - intros [= H <-]. by apply Hf.
Qed.

Lemma detect_ok limit e listing w r w' :
  stored_ok w -> detect limit e listing w = (r, w') ->
  src w' = src w /\ dst w' = dst w /\ clock w' = clock w /\ stored_ok w' /\
  match r with Ok (cp, _) => cp_ok w cp | Err _ => True end.
Proof using range_perm.
  intros Hst. unfold detectIncremental. destruct (Load _ _ _ _ _ _) as [rl s'] eqn:EL.
  assert (stored_ok (mkWorld (src w) (dst w) (clock w) s' (stored w))) as Hst'.
  { apply (stored_ok_mono w); [|by eapply load_same|done..]. intros cp. by apply cp_ok_ext. }
  destruct (collect _ _ _ _) as [h|]; intros [= <- <-]; split_and!; try done.
  destruct rl; [by eapply load_ok|apply cp_ok_new].
Qed.

Definition cycle_ok (limit : nat) (e : cycle_env) (w : world) : Prop :=
  io_ok (final_io e) /\
  forall cp keys w', detect limit (load_io e) (listing e) w = (Ok (cp, keys), w') -> steps_from (clock w) 0 keys (steps e).

Lemma cycle_keeps sos limit e w cp keys w' :
  stored_ok w -> cycle_ok limit e w -> detect limit (load_io e) (listing e) w = (Ok (cp, keys), w') ->
  let l := loop sos (Zlength keys) 0 keys (steps e) (mkProgress 0 0 0) cp w' in
  stored_ok (end_world l) /\ stored_ok (save_ (final_io e) (end_checkpoint l) (end_world l)).
Proof using CheckpointJSON0 range_perm.
  intros Hst [Hio Hs] Hd l. destruct (detect_ok _ _ _ _ _ _ Hst Hd) as (E1 & E2 & E3 & Hst' & Hcp).
  destruct (loop_ok sos (Zlength keys) keys 0 (steps e) (mkProgress 0 0 0) cp w' (clock w)) as [Hc Hl];
    [lia|by eapply Hs|by eapply cp_ok_ext|done|]. split; [done|by apply stored_ok_save].
Qed.

(** The worlds a replicator can get into: changes by clients, cycles, and
    buckets synchronised on request, in any order. *)
Inductive reachable : world -> Prop :=
  | r_start s d c st : redis st = ∅ -> files st = ∅ -> map_Forall (fun _ o => modified o <= c) s ->
      forall cs, reachable (mkWorld s d c cs st)
  | r_edit w e : reachable w -> edits_from (clock w) [e] -> reachable (apply_edit w e)
  | r_cycle w limit e r : reachable w -> cycle_ok limit e w ->
      reachable (syncOnce range marshal marshalIndent unmarshal bucket limit e r w).2
  | r_bucket w limit e : reachable w -> cycle_ok limit e w ->
      reachable (SyncBucket range marshal marshalIndent unmarshal bucket limit e w).2.

Lemma replicas_ok w : reachable w -> stored_ok w.
Proof using CheckpointJSON0 range_perm.
  induction 1 as [s d c st Hr Hf Hm cs|w e _ IH He|w limit e r _ IH Hc|w limit e _ IH Hc].
  - intros data cp _ [H|H]; cbn in H; [rewrite Hr in H|rewrite Hf in H]; by rewrite lookup_empty in H.
  - eapply (stored_ok_edits w _ [e]); [reflexivity|done|done].
  - unfold syncOnce. destruct (stopped e); [done|]. destruct (overloaded e); [done|].
    destruct (detect _ _ _ _) as [[[cp keys]|x] w'] eqn:Hd; [|by eapply detect_ok in Hd as (_ & _ & _ & ? & _)].
    pose proof (cycle_keeps true limit e w cp keys w' IH Hc Hd) as [H1 H2].
    destruct keys as [|k keys]; [by eapply detect_ok in Hd as (_ & _ & _ & ? & _)|].
    by destruct (end_error _).
  - unfold SyncBucket. destruct (detect _ _ _ _) as [[[cp keys]|x] w'] eqn:Hd; [|by eapply detect_ok in Hd as (_ & _ & _ & ? & _)].
    pose proof (cycle_keeps false limit e w cp keys w' IH Hc Hd) as [H1 H2].
    by destruct (end_error _).
Qed.

(** ** Detection *)

Definition objects (w : world) : list (string * Z) := (fun '(k, o) => (k, modified o)) <$> map_to_list (src w).

Definition pending (cp : SyncCheckpoint) (w : world) : list (string * Z) := List.filter (needs_sync cp) (objects w).

(** The listing shows every object once, in any order. *)
Definition complete (l : list (option (string * Z))) (w : world) : Prop :=
  exists os, l = Some <$> os /\ os ≡ₚ objects w.

Lemma elem_of_objects w k t : (k, t) ∈ objects w <-> exists o, src w !! k = Some o /\ modified o = t.
Proof.
  unfold objects. rewrite list_elem_of_fmap. split.
  - intros ([k' o] & [= -> ->] & H%elem_of_map_to_list). eauto.
  - intros (o & H & <-). exists (k, o). split; [done|by apply elem_of_map_to_list].
Qed.

Lemma collect_all limit cp os : forall h,
  (forall o, o ∈ os -> o.1 <> "") ->
  collect limit cp h (Some <$> os) = Some (foldl (offer object_less limit) h (List.filter (needs_sync cp) os)).
Proof.
  induction os as [|o os IH]; intros h Hne; [done|]. cbn [fmap list_fmap collect List.filter].
  rewrite bool_decide_false by (apply Hne; by left).
  destruct (needs_sync cp o); apply IH; intros; apply Hne; by right.
Qed.

Lemma filter_perm {A} (P : A -> bool) (l k : list A) : l ≡ₚ k -> List.filter P l ≡ₚ List.filter P k.
Proof.
  induction 1; cbn; [done|..].
  - destruct (P x); [by constructor|done].
  - destruct (P x), (P y); try done. constructor.
  - by etransitivity.
Qed.

(** Emptying the heap into the list: newest first. *)
Definition newer (a b : string * Z) : Prop := b.2 <= a.2.

Lemma drain_sorted h acc :
  heap object_less (length h) h -> StronglySorted newer acc -> (forall a b, a ∈ acc -> b ∈ h -> a.2 <= b.2) ->
  drain (length h) h acc ≡ₚ h ++ acc /\ StronglySorted newer (drain (length h) h acc).
Proof.
  remember (length h) as n eqn:En. revert h acc En. induction n as [|n IH]; intros h acc En Hh Hs Hle.
  { destruct h; [done|discriminate En]. }
  cbn [drain]. destruct (Pop object_less h) as [x h'] eqn:EP.
  assert (h <> []) as Hne by by intros ->.
  rewrite En in Hh. destruct (Pop_spec object_less h x h' Hne Hh EP) as (Hx & Hp & Hh').
  pose proof (Permutation_length Hp) as Hl. cbn in Hl.
  assert (forall b, b ∈ h -> x.2 <= b.2) as Hmin.
  { intros b (k & Hk)%list_elem_of_lookup. rewrite Hx, <- (list_lookup_total_correct _ _ _ Hk).
    pose proof (heap_root object_less (length h) h k Hh (lookup_lt_Some _ _ _ Hk)) as Hr.
    unfold object_less, entry_less in Hr. b2p. lia. }
  destruct (IH h' (x :: acc)) as [Hperm Hsorted]; [lia| | | |].
  - replace n with (length h') by lia. done.
  - constructor; [done|]. apply Forall_forall. intros a Ha. unfold newer. apply Hle; [done|]. rewrite Hp. by left.
  - intros a b [->|Ha]%elem_of_cons Hb; [apply Hmin|apply Hle; [done|]]; rewrite Hp; by right.
  - split; [|done]. rewrite Hperm, Hp. cbn. by rewrite Permutation_middle.
Qed.

(** What a detection picks: the newest of the pending objects. *)
Lemma detect_keys limit io listing w cp keys w' :
  (0 < limit)%nat -> src w !! "" = None -> complete listing w ->
  detect limit io listing w = (Ok (cp, keys), w') ->
  exists picked, keys = picked.*1 /\ StronglySorted newer picked /\ top object_less limit (pending cp w) picked.
Proof.
  intros Hlim Hne (os & -> & Hos) Hd. unfold detectIncremental in Hd.
  destruct (Load _ _ _ _ _ _) as [rl s']. set (cp0 := match rl with Ok c => c | Err _ => _ end) in *.
  rewrite collect_all in Hd.
  2:{ intros [k t] Hin Hk. cbn in Hk. subst k. rewrite Hos in Hin. apply elem_of_objects in Hin as (o & Ho & _).
      by rewrite Hne in Ho. }
  injection Hd as <- <- _. set (h := foldl _ _ _).
  destruct (offers_top object_less limit (List.filter (needs_sync cp0) os) [] [] Hlim) as [Hh Ht];
    [intros k Hk; cbn in Hk; lia| |].
  { exists []. split; [done|]. split; [cbn; lia|]. intros x y Hx. by apply elem_of_nil in Hx. }
  fold h in Hh, Ht. destruct (drain_sorted h [] Hh) as [Hp Hsd]; [constructor| |].
  { intros a b Ha. by apply elem_of_nil in Ha. }
  eexists. split; [done|]. split; [exact Hsd|]. rewrite app_nil_r in Hp, Ht.
  destruct Ht as (rest & Hr & Hlen & Hle). rewrite reverse_Permutation in Hr, Hlen.
  exists rest. unfold pending. rewrite <- (filter_perm _ _ _ Hos). split; [by rewrite Hp|]. split.
  - by rewrite (Permutation_length Hp).
  - intros x y Hx. rewrite Hp in Hx. by apply Hle.
Qed.

(** C33: what a cycle may skip. Take a world reached from empty checkpoints by
    any mix of clients' changes, cycles and requested synchronisations in which
    no object changed between the first call of its copy and its time stamp,
    and in which the two clocks agree. Then what a cycle does not pick because
    of its checkpoint is at the destination as it is at the source; if it finds
    nothing to do, every object of the source is. The picked objects are the
    newest pending ones, newest first. Calls may fail, and answers of puts be
    lost, at any time; objects deleted at the source stay at the destination. *)
Theorem replication_safe limit io listing w cp keys w' :
  (0 < limit)%nat -> reachable w -> src w !! "" = None -> complete listing w ->
  detect limit io listing w = (Ok (cp, keys), w') ->
  (forall k o, src w !! k = Some o -> needs_sync cp (k, modified o) = false -> dst w !! k = Some (content o)) /\
  (keys = [] -> forall k o, src w !! k = Some o -> dst w !! k = Some (content o)) /\
  exists picked, keys = picked.*1 /\ StronglySorted newer picked /\ top object_less limit (pending cp w) picked.
Proof using CheckpointJSON0 range_perm.
  intros Hlim Hr Hne Hc Hd. pose proof (replicas_ok w Hr) as Hst.
  destruct (detect_ok _ _ _ _ _ _ Hst Hd) as (_ & _ & _ & _ & Hcp).
  destruct (detect_keys _ _ _ _ _ _ _ Hlim Hne Hc Hd) as (picked & -> & Hs & Ht).
  assert (forall k o, src w !! k = Some o -> needs_sync cp (k, modified o) = false -> dst w !! k = Some (content o)) as Hup.
  { intros k o Ho Hn. unfold needs_sync, GetObjectVersion in Hn. cbn in Hn.
    destruct (ObjectVersions cp !! k) as [t|] eqn:E; [|done]. b2p. by apply (Hcp k t E). }
  split; [done|]. split; [|by exists picked]. intros Hnil k o Ho. apply Hup; [done|].
  destruct (needs_sync cp (k, modified o)) eqn:En; [|done]. exfalso.
  assert ((k, modified o) ∈ pending cp w) as Hin.
  { apply list_elem_of_In, filter_In. split; [|done]. apply list_elem_of_In, elem_of_objects. eauto. }
  destruct Ht as (rest & Hp & Hl & _). destruct picked; [|discriminate Hnil]. cbn in Hl.
  destruct (pending cp w); [by apply elem_of_nil in Hin|]. cbn in Hl. lia.
Qed.
End invariant.
