(* ===== verification/ReplicatorConvergence.v ===== *)
(** * The replicator gets there

    While clients pause and nothing fails, every cycle copies as many of the
    pending objects as the limit allows, so that enough cycles bring the
    destination up to date. Then runs on concrete buckets. *)

From S2P Require Import Prelude GoStrings GoHeap Checkpoint Replicator ReplicatorTheorems.
#[local] Open Scope Z_scope.

Section convergence.
Context (range : gmap string Z -> list (string * Z)).
Hypothesis range_perm : forall m, range m ≡ₚ map_to_list m.
Context (marshal marshalIndent : SyncCheckpoint -> option string) (unmarshal : string -> option SyncCheckpoint).
Context `{!CheckpointJSON marshal marshalIndent unmarshal}.
Hypothesis marshal_total : forall c, is_Some (marshal c) /\ is_Some (marshalIndent c).
Context (bucket : string).

Abbreviation save_ := (save marshal marshalIndent bucket).
Abbreviation loop := (sync_loop range marshal marshalIndent bucket).
Abbreviation sync := (syncOnce range marshal marshalIndent unmarshal bucket).
Abbreviation load w := (Load range unmarshal working bucket (store w) (stored w)).

(** A cycle in which nothing disturbs or fails. *)
Definition calm_copy : copy_env := mkCopy true [] true PutStored None.
Definition quiet_step (t : Z) : step_env := mkStep [] None ThrottleOk calm_copy [] t working.

Record quiet (e : cycle_env) (w : world) : Prop := {
  q_stopped : stopped e = None;
  q_overloaded : overloaded e = false;
  q_load : load_io e = working;
  q_final : final_io e = working;
  q_listing : complete (listing e) w;
  q_times : exists t, (forall i, steps e i = quiet_step (t i)) /\ clock w <= t 0 /\ forall i, t i <= t (i + 1);
}.

(** The checkpoint the next cycle starts from. *)
Definition loaded (w : world) : SyncCheckpoint := match (load w).1 with Ok cp => cp | Err _ => NewSyncCheckpoint end.

(** All keys the checkpoint and the source know. *)
Definition known (w : world) : gset string := dom (ObjectVersions (loaded w)) ∪ dom (src w).

Lemma save_working cp w :
  store (save_ working cp w) = store w /\
  (Z.of_nat (size (ObjectVersions cp)) <= maxCheckpointEntries -> loaded (save_ working cp w) = cp).
Proof using CheckpointJSON0 marshal_total.
  unfold loaded, save. destruct (Save _ _ _ _ _ _ _) as [[r s'] st'] eqn:ES. cbn [store stored].
  assert (r = Ok tt /\ s' = store w) as [-> ->].
  { unfold Save in ES. destruct (marshal_total cp) as [[d1 E1] [d2 E2]].
    unfold saveToRedis, saveToFile in ES. rewrite E1, E2 in ES. cbn in ES.
    destruct (_ && _); by simplify_eq. }
  split; [done|]. intros Hb.
  by rewrite (checkpoint_roundtrip range marshal marshalIndent unmarshal _ working _ _ _ _ _ _ Hb ES).
Qed.

Lemma no_prune t key cp :
  Z.of_nat (size (ObjectVersions cp)) < maxCheckpointEntries ->
  ObjectVersions (UpdateObjectVersion range t key t cp) = <[key := t]> (ObjectVersions cp).
Proof. intros H. unfold UpdateObjectVersion. by rewrite (proj2 (Z.leb_gt _ _)). Qed.

Lemma size_dom_le (m : gmap string Z) (u : gset string) : dom m ⊆ u -> (size m <= size u)%nat.
Proof. intros H. rewrite <- size_dom. by apply subseteq_size. Qed.

(** The loop of a quiet cycle copies every key it is given and records it with
    a time no earlier than the start. *)
Lemma quiet_loop sos total keys env t (u : gset string) : forall i p cp w c,
  (forall i, env i = quiet_step (t i)) -> (forall i, t i <= t (i + 1)) -> c <= t i -> clock w <= t i ->
  Forall (fun k => is_Some (src w !! k)) keys ->
  dom (ObjectVersions cp) ∪ dom (src w) ⊆ u -> Z.of_nat (size u) < maxCheckpointEntries ->
  let l := loop sos total i keys env p cp w in
  end_error l = None /\ src (end_world l) = src w /\ store (end_world l) = store w /\ clock w <= clock (end_world l) /\
  dom (ObjectVersions (end_checkpoint l)) ⊆ u /\
  forall k, if decide (k ∈ keys) then exists v, ObjectVersions (end_checkpoint l) !! k = Some v /\ c <= v
            else ObjectVersions (end_checkpoint l) !! k = ObjectVersions cp !! k.
Proof using CheckpointJSON0 marshal_total range_perm.
  induction keys as [|key keys IH]; intros i p cp w c He Ht Hc Hck Hin Hu Hs l.
  { subst l. cbn. split_and!; [done..|set_solver|]. intros k. rewrite decide_False; [done|apply not_elem_of_nil]. }
  subst l. cbn [sync_loop]. rewrite He. cbn [quiet_step before signal throttle copying meanwhile time_now save_io apply_edits foldl].
  apply Forall_cons in Hin as [[o Ho] Hin]. unfold copyObject. cbn [calm_copy stat_ok get_ok after_stat put_outcome_ apply_edits foldl]. rewrite Ho. cbn beta iota zeta. rewrite Nat.eqb_refl.
  set (cp' := UpdateObjectVersion range (t i) key (t i) cp).
  set (w1 := tick (t i) _).
  assert (src w1 = src w /\ store w1 = store w) as [Es Est] by done.
  set (w2 := if (_ : bool) then _ else _).
  assert (src w2 = src w /\ store w2 = store w /\ clock w2 = t i) as (Es2 & Est2 & Ec2).
  { subst w2. destruct (_ =? 0); [|done]. destruct (save_same marshal marshalIndent bucket working cp' w1) as (-> & _ & ->).
    by rewrite (proj1 (save_working cp' w1)). }
  assert (ObjectVersions cp' = <[key := t i]> (ObjectVersions cp)) as Hcp'.
  { apply no_prune. assert (dom (ObjectVersions cp) ⊆ u) as Hd%size_dom_le by set_solver. lia. }
  assert (key ∈ u) by (apply Hu; apply elem_of_union_r; by apply elem_of_dom).
  destruct (IH (i + 1) (mkProgress (synced p + 1) (skipped p) (failed p)) cp' w2 c) as (E1 & E2 & E3 & Eck & E4 & E5);
    [done|done|specialize (Ht i); lia|rewrite Ec2; apply Ht|by rewrite Es2|rewrite Es2, Hcp', dom_insert_L; set_solver|done|].
  split_and!; [done|by rewrite E2|by rewrite E3|lia|done|]. intros k. specialize (E5 k).
  destruct (decide (k ∈ keys)) as [Hk|Hk].
  { rewrite decide_True by (by right). done. }
  rewrite Hcp' in E5. destruct (decide (k = key)) as [->|Hne].
  - rewrite decide_True by (by left). rewrite lookup_insert_eq in E5. eauto.
  - rewrite decide_False by (rewrite elem_of_cons; tauto). by rewrite lookup_insert_ne in E5.
Qed.

(** A quiet cycle is one the invariant allows. *)
Lemma quiet_cycle_ok limit e w : quiet e w -> cycle_ok range unmarshal bucket limit e w.
Proof.
  intros [_ _ _ Hf _ (t & He & Ht0 & Ht)]. split; [by rewrite Hf|]. intros cp keys w' _.
  revert Ht0. generalize 0, (clock w). clear -He Ht. induction keys as [|key keys IH]; intros i c Hc; [done|].
  cbn [steps_from]. rewrite He. cbn. split_and!; [done|done|done|constructor|constructor|done|done|]. apply IH. apply Ht.
Qed.

(** Loading twice gives the same, even if the first load gave up on Redis. *)
Lemma load_again w : loaded (mkWorld (src w) (dst w) (clock w) (load w).2 (stored w)) = loaded w.
Proof.
  unfold loaded. cbn [store stored]. unfold Load. destruct (negb (degraded (store w)) && hasRedis (store w)) eqn:E.
  - destruct (loadFromRedis _ _ _ _ _) eqn:EL; cbn [fst snd].
    + by rewrite E, EL.
    + done.
  - cbn [fst snd]. by rewrite E.
Qed.

Lemma filter_filter_and {A} (P Q : A -> bool) l : List.filter P (List.filter Q l) = List.filter (fun x => Q x && P x) l.
Proof. induction l as [|x l IH]; cbn; [done|]. destruct (Q x); cbn; [destruct (P x)|]; by rewrite IH. Qed.

Lemma filter_all {A} (P : A -> bool) (l : list A) : (forall x, x ∈ l -> P x = true) -> List.filter P l = l.
Proof.
  induction l as [|x l IH]; intros H; cbn; [done|]. rewrite (H x) by (by left). f_equal. apply IH.
  intros y Hy. apply H. by right.
Qed.

Lemma filter_none {A} (P : A -> bool) (l : list A) : (forall x, x ∈ l -> P x = false) -> List.filter P l = [].
Proof.
  induction l as [|x l IH]; intros H; cbn; [done|]. rewrite (H x) by (by left). apply IH.
  intros y Hy. apply H. by right.
Qed.

Lemma objects_NoDup w : NoDup (objects w).*1.
Proof.
  unfold objects. rewrite <- list_fmap_compose. 
  rewrite (list_fmap_ext _ fst); [apply NoDup_fst_map_to_list|]. by intros i [k o].
Qed.

(** What is left when the picked objects are recorded. *)
Lemma pending_rest cp cp' w picked rest c :
  pending cp w ≡ₚ picked ++ rest -> map_Forall (fun _ o => modified o <= c) (src w) ->
  (forall k, if decide (k ∈ picked.*1) then exists v, ObjectVersions cp' !! k = Some v /\ c <= v
             else ObjectVersions cp' !! k = ObjectVersions cp !! k) ->
  pending cp' w ≡ₚ rest.
Proof.
  intros Hp Hm Hv. unfold pending.
  transitivity (List.filter (fun o => negb (bool_decide (o.1 ∈ picked.*1))) (pending cp w)).
  - unfold pending. rewrite filter_filter_and. erewrite filter_ext_in; [reflexivity|]. intros [k m] Hin.
    apply list_elem_of_In, elem_of_objects in Hin as (o & Ho & <-). specialize (Hv k). specialize (Hm k o Ho).
    unfold needs_sync, GetObjectVersion. cbn. case_bool_decide as Hk.
    + rewrite decide_True in Hv by done. destruct Hv as (v & -> & Hle). rewrite andb_false_r. apply Z.ltb_ge. cbn in Hm. lia.
    + rewrite decide_False in Hv by done. rewrite Hv. by rewrite andb_true_r.
  - assert (NoDup (picked ++ rest).*1) as Hn.
    { assert (sublist (pending cp w) (objects w)) as Hsub.
      { unfold pending. induction (objects w) as [|x l IH]; cbn; [done|]. destruct (needs_sync cp x); by constructor. }
      rewrite <- Hp. eapply sublist_NoDup; [apply objects_NoDup|by apply fmap_sublist]. }
    rewrite (filter_perm _ _ _ Hp), List.filter_app. rewrite fmap_app, NoDup_app in Hn. destruct Hn as (_ & Hdis & _).
    rewrite filter_none, filter_all; [done|..]; intros x Hx; apply (list_elem_of_fmap_2 fst) in Hx.
    + apply negb_true_iff, bool_decide_eq_false. intros Hin. by apply (Hdis x.1).
    + apply negb_false_iff. by apply bool_decide_eq_true.
Qed.

Lemma pending_same cp w w' : src w = src w' -> pending cp w = pending cp w'.
Proof. unfold pending, objects. by intros ->. Qed.

(** What a quiet cycle does to the pending objects. *)
Lemma quiet_cycle limit e r w :
  (0 < limit)%nat -> src w !! "" = None -> map_Forall (fun _ o => modified o <= clock w) (src w) ->
  Z.of_nat (size (known w)) < maxCheckpointEntries -> quiet e w ->
  let w' := (sync limit e r w).2 in
  src w' = src w /\ clock w <= clock w' /\ Z.of_nat (size (known w')) < maxCheckpointEntries /\
  length (pending (loaded w') w') = (length (pending (loaded w) w) - limit)%nat.
Proof using CheckpointJSON0 marshal_total range_perm.
  intros Hlim Hne Hm Hk Hq w'. destruct Hq as [Hs Ho Hl Hf Hc (t & He & Ht0 & Ht)].
  unfold w', syncOnce. rewrite Hs, Ho, Hl, Hf.
  destruct (detectIncremental range unmarshal bucket limit working (listing e) w) as [rd w1] eqn:Hd.
  assert (w1 = mkWorld (src w) (dst w) (clock w) (load w).2 (stored w) /\ exists keys, rd = Ok (loaded w, keys))
    as [-> [keys ->]].
  { destruct Hc as (os & El & Hos). unfold detectIncremental in Hd. unfold loaded.
    destruct (load w) as [rl s'] eqn:EL. cbn [fst snd] in *. rewrite El, collect_all in Hd.
    - injection Hd as <- <-. split; [done|]. eauto.
    - intros [k m] Hin Hk0. cbn in Hk0. subst k. rewrite Hos in Hin. apply elem_of_objects in Hin as (o & Ho' & _).
      by rewrite Hne in Ho'. }
  destruct (detect_keys range unmarshal bucket limit working _ w _ _ _ Hlim Hne Hc Hd) as (picked & -> & _ & rest & Hp & Hlen & _).
  pose proof (Permutation_length Hp) as Hlp. rewrite length_app in Hlp.
  set (w1 := mkWorld (src w) (dst w) (clock w) (load w).2 (stored w)) in *.
  destruct (decide (picked = [])) as [->|Hpk].
  { cbn [fmap list_fmap snd]. unfold known. subst w1. rewrite load_again. cbn in Hlen.
    split_and!; [done|cbn; lia|done|]. change (pending (loaded w) _) with (pending (loaded w) w). lia. }
  destruct (quiet_loop true (Zlength picked.*1) picked.*1 (steps e) t (known w) 0 (mkProgress 0 0 0) (loaded w) w1 (clock w))
    as (E1 & E2 & E3 & Eck & E4 & E5); [done..| |set_solver|done|].
  { apply Forall_forall. intros k ([k' m] & -> & Hin)%list_elem_of_fmap.
    assert ((k', m) ∈ pending (loaded w) w) as Hin' by (rewrite Hp; apply elem_of_app; by left).
    apply list_elem_of_In, filter_In in Hin' as [Hin' _]. apply list_elem_of_In, elem_of_objects in Hin' as (o & Ho' & _).
    cbn. eauto. }
  set (l := loop true _ 0 _ _ _ _ _) in *. rewrite E1.
  destruct (picked.*1) as [|k0 ks] eqn:Ek; [by destruct picked|]. cbn [snd].
  destruct (save_working (end_checkpoint l) (end_world l)) as [_ Hload].
  destruct (save_same marshal marshalIndent bucket working (end_checkpoint l) (end_world l)) as (Esrc & _ & Eclk).
  apply size_dom_le in E4 as Hsz. specialize (Hload ltac:(lia)).
  assert (src (save_ working (end_checkpoint l) (end_world l)) = src w) as Esrc' by (by rewrite Esrc, E2).
  split; [done|]. split; [by rewrite Eclk|]. split.
  - unfold known. rewrite Hload, Esrc'.
    assert (dom (ObjectVersions (end_checkpoint l)) ∪ dom (src w) ⊆ known w) as Hsub%subseteq_size
      by (unfold known in *; set_solver). lia.
  - rewrite Hload. rewrite (pending_same _ _ w Esrc').
    rewrite <- Ek in E5. rewrite (Permutation_length (pending_rest (loaded w) _ w picked rest (clock w) Hp Hm E5)). lia.
Qed.

(** [n] quiet cycles in a row. *)
Inductive quiet_run (limit : nat) : nat -> world -> world -> Prop :=
  | run_done w : quiet_run limit 0 w w
  | run_more n e r w w' : quiet e w -> quiet_run limit n (sync limit e r w).2 w' -> quiet_run limit (S n) w w'.

(** C34: when clients pause and nothing fails, the destination holds every
    object of the source after as many cycles as the pending objects need, a
    limit's worth at a time. This is for a world that was reached without a
    change of an object during its copy, whose source has no object stamped
    later than the replicator's clock, and with fewer known objects than a
    checkpoint holds (100000). What else the destination holds stays there. *)
Theorem replication_converges limit n w w' :
  (0 < limit)%nat -> reachable range marshal marshalIndent unmarshal bucket w -> src w !! "" = None ->
  map_Forall (fun _ o => modified o <= clock w) (src w) ->
  Z.of_nat (size (known w)) < maxCheckpointEntries ->
  (length (pending (loaded w) w) <= n * limit)%nat -> quiet_run limit n w w' ->
  src w' = src w /\ forall k o, src w !! k = Some o -> dst w' !! k = Some (content o).
Proof using CheckpointJSON0 marshal_total range_perm.
  intros Hlim Hr Hne Hm Hk Hn Hrun. revert Hr Hne Hm Hk Hn.
  induction Hrun as [w|n e r w w' Hq _ IH]; intros Hr Hne Hm Hk Hn.
  - split; [done|]. intros k o Ho. pose proof (replicas_ok _ range_perm _ _ _ _ w Hr) as Hst.
    assert (cp_ok w (loaded w)) as Hcp.
    { unfold loaded. destruct (load w) as [[cp|] s'] eqn:EL; [by eapply load_ok|apply cp_ok_new]. }
    assert (needs_sync (loaded w) (k, modified o) = false) as Hs.
    { apply not_true_iff_false. intros Hs. assert ((k, modified o) ∈ pending (loaded w) w) as Hin.
      { apply list_elem_of_In, filter_In. split; [|done]. apply list_elem_of_In, elem_of_objects. eauto. }
      destruct (pending (loaded w) w); [by apply elem_of_nil in Hin|cbn in Hn; lia]. }
    unfold needs_sync, GetObjectVersion in Hs. cbn in Hs.
    destruct (ObjectVersions (loaded w) !! k) as [t|] eqn:E; [|done]. b2p. by apply (Hcp k t E).
  - destruct (quiet_cycle limit e r w Hlim Hne Hm Hk Hq) as (Es & Ec & Hk' & Hl).
    destruct IH as [E1 E2]; [by apply r_cycle; [|apply quiet_cycle_ok]|by rewrite Es| |done|rewrite Hl; lia|].
    { rewrite Es. intros k o Ho. specialize (Hm k o Ho). cbn in *. lia. }
    rewrite Es in *. done.
Qed.
End convergence.

(** A full checkpoint forgets half of its entries at the next copy; their
    objects are pending again, so a bucket with more objects than that is
    never done. *)
Lemma full_checkpoint_forgets range t key c :
  (forall m, range m ≡ₚ map_to_list m) -> maxCheckpointEntries <= Z.of_nat (size (ObjectVersions c)) ->
  Z.of_nat (size (ObjectVersions (UpdateObjectVersion range t key t c))) <= maxCheckpointEntries / 2 + 1.
Proof.
  intros Hr Hs. unfold UpdateObjectVersion. rewrite (proj2 (Z.leb_le _ _)) by done. cbn [ObjectVersions].
  assert (0 < maxCheckpointEntries / 2 < maxCheckpointEntries) as Hh by done.
  destruct (prune_top range Hr (Z.to_nat (maxCheckpointEntries / 2)) c) as (_ & _ & Hsz & _); [lia..|].
  set (m := ObjectVersions (pruneOldEntries _ _ _)) in *.
  assert (size (<[key := t]> m) <= S (size m))%nat.
  { destruct (m !! key) eqn:E; [rewrite map_size_insert_Some by eauto; lia|by rewrite map_size_insert_None]. }
  lia.
Qed.

(** ** Runs *)

Module ReplicatorDemo.

Definition marshal_ (c : SyncCheckpoint) : option string := Some (checkpoint_text c).

Definition w0 : world :=
  mkWorld (list_to_map [("a", mkObject "x" 1); ("b", mkObject "y" 2); ("c", mkObject "z" 3)]) ∅ 10
          (NewCheckpointStore true "") (mkStorage ∅ ∅).

Definition quiet_env (start : Z) (w : world) : cycle_env :=
  mkCycle None false working (Some <$> objects w) (fun i => quiet_step (start + i)) working.

Abbreviation run_cycle e w := ((syncOnce map_to_list marshal_ marshal_ text_checkpoint "b" 2 e NewReplicator w).2).

Definition w1 : world := run_cycle (quiet_env 10 w0) w0.
Definition w2 : world := run_cycle (quiet_env 20 w1) w1.

Lemma w0_reachable : reachable map_to_list marshal_ marshal_ text_checkpoint "b" w0.
Proof. apply r_start; [done|done|]. by apply (bool_decide_unpack _); vm_compute. Qed.

Lemma quiet_env_ok start w : clock w <= start -> quiet (quiet_env start w) w.
Proof.
  intros H. split; try done; [by exists (objects w)|]. exists (fun i => start + i). split_and!; [done|lia|intros; lia].
Qed.

Lemma replication_converges_witness :
  dst w2 !! "a" = Some "x" /\ dst w2 !! "c" = Some "z".
Proof.
  assert (quiet_run map_to_list marshal_ marshal_ text_checkpoint "b" 2 2 w0 w2) as Hrun.
  { eapply (run_more _ _ _ _ _ _ _ (quiet_env 10 w0) NewReplicator); [apply quiet_env_ok; done|].
    eapply (run_more _ _ _ _ _ _ _ (quiet_env 20 w1) NewReplicator); [|apply run_done].
    apply quiet_env_ok. vm_compute. discriminate. }
  pose proof (replication_converges map_to_list (fun m => reflexivity _) marshal_ marshal_ text_checkpoint
    (fun c => conj (ex_intro _ _ eq_refl) (ex_intro _ _ eq_refl)) "b" 2 2 w0 w2) as H.
  destruct H as [_ H]; [lia|apply w0_reachable|done|by apply (bool_decide_unpack _); vm_compute|done
    |apply Nat.leb_le; by vm_compute|exact Hrun|].
  split; [apply (H "a" (mkObject "x" 1))|apply (H "c" (mkObject "z" 3))]; done.
Defined.

Lemma w1_reachable : reachable map_to_list marshal_ marshal_ text_checkpoint "b" w1.
Proof. apply r_cycle; [apply w0_reachable|]. apply quiet_cycle_ok. by apply quiet_env_ok. Qed.

(** The first cycle has copied the two newest objects, the next one picks the third. *)
Definition cp1 : SyncCheckpoint := Eval vm_compute in
  match (detectIncremental map_to_list text_checkpoint "b" 2 working (Some <$> objects w1) w1).1 with Ok (cp, _) => cp | Err _ => NewSyncCheckpoint end.

Lemma w1_facts : src w1 !! "" = None /\ src w1 !! "c" = Some (mkObject "z" 3) /\ dst w1 !! "a" = None /\
  (detectIncremental map_to_list text_checkpoint "b" 2 working (Some <$> objects w1) w1).1 = Ok (cp1, ["a"]).
Proof. split_and!; vm_compute; reflexivity. Qed.

Lemma complete_objects w : complete (Some <$> objects w) w.
Proof. by exists (objects w). Qed.

Lemma replication_safe_witness : dst w1 !! "c" = Some "z" /\ dst w1 !! "a" = None.
Proof.
  destruct w1_facts as (Hne & Hc & Ha & Hd). split; [|exact Ha]. pose proof w1_reachable as Hr.
  assert (needs_sync cp1 ("c", 3) = false) as Hn by (vm_compute; reflexivity).
  revert Hne Hc Hr Hd. generalize w1. clear Ha. intros w Hne Hc Hr Hd.
  destruct (detectIncremental _ _ _ _ _ _ w) as [r w'] eqn:E. cbn [fst] in Hd. subst r.
  pose proof (replication_safe map_to_list (fun m => reflexivity _) marshal_ marshal_ text_checkpoint "b" 2 working
    _ w cp1 ["a"] w' ltac:(lia) Hr Hne (complete_objects w) E) as [H _].
  exact (H "c" (mkObject "z" 3) Hc Hn).
Defined.

(** An object that a client changes after it was read and before its copy
    is stamped keeps its old content at the destination: the stamp is newer
    than the change, and no later cycle picks the object. *)
Theorem edit_during_copy_lost :
  let start := mkWorld {["a" := mkObject "old" 1]} ∅ 10 (NewCheckpointStore true "") (mkStorage ∅ ∅) in
  let env := mkCycle None false working [Some ("a", 1)]
               (fun _ => mkStep [] None ThrottleOk calm_copy [Put "a" "new" 15] 20 working) working in
  let w := run_cycle env start in
  src w !! "a" = Some (mkObject "new" 15) /\ dst w !! "a" = Some "old" /\
  (detectIncremental map_to_list text_checkpoint "b" 2 working [Some ("a", 15)] w).1 =
    Ok (mkCheckpoint 20 {["a" := 20]} 1 [], []).
Proof. by vm_compute. Qed.

(** A cycle that is cut short leaves the status at running. *)
Lemma stopped_cycle_still_running :
  let env := mkCycle None false working (Some <$> objects w0)
               (fun _ => mkStep [] (Some false) ThrottleOk calm_copy [] 20 working) working in
  IsRunning (syncOnce map_to_list marshal_ marshal_ text_checkpoint "b" 2 env NewReplicator w0).1.2 = true.
Proof. by vm_compute. Qed.
End ReplicatorDemo.
